(* ===== verification/_CoqProject ===== *)
-Q . S2P
Prelude.v
Bytes.v
TxId.v
Snapshot.v
TxState.v
Mvcc.v
LockTable.v
Checksum.v
Io.v
WalRecord.v
WalWriter.v
WalLog.v
WoundWait.v
Phantom.v
TxManager.v
ValueCodec.v
Key.v
SlottedPage.v
PageFile.v
Aries.v
DoubleWrite.v
Superblock.v
BufferPool.v
PageAlloc.v
BTreePage.v
BTree.v
BTreeNode.v
BTreeSpec.v
BTreeInsert.v
BTreeRange.v
BTreeDelete.v
BTreeMap.v
GraphRecord.v
Adjacency.v
Csr.v
Catalog.v
HeapPage.v
GraphHeap.v
GraphHeapSpec.v
GraphWire.v
GraphEngine.v
GraphEngineSpec.v
GraphHeapRep.v
GraphApi.v
GraphRefine.v
GraphHistory.v
GraphRestart.v
PageIo.v
GraphDisk.v
Text.v
RdfTerm.v
Turtle.v
RdfStore.v
RdfSpec.v
RdfRebuild.v
