(* ===== verification/Prelude.v ===== *)
(** * RGraph verification library: prelude (root file)

    RGraph is an embedded graph database in Rust.  This library models its
    transaction, logging, recovery, page and buffer layers, its indexes, the
    property-graph engine built on them, the catalog, the RDF store and the
    Turtle reader and writer, and proves the properties those layers rely on,
    up to an end-to-end theorem about the graph on its files.

    ** The program and the files that model it

    - transactions ([src/src/txn/]): [TxId] (id allocator, [txid.rs]),
      [Snapshot] (visibility, [snapshot.rs]), [TxState] (global state shared
      by all threads, [state.rs]), [Mvcc] (row-version headers, [mvcc.rs]),
      [LockTable] (sharded locks with FIFO queues, [lock_table.rs]),
      [WoundWait] ([wound_wait.rs]), [Phantom] (SSI flags, [phantom.rs]) and
      [TxManager] (begin, lock requests, commit, rollback, [manager.rs]).  The
      manager calls all of them, and the write-ahead log through the class
      [WalLog.WalLog];
    - files ([src/src/io/mod.rs], [io/posix.rs]): [Io], a world of files with
      cached and durable contents, in directories whose changes a power loss
      may undo until the directory is synced; a script of outcomes drives every
      fallible call, so quantifying over scripts covers every placement of errors and
      of partial writes;
    - logging and recovery ([src/src/wal/]): [WalRecord] (record codec and
      segment scan, [record.rs]), [WalWriter] (LSNs, buffering, flush,
      rotation, archiving, reopening, [writer.rs]), [WalLog] (what the manager
      relies on, discharged for the writer), [Aries] (loading, ANALYSIS, REDO,
      UNDO and payloads, [aries.rs]; the checkpoint payload of
      [checkpoint.rs]), [DoubleWrite] (staging and torn-page recovery,
      [doublewrite.rs]); [PageFile] holds the page-wise view of the data file;
    - storage ([src/src/storage/]): [SlottedPage] (byte level, [page.rs]),
      [Superblock] ([meta.rs] and the sync of [manager.rs]), [PageAlloc]
      (bitmaps, cache, allocation, [bitmap.rs], [manager.rs]) and [PageIo]
      (page reads and writes through the pool or straight to the file, bitmap
      persistence, opening, reconciliation with the disk, [manager.rs]);
    - buffer pool ([src/src/buffer/]): [BufferPool] (frames, page table, clock
      eviction, write-back, prefetch, [pool.rs], [frame.rs], [readahead.rs]);
    - indexes ([src/src/index/]): [ValueCodec] ([value_codec.rs]), [Key]
      ([key.rs], [prefix.rs]), [BTreePage] (pages of a tree, [page.rs]) and
      [BTree] (search, insert, delete, scans, [btree.rs], [cursor.rs]).  The
      proofs about the tree are in [BTreeNode] (one page), [BTreeSpec] (trees,
      contexts, leaf chains), [BTreeInsert], [BTreeRange], [BTreeDelete] and
      [BTreeMap] (the refinement of a finite map);
    - the property graph ([src/src/graph/]): [GraphRecord] (fixed-width
      records and slot references, [record.rs]), [Adjacency] (doubly linked
      edge lists, [adjacency.rs]), [Csr] (frozen adjacency, [csr.rs]),
      [GraphHeap] (records in pages, adjacency wiring, the pending layer),
      [GraphEngine] (transactional operations, indexes, scans, freezing,
      rebuilding, [engine.rs]) and [GraphApi] (nodes, relationships and
      properties, [graph.rs], [property.rs], [builder.rs]).  [HeapPage],
      [GraphHeapSpec], [GraphWire], [GraphEngineSpec], [GraphHeapRep] and
      [GraphRefine] carry the proofs, [GraphHistory] the refinement of an
      abstract graph, [GraphRestart] the rebuild after a restart, [GraphDisk]
      the engine over the page manager's files and the log writer;
    - [Catalog] (names and ids of labels, types and keys, [src/src/catalog/]);
    - RDF ([src/src/rdf/], [src/src/cli/turtle.rs]): [Text] (UTF-8 text),
      [RdfTerm] (terms, records and N-Triples output), [RdfStore] (dictionary,
      quads, persistence, matching, rebuild), with its proofs in [RdfSpec] and
      [RdfRebuild], and [Turtle] (parser and export);
    - [Bytes] and [Checksum]: fixed-width byte encodings, and the class
      [Checksum.Checksums] that stands for the third-party crc32c and xxhash
      crates (all that is used of them: results in range).

    Components meet at type classes: [WalLog.WalLog] (the log),
    [GraphHeap.PageStore] with [GraphHeapSpec.PageStoreLaws] (page storage) and
    [Adjacency.EdgeRecordView] (edge records).  [WalLog] discharges the first
    for the log writer, [GraphDisk] the second for the page manager, [GraphWire]
    relates the third to the heap.

    State is a record per struct, passed explicitly; methods that can fail
    return [result] or, over files, run in the monad [Io.Act], where an error
    keeps the changes made before it.  An [unwrap] or slice access that would
    panic is [None].  Fixed-width integers are [Z] with [wrap] written out.
    Atomics and mutexes are modelled by the steps another thread can
    interleave with: [TxState.step] is the relation over the shared
    transaction state, and a blocked lock request is driven by a list of
    turns, each giving what other threads did and what the wait channel
    answered.  Clocks, hash-map iteration order and checksums are parameters.

    ** What the theorems show

    - snapshot isolation: under every interleaving the visibility test of row
      versions without hint bits equals the specification evaluated when the
      snapshot was taken; the xmin
      horizon is monotone and a lower bound; ids are unique and survive a
      restart;
    - locking: the table's invariant over all histories, mutual exclusion of
      transactions that neither strengthen a lock nor ask for less than they
      are queued for, FIFO granting, what each answer of an acquisition means
      for the table and the books, and that a cycle of waiting transactions,
      which can arise, is broken by a retry;
    - commit and rollback on every branch, against the [WalLog] contract, for
      transactions whose locks are on their books: [Ok] means a durable commit
      record;
    - the log: records round trip and torn ones are rejected; what a flush
      acknowledged is read back from any crash image when failing writes
      transfer nothing; LSNs increase;
    - recovery: ANALYSIS computes outcomes and first-dirty LSNs, REDO is the
      page-wise replay of committed images and is idempotent, UNDO terminates,
      and recovery of a no-steal log without I/O errors installs the latest
      committed image of every page that no later compensation record is for;
    - slotted pages refine a list of optional records (insert, insert_at,
      delete, read) as long as no compaction is needed; checksums verify;
    - storage: a superblock sync that starts from a valid primary and is
      interrupted anywhere loads as old or new; a page handed out is free; a
      staged batch in page order survives torn in-place writes that checksums
      detect; page access on either route reads back what was written, repairs
      a damaged page only with its own staged image and touches no other page; reconciliation marks exactly the pages that hold records;
    - the buffer pool is transparent (guards show the last content written,
      clean pages are durable) and finds a frame whenever one can be freed;
    - value and key encodings are injective and order preserving;
    - the B+ tree: every history of inserts, deletes, lookups and scans on a
      fresh tree within the limits below runs without panic or error and answers
      as a finite map; its pages are well typed; a cursor advanced to a key
      stands on the first entry at or above it, and draining a new cursor gives
      the chain scan unless it starts behind the last key of a leaf;
    - the graph: records round trip; interleaved operations on the linked edge
      lists of many nodes answer as plain lists; the frozen adjacency lists
      exactly the live edges; every history of graph operations without
      properties on a healthy store and log answers as an abstract graph with
      ordered adjacency lists; after a restart the rebuilt indexes answer
      as the same graph less its tombstones; and on the files themselves a
      history survives a power loss and opening with stale allocation state
      whose free-list cache still ends in unused pages;
    - the catalog assigns ids injectively and for good, and persisting it is
      atomic under every error and power loss, the loss of unsynced renames
      included;
    - RDF: the store answers as a set of quads under every behaviour of the
      page store and the log, and the restart scan restores dictionary and
      quads; codecs round trip; the Turtle parser ends on every input and
      reads back what the export writes.

    Where the code falls short of what it means to do, a theorem exhibits it
    on a concrete or general input: lock upgrades, requests beside a queued one,
    cycles of parked transactions, locks granted to transactions that gave up
    or wounded a holder, wounded commits, wound counters, hints that bypass the snapshot, the GC horizon, 32-bit ids, a
    torn write retried, a second torn superblock sync, reopening after
    archiving, compensation records of
    unrestorable pages, page compaction, frames lost by failed reads and
    writes, pages allocated twice after reopening or after reconciliation,
    cursor scans that start behind the last key of a leaf, branches that
    overflow unnoticed, edges deleted twice, relationships on deleted nodes, long catalog names, RDF terms lost
    by a failed commit, RDF and graph records mistaken for each other, and
    Turtle documents the reader rejects or the export cannot express.

    ** Bounds and fuel

    Segment scans take the length of the buffer as fuel (a record has positive
    size); segment probes take the number of files plus two; an UNDO chain
    takes one step per record plus one, proved enough when chains point
    backwards; lock waits run over the given list of turns and report when it
    is used up.  Page and LSN arithmetic is bounded by the widths of the code;
    recovery theorems ask page numbers to be below 2^51, so that byte offsets
    do not wrap.  A descent of the B+ tree and a walk of its leaf chain take
    one step per stored page plus one; a cursor scan takes 2024 steps per page.
    The B+ tree theorems fix the widths of keys (8 to 1000 bytes) and records
    (at most 2048 bytes, the longest a slotted page accepts), as each index
    of the program does; branch sizes must avoid the window in which an
    overflow goes unnoticed, or the history must be too short to fill a branch;
    an operation allocates at most 65 pages, so fewer than 2^56 operations do
    not wrap page ids.  For that reason graph histories have at most 224
    operations ([MAX_OPS]: the 24-byte keys of the label and type indexes) and
    RDF histories at most 154 insertions ([MAX_QUADS]: 40-byte keys); records
    of at least 32 bytes ([MIN_RECORD]) keep a page below 256 slots, so RDF
    terms must have encodings of 23 bytes or more.  Scans of
    an edge list stop after 65536 hops, as in the code.  A log record of the
    engine holds at most a page image ([LOG_ROOM]), which fits the log buffer.
    The Turtle parser takes one step of fuel per character, proved enough for
    every input.

    ** Not modelled

    - The glue of opening, syncing and checkpointing the engine ([open],
      [sync], [checkpoint] of [engine.rs], [Checkpoint::run]): their parts are
      definitions, their sequence is not one; the end-to-end theorem runs the
      page manager's direct route, since prefetching can lose frames of the
      pool for good and no bound on allocations is then provable.
    - The pooled and logged modes and the latches of the B+ tree, bulk loading,
      page defragmentation, the permutation-index lookups and scans of
      [index/rdf_store.rs], conversion of RDF terms to Cypher values.
    - The background flusher, group commit and NUMA placement (threads, timers
      and system calls around modelled operations), and the older redo-only
      recovery, which ARIES recovery replaces.
    - The Cypher front end and executor: its lexer is generated by a macro
      crate, its planner and interpreter sit above the storage core and were
      left out for size; the server, the runtime, the CLI apart from Turtle,
      the configuration and the facade are input/output and dispatch.

    This file holds what the components share: results, the tactics and hint
    database, fixed-width integers, list slices, and ordered sets. *)

From stdpp Require Import prelude list gmap sorting.
From Stdlib Require Import ZArith Lia Sorted.

#[global] Open Scope Z_scope.

(** ** Results

    Rust's [Result<T, E>].  Fallible operations of the source return it; the
    error is a value the caller inspects. *)

Inductive result (A E : Type) : Type :=
| Ok (a : A)
| Err (e : E).
Arguments Ok {A E} a.
Arguments Err {A E} e.

Definition is_ok {A E} (r : result A E) : bool :=
  match r with Ok _ => true | Err _ => false end.

Declare Scope rg_scope.
Delimit Scope rg_scope with rg.
Notation "'let!' x ':=' c 'in' k" :=
  (match c with Ok x => k | Err e => Err e end)
  (at level 200, x pattern, c at level 100, k at level 200) : rg_scope.

#[global] Instance result_eq_dec {A E} `{EqDecision A} `{EqDecision E} :
  EqDecision (result A E).
Proof. solve_decision. Defined.

(** ** Automation

    [rg_bool] turns every boolean comparison hypothesis into the proposition
    it decides; [rg_case] splits on the first [if]/[match] scrutinee of the
    goal; [rg_solve] finishes arithmetic leaves. *)

Create HintDb rg.

Ltac rg_bool :=
  repeat match goal with
  | H : (_ && _)%bool = true |- _ => apply andb_prop in H as [? ?]
  | H : (_ || _)%bool = false |- _ => apply orb_false_iff in H as [? ?]
  | H : negb _ = true |- _ => apply negb_true_iff in H
  | H : negb _ = false |- _ => apply negb_false_iff in H
  | H : (_ =? _) = true |- _ => apply Z.eqb_eq in H
  | H : (_ =? _) = false |- _ => apply Z.eqb_neq in H
  | H : (_ <? _) = true |- _ => apply Z.ltb_lt in H
  | H : (_ <? _) = false |- _ => apply Z.ltb_ge in H
  | H : (_ <=? _) = true |- _ => apply Z.leb_le in H
  | H : (_ <=? _) = false |- _ => apply Z.leb_gt in H
  | H : (_ =? _)%nat = true |- _ => apply Nat.eqb_eq in H
  | H : (_ =? _)%nat = false |- _ => apply Nat.eqb_neq in H
  | H : (_ <? _)%nat = true |- _ => apply Nat.ltb_lt in H
  | H : (_ <? _)%nat = false |- _ => apply Nat.ltb_ge in H
  | H : (_ <=? _)%nat = true |- _ => apply Nat.leb_le in H
  | H : (_ <=? _)%nat = false |- _ => apply Nat.leb_gt in H
  | H : bool_decide _ = true |- _ => apply bool_decide_eq_true in H
  | H : bool_decide _ = false |- _ => apply bool_decide_eq_false in H
  end.

Ltac rg_case :=
  match goal with
  | |- context [match ?c with _ => _ end] => destruct c eqn:?
  | |- context [if ?c then _ else _] => destruct c eqn:?
  end.

Ltac rg_case_in H :=
  match type of H with
  | context [match ?c with _ => _ end] => destruct c eqn:?
  | context [if ?c then _ else _] => destruct c eqn:?
  end.

Ltac rg_solve := rg_bool; simplify_eq/=; auto with rg; try done; try lia.

(** ** Fixed-width integers

    A Rust [uN] is a [Z] in [[0, 2^N)]; wrap-around is written out with
    [wrap]. *)

Definition uint (w z : Z) : Prop := 0 <= z < 2 ^ w.
Abbreviation is_u8 := (uint 8).
Abbreviation is_u16 := (uint 16).
Abbreviation is_u32 := (uint 32).
Abbreviation is_u64 := (uint 64).
Abbreviation is_u128 := (uint 128).

Definition wrap (w z : Z) : Z := z mod 2 ^ w.

Definition U16_MAX : Z := 65535.
Definition U32_MAX : Z := 4294967295.
Definition U64_MAX : Z := 18446744073709551615.

#[global] Instance uint_dec w z : Decision (uint w z).
Proof. unfold uint. apply _. Defined.

Lemma wrap_range w z : 0 <= w -> uint w (wrap w z).
Proof. intros. apply Z.mod_pos_bound, Z.pow_pos_nonneg; lia. Qed.

Lemma wrap_id w z : uint w z -> wrap w z = z.
Proof. apply Z.mod_small. Qed.

#[export] Hint Resolve wrap_range wrap_id : rg.

(** Bits of a [w]-bit integer. *)
Lemma uint_bits_high w x k : 0 <= w -> uint w x -> w <= k -> Z.testbit x k = false.
Proof.
  intros Hw Hx Hk. unfold uint in Hx. rewrite <- (Z.mod_small x (2 ^ w)) by lia.
  apply Z.mod_pow2_bits_high. lia.
Qed.

Lemma uint_of_bits w x :
  0 <= w -> 0 <= x -> (forall k, w <= k -> Z.testbit x k = false) -> uint w x.
Proof.
  intros Hw Hx Hk. split; [done|]. destruct (Z.eq_dec x 0) as [->|].
  { apply Z.pow_pos_nonneg; lia. }
  apply Z.log2_lt_pow2; [lia|]. destruct (Z.lt_ge_cases (Z.log2 x) w); [done|].
  specialize (Hk (Z.log2 x) ltac:(lia)). rewrite Z.bit_log2 in Hk by lia. done.
Qed.

Lemma uint_lor w x y : 0 <= w -> uint w x -> uint w y -> uint w (Z.lor x y).
Proof.
  intros Hw Hx Hy. apply uint_of_bits; [done| |].
  - apply Z.lor_nonneg. unfold uint in *. lia.
  - intros k Hk. rewrite Z.lor_spec, !(uint_bits_high w) by done. done.
Qed.

Lemma uint_land_l w x y : 0 <= w -> uint w x -> uint w (Z.land x y).
Proof.
  intros Hw Hx. apply uint_of_bits; [done| |].
  - apply Z.land_nonneg. unfold uint in *. lia.
  - intros k Hk. rewrite Z.land_spec, (uint_bits_high w x) by done. done.
Qed.

(** Clearing the bits of [f] with [x & !f] at width [w]. *)
Lemma testbit_clear w x f k :
  0 <= w -> uint w x -> 0 <= k ->
  Z.testbit (Z.land x (Z.lxor f (Z.ones w))) k = Z.testbit x k && negb (Z.testbit f k).
Proof.
  intros Hw Hx Hk. rewrite Z.land_spec, Z.lxor_spec. destruct (decide (k < w)).
  - rewrite Z.ones_spec_low by lia. by rewrite xorb_true_r.
  - rewrite (uint_bits_high w x) by (done || lia). done.
Qed.

(** A non-zero conjunction has a common bit. *)
Lemma land_nonzero_bit x y :
  0 <= x -> Z.land x y ≠ 0 <-> exists i, 0 <= i /\ Z.testbit x i = true /\ Z.testbit y i = true.
Proof.
  intros Hx. split.
  - intros Hne. assert (0 <= Z.land x y) by (apply Z.land_nonneg; lia).
    exists (Z.log2 (Z.land x y)). split; [apply Z.log2_nonneg|].
    pose proof (Z.bit_log2 (Z.land x y) ltac:(lia)) as Hb. rewrite Z.land_spec in Hb.
    by apply andb_prop in Hb.
  - intros (i & Hi & H1 & H2) E. pose proof (Z.land_spec x y i) as C.
    rewrite E, H1, H2, Z.bits_0 in C. done.
Qed.

#[export] Hint Resolve uint_lor uint_land_l : rg.

(** Saturating and checked arithmetic of the standard library. *)

Definition saturating_sub (a b : nat) : nat := (a - b)%nat.
Definition saturating_add (w a b : Z) : Z := Z.min (a + b) (2 ^ w - 1).
Definition checked_add (w a b : Z) : option Z :=
  if a + b <? 2 ^ w then Some (a + b) else None.
Definition checked_mul (w a b : Z) : option Z :=
  if a * b <? 2 ^ w then Some (a * b) else None.

(** ** Slices

    [slice l a b] is [&l[a..b]]; [write_at l off bs] is
    [l[off..off+bs.len()].copy_from_slice(bs)].  Callers state the bounds under
    which Rust does not panic. *)

Definition slice {A} (l : list A) (a b : nat) : list A := take (b - a) (drop a l).

Definition write_at {A} (l : list A) (off : nat) (bs : list A) : list A :=
  take off l ++ bs ++ drop (off + length bs) l.

Lemma length_slice {A} (l : list A) a b :
  (a <= b)%nat -> (b <= length l)%nat -> length (slice l a b) = (b - a)%nat.
Proof. intros. unfold slice. rewrite length_take, length_drop. lia. Qed.

Lemma length_write_at {A} (l : list A) off bs :
  (off + length bs <= length l)%nat -> length (write_at l off bs) = length l.
Proof.
  intros. unfold write_at. rewrite !length_app, length_take, length_drop. lia.
Qed.

Lemma lookup_write_at {A} (l : list A) off bs i :
  (off + length bs <= length l)%nat ->
  write_at l off bs !! i =
    if decide (off <= i < off + length bs)%nat then bs !! (i - off)%nat else l !! i.
Proof.
  intros Hlen. unfold write_at.
  assert (length (take off l) = off) as Ht by (rewrite length_take; lia).
  case_decide as Hd.
  - rewrite lookup_app_r by lia. rewrite Ht. rewrite lookup_app_l by lia. done.
  - destruct (decide (i < off)%nat).
    + rewrite lookup_app_l by lia. apply lookup_take_lt. lia.
    + rewrite lookup_app_r by lia. rewrite Ht, lookup_app_r by lia.
      rewrite lookup_drop. f_equal. lia.
Qed.

Lemma lookup_slice {A} (l : list A) a b i :
  slice l a b !! i = if decide (i < b - a)%nat then l !! (a + i)%nat else None.
Proof.
  unfold slice. case_decide.
  - rewrite lookup_take_lt by lia. apply lookup_drop.
  - apply lookup_take_ge. lia.
Qed.

Lemma slice_write_at_eq {A} (l : list A) off bs :
  (off + length bs <= length l)%nat ->
  slice (write_at l off bs) off (off + length bs) = bs.
Proof.
  intros. apply list_eq; intros i. rewrite lookup_slice.
  case_decide.
  - rewrite lookup_write_at, decide_True by lia. f_equal. lia.
  - symmetry. apply lookup_ge_None. lia.
Qed.

Lemma slice_write_at_ne {A} (l : list A) off bs a b :
  (off + length bs <= length l)%nat ->
  (b <= off \/ off + length bs <= a)%nat ->
  slice (write_at l off bs) a b = slice l a b.
Proof.
  intros ? Hd. apply list_eq; intros i. rewrite !lookup_slice.
  case_decide; [|done]. rewrite lookup_write_at, decide_False by lia. done.
Qed.

(** A slice spanning an [app]. *)
Lemma slice_app_l {A} (l k : list A) a b :
  (b <= length l)%nat -> slice (l ++ k) a b = slice l a b.
Proof.
  intros. apply list_eq; intros i. rewrite !lookup_slice.
  case_decide; [|done]. apply lookup_app_l. lia.
Qed.

Lemma slice_app_r {A} (l k : list A) a b :
  (length l <= a)%nat ->
  slice (l ++ k) a b = slice k (a - length l) (b - length l).
Proof.
  intros. apply list_eq; intros i. rewrite !lookup_slice.
  destruct (decide (i < b - a)%nat), (decide (i < b - length l - (a - length l))%nat);
    try lia; [|done].
  rewrite lookup_app_r by lia. f_equal. lia.
Qed.

Lemma slice_full {A} (l : list A) : slice l 0 (length l) = l.
Proof. unfold slice. rewrite drop_0, Nat.sub_0_r, firstn_all. done. Qed.

(** ** Bisection

    The loop [while lo < hi { mid = (lo + hi) / 2; ... }] that the source uses
    for every ordered probe: [p i] says the probe at [i] moves [lo] past [i].
    [hi - lo] iterations always suffice (each one shrinks the interval), so
    callers pass the initial width as fuel. *)

Fixpoint bisect (fuel : nat) (p : nat -> bool) (lo hi : nat) : nat :=
  match fuel with
  | O => lo
  | S f =>
      if (lo <? hi)%nat then
        let mid := ((lo + hi) / 2)%nat in
        if p mid then bisect f p (mid + 1) hi else bisect f p lo mid
      else lo
  end.

Lemma bisect_spec fuel p lo hi :
  (hi - lo <= fuel)%nat -> (lo <= hi)%nat ->
  (forall i j, (lo <= i <= j)%nat -> (j < hi)%nat -> p j = true -> p i = true) ->
  (lo <= bisect fuel p lo hi <= hi)%nat /\
  (forall i, (lo <= i < bisect fuel p lo hi)%nat -> p i = true) /\
  (forall i, (bisect fuel p lo hi <= i < hi)%nat -> p i = false).
Proof.
  revert lo hi. induction fuel as [|f IH]; intros lo hi Hf Hle Hmono; cbn [bisect]; cbv zeta.
  { repeat split; try lia; intros; lia. }
  destruct (Nat.ltb_spec lo hi) as [Hlt|Hge].
  2:{ repeat split; try lia; intros; lia. }
  assert (lo <= (lo + hi) / 2 < hi)%nat as Hmid.
  { split; [apply Nat.div_le_lower_bound; lia | apply Nat.div_lt_upper_bound; lia]. }
  set (mid := ((lo + hi) / 2)%nat) in *.
  destruct (p mid) eqn:Hp.
  - destruct (IH (mid + 1)%nat hi) as (Hr & Ht & Hff); [lia|lia| |].
    { intros i j ? ? ?. apply (Hmono i j); try lia; done. }
    split; [lia|]. split; [|exact Hff].
    intros i Hi. destruct (decide (i <= mid)%nat).
    + apply (Hmono i mid); try lia; done.
    + apply Ht. lia.
  - destruct (IH lo mid) as (Hr & Ht & Hff); [lia|lia| |].
    { intros i j ? ? ?. apply (Hmono i j); try lia; done. }
    split; [lia|]. split; [exact Ht|].
    intros i Hi. destruct (decide (i < mid)%nat); [apply Hff; lia|].
    destruct (p i) eqn:Hpi; [|done].
    rewrite (Hmono mid i) in Hp; try lia; done.
Qed.

(** [slice::binary_search(&x).is_ok()]: lower bound by bisection, then an
    equality probe. *)
Definition binary_search_ok (l : list Z) (x : Z) : bool :=
  let n := length l in
  let i := bisect n (fun i => match l !! i with Some y => y <? x | None => false end) 0 n in
  match l !! i with Some y => y =? x | None => false end.

Lemma sorted_lookup_mono (l : list Z) i j x y :
  StronglySorted Z.le l -> (i <= j)%nat ->
  l !! i = Some x -> l !! j = Some y -> x <= y.
Proof.
  intros Hs. revert i j. induction Hs as [|a l Hs IH Hall]; intros i j Hij Hi Hj; [done|].
  destruct i, j; simplify_eq/=; try lia.
  - rewrite Forall_lookup in Hall. by eapply Hall.
  - eapply (IH i j); [lia|done|done].
Qed.

Lemma binary_search_spec l x :
  StronglySorted Z.le l -> binary_search_ok l x = true <-> x ∈ l.
Proof.
  intros Hs. unfold binary_search_ok.
  set (p := fun i => match l !! i with Some y => y <? x | None => false end).
  destruct (bisect_spec (length l) p 0 (length l)) as (Hr & Ht & Hf); [lia|lia| |].
  { unfold p. intros i j ? ? Hpj.
    destruct (l !! j) as [y|] eqn:Ej; [|done].
    destruct (lookup_lt_is_Some_2 l i) as [z Ez]; [lia|]. rewrite Ez.
    pose proof (sorted_lookup_mono l i j z y Hs ltac:(lia) Ez Ej).
    apply Z.ltb_lt in Hpj. apply Z.ltb_lt. lia. }
  set (r := bisect (length l) p 0 (length l)) in *.
  split.
  - destruct (l !! r) eqn:E; [|done]. intros ->%Z.eqb_eq. by eapply list_elem_of_lookup_2.
  - intros [j Hj]%list_elem_of_lookup_1. pose proof (lookup_lt_Some _ _ _ Hj).
    destruct (decide (j < r)%nat).
    { specialize (Ht j ltac:(lia)). unfold p in Ht. rewrite Hj in Ht.
      apply Z.ltb_lt in Ht. lia. }
    destruct (lookup_lt_is_Some_2 l r) as [z Ez]; [lia|]. rewrite Ez.
    pose proof (sorted_lookup_mono l r j z x Hs ltac:(lia) Ez Hj).
    specialize (Hf r ltac:(lia)). unfold p in Hf. rewrite Ez in Hf.
    apply Z.ltb_ge in Hf. apply Z.eqb_eq. lia.
Qed.

(** ** Ordered sets

    A Rust [BTreeSet<u64>] as its ascending list of elements. *)

Fixpoint oset_insert (x : Z) (l : list Z) : list Z :=
  match l with
  | [] => [x]
  | y :: l' => if x <? y then x :: l else if x =? y then l else y :: oset_insert x l'
  end.

Definition oset_remove (x : Z) (l : list Z) : list Z := filter (fun y => y ≠ x) l.

Abbreviation oset_ok := (StronglySorted Z.lt).

Lemma elem_of_oset_insert x y l : y ∈ oset_insert x l <-> y = x \/ y ∈ l.
Proof.
  induction l as [|z l IH]; simpl; [set_solver|].
  destruct (Z.ltb_spec x z); [set_solver|].
  destruct (Z.eqb_spec x z); set_solver.
Qed.

Lemma elem_of_oset_remove x y l : y ∈ oset_remove x l <-> y ≠ x /\ y ∈ l.
Proof. unfold oset_remove. rewrite list_elem_of_filter. done. Qed.

Lemma oset_insert_ok x l : oset_ok l -> oset_ok (oset_insert x l).
Proof.
  induction 1 as [|y l Hl IH Hall]; simpl; [repeat constructor|].
  destruct (Z.ltb_spec x y).
  { constructor; [by constructor|]. constructor; [done|].
    eapply Forall_impl; [exact Hall|]. simpl. intros; lia. }
  destruct (Z.eqb_spec x y); [by constructor|].
  constructor; [done|]. apply Forall_forall. intros z [->|Hz]%elem_of_oset_insert; [lia|].
  rewrite Forall_forall in Hall. by apply Hall.
Qed.

Lemma oset_remove_ok x l : oset_ok l -> oset_ok (oset_remove x l).
Proof.
  induction 1 as [|y l Hl IH Hall]; [constructor|].
  unfold oset_remove. rewrite filter_cons. case_decide; [|done].
  constructor; [done|]. apply Forall_forall. intros z [_ Hz]%list_elem_of_filter.
  rewrite Forall_forall in Hall. by apply Hall.
Qed.

(** The head of an ordered set is its least element. *)
Lemma oset_head_least x l y : oset_ok (x :: l) -> y ∈ x :: l -> x <= y.
Proof.
  inversion 1 as [|? ? _ Hall]; subst. intros [->|Hy]%elem_of_cons; [lia|].
  rewrite Forall_forall in Hall. specialize (Hall y Hy). lia.
Qed.

Lemma oset_sorted_le l : oset_ok l -> StronglySorted Z.le l.
Proof.
  induction 1 as [|y l Hl IH Hall]; constructor; [done|].
  eapply Forall_impl; [exact Hall|]. simpl. intros; lia.
Qed.

#[export] Hint Resolve oset_insert_ok oset_remove_ok oset_sorted_le : rg.
