(* ===== verification/Bytes.v ===== *)
(** * Byte strings

    The primitives of Rust's standard library the storage formats are built
    from: [uN::to_be_bytes]/[from_be_bytes], their little-endian counterparts
    (the layout of a [#[repr(C)]] struct on the supported targets), and the
    lexicographic order of byte slices ([<[u8] as Ord>::cmp]). *)

From stdpp Require Import prelude list.
From Stdlib Require Import ZArith Lia Sorted.
From S2P Require Import Prelude.

Definition bytes_ok (l : list Z) : Prop := Forall is_u8 l.

#[global] Instance bytes_ok_dec l : Decision (bytes_ok l).
Proof. unfold bytes_ok. apply _. Defined.

(** ** Big-endian *)

Fixpoint to_be (n : nat) (z : Z) : list Z :=
  match n with
  | O => []
  | S n' => (z / 256 ^ Z.of_nat n') mod 256 :: to_be n' z
  end.

Fixpoint from_be (l : list Z) : Z :=
  match l with
  | [] => 0
  | b :: l' => b * 256 ^ Z.of_nat (length l') + from_be l'
  end.

(** ** Little-endian *)

Fixpoint to_le (n : nat) (z : Z) : list Z :=
  match n with
  | O => []
  | S n' => z mod 256 :: to_le n' (z / 256)
  end.

Fixpoint from_le (l : list Z) : Z :=
  match l with
  | [] => 0
  | b :: l' => b + 256 * from_le l'
  end.

(** ** Lexicographic order *)

Fixpoint bytes_cmp (a b : list Z) : comparison :=
  match a, b with
  | [], [] => Eq
  | [], _ :: _ => Lt
  | _ :: _, [] => Gt
  | x :: a', y :: b' =>
      match x ?= y with Eq => bytes_cmp a' b' | c => c end
  end.

Definition bytes_lt (a b : list Z) : bool :=
  match bytes_cmp a b with Lt => true | _ => false end.
Definition bytes_le (a b : list Z) : bool :=
  match bytes_cmp a b with Gt => false | _ => true end.
Definition bytes_eqb (a b : list Z) : bool :=
  match bytes_cmp a b with Eq => true | _ => false end.

(** ** Lemmas: encodings *)

Lemma pow256 n : 256 ^ Z.of_nat n = 2 ^ (8 * Z.of_nat n).
Proof. rewrite Z.pow_mul_r by lia. done. Qed.

Lemma pow256_pos n : 0 < 256 ^ Z.of_nat n.
Proof. apply Z.pow_pos_nonneg; lia. Qed.

Lemma pow256_S n : 256 ^ Z.of_nat (S n) = 256 * 256 ^ Z.of_nat n.
Proof. rewrite Nat2Z.inj_succ, Z.pow_succ_r by lia. done. Qed.

#[export] Hint Resolve pow256_pos : rg.

Lemma length_to_be n z : length (to_be n z) = n.
Proof. induction n; simpl; congruence. Qed.

Lemma length_to_le n z : length (to_le n z) = n.
Proof. revert z. induction n; intros; simpl; [|rewrite IHn]; done. Qed.

Lemma to_be_ok n z : bytes_ok (to_be n z).
Proof.
  induction n; simpl; constructor; [|done].
  unfold uint. change (2 ^ 8) with 256. apply Z.mod_pos_bound. lia.
Qed.

Lemma to_le_ok n z : bytes_ok (to_le n z).
Proof.
  revert z. induction n; intros; simpl; constructor; [|apply IHn].
  unfold uint. change (2 ^ 8) with 256. apply Z.mod_pos_bound. lia.
Qed.

#[export] Hint Resolve to_be_ok to_le_ok : rg.
#[export] Hint Rewrite length_to_be length_to_le : rg.

Lemma from_be_range l :
  bytes_ok l -> 0 <= from_be l < 256 ^ Z.of_nat (length l).
Proof.
  induction 1 as [|b l Hb Hl IH]; simpl; [lia|].
  pose proof (pow256_S (length l)) as HS.
  unfold uint in Hb. change (2 ^ 8) with 256 in Hb. nia.
Qed.

Lemma from_le_range l :
  bytes_ok l -> 0 <= from_le l < 256 ^ Z.of_nat (length l).
Proof.
  induction 1 as [|b l Hb Hl IH]; simpl; [lia|].
  pose proof (pow256_S (length l)) as HS.
  unfold uint in Hb. change (2 ^ 8) with 256 in Hb. nia.
Qed.

(** [to_be] only looks at the low [8*n] bits. *)
Lemma to_be_mod n m z :
  (n <= m)%nat -> to_be n (z mod 256 ^ Z.of_nat m) = to_be n z.
Proof.
  intros Hnm. induction n as [|n IH]; simpl; [done|].
  rewrite IH by lia. f_equal.
  replace (256 ^ Z.of_nat m) with (256 ^ Z.of_nat (m - n - 1) * 256 * 256 ^ Z.of_nat n)
    by (rewrite <- Z.mul_assoc, <- pow256_S, <- Z.pow_add_r by lia; f_equal; lia).
  pose proof (pow256_pos n). pose proof (pow256_pos (m - n - 1)).
  set (P := 256 ^ Z.of_nat n) in *. set (Q := 256 ^ Z.of_nat (m - n - 1)) in *.
  rewrite (Z.mul_comm (Q * 256) P), Z.rem_mul_r by nia.
  rewrite (Z.mul_comm P), Z.div_add by lia.
  rewrite (Z.div_small (z mod P)) by (apply Z.mod_pos_bound; lia).
  rewrite Z.add_0_l, (Z.mul_comm Q 256), Z.rem_mul_r by lia.
  rewrite (Z.mul_comm 256), Z.mod_add by lia. apply Z.mod_mod. lia.
Qed.

Lemma from_to_be n z : from_be (to_be n z) = z mod 256 ^ Z.of_nat n.
Proof.
  induction n as [|n IH]; [rewrite Z.mod_1_r; done|].
  cbn [to_be from_be]. rewrite IH, length_to_be, pow256_S.
  pose proof (pow256_pos n).
  rewrite (Z.mul_comm 256), Z.rem_mul_r by lia. lia.
Qed.

Lemma from_to_le n z : from_le (to_le n z) = z mod 256 ^ Z.of_nat n.
Proof.
  revert z. induction n as [|n IH]; intros z; [rewrite Z.mod_1_r; done|].
  cbn [to_le from_le]. rewrite IH, pow256_S.
  pose proof (pow256_pos n). rewrite Z.rem_mul_r by lia. done.
Qed.

(** Round trips at the widths the code uses. *)
Lemma from_to_be_id n z : uint (8 * Z.of_nat n) z -> from_be (to_be n z) = z.
Proof.
  intros Hz. rewrite from_to_be, pow256. apply Z.mod_small. apply Hz.
Qed.

Lemma from_to_le_id n z : uint (8 * Z.of_nat n) z -> from_le (to_le n z) = z.
Proof.
  intros Hz. rewrite from_to_le, pow256. apply Z.mod_small. apply Hz.
Qed.

Lemma to_be_from_be l : bytes_ok l -> to_be (length l) (from_be l) = l.
Proof.
  induction 1 as [|b l Hb Hl IH]; [done|].
  cbn [from_be to_be length]. pose proof (from_be_range l Hl).
  pose proof (pow256_pos (length l)). unfold uint in Hb. change (2 ^ 8) with 256 in Hb.
  f_equal.
  - rewrite Z.div_add_l, Z.div_small, Z.add_0_r, Z.mod_small by lia. done.
  - etrans; [|exact IH].
    rewrite <- (to_be_mod (length l) (length l) (b * _ + _)) by lia.
    rewrite (Z.add_comm (b * _)), Z.mod_add, Z.mod_small by lia. done.
Qed.

Lemma to_le_from_le l : bytes_ok l -> to_le (length l) (from_le l) = l.
Proof.
  induction 1 as [|b l Hb Hl IH]; [done|].
  cbn [from_le to_le length]. unfold uint in Hb. change (2 ^ 8) with 256 in Hb.
  rewrite (Z.mul_comm 256). rewrite Z.mod_add, Z.mod_small by lia.
  rewrite Z.div_add, Z.div_small, Z.add_0_l by lia. rewrite IH. done.
Qed.

(** ** Lemmas: order *)

Lemma bytes_cmp_refl a : bytes_cmp a a = Eq.
Proof. induction a; simpl; [done|]. by rewrite Z.compare_refl. Qed.

Lemma bytes_cmp_eq a b : bytes_cmp a b = Eq <-> a = b.
Proof.
  split; [|intros ->; apply bytes_cmp_refl].
  revert b. induction a as [|x a IH]; intros [|y b]; simpl; try done.
  destruct (Z.compare_spec x y); try done. intros ->%IH. by subst.
Qed.

Lemma bytes_cmp_antisym a b : bytes_cmp b a = CompOpp (bytes_cmp a b).
Proof.
  revert b. induction a as [|x a IH]; intros [|y b]; simpl; try done.
  rewrite (Z.compare_antisym x y). destruct (x ?= y); simpl; auto.
Qed.

Lemma bytes_cmp_app_l p a b : bytes_cmp (p ++ a) (p ++ b) = bytes_cmp a b.
Proof. induction p as [|x p IH]; simpl; [done|]. by rewrite Z.compare_refl. Qed.

Lemma bytes_cmp_lt_trans a b c :
  bytes_cmp a b = Lt -> bytes_cmp b c = Lt -> bytes_cmp a c = Lt.
Proof.
  revert b c. induction a as [|x a IH]; intros [|y b] [|z c]; simpl; try done.
  destruct (Z.compare_spec x y), (Z.compare_spec y z); try done; intros;
    destruct (Z.compare_spec x z); try done; try lia.
  by eapply IH.
Qed.

(** Comparing equal-length heads decides, then the tails. *)
Lemma bytes_cmp_app a b c d :
  length a = length b ->
  bytes_cmp (a ++ c) (b ++ d) =
    match bytes_cmp a b with Eq => bytes_cmp c d | r => r end.
Proof.
  revert b. induction a as [|x a IH]; intros [|y b] Hl; simplify_eq/=; [done|].
  destruct (x ?= y); auto.
Qed.

(** Big-endian encodings sort like the numbers they encode. *)
Lemma bytes_cmp_to_be n a b :
  uint (8 * Z.of_nat n) a -> uint (8 * Z.of_nat n) b ->
  bytes_cmp (to_be n a) (to_be n b) = (a ?= b).
Proof.
  unfold uint. rewrite <- pow256. revert a b.
  induction n as [|n IH]; intros a b Ha Hb.
  { simpl in *. assert (a = b) as -> by lia. by rewrite Z.compare_refl. }
  cbn [to_be bytes_cmp]. rewrite pow256_S in Ha, Hb. pose proof (pow256_pos n) as HP.
  rewrite <- (to_be_mod n n a), <- (to_be_mod n n b) by lia.
  set (P := 256 ^ Z.of_nat n) in *.
  rewrite IH by (apply Z.mod_pos_bound; lia).
  rewrite !(Z.mod_small (_ / P)) by
    (split; [apply Z.div_pos; lia | apply Z.div_lt_upper_bound; lia]).
  pose proof (Z.div_mod a P ltac:(lia)) as Ea. pose proof (Z.div_mod b P ltac:(lia)) as Eb.
  pose proof (Z.mod_pos_bound a P ltac:(lia)). pose proof (Z.mod_pos_bound b P ltac:(lia)).
  destruct (Z.compare_spec (a / P) (b / P)) as [E|E|E].
  - destruct (Z.compare_spec (a mod P) (b mod P)), (Z.compare_spec a b); try done; nia.
  - symmetry. apply Z.compare_lt_iff. nia.
  - symmetry. apply Z.compare_gt_iff. nia.
Qed.

Lemma bytes_lt_spec a b : bytes_lt a b = true <-> bytes_cmp a b = Lt.
Proof. unfold bytes_lt. destruct (bytes_cmp a b); done. Qed.

Lemma bytes_eqb_eq a b : bytes_eqb a b = true <-> a = b.
Proof. unfold bytes_eqb. rewrite <- bytes_cmp_eq. destruct (bytes_cmp a b); done. Qed.

Lemma bytes_eqb_refl a : bytes_eqb a a = true.
Proof. by apply bytes_eqb_eq. Qed.

Lemma bytes_ok_app a b : bytes_ok (a ++ b) <-> bytes_ok a /\ bytes_ok b.
Proof. apply Forall_app. Qed.

Lemma bytes_ok_take n a : bytes_ok a -> bytes_ok (take n a).
Proof. apply Forall_take. Qed.

Lemma bytes_ok_drop n a : bytes_ok a -> bytes_ok (drop n a).
Proof. apply Forall_drop. Qed.

Lemma bytes_ok_replicate n : bytes_ok (replicate n 0).
Proof. apply Forall_replicate. done. Qed.

#[export] Hint Resolve bytes_ok_take bytes_ok_drop bytes_ok_replicate : rg.

(** ** Fixed layouts

    Reading a field back out of a concatenation of encoded fields. *)

Lemma slice_here {A} (x s : list A) b : b = length x -> slice (x ++ s) 0 b = x.
Proof. intros ->. rewrite slice_app_l by lia. apply slice_full. Qed.

Lemma slice_skip {A} (x s : list A) a b :
  (length x <= a)%nat -> slice (x ++ s) a b = slice s (a - length x) (b - length x).
Proof. apply slice_app_r. Qed.

(** [field_slice] normalises [slice (f1 ++ f2 ++ ... ++ rest) a b] to the field
    that occupies [a..b]. *)
Ltac field_slice :=
  rewrite <- ?app_assoc;
  repeat (rewrite slice_skip by (rewrite ?length_to_le, ?length_to_be; simpl; lia);
          rewrite ?length_to_le, ?length_to_be; cbn [Nat.sub length]);
  first [ rewrite slice_here by (rewrite ?length_to_le, ?length_to_be; reflexivity)
        | idtac ].

(** A list of byte values as the little- or big-endian encoding of its value. *)
Lemma from_le_fixed n l :
  bytes_ok l -> length l = n -> uint (8 * Z.of_nat n) (from_le l) /\ to_le n (from_le l) = l.
Proof.
  intros Hl <-. split; [|by apply to_le_from_le].
  unfold uint. rewrite <- pow256. by apply from_le_range.
Qed.

Lemma from_be_fixed n l :
  bytes_ok l -> length l = n -> uint (8 * Z.of_nat n) (from_be l) /\ to_be n (from_be l) = l.
Proof.
  intros Hl <-. split; [|by apply to_be_from_be].
  unfold uint. rewrite <- pow256. by apply from_be_range.
Qed.

Lemma bytes_ok_slice l a b : bytes_ok l -> bytes_ok (slice l a b).
Proof. intros. unfold slice. auto with rg. Qed.

(** Consecutive slices glue together. *)
Lemma slice_glue {A} (l : list A) a b c :
  (a <= b)%nat -> (b <= c)%nat -> slice l a b ++ slice l b c = slice l a c.
Proof.
  intros. unfold slice.
  replace (drop b l) with (drop (b - a) (drop a l)) by (rewrite drop_drop; f_equal; lia).
  replace (c - a)%nat with ((b - a) + (c - b))%nat by lia.
  apply take_take_drop.
Qed.

#[export] Hint Resolve bytes_ok_slice : rg.
