(* ===== verification/TxId.v ===== *)
(** * Transaction identifiers ([src/txn/txid.rs])

    [TxIdAllocator] vends strictly increasing identifiers from an [AtomicU64].
    The allocator state is the counter; [allocate] is one [fetch_add] per loop
    iteration, so a concurrent execution of several threads is a sequence of
    these atomic steps. *)

From stdpp Require Import prelude list.
From Stdlib Require Import ZArith Lia Sorted.
From S2P Require Import Prelude Bytes.

Definition TX_ID_INVALID : Z := 0.
Definition TX_ID_BOOTSTRAP : Z := 1.
Definition PERSIST_OFFSET : nat := 0.
Definition RECOVERY_BUMP : Z := 1000000.

Record TxIdAllocator := mkAllocator { counter : Z }.

Definition new : TxIdAllocator := mkAllocator TX_ID_BOOTSTRAP.

Definition with_start (start : Z) : TxIdAllocator :=
  mkAllocator (if start =? TX_ID_INVALID then TX_ID_BOOTSTRAP else start).

(** [AtomicU64::fetch_add(1, SeqCst)]: returns the old value, wraps at 2^64. *)
Definition fetch_add (a : TxIdAllocator) : Z * TxIdAllocator :=
  (counter a, mkAllocator (wrap 64 (counter a + 1))).

(** The retry loop of [allocate], literally. *)
Fixpoint allocate_loop (fuel : nat) (a : TxIdAllocator) : option (Z * TxIdAllocator) :=
  match fuel with
  | O => None
  | S f =>
      let '(id, a') := fetch_add a in
      if negb (id =? TX_ID_INVALID) then Some (id, a') else allocate_loop f a'
  end.

(** [allocate] with the loop run to completion: at most one retry happens
    ([allocate_loop_complete]). *)
Definition allocate (a : TxIdAllocator) : Z * TxIdAllocator :=
  let '(id, a') := fetch_add a in
  if negb (id =? TX_ID_INVALID) then (id, a') else fetch_add a'.

Definition peek_next (a : TxIdAllocator) : Z :=
  let v := counter a in if v =? TX_ID_INVALID then TX_ID_BOOTSTRAP else v.

(** [persist] panics ([None]) when the page is shorter than 8 bytes. *)
Definition persist (a : TxIdAllocator) (page : list Z) : option (list Z) :=
  if (length page <? PERSIST_OFFSET + 8)%nat then None
  else Some (write_at page PERSIST_OFFSET (to_le 8 (counter a))).

Definition recover (page : list Z) : option TxIdAllocator :=
  if (length page <? PERSIST_OFFSET + 8)%nat then None
  else
    let stored := from_le (slice page PERSIST_OFFSET (PERSIST_OFFSET + 8)) in
    let bumped := match checked_add 64 stored RECOVERY_BUMP with
                  | Some v => v
                  | None => TX_ID_BOOTSTRAP
                  end in
    Some (with_start (Z.max bumped TX_ID_BOOTSTRAP)).

(** [n] successive allocations (by any interleaving of threads). *)
Fixpoint allocate_n (n : nat) (a : TxIdAllocator) : list Z * TxIdAllocator :=
  match n with
  | O => ([], a)
  | S n' =>
      let '(id, a1) := allocate a in
      let '(ids, a2) := allocate_n n' a1 in (id :: ids, a2)
  end.

Definition alloc_ok (a : TxIdAllocator) : Prop := is_u64 (counter a).

(** ** Lemmas *)

Lemma u64_max_succ : 2 ^ 64 = 18446744073709551616.
Proof. reflexivity. Qed.

Lemma allocate_nonwrap a :
  1 <= counter a -> counter a + 1 < 2 ^ 64 ->
  allocate a = (counter a, mkAllocator (counter a + 1)).
Proof.
  intros. unfold allocate, fetch_add. destruct (Z.eqb_spec (counter a) TX_ID_INVALID).
  - unfold TX_ID_INVALID in *. lia.
  - simpl. rewrite wrap_id by (unfold uint; lia). done.
Qed.

Lemma peek_next_pos a : 1 <= counter a -> peek_next a = counter a.
Proof.
  intros. unfold peek_next. destruct (Z.eqb_spec (counter a) TX_ID_INVALID); [|done].
  unfold TX_ID_INVALID in *. lia.
Qed.

(** The loop never runs more than twice, and never yields the invalid id. *)
Theorem allocate_loop_complete (a : TxIdAllocator) (fuel : nat) :
  alloc_ok a -> (2 <= fuel)%nat ->
  allocate_loop fuel a = Some (allocate a) /\ fst (allocate a) ≠ TX_ID_INVALID /\
  alloc_ok (snd (allocate a)).
Proof.
  intros Ha Hf. destruct fuel as [|[|f]]; [lia|lia|].
  unfold allocate, alloc_ok in *. simpl. unfold TX_ID_INVALID.
  destruct (Z.eqb_spec (counter a) 0) as [->|Hne]; simpl.
  - repeat split; done.
  - split; [done|]. split; [done|]. apply wrap_range. lia.
Qed.

Lemma allocate_n_seq n a :
  1 <= counter a -> counter a + Z.of_nat n < 2 ^ 64 ->
  allocate_n n a = (seqZ (counter a) (Z.of_nat n), mkAllocator (counter a + Z.of_nat n)).
Proof.
  revert a. induction n as [|n IH]; intros a Hpos Hmax; cbn [allocate_n].
  - rewrite Z.add_0_r. destruct a; done.
  - rewrite allocate_nonwrap by lia. rewrite IH; simpl; [|lia|lia].
    rewrite (seqZ_cons (counter a) (Z.of_nat (S n))) by lia.
    f_equal; [|f_equal; lia]. f_equal. f_equal; lia.
Qed.

(** As long as the 64-bit counter does not wrap, any
    [n] allocations return exactly the next [n] identifiers in increasing order:
    they are pairwise distinct, none is the invalid id, all are above every id
    issued before, and the counter ends just past the last one. *)
Theorem allocate_monotone (a : TxIdAllocator) (n : nat) :
  1 <= counter a -> counter a + Z.of_nat n < 2 ^ 64 ->
  fst (allocate_n n a) = seqZ (counter a) (Z.of_nat n) /\
  counter (snd (allocate_n n a)) = counter a + Z.of_nat n /\
  StronglySorted Z.lt (fst (allocate_n n a)) /\
  TX_ID_INVALID ∉ fst (allocate_n n a).
Proof.
  intros Hpos Hmax. rewrite allocate_n_seq by done. simpl. split; [done|]. split; [done|].
  split.
  - clear Hpos Hmax. generalize (counter a). induction n as [|n IH]; intros c; [constructor|].
    rewrite seqZ_cons by lia. constructor.
    + replace (Z.pred (Z.of_nat (S n))) with (Z.of_nat n) by lia. apply IH.
    + apply Forall_forall. intros x Hx%elem_of_seqZ. lia.
  - unfold TX_ID_INVALID. rewrite elem_of_seqZ. lia.
Qed.

Lemma allocate_monotone_witness :
  fst (allocate_n 3 new) = [1; 2; 3] /\
  fst (allocate_n 3 new) = seqZ 1 3.
Proof.
  split; [reflexivity|].
  apply (allocate_monotone new 3); vm_compute; congruence.
Defined.

(** Persisting the counter into a page and recovering
    from that page always succeeds, leaves the rest of the page alone, and -
    when the bump does not overflow - the recovered allocator issues only ids
    strictly greater than every id issued before the crash. *)
Theorem persist_recover_ahead (a : TxIdAllocator) (page : list Z) (n : nat) :
  1 <= counter a -> counter a + RECOVERY_BUMP + Z.of_nat n < 2 ^ 64 ->
  (8 <= length page)%nat ->
  exists page' a',
    persist a page = Some page' /\ drop 8 page' = drop 8 page /\
    length page' = length page /\
    recover page' = Some a' /\
    counter a' = counter a + RECOVERY_BUMP /\
    Forall (fun id => counter a <= id - RECOVERY_BUMP) (fst (allocate_n n a')).
Proof.
  intros Hpos Hmax Hlen. unfold persist, recover, PERSIST_OFFSET in *.
  destruct (Nat.ltb_spec (length page) (0 + 8)); [lia|].
  pose proof (length_to_le 8 (counter a)) as Hle.
  eexists _, (mkAllocator (counter a + RECOVERY_BUMP)).
  split; [done|]. rewrite length_write_at by lia.
  split.
  { unfold write_at. rewrite take_0, Hle, app_nil_l. rewrite drop_app_ge by lia.
    rewrite Hle, drop_drop. done. }
  split; [done|].
  destruct (Nat.ltb_spec (length page) (0 + 8)); [lia|].
  assert (slice (write_at page 0 (to_le 8 (counter a))) 0 (0 + 8) = to_le 8 (counter a)) as ->.
  { rewrite <- Hle at 2. apply slice_write_at_eq. lia. }
  rewrite from_to_le_id by (unfold uint, RECOVERY_BUMP in *; lia).
  unfold checked_add. unfold RECOVERY_BUMP in *.
  destruct (Z.ltb_spec (counter a + 1000000) (2 ^ 64)); [|lia].
  split.
  { unfold with_start, TX_ID_BOOTSTRAP, TX_ID_INVALID.
    rewrite Z.max_l by lia. destruct (Z.eqb_spec (counter a + 1000000) 0); [lia|done]. }
  split; [done|]. rewrite allocate_n_seq by (simpl; lia). simpl.
  apply Forall_forall. intros id Hid%elem_of_seqZ. lia.
Qed.

Lemma persist_recover_ahead_witness :
  exists page' a',
    persist (mkAllocator 43) (replicate 64 0) = Some page' /\
    drop 8 page' = drop 8 (replicate 64 0) /\
    length page' = length (replicate 64 (0 : Z)) /\
    recover page' = Some a' /\
    counter a' = 43 + RECOVERY_BUMP /\
    Forall (fun id => 43 <= id - RECOVERY_BUMP) (fst (allocate_n 5 a')).
Proof.
  apply (persist_recover_ahead (mkAllocator 43) (replicate 64 0) 5);
    vm_compute; try congruence. lia.
Defined.

(** When the persisted counter is within
    [RECOVERY_BUMP] of [u64::MAX], [recover] falls back to the bootstrap id: the
    recovered allocator then re-issues identifiers that were already used. *)
Theorem recover_overflow_restarts (page : list Z) :
  (8 <= length page)%nat ->
  2 ^ 64 <= from_le (slice page 0 8) + RECOVERY_BUMP ->
  recover page = Some new /\ fst (allocate new) = TX_ID_BOOTSTRAP.
Proof.
  intros Hlen Hov. unfold recover, PERSIST_OFFSET.
  destruct (Nat.ltb_spec (length page) (0 + 8)); [lia|].
  unfold checked_add. destruct (Z.ltb_spec (from_le (slice page 0 (0 + 8)) + RECOVERY_BUMP) (2 ^ 64)).
  - simpl in *. lia.
  - split; reflexivity.
Qed.

Lemma recover_overflow_restarts_witness :
  recover (replicate 8 255) = Some new /\ fst (allocate new) = TX_ID_BOOTSTRAP.
Proof. apply (recover_overflow_restarts (replicate 8 255)); vm_compute; [lia|congruence]. Defined.
