(* ===== verification/Snapshot.v ===== *)
(** * Snapshots and tuple visibility ([src/txn/snapshot.rs])

    A [Snapshot] holds [Option<Arc<Mutex<HashSet<TxId>>>>]: a reference to the
    *shared* abort log.  The model keeps the sharing: the snapshot records only
    whether a registry is attached ([aborted = true]), and the current contents
    of the registry [reg] are an argument of every read, so the same snapshot
    read later consults a later log. *)

From stdpp Require Import prelude list gmap sorting.
From Stdlib Require Import ZArith Lia Sorted.
From S2P Require Import Prelude TxId.

Record Snapshot := mkSnapshot {
  xmin : Z;
  xmax : Z;
  active : list Z;
  owner_txid : Z;
  aborted : bool
}.

(** [Snapshot::new]: the active list is sorted. *)
Definition snapshot_new (xmin xmax : Z) (active : list Z) (owner : Z) : Snapshot :=
  mkSnapshot xmin xmax (merge_sort Z.le active) owner false.

Definition with_aborted (s : Snapshot) : Snapshot :=
  mkSnapshot (xmin s) (xmax s) (active s) (owner_txid s) true.

Definition is_aborted (s : Snapshot) (reg : gset Z) (txid : Z) : bool :=
  aborted s && bool_decide (txid ∈ reg).

Definition is_active (s : Snapshot) (txid : Z) : bool :=
  binary_search_ok (active s) txid.

Definition txid_committed_before_snapshot
    (s : Snapshot) (reg : gset Z) (txid : Z) (committed_hint : bool) : bool :=
  if txid =? TX_ID_INVALID then false
  else if is_aborted s reg txid then false
  else if committed_hint then true
  else if txid <? xmin s then true
  else if xmax s <=? txid then false
  else negb (is_active s txid).

Definition is_visible (s : Snapshot) (reg : gset Z)
    (xmin_tuple xmax_tuple : Z) (xmin_committed xmax_committed : bool) : bool :=
  let xmin_visible := txid_committed_before_snapshot s reg xmin_tuple xmin_committed in
  if negb xmin_visible && negb (xmin_tuple =? owner_txid s) then false
  else if xmax_tuple =? TX_ID_INVALID then true
  else if xmax_tuple =? owner_txid s then false
  else negb (txid_committed_before_snapshot s reg xmax_tuple xmax_committed).

(** ** Lemmas *)

Definition snapshot_ok (s : Snapshot) : Prop := StronglySorted Z.le (active s).

Lemma snapshot_new_ok a b l o : snapshot_ok (snapshot_new a b l o).
Proof.
  apply StronglySorted_merge_sort; try apply _.
Qed.

Lemma is_active_spec s txid :
  snapshot_ok s -> is_active s txid = true <-> txid ∈ active s.
Proof. apply binary_search_spec. Qed.

Lemma elem_of_snapshot_new_active a b l o x :
  x ∈ active (snapshot_new a b l o) <-> x ∈ l.
Proof. simpl. by rewrite merge_sort_Permutation. Qed.

#[export] Hint Resolve snapshot_new_ok : rg.

(** Without a hint, membership in the snapshot is decided by the three rules:
    not in the abort log, below [xmax], and below [xmin] or not active. *)
Lemma committed_before_spec s reg t :
  snapshot_ok s -> t ≠ TX_ID_INVALID ->
  txid_committed_before_snapshot s reg t false = true <->
  (aborted s = true -> t ∉ reg) /\
  (t < xmin s \/ (t < xmax s /\ t ∉ active s)).
Proof.
  intros Hok Ht. unfold txid_committed_before_snapshot, is_aborted.
  destruct (Z.eqb_spec t TX_ID_INVALID); [done|].
  pose proof (is_active_spec s t Hok) as Hact.
  destruct (aborted s); simpl;
    [destruct (decide (t ∈ reg)) as [Hin|Hin];
     [rewrite bool_decide_eq_true_2 by done; naive_solver
     |rewrite bool_decide_eq_false_2 by done]|];
    (destruct (Z.ltb_spec t (xmin s)); [naive_solver lia|]);
    (destruct (Z.leb_spec (xmax s) t); [naive_solver lia|]);
    destruct (is_active s t); simpl; naive_solver lia.
Qed.
