(* ===== verification/TxState.v ===== *)
(** * Global transaction state ([src/txn/state.rs])

    [GlobalTxState] owns the active set, the id allocator, the shared abort log
    and the two atomics [global_xmin]/[global_xmax].  Each operation is split
    into the pieces that run atomically: [begin_tx] and [active_snapshot] run
    entirely under the mutex; [remove_active] computes its candidate under the
    mutex and advances [global_xmin] after releasing it; [abort_tx] writes the
    abort log before [remove_active].  [Machine] interleaves those pieces
    between any number of threads. *)

From stdpp Require Import prelude list gmap sorting relations.
From Stdlib Require Import ZArith Lia Sorted.
From S2P Require Import Prelude TxId Snapshot.

Record GlobalTxState := mkState {
  global_xmin_ : Z;
  global_xmax_ : Z;
  st_active : list Z;            (* BTreeSet<TxId>, ascending *)
  allocator : TxIdAllocator;
  st_aborted : gset Z            (* the shared abort log *)
}.

Definition state_new : GlobalTxState :=
  let a := new in
  let xm := peek_next a in
  mkState xm xm [] a ∅.

Definition state_recover (system_page : list Z) : option GlobalTxState :=
  match recover system_page with
  | None => None
  | Some a => let xm := peek_next a in Some (mkState xm xm [] a ∅)
  end.

(** [guard.active.iter().next().copied().unwrap_or(d)] *)
Definition first_active (l : list Z) (d : Z) : Z :=
  match l with [] => d | x :: _ => x end.

Definition begin_tx (st : GlobalTxState) : (Z * Snapshot) * GlobalTxState :=
  let '(txid, a') := allocate (allocator st) in
  let xm := peek_next a' in
  let xn := first_active (st_active st) txid in
  let snap := with_aborted (snapshot_new xn xm (st_active st) txid) in
  ((txid, snap),
   mkState (Z.min xn txid) xm (oset_insert txid (st_active st)) a' (st_aborted st)).

(** The part of [remove_active] under the mutex: the new state and the
    candidate for [global_xmin]. *)
Definition remove_active_locked (st : GlobalTxState) (txid : Z) : GlobalTxState * Z :=
  let act := oset_remove txid (st_active st) in
  (mkState (global_xmin_ st) (global_xmax_ st) act (allocator st) (st_aborted st),
   first_active act (global_xmax_ st)).

(** [advance_xmin]: the compare-exchange loop stores [candidate] unless the
    current value is already at least that. *)
Definition advance_xmin (st : GlobalTxState) (candidate : Z) : GlobalTxState :=
  if candidate <=? global_xmin_ st then st
  else mkState candidate (global_xmax_ st) (st_active st) (allocator st) (st_aborted st).

Definition remove_active (st : GlobalTxState) (txid : Z) : GlobalTxState :=
  let '(st', c) := remove_active_locked st txid in advance_xmin st' c.

Definition log_abort (st : GlobalTxState) (txid : Z) : GlobalTxState :=
  mkState (global_xmin_ st) (global_xmax_ st) (st_active st) (allocator st)
          ({[txid]} ∪ st_aborted st).

Definition commit_tx (st : GlobalTxState) (txid : Z) : GlobalTxState :=
  remove_active st txid.

Definition abort_tx (st : GlobalTxState) (txid : Z) : GlobalTxState :=
  remove_active (log_abort st txid) txid.

Definition active_snapshot (st : GlobalTxState) : Snapshot :=
  let xm := peek_next (allocator st) in
  let xn := first_active (st_active st) xm in
  with_aborted (snapshot_new xn xm (st_active st) TX_ID_INVALID).

Definition global_xmin (st : GlobalTxState) : Z := global_xmin_ st.
Definition global_xmax (st : GlobalTxState) : Z := global_xmax_ st.

Definition persist_txid_counter (st : GlobalTxState) (page : list Z) : option (list Z) :=
  persist (allocator st) page.

(** ** Interleaved execution

    [Machine] adds to the shared state the [global_xmin] candidates computed by
    threads that have released the mutex but not yet advanced the atomic, and a
    ghost map of what happened to every transaction.  Callers finish a
    transaction at most once: only an active, undecided transaction commits or
    starts to abort. *)

Inductive Fate := FActive | FCommitted | FAborted.

#[global] Instance fate_eq_dec : EqDecision Fate.
Proof. solve_decision. Defined.

Record Machine := mkMachine {
  shared : GlobalTxState;
  pending : list Z;
  fate : gmap Z Fate
}.

Definition machine_init : Machine := mkMachine state_new [] ∅.

Inductive step : Machine -> Machine -> Prop :=
| step_begin m txid snap st' :
    counter (allocator (shared m)) + 1 < 2 ^ 64 ->
    begin_tx (shared m) = ((txid, snap), st') ->
    step m (mkMachine st' (pending m) (<[txid := FActive]> (fate m)))
| step_commit m txid st' c :
    fate m !! txid = Some FActive ->
    remove_active_locked (shared m) txid = (st', c) ->
    step m (mkMachine st' (c :: pending m) (<[txid := FCommitted]> (fate m)))
| step_log_abort m txid :
    fate m !! txid = Some FActive ->
    step m (mkMachine (log_abort (shared m) txid) (pending m) (<[txid := FAborted]> (fate m)))
| step_abort_remove m txid st' c :
    fate m !! txid = Some FAborted ->
    remove_active_locked (shared m) txid = (st', c) ->
    step m (mkMachine st' (c :: pending m) (fate m))
| step_advance m l1 c l2 :
    pending m = l1 ++ c :: l2 ->
    step m (mkMachine (advance_xmin (shared m) c) (l1 ++ l2) (fate m)).

(** The next transaction id to be issued. *)
Definition next (m : Machine) : Z := counter (allocator (shared m)).

(** [horizon m c]: no active transaction (nor any future one) is below [c]. *)
Definition horizon (st : GlobalTxState) (c : Z) : Prop :=
  c <= global_xmax_ st /\ Forall (fun t => c <= t) (st_active st).

Record inv (m : Machine) : Prop := {
  inv_next : 1 <= next m < 2 ^ 64;
  inv_xmax : global_xmax_ (shared m) = next m;
  inv_sorted : oset_ok (st_active (shared m));
  inv_range : Forall (fun t => 1 <= t < next m) (st_active (shared m));
  inv_issued : forall t, is_Some (fate m !! t) <-> 1 <= t < next m;
  inv_active : forall t, fate m !! t = Some FActive -> t ∈ st_active (shared m);
  inv_decided : forall t, fate m !! t = Some FCommitted -> t ∉ st_active (shared m);
  inv_log : forall t, t ∈ st_aborted (shared m) <-> fate m !! t = Some FAborted;
  inv_xmin : horizon (shared m) (global_xmin_ (shared m));
  inv_pending : Forall (horizon (shared m)) (pending m)
}.

(** ** Lemmas *)

Lemma first_active_least l d : oset_ok l -> Forall (fun t => first_active l d <= t) l.
Proof.
  intros Hl. apply Forall_forall. intros t Ht.
  destruct l as [|x l]; [by apply elem_of_nil in Ht|]. by eapply oset_head_least.
Qed.

Lemma begin_tx_eq st :
  1 <= counter (allocator st) -> counter (allocator st) + 1 < 2 ^ 64 ->
  let t := counter (allocator st) in
  let xn := first_active (st_active st) t in
  begin_tx st =
    ((t, with_aborted (snapshot_new xn (t + 1) (st_active st) t)),
     mkState (Z.min xn t) (t + 1) (oset_insert t (st_active st))
             (mkAllocator (t + 1)) (st_aborted st)).
Proof.
  intros H1 H2 t xn. unfold begin_tx. rewrite allocate_nonwrap by done.
  rewrite peek_next_pos by (simpl; lia). done.
Qed.

Lemma horizon_remove st c txid :
  horizon st c -> horizon (fst (remove_active_locked st txid)) c.
Proof.
  unfold horizon. simpl. intros [? Hc]. split; [done|].
  rewrite Forall_forall in *. intros t [_ Ht]%elem_of_oset_remove. auto.
Qed.

Lemma horizon_candidate st txid :
  oset_ok (st_active st) ->
  Forall (fun t => t < global_xmax_ st) (st_active st) ->
  horizon (fst (remove_active_locked st txid)) (snd (remove_active_locked st txid)).
Proof.
  intros Hs Hr. unfold horizon. simpl. split; [|apply first_active_least; auto with rg].
  unfold first_active. destruct (oset_remove txid (st_active st)) as [|x l] eqn:E; [lia|].
  rewrite Forall_forall in Hr.
  assert (x ∈ oset_remove txid (st_active st)) as [_ Hx]%elem_of_oset_remove
    by (rewrite E; set_solver).
  specialize (Hr x Hx). lia.
Qed.

Lemma horizon_advance st c d : horizon st d -> horizon (advance_xmin st c) d.
Proof. unfold horizon, advance_xmin. rg_case; done. Qed.

Lemma advance_xmin_bound st c :
  horizon st (global_xmin_ st) -> horizon st c ->
  horizon (advance_xmin st c) (global_xmin_ (advance_xmin st c)).
Proof. unfold horizon, advance_xmin. rg_case; done. Qed.

Lemma inv_begin m txid snap st' :
  inv m -> next m + 1 < 2 ^ 64 -> begin_tx (shared m) = ((txid, snap), st') ->
  txid = next m /\
  inv (mkMachine st' (pending m) (<[txid := FActive]> (fate m))).
Proof.
  intros [Hn Hx Hs Hr Hi Ha Hd Hl [Hm1 Hm2] Hp] Hov Hb. unfold next in *.
  rewrite begin_tx_eq in Hb by lia. simplify_eq. split; [done|].
  set (t := counter (allocator (shared m))) in *.
  assert (fate m !! t = None) as Hfresh.
  { apply eq_None_not_Some. rewrite Hi. lia. }
  assert (t ∉ st_active (shared m)) as Hnin.
  { intros Hin. rewrite Forall_forall in Hr. specialize (Hr t Hin). lia. }
  split; unfold next; simpl; try done; try lia; auto with rg.
  - rewrite Forall_forall in *. intros x [->|Hxx]%elem_of_oset_insert; [lia|].
    specialize (Hr x Hxx). lia.
  - intros x. rewrite lookup_insert_is_Some, Hi. lia.
  - intros x. rewrite lookup_insert_Some, elem_of_oset_insert. naive_solver.
  - intros x. rewrite lookup_insert_Some, elem_of_oset_insert. naive_solver.
  - intros x. rewrite lookup_insert_Some, Hl. naive_solver.
  - pose proof (first_active_least (st_active (shared m)) t Hs) as Hf.
    split; simpl; [lia|]. rewrite Forall_forall in *.
    intros x [->|Hxx]%elem_of_oset_insert; [lia|]. specialize (Hf x Hxx). lia.
  - rewrite Forall_forall in *. intros c Hc. destruct (Hp c Hc) as [H1 H2].
    split; simpl; [lia|]. rewrite Forall_forall in *.
    intros x [->|Hxx]%elem_of_oset_insert; [lia|]. auto.
Qed.

(** Removing a decided transaction keeps every part of the invariant that does
    not mention its fate. *)
Lemma inv_remove m txid (f : gmap Z Fate) :
  inv m ->
  (forall t, is_Some (f !! t) <-> is_Some (fate m !! t)) ->
  (forall t, f !! t = Some FActive -> t ≠ txid /\ fate m !! t = Some FActive) ->
  (forall t, f !! t = Some FCommitted -> t = txid \/ fate m !! t = Some FCommitted) ->
  (forall t, f !! t = Some FAborted <-> fate m !! t = Some FAborted) ->
  inv (mkMachine (fst (remove_active_locked (shared m) txid))
                 (snd (remove_active_locked (shared m) txid) :: pending m) f).
Proof.
  intros [Hn Hx Hs Hr Hi Ha Hd Hl Hm Hp] Hf1 Hf2 Hf3 Hf4.
  split; unfold next in *; simpl; try done; auto with rg.
  - rewrite Forall_forall in *. intros x [_ Hxx]%elem_of_oset_remove. auto.
  - intros t. rewrite Hf1. apply Hi.
  - intros t [Hne Ht]%Hf2. apply elem_of_oset_remove. auto.
  - intros t Ht. rewrite elem_of_oset_remove. intros [Hne Hin].
    apply Hf3 in Ht as [->|Ht]; [done|]. by apply (Hd t Ht).
  - intros t. rewrite Hf4. apply Hl.
  - by apply (horizon_remove _ _ txid) in Hm.
  - constructor.
    + apply horizon_candidate; [done|]. rewrite Hx.
      eapply Forall_impl; [exact Hr|]. simpl. lia.
    + eapply Forall_impl; [exact Hp|]. intros c. apply horizon_remove.
Qed.

Lemma inv_log_abort m txid :
  inv m -> fate m !! txid = Some FActive ->
  inv (mkMachine (log_abort (shared m) txid) (pending m) (<[txid := FAborted]> (fate m))).
Proof.
  intros [Hn Hx Hs Hr Hi Ha Hd Hl Hm Hp] Ht.
  split; unfold next in *; simpl; try done.
  - intros x. rewrite lookup_insert_is_Some, <- Hi.
    destruct (decide (txid = x)); subst; naive_solver.
  - intros x. rewrite lookup_insert_Some. naive_solver.
  - intros x. rewrite lookup_insert_Some. naive_solver.
  - intros x. rewrite lookup_insert_Some, elem_of_union, elem_of_singleton, Hl.
    destruct (decide (txid = x)); naive_solver.
Qed.

Lemma inv_advance m l1 c l2 :
  inv m -> pending m = l1 ++ c :: l2 ->
  inv (mkMachine (advance_xmin (shared m) c) (l1 ++ l2) (fate m)).
Proof.
  intros [Hn Hx Hs Hr Hi Ha Hd Hl Hm Hp] Hpend.
  assert (horizon (shared m) c /\ Forall (horizon (shared m)) (l1 ++ l2)) as [Hc Hrest].
  { rewrite Hpend in Hp. rewrite Forall_app, Forall_cons in Hp. rewrite Forall_app. tauto. }
  assert (global_xmax_ (advance_xmin (shared m) c) = global_xmax_ (shared m) /\
          st_active (advance_xmin (shared m) c) = st_active (shared m) /\
          allocator (advance_xmin (shared m) c) = allocator (shared m) /\
          st_aborted (advance_xmin (shared m) c) = st_aborted (shared m)) as (E1 & E2 & E3 & E4).
  { unfold advance_xmin. rg_case; done. }
  split; unfold next in *; simpl; rewrite ?E1, ?E2, ?E3, ?E4; try done.
  - by apply advance_xmin_bound.
  - eapply Forall_impl; [exact Hrest|]. intros d. apply horizon_advance.
Qed.

Lemma inv_step m m' : inv m -> step m m' -> inv m'.
Proof.
  intros Hinv Hst. destruct Hst as [m txid snap st' Hov Hb|m txid st' c Hf Hr|m txid Hf
                                   |m txid st' c Hf Hr|m l1 c l2 Hp].
  - by eapply inv_begin.
  - pose proof (inv_remove m txid (<[txid := FCommitted]> (fate m)) Hinv) as H.
    rewrite Hr in H. simpl in H. apply H; clear H; intros t;
      rewrite ?lookup_insert_is_Some, ?lookup_insert_Some;
      destruct (decide (txid = t)); subst; naive_solver.
  - by apply inv_log_abort.
  - pose proof (inv_remove m txid (fate m) Hinv) as H. rewrite Hr in H.
    apply H; clear H; intros t; naive_solver.
  - by apply inv_advance.
Qed.

Lemma inv_init : inv machine_init.
Proof.
  split; simpl; try done; try (by constructor).
  - intros t. rewrite lookup_empty. split; [by intros []|].
    change (next machine_init) with 1. lia.
Qed.

Lemma inv_rtc m m' : inv m -> rtc step m m' -> inv m'.
Proof. intros Hm H. induction H; [done|]. eauto using inv_step. Qed.

Lemma inv_reachable m : rtc step machine_init m -> inv m.
Proof. apply inv_rtc, inv_init. Qed.

(** Fates are decided once. *)
Lemma fate_committed_stable m m' t :
  inv m -> rtc step m m' -> fate m !! t = Some FCommitted -> fate m' !! t = Some FCommitted.
Proof.
  intros Hm H. induction H as [|m m1 m' Hst H IH]; [done|]. intros Ht.
  apply IH; [by eapply inv_step|]. destruct Hst; simpl; try done.
  - rewrite lookup_insert_ne; [done|]. intros ->.
    assert (t = next m) as -> by (by eapply inv_begin).
    assert (is_Some (fate m !! next m)) as Hs by eauto.
    apply (inv_issued m Hm) in Hs. unfold next in *. lia.
  - rewrite lookup_insert. case_decide; congruence.
  - rewrite lookup_insert. case_decide; congruence.
Qed.

Lemma aborted_log_grows m m' : rtc step m m' -> st_aborted (shared m) ⊆ st_aborted (shared m').
Proof.
  induction 1 as [|m m1 m' Hst H IH]; [done|]. etrans; [|exact IH]. clear IH H.
  destruct Hst as [m txid snap st' Hov Hb|m txid st' c Hf Hr|m txid Hf
                  |m txid st' c Hf Hr|m l1 c l2 Hp]; simpl.
  - unfold begin_tx in Hb. destruct (allocate _). by simplify_eq/=.
  - unfold remove_active_locked in Hr. by simplify_eq/=.
  - set_solver.
  - unfold remove_active_locked in Hr. by simplify_eq/=.
  - unfold advance_xmin. by rg_case.
Qed.

(** ** Abstract specification of snapshot isolation

    A reader's view is determined by the fates at the instant its snapshot was
    taken: it sees its own writes and the writes of exactly the transactions
    that had committed by then. *)

Definition spec_sees (f : gmap Z Fate) (owner t : Z) : bool :=
  (t =? owner) || bool_decide (f !! t = Some FCommitted).

Definition spec_visible (f : gmap Z Fate) (owner creator deleter : Z) : bool :=
  spec_sees f owner creator &&
  ((deleter =? TX_ID_INVALID) || negb (spec_sees f owner deleter)).

(** A snapshot taken in [m] classifies every id other than its own by the fates
    of [m], for ever after. *)
Lemma snapshot_classifies m m' xn xm o t :
  inv m -> rtc step m m' ->
  (forall x, x ∈ st_active (shared m) -> xn <= x) -> xn <= next m ->
  next m <= xm <= next m + 1 -> (t = next m -> xm = next m) -> 1 <= t ->
  txid_committed_before_snapshot
    (with_aborted (snapshot_new xn xm (st_active (shared m)) o))
    (st_aborted (shared m')) t false
  = bool_decide (fate m !! t = Some FCommitted).
Proof.
  intros Hm Hsteps Hxn Hxn' Hxm Hne Hpos.
  apply eq_bool_prop_intro. rewrite bool_decide_spec, !Is_true_true.
  rewrite committed_before_spec by (apply snapshot_new_ok || unfold TX_ID_INVALID; lia).
  cbn [with_aborted snapshot_new aborted xmin xmax active].
  rewrite merge_sort_Permutation. split.
  - intros [Hlog Hwhen]. specialize (Hlog eq_refl).
    assert (t ∉ st_active (shared m)) as Hnact.
    { intros Hin. specialize (Hxn t Hin). destruct Hwhen; [lia|tauto]. }
    assert (is_Some (fate m !! t)) as [[] Hf].
    { apply (inv_issued m Hm). destruct Hwhen; [lia|]. lia. }
    + exfalso. by apply Hnact, (inv_active m Hm).
    + done.
    + exfalso. apply Hlog. apply (aborted_log_grows m m' Hsteps). by apply (inv_log m Hm).
  - intros Hf. split.
    + intros _ Hlog. apply (inv_log m' (inv_rtc m m' Hm Hsteps)) in Hlog.
      rewrite (fate_committed_stable m m' t Hm Hsteps Hf) in Hlog. done.
    + right. assert (is_Some (fate m !! t)) as Hs by eauto.
      apply (inv_issued m Hm) in Hs. split; [lia|]. by apply (inv_decided m Hm).
Qed.

Lemma first_active_le_next m d :
  inv m -> next m <= d -> (st_active (shared m) = [] -> d = next m) ->
  first_active (st_active (shared m)) d <= next m.
Proof.
  intros Hm Hd He. pose proof (inv_range m Hm) as Hr. unfold first_active.
  destruct (st_active (shared m)); [rewrite He; [lia|done]|]. inversion Hr; lia.
Qed.

(** ** Executable scheduler

    Events name the step a scheduler picks; [run] executes a schedule. *)

Inductive Event :=
| EvBegin | EvCommit (t : Z) | EvLogAbort (t : Z) | EvAbortRemove (t : Z)
| EvAdvance (i : nat).

Definition exec (e : Event) (m : Machine) : option Machine :=
  match e with
  | EvBegin =>
      if next m + 1 <? 2 ^ 64 then
        let '((t, _), st') := begin_tx (shared m) in
        Some (mkMachine st' (pending m) (<[t := FActive]> (fate m)))
      else None
  | EvCommit t =>
      if decide (fate m !! t = Some FActive) then
        let '(st', c) := remove_active_locked (shared m) t in
        Some (mkMachine st' (c :: pending m) (<[t := FCommitted]> (fate m)))
      else None
  | EvLogAbort t =>
      if decide (fate m !! t = Some FActive) then
        Some (mkMachine (log_abort (shared m) t) (pending m) (<[t := FAborted]> (fate m)))
      else None
  | EvAbortRemove t =>
      if decide (fate m !! t = Some FAborted) then
        let '(st', c) := remove_active_locked (shared m) t in
        Some (mkMachine st' (c :: pending m) (fate m))
      else None
  | EvAdvance i =>
      match pending m !! i with
      | Some c => Some (mkMachine (advance_xmin (shared m) c)
                                  (take i (pending m) ++ drop (S i) (pending m)) (fate m))
      | None => None
      end
  end.

Fixpoint run (es : list Event) (m : Machine) : option Machine :=
  match es with
  | [] => Some m
  | e :: es' => match exec e m with Some m' => run es' m' | None => None end
  end.

Lemma exec_sound e m m' : exec e m = Some m' -> step m m'.
Proof.
  destruct e as [|t|t|t|i]; simpl.
  - destruct (Z.ltb_spec (next m + 1) (2 ^ 64)); [|done].
    destruct (begin_tx (shared m)) as [[t s] st'] eqn:E. intros [= <-]. by econstructor.
  - case_decide; [|done]. intros [= <-]. by econstructor.
  - case_decide; [|done]. intros [= <-]. by econstructor.
  - case_decide; [|done]. intros [= <-]. by econstructor.
  - destruct (pending m !! i) as [c|] eqn:E; [|done]. intros [= <-].
    apply step_advance. symmetry. by apply take_drop_middle.
Qed.

Lemma run_sound es m m' : run es m = Some m' -> rtc step m m'.
Proof.
  revert m. induction es as [|e es IH]; intros m; simpl; [intros [= ->]; done|].
  destruct (exec e m) as [m1|] eqn:E; [|done]. intros H.
  eapply rtc_l; [by apply exec_sound in E|auto].
Qed.

(** The outcome of a schedule from the initial state. *)
Definition after (es : list Event) : Machine := default machine_init (run es machine_init).

Lemma after_reachable es : is_Some (run es machine_init) -> rtc step machine_init (after es).
Proof. intros [m E]. unfold after. rewrite E. simpl. by eapply run_sound. Qed.

(** C3 (snapshot isolation, refinement).  Take any reachable state [m] of the
    interleaved machine, begin a transaction there, and let every other thread
    run on arbitrarily to [m'].  For every row version whose committed hint bits
    are unset, the visibility test of the code then equals the specification
    evaluated at the *begin* instant: own writes and transactions committed
    before the snapshot are seen, everything else is not - in particular aborted
    creators stay invisible and no later commit leaks in.  With a hint bit set
    this fails: see [committed_hint_breaks_isolation]. *)
Theorem snapshot_refines_spec (m m1 m' : Machine) (txid : Z) (snap : Snapshot)
    (st1 : GlobalTxState) (creator deleter : Z) :
  rtc step machine_init m -> next m + 1 < 2 ^ 64 ->
  begin_tx (shared m) = ((txid, snap), st1) ->
  m1 = mkMachine st1 (pending m) (<[txid := FActive]> (fate m)) ->
  rtc step m1 m' ->
  1 <= creator -> 0 <= deleter ->
  is_visible snap (st_aborted (shared m')) creator deleter false false
  = spec_visible (fate m) txid creator deleter.
Proof.
  intros Hreach Hov Hb -> Hsteps Hc Hd. pose proof (inv_reachable m Hreach) as Hm.
  pose proof (begin_tx_eq (shared m) (proj1 (inv_next m Hm)) Hov) as Hbe. cbv zeta in Hbe.
  assert (rtc step m m') as Hall.
  { eapply rtc_l; [|exact Hsteps]. by econstructor. }
  rewrite Hb in Hbe. fold (next m) in Hbe. injection Hbe as -> -> ->.
  pose proof (first_active_least (st_active (shared m)) (next m) (inv_sorted m Hm)) as Hf.
  pose proof (first_active_le_next m (next m) Hm ltac:(lia) ltac:(done)) as Hf'.
  rewrite Forall_forall in Hf.
  set (snap := with_aborted _).
  assert (forall t, 1 <= t -> t ≠ next m ->
    txid_committed_before_snapshot snap (st_aborted (shared m')) t false
    = bool_decide (fate m !! t = Some FCommitted)) as Hcls.
  { intros t H1 H2. apply (snapshot_classifies m m'); auto; lia. }
  assert (owner_txid snap = next m) as Ho by done.
  clearbody snap.
  unfold is_visible, spec_visible, spec_sees. rewrite Ho.
  assert (fate m !! next m = None) as Hfresh.
  { apply eq_None_not_Some. rewrite (inv_issued m Hm). lia. }
  destruct (Z.eqb_spec creator (next m)) as [->|Hcn].
  - rewrite andb_false_r. simpl.
    destruct (Z.eqb_spec deleter TX_ID_INVALID); [done|]. simpl.
    destruct (Z.eqb_spec deleter (next m)) as [->|Hdn]; [done|]. simpl.
    rewrite Hcls; [done| |done]. unfold TX_ID_INVALID in *. lia.
  - rewrite Hcls by done. rewrite andb_true_r. simpl.
    destruct (bool_decide (fate m !! creator = Some FCommitted)); simpl; [|done].
    destruct (Z.eqb_spec deleter TX_ID_INVALID); [done|]. simpl.
    destruct (Z.eqb_spec deleter (next m)) as [->|Hdn]; [done|]. simpl.
    rewrite Hcls; [done| |done]. unfold TX_ID_INVALID in *. lia.
Qed.

Lemma snapshot_refines_spec_witness :
  let m := after [EvBegin; EvBegin; EvCommit 1; EvLogAbort 2] in
  let '((t, snap), st1) := begin_tx (shared m) in
  let m1 := mkMachine st1 (pending m) (<[t := FActive]> (fate m)) in
  is_visible snap (st_aborted (shared m1)) 1 2 false false = spec_visible (fate m) t 1 2.
Proof.
  cbv zeta.
  destruct (begin_tx _) as [[t snap] st1] eqn:E.
  eapply (snapshot_refines_spec (after [EvBegin; EvBegin; EvCommit 1; EvLogAbort 2]) _ _ t snap st1 1 2).
  - apply after_reachable. vm_compute. eauto.
  - vm_compute. congruence.
  - exact E.
  - reflexivity.
  - apply rtc_refl.
  - lia.
  - lia.
Defined.

(** [active_snapshot], used by read-only queries and
    by the phantom check, satisfies the same specification with no owner: at any
    later time it shows exactly the versions committed when it was taken. *)
Theorem active_snapshot_refines_spec (m m' : Machine) (creator deleter : Z) :
  rtc step machine_init m -> rtc step m m' -> 1 <= creator -> 0 <= deleter ->
  is_visible (active_snapshot (shared m)) (st_aborted (shared m')) creator deleter false false
  = spec_visible (fate m) TX_ID_INVALID creator deleter.
Proof.
  intros Hreach Hsteps Hc Hd. pose proof (inv_reachable m Hreach) as Hm.
  pose proof (inv_next m Hm). unfold active_snapshot. rewrite peek_next_pos by (unfold next in *; lia).
  fold (next m). set (xn := first_active _ _).
  assert (forall t, 1 <= t -> txid_committed_before_snapshot
      (with_aborted (snapshot_new xn (next m) (st_active (shared m)) TX_ID_INVALID))
      (st_aborted (shared m')) t false = bool_decide (fate m !! t = Some FCommitted)) as Hcls.
  { pose proof (first_active_least _ (next m) (inv_sorted m Hm)) as Hf. rewrite Forall_forall in Hf.
    intros t Ht. apply (snapshot_classifies m m'); auto; try lia.
    apply first_active_le_next; auto. lia. }
  unfold is_visible, spec_visible, spec_sees, TX_ID_INVALID in *. cbn [with_aborted snapshot_new owner_txid].
  rewrite Hcls by done. destruct (Z.eqb_spec creator 0); [lia|].
  rewrite andb_true_r, orb_false_l. destruct (bool_decide _); [|done]. simpl.
  destruct (Z.eqb_spec deleter 0); [done|]. simpl. rewrite Hcls by lia. done.
Qed.

Lemma active_snapshot_refines_spec_witness :
  let m := after [EvBegin; EvCommit 1; EvBegin] in
  is_visible (active_snapshot (shared m)) (st_aborted (shared m)) 1 2 false false
  = spec_visible (fate m) TX_ID_INVALID 1 2.
Proof.
  apply (active_snapshot_refines_spec (after [EvBegin; EvCommit 1; EvBegin]));
    [apply after_reachable; vm_compute; eauto | apply rtc_refl | lia | lia].
Defined.

(** Under every interleaving - including threads that
    computed their candidate before others began - [global_xmin] never exceeds
    an active transaction or the next id to be issued, and it never moves
    backwards. *)
Theorem global_xmin_monotone_bound (m m' : Machine) :
  rtc step machine_init m -> rtc step m m' ->
  global_xmin (shared m) <= global_xmin (shared m') <= next m' /\
  (forall t, t ∈ st_active (shared m') -> global_xmin (shared m') <= t).
Proof.
  intros Hreach Hsteps. pose proof (inv_reachable m Hreach) as Hm. split.
  2:{ destruct (inv_xmin m' (inv_rtc m m' Hm Hsteps)) as [_ H]. by rewrite Forall_forall in H. }
  split.
  2:{ destruct (inv_xmin m' (inv_rtc m m' Hm Hsteps)) as [H _].
      rewrite (inv_xmax m' (inv_rtc m m' Hm Hsteps)) in H. done. }
  clear Hreach. induction Hsteps as [|m m1 m' Hst Hsteps IH]; [lia|].
  etrans; [|apply IH; by eapply inv_step]. clear IH Hsteps. unfold global_xmin.
  destruct Hst as [m txid snap st' Hov Hb|m txid st' c Hf Hr|m txid Hf|m txid st' c Hf Hr|m l1 c l2 Hp];
    simpl; try (unfold remove_active_locked in Hr; simplify_eq/=; lia); try lia.
  - destruct (inv_xmin m Hm) as [Hx Ha]. rewrite (inv_xmax m Hm) in Hx.
    pose proof (inv_next m Hm). rewrite begin_tx_eq in Hb by (unfold next in *; lia).
    injection Hb as <- <- <-. simpl. fold (next m).
    unfold first_active. destruct (st_active (shared m)); [lia|]. inversion Ha; lia.
  - unfold advance_xmin. destruct (Z.leb_spec c (global_xmin_ (shared m))); simpl; lia.
Qed.

Lemma global_xmin_monotone_bound_witness :
  global_xmin (shared (after [EvBegin])) <= global_xmin (shared (after [EvBegin])) <= next (after [EvBegin]) /\
  (forall t, t ∈ st_active (shared (after [EvBegin])) -> global_xmin (shared (after [EvBegin])) <= t).
Proof.
  apply (global_xmin_monotone_bound (after [EvBegin]) (after [EvBegin]));
    [apply after_reachable; vm_compute; eauto | apply rtc_refl].
Defined.

(** [snapshot_gc_horizon] returns
    [global_xmin] and documents versions with [xmax < global_xmin] as safe to
    reclaim.  There is a reachable execution with a running reader (3) whose
    snapshot still sees a version deleted by a committed transaction (2) that is
    below [global_xmin]: the horizon ignores the *snapshots* of active
    transactions. *)
Theorem gc_horizon_below_visible_version :
  exists (m m' : Machine) (snap : Snapshot) (st1 : GlobalTxState),
    rtc step machine_init m /\
    begin_tx (shared m) = ((3, snap), st1) /\
    rtc step (mkMachine st1 (pending m) (<[3 := FActive]> (fate m))) m' /\
    fate m' !! 3 = Some FActive /\ fate m' !! 2 = Some FCommitted /\
    2 < global_xmin (shared m') /\
    is_visible snap (st_aborted (shared m')) 1 2 false false = true.
Proof.
  set (m := after [EvBegin; EvCommit 1; EvAdvance 0; EvBegin]).
  destruct (begin_tx (shared m)) as [[t snap] st1] eqn:E.
  assert (rtc step machine_init m) as Hm by (apply after_reachable; vm_compute; eauto).
  set (m1 := mkMachine st1 (pending m) (<[t := FActive]> (fate m))).
  exists m, (default m1 (run [EvCommit 2; EvAdvance 0] m1)), snap, st1.
  vm_compute in E. injection E as <- <- <-.
  split; [done|]. split; [reflexivity|]. split.
  { apply (run_sound [EvCommit 2; EvAdvance 0]). vm_compute. reflexivity. }
  repeat split; vm_compute; reflexivity.
Qed.

(** With the [xmin_committed] hint set
    - as the infomask cache of the tuple header would set it once the creator
    commits - the visibility test accepts a version whose creator began and
    committed *after* the snapshot was taken; the specification rejects it. *)
Theorem committed_hint_breaks_isolation :
  exists (m m' : Machine) (snap : Snapshot) (st1 : GlobalTxState),
    rtc step machine_init m /\
    begin_tx (shared m) = ((1, snap), st1) /\
    rtc step (mkMachine st1 (pending m) (<[1 := FActive]> (fate m))) m' /\
    fate m' !! 2 = Some FCommitted /\
    is_visible snap (st_aborted (shared m')) 2 TX_ID_INVALID true false = true /\
    spec_visible (fate m) 1 2 TX_ID_INVALID = false.
Proof.
  set (m := machine_init).
  destruct (begin_tx (shared m)) as [[t snap] st1] eqn:E.
  set (m1 := mkMachine st1 (pending m) (<[t := FActive]> (fate m))).
  exists m, (default m1 (run [EvBegin; EvCommit 2; EvAdvance 0] m1)), snap, st1.
  vm_compute in E. injection E as <- <- <-.
  split; [apply rtc_refl|]. split; [reflexivity|]. split.
  { apply (run_sound [EvBegin; EvCommit 2; EvAdvance 0]). vm_compute. reflexivity. }
  repeat split; vm_compute; reflexivity.
Qed.
