(* ===== verification/Mvcc.v ===== *)
(** * MVCC tuple headers ([src/txn/mvcc.rs])

    The 16-byte version header in front of every versioned record.  [encode]
    copies the [#[repr(C)]] struct, i.e. its fields little-endian in declaration
    order without padding. *)

From stdpp Require Import prelude list.
From Stdlib Require Import ZArith Lia.
From S2P Require Import Prelude Bytes TxId.

Definition TUPLE_TXID_INVALID : Z := 0.

Module infomask.
Definition XMIN_COMMITTED : Z := 0x0001.
Definition XMIN_ABORTED : Z := 0x0002.
Definition XMAX_COMMITTED : Z := 0x0004.
Definition XMAX_ABORTED : Z := 0x0008.
Definition HAS_NEXT_VERSION : Z := 0x0010.
Definition IS_UPDATED : Z := 0x0020.
End infomask.

Record TupleHeader := mkHeader {
  th_xmin : Z;
  th_xmax : Z;
  th_cid : Z;
  th_infomask : Z;
  th_next : Z
}.

Definition SIZE : nat := 16.

Definition header_ok (h : TupleHeader) : Prop :=
  is_u32 (th_xmin h) /\ is_u32 (th_xmax h) /\ is_u16 (th_cid h) /\
  is_u16 (th_infomask h) /\ is_u32 (th_next h).

(** [xmin as u32] truncates. *)
Definition new_insert (xmin cid : Z) : TupleHeader :=
  mkHeader (wrap 32 xmin) TUPLE_TXID_INVALID cid 0 0.

Definition is_live (h : TupleHeader) : bool := th_xmax h =? TUPLE_TXID_INVALID.
Definition is_deleted (h : TupleHeader) : bool := negb (th_xmax h =? TUPLE_TXID_INVALID).

Definition mark_deleted (h : TupleHeader) (xmax : Z) : TupleHeader :=
  mkHeader (th_xmin h) (wrap 32 xmax) (th_cid h) (th_infomask h) (th_next h).

Definition xmin_txid (h : TupleHeader) : Z := th_xmin h.
Definition xmax_txid (h : TupleHeader) : Z := th_xmax h.

Definition set_infomask (h : TupleHeader) (m : Z) : TupleHeader :=
  mkHeader (th_xmin h) (th_xmax h) (th_cid h) m (th_next h).

Definition set_flag (h : TupleHeader) (flag : Z) : TupleHeader :=
  set_infomask h (Z.lor (th_infomask h) flag).

(** [!flag] on a [u16] flips its 16 bits. *)
Definition clear_flag (h : TupleHeader) (flag : Z) : TupleHeader :=
  set_infomask h (Z.land (th_infomask h) (Z.lxor flag U16_MAX)).

Definition has_flag (h : TupleHeader) (flag : Z) : bool :=
  negb (Z.land (th_infomask h) flag =? 0).

Definition encode (h : TupleHeader) : list Z :=
  to_le 4 (th_xmin h) ++ to_le 4 (th_xmax h) ++ to_le 2 (th_cid h) ++
  to_le 2 (th_infomask h) ++ to_le 4 (th_next h).

(** [encode] into a caller buffer asserts the exact length. *)
Definition encode_into (h : TupleHeader) (out : list Z) : option (list Z) :=
  if (length out =? SIZE)%nat then Some (encode h) else None.

Definition decode (bytes : list Z) : option TupleHeader :=
  if (length bytes <? SIZE)%nat then None
  else Some (mkHeader (from_le (slice bytes 0 4)) (from_le (slice bytes 4 8))
                      (from_le (slice bytes 8 10)) (from_le (slice bytes 10 12))
                      (from_le (slice bytes 12 16))).

(** ** Lemmas *)

Lemma length_header h : length (encode h) = SIZE.
Proof. unfold encode. rewrite !length_app, !length_to_le. done. Qed.

(** Decoding an encoded header - at the front of any
    record - gives the header back, and encoding what was decoded gives the
    first 16 bytes back; buffers of the wrong length are refused. *)
Theorem header_roundtrip (h : TupleHeader) (rest bytes : list Z) :
  header_ok h -> bytes_ok bytes -> (SIZE <= length bytes)%nat ->
  decode (encode h ++ rest) = Some h /\
  (exists h', decode bytes = Some h' /\ header_ok h' /\ encode h' = take SIZE bytes) /\
  (forall out, length out ≠ SIZE -> encode_into h out = None) /\
  (forall short, (length short < SIZE)%nat -> decode short = None).
Proof.
  intros (H1 & H2 & H3 & H4 & H5) Hb Hl. repeat split.
  - unfold decode. rewrite length_app, length_header.
    destruct (Nat.ltb_spec (SIZE + length rest) SIZE); [lia|].
    f_equal. destruct h as [a b c d e]. unfold encode.
    cbn [th_xmin th_xmax th_cid th_infomask th_next] in *.
    f_equal; field_slice; by apply from_to_le_id.
  - unfold decode. destruct (Nat.ltb_spec (length bytes) SIZE); [lia|].
    eexists. split; [done|]. unfold SIZE in *.
    assert (forall a n, (a + n <= length bytes)%nat ->
      uint (8 * Z.of_nat n) (from_le (slice bytes a (a + n))) /\
      to_le n (from_le (slice bytes a (a + n))) = slice bytes a (a + n)) as Hfix.
    { intros a n Han. apply from_le_fixed; [auto with rg|]. rewrite length_slice; lia. }
    destruct (Hfix 0%nat 4%nat) as [R1 E1]; [lia|]. destruct (Hfix 4%nat 4%nat) as [R2 E2]; [lia|].
    destruct (Hfix 8%nat 2%nat) as [R3 E3]; [lia|]. destruct (Hfix 10%nat 2%nat) as [R4 E4]; [lia|].
    destruct (Hfix 12%nat 4%nat) as [R5 E5]; [lia|]. simpl Nat.add in *.
    split; [done|]. unfold encode. cbn [th_xmin th_xmax th_cid th_infomask th_next].
    rewrite E1, E2, E3, E4, E5. rewrite !slice_glue by lia. done.
  - intros out Hout. unfold encode_into. destruct (Nat.eqb_spec (length out) SIZE); done.
  - intros short Hs. unfold decode. destruct (Nat.ltb_spec (length short) SIZE); [done|lia].
Qed.

Lemma header_roundtrip_witness :
  decode (encode (set_flag (new_insert 7 1) infomask.XMIN_COMMITTED) ++ [1; 2; 3]) =
    Some (set_flag (new_insert 7 1) infomask.XMIN_COMMITTED).
Proof.
  apply (header_roundtrip (set_flag (new_insert 7 1) infomask.XMIN_COMMITTED) [1; 2; 3] (replicate 16 9));
    [repeat split; vm_compute; congruence | by apply Forall_replicate | vm_compute; lia].
Defined.

(** Setting, clearing and testing flags act bit by bit: set
    turns exactly the flag's bits on, clear turns exactly them off, every other
    bit keeps its value, the mask stays a [u16], and [has_flag] is true exactly
    when a bit of the flag is set. *)
Theorem infomask_bitwise (h : TupleHeader) (flag n : Z) :
  header_ok h -> is_u16 flag -> 0 <= n ->
  Z.testbit (th_infomask (set_flag h flag)) n
    = Z.testbit (th_infomask h) n || Z.testbit flag n /\
  Z.testbit (th_infomask (clear_flag h flag)) n
    = Z.testbit (th_infomask h) n && negb (Z.testbit flag n) /\
  header_ok (set_flag h flag) /\ header_ok (clear_flag h flag) /\
  (has_flag h flag = true <->
     exists i, 0 <= i /\ Z.testbit (th_infomask h) i = true /\ Z.testbit flag i = true) /\
  has_flag (clear_flag h flag) flag = false.
Proof.
  intros (H1 & H2 & H3 & H4 & H5) Hf Hn. unfold set_flag, clear_flag, has_flag, header_ok. simpl.
  change U16_MAX with (Z.ones 16).
  split; [apply Z.lor_spec|]. split; [by apply testbit_clear|].
  split; [auto 10 using uint_lor with lia|]. split; [auto 10 using uint_land_l with lia|].
  split.
  - rewrite negb_true_iff, Z.eqb_neq. apply land_nonzero_bit. apply H4.
  - rewrite negb_false_iff, Z.eqb_eq. apply Z.bits_inj'. intros k Hk.
    rewrite Z.bits_0, Z.land_spec, testbit_clear by done.
    destruct (Z.testbit flag k); rewrite ?andb_false_r; done.
Qed.

Lemma infomask_bitwise_witness :
  has_flag (clear_flag (set_flag (new_insert 1 0) infomask.XMAX_ABORTED) infomask.XMAX_ABORTED)
           infomask.XMAX_ABORTED = false.
Proof.
  apply (infomask_bitwise (set_flag (new_insert 1 0) infomask.XMAX_ABORTED) infomask.XMAX_ABORTED 3);
    [repeat split; vm_compute; congruence | vm_compute; split; congruence | lia].
Defined.

(** The header keeps only the low 32 bits of a
    transaction id: below 2^32 ids survive, but every id that is a multiple of
    2^32 becomes the invalid sentinel, so a row deleted by such a (valid)
    transaction still reads as live. *)
Theorem txid_truncation (h : TupleHeader) (x cid : Z) :
  is_u64 x ->
  xmin_txid (new_insert x cid) = x mod 2 ^ 32 /\
  (x < 2 ^ 32 -> xmin_txid (new_insert x cid) = x /\ xmax_txid (mark_deleted h x) = x) /\
  (is_deleted (mark_deleted h x) = negb (x mod 2 ^ 32 =? 0)) /\
  (x ≠ TX_ID_INVALID -> x mod 2 ^ 32 = 0 -> is_live (mark_deleted h x) = true).
Proof.
  intros Hx. unfold is_deleted, is_live, xmin_txid, xmax_txid, new_insert, mark_deleted, wrap. simpl.
  split; [done|]. split.
  - intros Hlt. rewrite Z.mod_small by (unfold uint in *; lia). done.
  - split; [done|]. intros _ ->. done.
Qed.

Lemma txid_truncation_witness :
  is_live (mark_deleted (new_insert 1 0) (2 ^ 32)) = true.
Proof.
  apply (txid_truncation (new_insert 1 0) (2 ^ 32) 0);
    [vm_compute; split; congruence | vm_compute; congruence | reflexivity].
Defined.
