(* ===== verification/LockTable.v ===== *)
(** * Sharded lock table ([src/txn/lock_table.rs])

    Locks are kept per resource in [LockEntry]s, spread over 1024 shards.  The
    notification channel of a waiter carries one message; the model returns the
    transactions notified by an operation, in send order, instead of threading
    channel objects. *)

From stdpp Require Import prelude list gmap relations.
From Stdlib Require Import ZArith Lia.
From S2P Require Import Prelude.

Inductive LockMode := IntentionShared | IntentionExclusive | Shared | Exclusive.
Inductive LockResult := Granted | Denied.

#[global] Instance lockmode_eq_dec : EqDecision LockMode.
Proof. solve_decision. Defined.
#[global] Instance lockresult_eq_dec : EqDecision LockResult.
Proof. solve_decision. Defined.

Definition compatible_with (a b : LockMode) : bool :=
  match a, b with
  | IntentionShared, IntentionShared
  | IntentionShared, IntentionExclusive
  | IntentionShared, Shared
  | IntentionExclusive, IntentionShared
  | IntentionExclusive, IntentionExclusive
  | Shared, IntentionShared
  | Shared, Shared => true
  | _, _ => false
  end.

Definition allows_multiple_holders (m : LockMode) : bool :=
  match m with IntentionShared | IntentionExclusive | Shared => true | Exclusive => false end.

Record Holder := mkHolder { h_txid : Z; h_mode : LockMode }.

Record LockEntry := mkEntry {
  holders_of : list Holder;
  waiters : list (Z * LockMode)     (* VecDeque, front first *)
}.

Definition entry_new : LockEntry := mkEntry [] [].

Definition mode_at_least_as_strong (held required : LockMode) : bool :=
  match required with
  | IntentionShared => true
  | IntentionExclusive => match held with IntentionExclusive | Exclusive => true | _ => false end
  | Shared => match held with Shared | Exclusive => true | _ => false end
  | Exclusive => bool_decide (held = Exclusive)
  end.

Definition already_holds (e : LockEntry) (txid : Z) (mode : LockMode) : bool :=
  existsb (fun h => (h_txid h =? txid) && mode_at_least_as_strong (h_mode h) mode) (holders_of e).

Definition compatible_with_holders (hs : list Holder) (txid : Z) (mode : LockMode) : bool :=
  forallb (fun h => (h_txid h =? txid) || compatible_with mode (h_mode h)) hs.

Definition add_holder (hs : list Holder) (txid : Z) (mode : LockMode) : list Holder :=
  if existsb (fun h => h_txid h =? txid) hs then hs else hs ++ [mkHolder txid mode].

(** [Vec::swap_remove]: the last element takes the removed one's place. *)
Definition swap_remove {A} (l : list A) (i : nat) : list A :=
  match last l with
  | Some x => if (S i =? length l)%nat then take i l else <[i := x]> (take (length l - 1) l)
  | None => l
  end.

Fixpoint position {A} (p : A -> bool) (l : list A) : option nat :=
  match l with
  | [] => None
  | x :: l' => if p x then Some O else S <$> position p l'
  end.

Definition remove_holder (hs : list Holder) (txid : Z) : list Holder :=
  match position (fun h => h_txid h =? txid) hs with
  | Some pos => swap_remove hs pos
  | None => hs
  end.

(** The [while let Some(..) = waiters.front()] loop: grants from the front while
    compatible, stops at the first waiter that is not.  Returns the new holders,
    the remaining queue and the notified transactions in order. *)
Fixpoint grant_loop (hs : list Holder) (ws : list (Z * LockMode)) :
    list Holder * list (Z * LockMode) * list Z :=
  match ws with
  | [] => (hs, [], [])
  | (t, m) :: ws' =>
      if compatible_with_holders hs t m then
        let '(hs', rest, sent) := grant_loop (add_holder hs t m) ws' in (hs', rest, t :: sent)
      else (hs, ws, [])
  end.

Definition grant_compatible_waiters (e : LockEntry) : LockEntry * list Z :=
  let '(hs, ws, sent) := grant_loop (holders_of e) (waiters e) in (mkEntry hs ws, sent).

(** ** The table *)

Definition N_SHARDS : nat := 1024.

Record LockTable := mkTable { shards : list (gmap Z LockEntry) }.

Definition table_new : LockTable := mkTable (replicate N_SHARDS ∅).

(** Fibonacci hashing; the top 10 of 64 bits. *)
Definition shard_index (resource_id : Z) : nat :=
  Z.to_nat (Z.shiftr (wrap 64 (resource_id * 0x9E3779B97F4A7C15)) (64 - 10)).

#[global] Arguments shard_index : simpl never.
#[global] Arguments N_SHARDS : simpl never.

Definition shard_of (t : LockTable) (r : Z) : gmap Z LockEntry :=
  default ∅ (shards t !! shard_index r).

Definition set_shard (t : LockTable) (r : Z) (s : gmap Z LockEntry) : LockTable :=
  mkTable (<[shard_index r := s]> (shards t)).

(** The decision [try_acquire] takes on an entry: result, whether a receiver is
    returned, and the entry afterwards. *)
Definition entry_acquire (e : LockEntry) (txid : Z) (mode : LockMode) :
    (LockResult * bool) * LockEntry :=
  if already_holds e txid mode then ((Granted, false), e)
  else if compatible_with_holders (holders_of e) txid mode then
    ((Granted, false), mkEntry (add_holder (holders_of e) txid mode) (waiters e))
  else if existsb (fun w => fst w =? txid) (waiters e) then ((Denied, false), e)
  else ((Denied, true), mkEntry (holders_of e) (waiters e ++ [(txid, mode)])).

Definition try_acquire (t : LockTable) (r txid : Z) (mode : LockMode) :
    (LockResult * bool) * LockTable :=
  let shard := shard_of t r in
  let entry := default entry_new (shard !! r) in
  let '(res, entry') := entry_acquire entry txid mode in
  (res, set_shard t r (<[r := entry']> shard)).

Definition release (t : LockTable) (r txid : Z) : LockTable * list Z :=
  let shard := shard_of t r in
  match shard !! r with
  | None => (t, [])
  | Some e =>
      let e1 := mkEntry (remove_holder (holders_of e) txid) (waiters e) in
      let '(e2, sent) := grant_compatible_waiters e1 in
      match holders_of e2, waiters e2 with
      | [], [] => (set_shard t r (delete r shard), sent)
      | _, _ => (set_shard t r (<[r := e2]> shard), sent)
      end
  end.

Fixpoint release_all (t : LockTable) (txid : Z) (resources : list Z) : LockTable * list (Z * Z) :=
  match resources with
  | [] => (t, [])
  | r :: rs =>
      let '(t1, sent) := release t r txid in
      let '(t2, more) := release_all t1 txid rs in
      (t2, ((fun w => (r, w)) <$> sent) ++ more)
  end.

Definition holders (t : LockTable) (r : Z) : list (Z * LockMode) :=
  match shard_of t r !! r with
  | Some e => (fun h => (h_txid h, h_mode h)) <$> holders_of e
  | None => []
  end.

(** ** Invariants *)

Definition holders_compatible (hs : list Holder) : Prop :=
  forall h1 h2, h1 ∈ hs -> h2 ∈ hs -> h_txid h1 ≠ h_txid h2 ->
    compatible_with (h_mode h1) (h_mode h2) = true.

Definition front_blocked (e : LockEntry) : Prop :=
  match waiters e with
  | [] => True
  | (t, m) :: _ => compatible_with_holders (holders_of e) t m = false
  end.

Record entry_inv (e : LockEntry) : Prop := {
  ei_nodup : NoDup (h_txid <$> holders_of e);
  ei_wnodup : NoDup (fst <$> waiters e);
  ei_compat : holders_compatible (holders_of e);
  ei_front : front_blocked e;
  ei_nonempty : holders_of e ≠ []
}.

(** The flat view of the sharded table: what a lock manager promises its
    clients is a map from resources to entries. *)
Definition entry_of (t : LockTable) (r : Z) : option LockEntry := shard_of t r !! r.

Record table_inv (t : LockTable) : Prop := {
  ti_length : length (shards t) = N_SHARDS;
  ti_entry : forall r e, entry_of t r = Some e -> entry_inv e
}.

(** ** Removing a holder *)

Lemma filter_id_all {A} (P : A -> Prop) `{!forall x, Decision (P x)} (l : list A) :
  (forall x, x ∈ l -> P x) -> filter P l = l.
Proof.
  induction l as [|x l IH]; intros Hall; [done|]. rewrite filter_cons, decide_True.
  - f_equal. apply IH. intros. apply Hall. by right.
  - apply Hall. by left.
Qed.

Lemma swap_remove_perm {A} (l : list A) i x :
  l !! i = Some x -> x :: swap_remove l i ≡ₚ l.
Proof.
  intros Hi. pose proof (lookup_lt_Some _ _ _ Hi) as Hlt. unfold swap_remove.
  destruct (last l) as [y|] eqn:El.
  2:{ apply last_None in El. subst. done. }
  apply last_Some in El as [k ->].
  assert (length (k ++ [y]) = S (length k)) as Hl by (rewrite length_app; simpl; lia).
  rewrite Hl in *. destruct (Nat.eqb_spec (S i) (S (length k))) as [E|E].
  - assert (i = length k) as -> by lia. rewrite lookup_app_r, Nat.sub_diag in Hi by lia.
    simplify_eq/=. rewrite take_app_length. apply Permutation_cons_append.
  - assert (i < length k)%nat as Hik by lia. rewrite lookup_app_l in Hi by done.
    replace (S (length k) - 1)%nat with (length k) by lia. rewrite take_app_length.
    rewrite (insert_take_drop k i y Hik).
    transitivity ((take i k ++ x :: drop (S i) k) ++ [y]); [solve_Permutation|].
    by rewrite (take_drop_middle k i x Hi).
Qed.

Lemma position_Some {A} (p : A -> bool) l i :
  position p l = Some i -> exists x, l !! i = Some x /\ p x = true.
Proof.
  revert i. induction l as [|x l IH]; intros i; simpl; [done|].
  destruct (p x) eqn:E; [intros; simplify_eq; eauto|].
  destruct (position p l) as [j|] eqn:Ej; [|done]. intros; simplify_eq/=. by apply IH.
Qed.

Lemma position_None {A} (p : A -> bool) l :
  position p l = None -> forall x, x ∈ l -> p x = false.
Proof.
  induction l as [|y l IH]; simpl; intros H x Hx; [by apply not_elem_of_nil in Hx|].
  destruct (p y) eqn:E; [done|]. destruct (position p l) eqn:Ej; [done|].
  apply elem_of_cons in Hx as [->|Hx]; [done|by apply IH].
Qed.

Lemma remove_holder_absent hs t :
  t ∉ (h_txid <$> hs) -> remove_holder hs t = hs.
Proof.
  intros Hn. unfold remove_holder. destruct (position _ hs) as [i|] eqn:E; [|done].
  apply position_Some in E as (h & Hh & Ht). rg_bool. subst.
  destruct Hn. apply list_elem_of_fmap_2. by eapply list_elem_of_lookup_2.
Qed.

(** With one entry per transaction, removal leaves exactly the others. *)
Lemma remove_holder_perm hs t :
  NoDup (h_txid <$> hs) -> remove_holder hs t ≡ₚ filter (fun h => h_txid h ≠ t) hs.
Proof.
  intros Hn. unfold remove_holder. destruct (position _ hs) as [i|] eqn:E.
  - apply position_Some in E as (h & Hh & Ht). rg_bool. subst.
    pose proof (swap_remove_perm _ _ _ Hh) as Hp.
    rewrite <- Hp in Hn. rewrite <- Hp at 2. rewrite filter_cons, decide_False by auto.
    simpl in Hn. apply NoDup_cons in Hn as [Hni _].
    rewrite filter_id_all; [done|]. intros g Hg Eg. destruct Hni.
    rewrite <- Eg. by apply list_elem_of_fmap_2.
  - rewrite filter_id_all; [done|]. intros h Hh Et.
    apply (position_None _ _ E) in Hh. rg_bool. done.
Qed.

Lemma elem_of_remove_holder hs t h :
  NoDup (h_txid <$> hs) -> h ∈ remove_holder hs t <-> h ∈ hs /\ h_txid h ≠ t.
Proof.
  intros Hn. rewrite (remove_holder_perm _ _ Hn), list_elem_of_filter. tauto.
Qed.

Lemma remove_holder_nodup hs t :
  NoDup (h_txid <$> hs) -> NoDup (h_txid <$> remove_holder hs t).
Proof.
  intros Hn. rewrite (remove_holder_perm _ _ Hn).
  eapply sublist_NoDup; [exact Hn|]. apply fmap_sublist, sublist_filter.
Qed.

(** ** Granting *)

Lemma compatible_with_sym a b : compatible_with a b = compatible_with b a.
Proof. by destruct a, b. Qed.

Lemma compatible_with_holders_spec hs t m :
  compatible_with_holders hs t m = true <->
  forall h, h ∈ hs -> h_txid h ≠ t -> compatible_with m (h_mode h) = true.
Proof.
  unfold compatible_with_holders. rewrite forallb_forall. split; intros H h Hh.
  - intros Ht. specialize (H h). rewrite <- list_elem_of_In in H. specialize (H Hh).
    apply orb_prop in H as [H|H]; rg_bool; done.
  - apply list_elem_of_In in Hh. destruct (Z.eqb_spec (h_txid h) t); [done|]. by apply H.
Qed.

(** More holders block at least as much. *)
Lemma compatible_with_holders_antitone hs hs' t m :
  (forall h, h ∈ hs -> h ∈ hs') ->
  compatible_with_holders hs' t m = true -> compatible_with_holders hs t m = true.
Proof. rewrite !compatible_with_holders_spec. eauto. Qed.

Lemma has_holder_spec hs t :
  existsb (fun h => h_txid h =? t) hs = true <-> t ∈ (h_txid <$> hs).
Proof.
  rewrite existsb_exists, list_elem_of_fmap. split.
  - intros (h & Hh & E). rg_bool. apply list_elem_of_In in Hh. eauto.
  - intros (h & -> & Hh). apply list_elem_of_In in Hh. exists h. split; [done|apply Z.eqb_refl].
Qed.

Lemma add_holder_cases hs t m :
  (t ∈ (h_txid <$> hs) /\ add_holder hs t m = hs) \/
  (t ∉ (h_txid <$> hs) /\ add_holder hs t m = hs ++ [mkHolder t m]).
Proof.
  unfold add_holder. destruct (existsb _ hs) eqn:E.
  - left. by apply has_holder_spec in E.
  - right. split; [|done]. intros H. apply has_holder_spec in H. congruence.
Qed.

Lemma elem_of_add_holder hs t m h : h ∈ hs -> h ∈ add_holder hs t m.
Proof.
  intros. destruct (add_holder_cases hs t m) as [[_ ->]|[_ ->]]; [done|].
  apply elem_of_app. by left.
Qed.

Lemma add_holder_nonempty hs t m : add_holder hs t m ≠ [].
Proof.
  destruct (add_holder_cases hs t m) as [[H ->]|[_ ->]].
  - intros ->. by apply not_elem_of_nil in H.
  - by destruct hs.
Qed.

(** What holds of a holder list: one entry per transaction, compatible modes. *)
Definition holders_ok (hs : list Holder) : Prop :=
  NoDup (h_txid <$> hs) /\ holders_compatible hs.

Lemma add_holder_ok hs t m :
  holders_ok hs -> compatible_with_holders hs t m = true -> holders_ok (add_holder hs t m).
Proof.
  intros [Hn Hc] Hm. destruct (add_holder_cases hs t m) as [[_ ->]|[Hnt ->]]; [done|].
  rewrite compatible_with_holders_spec in Hm. split.
  - rewrite fmap_app. apply NoDup_app. split; [done|]. split.
    + intros x Hx Hx'. apply list_elem_of_singleton in Hx'. by subst.
    + apply NoDup_singleton.
  - intros h1 h2 H1 H2 Hne. apply elem_of_app in H1, H2.
    rewrite !list_elem_of_singleton in *.
    destruct H1 as [H1| ->], H2 as [H2| ->]; simpl in *; auto; try done.
    rewrite compatible_with_sym. auto.
Qed.

Lemma remove_holder_ok hs t : holders_ok hs -> holders_ok (remove_holder hs t).
Proof.
  intros [Hn Hc]. split; [by apply remove_holder_nodup|].
  intros h1 h2 H1 H2. apply elem_of_remove_holder in H1 as [? _], H2 as [? _]; auto.
Qed.

(** The loop grants a prefix of the queue, in order, and what is left at the
    front is blocked by the resulting holders. *)
Lemma grant_loop_spec ws : forall hs hs' rest sent,
  grant_loop hs ws = (hs', rest, sent) ->
  exists granted,
    ws = granted ++ rest /\ sent = fst <$> granted /\
    hs' = foldl (fun acc w => add_holder acc (fst w) (snd w)) hs granted /\
    front_blocked (mkEntry hs' rest) /\
    (holders_ok hs -> holders_ok hs') /\
    (hs ≠ [] \/ ws ≠ [] -> hs' ≠ []).
Proof.
  induction ws as [|[t m] ws IH]; intros hs hs' rest sent; simpl.
  { intros [= <- <- <-]. exists []. split_and!; [done..|]. naive_solver. }
  destruct (compatible_with_holders hs t m) eqn:Ec.
  - destruct (grant_loop (add_holder hs t m) ws) as [[h r] s] eqn:Eg. intros [= <- <- <-].
    destruct (IH _ _ _ _ Eg) as (g & -> & -> & -> & Hf & Hok & Hne).
    exists ((t, m) :: g). split_and!; [done..| |].
    + intros H. apply Hok. by apply add_holder_ok.
    + intros _. apply Hne. left. apply add_holder_nonempty.
  - intros [= <- <- <-]. exists []. split_and!; [done..|]. intros _ ->. done.
Qed.

(** ** Entry operations *)

(** The body of [release] on an existing entry. *)
Definition entry_release (e : LockEntry) (txid : Z) : LockEntry * list Z :=
  grant_compatible_waiters (mkEntry (remove_holder (holders_of e) txid) (waiters e)).

Lemma already_holds_spec e t m :
  already_holds e t m = true <->
  exists h, h ∈ holders_of e /\ h_txid h = t /\ mode_at_least_as_strong (h_mode h) m = true.
Proof.
  unfold already_holds. rewrite existsb_exists. split.
  - intros (h & Hh & E). rg_bool. apply list_elem_of_In in Hh. eauto.
  - intros (h & Hh & <- & E). apply list_elem_of_In in Hh. exists h.
    by rewrite Z.eqb_refl, E.
Qed.

Lemma is_waiting_spec (ws : list (Z * LockMode)) t :
  existsb (fun w => fst w =? t) ws = true <-> t ∈ (fst <$> ws).
Proof.
  rewrite existsb_exists, list_elem_of_fmap. split.
  - intros (h & Hh & E). rg_bool. apply list_elem_of_In in Hh. eauto.
  - intros (h & -> & Hh). apply list_elem_of_In in Hh. exists h. split; [done|apply Z.eqb_refl].
Qed.

Lemma entry_acquire_inv e t m :
  entry_inv e \/ e = entry_new -> entry_inv (entry_acquire e t m).2.
Proof.
  intros He. unfold entry_acquire.
  destruct (already_holds e t m) eqn:Ea; simpl.
  { destruct He as [He| ->]; [done|]. discriminate Ea. }
  destruct (compatible_with_holders (holders_of e) t m) eqn:Ec; simpl.
  - assert (holders_ok (holders_of e)) as Hok.
    { destruct He as [He| ->]; [by split; apply He|]. split; [constructor|].
      intros h1 h2 H. by apply not_elem_of_nil in H. }
    destruct (add_holder_ok _ t m Hok Ec) as [Hn Hc]. split; simpl; auto.
    + destruct He as [He| ->]; [apply He|constructor].
    + destruct He as [He| ->]; [|done]. pose proof (ei_front _ He) as Hf.
      unfold front_blocked in *. simpl. destruct (waiters e) as [|[t' m'] ws]; [done|].
      destruct (compatible_with_holders (add_holder _ _ _) t' m') eqn:E; [|done].
      rewrite <- Hf. symmetry. eapply compatible_with_holders_antitone; [|exact E].
      intros. by apply elem_of_add_holder.
    + apply add_holder_nonempty.
  - destruct He as [He| ->]; [|discriminate Ec].
    destruct (existsb _ (waiters e)) eqn:Ew; simpl; [done|]. destruct He.
    split; simpl; auto.
    + rewrite fmap_app. apply NoDup_app. split; [done|]. split; [|apply NoDup_singleton].
      intros x Hx Hx'. apply list_elem_of_singleton in Hx' as ->.
      apply is_waiting_spec in Hx. simpl in Hx. congruence.
    + unfold front_blocked in *. simpl. destruct (waiters e) as [|[t' m'] ws]; done.
Qed.

Lemma entry_release_inv e t :
  entry_inv e ->
  entry_inv (entry_release e t).1 \/
  holders_of (entry_release e t).1 = [] /\ waiters (entry_release e t).1 = [].
Proof.
  intros [Hn Hw Hc Hf Hne]. unfold entry_release, grant_compatible_waiters. simpl.
  destruct (grant_loop _ _) as [[hs ws] sent] eqn:Eg. simpl.
  destruct (grant_loop_spec _ _ _ _ _ Eg) as (g & Ews & -> & _ & Hfb & Hok & Hnn).
  destruct (remove_holder_ok (holders_of e) t) as [Hn' Hc']; [done|].
  destruct (decide (hs = [])) as [->|Hhs].
  - right. split; [done|]. destruct ws as [|[t' m'] ws]; [done|]. discriminate Hfb.
  - left. destruct Hok as [Hn2 Hc2]; [done|]. split; simpl; auto.
    rewrite Ews, fmap_app in Hw. by apply NoDup_app in Hw as (_ & _ & ?).
Qed.

(** ** The sharded table as one flat map *)

Lemma shard_index_bound r : (shard_index r < N_SHARDS)%nat.
Proof.
  unfold shard_index. set (h := r * 0x9E3779B97F4A7C15). clearbody h.
  pose proof (wrap_range 64 h ltac:(lia)) as [H1 H2]. rewrite Z.shiftr_div_pow2 by lia.
  assert (wrap 64 h / 2 ^ (64 - 10) < 1024) by (apply Z.div_lt_upper_bound; lia).
  assert (0 <= wrap 64 h / 2 ^ (64 - 10)) by (apply Z.div_pos; lia).
  assert (Z.of_nat N_SHARDS = 1024) by reflexivity. lia.
Qed.

Lemma shard_of_set t r s r' :
  length (shards t) = N_SHARDS ->
  shard_of (set_shard t r s) r' =
    if decide (shard_index r = shard_index r') then s else shard_of t r'.
Proof.
  intros Hl. unfold shard_of, set_shard. cbn [shards]. case_decide as E.
  - rewrite <- E, list_lookup_insert_eq by (rewrite Hl; apply shard_index_bound). done.
  - by rewrite list_lookup_insert_ne.
Qed.

(** Storing or deleting an entry touches that resource only, whatever shard the
    others hash to. *)
Lemma entry_of_insert t r e r' :
  length (shards t) = N_SHARDS ->
  entry_of (set_shard t r (<[r := e]> (shard_of t r))) r' =
    if decide (r = r') then Some e else entry_of t r'.
Proof.
  intros Hl. unfold entry_of. rewrite shard_of_set by done. case_decide as E.
  - case_decide as E'; [subst; by rewrite lookup_insert_eq|].
    rewrite lookup_insert_ne by done. unfold shard_of. by rewrite E.
  - rewrite decide_False; [done|]. by intros ->.
Qed.

Lemma entry_of_delete t r r' :
  length (shards t) = N_SHARDS ->
  entry_of (set_shard t r (delete r (shard_of t r))) r' =
    if decide (r = r') then None else entry_of t r'.
Proof.
  intros Hl. unfold entry_of. rewrite shard_of_set by done. case_decide as E.
  - case_decide as E'; [subst; by rewrite lookup_delete_eq|].
    rewrite lookup_delete_ne by done. unfold shard_of. by rewrite E.
  - rewrite decide_False; [done|]. by intros ->.
Qed.

Lemma length_set_shard t r s : length (shards (set_shard t r s)) = length (shards t).
Proof. apply length_insert. Qed.

Lemma entry_of_new r : entry_of table_new r = None.
Proof.
  unfold entry_of, shard_of, table_new. cbn [shards].
  rewrite lookup_replicate_2 by apply shard_index_bound. done.
Qed.

Lemma try_acquire_entry t r x m r' :
  length (shards t) = N_SHARDS ->
  entry_of (try_acquire t r x m).2 r' =
    if decide (r = r') then Some (entry_acquire (default entry_new (entry_of t r)) x m).2
    else entry_of t r'.
Proof.
  intros Hl. unfold try_acquire. fold (entry_of t r).
  destruct (entry_acquire _ x m) as [res e']. cbn [snd]. by apply entry_of_insert.
Qed.

Lemma try_acquire_res t r x m :
  (try_acquire t r x m).1 = (entry_acquire (default entry_new (entry_of t r)) x m).1.
Proof. unfold try_acquire. fold (entry_of t r). by destruct (entry_acquire _ x m). Qed.

Lemma release_sent t r x e :
  entry_of t r = Some e -> (release t r x).2 = (entry_release e x).2.
Proof.
  intros He. unfold release. fold (entry_of t r). rewrite He. unfold entry_release.
  destruct (grant_compatible_waiters _) as [e2 s2]. simpl.
  destruct (holders_of e2), (waiters e2); done.
Qed.

(** An entry with neither holders nor waiters is dropped. *)
Definition release_result (e : LockEntry) : option LockEntry :=
  match holders_of e, waiters e with [], [] => None | _, _ => Some e end.

Lemma release_entry t r x r' :
  length (shards t) = N_SHARDS ->
  entry_of (release t r x).1 r' =
    if decide (r = r')
    then e ← entry_of t r; release_result (entry_release e x).1
    else entry_of t r'.
Proof.
  intros Hl. unfold release, entry_release, release_result.
  fold (entry_of t r). destruct (entry_of t r) as [e|] eqn:Ee; simpl.
  - destruct (grant_compatible_waiters _) as [e2 sent]. simpl.
    destruct (holders_of e2), (waiters e2); simpl;
      first [by apply entry_of_delete | by apply entry_of_insert].
  - case_decide; subst; done.
Qed.

Lemma try_acquire_length t r x m :
  length (shards (try_acquire t r x m).2) = length (shards t).
Proof.
  unfold try_acquire. destruct (entry_acquire _ _ _). apply length_set_shard.
Qed.

Lemma release_length t r x : length (shards (release t r x).1) = length (shards t).
Proof.
  unfold release. destruct (shard_of t r !! r) as [e|]; [|done].
  destruct (grant_compatible_waiters _) as [e2 sent].
  destruct (holders_of e2), (waiters e2); apply length_set_shard.
Qed.

(** ** Invariant of the table *)

Lemma table_new_inv : table_inv table_new.
Proof.
  split; [apply length_replicate|]. intros r e. by rewrite entry_of_new.
Qed.

Lemma try_acquire_inv t r x m : table_inv t -> table_inv (try_acquire t r x m).2.
Proof.
  intros [Hl He]. split; [by rewrite try_acquire_length|].
  intros r' e. rewrite try_acquire_entry by done. case_decide; [|apply He].
  intros [= <-]. apply entry_acquire_inv. destruct (entry_of t r) eqn:E; simpl; eauto.
Qed.

Lemma release_inv t r x : table_inv t -> table_inv (release t r x).1.
Proof.
  intros [Hl He]. split; [by rewrite release_length|].
  intros r' e. rewrite release_entry by done. case_decide; [|apply He].
  destruct (entry_of t r) as [e0|] eqn:E; simpl; [|done].
  destruct (entry_release_inv e0 x (He _ _ E)) as [Hi|[Hh Hw]]; unfold release_result.
  - destruct (holders_of (entry_release e0 x).1), (waiters (entry_release e0 x).1);
      intros [= <-]; done.
  - by rewrite Hh, Hw.
Qed.

Lemma release_all_inv rs : forall t x, table_inv t -> table_inv (release_all t x rs).1.
Proof.
  induction rs as [|r rs IH]; intros t x Ht; [done|]. simpl.
  pose proof (release_inv t r x Ht). destruct (release t r x) as [t1 s1].
  specialize (IH t1 x). destruct (release_all t1 x rs) as [t2 s2]. by apply IH.
Qed.

#[export] Hint Resolve table_new_inv try_acquire_inv release_inv release_all_inv : rg.

Lemma singleton_of_pairwise (l : list (Z * LockMode)) x :
  NoDup (fst <$> l) -> (x, Exclusive) ∈ l ->
  (forall x1 m1 x2 m2, (x1, m1) ∈ l -> (x2, m2) ∈ l -> x1 ≠ x2 ->
    compatible_with m1 m2 = true) -> l = [(x, Exclusive)].
Proof.
  intros Hn Hx Hp. assert (forall y m, (y, m) ∈ l -> y = x) as Hall.
  { intros y m Hy. destruct (Z.eq_dec y x) as [|Hd]; [done|].
    specialize (Hp _ _ _ _ Hy Hx Hd). by destruct m. }
  destruct l as [|[a ma] [|[b mb] l]].
  - by apply not_elem_of_nil in Hx.
  - apply list_elem_of_singleton in Hx. congruence.
  - exfalso. rewrite (Hall a ma), (Hall b mb) in Hn by set_solver.
    simpl in Hn. apply NoDup_cons in Hn as [Hn _]. set_solver.
Qed.

Inductive LockOp :=
| OpAcquire (r x : Z) (m : LockMode)
| OpReleaseAll (x : Z) (rs : list Z).

Definition lock_op (t : LockTable) (o : LockOp) : LockTable :=
  match o with
  | OpAcquire r x m => (try_acquire t r x m).2
  | OpReleaseAll x rs => (release_all t x rs).1
  end.

Lemma lock_ops_inv ops : forall t, table_inv t -> table_inv (foldl lock_op t ops).
Proof.
  induction ops as [|[] ops IH]; intros t Ht; simpl; auto with rg.
Qed.

(** C24: from the empty table, after any sequence of acquisitions and
    releases by any transactions on any resources, the holders reported for a
    resource are pairwise distinct, their modes are pairwise compatible, a
    recorded [Exclusive] holder is the only one, and the transaction at the
    front of the wait queue is one the current holders really block. *)
Theorem lock_table_invariant (ops : list LockOp) (r : Z) :
  let t := foldl lock_op table_new ops in
  NoDup (fst <$> holders t r) /\
  (forall x1 m1 x2 m2, (x1, m1) ∈ holders t r -> (x2, m2) ∈ holders t r -> x1 ≠ x2 ->
     compatible_with m1 m2 = true) /\
  (forall x, (x, Exclusive) ∈ holders t r -> holders t r = [(x, Exclusive)]) /\
  (forall e, entry_of t r = Some e -> front_blocked e /\ holders_of e ≠ []).
Proof.
  intros t. pose proof (lock_ops_inv ops _ table_new_inv) as [_ Hi]. fold t in Hi.
  unfold holders. fold (entry_of t r). specialize (Hi r).
  destruct (entry_of t r) as [e|] eqn:Ee.
  2:{ split_and!; [constructor|intros ???? H|intros ? H|done]; by apply not_elem_of_nil in H. }
  destruct (Hi e eq_refl) as [Hn _ Hc Hf Hne].
  assert (fst <$> ((fun h => (h_txid h, h_mode h)) <$> holders_of e) = h_txid <$> holders_of e)
    as Efst by (rewrite <- list_fmap_compose; done).
  assert (forall x1 m1 x2 m2, (x1, m1) ∈ ((fun h => (h_txid h, h_mode h)) <$> holders_of e) ->
    (x2, m2) ∈ ((fun h => (h_txid h, h_mode h)) <$> holders_of e) -> x1 ≠ x2 ->
    compatible_with m1 m2 = true) as Hpair.
  { intros x1 m1 x2 m2 (h1 & [= -> ->] & H1)%list_elem_of_fmap
      (h2 & [= -> ->] & H2)%list_elem_of_fmap. by apply Hc. }
  split_and!; [by rewrite Efst|done| |intros e' [= <-]; done].
  intros x Hx. rewrite <- Efst in Hn. revert Hn Hx Hpair.
  generalize ((fun h => (h_txid h, h_mode h)) <$> holders_of e). intros l.
  apply singleton_of_pairwise.
Qed.

(** ** What one operation does *)

Lemma foldl_add_holder g : forall hs,
  (forall h, h ∈ hs -> h ∈ foldl (fun acc w => add_holder acc (fst w) (snd w)) hs g) /\
  (forall w, w ∈ g ->
     fst w ∈ (h_txid <$> foldl (fun acc w => add_holder acc (fst w) (snd w)) hs g)).
Proof.
  induction g as [|[y m] g IH]; intros hs; simpl.
  { split; [done|]. intros w Hw. by apply not_elem_of_nil in Hw. }
  destruct (IH (add_holder hs y m)) as [Hk Ha]. split.
  - intros h Hh. apply Hk. by apply elem_of_add_holder.
  - intros w [->|Hw]%elem_of_cons; [|by apply Ha]. simpl.
    destruct (add_holder_cases hs y m) as [[Hy E]|[Hy E]].
    + apply list_elem_of_fmap in Hy as (h & -> & Hh). apply list_elem_of_fmap_2, Hk.
      by apply elem_of_add_holder.
    + change y with (h_txid (mkHolder y m)). apply list_elem_of_fmap_2, Hk. rewrite E.
      set_solver.
Qed.

Lemma incompatible_witness hs x m :
  compatible_with_holders hs x m = false ->
  exists h, h ∈ hs /\ h_txid h ≠ x /\ compatible_with m (h_mode h) = false.
Proof.
  induction hs as [|h hs IH]; simpl; [done|]. intros H. apply andb_false_iff in H as [H|H].
  - rg_bool. exists h. split; [by left|done].
  - destruct (IH H) as (h' & ? & ?). exists h'. split; [by right|done].
Qed.

(** Releasing a held or unheld lock leaves every other resource alone,
    drops exactly the releasing transaction from the holders, notifies a prefix
    of the wait queue in FIFO order, records every notified transaction as a
    holder, and stops only at a waiter the new holders block; in particular a
    resource whose last holder leaves is either handed to the front waiter or
    forgotten. *)
Theorem release_grants_fifo_prefix (t : LockTable) (r x : Z) (e : LockEntry) :
  table_inv t -> entry_of t r = Some e ->
  exists granted rest hs',
    waiters e = granted ++ rest /\
    (release t r x).2 = fst <$> granted /\
    entry_of (release t r x).1 r =
      match hs', rest with [], [] => None | _, _ => Some (mkEntry hs' rest) end /\
    hs' = foldl (fun acc w => add_holder acc (fst w) (snd w))
                (remove_holder (holders_of e) x) granted /\
    (forall h, h ∈ holders_of e -> h_txid h ≠ x -> h ∈ hs') /\
    (forall w, w ∈ granted -> fst w ∈ (h_txid <$> hs')) /\
    match rest with [] => True | (y, m) :: _ => compatible_with_holders hs' y m = false end /\
    (waiters e ≠ [] -> remove_holder (holders_of e) x = [] -> granted ≠ []) /\
    (forall r', r' ≠ r -> entry_of (release t r x).1 r' = entry_of t r').
Proof.
  intros [Hl Hi] He. pose proof (release_entry t r x r Hl) as Her.
  rewrite decide_True, He in Her by done. simpl in Her.
  pose proof (release_sent t r x e He) as Hs.
  unfold entry_release, grant_compatible_waiters in Her, Hs. simpl in Her, Hs.
  destruct (grant_loop _ _) as [[hs ws] sent] eqn:Eg. simpl in Her, Hs.
  destruct (grant_loop_spec _ _ _ _ _ Eg) as (g & Ews & -> & Ehs & Hfb & _ & _).
  destruct (foldl_add_holder g (remove_holder (holders_of e) x)) as [Hkeep Hadd].
  exists g, ws, hs. split_and!; [done|done|done|done| | |done| |].
  - intros h Hh Hx. rewrite Ehs. apply Hkeep, elem_of_remove_holder; [|done].
    apply (Hi _ _ He).
  - intros w Hw. rewrite Ehs. by apply Hadd.
  - intros Hne Hrm ->. simpl in Ews, Ehs. rewrite Hrm in Ehs. subst hs ws.
    unfold front_blocked in Hfb. simpl in Hfb. destruct (waiters e) as [|[y m] l]; done.
  - intros r' Hr. rewrite release_entry, decide_False by done. done.
Qed.

Definition queued_table : LockTable :=
  foldl lock_op table_new
    [OpAcquire 7 1 Exclusive; OpAcquire 7 2 Shared; OpAcquire 7 3 Shared; OpAcquire 7 4 Exclusive].

Lemma release_grants_fifo_prefix_witness :
  (exists granted rest,
    [(2, Shared); (3, Shared); (4, Exclusive)] = granted ++ rest /\
    (release queued_table 7 1).2 = fst <$> granted) /\
  (release queued_table 7 1).2 = [2; 3].
Proof.
  split; [|vm_compute; reflexivity].
  destruct (release_grants_fifo_prefix queued_table 7 1 (mkEntry [mkHolder 1 Exclusive]
    [(2, Shared); (3, Shared); (4, Exclusive)]))
    as (g & rest & hs & Hw & Hs & _).
  - apply lock_ops_inv, table_new_inv.
  - vm_compute. reflexivity.
  - exists g, rest. split; [exact Hw|exact Hs].
Defined.

(** [try_acquire] on every branch.  It is granted without change when the
    transaction already holds the mode or a stronger one; granted and recorded
    when the other holders are compatible; otherwise denied, queued at the back
    with a fresh receiver unless the transaction already waits there.  Other
    resources keep their entries, also those of the same shard. *)
Theorem try_acquire_spec (t : LockTable) (r x : Z) (m : LockMode) :
  length (shards t) = N_SHARDS ->
  let e := default entry_new (entry_of t r) in
  let '(res, t') := try_acquire t r x m in
  (forall r', r' ≠ r -> entry_of t' r' = entry_of t r') /\
  exists e', entry_of t' r = Some e' /\
    ((res = (Granted, false) /\ e' = e /\
        exists h, h ∈ holders_of e /\ h_txid h = x /\ mode_at_least_as_strong (h_mode h) m = true) \/
     (res = (Granted, false) /\ waiters e' = waiters e /\
        (forall h, h ∈ holders_of e -> h_txid h ≠ x -> compatible_with m (h_mode h) = true) /\
        (x ∉ (h_txid <$> holders_of e) -> holders_of e' = holders_of e ++ [mkHolder x m])) \/
     (res.1 = Denied /\ holders_of e' = holders_of e /\
        (exists h, h ∈ holders_of e /\ h_txid h ≠ x /\ compatible_with m (h_mode h) = false) /\
        (if bool_decide (x ∈ (fst <$> waiters e))
         then res.2 = false /\ waiters e' = waiters e
         else res.2 = true /\ waiters e' = waiters e ++ [(x, m)]))).
Proof.
  intros Hl e. pose proof (try_acquire_entry t r x m) as Hte.
  pose proof (try_acquire_res t r x m) as Hres. fold e in Hres.
  destruct (try_acquire t r x m) as [res t']. simpl in Hres. cbn [snd] in Hte. split.
  { intros r' Hr. by rewrite Hte, decide_False by done. }
  exists (entry_acquire e x m).2. split; [by rewrite Hte, decide_True by done|].
  subst res. unfold entry_acquire.
  destruct (already_holds e x m) eqn:Ea; [left; by apply already_holds_spec in Ea|right].
  destruct (compatible_with_holders (holders_of e) x m) eqn:Ec; [left|right].
  - split_and!; [done|done|by apply compatible_with_holders_spec|]. simpl.
    intros Hx. by destruct (add_holder_cases (holders_of e) x m) as [[? _]|[_ ->]].
  - pose proof (incompatible_witness _ _ _ Ec).
    case_bool_decide as Hw; rewrite <- is_waiting_spec in Hw;
      [rewrite Hw|apply not_true_is_false in Hw; rewrite Hw]; done.
Qed.

Lemma try_acquire_spec_witness :
  length (shards queued_table) = N_SHARDS /\
  entry_of (try_acquire queued_table 8 4 Shared).2 7 = entry_of queued_table 7.
Proof.
  assert (length (shards queued_table) = N_SHARDS) as H by (vm_compute; reflexivity).
  split; [exact H|]. pose proof (try_acquire_spec queued_table 8 4 Shared H) as Hs.
  cbv zeta in Hs. destruct (try_acquire queued_table 8 4 Shared) as [res t'].
  apply Hs. lia.
Defined.

(** ** Mutual exclusion

    The grants a client acts on are the [Granted] answers of [try_acquire] and
    the notifications sent by [release].  [Grants] lists those still
    outstanding: resource, transaction and the mode it asked for. *)

Definition Grants := list (Z * Z * LockMode).

Definition notified (t : LockTable) (r x : Z) : Grants :=
  (fun w => (r, fst w, snd w)) <$>
    take (length (release t r x).2) (default [] (waiters <$> entry_of t r)).

Definition drop_grants (r x : Z) (g : Grants) : Grants :=
  filter (fun a => ~ (a.1.1 = r /\ a.1.2 = x)) g.

(** A request that neither strengthens a lock the transaction holds nor asks
    for less than a request of it that is already queued: the retries of an
    acquisition loop, which repeat the queued mode, are of this kind. *)
Definition no_upgrade (t : LockTable) (r x : Z) (m : LockMode) : Prop :=
  let e := default entry_new (entry_of t r) in
  already_holds e x m = true \/
  (x ∉ (h_txid <$> holders_of e) /\
   forall m', (x, m') ∈ waiters e -> mode_at_least_as_strong m m' = true).

(** A transaction that both holds and waits holds at least what it waits for. *)
Definition waits_covered (e : LockEntry) : Prop :=
  forall w h, w ∈ waiters e -> h ∈ holders_of e -> h_txid h = fst w ->
    mode_at_least_as_strong (h_mode h) (snd w) = true.

Inductive lstep : LockTable * Grants -> LockTable * Grants -> Prop :=
| lstep_acquire t g r x m rx t' res :
    no_upgrade t r x m -> try_acquire t r x m = ((res, rx), t') ->
    lstep (t, g) (t', if bool_decide (res = Granted) then g ++ [(r, x, m)] else g)
| lstep_release t g r x t' sent :
    release t r x = (t', sent) ->
    lstep (t, g) (t', drop_grants r x g ++ notified t r x).

Record linv (s : LockTable * Grants) : Prop := {
  li_table : table_inv s.1;
  li_covered : forall r e, entry_of s.1 r = Some e -> waits_covered e;
  li_backed : forall r x m, (r, x, m) ∈ s.2 -> exists e h,
    entry_of s.1 r = Some e /\ h ∈ holders_of e /\ h_txid h = x /\
    mode_at_least_as_strong (h_mode h) m = true
}.

Lemma mode_at_least_refl m : mode_at_least_as_strong m m = true.
Proof. by destruct m. Qed.

(** Compatibility of held modes passes to the weaker modes they cover. *)
Lemma compatible_with_weaken a a' b b' :
  mode_at_least_as_strong a a' = true -> mode_at_least_as_strong b b' = true ->
  compatible_with a b = true -> compatible_with a' b' = true.
Proof. destruct a, a', b, b'; simpl; try done; case_bool_decide; done. Qed.

Lemma linv_init : linv (table_new, []).
Proof.
  split; simpl; auto with rg.
  - intros r e. by rewrite entry_of_new.
  - intros r x m H. by apply not_elem_of_nil in H.
Qed.

(** The acquiring entry: waiters stay covered, old holders stay, and a grant is
    backed by a holder strong enough. *)
Lemma entry_acquire_backed e x m :
  already_holds e x m = true \/
  (x ∉ (h_txid <$> holders_of e) /\ forall m', (x, m') ∈ waiters e -> mode_at_least_as_strong m m' = true) ->
  waits_covered e ->
  let '((res, _), e') := entry_acquire e x m in
  waits_covered e' /\ (forall h, h ∈ holders_of e -> h ∈ holders_of e') /\
  (res = Granted -> exists h, h ∈ holders_of e' /\ h_txid h = x /\
     mode_at_least_as_strong (h_mode h) m = true).
Proof.
  intros Hu Hd. unfold entry_acquire. destruct (already_holds e x m) eqn:Ea.
  { apply already_holds_spec in Ea. done. }
  destruct Hu as [|[Hh Hw]]; [done|].
  destruct (compatible_with_holders (holders_of e) x m) eqn:Ec; simpl.
  - destruct (add_holder_cases (holders_of e) x m) as [[? _]|[_ ->]]; [done|]. split_and!.
    + intros [y m'] h Hww [Hin| ->%list_elem_of_singleton]%elem_of_app; simpl; [by apply (Hd (y, m'))|].
      intros <-. by apply Hw.
    + set_solver.
    + intros _. exists (mkHolder x m). split; [set_solver|]. split; [done|].
      apply mode_at_least_refl.
  - destruct (existsb _ _); simpl; (split_and!; [|done|done]); [done|].
    intros w h [Hww| ->%list_elem_of_singleton]%elem_of_app; simpl; [by apply Hd|].
    intros Hin E. destruct Hh. rewrite <- E. by apply list_elem_of_fmap_2.
Qed.

(** Granting a prefix of the queue: holders stay, new ones come from it, and
    each of its members ends up holding at least what it waited for. *)
Lemma foldl_add_covered g : forall hs,
  NoDup (fst <$> g) ->
  (forall w h, w ∈ g -> h ∈ hs -> h_txid h = fst w -> mode_at_least_as_strong (h_mode h) (snd w) = true) ->
  let hs' := foldl (fun acc w => add_holder acc (fst w) (snd w)) hs g in
  (forall h, h ∈ hs -> h ∈ hs') /\
  (forall h, h ∈ hs' -> h ∈ hs \/ exists w, w ∈ g /\ h = mkHolder (fst w) (snd w)) /\
  (forall w, w ∈ g -> exists h, h ∈ hs' /\ h_txid h = fst w /\
     mode_at_least_as_strong (h_mode h) (snd w) = true).
Proof.
  induction g as [|[y m] g IH]; intros hs Hn Hc; simpl.
  { split_and!; [done|by left|]. intros w H. by apply not_elem_of_nil in H. }
  apply NoDup_cons in Hn as [Hy Hn]. simpl in Hy.
  destruct (IH (add_holder hs y m) Hn) as (H1 & H2 & H3).
  { intros w h Hw Hh E. destruct (add_holder_cases hs y m) as [[_ Ea]|[_ Ea]]; rewrite Ea in Hh.
    - apply Hc; [by right|done|done].
    - apply elem_of_app in Hh as [Hh| ->%list_elem_of_singleton]; [apply Hc; [by right|done|done]|].
      simpl in E. destruct Hy. rewrite E. by apply list_elem_of_fmap_2. }
  assert (exists h, h ∈ add_holder hs y m /\ h_txid h = y /\ mode_at_least_as_strong (h_mode h) m = true)
    as (h0 & Hh0 & E0 & Hm0).
  { destruct (add_holder_cases hs y m) as [[Hin ->]|[_ ->]].
    - apply list_elem_of_fmap in Hin as (h & -> & Hh). exists h. split; [done|]. split; [done|].
      apply (Hc (h_txid h, m)); [by left|done|done].
    - exists (mkHolder y m). split; [set_solver|]. split; [done|apply mode_at_least_refl]. }
  split_and!.
  - intros h Hh. by apply H1, elem_of_add_holder.
  - intros h [Hh|(w & Hw & ->)]%H2; [|right; exists w; split; [by right|done]].
    destruct (add_holder_cases hs y m) as [[_ Ea]|[_ Ea]]; rewrite Ea in Hh; [by left|].
    apply elem_of_app in Hh as [Hh| ->%list_elem_of_singleton]; [by left|].
    right. exists (y, m). split; [by left|done].
  - intros w [->|Hw]%elem_of_cons; [|by apply H3]. exists h0. split; [by apply H1|done].
Qed.

(** The releasing entry: remaining waiters stay covered, the other holders
    stay, and every notified waiter holds at least the mode it asked for. *)
Lemma entry_release_backed e x :
  entry_inv e -> waits_covered e ->
  let '(e', sent) := entry_release e x in
  waits_covered e' /\ (forall h, h ∈ holders_of e -> h_txid h ≠ x -> h ∈ holders_of e') /\
  (forall w, w ∈ take (length sent) (waiters e) -> exists h, h ∈ holders_of e' /\ h_txid h = fst w /\
     mode_at_least_as_strong (h_mode h) (snd w) = true).
Proof.
  intros Hi Hd. pose proof (ei_nodup _ Hi) as Hnh. pose proof (ei_wnodup _ Hi) as Hnw.
  unfold entry_release, grant_compatible_waiters. simpl.
  destruct (grant_loop _ _) as [[hs ws] sent] eqn:Eg. simpl.
  destruct (grant_loop_spec _ _ _ _ _ Eg) as (g & Ews & -> & Ehs & _).
  unfold waits_covered in Hd. rewrite Ews in *. rewrite fmap_app in Hnw. apply NoDup_app in Hnw as (Hng & Hgr & _).
  assert (forall w h, w ∈ g ++ ws -> h ∈ remove_holder (holders_of e) x -> h_txid h = fst w ->
    mode_at_least_as_strong (h_mode h) (snd w) = true) as Hd'.
  { intros w h Hw Hh. apply elem_of_remove_holder in Hh as [Hh _]; [|done]. by apply Hd. }
  destruct (foldl_add_covered g (remove_holder (holders_of e) x) Hng) as (H1 & H2 & H3).
  { intros w h Hw. apply Hd'. set_solver. }
  rewrite <- Ehs in H1, H2, H3. split_and!.
  - intros w h Hw Hh E. simpl in Hw, Hh. apply H2 in Hh as [Hh|(w' & Hw' & ->)].
    + apply Hd'; [set_solver|done|done].
    + simpl in E. destruct (Hgr (fst w)); [rewrite <- E|]; by apply list_elem_of_fmap_2.
  - intros h Hh Hx. apply H1. by apply elem_of_remove_holder.
  - intros w. rewrite length_fmap, take_app_length. apply H3.
Qed.

Lemma linv_acquire t g r x m rx t' res :
  no_upgrade t r x m -> try_acquire t r x m = ((res, rx), t') -> linv (t, g) ->
  linv (t', if bool_decide (res = Granted) then g ++ [(r, x, m)] else g).
Proof.
  intros Hu Hr [Ht Hd Hb]. simpl in *.
  pose proof (try_acquire_inv t r x m Ht) as Ht'. rewrite Hr in Ht'. cbn [snd] in Ht'.
  pose proof (try_acquire_entry t r x m) as He. rewrite Hr in He. cbn [snd] in He.
  destruct Ht as [Hl Hi]. unfold no_upgrade in Hu.
  set (e := default entry_new (entry_of t r)) in *.
  assert (waits_covered e) as Hde.
  { unfold e. destruct (entry_of t r) eqn:E; simpl; [by eapply Hd|].
    intros w h H. by apply not_elem_of_nil in H. }
  pose proof (try_acquire_res t r x m) as Hres. rewrite Hr in Hres. fold e in Hres.
  pose proof (entry_acquire_backed e x m Hu Hde) as Hbk.
  destruct (entry_acquire e x m) as [[res' rx'] e']. simpl in Hres, He. simplify_eq.
  destruct Hbk as (Hd' & Hkeep & Hg). split; simpl; [done| |].
  - intros r' e1. rewrite He by done. case_decide; [|by apply Hd].
    intros [= <-]. apply Hd'.
  - assert (forall r' x' m', (r', x', m') ∈ g -> exists e1 h, entry_of t' r' = Some e1 /\
      h ∈ holders_of e1 /\ h_txid h = x' /\ mode_at_least_as_strong (h_mode h) m' = true) as Hold.
    { intros r' x' m' Hin. destruct (Hb _ _ _ Hin) as (e1 & h & E1 & Hh & ? & ?).
      rewrite He by done. case_decide; [subst r'|by eauto].
      exists e', h. unfold e in Hkeep. rewrite E1 in Hkeep. auto. }
    intros r' x' m'. case_bool_decide; [|apply Hold].
    intros [?|[= -> -> ->]%list_elem_of_singleton]%elem_of_app; [by apply Hold|].
    rewrite He, decide_True by done. destruct Hg as (h & ?); [done|]. eauto.
Qed.

Lemma linv_release t g r x t' sent :
  release t r x = (t', sent) -> linv (t, g) ->
  linv (t', drop_grants r x g ++ notified t r x).
Proof.
  intros Hr [Ht Hd Hb]. simpl in *.
  pose proof (release_inv t r x Ht) as Ht'. rewrite Hr in Ht'. cbn [fst] in Ht'.
  pose proof (release_entry t r x) as He. rewrite Hr in He. cbn [fst] in He.
  destruct Ht as [Hl Hi]. unfold notified. rewrite Hr. cbn [snd].
  destruct (entry_of t r) as [e|] eqn:Ee; simpl.
  2:{ rewrite take_nil, app_nil_r.
    assert (forall r', entry_of t' r' = entry_of t r') as Hsame.
    { intros r'. rewrite He by done. case_decide; [by subst|done]. }
    split; simpl; [done| |].
    - intros r' e1. rewrite Hsame. apply Hd.
    - intros r' x' m' Hin'. apply list_elem_of_filter in Hin' as [_ Hin'].
      rewrite Hsame. by apply Hb. }
  pose proof (entry_release_backed e x (Hi _ _ Ee) (Hd r e Ee)) as Hbk.
  pose proof (release_sent t r x e Ee) as Hsent. rewrite Hr in Hsent.
  simpl in He. destruct (entry_release e x) as [e' s']. simpl in Hsent. subst s'.
  destruct Hbk as (Hd' & Hkeep & Hg). cbn [fst] in He.
  assert (forall h, h ∈ holders_of e' -> entry_of t' r = Some e') as Hin.
  { intros h Hh. rewrite He, decide_True by done. unfold release_result.
    destruct (holders_of e'); [by apply not_elem_of_nil in Hh|done]. }
  split; simpl; [done| |].
  - intros r' e1. rewrite He by done. case_decide; [|by apply Hd].
    unfold release_result. destruct (holders_of e') eqn:E1, (waiters e') eqn:E2; intros [= <-]; apply Hd'.
  - intros r' x' m' [Hin'|Hin']%elem_of_app.
    + apply list_elem_of_filter in Hin' as [Hne Hin']. simpl in Hne.
      destruct (Hb _ _ _ Hin') as (e1 & h & E1 & Hh & Hx & Hm).
      destruct (decide (r = r')) as [->|Hr'].
      * assert (x' ≠ x) as Hxx by naive_solver. simplify_eq.
        pose proof (Hkeep _ Hh Hxx). exists e', h. split; [by eapply Hin|done].
      * exists e1, h. rewrite He, decide_False by done. done.
    + apply list_elem_of_fmap in Hin' as (w & [= -> -> ->] & Hw). destruct (Hg _ Hw) as (h & Hh & ? & ?).
      exists e', h. split; [by eapply Hin|done].
Qed.

Lemma linv_rtc s s' : rtc lstep s s' -> linv s -> linv s'.
Proof.
  induction 1 as [|s1 s2 s3 Hst _ IH]; [done|]. intros Hi. apply IH.
  destruct Hst; [by eapply linv_acquire|by eapply linv_release].
Qed.

(** C22: mutual exclusion.  In every history in which no transaction asks for
    more than it holds on a resource it holds, nor for less than it is queued
    for (the retries of an acquisition loop, which repeat the queued request,
    are allowed), two grants outstanding on one resource for different
    transactions have compatible modes, whether they were answered at once or
    through the wait queue.  Both exclusions are needed. *)
Theorem lock_mutual_exclusion (t : LockTable) (g : Grants) (r x1 x2 : Z) (m1 m2 : LockMode) :
  rtc lstep (table_new, []) (t, g) ->
  (r, x1, m1) ∈ g -> (r, x2, m2) ∈ g -> x1 ≠ x2 -> compatible_with m1 m2 = true.
Proof.
  intros Hr H1 H2 Hne. destruct (linv_rtc _ _ Hr linv_init) as [[_ Hi] _ Hb].
  destruct (Hb _ _ _ H1) as (e & h1 & E1 & Hh1 & <- & Hm1).
  destruct (Hb _ _ _ H2) as (e2 & h2 & E2 & Hh2 & <- & Hm2). simpl in *. simplify_eq.
  apply (compatible_with_weaken (h_mode h1) _ (h_mode h2) _ Hm1 Hm2).
  by eapply ei_compat; [by eapply Hi|..].
Qed.

Definition shared_table : LockTable :=
  (try_acquire (try_acquire table_new 7 1 Shared).2 7 2 IntentionShared).2.

Lemma lock_mutual_exclusion_witness :
  rtc lstep (table_new, []) (shared_table, [(7, 1, Shared); (7, 2, IntentionShared)]) /\
  compatible_with Shared IntentionShared = true.
Proof.
  assert (rtc lstep (table_new, []) (shared_table, [(7, 1, Shared); (7, 2, IntentionShared)])) as H.
  { eapply rtc_l.
    { apply (lstep_acquire _ _ 7 1 Shared false (try_acquire table_new 7 1 Shared).2 Granted).
      - right. vm_compute. split; [intros H|intros m' H]; inversion H.
      - vm_compute. reflexivity. }
    eapply rtc_l; [|apply rtc_refl].
    apply (lstep_acquire _ [(7, 1, Shared)] 7 2 IntentionShared false shared_table Granted).
    - right. vm_compute. split; [intros H; inversion H as [|? ? ? H']; inversion H'|intros m' H; inversion H].
    - vm_compute. reflexivity. }
  split; [exact H|].
  apply (lock_mutual_exclusion _ _ 7 1 2 Shared IntentionShared H).
  - apply list_elem_of_here.
  - apply list_elem_of_further, list_elem_of_here.
  - lia.
Defined.

(** The condition on queued requests is needed.  Transaction 1 reads, 2 is
    queued for [Exclusive] and asks for [Shared] meanwhile, which is granted;
    when 1 releases, 2 is told that it has its [Exclusive] lock, but it stays
    recorded as [Shared] and 3 is let in beside it. *)
Theorem queued_request_breaks_exclusion :
  let s1 := try_acquire table_new 7 1 Shared in
  let s2 := try_acquire s1.2 7 2 Exclusive in
  let s3 := try_acquire s2.2 7 2 Shared in
  let s4 := release s3.2 7 1 in
  let s5 := try_acquire s4.1 7 3 Shared in
  s2.1 = (Denied, true) /\ s3.1 = (Granted, false) /\
  notified s3.2 7 1 = [(7, 2, Exclusive)] /\ s4.2 = [2] /\ s5.1 = (Granted, false) /\
  compatible_with Exclusive Shared = false.
Proof. vm_compute. split_and!; reflexivity. Qed.

(** The no-upgrade hypothesis of mutual exclusion is needed.  A transaction
    that holds [Shared] and asks for [Exclusive] is answered [Granted], but its recorded mode stays
    [Shared], so the next reader is let in beside the writer. *)
Theorem upgrade_is_not_recorded (r x y : Z) :
  x ≠ y ->
  let s1 := try_acquire table_new r x Shared in
  let s2 := try_acquire s1.2 r x Exclusive in
  let s3 := try_acquire s2.2 r y Shared in
  s2.1 = (Granted, false) /\ s3.1 = (Granted, false) /\
  holders s3.2 r = [(x, Shared); (y, Shared)] /\
  compatible_with Exclusive Shared = false.
Proof.
  intros Hne s1 s2 s3.
  assert (length (shards s1.2) = N_SHARDS) as L1
    by (unfold s1; rewrite try_acquire_length; apply length_replicate).
  assert (length (shards s2.2) = N_SHARDS) as L2 by (unfold s2; by rewrite try_acquire_length).
  assert (entry_of s1.2 r = Some (mkEntry [mkHolder x Shared] [])) as E1.
  { unfold s1. rewrite try_acquire_entry, decide_True, entry_of_new; [done..|].
    apply length_replicate. }
  assert (entry_acquire (mkEntry [mkHolder x Shared] []) x Exclusive
          = ((Granted, false), mkEntry [mkHolder x Shared] [])) as A2.
  { unfold entry_acquire, already_holds, add_holder. simpl. by rewrite Z.eqb_refl. }
  assert (entry_of s2.2 r = Some (mkEntry [mkHolder x Shared] [])) as E2.
  { unfold s2. rewrite try_acquire_entry, decide_True, E1 by done. simpl. by rewrite A2. }
  assert (entry_acquire (mkEntry [mkHolder x Shared] []) y Shared
          = ((Granted, false), mkEntry [mkHolder x Shared; mkHolder y Shared] [])) as A3.
  { unfold entry_acquire, already_holds, add_holder. simpl.
    by rewrite (proj2 (Z.eqb_neq x y) Hne). }
  split_and!; [| | |done].
  - unfold s2. by rewrite try_acquire_res, E1; simpl; rewrite A2.
  - unfold s3. by rewrite try_acquire_res, E2; simpl; rewrite A3.
  - unfold holders. fold (entry_of s3.2 r). unfold s3.
    rewrite try_acquire_entry, decide_True, E2 by done. simpl. by rewrite A3.
Qed.

Lemma upgrade_is_not_recorded_witness :
  holders (try_acquire (try_acquire (try_acquire table_new 7 1 Shared).2 7 1 Exclusive).2
    7 2 Shared).2 7 = [(1, Shared); (2, Shared)].
Proof.
  destruct (upgrade_is_not_recorded 7 1 2) as (_ & _ & H & _); [lia|]. exact H.
Defined.
