(* ===== verification/Checksum.v ===== *)
(** * Checksum functions the code links against

    [crc32c::crc32c] and [twox_hash::XxHash64] (seed 0) come from crates outside
    the repository.  Every component that uses them is parametric in this
    interface: two functions on byte strings, of which only the width of the
    result is assumed (their Rust return types). *)

From stdpp Require Import prelude list.
From Stdlib Require Import ZArith Lia.
From S2P Require Import Prelude Bytes.

Class Checksums := {
  crc32c : list Z -> Z;
  xxhash64 : list Z -> Z;
  crc32c_range : forall b, is_u32 (crc32c b);
  xxhash64_range : forall b, is_u64 (xxhash64 b)
}.

#[export] Hint Resolve crc32c_range xxhash64_range : rg.

(** A concrete instance (additive checksums), at which theorems are
    instantiated on concrete inputs. *)
Definition sum_bytes (b : list Z) : Z := foldr Z.add 0 b.

Definition additive_checksums : Checksums := {|
  crc32c b := wrap 32 (sum_bytes b);
  xxhash64 b := wrap 64 (sum_bytes b + 7);
  crc32c_range b := wrap_range 32 _ ltac:(lia);
  xxhash64_range b := wrap_range 64 _ ltac:(lia)
|}.
