(* ===== verification/Io.v ===== *)
(** * Files and I/O errors ([src/io/mod.rs], [src/io/posix.rs])

    The [FileSystem] and [FileHandle] traits over a world of files.  A file has
    the contents the process observes ([cached]) and the contents that survive
    a power loss ([durable]); syncing copies the first to the second.  Creating,
    removing and renaming change a directory at once for the process and on disk
    only after a sync of that directory: until then a power loss may bring back
    the entry that was there before.  Every
    fallible call takes the next outcome of a script, so that a theorem over
    all scripts covers every placement of I/O errors; a failing write may have
    transferred any prefix of its buffer, as the [pwrite] loop of
    [PosixFileHandle::writev_at] does. *)

From stdpp Require Import prelude list gmap.
From Stdlib Require Import ZArith Lia.
From S2P Require Import Prelude Bytes.

Inductive IoError := EIO | UnexpectedEof | InvalidData | NotFound | Unsupported | InvalidInput | OutOfMemory
| WouldBlock | NotConnected | OtherError.

Inductive Outcome := Done | Failed (transferred : nat).

Record File := mkFile { cached : list Z; durable : list Z }.

(** A path is a directory tag and a number: segment [n] of the live WAL
    directory, of the archive, or another file. *)
Definition Path : Type := Z * Z.

(** [unsynced_entries]: the directory entries replaced since their directory was last
    synced, each with what it held before. *)
Record World := mkWorldAt {
  files : gmap Path File;
  script : list Outcome;
  unsynced_entries : list (Path * option File)
}.

(** A world whose directories are all synced. *)
Notation mkWorld fs sc := (mkWorldAt fs sc []).

Definition IO (A : Type) : Type := World -> result A IoError * World.

(** The next outcome; an exhausted script means no more faults. *)
Definition next_outcome (w : World) : Outcome * World :=
  match script w with
  | [] => (Done, w)
  | o :: s => (o, mkWorldAt (files w) s (unsynced_entries w))
  end.

Definition set_file (w : World) (p : Path) (f : File) : World :=
  mkWorldAt (<[p := f]> (files w)) (script w) (unsynced_entries w).

(** The entry of [p] is about to be replaced. *)
Definition dir_change (w : World) (p : Path) : World :=
  mkWorldAt (files w) (script w) ((p, files w !! p) :: unsynced_entries w).

(** Writing past the end fills the gap with zeros. *)
Definition write_ext (l : list Z) (off : nat) (bs : list Z) : list Z :=
  take off (l ++ replicate (off - length l) 0) ++ bs ++ drop (off + length bs) l.

Definition exists_path (w : World) (p : Path) : bool := bool_decide (is_Some (files w !! p)).

Definition fs_open (p : Path) (create : bool) : IO unit := fun w =>
  match next_outcome w with
  | (Failed _, w1) => (Err EIO, w1)
  | (Done, w1) =>
      match files w1 !! p with
      | Some _ => (Ok tt, w1)
      | None => if create then (Ok tt, set_file (dir_change w1 p) p (mkFile [] [])) else (Err NotFound, w1)
      end
  end.

Definition fs_remove (p : Path) : IO unit := fun w =>
  match next_outcome w with
  | (Failed _, w1) => (Err EIO, w1)
  | (Done, w1) =>
      match files w1 !! p with
      | Some _ => (Ok tt, mkWorldAt (delete p (files w1)) (script w1) (unsynced_entries (dir_change w1 p)))
      | None => (Err NotFound, w1)
      end
  end.

Definition fs_rename (from to : Path) : IO unit := fun w =>
  match next_outcome w with
  | (Failed _, w1) => (Err EIO, w1)
  | (Done, w1) =>
      match files w1 !! from with
      | Some f => (Ok tt, mkWorldAt (<[to := f]> (delete from (files w1))) (script w1)
                                     (unsynced_entries (dir_change (dir_change w1 from) to)))
      | None => (Err NotFound, w1)
      end
  end.

(** [sync_dir]: the entries of the directory are on disk. *)
Definition fs_sync_dir (dir : Z) : IO unit := fun w =>
  match next_outcome w with
  | (Failed _, w1) => (Err EIO, w1)
  | (Done, w1) => (Ok tt, mkWorldAt (files w1) (script w1) (filter (fun e => e.1.1 <> dir) (unsynced_entries w1)))
  end.

(** [create_dir_all] and the calls on the [wal-current] link, whose only effect
    in the model is that they can fail. *)
Definition fs_dir_op : IO unit := fun w =>
  match next_outcome w with
  | (Failed _, w1) => (Err EIO, w1)
  | (Done, w1) => (Ok tt, w1)
  end.

Definition with_file {A} (p : Path) (k : File -> IO A) : IO A := fun w =>
  match files w !! p with
  | Some f => k f w
  | None => (Err NotFound, w)
  end.

Definition h_len (p : Path) : IO nat := with_file p (fun f w =>
  match next_outcome w with
  | (Failed _, w1) => (Err EIO, w1)
  | (Done, w1) => (Ok (length (cached f)), w1)
  end).

Definition h_read_at (p : Path) (n off : nat) : IO (list Z) := with_file p (fun f w =>
  match next_outcome w with
  | (Failed _, w1) => (Err EIO, w1)
  | (Done, w1) =>
      if (off + n <=? length (cached f))%nat then (Ok (slice (cached f) off (off + n)), w1)
      else (Err UnexpectedEof, w1)
  end).

Definition h_write_at (p : Path) (bs : list Z) (off : nat) : IO unit := with_file p (fun f w =>
  match next_outcome w with
  | (Failed k, w1) =>
      let k := min k (length bs) in
      (Err EIO, if (k =? 0)%nat then w1
                else set_file w1 p (mkFile (write_ext (cached f) off (take k bs)) (durable f)))
  | (Done, w1) => (Ok tt, set_file w1 p (mkFile (write_ext (cached f) off bs) (durable f)))
  end).

Definition h_sync (p : Path) : IO unit := with_file p (fun f w =>
  match next_outcome w with
  | (Failed _, w1) => (Err EIO, w1)
  | (Done, w1) => (Ok tt, set_file w1 p (mkFile (cached f) (cached f)))
  end).

Definition h_set_len (p : Path) (n : nat) : IO unit := with_file p (fun f w =>
  match next_outcome w with
  | (Failed _, w1) => (Err EIO, w1)
  | (Done, w1) =>
      (Ok tt, set_file w1 p (mkFile (take n (cached f ++ replicate (n - length (cached f)) 0))
                                    (durable f)))
  end).

(** What a power loss may leave: at every path the durable contents of the
    entry in force, or of one whose replacement was not synced. *)
Definition power_loss (w w' : World) : Prop :=
  script w' = [] /\ unsynced_entries w' = [] /\
  forall p, exists o, (o = files w !! p \/ (p, o) ∈ unsynced_entries w) /\
    files w' !! p = (fun f => mkFile (durable f) (durable f)) <$> o.

(** ** Sequencing

    Methods of a struct thread the struct and the world; an error keeps the
    changes made before it, as [?] does on [&mut self]. *)

Definition Act (S A : Type) : Type := S * World -> result A IoError * (S * World).

Definition ret {S A} (a : A) : Act S A := fun s => (Ok a, s).
Definition fail {S A} (e : IoError) : Act S A := fun s => (Err e, s).
Definition bind {S A B} (m : Act S A) (k : A -> Act S B) : Act S B := fun s =>
  match m s with
  | (Ok a, s1) => k a s1
  | (Err e, s1) => (Err e, s1)
  end.
Definition self {S} : Act S S := fun s => (Ok s.1, s).
Definition put {S} (x : S) : Act S unit := fun s => (Ok tt, (x, s.2)).
Definition lift {S A} (m : IO A) : Act S A := fun s =>
  let '(r, w1) := m s.2 in (r, (s.1, w1)).
(** [let _ = call()]: the error is dropped. *)
Definition ignore {S A} (m : Act S A) : Act S unit := fun s => (Ok tt, (m s).2).
Definition world {S} : Act S World := fun s => (Ok s.2, s).
Definition modify {S} (g : S -> S) : Act S unit := fun s => (Ok tt, (g s.1, s.2)).
(** A call whose [Result] is inspected instead of propagated. *)
Definition attempt {S A} (m : Act S A) : Act S (result A IoError) := fun s =>
  let '(r, s1) := m s in (Ok r, s1).

Declare Scope act_scope.
Delimit Scope act_scope with act.
Notation "'do' x '<-' m ';' k" := (bind m (fun x => k))
  (at level 200, x binder, m at level 100, k at level 200) : act_scope.
Notation "m ';;;' k" := (bind m (fun _ => k)) (at level 200, right associativity) : act_scope.

(** ** Facts *)

Lemma next_outcome_quiet w : script w = [] -> next_outcome w = (Done, w).
Proof. intros H. unfold next_outcome. by rewrite H. Qed.

Lemma write_ext_end l bs : write_ext l (length l) bs = l ++ bs.
Proof.
  unfold write_ext. rewrite Nat.sub_diag, app_nil_r, firstn_all.
  rewrite drop_ge by lia. by rewrite app_nil_r.
Qed.

Lemma write_ext_inside l off bs :
  (off + length bs <= length l)%nat -> write_ext l off bs = write_at l off bs.
Proof.
  intros. unfold write_ext, write_at. replace (off - length l)%nat with 0%nat by lia.
  simpl. by rewrite app_nil_r.
Qed.
