(* ===== verification/WalRecord.v ===== *)
(** * Write-ahead log records ([src/wal/record.rs])

    The record codec at byte level.  The checksum functions are those of
    the [Checksums] interface.  The clock read in [WalRecord::new] is an argument. *)

From stdpp Require Import prelude list.
From Stdlib Require Import ZArith Lia.
From S2P Require Import Prelude Bytes Checksum.

Definition WAL_MAGIC_START : Z := 0x57414C21.
Definition WAL_MAGIC_END : Z := 0x214C4157.
Definition WAL_VERSION : Z := 1.
Definition WAL_RECORD_MIN_SIZE : nat := 4 + 1 + 1 + 8 + 8 + 8 + 8 + 4 + 4 + 8 + 4.

Inductive RecordType :=
| RtBegin | RtCommit | RtAbort
| PageInsert | PageUpdate | PageFree | BitmapUpdate
| CheckpointBegin | CheckpointEnd
| NodeInsert | NodeDelete | EdgeInsert | EdgeDelete | PropertyInsert
| NodeUpdate | EdgeUpdate | PropertyUpdate
| RdfTripleInsert | RdfTripleDelete
| Clr | RtSegmentDescriptor
| CompactionBegin | CompactionEnd
| IndexPageInsert | IndexPageUpdate | IndexPageFree.

#[global] Instance record_type_eq_dec : EqDecision RecordType.
Proof. solve_decision. Defined.

(** [record_type as u8]. *)
Definition rt_code (t : RecordType) : Z :=
  match t with
  | RtBegin => 0x01 | RtCommit => 0x02 | RtAbort => 0x03
  | PageInsert => 0x10 | PageUpdate => 0x11 | PageFree => 0x12 | BitmapUpdate => 0x13
  | CheckpointBegin => 0x20 | CheckpointEnd => 0x21
  | NodeInsert => 0x30 | NodeDelete => 0x31 | EdgeInsert => 0x32 | EdgeDelete => 0x33
  | PropertyInsert => 0x34 | NodeUpdate => 0x35 | EdgeUpdate => 0x36 | PropertyUpdate => 0x37
  | RdfTripleInsert => 0x38 | RdfTripleDelete => 0x39
  | Clr => 0x40 | RtSegmentDescriptor => 0x50
  | CompactionBegin => 0x60 | CompactionEnd => 0x61
  | IndexPageInsert => 0x70 | IndexPageUpdate => 0x71 | IndexPageFree => 0x72
  end.

(** The byte match of [decode]. *)
Definition rt_of_code (b : Z) : option RecordType :=
  match b with
  | 0x01 => Some RtBegin | 0x02 => Some RtCommit | 0x03 => Some RtAbort
  | 0x10 => Some PageInsert | 0x11 => Some PageUpdate | 0x12 => Some PageFree
  | 0x13 => Some BitmapUpdate
  | 0x20 => Some CheckpointBegin | 0x21 => Some CheckpointEnd
  | 0x30 => Some NodeInsert | 0x31 => Some NodeDelete | 0x32 => Some EdgeInsert
  | 0x33 => Some EdgeDelete | 0x34 => Some PropertyInsert | 0x35 => Some NodeUpdate
  | 0x36 => Some EdgeUpdate | 0x37 => Some PropertyUpdate | 0x38 => Some RdfTripleInsert
  | 0x39 => Some RdfTripleDelete | 0x40 => Some Clr | 0x50 => Some RtSegmentDescriptor
  | 0x60 => Some CompactionBegin | 0x61 => Some CompactionEnd
  | 0x70 => Some IndexPageInsert | 0x71 => Some IndexPageUpdate | 0x72 => Some IndexPageFree
  | _ => None
  end.

Record WalRecord := mkRec {
  record_type : RecordType;
  txid : Z;
  lsn : Z;
  prev_lsn : Z;
  timestamp : Z;
  payload : list Z;
  header_crc : Z;
  payload_hash : Z
}.

Definition on_disk_size (r : WalRecord) : nat := WAL_RECORD_MIN_SIZE + length (payload r).

Definition read_u8 (buf : list Z) (offset : nat) : option Z := buf !! offset.

Definition read_arr (n : nat) (buf : list Z) (offset : nat) : option (list Z) :=
  if (length buf <? offset + n)%nat then None else Some (slice buf offset (offset + n)).

(** Encode, with the stored checksums as they are. *)
Definition encode (r : WalRecord) : list Z :=
  to_be 4 WAL_MAGIC_START ++ [WAL_VERSION] ++ [rt_code (record_type r)] ++
  to_be 8 (txid r) ++ to_be 8 (lsn r) ++ to_be 8 (prev_lsn r) ++ to_be 8 (timestamp r) ++
  to_be 4 (wrap 32 (Z.of_nat (length (payload r)))) ++ to_be 4 (header_crc r) ++
  payload r ++ to_be 8 (payload_hash r) ++ to_be 4 WAL_MAGIC_END.

Section Checksums.
Context `{CS : Checksums}.

(** The bytes the header checksum covers: the header with a zero CRC field. *)
Definition compute_header_crc (r : WalRecord) : Z :=
  crc32c (to_be 4 WAL_MAGIC_START ++ [WAL_VERSION] ++ [rt_code (record_type r)] ++
    to_be 8 (txid r) ++ to_be 8 (lsn r) ++ to_be 8 (prev_lsn r) ++ to_be 8 (timestamp r) ++
    to_be 4 (wrap 32 (Z.of_nat (length (payload r)))) ++ to_be 4 0).

Definition compute_payload_hash (r : WalRecord) : Z := xxhash64 (payload r).

Definition with_checksums (r : WalRecord) : WalRecord :=
  mkRec (record_type r) (txid r) (lsn r) (prev_lsn r) (timestamp r) (payload r)
        (compute_header_crc r) (compute_payload_hash r).

Definition record_new (t : RecordType) (txid lsn prev_lsn : Z) (payload : list Z)
    (now_millis : Z) : WalRecord :=
  with_checksums (mkRec t txid lsn prev_lsn (wrap 64 now_millis) payload 0 0).

Definition set_lsn (r : WalRecord) (l : Z) : WalRecord :=
  with_checksums (mkRec (record_type r) (txid r) l (prev_lsn r) (timestamp r) (payload r)
                        (header_crc r) (payload_hash r)).

Definition decode (buf : list Z) (offset : nat) : option (WalRecord * nat) :=
  if (length buf <? offset + WAL_RECORD_MIN_SIZE)%nat then None else
  magic_start ← from_be <$> read_arr 4 buf offset;
  if negb (magic_start =? WAL_MAGIC_START) then None else
  version ← read_u8 buf (offset + 4);
  if negb (version =? WAL_VERSION) then None else
  code ← read_u8 buf (offset + 5);
  rt ← rt_of_code code;
  tx ← from_be <$> read_arr 8 buf (offset + 6);
  l ← from_be <$> read_arr 8 buf (offset + 14);
  pl ← from_be <$> read_arr 8 buf (offset + 22);
  ts ← from_be <$> read_arr 8 buf (offset + 30);
  plen ← (fun b => Z.to_nat (from_be b)) <$> read_arr 4 buf (offset + 38);
  hc ← from_be <$> read_arr 4 buf (offset + 42);
  let cursor := (offset + 46)%nat in
  if (length buf <? cursor + plen + 8 + 4)%nat then None else
  let pay := slice buf cursor (cursor + plen) in
  ph ← from_be <$> read_arr 8 buf (cursor + plen);
  magic_end ← from_be <$> read_arr 4 buf (cursor + plen + 8);
  if negb (magic_end =? WAL_MAGIC_END) then None else
  let rec := mkRec rt tx l pl ts pay hc ph in
  if negb (compute_header_crc rec =? hc) then None else
  if negb (compute_payload_hash rec =? ph) then None else
  Some (rec, (cursor + plen + 8 + 4 - offset)%nat).

(** The scan of [AriesRecovery::load_single_segment] and, with the position
    kept, of [WalWriter::last_valid_offset]: decode from the start, stop at
    the first record that does not decode.  A decoded record has positive
    size, so the length of the buffer is enough fuel. *)
Fixpoint scan (fuel : nat) (raw : list Z) (offset : nat) : list WalRecord * nat :=
  match fuel with
  | O => ([], offset)
  | S f =>
      if (offset <? length raw)%nat then
        match decode raw offset with
        | Some (rec, size) =>
            let '(recs, fin) := scan f raw (offset + size) in (rec :: recs, fin)
        | None => ([], offset)
        end
      else ([], offset)
  end.

Definition load_single_segment (raw : list Z) : list WalRecord := (scan (length raw) raw 0).1.
Definition last_valid_offset (raw : list Z) : nat := (scan (length raw) raw 0).2.

(** ** Well-formed records *)

Definition fields_ok (r : WalRecord) : Prop :=
  is_u64 (txid r) /\ is_u64 (lsn r) /\ is_u64 (prev_lsn r) /\ is_u64 (timestamp r) /\
  is_u32 (header_crc r) /\ is_u64 (payload_hash r) /\
  bytes_ok (payload r) /\ is_u32 (Z.of_nat (length (payload r))).

Definition checksums_ok (r : WalRecord) : Prop :=
  compute_header_crc r = header_crc r /\ compute_payload_hash r = payload_hash r.

Definition record_ok (r : WalRecord) : Prop := fields_ok r /\ checksums_ok r.

Lemma rt_of_code_code t : rt_of_code (rt_code t) = Some t.
Proof. by destruct t. Qed.

Lemma rt_code_of_code b t : rt_of_code b = Some t -> rt_code t = b.
Proof.
  unfold rt_of_code. intros H.
  repeat (case_match; try discriminate); injection H as <-; reflexivity.
Qed.

Lemma rt_code_u8 t : is_u8 (rt_code t).
Proof. destruct t; split; vm_compute; congruence. Qed.

Lemma length_encode r : length (encode r) = on_disk_size r.
Proof.
  unfold encode, on_disk_size, WAL_RECORD_MIN_SIZE.
  rewrite !length_app, !length_to_be. simpl. lia.
Qed.

(** Updating the LSN of any record, and creating one, give valid records. *)
Lemma set_lsn_ok r l : fields_ok r -> is_u64 l -> record_ok (set_lsn r l).
Proof.
  intros (?&?&?&?&?&?&?&?) Hl. split; [|done].
  unfold fields_ok, set_lsn, with_checksums. simpl. split_and!; try done;
    first [apply crc32c_range | apply xxhash64_range].
Qed.

Lemma record_new_ok t x l pl p now :
  is_u64 x -> is_u64 l -> is_u64 pl -> bytes_ok p -> is_u32 (Z.of_nat (length p)) ->
  record_ok (record_new t x l pl p now).
Proof.
  intros. split; [|done]. unfold fields_ok, record_new, with_checksums. simpl.
  split_and!; auto;
    first [apply crc32c_range | apply xxhash64_range | apply wrap_range; lia].
Qed.
(** ** Decoding what was encoded *)

Lemma read_arr_app n pre x o :
  read_arr n (pre ++ x) (length pre + o) = read_arr n x o.
Proof.
  unfold read_arr. rewrite length_app, slice_app_r by lia.
  replace (length pre + o - length pre)%nat with o by lia.
  replace (length pre + o + n - length pre)%nat with (o + n)%nat by lia.
  destruct (Nat.ltb_spec (length pre + length x) (length pre + o + n)),
    (Nat.ltb_spec (length x) (o + n)); lia || done.
Qed.

Lemma ltb_add_l a b c : (a + b <? a + c)%nat = (b <? c)%nat.
Proof. destruct (Nat.ltb_spec (a + b) (a + c)), (Nat.ltb_spec b c); lia || done. Qed.

(** Peel equal guards and reads off both sides of two decoders. *)
Ltac same_reads :=
  repeat match goal with
  | |- (if ?c then _ else _) = (if ?c then _ else _) => destruct c; [done|]
  | |- (?o ≫= _) = (?o ≫= _) => apply option_bind_ext_fun; intros ?
  end.

(** Decoding at an offset is decoding the rest of the buffer. *)
Lemma decode_shift pre x : decode (pre ++ x) (length pre) = decode x 0.
Proof.
  unfold decode, read_u8. cbv zeta. rewrite length_app, ltb_add_l, Nat.add_0_l.
  replace (read_arr 4 (pre ++ x) (length pre)) with (read_arr 4 x 0)
    by (rewrite <- (read_arr_app 4 pre x 0); f_equal; lia).
  rewrite !(lookup_app_r pre) by lia.
  replace (length pre + 4 - length pre)%nat with 4%nat by lia.
  replace (length pre + 5 - length pre)%nat with 5%nat by lia.
  rewrite !read_arr_app, !Nat.add_0_l. same_reads.
  rewrite <- !Nat.add_assoc, ltb_add_l, !read_arr_app, slice_app_r by lia. same_reads.
  replace (length pre + 46 - length pre)%nat with 46%nat by lia.
  match goal with |- context [slice x 46 (length pre + (46 + ?n) - _)] =>
    replace (length pre + (46 + n) - length pre)%nat with (46 + n)%nat by lia end.
  same_reads. do 2 f_equal. lia.
Qed.

Lemma read_arr_slice n buf o :
  (o + n <= length buf)%nat -> read_arr n buf o = Some (slice buf o (o + n)).
Proof. intros. unfold read_arr. destruct (Nat.ltb_spec (length buf) (o + n)); [lia|done]. Qed.

Ltac field_ends :=
  change (0 + 4)%nat with 4%nat; change (6 + 8)%nat with 14%nat;
  change (14 + 8)%nat with 22%nat; change (22 + 8)%nat with 30%nat;
  change (30 + 8)%nat with 38%nat; change (38 + 4)%nat with 42%nat;
  change (42 + 4)%nat with 46%nat.

(** What a buffer holds when a record decodes at its front. *)
Record layout (buf : list Z) (r : WalRecord) : Prop := {
  lay_len : (on_disk_size r <= length buf)%nat;
  lay_start : from_be (slice buf 0 4) = WAL_MAGIC_START;
  lay_version : buf !! 4%nat = Some WAL_VERSION;
  lay_type : exists c, buf !! 5%nat = Some c /\ rt_of_code c = Some (record_type r);
  lay_txid : from_be (slice buf 6 14) = txid r;
  lay_lsn : from_be (slice buf 14 22) = lsn r;
  lay_prev : from_be (slice buf 22 30) = prev_lsn r;
  lay_ts : from_be (slice buf 30 38) = timestamp r;
  lay_plen : Z.to_nat (from_be (slice buf 38 42)) = length (payload r);
  lay_crc : from_be (slice buf 42 46) = header_crc r;
  lay_payload : slice buf 46 (46 + length (payload r)) = payload r;
  lay_hash : from_be (slice buf (46 + length (payload r)) (54 + length (payload r))) = payload_hash r;
  lay_end : from_be (slice buf (54 + length (payload r)) (58 + length (payload r))) = WAL_MAGIC_END;
  lay_sums : checksums_ok r
}.

Lemma decode_of_layout buf r : layout buf r -> decode buf 0 = Some (r, on_disk_size r).
Proof.
  intros [Hlen Hs Hv (c & Hc & Ht) H1 H2 H3 H4 Hpl H5 Hp H6 He [S1 S2]].
  assert (on_disk_size r = 58 + length (payload r))%nat as Hsz by reflexivity.
  unfold decode, read_u8. cbv zeta. rewrite !Nat.add_0_l.
  destruct (Nat.ltb_spec (length buf) WAL_RECORD_MIN_SIZE) as [Hx|_];
    [change WAL_RECORD_MIN_SIZE with 58%nat in Hx; lia|].
  rewrite !read_arr_slice by lia. field_ends.
  cbn [fmap option_fmap option_map mbind option_bind].
  rewrite Hs, Z.eqb_refl, Hv. cbn [negb mbind option_bind].
  rewrite Z.eqb_refl, Hc. cbn [negb mbind option_bind]. rewrite Ht.
  cbn [mbind option_bind]. rewrite Hpl.
  destruct (Nat.ltb_spec (length buf) (46 + length (payload r) + 8 + 4)) as [Hx|_]; [lia|].
  rewrite !read_arr_slice by lia. cbn [fmap option_fmap option_map mbind option_bind].
  replace (46 + length (payload r) + 8)%nat with (54 + length (payload r))%nat by lia.
  replace (54 + length (payload r) + 4)%nat with (58 + length (payload r))%nat by lia.
  rewrite He, Z.eqb_refl. cbn [negb]. rewrite Hp, H1, H2, H3, H4, H5, H6.
  replace (mkRec _ _ _ _ _ _ _ _) with r by (by destruct r).
  rewrite S1, S2, !Z.eqb_refl. cbn [negb]. do 2 f_equal; lia.
Qed.

Lemma layout_of_decode buf r n :
  decode buf 0 = Some (r, n) -> n = on_disk_size r /\ layout buf r.
Proof.
  unfold decode, read_u8. cbv zeta. rewrite !Nat.add_0_l.
  destruct (Nat.ltb_spec (length buf) WAL_RECORD_MIN_SIZE) as [Hx|Hl]; [done|].
  change WAL_RECORD_MIN_SIZE with 58%nat in Hl.
  rewrite !read_arr_slice by lia. field_ends.
  cbn [fmap option_fmap option_map mbind option_bind].
  destruct (Z.eqb_spec (from_be (slice buf 0 4)) WAL_MAGIC_START) as [Hs|]; [|done]. cbn [negb].
  destruct (buf !! 4%nat) as [v|] eqn:Hv; [|done]. cbn [mbind option_bind].
  destruct (Z.eqb_spec v WAL_VERSION) as [->|]; [|done]. cbn [negb].
  destruct (buf !! 5%nat) as [c|] eqn:Hc; [|done]. cbn [mbind option_bind].
  destruct (rt_of_code c) as [t|] eqn:Ht; [|done]. cbn [mbind option_bind].
  set (k := Z.to_nat (from_be (slice buf 38 42))).
  destruct (Nat.ltb_spec (length buf) (46 + k + 8 + 4)) as [Hx|Hk]; [done|].
  rewrite !read_arr_slice by lia. cbn [fmap option_fmap option_map mbind option_bind].
  replace (46 + k + 8)%nat with (54 + k)%nat by lia.
  replace (54 + k + 4)%nat with (58 + k)%nat by lia.
  destruct (Z.eqb_spec (from_be (slice buf (54 + k) (58 + k))) WAL_MAGIC_END) as [He|]; [|done].
  cbn [negb]. set (r0 := mkRec _ _ _ _ _ _ _ _).
  match goal with |- context [compute_header_crc r0 =? ?h] =>
    destruct (Z.eqb_spec (compute_header_crc r0) h) as [S1|]; [|done] end. cbn [negb].
  match goal with |- context [compute_payload_hash r0 =? ?h] =>
    destruct (Z.eqb_spec (compute_payload_hash r0) h) as [S2|]; [|done] end. cbn [negb].
  intros [= <- <-].
  assert (length (payload r0) = k) as Hpk by (simpl; rewrite length_slice; lia).
  split; [unfold on_disk_size; rewrite Hpk; unfold WAL_RECORD_MIN_SIZE; lia|].
  split; rewrite ?Hpk; try done; [|by eauto].
  unfold on_disk_size. rewrite Hpk. unfold WAL_RECORD_MIN_SIZE. lia.
Qed.

(** Header, payload, trailer. *)
Definition header_bytes (r : WalRecord) : list Z :=
  to_be 4 WAL_MAGIC_START ++ [WAL_VERSION] ++ [rt_code (record_type r)] ++
  to_be 8 (txid r) ++ to_be 8 (lsn r) ++ to_be 8 (prev_lsn r) ++ to_be 8 (timestamp r) ++
  to_be 4 (wrap 32 (Z.of_nat (length (payload r)))) ++ to_be 4 (header_crc r).

Lemma encode_parts r :
  encode r = header_bytes r ++ payload r ++ to_be 8 (payload_hash r) ++ to_be 4 WAL_MAGIC_END.
Proof. unfold encode, header_bytes. by rewrite <- !app_assoc. Qed.

Lemma length_header_bytes r : length (header_bytes r) = 46%nat.
Proof. unfold header_bytes. rewrite !length_app, !length_to_be. done. Qed.

Lemma layout_encode r suf : record_ok r -> layout (encode r ++ suf) r.
Proof.
  intros [(H1 & H2 & H3 & H4 & H5 & H6 & Hb & Hlen) Hsum].
  pose proof (length_header_bytes r) as Hh.
  assert (forall a b, (b <= 46)%nat -> slice (encode r ++ suf) a b = slice (header_bytes r) a b) as Hhd.
  { intros a b Hle. rewrite encode_parts, <- !app_assoc. apply slice_app_l. lia. }
  assert (forall a b, (46 + length (payload r) <= a)%nat -> slice (encode r ++ suf) a b =
    slice (to_be 8 (payload_hash r) ++ to_be 4 WAL_MAGIC_END ++ suf)
      (a - (46 + length (payload r))) (b - (46 + length (payload r)))) as Htl.
  { intros a b Hle. rewrite encode_parts, <- !app_assoc.
    rewrite !slice_app_r by lia. f_equal; lia. }
  split; rewrite ?Hhd, ?Htl by lia; try (unfold header_bytes; field_slice).
  - rewrite length_app, length_encode. lia.
  - by apply from_to_be_id.
  - unfold encode. rewrite <- !app_assoc. by rewrite lookup_app_r, length_to_be by (rewrite length_to_be; lia).
  - exists (rt_code (record_type r)). split; [|apply rt_of_code_code].
    unfold encode. rewrite <- !app_assoc. by rewrite lookup_app_r, length_to_be by (rewrite length_to_be; lia).
  - by apply from_to_be_id.
  - by apply from_to_be_id.
  - by apply from_to_be_id.
  - by apply from_to_be_id.
  - rewrite from_to_be_id by (apply wrap_range; lia). rewrite wrap_id by done. lia.
  - rewrite <- (app_nil_r (to_be 4 (header_crc r))), slice_here by (by rewrite length_to_be).
    by apply from_to_be_id.
  - rewrite encode_parts, <- !app_assoc, slice_app_r by lia. rewrite slice_here by lia. done.
  - rewrite Nat.sub_diag, slice_here by (rewrite length_to_be; lia). by apply from_to_be_id.
  - replace (54 + _ - (46 + _))%nat with 8%nat by lia.
    replace (58 + _ - (46 + _))%nat with 12%nat by lia. field_slice. by apply from_to_be_id.
  - done.
Qed.

Lemma decode_encode_at pre r suf :
  record_ok r -> decode (pre ++ encode r ++ suf) (length pre) = Some (r, on_disk_size r).
Proof. intros. rewrite decode_shift. by apply decode_of_layout, layout_encode. Qed.

(** A record cut short anywhere does not decode. *)
Lemma decode_torn pre r k :
  record_ok r -> (k < on_disk_size r)%nat ->
  decode (pre ++ take k (encode r)) (length pre) = None.
Proof.
  intros Hr Hk. rewrite decode_shift. destruct (decode _ 0) as [[r' n]|] eqn:E; [|done].
  apply layout_of_decode in E as [-> HL]. pose proof (lay_len _ _ HL) as Hl.
  pose proof (lay_plen _ _ HL) as Hp. pose proof (layout_encode r [] Hr) as HE.
  pose proof (lay_plen _ _ HE) as Hpe. rewrite app_nil_r in Hpe.
  rewrite length_take, length_encode in Hl.
  unfold on_disk_size, WAL_RECORD_MIN_SIZE in *. simpl Nat.add in *.
  assert (slice (take k (encode r)) 38 42 = slice (encode r) 38 42) as Hs.
  { rewrite <- (take_drop k (encode r)) at 2. symmetry. apply slice_app_l.
    rewrite length_take, length_encode. unfold on_disk_size, WAL_RECORD_MIN_SIZE. lia. }
  rewrite Hs, Hpe in Hp. lia.
Qed.

Lemma slice_one {A} (l : list A) i x : l !! i = Some x -> slice l i (S i) = [x].
Proof.
  intros Hi. unfold slice. replace (S i - i)%nat with 1%nat by lia.
  by rewrite (drop_S _ _ _ Hi).
Qed.

(** What decodes at the front of a buffer is the encoding found there. *)
Lemma layout_canonical buf r :
  bytes_ok buf -> layout buf r -> slice buf 0 (on_disk_size r) = encode r /\ fields_ok r.
Proof.
  intros Hb [Hlen Hs Hv (c & Hc & Ht) H1 H2 H3 H4 Hpl H5 Hp H6 He Hsum].
  unfold on_disk_size in *. change WAL_RECORD_MIN_SIZE with 58%nat in *.
  set (n := length (payload r)) in *.
  assert (forall a b k, b = (a + k)%nat -> (b <= length buf)%nat ->
    uint (8 * Z.of_nat k) (from_be (slice buf a b)) /\
    to_be k (from_be (slice buf a b)) = slice buf a b) as Hfix.
  { intros a b k -> Hak. apply from_be_fixed; [auto with rg|]. rewrite length_slice; lia. }
  destruct (Hfix 0 4 4)%nat as [_ E0]; [lia..|]. destruct (Hfix 6 14 8)%nat as [R1 E1]; [lia..|].
  destruct (Hfix 14 22 8)%nat as [R2 E2]; [lia..|]. destruct (Hfix 22 30 8)%nat as [R3 E3]; [lia..|].
  destruct (Hfix 30 38 8)%nat as [R4 E4]; [lia..|]. destruct (Hfix 38 42 4)%nat as [R5 E5]; [lia..|].
  destruct (Hfix 42 46 4)%nat as [R6 E6]; [lia..|].
  destruct (Hfix (46 + n) (54 + n) 8)%nat as [R7 E7]; [lia..|].
  destruct (Hfix (54 + n) (58 + n) 4)%nat as [_ E8]; [lia..|].
  assert (from_be (slice buf 38 42) = Z.of_nat n) as Hn by (unfold uint in R5; lia).
  rewrite Hs in E0. rewrite H1 in R1, E1. rewrite H2 in R2, E2. rewrite H3 in R3, E3.
  rewrite H4 in R4, E4. rewrite H5 in R6, E6. rewrite Hn in R5, E5.
  rewrite H6 in R7, E7. rewrite He in E8. split.
  - unfold encode. fold n. rewrite (wrap_id 32) by exact R5.
    rewrite E0, E1, E2, E3, E4, E5, E6, E7, E8, <- Hp, (rt_code_of_code _ _ Ht).
    rewrite <- (slice_one _ _ _ Hv), <- (slice_one _ _ _ Hc).
    rewrite !slice_glue by lia. done.
  - unfold fields_ok. fold n. split_and!; try done. rewrite <- Hp. auto with rg.
Qed.

Lemma scan_encoded recs : forall pre tail fuel,
  Forall record_ok recs -> decode tail 0 = None ->
  (length (concat (encode <$> recs) ++ tail) <= fuel)%nat ->
  scan fuel (pre ++ concat (encode <$> recs) ++ tail) (length pre) =
    (recs, (length pre + length (concat (encode <$> recs)))%nat).
Proof.
  induction recs as [|r recs IH]; intros pre tail fuel Hok Ht Hf.
  - simpl in *. rewrite Nat.add_0_r. destruct fuel as [|f]; [done|]. simpl.
    destruct (_ <? _)%nat; [|done]. by rewrite decode_shift, Ht.
  - apply Forall_cons in Hok as [Hr Hok]. cbn [fmap list_fmap concat] in *.
    rewrite <- app_assoc in *. assert (0 < length (encode r))%nat as Hpos.
    { rewrite length_encode. unfold on_disk_size, WAL_RECORD_MIN_SIZE. lia. }
    rewrite !length_app in Hf. destruct fuel as [|f]; [lia|].
    cbn [scan]. destruct (Nat.ltb_spec (length pre) (length (pre ++ encode r ++
      concat (encode <$> recs) ++ tail))) as [_|Hx]; [|rewrite !length_app in Hx; lia].
    rewrite decode_encode_at by done. rewrite <- length_encode, <- length_app, app_assoc.
    rewrite IH; [|done|done|rewrite length_app; lia].
    f_equal. rewrite !length_app. lia.
Qed.

Lemma scan_segment recs tail :
  Forall record_ok recs -> decode tail 0 = None ->
  load_single_segment (concat (encode <$> recs) ++ tail) = recs /\
  last_valid_offset (concat (encode <$> recs) ++ tail) = length (concat (encode <$> recs)).
Proof.
  intros Hok Ht. unfold load_single_segment, last_valid_offset.
  pose proof (scan_encoded recs [] tail _ Hok Ht (le_n _)) as E. cbn [app length] in E.
  rewrite E. done.
Qed.

(** C36 (WAL record round trip).  A record written anywhere in a log decodes to
    itself and to the position just past it, whatever surrounds it; cut short
    at any byte it is refused; and every record the decoder accepts is
    byte for byte the encoding of a record with valid fields and checksums. *)
Theorem wal_record_roundtrip (pre suf buf : list Z) (r r' : WalRecord) (off n k : nat) :
  record_ok r -> bytes_ok buf -> (off <= length buf)%nat -> decode buf off = Some (r', n) ->
  (k < on_disk_size r)%nat ->
  decode (pre ++ encode r ++ suf) (length pre) = Some (r, on_disk_size r) /\
  decode (pre ++ take k (encode r)) (length pre) = None /\
  (off + n <= length buf)%nat /\ slice buf off (off + n) = encode r' /\ record_ok r'.
Proof.
  intros Hr Hb Hoff Hd Hk. split; [by apply decode_encode_at|]. split; [by apply decode_torn|].
  rewrite <- (take_drop off buf) in Hd.
  rewrite <- (length_take_le buf off Hoff) in Hd at 3. rewrite decode_shift in Hd.
  apply layout_of_decode in Hd as [-> HL]. pose proof (lay_len _ _ HL) as Hl.
  rewrite length_drop in Hl. split; [lia|].
  destruct (layout_canonical _ _ (bytes_ok_drop off _ Hb) HL) as [E F].
  split; [|split; [done|apply (lay_sums _ _ HL)]].
  rewrite <- E, <- (take_drop off buf) at 1. rewrite slice_app_r; rewrite length_take_le by done; [|lia].
  f_equal; lia.
Qed.

(** Reading a segment that holds complete records followed by
    a record cut short by a crash - or by nothing - returns exactly the
    complete records, in order, and locates the end of the last of them. *)
Theorem torn_tail_is_dropped (recs : list WalRecord) (r : WalRecord) (k : nat) :
  Forall record_ok recs -> record_ok r -> (k < on_disk_size r)%nat ->
  load_single_segment (concat (encode <$> recs) ++ take k (encode r)) = recs /\
  last_valid_offset (concat (encode <$> recs) ++ take k (encode r)) =
    length (concat (encode <$> recs)).
Proof.
  intros Hok Hr Hk. apply scan_segment; [done|].
  apply (decode_torn [] r k); done.
Qed.
End Checksums.

Section Witnesses.
#[local] Existing Instance additive_checksums.

Definition sample_record : WalRecord := record_new RtCommit 42 4096 0 [1; 2; 3] 1700000000000.

Lemma sample_record_ok : record_ok sample_record.
Proof.
  apply record_new_ok; try (vm_compute; split; congruence).
  repeat constructor; vm_compute; congruence.
Qed.

Lemma wal_record_roundtrip_witness :
  decode ([9; 9] ++ encode sample_record ++ [7]) 2 = Some (sample_record, 61%nat).
Proof.
  apply (wal_record_roundtrip [9; 9] [7] (encode sample_record) sample_record sample_record 0 61 5).
  - apply sample_record_ok.
  - vm_compute. repeat constructor; vm_compute; congruence.
  - lia.
  - vm_compute. reflexivity.
  - vm_compute. lia.
Defined.

Lemma torn_tail_is_dropped_witness :
  load_single_segment (concat (encode <$> [sample_record; sample_record]) ++
    take 60 (encode sample_record)) = [sample_record; sample_record].
Proof.
  apply (torn_tail_is_dropped [sample_record; sample_record] sample_record 60).
  - repeat constructor; apply sample_record_ok.
  - apply sample_record_ok.
  - vm_compute. lia.
Defined.
End Witnesses.
