(* ===== verification/WalWriter.v ===== *)
(** * WAL writer ([src/wal/writer.rs])

    LSN packing, the segment descriptor block, and the append-only writer:
    buffering, flushing, segment rotation, archiving and reopening, over the
    files and I/O errors of [Io]. *)

From stdpp Require Import prelude list gmap.
From Stdlib Require Import ZArith Lia.
From S2P Require Import Prelude Bytes Checksum Io WalRecord.

(** ** LSNs *)

Definition make_lsn (segment_id offset : Z) : Z := Z.lor (Z.shiftl segment_id 32) offset.
Definition lsn_segment_id (l : Z) : Z := wrap 32 (Z.shiftr l 32).
Definition lsn_offset (l : Z) : Z := wrap 32 l.

(** ** Segment descriptor *)

Record SegmentDescriptor := mkDesc {
  sd_segment_id : Z;
  sd_segment_start_lsn : Z;
  sd_previous_segment_id : Z;
  sd_record_count : Z;
  sd_integrity_hash : Z
}.

Definition SD_SIZE : nat := 4096.
Definition SD_MAGIC : Z := 0x57414453.

Definition sd_encode (d : SegmentDescriptor) : list Z :=
  to_be 4 SD_MAGIC ++ to_be 8 (sd_segment_id d) ++ to_be 8 (sd_segment_start_lsn d) ++
  to_be 8 (sd_previous_segment_id d) ++ to_be 8 (sd_record_count d) ++
  to_be 8 (sd_integrity_hash d) ++ replicate (SD_SIZE - 44) 0.

Definition sd_decode (bytes : list Z) : option SegmentDescriptor :=
  if (length bytes <? SD_SIZE)%nat then None
  else if negb (from_be (slice bytes 0 4) =? SD_MAGIC) then None
  else Some (mkDesc (from_be (slice bytes 4 12)) (from_be (slice bytes 12 20))
                    (from_be (slice bytes 20 28)) (from_be (slice bytes 28 36))
                    (from_be (slice bytes 36 44))).

(** ** The writer *)

Definition live_seg (id : Z) : Path := (0, id).
Definition archived_seg (id : Z) : Path := (1, id).

Record WalWriter := mkWal {
  current_lsn : Z;
  segment_path : Path;
  buffer : list Z;                (* the first [buffered] bytes of the aligned buffer *)
  unsynced : nat;
  segment_id : Z;
  segment_start_lsn : Z;
  segment_record_count : Z;
  total_segment_count : Z;
  segment_handle : Path;
  durable_lsn : Z;
  bytes_since_checkpoint : Z
}.

Definition SEGMENT_SIZE : Z := 64 * 1024 * 1024.
Definition BUFFER_SIZE : Z := 1024 * 1024.
Definition LIVE_SEGMENT_RETENTION : Z := 2.
Definition CHECKPOINT_INTERVAL : Z := 8 * 1024 * 1024.

Section Writer.
Context `{CS : Checksums}.
#[local] Open Scope act_scope.

Definition flush : Act WalWriter unit :=
  do s <- self;
  if (length (buffer s) =? 0)%nat then ret tt else
  do file_offset <- lift (h_len (segment_handle s));
  lift (h_write_at (segment_handle s) (buffer s) file_offset) ;;;
  lift (h_sync (segment_handle s)) ;;;
  put (mkWal (current_lsn s) (segment_path s) [] 0 (segment_id s) (segment_start_lsn s)
         (segment_record_count s) (total_segment_count s) (segment_handle s)
         (Z.max (durable_lsn s) (current_lsn s)) (bytes_since_checkpoint s)).

Definition sync : Act WalWriter unit := flush.

(** The bytes of [record] enter the buffer and the intra-segment offset (32
    bits) advances by their number. *)
Definition buffer_record (s : WalWriter) (bytes : list Z) : WalWriter :=
  mkWal (make_lsn (lsn_segment_id (current_lsn s))
                  (wrap 32 (lsn_offset (current_lsn s) + wrap 32 (Z.of_nat (length bytes)))))
        (segment_path s) (buffer s ++ bytes) (unsynced s + length bytes) (segment_id s)
        (segment_start_lsn s) (segment_record_count s + 1) (total_segment_count s)
        (segment_handle s) (durable_lsn s) (bytes_since_checkpoint s + Z.of_nat (length bytes)).

Definition append (record : WalRecord) : Act WalWriter Z :=
  do s <- self;
  let record := set_lsn record (current_lsn s) in
  let bytes := encode record in
  (if BUFFER_SIZE <? Z.of_nat (length (buffer s) + length bytes) then
     flush ;;;
     (if BUFFER_SIZE <? Z.of_nat (length bytes) then fail InvalidData else ret tt)
   else ret tt) ;;;
  do s1 <- self;
  put (buffer_record s1 bytes) ;;;
  ret (lsn record).

Definition needs_checkpoint (s : WalWriter) : bool := CHECKPOINT_INTERVAL <=? bytes_since_checkpoint s.

Definition reset_checkpoint_counter (s : WalWriter) : WalWriter :=
  mkWal (current_lsn s) (segment_path s) (buffer s) (unsynced s) (segment_id s)
    (segment_start_lsn s) (segment_record_count s) (total_segment_count s) (segment_handle s)
    (durable_lsn s) 0.

Definition needs_rotation (s : WalWriter) : bool :=
  SEGMENT_SIZE <=? Z.max 0 (lsn_offset (current_lsn s) - lsn_offset (segment_start_lsn s)).

(** The hash of the segment file, read in 256 KiB chunks.  Feeding a hasher
    chunk by chunk hashes the concatenation, so only the read errors of the
    chunks are kept: one read per chunk. *)
Definition HASH_CHUNK : nat := 256 * 1024.

Fixpoint read_chunks (fuel : nat) (p : Path) (len offset : nat) : Act WalWriter (list Z) :=
  match fuel with
  | O => ret []
  | S f =>
      if (offset <? len)%nat then
        let to_read := min (len - offset) HASH_CHUNK in
        do chunk <- lift (h_read_at p to_read offset);
        do rest <- read_chunks f p len (offset + to_read);
        ret (chunk ++ rest)
      else ret []
  end.

Definition compute_segment_hash : Act WalWriter Z :=
  do s <- self;
  do len <- lift (h_len (segment_handle s));
  if (len =? 0)%nat then ret 0 else
  do content <- read_chunks len (segment_handle s) len 0;
  ret (xxhash64 content).

Definition update_symlink : Act WalWriter unit :=
  lift fs_dir_op ;;;    (* symlink wal-current.tmp -> segment_path *)
  lift fs_dir_op ;;;    (* rename wal-current.tmp -> wal-current *)
  lift (fs_sync_dir (live_seg 0).1).

(** [for seg_id in 0..cutoff]: rename what exists, ignoring errors. *)
Fixpoint archive_loop (n : nat) (seg_id : Z) : Act WalWriter unit :=
  match n with
  | O => ret tt
  | S n' =>
      do w <- world;
      (if exists_path w (live_seg seg_id)
       then ignore (lift (fs_rename (live_seg seg_id) (archived_seg seg_id)))
       else ret tt) ;;;
      archive_loop n' (seg_id + 1)
  end.

Definition archive_old_segments (current_segment_id : Z) : Act WalWriter unit :=
  if current_segment_id <? LIVE_SEGMENT_RETENTION then ret tt else
  lift fs_dir_op ;;;    (* create_dir_all(wal-archive) *)
  let cutoff := Z.max 0 (current_segment_id - (LIVE_SEGMENT_RETENTION - 1)) in
  archive_loop (Z.to_nat cutoff) 0.

(** Appending at the physical end of the segment file, then syncing it. *)
Definition append_raw (bytes : list Z) : Act WalWriter unit :=
  do s <- self;
  do offset <- lift (h_len (segment_handle s));
  lift (h_write_at (segment_handle s) bytes offset) ;;;
  lift (h_sync (segment_handle s)).

Definition set_current_lsn (s : WalWriter) (l : Z) : WalWriter :=
  mkWal l (segment_path s) (buffer s) (unsynced s) (segment_id s) (segment_start_lsn s)
    (segment_record_count s) (total_segment_count s) (segment_handle s) (durable_lsn s)
    (bytes_since_checkpoint s).

Definition set_handle (s : WalWriter) (p : Path) : WalWriter :=
  mkWal (current_lsn s) (segment_path s) (buffer s) (unsynced s) (segment_id s)
    (segment_start_lsn s) (segment_record_count s) (total_segment_count s) p (durable_lsn s)
    (bytes_since_checkpoint s).

Definition set_path (s : WalWriter) (p : Path) : WalWriter :=
  mkWal (current_lsn s) p (buffer s) (unsynced s) (segment_id s)
    (segment_start_lsn s) (segment_record_count s) (total_segment_count s) (segment_handle s)
    (durable_lsn s) (bytes_since_checkpoint s).

(** The new segment's bookkeeping. *)
Definition enter_segment (s : WalWriter) (next : Z) : WalWriter :=
  let start := make_lsn (wrap 32 next) 0 in
  mkWal start (segment_path s) (buffer s) (unsynced s) next start 0 (total_segment_count s + 1)
    (segment_handle s) (durable_lsn s) (bytes_since_checkpoint s).

Definition rotate (now_millis : Z) : Act WalWriter unit :=
  flush ;;;
  do integrity_hash <- compute_segment_hash;
  do s <- self;
  let descriptor := mkDesc (segment_id s) (segment_start_lsn s) (Z.max 0 (segment_id s - 1))
                           (segment_record_count s) integrity_hash in
  let desc_block := sd_encode descriptor in
  append_raw desc_block ;;;
  let desc_bytes := encode (record_new RtSegmentDescriptor 0 0 0 desc_block now_millis) in
  append_raw desc_bytes ;;;
  put (set_current_lsn s (make_lsn (lsn_segment_id (current_lsn s))
         (wrap 32 (lsn_offset (current_lsn s) + wrap 32 (Z.of_nat (length desc_bytes)))))) ;;;
  do s2 <- self;
  let next_segment_id := segment_id s2 + 1 in
  let next_path := live_seg next_segment_id in
  lift (fs_open next_path true) ;;;
  lift (h_sync next_path) ;;;
  lift (fs_sync_dir next_path.1) ;;;
  put (set_path (set_handle s2 next_path) next_path) ;;;
  update_symlink ;;;
  do s3 <- self;
  let prev_segment_id := segment_id s3 in
  put (enter_segment s3 next_segment_id) ;;;
  archive_old_segments prev_segment_id.

(** The probe loop over segment numbers.  [fuel] counts iterations; it stops
    at the first gap above the highest segment found so far. *)
Fixpoint probe_segments (fuel : nat) (w : World) (id max_id : Z) : Z :=
  match fuel with
  | O => max_id
  | S f =>
      if U32_MAX <? id then max_id
      else if exists_path w (live_seg id) then probe_segments f w (id + 1) id
      else if max_id <? id then max_id
      else probe_segments f w (id + 1) max_id
  end.

Definition find_highest_segment_id (w : World) : Z :=
  probe_segments (size (files w) + 2) w 0 0.

(** [last_valid_offset] on an open handle: read the whole file, scan it. *)
Definition handle_valid_offset (p : Path) (len : nat) : Act unit nat :=
  if (len =? 0)%nat then ret 0%nat else
  do raw <- lift (h_read_at p len 0);
  ret (last_valid_offset raw).

Definition open : Act unit WalWriter :=
  lift fs_dir_op ;;;    (* create_dir_all(wal_dir) *)
  do w <- world;
  let segment_id := find_highest_segment_id w in
  let path := live_seg segment_id in
  do intra_offset <-
    (if exists_path w path then
       lift (fs_open path false) ;;;
       do len <- lift (h_len path);
       do valid_end <- handle_valid_offset path len;
       (if (valid_end <? len)%nat
        then lift (h_set_len path valid_end) ;;; lift (h_sync path)
        else ret tt) ;;;
       let off := wrap 32 (Z.of_nat valid_end) in
       ret (if segment_id =? 0 then Z.max off 1 else off)
     else
       lift (fs_open path true) ;;;
       lift (h_sync path) ;;;
       lift (fs_sync_dir path.1) ;;;
       ret (if segment_id =? 0 then 1 else 0));
  let cur := make_lsn (wrap 32 segment_id) intra_offset in
  ret (mkWal cur path [] 0 segment_id (make_lsn (wrap 32 segment_id) 0) 0 (segment_id + 1) path cur 0).

(** Deleting archived segments below the checkpoint's segment. *)
Fixpoint reclaim_loop (n : nat) (seg_id : Z) (reclaimed : nat) : Act WalWriter nat :=
  match n with
  | O => ret reclaimed
  | S n' =>
      do w <- world;
      if exists_path w (archived_seg seg_id) then
        lift (fs_remove (archived_seg seg_id)) ;;;
        reclaim_loop n' (seg_id + 1) (S reclaimed)
      else reclaim_loop n' (seg_id + 1) reclaimed
  end.

Definition reclaim_archived_segments_before (archive_dir_exists : bool) (checkpoint_lsn : Z) :
    Act WalWriter nat :=
  let ckpt_seg := lsn_segment_id checkpoint_lsn in
  if (ckpt_seg =? 0) || negb archive_dir_exists then ret 0%nat
  else reclaim_loop (Z.to_nat ckpt_seg) 0 0.

(** ** LSN arithmetic *)

Lemma make_lsn_add seg off : 0 <= seg -> is_u32 off -> make_lsn seg off = seg * 2 ^ 32 + off.
Proof.
  intros Hs Ho. unfold make_lsn. rewrite <- Z.shiftl_mul_pow2 by lia.
  symmetry. apply Z.add_nocarry_lor. apply Z.bits_inj'. intros k Hk.
  rewrite Z.bits_0, Z.land_spec. destruct (Z.lt_ge_cases k 32).
  - rewrite Z.shiftl_spec_low by lia. done.
  - rewrite (uint_bits_high 32 off) by (done || lia). apply andb_false_r.
Qed.

Lemma lsn_segment_id_make seg off :
  is_u32 seg -> is_u32 off -> lsn_segment_id (make_lsn seg off) = seg.
Proof.
  intros [Hs1 Hs2] [Ho1 Ho2]. unfold lsn_segment_id. rewrite make_lsn_add by done.
  rewrite Z.shiftr_div_pow2, Z.div_add_l, Z.div_small by lia.
  rewrite Z.add_0_r. by apply wrap_id.
Qed.

Lemma lsn_offset_make seg off :
  is_u32 seg -> is_u32 off -> lsn_offset (make_lsn seg off) = off.
Proof.
  intros [Hs1 Hs2] [Ho1 Ho2]. unfold lsn_offset, wrap. rewrite make_lsn_add by done.
  rewrite Z.add_comm, Z.mod_add, Z.mod_small by lia. done.
Qed.

Lemma make_lsn_u64 seg off : is_u32 seg -> is_u32 off -> is_u64 (make_lsn seg off).
Proof.
  intros [Hs1 Hs2] [Ho1 Ho2]. rewrite make_lsn_add by done. split; nia.
Qed.

(** ** Flushing *)

(** No write fails after transferring part of its buffer. *)
Definition clean (w : World) : Prop := Forall (fun o => o = Done \/ o = Failed 0) (script w).

Definition flushed (s : WalWriter) : WalWriter :=
  mkWal (current_lsn s) (segment_path s) [] 0 (segment_id s) (segment_start_lsn s)
    (segment_record_count s) (total_segment_count s) (segment_handle s)
    (Z.max (durable_lsn s) (current_lsn s)) (bytes_since_checkpoint s).

Lemma next_outcome_cases w o w' :
  clean w -> next_outcome w = (o, w') ->
  files w' = files w /\ clean w' /\ (o = Done \/ o = Failed 0).
Proof.
  unfold clean, next_outcome. destruct (script w) as [|x l] eqn:E; intros Hc [= <- <-].
  - rewrite E. split_and!; auto.
  - apply Forall_cons in Hc as [??]. done.
Qed.

Lemma flush_spec s w f res s' w' :
  files w !! segment_handle s = Some f -> clean w ->
  flush (s, w) = (res, (s', w')) ->
  clean w' /\
  ((res = Ok tt /\ buffer s = [] /\ s' = s /\ w' = w) \/
   (res = Ok tt /\ s' = flushed s /\ files w' = <[segment_handle s :=
      mkFile (cached f ++ buffer s) (cached f ++ buffer s)]> (files w)) \/
   (exists e, res = Err e /\ s' = s /\
     (files w' = files w \/
      files w' = <[segment_handle s := mkFile (cached f ++ buffer s) (durable f)]> (files w)))).
Proof.
  intros Hf Hc. unfold flush, bind, self, ret, put, lift. cbn [fst snd].
  destruct (Nat.eqb_spec (length (buffer s)) 0) as [E|E].
  { intros [= <- <- <-]. split; [done|]. left. apply length_zero_iff_nil in E. done. }
  unfold h_len, with_file. cbn [fst snd]. rewrite Hf.
  destruct (next_outcome w) as [o1 w1] eqn:E1.
  destruct (next_outcome_cases _ _ _ Hc E1) as (F1 & C1 & [->| ->]).
  2:{ intros [= <- <- <-]. split; [done|]. right. right. eauto. }
  unfold h_write_at, with_file. cbn [fst snd]. rewrite F1, Hf.
  destruct (next_outcome w1) as [o2 w2] eqn:E2.
  destruct (next_outcome_cases _ _ _ C1 E2) as (F2 & C2 & [->| ->]).
  2:{ rewrite Nat.min_0_l. simpl. intros [= <- <- <-]. split; [done|]. right. right.
      exists EIO. split_and!; try done. left. congruence. }
  rewrite write_ext_end. unfold h_sync, with_file, set_file. cbn [files fst snd]. rewrite lookup_insert_eq.
  match goal with |- context [next_outcome ?x] =>
    destruct (next_outcome x) as [o3 w3] eqn:E3 end.
  destruct (next_outcome_cases _ _ _ (C2 : clean (mkWorldAt _ (script w2) _)) E3) as (F3 & C3 & [->| ->]); cbn [files] in F3.
  - intros [= <- <- <-]. split; [done|]. right. left. split_and!; try done. cbn [files].
    rewrite F3, insert_insert_eq, F2, F1. done.
  - intros [= <- <- <-]. split; [done|]. right. right. exists EIO. split_and!; try done.
    right. rewrite F3, F2, F1. done.
Qed.

(** ** Histories of one segment

    [appended] are the records whose [append] answered with an LSN, as they
    were buffered; [stable] are those appended before the last flush that
    answered [Ok]: the records a caller may rely on. *)

Record Hist := mkHist { appended : list WalRecord; stable : list WalRecord }.

Inductive wal_step : WalWriter * World * Hist -> WalWriter * World * Hist -> Prop :=
| ws_append s w h r res s' w' :
    fields_ok r -> append r (s, w) = (res, (s', w')) ->
    wal_step (s, w, h)
      (s', w', match res with
               | Ok _ => mkHist (appended h ++ [set_lsn r (current_lsn s)]) (stable h)
               | Err _ => h
               end)
| ws_flush s w h res s' w' :
    flush (s, w) = (res, (s', w')) ->
    wal_step (s, w, h)
      (s', w', match res with
               | Ok _ => mkHist (appended h) (appended h)
               | Err _ => h
               end).

(** What a power loss may leave of an append-only file: everything synced and
    any part of what was written after. *)
Definition crash_image (f : File) (d : list Z) : Prop :=
  exists k, d = take k (cached f) /\ (length (durable f) <= k)%nat.

Definition encoded (recs : list WalRecord) : list Z := concat (encode <$> recs).

Lemma encoded_app a b : encoded (a ++ b) = encoded a ++ encoded b.
Proof. unfold encoded. by rewrite fmap_app, concat_app. Qed.

Record winv (s : WalWriter) (w : World) (h : Hist) (f : File)
    (fd fx br done : list WalRecord) : Prop := {
  wi_file : files w !! segment_handle s = Some f;
  wi_clean : clean w;
  wi_cached : cached f = encoded (fd ++ fx);
  wi_durable : durable f = encoded fd;
  wi_buffer : buffer s = encoded br;
  wi_ok : Forall record_ok (fd ++ fx ++ br);
  wi_lsn : is_u64 (current_lsn s);
  wi_appended : appended h = done ++ br;
  wi_done : done `sublist_of` fd ++ fx;
  wi_stable : stable h `sublist_of` fd;
  wi_origin : forall r, r ∈ fd ++ fx -> r ∈ appended h;
  wi_pending : br = [] -> fx = []
}.

Definition winv_ex (s : WalWriter) (w : World) (h : Hist) : Prop :=
  exists f fd fx br done, winv s w h f fd fx br done.

Lemma encoded_nil recs : encoded recs = [] -> recs = [].
Proof.
  destruct recs as [|r recs]; [done|]. unfold encoded. cbn [fmap list_fmap concat].
  intros H. apply app_nil in H as [H _]. apply (f_equal length) in H.
  rewrite length_encode in H. unfold on_disk_size, WAL_RECORD_MIN_SIZE in H. simpl in H. lia.
Qed.

(** A successful flush makes everything appended stable; a failed one leaves
    the buffer to be written again. *)
Lemma flush_winv s w h f fd fx br done res s' w' :
  winv s w h f fd fx br done -> flush (s, w) = (res, (s', w')) ->
  match res with
  | Ok _ => winv_ex s' w' (mkHist (appended h) (appended h)) /\
            winv_ex s' w' h /\ buffer s' = [] /\ current_lsn s' = current_lsn s
  | Err _ => winv_ex s' w' h /\ s' = s
  end.
Proof.
  intros Hi Hf. destruct Hi as [H1 H2 H3 H4 H5 H6 H7 H8 H9 H10 H11 H12].
  destruct (flush_spec _ _ _ _ _ _ H1 H2 Hf)
    as [Hc [(-> & Hb & -> & ->)|[(-> & -> & Hw)|(e & -> & -> & Hw)]]].
  - assert (br = []) as -> by (apply encoded_nil; congruence).
    rewrite (H12 eq_refl) in *. rewrite !app_nil_r in *. split_and!; [| |done|done].
    + exists f, fd, [], [], done. split; rewrite ?app_nil_r; try done. simpl. by rewrite H8.
    + exists f, fd, [], [], done. split; rewrite ?app_nil_r; try done.
  - assert (forall h', appended h' = appended h -> stable h' `sublist_of` (fd ++ fx ++ br) ->
      winv_ex (flushed s) w' h') as Hnew.
    { intros h' Ha Hs. exists (mkFile (cached f ++ buffer s) (cached f ++ buffer s)), (fd ++ fx ++ br), [], [], (done ++ br).
      assert (done ++ br `sublist_of` fd ++ fx ++ br) by (rewrite app_assoc; by apply sublist_app).
      split; rewrite ?app_nil_r; try done.
      - cbn [flushed segment_handle]. rewrite Hw. apply lookup_insert_eq.
      - cbn [cached]. rewrite H3, H5, app_assoc, (encoded_app (fd ++ fx)). done.
      - cbn [durable]. rewrite H3, H5, app_assoc, (encoded_app (fd ++ fx)). done.
      - congruence.
      - intros r. rewrite Ha, H8, app_assoc, !elem_of_app. intros [Hr|Hr]; [|tauto].
        rewrite <- elem_of_app, <- H8. apply H11. by rewrite elem_of_app. }
    split_and!; [| |done|done]; apply Hnew; try done; simpl.
    + rewrite H8. rewrite app_assoc. by apply sublist_app.
    + by apply sublist_inserts_r.
  - split; [|done]. destruct Hw as [Hw|Hw].
    + exists f, fd, fx, br, done. split; try done. by rewrite Hw.
    + exists (mkFile (cached f ++ buffer s) (durable f)), fd, (fx ++ br), br, done.
      split; try done.
      * rewrite Hw. apply lookup_insert_eq.
      * cbn [cached]. rewrite H3, H5, app_assoc, (encoded_app (fd ++ fx)). done.
      * rewrite !Forall_app in *. tauto.
      * rewrite app_assoc. by apply sublist_inserts_r.
      * intros r. rewrite app_assoc, elem_of_app. intros [Hr|Hr]; [by apply H11|].
        rewrite H8. apply elem_of_app. by right.
      * intros ->. by rewrite (H12 eq_refl).
Qed.

Lemma buffer_record_winv s w h r :
  winv_ex s w h -> fields_ok r -> forall l, is_u64 l ->
  winv_ex (buffer_record s (encode (set_lsn r l))) w
    (mkHist (appended h ++ [set_lsn r l]) (stable h)).
Proof.
  intros (f & fd & fx & br & done & [H1 H2 H3 H4 H5 H6 H7 H8 H9 H10 H11 H12]) Hr l Hl.
  exists f, fd, fx, (br ++ [set_lsn r l]), done. split; try done; simpl.
  - rewrite H5, encoded_app. unfold encoded. simpl. by rewrite app_nil_r.
  - rewrite !Forall_app in *. split_and!; try tauto.
    constructor; [by apply set_lsn_ok|constructor].
  - apply make_lsn_u64; apply wrap_range; lia.
  - by rewrite H8, app_assoc.
  - intros x Hx. apply elem_of_app. left. by apply H11.
  - by destruct br.
Qed.

Lemma append_winv s w h r res s' w' :
  winv_ex s w h -> fields_ok r -> append r (s, w) = (res, (s', w')) ->
  winv_ex s' w' (match res with
                 | Ok _ => mkHist (appended h ++ [set_lsn r (current_lsn s)]) (stable h)
                 | Err _ => h
                 end).
Proof.
  intros Hi Hr. pose proof Hi as (f & fd & fx & br & done & Hw).
  pose proof (wi_lsn _ _ _ _ _ _ _ _ Hw) as Hl. unfold append.
  unfold bind at 1. unfold self at 1. cbn [fst]. cbv zeta.
  destruct (_ <? _).
  - unfold bind at 1 2 3. destruct (flush (s, w)) as [[[]|e] [s1 w1]] eqn:Ef;
      pose proof (flush_winv _ _ _ _ _ _ _ _ _ _ _ Hw Ef) as Hfl; simpl in Hfl.
    + destruct Hfl as (_ & Hi1 & _ & _). destruct (_ <? _).
      * unfold fail. intros [= <- <- <-]. done.
      * unfold ret at 1. unfold bind, self, put, ret. cbn [fst snd].
        intros [= <- <- <-]. by apply buffer_record_winv.
    + intros [= <- <- <-]. by destruct Hfl.
  - unfold bind, self, put, ret. cbn [fst snd]. intros [= <- <- <-].
    by apply buffer_record_winv.
Qed.

(** ** Crash images *)

Lemma decode_nil : decode [] 0 = None.
Proof. done. Qed.

(** Cutting an encoded log anywhere leaves its first records readable. *)
Lemma scan_cut recs : forall k,
  Forall record_ok recs ->
  exists j, load_single_segment (take k (encoded recs)) = take j recs /\
    (length (encoded (take j recs)) <= k)%nat /\
    ((j < length recs)%nat -> (k < length (encoded (take (S j) recs)))%nat).
Proof.
  assert (forall k, Forall record_ok recs -> exists j tail,
    take k (encoded recs) = encoded (take j recs) ++ tail /\ decode tail 0 = None /\
    (j <= length recs)%nat /\ (length (encoded (take j recs)) <= k)%nat /\
    ((j < length recs)%nat -> (k < length (encoded (take (S j) recs)))%nat)) as Hcut.
  { induction recs as [|r recs IH]; intros k Hok.
    - exists 0%nat, []. unfold encoded. simpl. rewrite take_nil. split_and!; done || lia.
    - apply Forall_cons in Hok as [Hr Hok].
      assert (forall l, encoded (r :: l) = encode r ++ encoded l) as Hcons by done.
      destruct (decide (k < on_disk_size r)%nat) as [Hk|Hk].
      + exists 0%nat, (take k (encode r)). rewrite Hcons, take_app_le by (rewrite length_encode; lia).
        split_and!; [done| |lia|simpl; lia|].
        * by apply (decode_torn [] r k).
        * intros _. rewrite firstn_cons, take_0, Hcons, length_app, length_encode. lia.
      + destruct (IH (k - on_disk_size r)%nat Hok) as (j & tail & E & Hd & Hj & Hlen & Hnext).
        exists (S j), tail. rewrite Hcons, firstn_cons, Hcons, <- app_assoc, <- E.
        rewrite take_app_ge, length_encode by (rewrite length_encode; lia).
        split_and!; [done|done|simpl; lia| |].
        * rewrite length_app, length_encode. lia.
        * intros Hjl. simpl in Hjl. rewrite firstn_cons, Hcons, length_app, length_encode. lia. }
  intros k Hok. destruct (Hcut k Hok) as (j & tail & E & Hd & _ & Hlen & Hnext).
  exists j. rewrite E. split; [|done]. apply scan_segment; [|done]. by apply Forall_take.
Qed.

Lemma encoded_take_le j m recs :
  (j <= m)%nat -> (length (encoded (take j recs)) <= length (encoded (take m recs)))%nat.
Proof.
  intros Hjm. pose proof (take_take_drop recs j (m - j)) as E.
  replace (j + (m - j))%nat with m in E by lia.
  rewrite <- E, encoded_app, length_app. lia.
Qed.

(** A crash image keeps every synced record and nothing that was not written. *)
Lemma crash_load f fd fx d :
  cached f = encoded (fd ++ fx) -> durable f = encoded fd -> Forall record_ok (fd ++ fx) ->
  crash_image f d ->
  exists m, load_single_segment d = fd ++ take m fx.
Proof.
  intros Hc Hd Hok (k & -> & Hk). rewrite Hc, Hd in *.
  destruct (scan_cut (fd ++ fx) k Hok) as (j & -> & _ & Hnext).
  destruct (decide (j < length fd)%nat) as [Hj|Hj].
  - exfalso. specialize (Hnext ltac:(rewrite length_app; lia)).
    pose proof (encoded_take_le (S j) (length fd) (fd ++ fx) ltac:(lia)) as Hle.
    rewrite take_app_length in Hle. lia.
  - exists (j - length fd)%nat. apply take_app_ge. lia.
Qed.

Lemma winv_step x y :
  wal_step x y -> winv_ex x.1.1 x.1.2 x.2 -> winv_ex y.1.1 y.1.2 y.2.
Proof.
  destruct 1 as [s w h r res s1 w1 Hr Ha|s w h res s1 w1 Hf]; simpl; intros Hi.
  - by eapply append_winv.
  - destruct Hi as (f & fd & fx & br & done & Hi).
    pose proof (flush_winv _ _ _ _ _ _ _ _ _ _ _ Hi Hf) as H. destruct res as [[]|e]; by destruct H.
Qed.

Lemma winv_rtc x y :
  rtc wal_step x y -> winv_ex x.1.1 x.1.2 x.2 -> winv_ex y.1.1 y.1.2 y.2.
Proof. induction 1; eauto using winv_step. Qed.

(** C1 (WAL durability).  Start from any segment of complete records.  After
    any sequence of appends and flushes, with I/O calls failing anywhere except
    half-way through a write, and a power loss at any point - also with part
    of the unsynced bytes on disk - reading the segment back yields every
    record appended before the last flush that answered [Ok], in order, and
    only records that were appended. *)
Theorem wal_durability (s0 s : WalWriter) (w0 w : World) (recs : list WalRecord) (h : Hist) :
  Forall record_ok recs -> buffer s0 = [] -> is_u64 (current_lsn s0) -> clean w0 ->
  files w0 !! segment_handle s0 = Some (mkFile (encoded recs) (encoded recs)) ->
  rtc wal_step (s0, w0, mkHist recs recs) (s, w, h) ->
  exists f, files w !! segment_handle s = Some f /\
    forall d, crash_image f d ->
      stable h `sublist_of` load_single_segment d /\
      (forall r, r ∈ load_single_segment d -> r ∈ appended h).
Proof.
  intros Hok Hb Hl Hc Hf Hr.
  assert (winv_ex s0 w0 (mkHist recs recs)) as Hi.
  { eexists _, recs, [], [], recs. split; simpl; rewrite ?app_nil_r; try done. }
  destruct (winv_rtc _ _ Hr Hi) as (f & fd & fx & br & don & Hw).
  exists f. split; [apply Hw|]. intros d Hd. destruct Hw as [H1 H2 H3 H4 H5 H6 H7 H8 H9 H10 H11 _].
  rewrite app_assoc, Forall_app in H6. destruct H6 as [H6 _].
  destruct (crash_load f fd fx d H3 H4 H6 Hd) as [m ->]. split.
  - by apply sublist_inserts_r.
  - intros r Hr'. apply H11. rewrite elem_of_app in *. destruct Hr' as [|Hr']; [by left|right].
    by eapply elem_of_take in Hr' as (i & ? & ?); eapply list_elem_of_lookup_2.
Qed.

(** ** A write torn by an I/O error, then retried *)

(** One flush, call by call. *)
Lemma flush_eq s w f :
  buffer s <> [] -> files w !! segment_handle s = Some f ->
  flush (s, w) =
    match next_outcome w with
    | (Failed _, w1) => (Err EIO, (s, w1))
    | (Done, w1) =>
        match h_write_at (segment_handle s) (buffer s) (length (cached f)) w1 with
        | (Err e, w2) => (Err e, (s, w2))
        | (Ok _, w2) =>
            match h_sync (segment_handle s) w2 with
            | (Err e, w3) => (Err e, (s, w3))
            | (Ok _, w3) => (Ok tt, (flushed s, w3))
            end
        end
    end.
Proof.
  intros Hb Hf. unfold flush, bind, self, lift. cbn [fst snd].
  destruct (Nat.eqb_spec (length (buffer s)) 0) as [E|_].
  { apply length_zero_iff_nil in E. done. }
  unfold h_len. unfold with_file at 1. cbn [fst snd].
  rewrite Hf. destruct (next_outcome w) as [[|k] w1]; [|done].
  cbn [fst snd]. destruct (h_write_at _ _ _ w1) as [[[]|e] w2]; [|done].
  cbn [fst snd]. destruct (h_sync _ w2) as [[[]|e] w3]; done.
Qed.

(** Without faults a flush appends and syncs. *)
Lemma flush_ok s fs f u :
  buffer s <> [] -> fs !! segment_handle s = Some f ->
  flush (s, mkWorldAt fs [] u) =
    (Ok tt, (flushed s, mkWorldAt (<[segment_handle s :=
       mkFile (cached f ++ buffer s) (cached f ++ buffer s)]> fs) [] u)).
Proof.
  intros Hb Hf. rewrite (flush_eq s (mkWorldAt fs [] u) f Hb Hf). unfold next_outcome. cbn [script].
  unfold h_write_at, with_file. cbn [files]. rewrite Hf. unfold next_outcome. cbn [script].
  rewrite write_ext_end. unfold h_sync, with_file, set_file. cbn [files script].
  rewrite lookup_insert_eq. unfold next_outcome. cbn [script files cached].
  by rewrite insert_insert_eq.
Qed.

Lemma torn_prefix_magic k r :
  (1 <= k <= 3)%nat -> from_be (slice (take k (encode r) ++ encode r) 0 4) <> WAL_MAGIC_START.
Proof.
  intros Hk. assert (k = 1 \/ k = 2 \/ k = 3)%nat as [->|[->| ->]] by lia; vm_compute; congruence.
Qed.

(** When the write of a flush fails after transferring one
    to three bytes, those bytes stay in the file: the next flush appends the
    whole buffer behind them and answers [Ok], yet reading the segment back
    stops at the torn bytes and returns none of it - the acknowledged record is
    lost. *)
Theorem torn_retry_loses_record (s : WalWriter) (r : WalRecord) (fs : gmap Path File) (k : nat) :
  (1 <= k <= 3)%nat -> buffer s = encode r -> fs !! segment_handle s = Some (mkFile [] []) ->
  let '(res1, st1) := flush (s, mkWorld fs [Done; Failed k]) in
  let '(res2, (s2, w2)) := flush st1 in
  res1 = Err EIO /\ res2 = Ok tt /\ buffer s2 = [] /\ durable_lsn s2 = Z.max (durable_lsn s) (current_lsn s) /\
  exists f, files w2 !! segment_handle s2 = Some f /\ durable f = take k (encode r) ++ encode r /\
    load_single_segment (durable f) = [].
Proof.
  intros Hk Hb Hf.
  assert (buffer s <> []) as Hne by (rewrite Hb; discriminate).
  assert (3 < length (encode r))%nat as Hlen.
  { rewrite length_encode. unfold on_disk_size, WAL_RECORD_MIN_SIZE. lia. }
  rewrite (flush_eq s (mkWorld fs [Done; Failed k]) _ Hne Hf). unfold next_outcome. cbn [script].
  unfold h_write_at, with_file. cbn [files]. rewrite Hf. unfold next_outcome. cbn [script].
  rewrite Hb, Nat.min_l by lia. destruct (Nat.eqb_spec k 0) as [E|_]; [lia|].
  unfold set_file. cbn [files script cached durable].
  rewrite (flush_ok s _ (mkFile (take k (encode r)) []) _ Hne).
  2:{ change (length (@nil Z)) with 0%nat. rewrite (write_ext_end [] _ : write_ext [] 0 _ = _).
      apply lookup_insert_eq. }
  cbn [cached]. split_and!; try done. eexists. split; [apply lookup_insert_eq|].
  rewrite Hb. split; [done|]. cbn [durable].
  apply (scan_segment [] _ (Forall_nil_2 _)).
  destruct (decode _ 0) as [[r' m]|] eqn:Ed; [|done].
  apply layout_of_decode in Ed as [_ HL]. exfalso.
  by apply (torn_prefix_magic k r Hk), (lay_start _ _ HL).
Qed.

(** ** LSNs of appended records *)

(** Flushing never moves the LSN. *)
Lemma flush_lsn s w : current_lsn (flush (s, w)).2.1 = current_lsn s.
Proof.
  unfold flush, bind, self, lift, put, ret. cbn [fst snd].
  destruct (_ =? _)%nat; [done|]. cbn [fst snd].
  destruct (h_len (segment_handle s) w) as [[n|e] w1]; [|done]. cbn [fst snd].
  destruct (h_write_at (segment_handle s) (buffer s) n w1) as [[[]|e] w2]; [|done]. cbn [fst snd].
  destruct (h_sync (segment_handle s) w2) as [[[]|e] w3]; done.
Qed.

(** Packing and unpacking an LSN are inverse and order LSNs by
    segment, then offset.  A successful append returns the current LSN and, as
    long as the segment stays below 4 GiB, advances it by exactly the record's
    size within the same segment, so LSNs are unique and strictly increasing;
    a failed append leaves it unchanged. *)
Theorem append_lsn_monotone (s s' : WalWriter) (w w' : World) (r : WalRecord)
    (seg off seg2 off2 : Z) (res : result Z IoError) :
  is_u32 seg -> is_u32 off -> is_u32 seg2 -> is_u32 off2 ->
  current_lsn s = make_lsn seg off -> off + Z.of_nat (on_disk_size r) < 2 ^ 32 ->
  append r (s, w) = (res, (s', w')) ->
  lsn_segment_id (make_lsn seg off) = seg /\ lsn_offset (make_lsn seg off) = off /\
  (make_lsn seg off < make_lsn seg2 off2 <-> seg < seg2 \/ (seg = seg2 /\ off < off2)) /\
  match res with
  | Ok l => l = current_lsn s /\ current_lsn s < current_lsn s' /\
            current_lsn s' = make_lsn seg (off + Z.of_nat (on_disk_size r))
  | Err _ => current_lsn s' = current_lsn s
  end.
Proof.
  intros Hs Ho Hs2 Ho2 Hc Hlt Ha. split; [by apply lsn_segment_id_make|].
  split; [by apply lsn_offset_make|]. split.
  { rewrite !make_lsn_add by (done || unfold uint in *; lia). unfold uint in *. nia. }
  assert (forall x, current_lsn x = current_lsn s ->
    current_lsn (buffer_record x (encode (set_lsn r (current_lsn s)))) =
      make_lsn seg (off + Z.of_nat (on_disk_size r))) as Hbuf.
  { intros x Hx. cbn [buffer_record current_lsn]. rewrite Hx, Hc, lsn_segment_id_make, lsn_offset_make by done.
    rewrite length_encode. unfold uint in *.
    replace (on_disk_size (set_lsn r _)) with (on_disk_size r) by done.
    rewrite !(wrap_id 32) by (unfold uint; rewrite ?wrap_id by (unfold uint; lia); lia). done. }
  assert (current_lsn s < make_lsn seg (off + Z.of_nat (on_disk_size r))) as Hinc.
  { unfold uint in *. rewrite Hc, !make_lsn_add by (unfold uint; lia).
    unfold on_disk_size, WAL_RECORD_MIN_SIZE. lia. }
  unfold append in Ha. unfold bind at 1 in Ha. unfold self at 1 in Ha. cbn [fst] in Ha. cbv zeta in Ha.
  destruct (_ <? _).
  - unfold bind at 1 2 3 in Ha. pose proof (flush_lsn s w) as Hfl.
    destruct (flush (s, w)) as [[[]|e] [s1 w1]]; simpl in Hfl.
    + destruct (_ <? _); [unfold fail in Ha; simplify_eq; done|].
      unfold ret at 1, bind, self, put, ret in Ha. cbn [fst snd] in Ha. simplify_eq.
      rewrite (Hbuf _ Hfl). done.
    + by simplify_eq.
  - unfold bind, self, put, ret in Ha. cbn [fst snd] in Ha. simplify_eq.
    rewrite (Hbuf _ eq_refl). done.
Qed.
End Writer.

(** ** Finding the segment to resume *)

Lemma exists_path_spec w p : exists_path w p = true <-> is_Some (files w !! p).
Proof. unfold exists_path. apply bool_decide_eq_true. Qed.

(** With the segments [id .. hi] all present and [hi + 1] absent the probe ends
    at [hi]. *)
Lemma probe_run fuel w id hi : forall max_id,
  0 <= id -> id <= hi + 1 -> hi < U32_MAX -> (max_id = id - 1 \/ (id <= hi /\ max_id <= hi)) ->
  (forall i, id <= i <= hi -> exists_path w (live_seg i) = true) ->
  exists_path w (live_seg (hi + 1)) = false ->
  (Z.to_nat (hi + 2 - id) <= fuel)%nat ->
  probe_segments fuel w id max_id = if id <=? hi then hi else max_id.
Proof.
  revert id. induction fuel as [|f IH]; intros id max_id H0 Hle Hhi Hm Hall Hgap Hf.
  { assert (id = hi + 2 \/ hi + 2 <= id) by lia. lia. }
  cbn [probe_segments]. destruct (Z.ltb_spec U32_MAX id); [lia|].
  destruct (Z.leb_spec id hi) as [Hi|Hi].
  - rewrite Hall by lia. rewrite IH; try lia.
    + destruct (Z.leb_spec (id + 1) hi); [done|]. lia.
    + intros i Hi'. apply Hall. lia.
    + done.
  - assert (id = hi + 1) as -> by lia. rewrite Hgap.
    destruct (Z.ltb_spec max_id (hi + 1)); [done|]. lia.
Qed.

Lemma live_count w lo hi :
  (forall i, lo <= i < hi -> exists_path w (live_seg i) = true) ->
  (Z.to_nat (hi - lo) <= size (files w))%nat.
Proof.
  intros Hall. rewrite <- (size_dom (D := gset Path)).
  set (k := list_to_set (C := gset Path) (live_seg <$> seqZ lo (hi - lo))).
  assert (size k = Z.to_nat (hi - lo)) as <-.
  { unfold k. rewrite size_list_to_set, length_fmap, length_seqZ; [done|].
    apply NoDup_fmap_2; [|apply NoDup_seqZ]. by intros x y [=]. }
  apply subseteq_size. intros p Hp. unfold k in Hp.
  apply elem_of_list_to_set, list_elem_of_fmap in Hp as (i & -> & Hi). apply elem_of_seqZ in Hi.
  apply elem_of_dom, exists_path_spec, Hall. lia.
Qed.

Lemma probe_S f w id max_id :
  probe_segments (S f) w id max_id =
    if U32_MAX <? id then max_id
    else if exists_path w (live_seg id) then probe_segments f w (id + 1) id
    else if max_id <? id then max_id
    else probe_segments f w (id + 1) max_id.
Proof. done. Qed.

Lemma find_highest_contiguous w lo hi :
  0 <= lo <= 1 -> lo <= hi < U32_MAX ->
  (forall i, 0 <= i <= hi + 1 -> exists_path w (live_seg i) = bool_decide (lo <= i <= hi)) ->
  find_highest_segment_id w = hi.
Proof.
  intros Hlo Hhi Hex. unfold find_highest_segment_id.
  assert (Z.to_nat (hi + 1 - lo) <= size (files w))%nat as Hsz.
  { apply live_count. intros i Hi. rewrite Hex by lia. apply bool_decide_eq_true. lia. }
  assert (exists_path w (live_seg (hi + 1)) = false) as Hgap.
  { rewrite Hex by lia. apply bool_decide_eq_false. lia. }
  assert (forall i, lo <= i <= hi -> exists_path w (live_seg i) = true) as Hall.
  { intros i Hi. rewrite Hex by lia. apply bool_decide_eq_true. lia. }
  destruct (decide (lo = 0)) as [->|].
  - rewrite (probe_run _ w 0 hi); try done; try lia. by destruct (Z.leb_spec 0 hi); [|lia].
  - assert (lo = 1) as -> by lia. rewrite Nat.add_comm.
    change (2 + size (files w))%nat with (S (S (size (files w)))). rewrite probe_S.
    destruct (Z.ltb_spec U32_MAX 0); [done|]. rewrite Hex, bool_decide_false by lia.
    simpl (0 <? 0). change (0 + 1) with 1.
    rewrite (probe_run (S (size (files w))) w 1 hi); try done; try lia.
    by destruct (Z.leb_spec 1 hi); [|lia].
Qed.

Lemma find_highest_gap w :
  exists_path w (live_seg 0) = false -> exists_path w (live_seg 1) = false ->
  find_highest_segment_id w = 0.
Proof.
  intros H0 H1. unfold find_highest_segment_id. rewrite Nat.add_comm. cbn [Nat.add probe_segments].
  change (U32_MAX <? 0) with false. rewrite H0. change (0 <? 0) with false.
  change (0 + 1) with 1. change (U32_MAX <? 1) with false. by rewrite H1.
Qed.

(** Fault-free archiving of the segments [seg .. seg + n - 1]. *)
Lemma archive_loop_spec n : forall seg s w,
  0 <= seg -> script w = [] -> exists w', archive_loop n seg (s, w) = (Ok tt, (s, w')) /\ script w' = [] /\
    forall i, 0 <= i -> files w' !! live_seg i =
      if decide (seg <= i < seg + Z.of_nat n) then None else files w !! live_seg i.
Proof.
  induction n as [|n IH]; intros seg s w Hs Hq.
  { exists w. split; [done|]. split; [done|]. intros i Hi. rewrite decide_False by lia. done. }
  cbn [archive_loop]. unfold bind at 1, world. cbn [fst snd].
  destruct (exists_path w (live_seg seg)) eqn:E.
  - apply exists_path_spec in E as [f Hf].
    unfold bind at 1, ignore, lift, fs_rename. cbn [fst snd]. rewrite next_outcome_quiet, Hf by done.
    cbn [fst snd].
    destruct (IH (seg + 1) s (mkWorldAt (<[archived_seg seg := f]> (delete (live_seg seg) (files w))) (script w)
        (unsynced_entries (dir_change (dir_change w (live_seg seg)) (archived_seg seg)))) ltac:(lia) Hq)
      as (w' & -> & Hq' & Hfs). exists w'. split; [done|]. split; [done|]. intros i Hi. rewrite Hfs by done. cbn [files].
    assert (archived_seg seg <> live_seg i) by (by intros [=]).
    rewrite lookup_insert_ne by done.
    destruct (decide (i = seg)) as [->|].
    + rewrite lookup_delete_eq, decide_False, decide_True by lia. done.
    + rewrite lookup_delete_ne by (intros [=]; lia).
      destruct (decide (seg + 1 <= i < seg + 1 + Z.of_nat n)).
      * rewrite decide_True by lia. done.
      * rewrite decide_False by lia. done.
  - unfold bind at 1, ret. cbn [fst snd].
    destruct (IH (seg + 1) s w ltac:(lia) Hq) as (w' & -> & Hq' & Hfs). exists w'. split; [done|]. split; [done|].
    intros i Hi. rewrite Hfs by done.
    assert (files w !! live_seg seg = None) as Hnone.
    { destruct (files w !! live_seg seg) eqn:El; [|done].
      assert (exists_path w (live_seg seg) = true)
        by (apply exists_path_spec; rewrite El; eauto). congruence. }
    destruct (decide (i = seg)) as [->|].
    + rewrite Hnone, decide_False, decide_True by lia. done.
    + destruct (decide (seg + 1 <= i < seg + 1 + Z.of_nat n)).
      * rewrite decide_True by lia. done.
      * rewrite decide_False by lia. done.
Qed.


Section WriterWitnesses.
#[local] Existing Instance additive_checksums.

Definition fresh_writer : WalWriter := mkWal 1 (live_seg 0) [] 0 0 0 0 1 (live_seg 0) 1 0.
Definition fresh_world : World := mkWorld {[ live_seg 0 := mkFile [] [] ]} [Done; Done; Failed 0].

Lemma wal_durability_witness :
  exists s w f, rtc wal_step (fresh_writer, fresh_world, mkHist [] [])
    (s, w, mkHist [set_lsn sample_record 1] [set_lsn sample_record 1]) /\
  files w !! segment_handle s = Some f /\
  [set_lsn sample_record 1] `sublist_of` load_single_segment (durable f).
Proof.
  pose (a1 := append sample_record (fresh_writer, fresh_world)).
  pose (a2 := flush a1.2). pose (a3 := flush a2.2).
  assert (rtc wal_step (fresh_writer, fresh_world, mkHist [] [])
    (a3.2.1, a3.2.2, mkHist [set_lsn sample_record 1] [set_lsn sample_record 1])) as Hr.
  { eapply rtc_l.
    { apply (ws_append fresh_writer fresh_world (mkHist [] []) sample_record (Ok 1) a1.2.1 a1.2.2).
      - apply sample_record_ok.
      - vm_compute. reflexivity. }
    eapply rtc_l.
    { apply (ws_flush a1.2.1 a1.2.2 _ (Err EIO) a2.2.1 a2.2.2). vm_compute. reflexivity. }
    eapply rtc_l; [|apply rtc_refl].
    apply (ws_flush a2.2.1 a2.2.2 (mkHist [set_lsn sample_record 1] []) (Ok tt) a3.2.1 a3.2.2).
    vm_compute. reflexivity. }
  destruct (wal_durability fresh_writer a3.2.1 fresh_world a3.2.2 []
    (mkHist [set_lsn sample_record 1] [set_lsn sample_record 1])
    (Forall_nil_2 _) eq_refl) as (f & Hf & Hd).
  - split; vm_compute; congruence.
  - repeat (apply Forall_cons; split; [auto|]). apply Forall_nil_2.
  - vm_compute. reflexivity.
  - exact Hr.
  - exists a3.2.1, a3.2.2, f. split; [exact Hr|]. split; [exact Hf|].
    assert (durable f = cached f) as E.
    { vm_compute in Hf. injection Hf as <-. reflexivity. }
    apply (Hd (durable f)). exists (length (cached f)). rewrite firstn_all. split; [exact E|].
    rewrite E. apply le_n.
Defined.

Lemma torn_retry_loses_record_witness :
  let '(res1, st1) := flush (mkWal 62 (live_seg 0) (encode sample_record) 61 0 0 1 1 (live_seg 0) 1 61,
                             mkWorld {[ live_seg 0 := mkFile [] [] ]} [Done; Failed 2]) in
  res1 = Err EIO /\ (flush st1).1 = Ok tt.
Proof.
  pose proof (torn_retry_loses_record
    (mkWal 62 (live_seg 0) (encode sample_record) 61 0 0 1 1 (live_seg 0) 1 61) sample_record
    {[ live_seg 0 := mkFile [] [] ]} 2 ltac:(lia) eq_refl eq_refl) as H.
  destruct (flush (mkWal _ _ _ _ _ _ _ _ _ _ _, _)) as [res1 st1].
  destruct (flush st1) as [res2 [s2 w2]]. destruct H as (H1 & H2 & _). split; [exact H1|exact H2].
Defined.

Lemma append_lsn_monotone_witness :
  exists s' w', append sample_record (fresh_writer, fresh_world) = (Ok 1, (s', w')) /\
    current_lsn s' = make_lsn 0 62.
Proof.
  pose (a1 := append sample_record (fresh_writer, fresh_world)).
  exists a1.2.1, a1.2.2.
  assert (append sample_record (fresh_writer, fresh_world) = (Ok 1, (a1.2.1, a1.2.2))) as E
    by (vm_compute; reflexivity).
  split; [exact E|].
  destruct (append_lsn_monotone fresh_writer a1.2.1 fresh_world a1.2.2 sample_record 0 1 0 1 (Ok 1))
    as (_ & _ & _ & _ & _ & H);
    [vm_compute; split; congruence..|reflexivity|vm_compute; reflexivity|exact E|exact H].
Defined.
End WriterWitnesses.

Section ResumeWitness.
Definition four_segments : gmap Path File :=
  list_to_map ((fun i => (live_seg i, mkFile [] [])) <$> [0; 1; 2; 3; 4]).

End ResumeWitness.
