(* ===== verification/WalLog.v ===== *)
(** * What the transaction manager relies on from the log

    [TransactionManager] uses the WAL only through [append] and [flush].
    [WalLog] states what those promise - a successful flush makes every record
    appended before it durable, and nothing durable is lost - and the instance
    below discharges it for the writer of [WalWriter]. *)

From stdpp Require Import prelude list gmap relations.
From Stdlib Require Import ZArith Lia.
From S2P Require Import Prelude Bytes Checksum Io WalRecord WalWriter.

Class WalLog (W : Type) := {
  wal_append : WalRecord -> W -> result Z IoError * W;
  wal_flush : W -> result unit IoError * W;
  wal_ok : W -> Prop;
  wal_pending : W -> WalRecord -> Prop;
  wal_durable : W -> WalRecord -> Prop;
  wal_append_spec : forall w r res w',
    wal_ok w -> fields_ok r -> wal_append r w = (res, w') ->
    wal_ok w' /\ (forall x, wal_durable w x -> wal_durable w' x) /\
    match res with
    | Ok l => exists x, wal_pending w' x /\ record_type x = record_type r /\
                txid x = txid r /\ payload x = payload r /\ lsn x = l
    | Err _ => True
    end;
  wal_flush_spec : forall w res w',
    wal_ok w -> wal_flush w = (res, w') ->
    wal_ok w' /\ (forall x, wal_durable w x -> wal_durable w' x) /\
    match res with
    | Ok _ => forall x, wal_pending w x -> wal_durable w' x
    | Err _ => True
    end
}.

(** ** The file-backed writer *)

Section Instance.
Context `{CS : Checksums}.

Definition writer_ok (sw : WalWriter * World) : Prop := exists h, winv_ex sw.1 sw.2 h.
Definition writer_pending (sw : WalWriter * World) (x : WalRecord) : Prop :=
  exists h, winv_ex sw.1 sw.2 h /\ x ∈ appended h.
Definition writer_durable (sw : WalWriter * World) (x : WalRecord) : Prop :=
  exists h, winv_ex sw.1 sw.2 h /\ x ∈ stable h.

(** Durable means: read back from whatever a power loss leaves. *)
Lemma writer_durable_crash s w x :
  writer_durable (s, w) x ->
  exists f, files w !! segment_handle s = Some f /\
    forall d, crash_image f d -> x ∈ load_single_segment d.
Proof.
  intros (h & (f & fd & fx & br & done & Hi) & Hx). simpl in Hi.
  destruct Hi as [H1 _ H3 H4 _ H6 _ _ _ H10 _ _]. exists f. split; [done|]. intros d Hd.
  rewrite app_assoc, Forall_app in H6. destruct H6 as [H6 _].
  destruct (crash_load f fd fx d H3 H4 H6 Hd) as [m ->]. apply elem_of_app. left.
  by eapply sublist_subseteq.
Qed.

Lemma append_lsn_result r s w l sw' : append r (s, w) = (Ok l, sw') -> l = current_lsn s.
Proof.
  unfold append. unfold bind at 1, self at 1. cbn [fst]. cbv zeta. destruct (_ <? _).
  - unfold bind at 1 2 3. destruct (flush (s, w)) as [[[]|e] [s1 w1]]; [|done].
    destruct (_ <? _); [done|]. unfold ret at 1, bind, self, put, ret. by intros [= <- _].
  - unfold bind, self, put, ret. by intros [= <- _].
Qed.

Lemma writer_append_spec sw r res sw' :
  writer_ok sw -> fields_ok r -> append r sw = (res, sw') ->
  writer_ok sw' /\ (forall x, writer_durable sw x -> writer_durable sw' x) /\
  match res with
  | Ok l => exists x, writer_pending sw' x /\ record_type x = record_type r /\
              txid x = txid r /\ payload x = payload r /\ lsn x = l
  | Err _ => True
  end.
Proof.
  destruct sw as [s w], sw' as [s' w']. intros [h Hh] Hr Ha. simpl in Hh. split_and!.
  - eexists. by eapply append_winv.
  - intros x (h' & Hh' & Hx). simpl in Hh'. eexists. split; [by eapply append_winv|].
    destruct res; done.
  - destruct res as [l|e]; [|done].
    exists (set_lsn r (current_lsn s)). split; [|by rewrite (append_lsn_result _ _ _ _ _ Ha)].
    eexists. split; [by eapply append_winv|]. simpl. set_solver.
Qed.

Lemma writer_flush_spec sw res sw' :
  writer_ok sw -> flush sw = (res, sw') ->
  writer_ok sw' /\ (forall x, writer_durable sw x -> writer_durable sw' x) /\
  match res with
  | Ok _ => forall x, writer_pending sw x -> writer_durable sw' x
  | Err _ => True
  end.
Proof.
  destruct sw as [s w], sw' as [s' w']. intros Hok Hf.
  assert (forall h, winv_ex s w h -> winv_ex s' w' h /\
    (is_ok res = true -> winv_ex s' w' (mkHist (appended h) (appended h)))) as Hall.
  { intros h (f & fd & fx & br & done & Hi).
    pose proof (flush_winv _ _ _ _ _ _ _ _ _ _ _ Hi Hf) as H. destruct res as [[]|e]; by destruct H as [? H]; try destruct H. }
  split_and!.
  - destruct Hok as [h Hh]. exists h. by apply Hall.
  - intros x (h & Hh & Hx). exists h. split; [by apply Hall|done].
  - destruct res as [[]|e]; [|done]. intros x (h & Hh & Hx). eexists. split; [by eapply Hall|done].
Qed.

#[global] Instance writer_log : WalLog (WalWriter * World) := {|
  wal_append := append;
  wal_flush := flush;
  wal_ok := writer_ok;
  wal_pending := writer_pending;
  wal_durable := writer_durable;
  wal_append_spec := writer_append_spec;
  wal_flush_spec := writer_flush_spec
|}.
End Instance.
