(* ===== verification/WoundWait.v ===== *)
(** * Wound-wait oracle ([src/txn/wound_wait.rs])

    Ages are transaction ids: the lower, the older.  The wound counters are a
    map from transaction to a [u8]. *)

From stdpp Require Import prelude list gmap relations.
From Stdlib Require Import ZArith Lia.
From S2P Require Import Prelude.

Inductive WoundAction := Wound | Wait.

Abbreviation WoundWait := (gmap Z Z).

Definition IMMUNITY_THRESHOLD : Z := 3.

Definition ww_new : WoundWait := ∅.

Definition check (requester_ts holder_ts : Z) : WoundAction :=
  if requester_ts <? holder_ts then Wound else Wait.

Definition wound_count (ww : WoundWait) (txid : Z) : Z := default 0 (ww !! txid).

Definition is_immune (ww : WoundWait) (txid : Z) : bool := IMMUNITY_THRESHOLD <=? wound_count ww txid.

Definition ww_cleanup (ww : WoundWait) (txid : Z) : WoundWait := delete txid ww.

(** [record_wound]: the abort callback runs first, on the shared state [st]
    that also owns the counters; then the victim's counter is incremented,
    saturating at [u8::MAX]. *)
Definition record_wound {St} (get : St -> WoundWait) (set : St -> WoundWait -> St)
    (st : St) (victim : Z) (on_abort : St -> Z -> St) : St :=
  let st1 := on_abort st victim in
  let ww := get st1 in
  set st1 (<[victim := saturating_add 8 (default 0 (ww !! victim)) 1]> ww).

(** ** Facts *)

Lemma check_wait requester holder :
  check requester holder = Wait -> requester ≠ holder -> holder < requester.
Proof. unfold check. destruct (Z.ltb_spec requester holder); [done|]. lia. Qed.

Lemma check_wound requester holder : check requester holder = Wound <-> requester < holder.
Proof. unfold check. destruct (Z.ltb_spec requester holder); split; done || lia. Qed.
