(* ===== verification/Phantom.v ===== *)
(** * SSI conflict tracking and range resource ids ([src/txn/phantom.rs]) *)

From stdpp Require Import prelude list gmap.
From Stdlib Require Import ZArith Lia.
From S2P Require Import Prelude Bytes.

Record SsiTracker := mkSsi { out_set : gset Z; in_set : gset Z }.
Record SsiFlags := mkFlags { in_conflict : bool; out_conflict : bool }.

Definition ssi_new : SsiTracker := mkSsi ∅ ∅.
Definition flags_new : SsiFlags := mkFlags false false.

(** The reader gets [out_conflict], the writer [in_conflict]; both are entered
    in the global sets. *)
Definition record_rw_antidependency (s : SsiTracker) (reader writer : Z)
    (reader_flags writer_flags : SsiFlags) : SsiTracker * SsiFlags * SsiFlags :=
  (mkSsi ({[reader]} ∪ out_set s) ({[writer]} ∪ in_set s),
   mkFlags (in_conflict reader_flags) true,
   mkFlags true (out_conflict writer_flags)).

Definition mark_out_conflict (s : SsiTracker) (txid : Z) : SsiTracker :=
  mkSsi ({[txid]} ∪ out_set s) (in_set s).

Definition flags_is_doomed (f : SsiFlags) : bool := in_conflict f && out_conflict f.

Definition is_doomed (s : SsiTracker) (txid : Z) (flags : SsiFlags) : bool :=
  let has_out := out_conflict flags || bool_decide (txid ∈ out_set s) in
  let has_in := in_conflict flags || bool_decide (txid ∈ in_set s) in
  has_out && has_in.

Definition ssi_cleanup (s : SsiTracker) (txid : Z) : SsiTracker :=
  mkSsi (out_set s ∖ {[txid]}) (in_set s ∖ {[txid]}).

(** ** Range resource ids *)

Definition MSB : Z := Z.shiftl 1 63.

Definition range_resource_id (page_id : Z) : Z := Z.lor page_id MSB.

Definition FNV_OFFSET : Z := 0x811c9dc5.
Definition FNV_PRIME : Z := 0x01000193.

Definition fnv_step (hash byte : Z) : Z := wrap 64 (Z.lxor hash byte * FNV_PRIME).

Definition predicate_resource_id (predicate : list Z) : Z :=
  Z.lor (foldl fnv_step FNV_OFFSET predicate) MSB.

(** ** Facts *)

Lemma flags_doomed_is_doomed s txid f : flags_is_doomed f = true -> is_doomed s txid f = true.
Proof.
  unfold flags_is_doomed, is_doomed. intros H. apply andb_prop in H as [-> ->]. done.
Qed.

Lemma ssi_cleanup_clears s txid :
  is_doomed (ssi_cleanup s txid) txid flags_new = false.
Proof.
  unfold is_doomed, ssi_cleanup. simpl. rewrite bool_decide_false by set_solver. done.
Qed.

Lemma fnv_fold_u64 l : forall h, is_u64 h -> is_u64 (foldl fnv_step h l).
Proof.
  induction l as [|b l IH]; intros h Hh; [done|]. apply IH, wrap_range. lia.
Qed.

(** Synthetic ids are [u64]s with the top bit set, so they never meet a row id
    below 2^63; distinct pages below 2^63 keep distinct ids. *)
Lemma range_id_namespace page p predicate :
  0 <= page < 2 ^ 63 -> 0 <= p < 2 ^ 63 ->
  is_u64 (range_resource_id page) /\ is_u64 (predicate_resource_id predicate) /\
  2 ^ 63 <= range_resource_id page /\ 2 ^ 63 <= predicate_resource_id predicate /\
  (range_resource_id page = range_resource_id p <-> page = p).
Proof.
  intros Hp Hq. assert (is_u64 MSB) as Hm by (vm_compute; split; congruence).
  assert (forall x, 0 <= x -> 2 ^ 63 <= Z.lor x MSB) as Hge.
  { intros x Hx. destruct (Z.lt_ge_cases (Z.lor x MSB) (2 ^ 63)) as [Hlt|]; [|lia].
    assert (Z.testbit (Z.lor x MSB) 63 = true) as Hb
      by (rewrite Z.lor_spec; change (Z.testbit MSB 63) with true; apply orb_true_r).
    rewrite (uint_bits_high 63) in Hb; [done|lia| |lia].
    split; [apply Z.lor_nonneg; split; [done|vm_compute; congruence]|done]. }
  assert (is_u64 FNV_OFFSET) as Hf by (vm_compute; split; congruence).
  pose proof (fnv_fold_u64 predicate _ Hf) as Hh.
  unfold range_resource_id, predicate_resource_id. split_and!.
  - apply uint_lor; [lia| |done]. unfold uint. lia.
  - apply uint_lor; [lia|done|done].
  - apply Hge. lia.
  - apply Hge. apply Hh.
  - split; [|by intros ->]. intros E. apply Z.bits_inj'. intros k Hk.
    destruct (Z.eq_dec k 63) as [->|Hne].
    { rewrite !(uint_bits_high 63) by (unfold uint; lia). done. }
    assert (Z.testbit (Z.lor page MSB) k = Z.testbit (Z.lor p MSB) k) as Eb by (by rewrite E).
    rewrite !Z.lor_spec in Eb. unfold MSB in Eb.
    rewrite Z.shiftl_1_l, Z.pow2_bits_false, !orb_false_r in Eb by lia. done.
Qed.
