(* ===== verification/TxManager.v ===== *)
(** * Transaction manager ([src/txn/manager.rs])

    [TransactionManager] composes the global state, the lock table, the
    wound-wait oracle, the SSI tracker and the abort registry; a [Transaction]
    is owned by its caller.  The log is used through the [WalLog] interface.

    The blocking loops of [acquire_lock], [acquire_range_lock] and
    [record_phantom_write] take one [Turn] per iteration: what other threads do
    to the shared state between the calls of the iteration, and what
    [recv_timeout] answers. *)

From stdpp Require Import prelude list gmap relations.
From Stdlib Require Import ZArith Lia.
From S2P Require Import Prelude Bytes Checksum TxId Snapshot TxState LockTable WoundWait Phantom.
From S2P Require Import Io WalRecord WalWriter WalLog.

Inductive IsolationLevel := ReadUncommitted | ReadCommitted | RepeatableRead | Serializable.
Inductive TxStatus := Active | Committed | Aborted.

#[global] Instance isolation_eq_dec : EqDecision IsolationLevel.
Proof. solve_decision. Defined.
#[global] Instance txstatus_eq_dec : EqDecision TxStatus.
Proof. solve_decision. Defined.

Inductive TxError :=
| WalFlush (e : IoError)
| WoundWaitErr (txid : Z)
| NotActive (txid : Z) (status : TxStatus)
| AlreadyFinalised (txid : Z)
| IndexMutationErr
| PhantomConflict (txid : Z)
| WriteConflict (txid resource : Z).

(** ** Abort registry *)

Definition AbortRegistry : Type := gset Z.
Definition mark_aborted (r : AbortRegistry) (txid : Z) : AbortRegistry := {[txid]} ∪ r.
Definition registry_is_aborted (r : AbortRegistry) (txid : Z) : bool := bool_decide (txid ∈ r).
Definition registry_clear (r : AbortRegistry) (txid : Z) : AbortRegistry := r ∖ {[txid]}.

Record TransactionManager := mkTm {
  global_state : GlobalTxState;
  lock_table : LockTable;
  wound_wait : WoundWait;
  ssi_tracker : SsiTracker;
  abort_registry : AbortRegistry;
  default_isolation : IsolationLevel
}.

Definition tm_new : TransactionManager :=
  mkTm state_new table_new ww_new ssi_new ∅ RepeatableRead.

Definition with_components (gs : GlobalTxState) (lt : LockTable) (ww : WoundWait) (ssi : SsiTracker) :
    TransactionManager := mkTm gs lt ww ssi ∅ RepeatableRead.

Definition set_global (m : TransactionManager) (g : GlobalTxState) : TransactionManager :=
  mkTm g (lock_table m) (wound_wait m) (ssi_tracker m) (abort_registry m) (default_isolation m).
Definition set_locks (m : TransactionManager) (l : LockTable) : TransactionManager :=
  mkTm (global_state m) l (wound_wait m) (ssi_tracker m) (abort_registry m) (default_isolation m).
Definition set_ww (m : TransactionManager) (w : WoundWait) : TransactionManager :=
  mkTm (global_state m) (lock_table m) w (ssi_tracker m) (abort_registry m) (default_isolation m).
Definition set_ssi (m : TransactionManager) (s : SsiTracker) : TransactionManager :=
  mkTm (global_state m) (lock_table m) (wound_wait m) s (abort_registry m) (default_isolation m).
Definition set_registry (m : TransactionManager) (r : AbortRegistry) : TransactionManager :=
  mkTm (global_state m) (lock_table m) (wound_wait m) (ssi_tracker m) r (default_isolation m).

(** ** Transactions

    [Mut] is the type of staged index mutations; the manager only stores them. *)

Section Manager.
Context {Mut : Type}.

Record Transaction := mkTx {
  tx_id : Z;
  tx_snapshot : Snapshot;
  tx_status : TxStatus;
  tx_isolation : IsolationLevel;
  held_locks : list Z;
  tx_wound_count : Z;
  index_mutations : list Mut;
  tx_ssi : SsiFlags;
  read_ranges : list Z;
  write_set : list (Z * Z)
}.

Definition tx_is_active (tx : Transaction) : bool := bool_decide (tx_status tx = Active).

Definition with_status (tx : Transaction) (st : TxStatus) : Transaction :=
  mkTx (tx_id tx) (tx_snapshot tx) st (tx_isolation tx) (held_locks tx) (tx_wound_count tx)
    (index_mutations tx) (tx_ssi tx) (read_ranges tx) (write_set tx).
Definition with_held (tx : Transaction) (l : list Z) : Transaction :=
  mkTx (tx_id tx) (tx_snapshot tx) (tx_status tx) (tx_isolation tx) l (tx_wound_count tx)
    (index_mutations tx) (tx_ssi tx) (read_ranges tx) (write_set tx).
Definition with_ranges (tx : Transaction) (l : list Z) : Transaction :=
  mkTx (tx_id tx) (tx_snapshot tx) (tx_status tx) (tx_isolation tx) (held_locks tx) (tx_wound_count tx)
    (index_mutations tx) (tx_ssi tx) l (write_set tx).
Definition with_mutations (tx : Transaction) (l : list Mut) : Transaction :=
  mkTx (tx_id tx) (tx_snapshot tx) (tx_status tx) (tx_isolation tx) (held_locks tx) (tx_wound_count tx)
    l (tx_ssi tx) (read_ranges tx) (write_set tx).
Definition with_wound_count (tx : Transaction) (n : Z) : Transaction :=
  mkTx (tx_id tx) (tx_snapshot tx) (tx_status tx) (tx_isolation tx) (held_locks tx) n
    (index_mutations tx) (tx_ssi tx) (read_ranges tx) (write_set tx).
Definition with_flags (tx : Transaction) (f : SsiFlags) : Transaction :=
  mkTx (tx_id tx) (tx_snapshot tx) (tx_status tx) (tx_isolation tx) (held_locks tx) (tx_wound_count tx)
    (index_mutations tx) f (read_ranges tx) (write_set tx).

Definition begin_with_isolation (m : TransactionManager) (level : IsolationLevel) :
    Transaction * TransactionManager :=
  let '((txid, snapshot), g) := begin_tx (global_state m) in
  (mkTx txid snapshot Active level [] 0 [] flags_new [] [], set_global m g).

Definition begin (m : TransactionManager) : Transaction * TransactionManager :=
  begin_with_isolation m (default_isolation m).

(** Releasing everything the transaction recorded: row locks, then ranges. *)
Definition release_held (m : TransactionManager) (tx : Transaction) :
    TransactionManager * Transaction :=
  let l1 := (LockTable.release_all (lock_table m) (tx_id tx) (held_locks tx)).1 in
  let l2 := (LockTable.release_all l1 (tx_id tx) (read_ranges tx)).1 in
  (set_locks m l2, with_ranges (with_held tx []) []).

(** [abort_waiter]; the same sequence is inlined twice in [acquire_lock]. *)
Definition abort_waiter (m : TransactionManager) (tx : Transaction) :
    TxError * (TransactionManager * Transaction) :=
  let tx := with_status tx Aborted in
  let '(m, tx) := release_held m tx in
  let m := set_global m (abort_tx (global_state m) (tx_id tx)) in
  let m := set_ww m (ww_cleanup (wound_wait m) (tx_id tx)) in
  let m := set_registry m (registry_clear (abort_registry m) (tx_id tx)) in
  let m := set_ssi m (ssi_cleanup (ssi_tracker m) (tx_id tx)) in
  (WoundWaitErr (tx_id tx), (m, tx)).

(** The wound callback with [record_wound] around it: mark the victim, release
    the contested resource, abort it globally, drop its counters; then count
    the wound. *)
Definition wound_victim (m : TransactionManager) (resource victim : Z) : TransactionManager :=
  record_wound wound_wait set_ww m victim (fun m v =>
    let m := set_registry m (mark_aborted (abort_registry m) v) in
    let m := set_locks m (LockTable.release (lock_table m) resource v).1 in
    let m := set_global m (abort_tx (global_state m) v) in
    let m := set_ww m (ww_cleanup (wound_wait m) v) in
    set_ssi m (ssi_cleanup (ssi_tracker m) v)).

(** The loop over the holders of a contested resource. *)
Inductive ScanResult := ScanWound (victim : Z) | ScanDone (found_incompatible : bool).

Fixpoint scan_holders (m : TransactionManager) (tx : Transaction) (hs : list (Z * LockMode))
    (found : bool) : ScanResult * Transaction :=
  match hs with
  | [] => (ScanDone found, tx)
  | (h, _) :: hs' =>
      if h =? tx_id tx then scan_holders m tx hs' found
      else match check (tx_id tx) h with
           | Wound => (ScanWound h, tx)
           | Wait =>
               scan_holders m (with_wound_count tx (wound_count (wound_wait m) (tx_id tx))) hs' true
           end
  end.

Record Turn := mkTurn {
  t_check : TransactionManager -> TransactionManager;  (* others, before the abort re-check *)
  t_scan : TransactionManager -> TransactionManager;   (* others, before [holders] *)
  t_recv : option LockResult;                          (* [recv_timeout] *)
  t_wait : TransactionManager -> TransactionManager    (* others, while parked or retrying *)
}.

(** One loop for the three lock-acquiring operations.  [recheck] says whether
    the abort registry is consulted after a denial and after a notification;
    [track] records the granted resource.  [None]: still looping when the turns
    run out. *)
Fixpoint acquire_loop (recheck : bool) (track : Transaction -> Z -> Transaction)
    (resource : Z) (mode : LockMode) (turns : list Turn)
    (m : TransactionManager) (tx : Transaction) :
    option (result unit TxError) * (TransactionManager * Transaction) :=
  match turns with
  | [] => (None, (m, tx))
  | t :: ts =>
      let '((res, rx), lt) := try_acquire (lock_table m) resource (tx_id tx) mode in
      let m := set_locks m lt in
      match res with
      | Granted => (Some (Ok tt), (m, track tx resource))
      | Denied =>
          let m := t_check t m in
          if recheck && registry_is_aborted (abort_registry m) (tx_id tx) then
            let '(e, s) := abort_waiter m tx in (Some (Err e), s)
          else
            let m := t_scan t m in
            match scan_holders m tx (holders (lock_table m) resource) false with
            | (ScanWound victim, tx) =>
                (Some (Err (WoundWaitErr victim)), (wound_victim m resource victim, tx))
            | (ScanDone false, tx) =>
                acquire_loop recheck track resource mode ts (t_wait t m) tx
            | (ScanDone true, tx) =>
                let m := t_wait t m in
                if rx then
                  match t_recv t with
                  | None =>
                      if registry_is_aborted (abort_registry m) (tx_id tx) then
                        let '(e, s) := abort_waiter m tx in (Some (Err e), s)
                      else acquire_loop recheck track resource mode ts m tx
                  | Some Granted =>
                      if recheck && registry_is_aborted (abort_registry m) (tx_id tx) then
                        let '(e, s) := abort_waiter m tx in (Some (Err e), s)
                      else (Some (Ok tt), (m, track tx resource))
                  | Some Denied => acquire_loop recheck track resource mode ts m tx
                  end
                else acquire_loop recheck track resource mode ts m tx
            end
      end
  end.

Definition push_unique (l : list Z) (r : Z) : list Z := if bool_decide (r ∈ l) then l else l ++ [r].
Definition track_held (tx : Transaction) (r : Z) : Transaction :=
  with_held tx (push_unique (held_locks tx) r).
Definition track_range (tx : Transaction) (r : Z) : Transaction :=
  with_ranges tx (push_unique (read_ranges tx) r).

Definition acquire_lock (m : TransactionManager) (tx : Transaction) (resource : Z) (mode : LockMode)
    (turns : list Turn) : option (result unit TxError) * (TransactionManager * Transaction) :=
  if negb (tx_is_active tx) then (Some (Err (NotActive (tx_id tx) (tx_status tx))), (m, tx))
  else if registry_is_aborted (abort_registry m) (tx_id tx) then
    let '(e, s) := abort_waiter m tx in (Some (Err e), s)
  else acquire_loop true track_held resource mode turns m tx.

Definition acquire_range_lock (m : TransactionManager) (tx : Transaction) (range_id : Z)
    (turns : list Turn) : option (result unit TxError) * (TransactionManager * Transaction) :=
  if negb (tx_is_active tx) then (Some (Err (NotActive (tx_id tx) (tx_status tx))), (m, tx))
  else acquire_loop false track_range range_id Shared turns m tx.

(** The SSI part of [record_phantom_write]: every active reader of the range
    gets [out_conflict], the writer [in_conflict]. *)
Fixpoint mark_readers (snap : Snapshot) (hs : list (Z * LockMode)) (m : TransactionManager)
    (tx : Transaction) : TransactionManager * Transaction :=
  match hs with
  | [] => (m, tx)
  | (h, mode) :: hs' =>
      if (negb (h =? tx_id tx)) &&
         (bool_decide (mode = Shared) || bool_decide (mode = IntentionShared)) &&
         is_active snap h
      then mark_readers snap hs' (set_ssi m (mark_out_conflict (ssi_tracker m) h))
             (with_flags tx (mkFlags true (out_conflict (tx_ssi tx))))
      else mark_readers snap hs' m tx
  end.

Definition record_phantom_write (m : TransactionManager) (tx : Transaction) (range_id : Z)
    (turns : list Turn) : option (result unit TxError) * (TransactionManager * Transaction) :=
  if negb (tx_is_active tx) then (Some (Err (NotActive (tx_id tx) (tx_status tx))), (m, tx))
  else
    let snap := active_snapshot (global_state m) in
    let '(m, tx) := mark_readers snap (holders (lock_table m) range_id) m tx in
    acquire_loop false track_held range_id Exclusive turns m tx.

Definition record_write (tx : Transaction) (resource_id xmax_at_write : Z) :
    result unit TxError * Transaction :=
  if negb (tx_is_active tx) then (Err (NotActive (tx_id tx) (tx_status tx)), tx)
  else if existsb (fun e => fst e =? resource_id) (write_set tx) then (Ok tt, tx)
  else (Ok tt, mkTx (tx_id tx) (tx_snapshot tx) (tx_status tx) (tx_isolation tx) (held_locks tx)
                 (tx_wound_count tx) (index_mutations tx) (tx_ssi tx) (read_ranges tx)
                 (write_set tx ++ [(resource_id, xmax_at_write)])).

Definition stage_index_mutation (tx : Transaction) (mutation : Mut) :
    result unit TxError * Transaction :=
  if negb (tx_is_active tx) then (Err (NotActive (tx_id tx) (tx_status tx)), tx)
  else (Ok tt, with_mutations tx (index_mutations tx ++ [mutation])).

Definition snapshot_gc_horizon (m : TransactionManager) : Z := global_xmin (global_state m).

(** ** Finishing a transaction *)

Context `{CS : Checksums} {W : Type} `{WL : WalLog W}.

Definition rollback (m : TransactionManager) (tx : Transaction) (w : W) (now : Z) :
    result unit TxError * (TransactionManager * Transaction * W) :=
  if negb (tx_is_active tx) then (Err (NotActive (tx_id tx) (tx_status tx)), (m, tx, w))
  else
    let '(_, w) := wal_append (record_new RtAbort (tx_id tx) 0 0 [] now) w in
    let tx := with_mutations tx [] in
    let '(m, tx) := release_held m tx in
    let m := set_global m (abort_tx (global_state m) (tx_id tx)) in
    let m := set_ww m (ww_cleanup (wound_wait m) (tx_id tx)) in
    let m := set_registry m (registry_clear (abort_registry m) (tx_id tx)) in
    let m := set_ssi m (ssi_cleanup (ssi_tracker m) (tx_id tx)) in
    (Ok tt, (m, with_status tx Aborted, w)).

Definition commit (m : TransactionManager) (tx : Transaction) (w : W) (now : Z) :
    result unit TxError * (TransactionManager * Transaction * W) :=
  if negb (tx_is_active tx) then (Err (NotActive (tx_id tx) (tx_status tx)), (m, tx, w))
  else if bool_decide (tx_isolation tx = Serializable) &&
          is_doomed (ssi_tracker m) (tx_id tx) (tx_ssi tx) then
    let '(_, s) := rollback m tx w now in (Err (PhantomConflict (tx_id tx)), s)
  else
    match wal_append (record_new RtCommit (tx_id tx) 0 0 [] now) w with
    | (Err e, w) => (Err (WalFlush e), (m, tx, w))
    | (Ok _, w) =>
        match wal_flush w with
        | (Err e, w) => (Err (WalFlush e), (m, tx, w))
        | (Ok _, w) =>
            let '(m, tx) := release_held m tx in
            let m := set_global m (commit_tx (global_state m) (tx_id tx)) in
            let m := set_ww m (ww_cleanup (wound_wait m) (tx_id tx)) in
            let m := set_ssi m (ssi_cleanup (ssi_tracker m) (tx_id tx)) in
            (Ok tt, (m, with_status tx Committed, w))
        end
    end.

(** [commit_with_indexes], over the [apply_batch] of the index manager. *)
Definition commit_with_indexes {IM : Type} (apply_batch : IM -> list Mut -> result unit unit * IM)
    (m : TransactionManager) (tx : Transaction) (im : IM) (w : W) (now : Z) :
    result unit TxError * (TransactionManager * Transaction * W) * IM :=
  if negb (tx_is_active tx) then (Err (NotActive (tx_id tx) (tx_status tx)), (m, tx, w), im)
  else
    match apply_batch im (index_mutations tx) with
    | (Err _, im) =>
        let '(_, s) := rollback m tx w now in (Err IndexMutationErr, s, im)
    | (Ok _, im) => (commit m (with_mutations tx []) w now, im)
    end.
End Manager.
Arguments Transaction : clear implicits.

(** ** Releasing frees the resources *)

(** [x] waits for no resource of the table. *)
Definition not_waiting (t : LockTable) (x : Z) : Prop :=
  forall r e, entry_of t r = Some e -> x ∉ (fst <$> waiters e).

Definition holds (t : LockTable) (x r : Z) : Prop := x ∈ (fst <$> holders t r).

Lemma holds_entry t x r :
  holds t x r <-> exists e, entry_of t r = Some e /\ x ∈ (h_txid <$> holders_of e).
Proof.
  unfold holds, holders. fold (entry_of t r). destruct (entry_of t r) as [e|]; simpl.
  - rewrite <- list_fmap_compose. split; [eauto|]. by intros (e' & [= <-] & H).
  - split; [intros H; by apply not_elem_of_nil in H|]. by intros (e & [=] & _).
Qed.

Lemma foldl_add_holder_inv g : forall hs h,
  h ∈ foldl (fun acc w => add_holder acc (fst w) (snd w)) hs g ->
  h ∈ hs \/ h_txid h ∈ (fst <$> g).
Proof.
  induction g as [|[y m] g IH]; intros hs h Hh; simpl in *; [by left|].
  apply IH in Hh as [Hh|Hh]; [|right; by right].
  destruct (add_holder_cases hs y m) as [[_ E]|[_ E]]; rewrite E in Hh; [by left|].
  apply elem_of_app in Hh as [Hh|Hh]; [by left|]. apply list_elem_of_singleton in Hh as ->.
  right. by left.
Qed.

(** [x] is queued for [r]. *)
Definition waits_at (t : LockTable) (x r : Z) : Prop :=
  exists e, entry_of t r = Some e /\ x ∈ (fst <$> waiters e).

(** What [release] leaves on the released resource. *)
Lemma release_frees_at t r x :
  table_inv t -> ~ waits_at t x r ->
  ~ waits_at (release t r x).1 x r /\ ~ holds (release t r x).1 x r.
Proof.
  intros [Hl Hi] Hw. pose proof (fun r' => release_entry t r x r' Hl) as He.
  assert (forall e', (e ← entry_of t r; release_result (entry_release e x).1) = Some e' ->
    x ∉ (fst <$> waiters e') /\ x ∉ (h_txid <$> holders_of e')) as Hr.
  { intros e'. destruct (entry_of t r) as [e|] eqn:Ee; simpl; [|done].
    unfold entry_release, grant_compatible_waiters. simpl.
    destruct (grant_loop _ _) as [[hs ws] sent] eqn:Eg. simpl.
    destruct (grant_loop_spec _ _ _ _ _ Eg) as (g & Ews & -> & Ehs & _).
    assert (x ∉ (fst <$> waiters e)) as Hwe by (intros H; apply Hw; by exists e).
    rewrite Ews, fmap_app, not_elem_of_app in Hwe. destruct Hwe as [Hg Hws].
    assert (x ∉ (h_txid <$> hs)) as Hhs.
    { intros (h & -> & Hh)%list_elem_of_fmap. rewrite Ehs in Hh.
      apply foldl_add_holder_inv in Hh as [Hh|Hh]; [|done].
      apply elem_of_remove_holder in Hh as [_ ?]; [done|]. apply (Hi _ _ Ee). }
    unfold release_result. simpl. destruct hs, ws; intros [= <-]; done. }
  split.
  - intros (e' & E & Hx). rewrite He, decide_True in E by done. by apply Hr in E as [? _].
  - rewrite holds_entry. intros (e' & E & Hx). rewrite He, decide_True in E by done.
    by apply Hr in E as [_ ?].
Qed.

Lemma release_other t r x r' :
  table_inv t -> r' ≠ r -> entry_of (release t r x).1 r' = entry_of t r'.
Proof. intros [Hl _] Hne. by rewrite release_entry, decide_False. Qed.

Lemma release_frees t r x :
  table_inv t -> not_waiting t x ->
  not_waiting (release t r x).1 x /\ ~ holds (release t r x).1 x r /\
  (forall r', r' ≠ r -> holds (release t r x).1 x r' <-> holds t x r').
Proof.
  intros Hi Hw. destruct (release_frees_at t r x Hi) as [H1 H2].
  { intros (e & He & Hx). by apply (Hw r e). }
  split_and!; [|done|].
  - intros r' e'. destruct (decide (r' = r)) as [->|Hne]; [|rewrite release_other by done; apply Hw].
    intros He Hx. apply H1. by exists e'.
  - intros r' Hne. by rewrite !holds_entry, release_other.
Qed.

(** Releasing a list frees each of its resources the transaction is not queued
    for. *)
Lemma release_all_frees_at rs : forall t x r,
  table_inv t -> ~ waits_at t x r ->
  let t' := (LockTable.release_all t x rs).1 in
  table_inv t' /\ ~ waits_at t' x r /\ (r ∈ rs \/ ~ holds t x r -> ~ holds t' x r).
Proof.
  induction rs as [|r0 rs IH]; intros t x r Hi Hw; simpl.
  { split_and!; [done|done|]. by intros [Hr%not_elem_of_nil|]. }
  pose proof (release_inv t r0 x Hi) as Hi1.
  assert (~ waits_at (release t r0 x).1 x r /\
    (r ∈ r0 :: rs \/ ~ holds t x r -> r ∈ rs \/ ~ holds (release t r0 x).1 x r)) as [Hw1 Hr1].
  { destruct (decide (r = r0)) as [->|Hne].
    - destruct (release_frees_at t r0 x Hi Hw). auto.
    - unfold waits_at. rewrite !holds_entry, release_other by done. split; [done|].
      intros [[->|?]%elem_of_cons|?]; [done|by left|by right]. }
  destruct (release t r0 x) as [t1 s1]. simpl in *. specialize (IH t1 x r Hi1 Hw1).
  destruct (LockTable.release_all t1 x rs) as [t2 s2]. simpl in *. destruct IH as (? & ? & IH). auto.
Qed.

Lemma release_all_frees rs : forall t x,
  table_inv t -> not_waiting t x ->
  let t' := (LockTable.release_all t x rs).1 in
  table_inv t' /\ not_waiting t' x /\
  (forall r, holds t' x r <-> holds t x r /\ r ∉ rs).
Proof.
  induction rs as [|r rs IH]; intros t x Hi Hw; simpl.
  { split_and!; [done|done|]. intros r. split; [|tauto]. intros. split; [done|apply not_elem_of_nil]. }
  destruct (release_frees t r x Hi Hw) as (Hw1 & Hno & Hsame). pose proof (release_inv t r x Hi) as Hi1.
  destruct (release t r x) as [t1 s1]. simpl in *. specialize (IH t1 x Hi1 Hw1).
  destruct (LockTable.release_all t1 x rs) as [t2 s2]. simpl in *. destruct IH as (Hi2 & Hw2 & Hh).
  split_and!; [done|done|]. intros r'. rewrite Hh, not_elem_of_cons.
  destruct (decide (r' = r)) as [->|Hne]; [tauto|]. rewrite Hsame by done. tauto.
Qed.

Lemma release_held_frees {Mut} m (tx : Transaction Mut) m' tx' :
  table_inv (lock_table m) -> not_waiting (lock_table m) (tx_id tx) ->
  release_held m tx = (m', tx') ->
  table_inv (lock_table m') /\ not_waiting (lock_table m') (tx_id tx) /\
  (forall r, holds (lock_table m') (tx_id tx) r <->
     holds (lock_table m) (tx_id tx) r /\ r ∉ held_locks tx /\ r ∉ read_ranges tx).
Proof.
  intros Hi Hw [= <- <-]. simpl.
  destruct (release_all_frees (held_locks tx) _ _ Hi Hw) as (Hi1 & Hw1 & H1).
  destruct (release_all_frees (read_ranges tx) _ _ Hi1 Hw1) as (Hi2 & Hw2 & H2).
  split_and!; [done|done|]. intros r. rewrite H2, H1. tauto.
Qed.

(** The transaction's books are complete: every lock it holds is recorded. *)
Definition books_ok {Mut} (m : TransactionManager) (tx : Transaction Mut) : Prop :=
  table_inv (lock_table m) /\ not_waiting (lock_table m) (tx_id tx) /\
  forall r, holds (lock_table m) (tx_id tx) r -> r ∈ held_locks tx \/ r ∈ read_ranges tx.

(** ** Commit and rollback *)

Section Finish.
Context {Mut : Type} `{CS : Checksums} {W : Type} `{WL : WalLog W}.
Implicit Types (m : TransactionManager) (tx : Transaction Mut) (w : W).

Lemma log_record_ok t x now : is_u64 x -> fields_ok (record_new t x 0 0 [] now).
Proof.
  intros Hx. apply record_new_ok; try done; try (vm_compute; split; congruence).
  constructor.
Qed.

Lemma cleanup_no_wounds ww x : wound_count (ww_cleanup ww x) x = 0.
Proof. unfold wound_count, ww_cleanup. by rewrite lookup_delete_eq. Qed.

Lemma registry_clear_not r x : x ∉ registry_clear r x.
Proof. unfold registry_clear. set_solver. Qed.

(** After a rollback of an active transaction, whatever the log answers. *)
Record rolled_back m tx m' tx' : Prop := {
  rb_status : tx_status tx' = Aborted;
  rb_global : global_state m' = abort_tx (global_state m) (tx_id tx);
  rb_locks : forall r, ~ holds (lock_table m') (tx_id tx) r;
  rb_books : held_locks tx' = [] /\ read_ranges tx' = [] /\ index_mutations tx' = [];
  rb_registry : tx_id tx ∉ abort_registry m';
  rb_wounds : wound_count (wound_wait m') (tx_id tx) = 0;
  rb_ssi : is_doomed (ssi_tracker m') (tx_id tx) flags_new = false
}.

Lemma rollback_active m tx w now :
  tx_status tx = Active -> is_u64 (tx_id tx) -> wal_ok w -> books_ok m tx ->
  exists m' tx' w', rollback m tx w now = (Ok tt, (m', tx', w')) /\ rolled_back m tx m' tx' /\
    wal_ok w' /\ forall x, wal_durable w x -> wal_durable w' x.
Proof.
  intros Ha Hu Hw (Hti & Hnw & Hbk). unfold rollback, tx_is_active.
  rewrite bool_decide_true by done. cbn [negb].
  destruct (wal_append _ w) as [res w1] eqn:Ew.
  destruct (wal_append_spec _ _ _ _ Hw (log_record_ok RtAbort _ now Hu) Ew) as (Hw1 & Hd1 & _).
  destruct (release_held m (with_mutations tx [])) as [m1 tx1] eqn:Er.
  destruct (release_held_frees m (with_mutations tx []) _ _ Hti Hnw Er) as (_ & _ & Hfree).
  unfold release_held in Er. injection Er as <- <-.
  eexists _, _, w1. split; [reflexivity|]. split; [|done].
  split; simpl; try done.
  - intros r Hr. apply Hfree in Hr as (Hr & ? & ?). by destruct (Hbk r Hr).
  - apply registry_clear_not.
  - apply cleanup_no_wounds.
  - apply ssi_cleanup_clears.
Qed.

Lemma rollback_inactive m tx w now :
  tx_status tx <> Active -> rollback m tx w now = (Err (NotActive (tx_id tx) (tx_status tx)), (m, tx, w)).
Proof. intros H. unfold rollback, tx_is_active. by rewrite bool_decide_false. Qed.

(** C34 (rollback).  For a transaction whose locks are all on its books and
    which is queued for none: rolling it back while it is active succeeds
    whatever the log answers, and afterwards it is aborted in the global state,
    holds no lock, has no staged index mutation, no entry in the abort registry,
    no wound count and no serializability mark, and cannot be finished again.
    An inactive transaction is refused without any effect, and nothing durable
    is lost. *)
Theorem rollback_contract m tx w (now : Z) :
  is_u64 (tx_id tx) -> wal_ok w -> books_ok m tx ->
  exists res m' tx' w', rollback m tx w now = (res, (m', tx', w')) /\ wal_ok w' /\
    (forall x, wal_durable w x -> wal_durable w' x) /\
    if decide (tx_status tx = Active)
    then res = Ok tt /\ rolled_back m tx m' tx' /\ tx_id tx' = tx_id tx /\
         rollback m' tx' w' now = (Err (NotActive (tx_id tx) Aborted), (m', tx', w'))
    else res = Err (NotActive (tx_id tx) (tx_status tx)) /\ m' = m /\ tx' = tx /\ w' = w.
Proof.
  intros Hu Hw Hb. case_decide as Ha.
  - destruct (rollback_active m tx w now Ha Hu Hw Hb) as (m' & tx' & w' & E & Hrb & Hw' & Hd).
    exists (Ok tt), m', tx', w'. split; [done|]. split; [done|]. split; [done|]. split; [done|].
    split; [done|]. assert (tx_id tx' = tx_id tx) as Ei.
    { revert E. unfold rollback. destruct (negb _); [done|]. destruct (wal_append _ w).
      unfold release_held. by intros [= _ <- _]. }
    split; [done|]. pose proof (rb_status _ _ _ _ Hrb) as Hs.
    rewrite rollback_inactive by (by rewrite Hs). by rewrite Hs, Ei.
  - exists (Err (NotActive (tx_id tx) (tx_status tx))), m, tx, w. rewrite rollback_inactive by done. done.
Qed.

End Finish.

(** ** Waiting and wounding *)

Section Acquire.
Context {Mut : Type}.
Implicit Types (m : TransactionManager) (tx : Transaction Mut).

Lemma scan_holders_found m hs : forall tx b tx',
  scan_holders m tx hs true = (ScanDone b, tx') -> b = true.
Proof.
  induction hs as [|[h md] hs IH]; intros tx b tx'; simpl; [by intros [= <- _]|].
  destruct (h =? tx_id tx); [apply IH|]. destruct (check (tx_id tx) h); [done|]. apply IH.
Qed.

Lemma scan_holders_spec m hs : forall tx found r tx',
  scan_holders m tx hs found = (r, tx') ->
  tx_id tx' = tx_id tx /\ held_locks tx' = held_locks tx /\ read_ranges tx' = read_ranges tx /\
  tx_status tx' = tx_status tx /\
  match r with
  | ScanWound v => v ∈ (fst <$> hs) /\ tx_id tx < v
  | ScanDone b => (forall h, h ∈ (fst <$> hs) -> h ≠ tx_id tx -> h < tx_id tx) /\
                  (b = false -> forall h, h ∈ (fst <$> hs) -> h = tx_id tx)
  end.
Proof.
  induction hs as [|[h md] hs IH]; intros tx found r tx'; simpl.
  { intros [= <- <-]. split_and!; try done; [intros h H|intros _ h H]; by apply not_elem_of_nil in H. }
  destruct (Z.eqb_spec h (tx_id tx)) as [Eh|Eh].
  - intros E. destruct (IH _ _ _ _ E) as (I1 & I2 & I3 & I4 & Hr). split_and!; try done.
    destruct r; [destruct Hr; split; [by right|done]|]. destruct Hr as [H1 H2]. split.
    + intros y [->|Hy]%elem_of_cons; [intros ?; congruence|auto].
    + intros Hb y [->|Hy]%elem_of_cons; [done|auto].
  - destruct (check (tx_id tx) h) eqn:Ec.
    + intros [= <- <-]. apply check_wound in Ec. split_and!; try done. by left.
    + intros E. destruct (IH _ _ _ _ E) as (I1 & I2 & I3 & I4 & Hr). simpl in *. split_and!; try done.
      destruct r; [destruct Hr; split; [by right|done]|]. destruct Hr as [H1 H2]. split.
      * intros y [->|Hy]%elem_of_cons; [intros _; by apply check_wait in Ec; auto|auto].
      * intros ->. by apply scan_holders_found in E.
Qed.

Lemma abort_tx_logged g x : x ∈ st_aborted (abort_tx g x).
Proof.
  unfold abort_tx, remove_active, remove_active_locked, advance_xmin, log_abort. simpl.
  case_match; simpl; set_solver.
Qed.

Lemma abort_waiter_spec m tx e m' tx' :
  abort_waiter m tx = (e, (m', tx')) ->
  e = WoundWaitErr (tx_id tx) /\ tx_status tx' = Aborted /\ held_locks tx' = [] /\
  read_ranges tx' = [] /\ tx_id tx ∉ abort_registry m' /\ tx_id tx ∈ st_aborted (global_state m').
Proof.
  unfold abort_waiter, release_held. intros [= <- <- <-]. simpl. split_and!; try done.
  - apply registry_clear_not.
  - apply abort_tx_logged.
Qed.

(** What a transaction that gives up leaves: it is aborted, in the abort log and
    out of the registry, its books are empty, and of the resources that were on
    its books it holds none it was not still queued for at that moment. *)
Definition gave_up tx m' (tx' : Transaction Mut) : Prop :=
  tx_status tx' = Aborted /\ held_locks tx' = [] /\ read_ranges tx' = [] /\
  tx_id tx ∉ abort_registry m' /\ tx_id tx ∈ st_aborted (global_state m') /\
  wound_count (wound_wait m') (tx_id tx) = 0 /\
  exists m1, table_inv (lock_table m1) /\
    forall r, r ∈ held_locks tx \/ r ∈ read_ranges tx -> ~ waits_at (lock_table m1) (tx_id tx) r ->
      ~ holds (lock_table m') (tx_id tx) r.

(** What an acquisition loop for [r] can answer: the lock is in the table and on
    the books; the transaction gave up; or a younger holder [v] was wounded and
    has lost [r] unless it was also queued for it.  Without an answer the
    request is still pending. *)
Definition outcome_ok tx (r : Z) (track : Transaction Mut -> list Z)
    (o : option (result unit TxError)) (m' : TransactionManager) (tx' : Transaction Mut) : Prop :=
  match o with
  | None => tx_status tx' = tx_status tx /\ held_locks tx' = held_locks tx /\ read_ranges tx' = read_ranges tx
  | Some (Ok _) => holds (lock_table m') (tx_id tx) r /\ r ∈ track tx' /\ tx_status tx' = tx_status tx
  | Some (Err (WoundWaitErr v)) =>
      if bool_decide (v = tx_id tx) then gave_up tx m' tx'
      else tx_id tx < v /\ v ∈ abort_registry m' /\ v ∈ st_aborted (global_state m') /\
           tx_status tx' = tx_status tx /\
           exists m1, holds (lock_table m1) v r /\
             (~ waits_at (lock_table m1) v r -> ~ holds (lock_table m') v r)
  | Some (Err _) => False
  end.

(** The other threads of one turn keep the lock table well-formed, and the wait
    channel delivers a grant only when the transaction has been made a holder. *)
Record turn_ok (x r : Z) (t : Turn) : Prop := {
  tk_check : forall m, table_inv (lock_table m) -> table_inv (lock_table (t_check t m));
  tk_scan : forall m, table_inv (lock_table m) -> table_inv (lock_table (t_scan t m));
  tk_wait : forall m, table_inv (lock_table m) -> table_inv (lock_table (t_wait t m));
  tk_recv : t_recv t = Some Granted -> forall m, table_inv (lock_table m) -> holds (lock_table (t_wait t m)) x r
}.

Lemma mark_readers_keep snap hs : forall m tx m' tx',
  mark_readers snap hs m tx = (m', tx') ->
  tx_id tx' = tx_id tx /\ tx_status tx' = tx_status tx /\ held_locks tx' = held_locks tx /\
  read_ranges tx' = read_ranges tx /\ lock_table m' = lock_table m.
Proof.
  induction hs as [|[h md] hs IH]; intros m tx m' tx'; simpl; [by intros [= <- <-]|].
  destruct (_ && _); intros H; apply IH in H; done.
Qed.

Lemma push_unique_in l r : r ∈ push_unique l r.
Proof. unfold push_unique. case_bool_decide; [done|]. set_solver. Qed.

Lemma outcome_ok_ext tx tx0 r track o m' tx' :
  tx_id tx = tx_id tx0 -> tx_status tx = tx_status tx0 ->
  held_locks tx = held_locks tx0 -> read_ranges tx = read_ranges tx0 ->
  outcome_ok tx r track o m' tx' -> outcome_ok tx0 r track o m' tx'.
Proof. intros E1 E2 E3 E4. unfold outcome_ok, gave_up. by rewrite E1, E2, E3, E4. Qed.

(** A wounded holder is marked and logged, and loses the contested resource
    unless it is also queued for it. *)
Lemma wound_victim_spec m r v :
  table_inv (lock_table m) ->
  v ∈ abort_registry (wound_victim m r v) /\ v ∈ st_aborted (global_state (wound_victim m r v)) /\
  (~ waits_at (lock_table m) v r -> ~ holds (lock_table (wound_victim m r v)) v r).
Proof.
  intros Hi. split_and!.
  - simpl. unfold mark_aborted. set_solver.
  - simpl. apply abort_tx_logged.
  - intros Hw. by apply release_frees_at.
Qed.

Lemma wound_outcome m tx tx' r v track :
  table_inv (lock_table m) -> holds (lock_table m) v r ->
  tx_id tx < v -> tx_status tx' = tx_status tx ->
  outcome_ok tx r track (Some (Err (WoundWaitErr v))) (wound_victim m r v) tx'.
Proof.
  intros Hi Hh Hlt Hst. unfold outcome_ok. rewrite bool_decide_false by lia.
  destruct (wound_victim_spec m r v Hi) as (? & ? & ?). split_and!; try done. by exists m.
Qed.

Lemma abort_outcome m tx r track e m' tx' :
  table_inv (lock_table m) ->
  abort_waiter m tx = (e, (m', tx')) -> outcome_ok tx r track (Some (Err e)) m' tx'.
Proof.
  intros Hi E. pose proof (abort_waiter_spec _ _ _ _ _ E) as (-> & S1 & S2 & S3 & S4 & S5).
  unfold outcome_ok, gave_up. rewrite bool_decide_true by done. split_and!; try done.
  - unfold abort_waiter, release_held in E. injection E as <- _. apply cleanup_no_wounds.
  - exists m. split; [done|]. intros r0 Hr Hw. unfold abort_waiter, release_held in E.
    injection E as <- _. cbn [lock_table set_ssi set_registry set_ww set_global set_locks tx_id with_status
      held_locks read_ranges].
    destruct (release_all_frees_at (held_locks tx) _ _ r0 Hi Hw) as (Hi1 & Hw1 & H1).
    destruct (release_all_frees_at (read_ranges tx) _ _ r0 Hi1 Hw1) as (_ & _ & H2).
    apply H2. destruct Hr as [Hr|Hr]; [right; apply H1; by left|by left].
Qed.

(** A grant puts the transaction among the holders. *)
Lemma try_acquire_granted t r x mode rx t' :
  table_inv t -> try_acquire t r x mode = ((Granted, rx), t') -> holds t' x r.
Proof.
  intros [Hl _] E. apply holds_entry. pose proof (try_acquire_entry t r x mode r Hl) as He.
  pose proof (try_acquire_res t r x mode) as Hr. rewrite E in He, Hr. cbn [fst snd] in He, Hr.
  rewrite decide_True in He by done. eexists. split; [exact He|].
  set (e := default entry_new (entry_of t r)) in *. unfold entry_acquire in *.
  destruct (already_holds e x mode) eqn:Ea; simpl in *.
  { apply already_holds_spec in Ea as (h & Hh & <- & _). by apply list_elem_of_fmap_2. }
  destruct (compatible_with_holders _ _ _); simpl in *; [|by destruct (existsb _ _)].
  destruct (add_holder_cases (holders_of e) x mode) as [[Hin ->]|[_ ->]]; [done|].
  rewrite fmap_app. set_solver.
Qed.

Lemma acquire_loop_outcome recheck track field r mode :
  (forall tx, r ∈ field (track tx r) /\ tx_status (track tx r) = tx_status tx) ->
  forall turns m tx o m' tx', table_inv (lock_table m) -> Forall (turn_ok (tx_id tx) r) turns ->
  acquire_loop recheck track r mode turns m tx = (o, (m', tx')) ->
  outcome_ok tx r field o m' tx'.
Proof.
  intros Htr. induction turns as [|t ts IH]; intros m tx o m' tx' Hi Ht; cbn [acquire_loop]; cbv zeta.
  { by intros [= <- <- <-]. }
  apply Forall_cons in Ht as [[Kc Ks Kw Kr] Ht].
  pose proof (try_acquire_inv (lock_table m) r (tx_id tx) mode Hi) as Hi1.
  destruct (try_acquire _ _ _ _) as [[[] rx] lt] eqn:Eq; cbn [snd] in Hi1.
  { intros [= <- <- <-]. split; [|apply Htr]. exact (try_acquire_granted _ _ _ _ _ _ Hi Eq). }
  assert (table_inv (lock_table (t_check t (set_locks m lt)))) as Hi2 by (apply Kc; exact Hi1).
  destruct (recheck && _).
  { destruct (abort_waiter _ tx) as [e [m1 tx1]] eqn:Ea. intros [= <- <- <-].
    by eapply abort_outcome. }
  set (m1 := t_scan t _). assert (table_inv (lock_table m1)) as Hi3 by (by apply Ks).
  assert (table_inv (lock_table (t_wait t m1))) as Hi4 by (by apply Kw).
  destruct (scan_holders m1 tx _ false) as [[v|[]] tx1] eqn:Es;
    apply scan_holders_spec in Es as (I1 & I2 & I3 & I4 & Hr).
  - intros [= <- <- <-]. destruct Hr as [Hv Hlt]. apply wound_outcome; [exact Hi3|exact Hv|exact Hlt|exact I4].
  - assert (forall o' ma ta,
      acquire_loop recheck track r mode ts (t_wait t m1) tx1 = (o', (ma, ta)) -> outcome_ok tx r field o' ma ta) as Hrec.
    { intros o' ma ta H. eapply outcome_ok_ext; [..|eapply IH; [| |exact H]]; try done. by rewrite I1. }
    destruct rx; [|apply Hrec]. destruct (t_recv t) as [[]|].
    + destruct (recheck && _).
      * destruct (abort_waiter _ tx1) as [e [m2 tx2]] eqn:Ea. intros [= <- <- <-].
        eapply outcome_ok_ext; [..|eapply abort_outcome; [exact Hi4|exact Ea]]; done.
      * intros [= <- <- <-]. destruct (Htr tx1) as [H1 H2]. split; [by apply Kr|]. split; [done|congruence].
    + apply Hrec.
    + destruct (registry_is_aborted _ _); [|apply Hrec].
      destruct (abort_waiter _ tx1) as [e [m2 tx2]] eqn:Ea. intros [= <- <- <-].
      eapply outcome_ok_ext; [..|eapply abort_outcome; [exact Hi4|exact Ea]]; done.
  - intros H. eapply outcome_ok_ext; [..|eapply IH; [| |exact H]]; try done. by rewrite I1.
Qed.


(** *** Cycles of waiting transactions *)

(** [x] is queued for a resource [y] holds. *)
Definition waits_for (t : LockTable) (x y : Z) : Prop :=
  exists r, waits_at t x r /\ holds t y r /\ x ≠ y.

(** Somewhere on a path that does not end lower than it starts, an older
    transaction waits for a younger one. *)
Lemma path_ascends (R : relation Z) : (forall a b, R a b -> a ≠ b) ->
  forall a b, tc R a b -> a <= b ->
  exists c d, R c d /\ c < d /\ (c = a \/ tc R a c) /\ (d = b \/ tc R d b).
Proof.
  intros Hirr. induction 1 as [a b H|a b c H Hbc IH]; intros Hle.
  - exists a, b. pose proof (Hirr _ _ H). split; [done|]. split; [lia|]. by split; left.
  - destruct (decide (a < b)) as [Hlt|Hge].
    + exists a, b. split; [done|]. split; [done|]. split; [by left|by right].
    + destruct IH as (u & v & Huv & Hlt & Hu & Hv); [lia|]. exists u, v. split; [done|]. split; [done|].
      split; [|done]. right. destruct Hu as [->|Hu]; [by apply tc_once|by eapply tc_l].
Qed.

Lemma cycle_ascends (R : relation Z) x : (forall a b, R a b -> a ≠ b) -> tc R x x ->
  exists c d, R c d /\ c < d /\ tc R c c.
Proof.
  intros Hirr Hx. destruct (path_ascends R Hirr x x Hx) as (c & d & Hcd & Hlt & Hc & Hd); [lia|].
  exists c, d. split; [done|]. split; [done|].
  assert (tc R d x) as Hdx by (destruct Hd as [->|Hd]; [done|done]).
  destruct Hc as [->|Hc]; [by eapply tc_l|].
  eapply tc_l; [exact Hcd|]. by eapply tc_transitive.
Qed.

(** A queued transaction that asks again is not queued twice: the table answers
    from the same entry. *)
Lemma retry_holders t r x mode res rx t' :
  table_inv t -> waits_at t x r -> try_acquire t r x mode = ((res, rx), t') ->
  res = Granted \/ holders t' r = holders t r.
Proof.
  intros [Hl _] (e & He & Hx) E. pose proof (try_acquire_entry t r x mode r Hl) as He'.
  pose proof (try_acquire_res t r x mode) as Hr. rewrite E in He', Hr. cbn [fst snd] in He', Hr.
  rewrite decide_True in He' by done. rewrite He in He', Hr. cbn [default id] in He', Hr.
  unfold entry_acquire in *. destruct (already_holds e x mode); simpl in *; [left; congruence|].
  destruct (compatible_with_holders _ _ _); simpl in *; [left; congruence|].
  apply is_waiting_spec in Hx. rewrite Hx in He'. simpl in He'.
  right. unfold holders. fold (entry_of t' r) (entry_of t r). by rewrite He', He.
Qed.

Lemma retry_waits t r x y mode res rx t' :
  table_inv t -> waits_at t x r -> try_acquire t r x mode = ((res, rx), t') ->
  y ≠ x -> waits_at t' y r -> waits_at t y r.
Proof.
  intros [Hl _] (e & He & Hx) E Hne (e' & He' & Hy). exists e. split; [done|].
  pose proof (try_acquire_entry t r x mode r Hl) as H. rewrite E in H. cbn [snd] in H.
  rewrite decide_True, He, He' in H by done. cbn [default id] in H. injection H as ->.
  unfold entry_acquire in Hy. destruct (already_holds e x mode); simpl in Hy; [done|].
  destruct (compatible_with_holders _ _ _); simpl in Hy; [done|].
  apply is_waiting_spec in Hx. by rewrite Hx in Hy.
Qed.

(** C23 (no lasting deadlock).  Transactions can be parked in a cycle, because
    the lock table admits a younger reader past a queued older writer.  In any
    such cycle of the table some transaction [w] is queued for a resource held
    by a younger one, and when its wait times out and it asks again, with no
    other thread in between, it either gets the lock or wounds a holder [v]
    younger than itself, which loses the resource (unless also queued for it)
    and is marked: the next lock [v] asks for with [acquire_lock] aborts it and
    empties its books. *)
Theorem wait_cycle_is_broken m (x : Z) :
  table_inv (lock_table m) -> tc (waits_for (lock_table m)) x x ->
  exists w y r, tc (waits_for (lock_table m)) w w /\ waits_at (lock_table m) w r /\
    holds (lock_table m) y r /\ w < y /\
    forall recheck track mode t ts tx, tx_id tx = w -> w ∉ abort_registry m ->
      t_check t = id -> t_scan t = id ->
      (exists m' tx', acquire_loop recheck track r mode (t :: ts) m tx = (Some (Ok tt), (m', tx')) /\
         holds (lock_table m') w r) \/
      exists v m' tx', acquire_loop recheck track r mode (t :: ts) m tx = (Some (Err (WoundWaitErr v)), (m', tx')) /\
        w < v /\ holds (lock_table m) v r /\
        (~ waits_at (lock_table m) v r -> ~ holds (lock_table m') v r) /\
        forall (txv : Transaction Mut) r' mode' turns, tx_id txv = v -> tx_status txv = Active ->
          exists s, acquire_lock m' txv r' mode' turns = (Some (Err (WoundWaitErr v)), s) /\
            tx_status s.2 = Aborted /\ held_locks s.2 = [] /\ read_ranges s.2 = [].
Proof.
  intros Hi Hx. destruct (cycle_ascends (waits_for (lock_table m)) x) as (w & y & (r & Hw & Hy & _) & Hlt & Hc);
    [by intros a b (r & _ & _ & ?)|done|].
  exists w, y, r. split; [done|]. split; [done|]. split; [done|]. split; [done|].
  intros recheck track mode t ts tx <- Hreg Ec Es. cbn [acquire_loop]. cbv zeta.
  pose proof (try_acquire_inv (lock_table m) r (tx_id tx) mode Hi) as Hi1.
  destruct (try_acquire _ _ _ _) as [[[] rx] lt] eqn:Eq; cbn [snd] in Hi1.
  { left. eexists _, _. split; [reflexivity|]. exact (try_acquire_granted _ _ _ _ _ _ Hi Eq). }
  right. destruct (retry_holders _ _ _ _ _ _ _ Hi Hw Eq) as [|Eh]; [done|].
  rewrite Ec, Es. unfold id. unfold registry_is_aborted. cbn [abort_registry set_locks].
  rewrite bool_decide_false by done. rewrite andb_false_r.
  destruct (scan_holders _ tx _ false) as [res tx1] eqn:E.
  apply scan_holders_spec in E as (_ & _ & _ & _ & H). cbn [lock_table set_locks] in H. rewrite Eh in H.
  destruct res as [v|b].
  2:{ destruct H as [H _]. specialize (H y Hy). lia. }
  destruct H as [Hv Hlt']. exists v, (wound_victim (set_locks m lt) r v), tx1. split; [done|].
  split; [done|]. split; [exact Hv|].
  destruct (wound_victim_spec (set_locks m lt) r v Hi1) as (Hreg' & _ & Hfree). split.
  - intros Hnw. apply Hfree. intros (e & He & Hin). apply Hnw.
    by apply (retry_waits _ _ _ _ _ _ _ _ Hi Hw Eq); [lia|exists e].
  - intros txv r' mode' turns <- Ha. unfold acquire_lock, tx_is_active. rewrite bool_decide_true by done. cbn [negb].
    unfold registry_is_aborted. rewrite bool_decide_true by done.
    destruct (abort_waiter _ txv) as [e s] eqn:Ea. exists s. destruct s as [m2 tx2].
    apply abort_waiter_spec in Ea as (-> & ? & ? & ? & _). done.
Qed.
End Acquire.

(** ** Wounded transactions *)

Section Wounded.
Context {Mut : Type} `{CS : Checksums} {W : Type} `{WL : WalLog W}.
Implicit Types (m : TransactionManager) (tx : Transaction Mut) (w : W).

Lemma remove_active_aborted g x : st_aborted (remove_active g x) = st_aborted g.
Proof. unfold remove_active, remove_active_locked, advance_xmin. simpl. by case_match. Qed.

(** [commit] does not consult the abort registry: a
    transaction that an older one has wounded - marked for abort, entered in
    the abort log, its contested lock handed on - still commits when the log
    works.  Its commit record is durable while every snapshot treats it as
    aborted. *)
Theorem wounded_transaction_commits m tx w w1 w2 (resource now l : Z) :
  tx_status tx = Active -> tx_isolation tx <> Serializable ->
  wal_append (record_new RtCommit (tx_id tx) 0 0 [] now) w = (Ok l, w1) -> wal_flush w1 = (Ok tt, w2) ->
  let mw := wound_victim m resource (tx_id tx) in
  exists m' tx', commit mw tx w now = (Ok tt, (m', tx', w2)) /\
    tx_status tx' = Committed /\ tx_id tx ∈ abort_registry m' /\
    tx_id tx ∈ st_aborted (global_state m').
Proof.
  intros Ha Hi E1 E2 mw. unfold commit, tx_is_active. rewrite bool_decide_true by done. cbn [negb].
  rewrite bool_decide_false by done. rewrite E1, E2. cbn [andb].
  eexists _, _. split; [reflexivity|]. split; [done|]. split.
  - simpl. unfold mark_aborted. set_solver.
  - simpl. unfold commit_tx. rewrite remove_active_aborted. apply abort_tx_logged.
Qed.

(** The wound counter never exceeds one: the callback run by [record_wound]
    deletes the victim's counter just before it is incremented.  Three wounds,
    the documented threshold of immunity, are never counted. *)
Theorem wound_counts_never_accumulate m (resource v x : Z) :
  wound_count (wound_wait (wound_victim m resource v)) v = 1 /\
  (x <> v -> wound_count (wound_wait (wound_victim m resource v)) x = wound_count (wound_wait m) x) /\
  is_immune (wound_wait (wound_victim m resource v)) v = false.
Proof.
  assert (wound_count (wound_wait (wound_victim m resource v)) v = 1) as E.
  { unfold wound_count, wound_victim, record_wound.
    cbn [wound_wait set_ww set_ssi set_global set_locks set_registry].
    rewrite lookup_insert_eq. unfold ww_cleanup. rewrite lookup_delete_eq. reflexivity. }
  split; [done|]. split.
  - intros Hne. unfold wound_count, wound_victim, record_wound.
    cbn [wound_wait set_ww set_ssi set_global set_locks set_registry].
    rewrite lookup_insert_ne by done. unfold ww_cleanup. by rewrite lookup_delete_ne.
  - unfold is_immune. by rewrite E.
Qed.
End Wounded.

(** ** Concrete runs *)

Section Runs.
#[local] Existing Instance additive_checksums.

Definition idle : Turn := mkTurn id id None id.
Definition tx1_of : Transaction unit * TransactionManager := begin tm_new.
Definition tx2_of : Transaction unit * TransactionManager := begin tx1_of.2.
Definition tx3_of : Transaction unit * TransactionManager := begin tx2_of.2.
Definition fresh_log : WalWriter * World :=
  (fresh_writer, mkWorld {[ live_seg 0 := mkFile [] [] ]} []).

Lemma fresh_log_ok : writer_ok fresh_log.
Proof.
  exists (mkHist [] []), (mkFile [] []), [], [], [], []. split; try done;
    try apply Forall_nil_2; try (split; vm_compute; congruence).
Qed.

Lemma fresh_books : books_ok tx1_of.2 tx1_of.1.
Proof.
  assert (lock_table tx1_of.2 = table_new) as E by reflexivity. unfold books_ok. rewrite E.
  split; [apply table_new_inv|]. split.
  - intros r e. by rewrite entry_of_new.
  - intros r (e & He & _)%holds_entry. by rewrite entry_of_new in He.
Qed.


Lemma rollback_contract_witness :
  exists m' tx' w', rollback tx1_of.2 tx1_of.1 fresh_log 0 = (Ok tt, (m', tx', w')) /\
    tx_status tx' = Aborted.
Proof.
  destruct (rollback_contract tx1_of.2 tx1_of.1 fresh_log 0) as (res & m' & tx' & w' & E & _ & _ & H).
  - split; vm_compute; congruence.
  - exact fresh_log_ok.
  - exact fresh_books.
  - rewrite decide_True in H by (vm_compute; reflexivity). destruct H as (-> & H & _).
    exists m', tx', w'. split; [exact E|exact (rb_status _ _ _ _ H)].
Defined.

(** Transaction 2 takes [Exclusive] on resource 7; transaction 1, older, asks
    for it. *)
Definition wound_setup : TransactionManager * Transaction unit :=
  (acquire_lock tx2_of.2 tx2_of.1 7 Exclusive [idle]).2.
Definition wound_run : option (result unit TxError) * (TransactionManager * Transaction unit) :=
  acquire_lock wound_setup.1 tx1_of.1 7 Exclusive [idle].

(** Transaction 1 reads 7, 2 writes 8 and queues for 7, then 3 reads 7 beside 1
    and queues for 8: 2 waits for 3 and 3 for 2. *)
Definition cycle_step (s : TransactionManager * list (Transaction unit)) (i : nat) (r : Z) (mode : LockMode) :
    TransactionManager * list (Transaction unit) :=
  match s.2 !! i with
  | Some tx => let '(_, (m, tx)) := acquire_lock s.1 tx r mode [idle] in (m, <[i := tx]> s.2)
  | None => s
  end.
Definition cycle_run : TransactionManager * list (Transaction unit) :=
  let s := (tx3_of.2, [tx1_of.1; tx2_of.1; tx3_of.1]) in
  let s := cycle_step s 0 7 Shared in
  let s := cycle_step s 1 8 Exclusive in
  let s := cycle_step s 1 7 Exclusive in
  let s := cycle_step s 2 7 Shared in
  cycle_step s 2 8 Exclusive.

Lemma cycle_table : lock_table cycle_run.1 =
  foldl lock_op table_new [OpAcquire 7 1 Shared; OpAcquire 8 2 Exclusive; OpAcquire 7 2 Exclusive;
    OpAcquire 7 3 Shared; OpAcquire 8 3 Exclusive].
Proof. vm_compute. reflexivity. Qed.

(** A cycle of parked transactions is reachable through [acquire_lock]. *)
Theorem parked_cycle_reachable :
  waits_for (lock_table cycle_run.1) 2 3 /\ waits_for (lock_table cycle_run.1) 3 2 /\
  tx_status <$> cycle_run.2 = [Active; Active; Active].
Proof.
  split; [|split; [|vm_compute; reflexivity]].
  - exists 7. split; [|split; [|lia]].
    + eexists. split; [vm_compute; reflexivity|]. vm_compute. repeat constructor.
    + unfold holds. vm_compute. repeat constructor.
  - exists 8. split; [|split; [|lia]].
    + eexists. split; [vm_compute; reflexivity|]. vm_compute. repeat constructor.
    + unfold holds. vm_compute. repeat constructor.
Qed.

Lemma wait_cycle_is_broken_witness : exists w y r, w < y /\ holds (lock_table cycle_run.1) y r /\
  waits_at (lock_table cycle_run.1) w r.
Proof.
  destruct (wait_cycle_is_broken (Mut := unit) cycle_run.1 2) as (w & y & r & _ & H1 & H2 & H3 & _).
  - rewrite cycle_table. apply lock_ops_inv, table_new_inv.
  - destruct parked_cycle_reachable as (A & B & _). eapply tc_l; [exact A|]. by apply tc_once.
  - exists w, y, r. split; [exact H3|]. split; [exact H2|exact H1].
Defined.

Lemma idle_ok x r : turn_ok x r idle.
Proof. by split. Qed.


(** Giving up does not take a transaction out of the queue it was waiting in.
    Transaction 3 is queued for 8 behind 2 and wounded on 7 by 1; it aborts,
    and when 2 commits, the lock on 8 goes to the finished transaction 3: a
    later request for it is still waiting after eight retries. *)
Definition queue_step2 : TransactionManager * list (Transaction unit) :=
  let s := (tx3_of.2, [tx1_of.1; tx2_of.1; tx3_of.1]) in
  let s := cycle_step s 1 8 Exclusive in
  let s := cycle_step s 2 7 Exclusive in
  let s := cycle_step s 2 8 Exclusive in
  let s := cycle_step s 0 7 Exclusive in
  cycle_step s 2 8 Exclusive.

Theorem aborted_waiter_gets_lock :
  tx_status <$> queue_step2.2 = [Active; Active; Aborted] /\
  match queue_step2.2 !! 1%nat with
  | Some tx2 =>
      let '(res, (m, _, _)) := commit queue_step2.1 tx2 fresh_log 0 in
      res = Ok tt /\ holders (lock_table m) 8 = [(3, Exclusive)] /\
      let '(tx4, m4) := begin m : Transaction unit * TransactionManager in
      (acquire_lock m4 tx4 8 Shared [idle; idle; idle; idle; idle; idle; idle; idle]).1 = None
  | None => False
  end.
Proof. vm_compute. split_and!; reflexivity. Qed.

Lemma wounded_transaction_commits_witness :
  exists m' tx' w2, commit (wound_victim wound_setup.1 7 2) wound_setup.2 fresh_log 0
      = (Ok tt, (m', tx', w2)) /\ 2 ∈ st_aborted (global_state m').
Proof.
  pose (a := wal_append (record_new RtCommit 2 0 0 [] 0) fresh_log).
  pose (b := wal_flush a.2).
  destruct (wounded_transaction_commits wound_setup.1 wound_setup.2 fresh_log a.2 b.2 7 0 1)
    as (m' & tx' & H1 & _ & _ & H2).
  - reflexivity.
  - discriminate.
  - vm_compute. reflexivity.
  - vm_compute. reflexivity.
  - exists m', tx', b.2. split; [exact H1|exact H2].
Defined.

(** The requester that wounds a holder gets the lock through the wait queue but
    is told [WoundWait], without the lock on its books: when it rolls back the
    lock stays with it, and a later request for the resource is still queued
    behind the finished transaction after eight retries. *)
Theorem wounding_requester_leaks_lock :
  wound_run.1 = Some (Err (WoundWaitErr 2)) /\ held_locks wound_run.2.2 = [] /\
  let '(res, (m, tx, _)) := rollback wound_run.2.1 wound_run.2.2 fresh_log 0 in
  res = Ok tt /\ tx_status tx = Aborted /\ holders (lock_table m) 7 = [(1, Exclusive)] /\
  let '(tx3, m3) := begin m : Transaction unit * TransactionManager in
  (acquire_lock m3 tx3 7 Shared [idle; idle; idle; idle; idle; idle; idle; idle]).1 = None.
Proof. vm_compute. split_and!; reflexivity. Qed.
End Runs.
