(* ===== verification/ValueCodec.v ===== *)
(** * Order-preserving value codec ([src/index/value_codec.rs])

    Property values are encoded to byte strings whose lexicographic order is
    the order of the values.  An [f64] is its 64-bit pattern. *)

From stdpp Require Import prelude list.
From Stdlib Require Import ZArith Lia.
From S2P Require Import Prelude Bytes.

Inductive ValueType := VtNull | VtBool | VtInt64 | VtFloat64 | VtString | VtList | VtMap.

Inductive Value :=
| VNull
| VBool (b : bool)
| VInt64 (v : Z)
| VFloat64 (ordered : Z)
| VString (bytes : list Z)
| VList (bytes : list Z)
| VMap (bytes : list Z).

Definition MAX_ENCODED_LEN : nat := 512.
Definition SIGN_BIT : Z := 0x8000000000000000.

(** [as u64] and [as i64]. *)
Definition i64_as_u64 (v : Z) : Z := wrap 64 v.
Definition u64_as_i64 (v : Z) : Z := if v <? 2 ^ 63 then v else v - 2 ^ 64.

Definition order_i64 (v : Z) : Z := Z.lxor (i64_as_u64 v) SIGN_BIT.
Definition unorder_i64 (v : Z) : Z := u64_as_i64 (Z.lxor v SIGN_BIT).

(** [!bits] on a [u64]. *)
Definition not_u64 (v : Z) : Z := U64_MAX - v.

Definition order_f64_bits (bits : Z) : Z :=
  if negb (Z.land bits SIGN_BIT =? 0) then not_u64 bits else Z.lxor bits SIGN_BIT.
Definition unorder_f64_bits (bits : Z) : Z :=
  if negb (Z.land bits SIGN_BIT =? 0) then Z.lxor bits SIGN_BIT else not_u64 bits.

(** [f64::is_nan] on the bit pattern. *)
Definition is_nan_bits (bits : Z) : bool := 0x7FF0000000000000 <? Z.land bits 0x7FFFFFFFFFFFFFFF.

Definition from_f64 (bits : Z) : Value :=
  VFloat64 (order_f64_bits (if is_nan_bits bits then 0x7FF8000000000000 else bits)).
Definition to_f64 (v : Value) : option Z :=
  match v with VFloat64 o => Some (unorder_f64_bits o) | _ => None end.

Definition tag_of (v : Value) : Z :=
  match v with
  | VNull => 0 | VBool _ => 1 | VInt64 _ => 2 | VFloat64 _ => 3
  | VString _ => 4 | VList _ => 5 | VMap _ => 6
  end.

(** Escaping of one byte in strings, lists and maps. *)
Definition escape (b : Z) : list Z :=
  if b =? 0x00 then [0x00; 0xFF] else if b =? 0xFF then [0xFF; 0x00] else [b].

Definition terminated (bytes : list Z) : list Z :=
  concat (escape <$> take (Z.to_nat U16_MAX) bytes) ++ [0x00].

Definition encode_value (v : Value) : list Z :=
  tag_of v ::
  match v with
  | VNull => []
  | VBool b => [if b then 0x01 else 0x00]
  | VInt64 v => to_be 8 (order_i64 v)
  | VFloat64 o => to_be 8 o
  | VString bytes | VList bytes | VMap bytes => terminated bytes
  end.

(** [encode]: append, or leave [out] as it was when the value is too long. *)
Definition encode (v : Value) (out : list Z) : option nat * list Z :=
  let appended := length (encode_value v) in
  if (MAX_ENCODED_LEN <? appended)%nat then (None, out)
  else (Some appended, out ++ encode_value v).

Fixpoint decode_terminated (data : list Z) : option (list Z * nat) :=
  match data with
  | [] => None
  | b :: rest =>
      let plain :=
        if b =? 0x00 then Some ([], 1%nat)
        else (fun '(out, n) => (b :: out, S n)) <$> decode_terminated rest in
      match rest with
      | c :: rest' =>
          if (b =? 0x00) && (c =? 0xFF) then
            (fun '(out, n) => (0x00 :: out, S (S n))) <$> decode_terminated rest'
          else if (b =? 0xFF) && (c =? 0x00) then
            (fun '(out, n) => (0xFF :: out, S (S n))) <$> decode_terminated rest'
          else plain
      | [] => plain
      end
  end.

Definition decode (data : list Z) : option (Value * nat) :=
  match data with
  | [] => None
  | tag :: rest =>
      if tag =? 0 then Some (VNull, 1%nat)
      else if tag =? 1 then
        match rest with [] => None | b :: _ => Some (VBool (negb (b =? 0)), 2%nat) end
      else if tag =? 2 then
        if (length data <? 1 + 8)%nat then None
        else Some (VInt64 (unorder_i64 (from_be (slice data 1 9))), 9%nat)
      else if tag =? 3 then
        if (length data <? 1 + 8)%nat then None
        else Some (VFloat64 (from_be (slice data 1 9)), 9%nat)
      else if tag =? 4 then (fun '(b, n) => (VString b, S n)) <$> decode_terminated rest
      else if tag =? 5 then (fun '(b, n) => (VList b, S n)) <$> decode_terminated rest
      else if tag =? 6 then (fun '(b, n) => (VMap b, S n)) <$> decode_terminated rest
      else None
  end.

(** [i64::from_be_bytes]. *)
Definition encode_property_value (ty : ValueType) (payload : list Z) : option (list Z) :=
  value ← match ty with
    | VtNull => Some VNull
    | VtBool => match payload with [] => None | b :: _ => Some (VBool (negb (b =? 0))) end
    | VtInt64 => if (length payload <? 8)%nat then None
                 else Some (VInt64 (u64_as_i64 (from_be (slice payload 0 8))))
    | VtFloat64 => if (length payload <? 8)%nat then None
                   else Some (VFloat64 (order_f64_bits (from_be (slice payload 0 8))))
    | VtString => Some (VString payload)
    | VtList => Some (VList payload)
    | VtMap => Some (VMap payload)
    end;
  match encode value [] with
  | (Some _, buf) => Some buf
  | (None, _) => None
  end.

(** ** The order of values

    The derived [Ord] of [Value]: by constructor, then by contents. *)

Definition bool_cmp (a b : bool) : comparison :=
  match a, b with false, true => Lt | true, false => Gt | _, _ => Eq end.

Definition value_cmp (a b : Value) : comparison :=
  match a, b with
  | VNull, VNull => Eq
  | VBool x, VBool y => bool_cmp x y
  | VInt64 x, VInt64 y => Z.compare x y
  | VFloat64 x, VFloat64 y => Z.compare x y
  | VString x, VString y | VList x, VList y | VMap x, VMap y => bytes_cmp x y
  | _, _ => Z.compare (tag_of a) (tag_of b)
  end.

Definition value_ok (v : Value) : Prop :=
  match v with
  | VNull | VBool _ => True
  | VInt64 x => - 2 ^ 63 <= x < 2 ^ 63
  | VFloat64 o => is_u64 o
  | VString b | VList b | VMap b => bytes_ok b /\ Z.of_nat (length b) <= U16_MAX
  end.

(** ** Sign-bit arithmetic *)

Lemma land_sign_low u : 0 <= u < 2 ^ 63 -> Z.land u SIGN_BIT = 0.
Proof.
  intros Hu. change SIGN_BIT with (2 ^ 63). apply Z.bits_inj'. intros k Hk.
  rewrite Z.bits_0, Z.land_spec. destruct (Z.eq_dec k 63) as [->|Hne].
  - by rewrite (uint_bits_high 63) by (unfold uint; lia).
  - by rewrite Z.pow2_bits_false, andb_false_r.
Qed.

Lemma lxor_sign u :
  is_u64 u -> Z.lxor u SIGN_BIT = if u <? 2 ^ 63 then u + 2 ^ 63 else u - 2 ^ 63.
Proof.
  assert (forall v, 0 <= v < 2 ^ 63 -> Z.lxor v SIGN_BIT = v + 2 ^ 63) as Hlow.
  { intros v Hv. change (2 ^ 63) with SIGN_BIT. symmetry. apply Z.add_nocarry_lxor.
    by apply land_sign_low. }
  intros Hu. unfold uint in Hu. destruct (Z.ltb_spec u (2 ^ 63)); [apply Hlow; lia|].
  assert (u = Z.lxor (u - 2 ^ 63) SIGN_BIT) as E by (rewrite Hlow; lia).
  rewrite E at 1. rewrite Z.lxor_assoc, Z.lxor_nilpotent, Z.lxor_0_r. done.
Qed.

Lemma land_sign u : is_u64 u -> negb (Z.land u SIGN_BIT =? 0) = (2 ^ 63 <=? u).
Proof.
  intros Hu. unfold uint in Hu. destruct (Z.leb_spec (2 ^ 63) u) as [H|H].
  - apply negb_true_iff, Z.eqb_neq, land_nonzero_bit; [lia|]. exists 63.
    split; [lia|]. split; [|done].
    assert (u = Z.lxor (u - 2 ^ 63) SIGN_BIT) as E.
    { rewrite lxor_sign by (unfold uint; lia). destruct (Z.ltb_spec (u - 2 ^ 63) (2 ^ 63)); lia. }
    rewrite E, Z.lxor_spec, (uint_bits_high 63) by (unfold uint; lia). done.
  - apply negb_false_iff, Z.eqb_eq, land_sign_low. lia.
Qed.

Lemma order_i64_eq v : - 2 ^ 63 <= v < 2 ^ 63 -> order_i64 v = v + 2 ^ 63.
Proof.
  intros Hv. unfold order_i64, i64_as_u64. rewrite lxor_sign by (apply wrap_range; lia).
  unfold wrap. destruct (Z.lt_ge_cases v 0).
  - rewrite <- (Z.mod_add v 1) by lia. rewrite Z.mod_small by lia.
    destruct (Z.ltb_spec (v + 1 * 2 ^ 64) (2 ^ 63)); lia.
  - rewrite Z.mod_small by lia. destruct (Z.ltb_spec v (2 ^ 63)); lia.
Qed.

Lemma unorder_order_i64 v : - 2 ^ 63 <= v < 2 ^ 63 -> unorder_i64 (order_i64 v) = v.
Proof.
  intros Hv. rewrite order_i64_eq by done. unfold unorder_i64, u64_as_i64.
  rewrite lxor_sign by (unfold uint; lia).
  destruct (Z.ltb_spec (v + 2 ^ 63) (2 ^ 63)).
  - destruct (Z.ltb_spec (v + 2 ^ 63 + 2 ^ 63) (2 ^ 63)); lia.
  - destruct (Z.ltb_spec (v + 2 ^ 63 - 2 ^ 63) (2 ^ 63)); lia.
Qed.

(** IEEE-754 bits as a signed rank: negative numbers count down from -1. *)
Definition f64_rank (bits : Z) : Z := if bits <? 2 ^ 63 then bits else 2 ^ 63 - 1 - bits.

Lemma order_f64_bits_rank b : is_u64 b -> order_f64_bits b = f64_rank b + 2 ^ 63.
Proof.
  intros Hb. unfold order_f64_bits, f64_rank, not_u64, U64_MAX.
  rewrite land_sign, lxor_sign by done. unfold uint in Hb.
  destruct (Z.leb_spec (2 ^ 63) b), (Z.ltb_spec b (2 ^ 63)); lia.
Qed.

Lemma unorder_order_f64 b : is_u64 b -> unorder_f64_bits (order_f64_bits b) = b.
Proof.
  intros Hb. assert (is_u64 (order_f64_bits b)) as Ho.
  { rewrite order_f64_bits_rank by done. unfold uint, f64_rank in *.
    destruct (Z.ltb_spec b (2 ^ 63)); lia. }
  unfold unorder_f64_bits, not_u64, U64_MAX. rewrite land_sign, lxor_sign by done.
  rewrite order_f64_bits_rank by done. unfold uint, f64_rank in *.
  destruct (Z.ltb_spec b (2 ^ 63)).
  - destruct (Z.leb_spec (2 ^ 63) (b + 2 ^ 63)), (Z.ltb_spec (b + 2 ^ 63) (2 ^ 63)); lia.
  - destruct (Z.leb_spec (2 ^ 63) (2 ^ 63 - 1 - b + 2 ^ 63)); lia.
Qed.

(** ** Escaped strings *)

Definition escaped (b : list Z) : list Z := concat (escape <$> b).

Lemma terminated_eq b : Z.of_nat (length b) <= U16_MAX -> terminated b = escaped b ++ [0].
Proof. intros H. unfold terminated, escaped. rewrite take_ge; [done|]. unfold U16_MAX in *. lia. Qed.

(** The byte after an escaped string's terminator must not look like the second
    half of an escape. *)
Definition not_escape_tail (s : list Z) : Prop := head s <> Some 0xFF.

Ltac byte_cmp :=
  repeat match goal with
  | |- context [?x ?= ?y] => destruct (Z.compare_spec x y); try done; try lia
  end.

Lemma escape_head z : exists l, escape z = z :: l.
Proof.
  unfold escape. destruct (Z.eqb_spec z 0) as [->|]; [eauto|].
  destruct (Z.eqb_spec z 255) as [->|]; eauto.
Qed.

Lemma escaped_cons z l : escaped (z :: l) = escape z ++ escaped l.
Proof. done. Qed.

Lemma escaped_cmp a : forall b s t,
  bytes_ok a -> bytes_ok b -> bytes_ok s -> bytes_ok t ->
  not_escape_tail s -> not_escape_tail t ->
  bytes_cmp (escaped a ++ 0 :: s) (escaped b ++ 0 :: t) =
    match bytes_cmp a b with Eq => bytes_cmp s t | c => c end.
Proof.
  induction a as [|x a IH]; intros [|y b] s t Ha Hb Hs Ht Ns Nt.
  - done.
  - apply Forall_cons in Hb as [Hy _]. unfold uint in Hy.
    unfold escaped. cbn [fmap list_fmap concat app bytes_cmp]. unfold escape.
    destruct (Z.eqb_spec y 0) as [->|]; [|destruct (Z.eqb_spec y 255) as [->|]]; cbn [app bytes_cmp].
    + rewrite Z.compare_refl. destruct s as [|c s]; [done|]. cbn [bytes_cmp].
      apply Forall_cons in Hs as [Hc _]. unfold uint in Hc. unfold not_escape_tail in Ns. simpl in Ns.
      assert (c <> 255) by congruence. byte_cmp.
    + done.
    + byte_cmp.
  - apply Forall_cons in Ha as [Hx _]. unfold uint in Hx.
    unfold escaped. cbn [fmap list_fmap concat app bytes_cmp]. unfold escape.
    destruct (Z.eqb_spec x 0) as [->|]; [|destruct (Z.eqb_spec x 255) as [->|]]; cbn [app bytes_cmp].
    + rewrite Z.compare_refl. destruct t as [|c t]; [done|]. cbn [bytes_cmp].
      apply Forall_cons in Ht as [Hc _]. unfold uint in Hc. unfold not_escape_tail in Nt. simpl in Nt.
      assert (c <> 255) by congruence. byte_cmp.
    + done.
    + byte_cmp.
  - apply Forall_cons in Ha as [Hx Ha]. apply Forall_cons in Hb as [Hy Hb].
    rewrite !escaped_cons, <- !app_assoc. cbn [bytes_cmp]. destruct (Z.compare_spec x y) as [->|Hlt|Hgt].
    + rewrite bytes_cmp_app_l. by apply IH.
    + destruct (escape_head x) as [l1 ->], (escape_head y) as [l2 ->]. simpl. byte_cmp.
    + destruct (escape_head x) as [l1 ->], (escape_head y) as [l2 ->]. simpl. byte_cmp.
Qed.

Lemma decode_terminated_escaped a s :
  bytes_ok a -> not_escape_tail s ->
  decode_terminated (escaped a ++ 0 :: s) = Some (a, S (length (escaped a))).
Proof.
  intros Ha Hs. induction a as [|x a IH].
  - unfold escaped. simpl. destruct s as [|c s]; [done|].
    destruct (Z.eqb_spec c 255) as [->|]; [done|]. done.
  - apply Forall_cons in Ha as [Hx Ha]. specialize (IH Ha). rewrite escaped_cons.
    unfold escape. destruct (Z.eqb_spec x 0) as [->|]; [|destruct (Z.eqb_spec x 255) as [->|]].
    + cbn [app decode_terminated]. change (0 =? 0) with true. change (255 =? 255) with true.
      cbn [andb]. rewrite IH. done.
    + cbn [app decode_terminated]. change (255 =? 0) with false. change (255 =? 255) with true.
      change (0 =? 0) with true. cbn [andb]. rewrite IH. done.
    + cbn [app]. remember (escaped a ++ 0 :: s) as rest. cbn [decode_terminated].
      rewrite (proj2 (Z.eqb_neq x 0)), (proj2 (Z.eqb_neq x 255)) by done. cbn [andb]. rewrite IH.
      destruct rest; done.
Qed.

Lemma value_order_suffix a b s t :
  value_ok a -> value_ok b -> bytes_ok s -> bytes_ok t -> not_escape_tail s -> not_escape_tail t ->
  bytes_cmp (encode_value a ++ s) (encode_value b ++ t) =
    match value_cmp a b with Eq => bytes_cmp s t | c => c end.
Proof.
  assert (forall x, - 2 ^ 63 <= x < 2 ^ 63 -> is_u64 (order_i64 x)) as Hord.
  { intros x Hx. rewrite order_i64_eq by done. unfold uint. lia. }
  intros Ha Hb Hs Ht Ns Nt. destruct a, b; cbn [value_ok] in Ha, Hb;
    unfold encode_value; cbn [tag_of app bytes_cmp value_cmp]; try done.
  - by destruct b, b0.
  - rewrite Z.compare_refl, bytes_cmp_app by (by rewrite !length_to_be).
    rewrite bytes_cmp_to_be by auto. rewrite !order_i64_eq by done.
    replace (v + 2 ^ 63 ?= v0 + 2 ^ 63) with (v ?= v0); [done|].
    destruct (Z.compare_spec v v0), (Z.compare_spec (v + 2 ^ 63) (v0 + 2 ^ 63)); done || lia.
  - rewrite Z.compare_refl, bytes_cmp_app by (by rewrite !length_to_be).
    rewrite bytes_cmp_to_be by auto. done.
  - destruct Ha, Hb. rewrite Z.compare_refl, !terminated_eq, <- !app_assoc by done.
    by apply escaped_cmp.
  - destruct Ha, Hb. rewrite Z.compare_refl, !terminated_eq, <- !app_assoc by done.
    by apply escaped_cmp.
  - destruct Ha, Hb. rewrite Z.compare_refl, !terminated_eq, <- !app_assoc by done.
    by apply escaped_cmp.
Qed.

Lemma value_roundtrip_suffix v s :
  value_ok v -> not_escape_tail s ->
  decode (encode_value v ++ s) = Some (v, length (encode_value v)).
Proof.
  intros Hv Ns. destruct v; cbn [value_ok] in Hv; unfold encode_value; cbn [tag_of app].
  - done.
  - by destruct b.
  - assert (is_u64 (order_i64 v)) by (rewrite order_i64_eq by done; unfold uint; lia).
    unfold decode. change (2 =? 0) with false. change (2 =? 1) with false. change (2 =? 2) with true.
    cbn [length]. rewrite length_app, length_to_be. simpl (_ <? _)%nat. cbn [length].
    change (slice (2 :: to_be 8 (order_i64 v) ++ s) 1 9) with (slice (to_be 8 (order_i64 v) ++ s) 0 8).
    rewrite slice_here by (by rewrite length_to_be). rewrite from_to_be_id by done.
    by rewrite unorder_order_i64.
  - unfold decode. change (3 =? 0) with false. change (3 =? 1) with false. change (3 =? 2) with false.
    change (3 =? 3) with true. cbn [length]. rewrite length_app, length_to_be. simpl (_ <? _)%nat.
    change (slice (3 :: to_be 8 ordered ++ s) 1 9) with (slice (to_be 8 ordered ++ s) 0 8).
    rewrite slice_here by (by rewrite length_to_be). by rewrite from_to_be_id.
  - unfold decode. cbn [Z.eqb Pos.eqb]. destruct Hv as [Hv Hl].
    rewrite terminated_eq, <- app_assoc by done. cbn [app]. rewrite decode_terminated_escaped by done.
    cbn [fmap option_fmap option_map length]. rewrite length_app. simpl. do 3 f_equal. lia.
  - unfold decode. cbn [Z.eqb Pos.eqb]. destruct Hv as [Hv Hl].
    rewrite terminated_eq, <- app_assoc by done. cbn [app]. rewrite decode_terminated_escaped by done.
    cbn [fmap option_fmap option_map length]. rewrite length_app. simpl. do 3 f_equal. lia.
  - unfold decode. cbn [Z.eqb Pos.eqb]. destruct Hv as [Hv Hl].
    rewrite terminated_eq, <- app_assoc by done. cbn [app]. rewrite decode_terminated_escaped by done.
    cbn [fmap option_fmap option_map length]. rewrite length_app. simpl. do 3 f_equal. lia.
Qed.

(** The magnitude of a bit pattern decides whether it is a NaN. *)
Lemma nan_magnitude b :
  is_u64 b -> is_nan_bits b = (0x7FF0000000000000 <? if b <? 2 ^ 63 then b else b - 2 ^ 63).
Proof.
  intros Hb. unfold is_nan_bits. change 0x7FFFFFFFFFFFFFFF with (Z.ones 63).
  rewrite Z.land_ones by lia. f_equal. unfold uint in Hb. destruct (Z.ltb_spec b (2 ^ 63)).
  - apply Z.mod_small. lia.
  - rewrite <- (Z.mod_add b (-1)) by lia. rewrite Z.mod_small; lia.
Qed.

(** C39 (order-preserving codec).  For values of the codec's types (64-bit
    numbers, byte strings of at most 65535 bytes), followed by anything
    that does not start with the escape byte 0xFF: encoded bytes compare exactly
    like the values, and where the values are equal like what follows them;
    decoding returns the value and the length of its encoding; and [encode]
    appends exactly the encoding, or leaves the output untouched when it
    exceeds the limit. *)
Theorem value_codec_order (a b : Value) (s t out : list Z) :
  value_ok a -> value_ok b -> bytes_ok s -> bytes_ok t -> not_escape_tail s -> not_escape_tail t ->
  bytes_cmp (encode_value a ++ s) (encode_value b ++ t) =
    match value_cmp a b with Eq => bytes_cmp s t | c => c end /\
  decode (encode_value a ++ s) = Some (a, length (encode_value a)) /\
  match encode a out with
  | (Some n, out') => out' = out ++ encode_value a /\ n = length (encode_value a) /\
                      (n <= MAX_ENCODED_LEN)%nat
  | (None, out') => out' = out /\ (MAX_ENCODED_LEN < length (encode_value a))%nat
  end.
Proof.
  intros Ha Hb Hs Ht Ns Nt. split_and!.
  - by apply value_order_suffix.
  - by apply value_roundtrip_suffix.
  - unfold encode. destruct (Nat.ltb_spec MAX_ENCODED_LEN (length (encode_value a))); done.
Qed.

Lemma value_codec_order_witness :
  bytes_cmp (encode_value (VString [97; 0; 255]) ++ [7]) (encode_value (VString [97; 1])) = Lt /\
  decode (encode_value (VString [97; 0; 255]) ++ [7]) = Some (VString [97; 0; 255], 7%nat).
Proof.
  destruct (value_codec_order (VString [97; 0; 255]) (VString [97; 1]) [7] [] []) as (H1 & H2 & _).
  - split; [repeat constructor; vm_compute; congruence|vm_compute; congruence].
  - split; [repeat constructor; vm_compute; congruence|vm_compute; congruence].
  - repeat constructor; vm_compute; congruence.
  - constructor.
  - vm_compute; try congruence; try exact I.
  - vm_compute; try congruence; try exact I.
  - split; [exact H1|exact H2].
Defined.

(** The float mapping is invertible and sorts bit patterns by
    sign and magnitude: negative infinity first, every finite number in order,
    then positive infinity, and the canonical NaN of [from_f64] above all of
    them.  [encode_property_value] skips the canonicalisation, so a NaN whose
    sign bit is set is encoded below negative infinity. *)
Theorem float_order (x y : Z) (payload : list Z) :
  is_u64 x -> is_u64 y -> payload = to_be 8 x ->
  unorder_f64_bits (order_f64_bits x) = x /\
  (order_f64_bits x < order_f64_bits y <-> f64_rank x < f64_rank y) /\
  (is_nan_bits x = true -> is_nan_bits y = false ->
     value_cmp (from_f64 y) (from_f64 x) = Lt) /\
  (is_nan_bits x = true -> 2 ^ 63 <= x ->
     exists e1 e2, encode_property_value VtFloat64 payload = Some e1 /\
       encode_property_value VtFloat64 (to_be 8 0xFFF0000000000000) = Some e2 /\
       bytes_cmp e1 e2 = Lt).
Proof.
  intros Hx Hy ->. assert (forall z, is_u64 z -> is_u64 (order_f64_bits z)) as Hu.
  { intros z Hz. rewrite order_f64_bits_rank by done. unfold uint, f64_rank in *.
    destruct (Z.ltb_spec z (2 ^ 63)); lia. }
  assert (forall z, is_u64 z -> encode_property_value VtFloat64 (to_be 8 z) =
    Some (encode_value (VFloat64 (order_f64_bits z)))) as He.
  { intros z Hz. unfold encode_property_value. rewrite length_to_be. change (8 <? 8)%nat with false.
    rewrite <- (app_nil_r (to_be 8 z)), slice_here by (by rewrite length_to_be).
    rewrite from_to_be_id by done. cbv iota. cbn [mbind option_bind]. unfold encode. cbv zeta.
    assert (length (encode_value (VFloat64 (order_f64_bits z))) = 9%nat) as ->.
    { unfold encode_value. cbn [length]. by rewrite length_to_be. }
    done. }
  split_and!.
  - by apply unorder_order_f64.
  - rewrite !order_f64_bits_rank by done. lia.
  - intros Hn Hf. unfold from_f64. rewrite Hn, Hf. cbn [value_cmp]. apply Z.compare_lt_iff.
    rewrite !order_f64_bits_rank by (done || (vm_compute; split; congruence)).
    pose proof (nan_magnitude y Hy) as Hm. rewrite Hf in Hm. unfold f64_rank, uint in *.
    destruct (Z.ltb_spec 0x7FF8000000000000 (2 ^ 63)); [|lia].
    destruct (Z.ltb_spec y (2 ^ 63)); lia.
  - intros Hn Hs. eexists _, _. split; [by apply He|]. split; [apply He; vm_compute; split; congruence|].
    unfold encode_value. cbn [tag_of bytes_cmp]. rewrite Z.compare_refl.
    rewrite bytes_cmp_to_be by (apply Hu; done || (vm_compute; split; congruence)).
    rewrite !order_f64_bits_rank by (done || (vm_compute; split; congruence)).
    apply Z.compare_lt_iff. pose proof (nan_magnitude x Hx) as Hm. rewrite Hn in Hm.
    unfold f64_rank, uint in *. destruct (Z.ltb_spec x (2 ^ 63)); [lia|].
    destruct (Z.ltb_spec 0xFFF0000000000000 (2 ^ 63)); lia.
Qed.

Lemma float_order_witness :
  exists e1 e2, encode_property_value VtFloat64 (to_be 8 0xFFF8000000000000) = Some e1 /\
    encode_property_value VtFloat64 (to_be 8 0xFFF0000000000000) = Some e2 /\ bytes_cmp e1 e2 = Lt.
Proof.
  apply (float_order 0xFFF8000000000000 0 (to_be 8 0xFFF8000000000000)).
  - vm_compute. split; congruence.
  - vm_compute. split; congruence.
  - reflexivity.
  - reflexivity.
  - vm_compute. congruence.
Defined.
