(* ===== verification/Key.v ===== *)
(** * Composite index keys ([src/index/key.rs]) and prefix codec ([src/index/prefix.rs])

    A [CompositeKey] is its byte string; [SmallVec] storage (inline or heap) has
    no observable effect.  Keys compare lexicographically. *)

From stdpp Require Import prelude list.
From Stdlib Require Import ZArith Lia.
From S2P Require Import Prelude Bytes ValueCodec.

Definition CompositeKey : Type := list Z.

Definition empty : CompositeKey := [].
Definition from_slice (data : list Z) : CompositeKey := data.
Definition cmp_keys (a b : CompositeKey) : comparison := bytes_cmp a b.

(** [KeyBuilder]. *)
Definition push_u64_be (b : list Z) (v : Z) : list Z := b ++ to_be 8 v.
Definition push_u128_be (b : list Z) (v : Z) : list Z := b ++ to_be 16 v.
Definition push_slice (b s : list Z) : list Z := b ++ s.

(** [None] is the slice panic of a buffer that is too short. *)
Definition encode_u64_be (v : Z) (out : list Z) : option (list Z * nat) :=
  if (length out <? 8)%nat then None else Some (write_at out 0 (to_be 8 v), 8%nat).
Definition encode_u128_be (v : Z) (out : list Z) : option (list Z * nat) :=
  if (length out <? 16)%nat then None else Some (write_at out 0 (to_be 16 v), 16%nat).
Definition decode_u64_be (bytes : list Z) : option Z :=
  if (length bytes <? 8)%nat then None else Some (from_be (take 8 bytes)).
Definition decode_u128_be (bytes : list Z) : option Z :=
  if (length bytes =? 16)%nat then Some (from_be bytes) else None.

Definition node_id_key (node_id : Z) : CompositeKey := push_u128_be empty node_id.
Definition edge_id_key (edge_id : Z) : CompositeKey := push_u128_be empty edge_id.
Definition edge_adjacency_key (source_id type_id target_id : Z) : CompositeKey :=
  push_u128_be (push_u64_be (push_u128_be empty source_id) type_id) target_id.
Definition label_index_key (label_hash node_id : Z) : CompositeKey :=
  push_u128_be (push_u64_be empty label_hash) node_id.
Definition type_index_key (type_id edge_id : Z) : CompositeKey :=
  push_u128_be (push_u64_be empty type_id) edge_id.
Definition property_index_key (property_id : Z) (serialized_value : list Z) (entity_id : Z) :
    CompositeKey :=
  push_u128_be (push_slice (push_u64_be empty property_id) serialized_value) entity_id.
Definition rdf_spo_key (subject predicate object : Z) : CompositeKey :=
  push_u128_be (push_u64_be (push_u128_be empty subject) predicate) object.
Definition rdf_pos_key (predicate object subject : Z) : CompositeKey :=
  push_u128_be (push_u128_be (push_u64_be empty predicate) object) subject.
Definition rdf_osp_key (object subject predicate : Z) : CompositeKey :=
  push_u64_be (push_u128_be (push_u128_be empty object) subject) predicate.

(** ** Prefix compression *)

(** Length of the common prefix of two byte strings. *)
Fixpoint match_len (a b : list Z) : nat :=
  match a, b with
  | x :: a', y :: b' => if x =? y then S (match_len a' b') else O
  | _, _ => O
  end.

(** The inner loop shortens [prefix_len] to the first mismatch below it. *)
Definition prefix_step (first : list Z) (prefix_len : nat) (key : list Z) : nat :=
  match_len (take prefix_len first) key.

Definition common_prefix (keys : list (list Z)) : list Z :=
  match keys with
  | [] => []
  | first :: rest => take (foldl (prefix_step first) (length first) rest) first
  end.

Definition starts_with (key prefix : list Z) : bool := bytes_eqb (take (length prefix) key) prefix.

Definition decompress_record (record prefix : list Z) : option (list Z) :=
  if (length record <? 2)%nat then None else
  let key_len := Z.to_nat (from_be (take 2 record)) in
  if (length record <? 2 + key_len)%nat then None else
  let suffix := slice record 2 (2 + key_len) in
  let value := drop (2 + key_len) record in
  Some (to_be 2 (wrap 16 (Z.of_nat (length prefix + length suffix))) ++ prefix ++ suffix ++ value).

Definition compress_record (record prefix : list Z) : option (list Z) :=
  if (length record <? 2)%nat then None else
  let key_len := Z.to_nat (from_be (take 2 record)) in
  if (length record <? 2 + key_len)%nat then None else
  let key := slice record 2 (2 + key_len) in
  if negb (starts_with key prefix) then None else
  let suffix := drop (length prefix) key in
  let value := drop (2 + key_len) record in
  Some (to_be 2 (wrap 16 (Z.of_nat (length suffix))) ++ suffix ++ value).

Definition extract_key (record : list Z) : option (list Z) :=
  if (length record <? 2)%nat then None else
  let key_len := Z.to_nat (from_be (take 2 record)) in
  if (length record <? 2 + key_len)%nat then None else Some (slice record 2 (2 + key_len)).

(** ** Order of keys *)

(** Lexicographic composition of comparisons. *)
Definition then_cmp (a b : comparison) : comparison := match a with Eq => b | _ => a end.

Lemma be_then n a b s t :
  uint (8 * Z.of_nat n) a -> uint (8 * Z.of_nat n) b ->
  bytes_cmp (to_be n a ++ s) (to_be n b ++ t) = then_cmp (a ?= b) (bytes_cmp s t).
Proof.
  intros Ha Hb. rewrite bytes_cmp_app by (by rewrite !length_to_be).
  rewrite bytes_cmp_to_be by done. by destruct (a ?= b).
Qed.

(** The byte order of every fixed-layout key is the
    lexicographic order of its fields, in the order of the layout; so range
    scans over a leading field visit exactly that field's entries and no two
    different field tuples share a key. *)
Theorem index_keys_order (a1 a2 b1 b2 c1 c2 : Z) :
  is_u128 a1 -> is_u128 a2 -> is_u64 b1 -> is_u64 b2 -> is_u128 c1 -> is_u128 c2 ->
  cmp_keys (node_id_key a1) (node_id_key a2) = (a1 ?= a2) /\
  cmp_keys (edge_adjacency_key a1 b1 c1) (edge_adjacency_key a2 b2 c2) =
    then_cmp (a1 ?= a2) (then_cmp (b1 ?= b2) (c1 ?= c2)) /\
  cmp_keys (label_index_key b1 a1) (label_index_key b2 a2) = then_cmp (b1 ?= b2) (a1 ?= a2) /\
  cmp_keys (type_index_key b1 a1) (type_index_key b2 a2) = then_cmp (b1 ?= b2) (a1 ?= a2) /\
  cmp_keys (rdf_spo_key a1 b1 c1) (rdf_spo_key a2 b2 c2) =
    then_cmp (a1 ?= a2) (then_cmp (b1 ?= b2) (c1 ?= c2)) /\
  cmp_keys (rdf_pos_key b1 c1 a1) (rdf_pos_key b2 c2 a2) =
    then_cmp (b1 ?= b2) (then_cmp (c1 ?= c2) (a1 ?= a2)) /\
  cmp_keys (rdf_osp_key c1 a1 b1) (rdf_osp_key c2 a2 b2) =
    then_cmp (c1 ?= c2) (then_cmp (a1 ?= a2) (b1 ?= b2)).
Proof.
  intros Ha1 Ha2 Hb1 Hb2 Hc1 Hc2. unfold cmp_keys.
  unfold node_id_key, edge_adjacency_key, label_index_key, type_index_key, rdf_spo_key,
    rdf_pos_key, rdf_osp_key, push_u128_be, push_u64_be, empty. cbn [app].
  rewrite <- !app_assoc. split_and!; rewrite ?be_then by done; by rewrite ?bytes_cmp_to_be by done.
Qed.

Lemma index_keys_order_witness :
  cmp_keys (edge_adjacency_key 5 2 9) (edge_adjacency_key 5 3 1) = Lt.
Proof.
  pose proof (index_keys_order 5 5 2 3 9 1) as H.
  destruct H as (_ & H & _); [vm_compute; split; congruence..|]. rewrite H. reflexivity.
Defined.

Lemma to_be_16_head e : 0 <= e < 255 * 2 ^ 120 -> not_escape_tail (to_be 16 e).
Proof.
  intros He. unfold not_escape_tail. cbn [to_be head].
  change (256 ^ Z.of_nat 15) with (2 ^ 120). intros [= E].
  assert (0 <= e / 2 ^ 120 < 255).
  { split; [apply Z.div_pos; lia|apply Z.div_lt_upper_bound; lia]. }
  rewrite Z.mod_small in E by lia. lia.
Qed.

(** C40 (property keys).  With values encoded by the value codec, property keys
    sort by property, then value, then entity, and the value can be read back
    from the key - for entity ids below 255 * 2^120.  From that id on the
    first entity byte is 0xFF, which the string terminator in front of it
    turns into an escape: a key of value "a" then sorts after a key of the
    larger value "a\0", and reading the value back gives a longer string. *)
Theorem property_key_order (p1 p2 e1 e2 : Z) (v1 v2 : Value) :
  is_u64 p1 -> is_u64 p2 -> value_ok v1 -> value_ok v2 ->
  0 <= e1 < 255 * 2 ^ 120 -> 0 <= e2 < 255 * 2 ^ 120 ->
  cmp_keys (property_index_key p1 (encode_value v1) e1) (property_index_key p2 (encode_value v2) e2) =
    then_cmp (p1 ?= p2) (then_cmp (value_cmp v1 v2) (e1 ?= e2)) /\
  decode (drop 8 (property_index_key p1 (encode_value v1) e1)) = Some (v1, length (encode_value v1)) /\
  cmp_keys (property_index_key p1 (encode_value (VString [97])) (2 ^ 128 - 1))
           (property_index_key p1 (encode_value (VString [97; 0])) 0) = Gt /\
  value_cmp (VString [97]) (VString [97; 0]) = Lt /\
  decode (drop 8 (property_index_key p1 (encode_value (VString [97])) (255 * 2 ^ 120))) =
    Some (VString [97; 0], 5%nat).
Proof.
  intros Hp1 Hp2 Hv1 Hv2 He1 He2.
  unfold cmp_keys, property_index_key, push_u128_be, push_u64_be, push_slice, empty. cbn [app].
  assert (is_u128 e1 /\ is_u128 e2) as [Hu1 Hu2] by (unfold uint; lia).
  rewrite <- !app_assoc.
  assert (forall x, drop 8 (to_be 8 p1 ++ x) = x) as Hdrop.
  { intros x. rewrite drop_app_ge by (rewrite length_to_be; lia). by rewrite length_to_be. }
  rewrite !Hdrop. rewrite !be_then by done. split_and!.
  - rewrite value_order_suffix; auto using to_be_ok, to_be_16_head.
    rewrite bytes_cmp_to_be by done. by destruct (value_cmp v1 v2).
  - apply value_roundtrip_suffix; [done|]. by apply to_be_16_head.
  - rewrite Z.compare_refl. vm_compute. done.
  - done.
  - vm_compute. done.
Qed.

Lemma property_key_order_witness :
  cmp_keys (property_index_key 3 (encode_value (VInt64 (-5))) 10)
           (property_index_key 3 (encode_value (VInt64 4)) 2) = Lt.
Proof.
  pose proof (property_key_order 3 3 10 2 (VInt64 (-5)) (VInt64 4)) as H.
  destruct H as [H _]; [vm_compute; split; congruence..|]. rewrite H. reflexivity.
Defined.

(** ** Prefix codec *)

Definition record_of (key value : list Z) : list Z :=
  to_be 2 (Z.of_nat (length key)) ++ key ++ value.

Lemma record_of_key key value :
  Z.of_nat (length key) < 2 ^ 16 ->
  Z.to_nat (from_be (take 2 (record_of key value))) = length key /\
  (length (record_of key value) = 2 + length key + length value)%nat /\
  slice (record_of key value) 2 (2 + length key) = key /\
  drop (2 + length key) (record_of key value) = value.
Proof.
  intros Hk. unfold record_of. split_and!.
  - rewrite take_app_le, take_ge by (rewrite length_to_be; lia).
    rewrite from_to_be_id by (unfold uint; lia). lia.
  - rewrite !length_app, length_to_be. lia.
  - rewrite slice_skip by (rewrite length_to_be; lia). rewrite length_to_be, slice_here; lia || done.
  - rewrite drop_app_ge by (rewrite length_to_be; lia). rewrite length_to_be.
    replace (2 + length key - 2)%nat with (length key) by lia. apply drop_app_length.
Qed.

(** Compressing a record against a prefix of its key
    and decompressing gives the record back; the compressed record keeps the
    rest of the key and the value. *)
Theorem compress_roundtrip prefix suffix value :
  Z.of_nat (length (prefix ++ suffix)) < 2 ^ 16 ->
  compress_record (record_of (prefix ++ suffix) value) prefix = Some (record_of suffix value) /\
  decompress_record (record_of suffix value) prefix = Some (record_of (prefix ++ suffix) value) /\
  extract_key (record_of suffix value) = Some suffix.
Proof.
  intros Hl. assert (Z.of_nat (length suffix) < 2 ^ 16) as Hs by (rewrite length_app in Hl; lia).
  destruct (record_of_key (prefix ++ suffix) value Hl) as (K1 & L1 & S1 & D1).
  destruct (record_of_key suffix value Hs) as (K2 & L2 & S2 & D2).
  unfold compress_record, decompress_record, extract_key. cbv zeta.
  rewrite K1, K2, L1, L2, S1, S2, D1, D2.
  repeat match goal with |- context [(?a <? ?b)%nat] => destruct (Nat.ltb_spec a b); [lia|] end.
  unfold starts_with. rewrite take_app_length, bytes_eqb_refl, drop_app_length. cbn [negb].
  rewrite !wrap_id by (unfold uint; rewrite ?length_app in *; lia).
  unfold record_of. rewrite length_app, <- app_assoc. done.
Qed.

Lemma compress_roundtrip_witness :
  compress_record (record_of [1; 2; 3] [9]) [1; 2] = Some (record_of [3] [9]) /\
  decompress_record (record_of [3] [9]) [1; 2] = Some (record_of [1; 2; 3] [9]).
Proof.
  destruct (compress_roundtrip [1; 2] [3] [9]) as (H1 & H2 & _); [vm_compute; congruence|].
  split; [exact H1|exact H2].
Defined.
