(* ===== verification/SlottedPage.v ===== *)
(** * Slotted pages ([src/storage/page.rs])

    A page is its 8192 bytes.  The header is the [repr(C)] struct at the front
    (little-endian fields on the supported targets), records grow upwards from
    byte 64 and the slot directory grows downwards from the end.  Operations
    that index the buffer return [None] where the slice access would panic. *)

From stdpp Require Import prelude list.
From Stdlib Require Import ZArith Lia.
From S2P Require Import Prelude Bytes Checksum.

Definition PAGE_SIZE : nat := Z.to_nat 8192.
Definition HEADER_SIZE : nat := 64.
Definition SLOT_SIZE : nat := 4.
Definition MAX_INLINE_RECORD_LEN : nat := 2048.
Definition PAGE_MAGIC : Z := 0x52475047.
Definition PAGE_FLAG_FULL : Z := 0x0001.
#[global] Arguments PAGE_SIZE : simpl never.
#[global] Strategy opaque [PAGE_SIZE].

Inductive PageType := PtMeta | PtBitmap | PtBTreeInterior | PtBTreeLeaf | PtSlottedData | PtOverflow.

Definition page_type_code (t : PageType) : Z :=
  match t with
  | PtMeta => 0x01 | PtBitmap => 0x02 | PtBTreeInterior => 0x10
  | PtBTreeLeaf => 0x11 | PtSlottedData => 0x20 | PtOverflow => 0x30
  end.

Definition Page : Type := list Z.

(** ** Header fields *)

Definition get_u16 (p : Page) (off : nat) : Z := from_le (slice p off (off + 2)).
Definition set_u16 (p : Page) (off : nat) (v : Z) : Page := write_at p off (to_le 2 v).

Definition PAGE_LSN_OFF : nat := 0.
Definition MAGIC_OFF : nat := 24.
Definition CHECKSUM_OFF : nat := 28.
Definition FREE_OFF : nat := 32.
Definition COUNT_OFF : nat := 34.
Definition FLAGS_OFF : nat := 36.

Definition slot_count (p : Page) : nat := Z.to_nat (get_u16 p COUNT_OFF).
Definition free_space_offset (p : Page) : nat := Z.to_nat (get_u16 p FREE_OFF).

(** [PageHeader::new] as bytes. *)
Definition header_new (page_id : Z) (t : PageType) : list Z :=
  to_le 8 0 ++ to_le 8 page_id ++ to_le 8 0 ++ to_le 4 PAGE_MAGIC ++ to_le 4 0 ++
  to_le 2 0 ++ to_le 2 0 ++ to_le 2 0 ++ to_le 2 0 ++ [1] ++ [page_type_code t] ++ to_le 2 0 ++
  replicate 20 0.

Definition init (page_id : Z) (t : PageType) : Page :=
  write_at (replicate PAGE_SIZE 0) 0 (header_new page_id t).

Definition header_free_space (p : Page) : nat :=
  saturating_sub PAGE_SIZE (HEADER_SIZE + free_space_offset p + slot_count p * SLOT_SIZE).

(** ** Checksum and magic *)

Section Checks.
Context `{CS : Checksums}.

(** [crc32c_append] continues a checksum: the result is that of the
    concatenation, here the page with a zeroed checksum field. *)
Definition compute_checksum_bytes (buf : list Z) : Z :=
  crc32c (slice buf 0 28 ++ [0; 0; 0; 0] ++ drop 32 buf).

Definition verify_checksum_bytes (buf : list Z) : bool :=
  if negb (length buf =? PAGE_SIZE)%nat then false
  else from_le (slice buf 28 32) =? compute_checksum_bytes buf.

Definition update_checksum_bytes (buf : list Z) : list Z :=
  write_at buf 28 (to_le 4 (compute_checksum_bytes buf)).
End Checks.

Definition has_valid_magic_bytes (buf : list Z) : bool :=
  if (length buf <? 28)%nat then false else from_le (slice buf 24 28) =? PAGE_MAGIC.

(** ** Slot directory *)

Record Slot := mkSlot { s_offset : Z; s_length : Z }.

#[global] Instance Slot_eq_dec : EqDecision Slot.
Proof. solve_decision. Defined.

Definition is_deleted (s : Slot) : bool := s_offset s =? U16_MAX.

(** Byte position of the [rev]-th stored entry of a directory of [count]. *)
Definition dir_pos (count rev : nat) : nat := PAGE_SIZE - count * SLOT_SIZE + rev * SLOT_SIZE.

Definition read_slot (p : Page) (pos : nat) : Slot := mkSlot (get_u16 p pos) (get_u16 p (pos + 2)).
Definition slot_bytes (s : Slot) : list Z := to_le 2 (s_offset s) ++ to_le 2 (s_length s).
Definition write_slot (p : Page) (pos : nat) (s : Slot) : Page := write_at p pos (slot_bytes s).

Definition slot (p : Page) (idx : nat) : option Slot :=
  let count := slot_count p in
  if (count <? idx + 1)%nat then None
  else Some (read_slot p (dir_pos count (count - (idx + 1)))).

(** [slot_mut(idx)] followed by an assignment of both fields. *)
Definition set_slot (p : Page) (idx : nat) (s : Slot) : Page :=
  let count := slot_count p in write_slot p (dir_pos count (count - idx - 1)) s.

(** ** Operations *)

Definition read (p : Page) (idx : nat) : option (list Z) :=
  match slot p idx with
  | None => None
  | Some s =>
      if is_deleted s then None
      else let start := (HEADER_SIZE + Z.to_nat (s_offset s))%nat in
           Some (slice p start (start + Z.to_nat (s_length s)))
  end.

Definition delete (p : Page) (idx : nat) : bool * Page :=
  match slot p idx with
  | Some s => if is_deleted s then (false, p)
              else (true, set_slot p idx (mkSlot U16_MAX (s_length s)))
  | None => (false, p)
  end.

(** [buf[pos..pos+len].copy_from_slice(bytes)]. *)
Definition checked_write (p : Page) (pos : nat) (bytes : list Z) : option Page :=
  if (pos + length bytes <=? length p)%nat then Some (write_at p pos bytes) else None.

(** [buf.copy_within(src..src+len, dst)]. *)
Definition copy_within (p : Page) (src len dst : nat) : option Page :=
  if (src + len <=? length p)%nat && (dst + len <=? length p)%nat
  then Some (write_at p dst (slice p src (src + len))) else None.

(** First pass of [compact]: the moves and the new slots, in slot order. *)
Fixpoint compact_plan (p : Page) (n i : nat) (new_offset : Z) :
    list (nat * nat * nat) * list Slot * Z :=
  match n with
  | O => ([], [], new_offset)
  | S n' =>
      match slot p i with
      | Some s =>
          if is_deleted s then compact_plan p n' (S i) new_offset
          else
            let old_start := (HEADER_SIZE + Z.to_nat (s_offset s))%nat in
            let len := Z.to_nat (s_length s) in
            let new_start := (HEADER_SIZE + Z.to_nat new_offset)%nat in
            let '(moves, slots, fin) := compact_plan p n' (S i) (wrap 16 (new_offset + s_length s)) in
            (if (old_start =? new_start)%nat then moves else (old_start, new_start, len) :: moves,
             mkSlot new_offset (s_length s) :: slots, fin)
      | None => compact_plan p n' (S i) new_offset
      end
  end.

Fixpoint apply_moves (p : Page) (moves : list (nat * nat * nat)) : option Page :=
  match moves with
  | [] => Some p
  | (old_start, new_start, len) :: ms =>
      p' ← copy_within p old_start len new_start; apply_moves p' ms
  end.

Definition compact (p : Page) : option Page :=
  let '(moves, new_slots, new_offset) := compact_plan p (slot_count p) 0 0 in
  p1 ← apply_moves p moves;
  let p2 := set_u16 p1 FREE_OFF new_offset in
  let p3 := set_u16 p2 COUNT_OFF (wrap 16 (Z.of_nat (length new_slots))) in
  let p4 := set_u16 p3 FLAGS_OFF (Z.land (get_u16 p3 FLAGS_OFF) (Z.lxor PAGE_FLAG_FULL U16_MAX)) in
  checked_write p4 (PAGE_SIZE - length new_slots * SLOT_SIZE) (concat (slot_bytes <$> new_slots)).

(** Best fit among deleted slots: the first of the smallest adequate length. *)
Fixpoint best_fit (p : Page) (len n i : nat) (best : option nat) (best_len : option nat) : option nat :=
  match n with
  | O => best
  | S n' =>
      match slot p i with
      | Some s =>
          let l := Z.to_nat (s_length s) in
          if is_deleted s && (len <=? l)%nat &&
             match best_len with None => true | Some b => (l <? b)%nat end
          then best_fit p len n' (S i) (Some i) (Some l)
          else best_fit p len n' (S i) best best_len
      | None => best_fit p len n' (S i) best best_len
      end
  end.

Definition available (p : Page) : nat :=
  saturating_sub PAGE_SIZE (HEADER_SIZE + free_space_offset p + slot_count p * SLOT_SIZE).

(** The placing part of [insert], with the [slot_count] and [free_offset] read
    at entry. *)
Definition place (p : Page) (slot_count0 free_offset : nat) (record : list Z) : option (nat * Page) :=
  let len := length record in
  match best_fit p len slot_count0 0 None None with
  | Some idx =>
      p1 ← checked_write p (HEADER_SIZE + free_offset) record;
      let p2 := set_slot p1 idx (mkSlot (wrap 16 (Z.of_nat free_offset)) (wrap 16 (Z.of_nat len))) in
      Some (idx, set_u16 p2 FREE_OFF (wrap 16 (Z.of_nat (free_offset + len))))
  | None =>
      p1 ← checked_write p (HEADER_SIZE + free_offset) record;
      let count := wrap 16 (get_u16 p1 COUNT_OFF + 1) in
      let p2 := set_u16 p1 COUNT_OFF count in
      let p3 := set_u16 p2 FREE_OFF (wrap 16 (Z.of_nat (free_offset + len))) in
      p4 ← checked_write p3 (PAGE_SIZE - Z.to_nat count * SLOT_SIZE)
             (slot_bytes (mkSlot (wrap 16 (Z.of_nat free_offset)) (wrap 16 (Z.of_nat len))));
      Some (Z.to_nat (count - 1), p4)
  end.

(** [insert]: outer [None] is a panic, inner [None] a refusal.  After a
    compaction the slot count and free offset read before it are still used. *)
Definition insert (p : Page) (record : list Z) : option (option nat * Page) :=
  if (MAX_INLINE_RECORD_LEN <? length record)%nat then Some (None, p) else
  let count0 := slot_count p in
  let free0 := free_space_offset p in
  let needed := (length record + SLOT_SIZE)%nat in
  if (available p <? needed)%nat then
    p1 ← compact p;
    if (available p1 <? needed)%nat then Some (None, p1)
    else '(i, p2) ← place p1 count0 free0 record; Some (Some i, p2)
  else '(i, p2) ← place p count0 free0 record; Some (Some i, p2).

(** Rewriting the directory of [count] entries, logical slot [i] at stored
    position [count - 1 - i]. *)
Fixpoint write_slots (p : Page) (count i : nat) (slots : list Slot) : option Page :=
  match slots with
  | [] => Some p
  | s :: ss =>
      p1 ← checked_write p (dir_pos count (count - 1 - i)) (slot_bytes s);
      write_slots p1 count (S i) ss
  end.

Fixpoint collect_slots (p : Page) (n i : nat) : list Slot :=
  match n with
  | O => []
  | S n' => match slot p i with
            | Some s => s :: collect_slots p n' (S i)
            | None => collect_slots p n' (S i)
            end
  end.

Definition insert_at_place (p : Page) (idx : nat) (record : list Z) : option (nat * Page) :=
  let free_offset := free_space_offset p in
  let len := length record in
  p1 ← checked_write p (HEADER_SIZE + free_offset) record;
  let p2 := set_u16 p1 COUNT_OFF (wrap 16 (get_u16 p1 COUNT_OFF + 1)) in
  let p3 := set_u16 p2 FREE_OFF (wrap 16 (Z.of_nat (free_offset + len))) in
  let count := slot_count p3 in
  let slots := collect_slots p3 (count - 1) 0 in
  let pos := min idx (length slots) in
  let slots' := take pos slots ++
    [mkSlot (wrap 16 (Z.of_nat free_offset)) (wrap 16 (Z.of_nat len))] ++ drop pos slots in
  p4 ← write_slots p3 count 0 slots';
  Some (pos, p4).

Definition insert_at (p : Page) (idx : nat) (record : list Z) : option (option nat * Page) :=
  if (MAX_INLINE_RECORD_LEN <? length record)%nat then Some (None, p) else
  let needed := (length record + SLOT_SIZE)%nat in
  if (available p <? needed)%nat then
    p1 ← compact p;
    if (available p1 <? needed)%nat then Some (None, p1)
    else '(i, p2) ← insert_at_place p1 idx record; Some (Some i, p2)
  else '(i, p2) ← insert_at_place p idx record; Some (Some i, p2).

(** ** Reasoning about writes *)

Lemma PAGE_SIZE_eq : Z.of_nat PAGE_SIZE = 8192.
Proof. reflexivity. Qed.

(** Arithmetic with the page size and the layout constants unfolded. *)
Ltac page_lia :=
  unfold HEADER_SIZE, SLOT_SIZE, FREE_OFF, COUNT_OFF, FLAGS_OFF, MAX_INLINE_RECORD_LEN in *;
  pose proof PAGE_SIZE_eq; lia.

(** [q] is [p] with the bytes at [o] replaced by [bs]. *)
Record wrote (p : Page) (o : nat) (bs : list Z) (q : Page) : Prop := {
  wr_length : length q = length p;
  wr_here : slice q o (o + length bs) = bs;
  wr_frame : forall a b, (b <= o \/ o + length bs <= a)%nat -> slice q a b = slice p a b;
  wr_ok : bytes_ok p -> bytes_ok bs -> bytes_ok q
}.

Lemma wrote_write_at p o bs : (o + length bs <= length p)%nat -> wrote p o bs (write_at p o bs).
Proof.
  intros Hl. split.
  - by apply length_write_at.
  - by apply slice_write_at_eq.
  - intros. by apply slice_write_at_ne.
  - intros Hp Hb. unfold write_at. rewrite !bytes_ok_app. auto with rg.
Qed.

Lemma checked_write_ok p o bs :
  (o + length bs <= length p)%nat -> exists q, checked_write p o bs = Some q /\ wrote p o bs q.
Proof.
  intros Hl. unfold checked_write. destruct (Nat.leb_spec (o + length bs) (length p)); [|lia].
  eexists. split; [done|]. by apply wrote_write_at.
Qed.

Lemma get_u16_range p o : bytes_ok p -> (o + 2 <= length p)%nat -> is_u16 (get_u16 p o).
Proof.
  intros Hp Hl. unfold get_u16.
  destruct (from_le_fixed 2 (slice p o (o + 2))) as [R _]; [auto with rg| |exact R].
  rewrite length_slice; lia.
Qed.

Lemma wrote_u16_same p o v q : wrote p o (to_le 2 v) q -> is_u16 v -> get_u16 q o = v.
Proof.
  intros [_ H _ _] Hv. unfold get_u16. rewrite length_to_le in H. rewrite H. by apply from_to_le_id.
Qed.

Lemma wrote_u16_other p o bs q a :
  wrote p o bs q -> (a + 2 <= o \/ o + length bs <= a)%nat -> get_u16 q a = get_u16 p a.
Proof. intros [_ _ H _] Hd. unfold get_u16. by rewrite H by lia. Qed.

Lemma set_u16_wrote p o v : (o + 2 <= length p)%nat -> wrote p o (to_le 2 v) (set_u16 p o v).
Proof. intros. apply wrote_write_at. by rewrite length_to_le. Qed.

Lemma length_slot_bytes s : length (slot_bytes s) = SLOT_SIZE.
Proof. unfold slot_bytes. rewrite length_app, !length_to_le. done. Qed.

Lemma wrote_slot_same p o s q :
  is_u16 (s_offset s) -> is_u16 (s_length s) -> wrote p o (slot_bytes s) q -> read_slot q o = s.
Proof.
  intros H1 H2 [_ H _ _]. unfold read_slot, get_u16. rewrite length_slot_bytes in H.
  assert (forall a b, (o <= a)%nat -> (b <= o + 4)%nat ->
    slice q a b = slice (slot_bytes s) (a - o) (b - o)) as Hs.
  { intros a b Ha Hb. rewrite <- H. apply list_eq. intros i. rewrite !lookup_slice.
    destruct (decide (i < b - a)%nat), (decide (i < b - o - (a - o))%nat); try lia; [|done].
    rewrite decide_True by (unfold SLOT_SIZE; lia). f_equal. lia. }
  rewrite !Hs by (unfold SLOT_SIZE; lia). destruct s as [x y]. unfold slot_bytes.
  cbn [s_offset s_length] in *. f_equal.
  - rewrite Nat.sub_diag. replace (o + 2 - o)%nat with 2%nat by lia.
    rewrite slice_here by (by rewrite length_to_le). by apply from_to_le_id.
  - replace (o + 2 - o)%nat with 2%nat by lia. replace (o + 2 + 2 - o)%nat with 4%nat by lia.
    rewrite slice_skip by (rewrite length_to_le; lia). rewrite length_to_le.
    rewrite <- (app_nil_r (to_le 2 y)), slice_here by (by rewrite length_to_le).
    by apply from_to_le_id.
Qed.

Lemma wrote_slot_other p o bs q a :
  wrote p o bs q -> (a + 4 <= o \/ o + length bs <= a)%nat -> read_slot q a = read_slot p a.
Proof.
  intros H Hd. unfold read_slot. by rewrite !(wrote_u16_other p o bs q) by (done || lia).
Qed.

(** ** Well-formed pages *)

(** Logical slot [i] sits [4 * (i + 1)] bytes before the end. *)
Definition entry_pos (i : nat) : nat := PAGE_SIZE - (i + 1) * SLOT_SIZE.
Definition entry (p : Page) (i : nat) : Slot := read_slot p (entry_pos i).

Definition slot_fits (s : Slot) (free : nat) : Prop :=
  is_deleted s = true \/ (0 <= s_offset s /\ 0 <= s_length s /\ s_offset s + s_length s <= Z.of_nat free).

Record page_ok (p : Page) : Prop := {
  po_length : length p = PAGE_SIZE;
  po_bytes : bytes_ok p;
  po_space : (HEADER_SIZE + free_space_offset p + slot_count p * SLOT_SIZE <= PAGE_SIZE)%nat;
  po_slots : forall i, (i < slot_count p)%nat -> slot_fits (entry p i) (free_space_offset p)
}.

Lemma dir_pos_entry count i :
  (i < count)%nat -> (count * SLOT_SIZE <= PAGE_SIZE)%nat ->
  dir_pos count (count - (i + 1)) = entry_pos i.
Proof. intros. unfold dir_pos, entry_pos. page_lia. Qed.

Lemma slot_entry p i :
  (slot_count p * SLOT_SIZE <= PAGE_SIZE)%nat ->
  slot p i = if (i <? slot_count p)%nat then Some (entry p i) else None.
Proof.
  intros Hc. unfold slot. destruct (Nat.ltb_spec (slot_count p) (i + 1)), (Nat.ltb_spec i (slot_count p));
    try lia; [done|]. by rewrite dir_pos_entry.
Qed.

(** The bytes a slot designates. *)
Definition slot_data (p : Page) (s : Slot) : option (list Z) :=
  if is_deleted s then None
  else Some (slice p (HEADER_SIZE + Z.to_nat (s_offset s))
                     (HEADER_SIZE + Z.to_nat (s_offset s) + Z.to_nat (s_length s))).

(** What the page stores, slot by slot. *)
Definition contents (p : Page) : list (option (list Z)) :=
  (fun i => slot_data p (entry p i)) <$> seq 0 (slot_count p).

Lemma length_contents p : length (contents p) = slot_count p.
Proof. unfold contents. by rewrite length_fmap, length_seq. Qed.

Lemma lookup_contents p i :
  contents p !! i = if (i <? slot_count p)%nat then Some (slot_data p (entry p i)) else None.
Proof.
  unfold contents. rewrite list_lookup_fmap. destruct (Nat.ltb_spec i (slot_count p)).
  - rewrite lookup_seq_lt by done. done.
  - rewrite lookup_seq_ge by done. done.
Qed.

Lemma read_contents p i : page_ok p -> read p i = default None (contents p !! i).
Proof.
  intros Hp. pose proof (po_space _ Hp). unfold read. rewrite slot_entry, lookup_contents by lia.
  destruct (_ <? _)%nat; [|reflexivity]. unfold slot_data. cbn [default].
  generalize (entry p i). intros s. destruct (is_deleted s); reflexivity.
Qed.

(** ** Rewriting the directory *)

(** A page whose free offset and directory do not overlap. *)
Record page_base (p : Page) : Prop := {
  pb_length : length p = PAGE_SIZE;
  pb_bytes : bytes_ok p;
  pb_space : (HEADER_SIZE + free_space_offset p + slot_count p * SLOT_SIZE <= PAGE_SIZE)%nat
}.

Lemma page_ok_base p : page_ok p -> page_base p.
Proof. intros []. by split. Qed.

(** [p] and [q] hold the same record bytes, up to data offset [lim]. *)
Definition data_agree (p q : Page) (lim : nat) : Prop :=
  forall a b, (HEADER_SIZE <= a)%nat -> (b <= HEADER_SIZE + lim)%nat -> slice q a b = slice p a b.

Lemma slot_data_frame p q s lim :
  data_agree p q lim -> slot_fits s lim -> slot_data q s = slot_data p s.
Proof.
  intros Hd Hs. unfold slot_data. destruct (is_deleted s) eqn:E; [reflexivity|].
  destruct Hs as [Hs|Hs]; [congruence|]. f_equal. apply Hd; page_lia.
Qed.

Lemma slot_fits_mono s a b : (a <= b)%nat -> slot_fits s a -> slot_fits s b.
Proof. intros ? [?|?]; [by left|right; lia]. Qed.

Lemma count_bounds p : page_base p ->
  Z.of_nat (slot_count p) <= 2032 /\ Z.of_nat (free_space_offset p) <= 8128 /\
  get_u16 p COUNT_OFF = Z.of_nat (slot_count p) /\ get_u16 p FREE_OFF = Z.of_nat (free_space_offset p).
Proof.
  intros [Hl Hb Hs]. assert (forall o, (o + 2 <= 64)%nat -> 0 <= get_u16 p o) as Hr.
  { intros o Ho. apply (get_u16_range p o Hb). page_lia. }
  assert (0 <= get_u16 p COUNT_OFF) by (apply Hr; page_lia).
  assert (0 <= get_u16 p FREE_OFF) by (apply Hr; page_lia).
  assert (Z.of_nat (slot_count p) = get_u16 p COUNT_OFF) by (unfold slot_count; lia).
  assert (Z.of_nat (free_space_offset p) = get_u16 p FREE_OFF) by (unfold free_space_offset; lia).
  page_lia.
Qed.

(** [q] is [p] with directory [f] and free offset [free]: the slot count and
    the data area stay. *)
Record rewritten (p : Page) (f : nat -> Slot) (free : nat) (q : Page) : Prop := {
  rw_length : length q = PAGE_SIZE;
  rw_bytes : bytes_ok q;
  rw_count : slot_count q = slot_count p;
  rw_free : free_space_offset q = free;
  rw_entry : forall i, (i < slot_count p)%nat -> entry q i = f i;
  rw_agree : data_agree p q (PAGE_SIZE - HEADER_SIZE - slot_count p * SLOT_SIZE)
}.

Lemma rewritten_trans p f a q g b r :
  rewritten p f a q -> rewritten q g b r -> rewritten p g b r.
Proof.
  intros [? ? Ec ? ? A] [? ? Ec' ? ? A']. rewrite Ec in *. split; [done|done|congruence|done|done|].
  intros x y Hx Hy. rewrite A' by done. by apply A.
Qed.

Lemma rewritten_ext p f g a q :
  (forall i, (i < slot_count p)%nat -> f i = g i) -> rewritten p f a q -> rewritten p g a q.
Proof. intros He []. split; auto. intros i Hi. rewrite <- He by done. auto. Qed.

Definition slot_u16 (s : Slot) : Prop := is_u16 (s_offset s) /\ is_u16 (s_length s).

Lemma put_entry p i s :
  page_base p -> (i < slot_count p)%nat -> slot_u16 s ->
  checked_write p (entry_pos i) (slot_bytes s) = Some (write_slot p (entry_pos i) s) /\
  rewritten p (fun j => if decide (j = i) then s else entry p j) (free_space_offset p)
    (write_slot p (entry_pos i) s).
Proof.
  intros [Hl Hb Hs] Hi [H1 H2]. pose proof (length_slot_bytes s) as Hsb.
  assert (entry_pos i + length (slot_bytes s) <= length p)%nat as Hin
    by (unfold entry_pos; rewrite Hsb; page_lia).
  unfold write_slot. split.
  { unfold checked_write. destruct (Nat.leb_spec (entry_pos i + length (slot_bytes s)) (length p));
      [reflexivity|lia]. }
  pose proof (wrote_write_at _ _ _ Hin) as W. split.
  - rewrite (wr_length _ _ _ _ W). done.
  - apply (wr_ok _ _ _ _ W); [done|]. unfold slot_bytes. rewrite bytes_ok_app. auto with rg.
  - unfold slot_count. rewrite (wrote_u16_other _ _ _ _ _ W) by (unfold entry_pos; page_lia). done.
  - unfold free_space_offset. rewrite (wrote_u16_other _ _ _ _ _ W) by (unfold entry_pos; page_lia). done.
  - intros j Hj. case_decide as E; [subst; by eapply wrote_slot_same|].
    apply (wrote_slot_other _ _ _ _ _ W). rewrite Hsb. unfold entry_pos. page_lia.
  - intros a b Ha Hbb. apply (wr_frame _ _ _ _ W). unfold entry_pos. page_lia.
Qed.

Lemma entry_u16 p i : page_base p -> (i < slot_count p)%nat -> slot_u16 (entry p i).
Proof.
  intros [Hl Hb Hs] Hi. split; apply get_u16_range; try done; unfold entry_pos; page_lia.
Qed.

(** The directory rewrite of [insert_at]. *)
Lemma write_slots_spec ss : forall p i,
  page_base p -> (i + length ss <= slot_count p)%nat -> Forall slot_u16 ss ->
  exists q, write_slots p (slot_count p) i ss = Some q /\
    rewritten p (fun j => if (j <? i)%nat then entry p j else default (entry p j) (ss !! (j - i)%nat))
      (free_space_offset p) q.
Proof.
  induction ss as [|s ss IH]; intros p i Hp Hl Hu.
  - exists p. split; [done|]. destruct Hp. split; try done.
    intros j _. rewrite lookup_nil. by destruct (_ <? _)%nat.
  - apply Forall_cons in Hu as [Hs Hu]. cbn [length] in Hl.
    destruct (put_entry p i s Hp ltac:(lia) Hs) as [E R]. set (p1 := write_slot _ _ _) in *.
    assert (page_base p1) as Hp1.
    { destruct R. split; [done|done|]. rewrite rw_free0, rw_count0. by apply Hp. }
    destruct (IH p1 (S i) Hp1) as (q & Eq & Rq); [rewrite (rw_count _ _ _ _ R); lia|done|].
    exists q. cbn [write_slots]. replace (slot_count p - 1 - i)%nat with (slot_count p - (i + 1))%nat by lia.
    destruct Hp as [? ? Hsp]. rewrite dir_pos_entry by lia. rewrite E. cbn [mbind option_bind].
    rewrite (rw_count _ _ _ _ R) in Eq. rewrite (rw_free _ _ _ _ R) in Rq. split; [done|].
    eapply rewritten_trans; [exact R|]. eapply rewritten_ext; [|exact Rq].
    intros j Hj. rewrite (rw_count _ _ _ _ R) in Hj. cbv beta. rewrite (rw_entry _ _ _ _ R) by done.
    destruct (Nat.ltb_spec j (S i)), (Nat.ltb_spec j i), (decide (j = i)); try lia; try done.
    + subst. by rewrite Nat.sub_diag.
    + by replace (j - i)%nat with (S (j - S i)) by lia.
Qed.

Lemma set_free p v :
  page_base p -> (HEADER_SIZE + v + slot_count p * SLOT_SIZE <= PAGE_SIZE)%nat ->
  rewritten p (entry p) v (set_u16 p FREE_OFF (wrap 16 (Z.of_nat v))).
Proof.
  intros [Hl Hb Hs] Hv.
  rewrite wrap_id by (unfold uint; page_lia).
  assert (wrote p FREE_OFF (to_le 2 (Z.of_nat v)) (set_u16 p FREE_OFF (Z.of_nat v))) as W
    by (apply set_u16_wrote; page_lia).
  pose proof (length_to_le 2 (Z.of_nat v)) as Lt. split.
  - rewrite (wr_length _ _ _ _ W). done.
  - apply (wr_ok _ _ _ _ W); auto with rg.
  - unfold slot_count. rewrite (wrote_u16_other _ _ _ _ COUNT_OFF W) by page_lia. done.
  - unfold free_space_offset. rewrite (wrote_u16_same _ _ _ _ W) by (unfold uint; page_lia). lia.
  - intros i Hi. apply (wrote_slot_other _ _ _ _ _ W). unfold entry_pos. page_lia.
  - intros a b Ha Hbb. apply (wr_frame _ _ _ _ W). page_lia.
Qed.

(** ** Storing a record *)

Lemma Some_bind {A B} (f : A -> option B) x : Some x ≫= f = f x.
Proof. reflexivity. Qed.

(** [q] is [p] with [record] written at the free offset. *)
Record stored (p : Page) (record : list Z) (q : Page) : Prop := {
  st_base : page_base q;
  st_count : slot_count q = slot_count p;
  st_free : free_space_offset q = free_space_offset p;
  st_entry : forall i, (i < slot_count p)%nat -> entry q i = entry p i;
  st_agree : data_agree p q (free_space_offset p);
  st_record : slice q (HEADER_SIZE + free_space_offset p)
                (HEADER_SIZE + free_space_offset p + length record) = record
}.

Lemma available_room p n :
  page_base p -> (n <= available p)%nat ->
  (HEADER_SIZE + free_space_offset p + slot_count p * SLOT_SIZE + n <= PAGE_SIZE)%nat.
Proof. intros [_ _ Hs]. unfold available, saturating_sub. lia. Qed.

Lemma store_record p record :
  page_base p -> bytes_ok record -> (length record <= available p)%nat ->
  exists q, checked_write p (HEADER_SIZE + free_space_offset p) record = Some q /\ stored p record q.
Proof.
  intros Hp Hb Hn. pose proof (available_room p _ Hp Hn) as Hroom. destruct Hp as [Hl Hbp Hs].
  destruct (checked_write_ok p (HEADER_SIZE + free_space_offset p) record) as (q & E & W); [page_lia|].
  exists q. split; [done|].
  assert (slot_count q = slot_count p) as Ec.
  { unfold slot_count. rewrite (wrote_u16_other _ _ _ _ COUNT_OFF W) by page_lia. done. }
  assert (free_space_offset q = free_space_offset p) as Ef.
  { unfold free_space_offset. rewrite (wrote_u16_other _ _ _ _ FREE_OFF W) by page_lia. done. }
  split; [|done|done| | |apply (wr_here _ _ _ _ W)].
  - split; [by rewrite (wr_length _ _ _ _ W)|by apply (wr_ok _ _ _ _ W)|by rewrite Ec, Ef].
  - intros i Hi. apply (wrote_slot_other _ _ _ _ _ W). unfold entry_pos. page_lia.
  - intros a b Ha Hbb. apply (wr_frame _ _ _ _ W). page_lia.
Qed.

(** The slot of a record stored at the free offset. *)
Definition new_slot (p : Page) (record : list Z) : Slot :=
  mkSlot (wrap 16 (Z.of_nat (free_space_offset p))) (wrap 16 (Z.of_nat (length record))).

Lemma new_slot_spec p record q :
  page_base p -> (length record <= available p)%nat -> stored p record q ->
  slot_u16 (new_slot p record) /\
  slot_fits (new_slot p record) (free_space_offset p + length record) /\
  slot_data q (new_slot p record) = Some record.
Proof.
  intros Hp Hn Hq. pose proof (available_room p _ Hp Hn) as Hroom.
  destruct (count_bounds p Hp) as (_ & Hf & _ & _). unfold new_slot.
  rewrite !wrap_id by (unfold uint; page_lia).
  split; [split; cbn [s_offset s_length]; unfold uint; page_lia|].
  split; [right; cbn [s_offset s_length]; lia|].
  unfold slot_data, is_deleted. cbn [s_offset s_length].
  destruct (Z.eqb_spec (Z.of_nat (free_space_offset p)) U16_MAX) as [E|_]; [unfold U16_MAX in E; lia|].
  rewrite !Nat2Z.id. f_equal. apply (st_record _ _ _ Hq).
Qed.

(** A page whose directory was rewritten: what it holds, entry by entry. *)
Lemma rewritten_contents p f free q :
  rewritten p f free q -> page_base p ->
  (HEADER_SIZE + free + slot_count p * SLOT_SIZE <= PAGE_SIZE)%nat ->
  (forall i, (i < slot_count p)%nat -> slot_fits (f i) free) ->
  page_ok q /\ contents q = (fun i => slot_data p (f i)) <$> seq 0 (slot_count p).
Proof.
  intros [Hl Hb Ec Ef He Ha] Hp Hroom Hfit. split.
  - split; [done|done|by rewrite Ef, Ec|]. intros i Hi. rewrite Ec in Hi. rewrite Ef, He by done. auto.
  - unfold contents. rewrite Ec. apply list_fmap_ext. intros k i Hk.
    apply lookup_seq in Hk as [-> Hk]. cbn [Nat.add] in *. rewrite He by done.
    eapply slot_data_frame; [exact Ha|]. eapply slot_fits_mono; [|by apply Hfit]. lia.
Qed.

Lemma lookup_fmap_seq {A} (f : nat -> A) n i :
  (f <$> seq 0 n) !! i = if (i <? n)%nat then Some (f i) else None.
Proof.
  rewrite list_lookup_fmap. destruct (Nat.ltb_spec i n).
  - by rewrite lookup_seq_lt.
  - by rewrite lookup_seq_ge.
Qed.

Lemma bump_count p :
  page_base p -> (HEADER_SIZE + free_space_offset p + S (slot_count p) * SLOT_SIZE <= PAGE_SIZE)%nat ->
  let q := set_u16 p COUNT_OFF (wrap 16 (get_u16 p COUNT_OFF + 1)) in
  page_base q /\ slot_count q = S (slot_count p) /\ free_space_offset q = free_space_offset p /\
  (forall i, (i < slot_count p)%nat -> entry q i = entry p i) /\
  (forall lim, data_agree p q lim).
Proof.
  intros Hp Hroom q. destruct (count_bounds p Hp) as (Hc & _ & Ec & _). destruct Hp as [Hl Hb Hs].
  subst q. rewrite Ec, wrap_id by (unfold uint; lia). set (v := Z.of_nat (slot_count p) + 1).
  assert (wrote p COUNT_OFF (to_le 2 v) (set_u16 p COUNT_OFF v)) as W by (apply set_u16_wrote; page_lia).
  pose proof (length_to_le 2 v) as Lt. set (q := set_u16 p COUNT_OFF v) in *.
  assert (slot_count q = S (slot_count p)) as Eq.
  { unfold slot_count at 1. rewrite (wrote_u16_same _ _ _ _ W) by (unfold uint; lia). lia. }
  assert (free_space_offset q = free_space_offset p) as Ef.
  { unfold free_space_offset. rewrite (wrote_u16_other _ _ _ _ FREE_OFF W) by page_lia. done. }
  split; [|split; [done|split; [done|split]]].
  - split; [by rewrite (wr_length _ _ _ _ W)|apply (wr_ok _ _ _ _ W); auto with rg|by rewrite Ef, Eq].
  - intros i Hi. apply (wrote_slot_other _ _ _ _ _ W). unfold entry_pos. page_lia.
  - intros lim a b Ha Hbb. apply (wr_frame _ _ _ _ W). page_lia.
Qed.

(** A page with [record] stored and the header bumped: one more slot, whose
    entry is yet to be written. *)
Record grown (p : Page) (record : list Z) (q : Page) : Prop := {
  gr_base : page_base q;
  gr_count : slot_count q = S (slot_count p);
  gr_free : free_space_offset q = (free_space_offset p + length record)%nat;
  gr_entry : forall i, (i < slot_count p)%nat -> entry q i = entry p i;
  gr_agree : data_agree p q (free_space_offset p);
  gr_record : slot_data q (new_slot p record) = Some record
}.

Lemma grow p record :
  page_base p -> bytes_ok record -> (length record + SLOT_SIZE <= available p)%nat ->
  exists p1, checked_write p (HEADER_SIZE + free_space_offset p) record = Some p1 /\
    get_u16 p1 COUNT_OFF = Z.of_nat (slot_count p) /\
    grown p record (set_u16 (set_u16 p1 COUNT_OFF (wrap 16 (get_u16 p1 COUNT_OFF + 1))) FREE_OFF
                      (wrap 16 (Z.of_nat (free_space_offset p + length record)))).
Proof.
  intros Hp Hb Hn. pose proof (available_room p _ Hp Hn) as Hroom.
  destruct (store_record p record Hp Hb) as (p1 & E1 & S1); [lia|]. exists p1. split; [done|].
  destruct (new_slot_spec p record p1 Hp ltac:(lia) S1) as (_ & Nf & Nd).
  destruct S1 as [B1 C1 F1 T1 A1 _].
  split; [rewrite <- C1; apply (count_bounds p1 B1)|].
  destruct (bump_count p1 B1) as (B2 & C2 & F2 & T2 & A2); [rewrite C1, F1; page_lia|].
  set (p2 := set_u16 p1 COUNT_OFF _) in *. clearbody p2.
  destruct (set_free p2 (free_space_offset p + length record) B2) as [L3 B3 C3 F3 T3 A3];
    [rewrite C2, C1; page_lia|]. set (p3 := set_u16 p2 FREE_OFF _) in *. clearbody p3.
  assert (forall a b, (HEADER_SIZE <= a)%nat ->
    (b <= HEADER_SIZE + (free_space_offset p + length record))%nat -> slice p3 a b = slice p1 a b) as A.
  { intros a b Ha Hbb. rewrite A3, (A2 _ a b Ha Hbb); [done|done|rewrite C2, C1; page_lia]. }
  split.
  - split; [done|done|]. rewrite C3, F3, C2, C1. page_lia.
  - by rewrite C3, C2, C1.
  - done.
  - intros i Hi. rewrite T3, T2, T1 by lia. done.
  - intros a b Ha Hbb. rewrite A by lia. by apply A1.
  - rewrite <- Nd. eapply slot_data_frame; [exact A|exact Nf].
Qed.

(** Once the directory of a grown page is filled with the old entries and the
    new slot, the page holds what they designate. *)
Lemma grown_contents p record q g r :
  page_ok p -> (length record + SLOT_SIZE <= available p)%nat -> grown p record q ->
  rewritten q (fun i => from_option (entry p) (new_slot p record) (g i)) (free_space_offset q) r ->
  (forall i j, (i < S (slot_count p))%nat -> g i = Some j -> (j < slot_count p)%nat) ->
  page_ok r /\
  contents r = (fun i => from_option (fun j => slot_data p (entry p j)) (Some record) (g i))
                 <$> seq 0 (S (slot_count p)).
Proof.
  intros Hp Hn [B C F _ A D] R Hg. pose proof (page_ok_base p Hp) as Hpb.
  pose proof (available_room p _ Hpb Hn) as Hroom.
  assert (slot_fits (new_slot p record) (free_space_offset p + length record)) as Nf.
  { right. destruct (count_bounds p Hpb) as (_ & Hfb & _ & _). unfold new_slot.
    rewrite !wrap_id by (unfold uint; page_lia). cbn [s_offset s_length]. lia. }
  destruct (rewritten_contents _ _ _ _ R B) as [Hr E]; [apply B| |].
  - rewrite C, F. intros i Hi. destruct (g i) as [j|] eqn:Ej; cbn [from_option]; [|done].
    eapply slot_fits_mono; [|eapply (po_slots p Hp), (Hg i j Hi Ej)]. lia.
  - split; [done|]. rewrite E, C. apply list_fmap_ext. intros k i Hk.
    apply lookup_seq in Hk as [-> Hk]. cbn [Nat.add] in *.
    destruct (g k) as [j|] eqn:Ej; cbn [from_option]; [|done].
    eapply slot_data_frame; [exact A|]. eapply (po_slots p Hp), (Hg k j Hk Ej).
Qed.

(** No live slot designates bytes below data offset [lim]. *)
Definition slots_above (lim : nat) (p : Page) : Prop :=
  forall i, (i < slot_count p)%nat -> is_deleted (entry p i) = true \/ Z.of_nat lim <= s_offset (entry p i).

Lemma grown_above p record q g r lim :
  page_base p -> grown p record q -> (lim <= free_space_offset p)%nat -> slots_above lim p ->
  rewritten q (fun i => from_option (entry p) (new_slot p record) (g i)) (free_space_offset q) r ->
  (forall i j, (i < S (slot_count p))%nat -> g i = Some j -> (j < slot_count p)%nat) ->
  slots_above lim r /\ free_space_offset r = (free_space_offset p + length record)%nat.
Proof.
  intros Hp G Hlim Ha R Hg. split; [|by rewrite (rw_free _ _ _ _ R), (gr_free _ _ _ G)].
  intros i Hi. rewrite (rw_count _ _ _ _ R), (gr_count _ _ _ G) in Hi.
  rewrite (rw_entry _ _ _ _ R) by (rewrite (gr_count _ _ _ G); lia).
  destruct (g i) as [j|] eqn:Ej; cbn [from_option]; [by eapply Ha, Hg|]. right.
  destruct (count_bounds p Hp) as (_ & Hfb & _ & _). unfold new_slot. cbn [s_offset].
  rewrite wrap_id by (unfold uint; lia). lia.
Qed.

(** [insert] where no deleted slot is adequate: a new slot at the end. *)
Lemma place_append p record :
  page_ok p -> bytes_ok record -> (length record + SLOT_SIZE <= available p)%nat ->
  best_fit p (length record) (slot_count p) 0 None None = None ->
  exists q, place p (slot_count p) (free_space_offset p) record = Some (slot_count p, q) /\
    page_ok q /\ contents q = contents p ++ [Some record] /\
    (forall lim, (lim <= free_space_offset p)%nat -> slots_above lim p ->
       slots_above lim q /\ free_space_offset q = (free_space_offset p + length record)%nat).
Proof.
  intros Hp Hb Hn Hbf. pose proof (page_ok_base p Hp) as Hpb.
  destruct (grow p record Hpb Hb Hn) as (p1 & E1 & C1 & G). unfold place. rewrite Hbf, E1.
  rewrite Some_bind. destruct (count_bounds p Hpb) as (Hc & _ & _ & _).
  revert G. rewrite C1. rewrite (wrap_id 16 (Z.of_nat (slot_count p) + 1)) by (unfold uint; lia).
  fold (new_slot p record). generalize (set_u16 (set_u16 p1 COUNT_OFF (Z.of_nat (slot_count p) + 1))
    FREE_OFF (wrap 16 (Z.of_nat (free_space_offset p + length record)))). intros q G.
  destruct (new_slot_spec p record p1 Hpb) as (U & _ & _); [lia| |].
  { destruct (store_record p record Hpb Hb) as (p1' & E1' & S1); [lia|]. congruence. }
  destruct (put_entry q (slot_count p) (new_slot p record) (gr_base _ _ _ G)) as [Ew R];
    [rewrite (gr_count _ _ _ G); lia|done|].
  replace (PAGE_SIZE - Z.to_nat (Z.of_nat (slot_count p) + 1) * SLOT_SIZE)%nat
    with (entry_pos (slot_count p)) by (unfold entry_pos; page_lia).
  rewrite Ew. eexists. split; [by replace (Z.to_nat (Z.of_nat (slot_count p) + 1 - 1)) with (slot_count p) by lia|].
  set (g := fun i => if decide (i = slot_count p) then None else Some i).
  assert (forall i j, (i < S (slot_count p))%nat -> g i = Some j -> (j < slot_count p)%nat) as Hg.
  { intros i j Hi Hj. unfold g in Hj. case_decide; simplify_eq. lia. }
  assert (rewritten q (fun i => from_option (entry p) (new_slot p record) (g i)) (free_space_offset q)
    (write_slot q (entry_pos (slot_count p)) (new_slot p record))) as R'.
  { eapply rewritten_ext; [|exact R]. intros i Hi. rewrite (gr_count _ _ _ G) in Hi. unfold g.
    cbv beta. case_decide; [reflexivity|]. cbn [from_option]. apply (gr_entry _ _ _ G). lia. }
  destruct (grown_contents p record q g _ Hp Hn G R' Hg) as [Ho E]. split; [exact Ho|]. split.
  - rewrite E, seq_S, fmap_app. cbn [fmap list_fmap Nat.add]. unfold g at 2.
    rewrite decide_True by done. f_equal. unfold contents. apply list_fmap_ext.
    intros k i Hk. apply lookup_seq in Hk as [-> Hk]. cbn [Nat.add]. unfold g.
    rewrite decide_False by lia. done.
  - intros lim Hl Ha. by apply (grown_above p record q g).
Qed.

(** Deleted slots whose recorded length is adequate for [len] bytes. *)
Definition slot_len (p : Page) (i : nat) : nat := Z.to_nat (s_length (entry p i)).
Definition reusable (p : Page) (len i : nat) : Prop :=
  is_deleted (entry p i) = true /\ (len <= slot_len p i)%nat.

Lemma best_fit_spec p len : (slot_count p * SLOT_SIZE <= PAGE_SIZE)%nat -> forall n i best,
  (i + n <= slot_count p)%nat ->
  match best_fit p len n i best (slot_len p <$> best) with
  | Some k => (best = Some k \/ (i <= k < i + n)%nat /\ reusable p len k) /\
      (forall j, (i <= j < i + n)%nat -> reusable p len j -> (slot_len p k <= slot_len p j)%nat) /\
      (forall b, best = Some b -> (slot_len p k <= slot_len p b)%nat)
  | None => best = None /\ forall j, (i <= j < i + n)%nat -> ~ reusable p len j
  end.
Proof.
  intros Hsp. induction n as [|n IH]; intros i best Hn; cbn [best_fit].
  - destruct best as [k|]; [|split; [done|lia]]. split; [by left|]. split; [lia|]. intros b [= ->]. lia.
  - rewrite slot_entry by done. destruct (Nat.ltb_spec i (slot_count p)); [|lia].
    fold (slot_len p i). destruct (is_deleted (entry p i) && _ && _) eqn:E.
    + apply andb_true_iff in E as [[Ed El%Nat.leb_le]%andb_true_iff Eb].
      assert (forall b, best = Some b -> (slot_len p i < slot_len p b)%nat) as Hlt.
      { intros b ->. cbn [fmap option_fmap option_map] in Eb. by apply Nat.ltb_lt. }
      specialize (IH (S i) (Some i) ltac:(lia)). cbn [fmap option_fmap option_map] in IH.
      destruct (best_fit p len n (S i) (Some i) (Some (slot_len p i))) as [k|]; [|by destruct IH].
      destruct IH as (I1 & I2 & I3). specialize (I3 i eq_refl). split; [|split].
      * right. destruct I1 as [[= ->]|[? ?]]; split; auto; [lia|by split|lia].
      * intros j Hj Hr. destruct (decide (j = i)) as [->|]; [done|]. apply I2; [lia|done].
      * intros b Hb. specialize (Hlt b Hb). lia.
    + specialize (IH (S i) best ltac:(lia)).
      assert (reusable p len i -> exists b, best = Some b /\ (slot_len p b <= slot_len p i)%nat) as Hno.
      { intros [Ed El]. rewrite Ed in E. apply Nat.leb_le in El. rewrite El in E.
        destruct best as [b|]; [|done]. exists b. split; [done|].
        cbn [fmap option_fmap option_map andb] in E. by apply Nat.ltb_ge in E. }
      destruct (best_fit p len n (S i) best (slot_len p <$> best)) as [k|].
      * destruct IH as (I1 & I2 & I3). split; [destruct I1 as [?|[? ?]]; [by left|right; split; [lia|done]]|].
        split; [|done]. intros j Hj Hr. destruct (decide (j = i)) as [->|]; [|apply I2; [lia|done]].
        destruct (Hno Hr) as (b & Hb & Hl). specialize (I3 b Hb). lia.
      * destruct IH as [-> I2]. split; [done|]. intros j Hj Hr.
        destruct (decide (j = i)) as [->|]; [by destruct (Hno Hr) as (? & ? & _)|].
        apply (I2 j); [lia|done].
Qed.

(** [insert] into a deleted slot: the record goes to the free area and the slot
    is redirected to it. *)
Lemma place_reuse p record i :
  page_ok p -> bytes_ok record -> (length record + SLOT_SIZE <= available p)%nat ->
  (i < slot_count p)%nat ->
  best_fit p (length record) (slot_count p) 0 None None = Some i ->
  exists q, place p (slot_count p) (free_space_offset p) record = Some (i, q) /\
    page_ok q /\ contents q = <[i := Some record]> (contents p).
Proof.
  intros Hp Hb Hn Hi Hbf. pose proof (page_ok_base p Hp) as Hpb.
  pose proof (available_room p _ Hpb Hn) as Hroom.
  destruct (store_record p record Hpb Hb) as (p1 & E1 & S1); [lia|].
  destruct (new_slot_spec p record p1 Hpb ltac:(lia) S1) as (U & Nf & Nd).
  destruct S1 as [B1 C1 F1 T1 A1 _]. unfold place. rewrite Hbf, E1, Some_bind.
  fold (new_slot p record). unfold set_slot. rewrite C1.
  replace (slot_count p - i - 1)%nat with (slot_count p - (i + 1))%nat by lia.
  rewrite dir_pos_entry by page_lia.
  destruct (put_entry p1 i (new_slot p record) B1) as [_ R2]; [lia|done|].
  set (p2 := write_slot p1 _ _) in *. clearbody p2.
  assert (page_base p2) as B2.
  { destruct R2 as [? ? X Y _ _]. split; [done|done|]. rewrite X, Y. apply B1. }
  assert (rewritten p2 (entry p2) (free_space_offset p + length record)
    (set_u16 p2 FREE_OFF (wrap 16 (Z.of_nat (free_space_offset p + length record))))) as R3
    by (apply set_free; [done|]; rewrite (rw_count _ _ _ _ R2), C1; page_lia).
  eexists. split; [reflexivity|]. pose proof (rewritten_trans _ _ _ _ _ _ _ R2 R3) as R.
  assert (rewritten p1 (fun j => if decide (j = i) then new_slot p record else entry p j)
    (free_space_offset p + length record)
    (set_u16 p2 FREE_OFF (wrap 16 (Z.of_nat (free_space_offset p + length record))))) as R'.
  { eapply rewritten_ext; [|exact R]. intros j Hj. rewrite (rw_entry _ _ _ _ R2) by done.
    cbv beta. case_decide; [done|]. apply T1. lia. }
  destruct (rewritten_contents _ _ _ _ R' B1) as [Ho E].
  - rewrite C1. page_lia.
  - intros j Hj. cbv beta. case_decide; [done|]. eapply slot_fits_mono; [|apply Hp; lia]. lia.
  - split; [exact Ho|]. rewrite E, C1. apply list_eq. intros j. rewrite lookup_fmap_seq.
    destruct (Nat.ltb_spec j (slot_count p)).
    + case_decide as Ej.
      * subst j. rewrite list_lookup_insert_eq by (rewrite length_contents; lia). by rewrite Nd.
      * rewrite list_lookup_insert_ne by done. rewrite lookup_contents.
        destruct (Nat.ltb_spec j (slot_count p)); [|lia]. apply (f_equal Some).
        eapply slot_data_frame; [exact A1|]. by apply (po_slots p Hp).
    + rewrite lookup_ge_None_2; [done|]. rewrite length_insert, length_contents. lia.
Qed.

(** ** The operations refine a list of optional records *)

(** C38: an [insert] that finds room without compaction stores the record:
    in the deleted slot of least adequate length if there is one, and in a new
    slot at the end otherwise; every other slot reads as before and the page
    stays well formed. *)
Theorem insert_refines p record :
  page_ok p -> bytes_ok record -> (length record <= MAX_INLINE_RECORD_LEN)%nat ->
  (length record + SLOT_SIZE <= available p)%nat ->
  exists i q, insert p record = Some (Some i, q) /\ page_ok q /\ read q i = Some record /\
    ((contents p !! i = Some None /\ reusable p (length record) i /\
      (forall j, (j < slot_count p)%nat -> reusable p (length record) j -> (slot_len p i <= slot_len p j)%nat) /\
      contents q = <[i := Some record]> (contents p)) \/
     (i = slot_count p /\ (forall j, (j < slot_count p)%nat -> ~ reusable p (length record) j) /\
      contents q = contents p ++ [Some record])).
Proof.
  intros Hp Hb Hmax Hn. unfold insert.
  destruct (Nat.ltb_spec MAX_INLINE_RECORD_LEN (length record)); [lia|].
  destruct (Nat.ltb_spec (available p) (length record + SLOT_SIZE)); [lia|].
  pose proof (po_space _ Hp) as Hsp.
  pose proof (best_fit_spec p (length record) ltac:(lia) (slot_count p) 0 None ltac:(lia)) as Hbf.
  cbn [fmap option_fmap option_map] in Hbf.
  destruct (best_fit p (length record) (slot_count p) 0 None None) as [i|] eqn:E.
  - destruct Hbf as ([?|[Hi Hr]] & Hmin & _); [done|].
    destruct (place_reuse p record i Hp Hb Hn ltac:(lia) E) as (q & Eq & Hq & Ec).
    rewrite Eq, Some_bind. exists i, q. split; [done|]. split; [done|].
    split; [rewrite read_contents, Ec, list_lookup_insert_eq by (done || rewrite length_contents; lia); done|].
    left. split; [|split; [done|split; [intros; apply Hmin; [lia|done]|done]]].
    rewrite lookup_contents. destruct (Nat.ltb_spec i (slot_count p)); [|lia].
    unfold slot_data. by rewrite (proj1 Hr).
  - destruct Hbf as [_ Hno]. destruct (place_append p record Hp Hb Hn E) as (q & Eq & Hq & Ec & _).
    rewrite Eq, Some_bind. exists (slot_count p), q. split; [done|]. split; [done|].
    split; [|right; split; [done|split; [intros j Hj; apply Hno; lia|done]]].
    rewrite read_contents, Ec by done. rewrite lookup_app_r by (rewrite length_contents; lia).
    by rewrite length_contents, Nat.sub_diag.
Qed.

Lemma delete_spec p i :
  page_ok p ->
  page_ok (delete p i).2 /\
  ((delete p i).1 = true <-> exists r, read p i = Some r) /\
  contents (delete p i).2 = if (delete p i).1 then <[i := None]> (contents p) else contents p.
Proof.
  intros Hp. pose proof (page_ok_base p Hp) as Hpb. pose proof (po_space _ Hp) as Hsp.
  rewrite read_contents, lookup_contents by done. unfold delete. rewrite slot_entry by lia.
  destruct (Nat.ltb_spec i (slot_count p)) as [Hi|Hi];
    [|split; [done|split; [split; [done|intros [? [=]]]|done]]].
  unfold slot_data at 1. destruct (is_deleted (entry p i)) eqn:Ed;
    [split; [done|split; [split; [done|intros [? [=]]]|done]]|].
  cbn [fst snd default from_option]. unfold set_slot.
  replace (slot_count p - i - 1)%nat with (slot_count p - (i + 1))%nat by lia.
  rewrite dir_pos_entry by lia. destruct (entry_u16 p i Hpb Hi) as [_ Hul].
  revert Hul. generalize (s_length (entry p i)). intros len Hul. set (s := mkSlot U16_MAX len).
  assert (is_deleted s = true) as Hds by done.
  destruct (put_entry p i s Hpb Hi) as [_ R].
  { by split. }
  destruct (rewritten_contents _ _ _ _ R Hpb Hsp) as [Ho E].
  { intros j Hj. cbv beta. case_decide; [by left|by apply (po_slots p Hp)]. }
  split; [exact Ho|]. split; [split; [intros _; by eexists|done]|]. rewrite E.
  apply list_eq. intros j. rewrite lookup_fmap_seq. destruct (Nat.ltb_spec j (slot_count p)).
  - case_decide as Ej.
    + subst j. rewrite list_lookup_insert_eq by (rewrite length_contents; lia).
      unfold slot_data. by rewrite Hds.
    + rewrite list_lookup_insert_ne by done. rewrite lookup_contents.
      destruct (Nat.ltb_spec j (slot_count p)); [done|lia].
  - rewrite lookup_ge_None_2; [done|]. rewrite length_insert, length_contents. lia.
Qed.

(** [delete] answers whether the slot held a record, and if so the slot
    becomes empty and no other slot changes. *)
Theorem delete_refines p i :
  page_ok p ->
  page_ok (delete p i).2 /\
  ((delete p i).1 = true <-> exists r, read p i = Some r) /\
  contents (delete p i).2 = if (delete p i).1 then <[i := None]> (contents p) else contents p.
Proof. apply delete_spec. Qed.

Lemma collect_slots_entries p : (slot_count p * SLOT_SIZE <= PAGE_SIZE)%nat -> forall n i,
  (i + n <= slot_count p)%nat -> collect_slots p n i = entry p <$> seq i n.
Proof.
  intros Hsp. induction n as [|n IH]; intros i Hi; [done|]. cbn [collect_slots seq].
  rewrite slot_entry by done. destruct (Nat.ltb_spec i (slot_count p)); [|lia].
  rewrite fmap_cons. f_equal. apply IH. lia.
Qed.

(** The position shift of an insertion at [pos]. *)
Definition shifted (pos i : nat) : option nat :=
  if (i <? pos)%nat then Some i else if (i =? pos)%nat then None else Some (i - 1)%nat.

Lemma lookup_inserted {A} (f : nat -> A) (x : A) n pos i : (pos <= n)%nat ->
  (take pos (f <$> seq 0 n) ++ [x] ++ drop pos (f <$> seq 0 n)) !! i =
  if (i <? S n)%nat then Some (from_option f x (shifted pos i)) else None.
Proof.
  intros Hp. assert (length (take pos (f <$> seq 0 n)) = pos) as Hl.
  { rewrite length_take, length_fmap, length_seq. lia. }
  unfold shifted. destruct (Nat.ltb_spec i pos).
  - rewrite lookup_app_l, lookup_take_lt, lookup_fmap_seq by lia.
    destruct (Nat.ltb_spec i n), (Nat.ltb_spec i (S n)); (done || lia).
  - rewrite lookup_app_r, Hl by lia. destruct (Nat.eqb_spec i pos) as [->|].
    + rewrite Nat.sub_diag. destruct (Nat.ltb_spec pos (S n)); (done || lia).
    + rewrite lookup_app_r by (cbn [length]; lia). cbn [length]. rewrite lookup_drop, lookup_fmap_seq.
      replace (pos + (i - pos - 1))%nat with (i - 1)%nat by lia.
      destruct (Nat.ltb_spec (i - 1) n), (Nat.ltb_spec i (S n)); (done || lia).
Qed.

Lemma shifted_bound pos n i j : (pos <= n)%nat -> (i < S n)%nat -> shifted pos i = Some j -> (j < n)%nat.
Proof.
  unfold shifted. intros ? ?. destruct (Nat.ltb_spec i pos), (Nat.eqb_spec i pos); intros [= <-]; lia.
Qed.

Lemma insert_at_place_spec p idx record :
  page_ok p -> bytes_ok record -> (length record + SLOT_SIZE <= available p)%nat ->
  let pos := min idx (slot_count p) in
  exists q, insert_at_place p idx record = Some (pos, q) /\ page_ok q /\
    contents q = take pos (contents p) ++ [Some record] ++ drop pos (contents p) /\
    (forall lim, (lim <= free_space_offset p)%nat -> slots_above lim p ->
       slots_above lim q /\ free_space_offset q = (free_space_offset p + length record)%nat).
Proof.
  intros Hp Hb Hn pos. pose proof (page_ok_base p Hp) as Hpb.
  destruct (grow p record Hpb Hb Hn) as (p1 & E1 & _ & G). unfold insert_at_place.
  rewrite E1, Some_bind. revert G. generalize (set_u16 (set_u16 p1 COUNT_OFF
    (wrap 16 (get_u16 p1 COUNT_OFF + 1))) FREE_OFF (wrap 16 (Z.of_nat (free_space_offset p + length record)))).
  intros p3 G. fold (new_slot p record). pose proof (pb_space _ (gr_base _ _ _ G)) as Hsp3.
  assert (collect_slots p3 (slot_count p3 - 1) 0 = entry p <$> seq 0 (slot_count p)) as ->.
  { rewrite (gr_count _ _ _ G) at 1. rewrite collect_slots_entries by (rewrite ?(gr_count _ _ _ G) in *; page_lia).
    rewrite Nat.sub_1_r. cbn [Nat.pred]. apply list_fmap_ext. intros k i Hk.
    apply lookup_seq in Hk as [-> Hk]. by apply (gr_entry _ _ _ G). }
  rewrite length_fmap, length_seq. fold pos. assert (pos <= slot_count p)%nat as Hpos by lia.
  set (ss := take pos _ ++ _ ++ _).
  assert (forall i, ss !! i = if (i <? S (slot_count p))%nat
    then Some (from_option (entry p) (new_slot p record) (shifted pos i)) else None) as Hss
    by (intros i; by apply lookup_inserted).
  assert (length ss = S (slot_count p)) as Hls.
  { unfold ss. rewrite !length_app, length_take, length_drop, length_fmap, length_seq. cbn [length]. lia. }
  assert (slot_u16 (new_slot p record)) as U.
  { destruct (store_record p record Hpb Hb) as (p1' & _ & S1); [lia|].
    apply (new_slot_spec p record p1' Hpb ltac:(lia) S1). }
  destruct (write_slots_spec ss p3 0 (gr_base _ _ _ G)) as (q & Eq & R).
  - rewrite Hls, (gr_count _ _ _ G). lia.
  - apply Forall_lookup. intros i s Hi. rewrite Hss in Hi.
    destruct (Nat.ltb_spec i (S (slot_count p))) as [Hlt|]; simplify_eq.
    destruct (shifted pos i) as [j|] eqn:Ej; [|done]. cbn [from_option].
    apply entry_u16; [done|]. by eapply shifted_bound.
  - rewrite Eq, Some_bind. exists q. split; [reflexivity|].
    assert (rewritten p3 (fun i => from_option (entry p) (new_slot p record) (shifted pos i)) (free_space_offset p3) q) as R'.
    { eapply rewritten_ext; [|exact R]. intros i Hi. rewrite (gr_count _ _ _ G) in Hi.
      cbv beta. rewrite Nat.sub_0_r, Hss.
      destruct (Nat.ltb_spec i 0), (Nat.ltb_spec i (S (slot_count p))); (lia || reflexivity). }
    assert (forall i j, (i < S (slot_count p))%nat -> shifted pos i = Some j -> (j < slot_count p)%nat) as Hg
      by (intros i j Hi Hj; by eapply shifted_bound).
    destruct (grown_contents p record p3 (shifted pos) q Hp Hn G R' Hg) as [Ho E].
    split; [exact Ho|]. split; [|intros lim Hl Ha; by apply (grown_above p record p3 (shifted pos))].
    rewrite E. apply list_eq. intros i. rewrite lookup_fmap_seq.
    unfold contents. rewrite lookup_inserted by done. done.
Qed.

(** An [insert_at] that finds room without compaction inserts the record
    at position [min idx slot_count] and shifts the later slots up by one. *)
Theorem insert_at_refines p idx record :
  page_ok p -> bytes_ok record -> (length record <= MAX_INLINE_RECORD_LEN)%nat ->
  (length record + SLOT_SIZE <= available p)%nat ->
  let pos := min idx (slot_count p) in
  exists q, insert_at p idx record = Some (Some pos, q) /\ page_ok q /\
    contents q = take pos (contents p) ++ [Some record] ++ drop pos (contents p).
Proof.
  intros Hp Hb Hmax Hn pos. unfold insert_at.
  destruct (Nat.ltb_spec MAX_INLINE_RECORD_LEN (length record)); [lia|].
  destruct (Nat.ltb_spec (available p) (length record + SLOT_SIZE)); [lia|].
  destruct (insert_at_place_spec p idx record Hp Hb Hn) as (q & Eq & Hq & Ec & _). fold pos in Eq, Ec.
  rewrite Eq, Some_bind. by exists q.
Qed.

(** ** What storing a record leaves alone

    Only the count and free-offset fields, the free area and the directory are
    written. *)

Definition keeps_below (lim : nat) (p q : Page) : Prop :=
  length q = length p /\
  forall a b, (b <= FREE_OFF \/ FLAGS_OFF <= a)%nat -> (b <= lim)%nat -> slice q a b = slice p a b.

Lemma keeps_below_refl lim p : keeps_below lim p p.
Proof. by split. Qed.

Lemma keeps_below_trans lim p q r : keeps_below lim p q -> keeps_below lim q r -> keeps_below lim p r.
Proof. intros [L1 H1] [L2 H2]. split; [congruence|]. intros a b Ha Hb. by rewrite H2, H1. Qed.

Lemma wrote_keeps lim p o bs q :
  wrote p o bs q -> (lim <= o \/ (FREE_OFF <= o /\ o + length bs <= FLAGS_OFF))%nat -> keeps_below lim p q.
Proof. intros W Ho. split; [apply W|]. intros a b Ha Hb. apply (wr_frame _ _ _ _ W). unfold FREE_OFF, FLAGS_OFF in *. lia. Qed.

Lemma checked_write_keeps lim p o bs q :
  checked_write p o bs = Some q -> (lim <= o)%nat -> keeps_below lim p q.
Proof.
  unfold checked_write. destruct (Nat.leb_spec (o + length bs) (length p)) as [Hl|]; [|done]. intros [= <-] Ho.
  apply (wrote_keeps lim p o bs); [by apply wrote_write_at|by left].
Qed.

Lemma set_u16_keeps lim p o v :
  (FLAGS_OFF <= length p)%nat -> (FREE_OFF <= o /\ o + 2 <= FLAGS_OFF)%nat -> keeps_below lim p (set_u16 p o v).
Proof. intros Hl Ho. eapply wrote_keeps; [apply set_u16_wrote; lia|]. right. by rewrite length_to_le. Qed.

Lemma write_slots_keeps lim ss : forall p count i q,
  write_slots p count i ss = Some q -> (lim <= PAGE_SIZE - count * SLOT_SIZE)%nat -> keeps_below lim p q.
Proof.
  induction ss as [|x ss IH]; intros p count i q; cbn [write_slots]; [intros [= <-] _; apply keeps_below_refl|].
  destruct (checked_write p _ (slot_bytes x)) as [p1|] eqn:E; [|done]. rewrite Some_bind. intros H Hl.
  eapply keeps_below_trans; [eapply checked_write_keeps; [exact E|]; unfold dir_pos; page_lia|]. by eapply IH.
Qed.

Lemma keeps_free lim p q :
  keeps_below lim p q -> forall o, (o + 2 <= FREE_OFF \/ FLAGS_OFF <= o)%nat -> (o + 2 <= lim)%nat -> get_u16 q o = get_u16 p o.
Proof. intros [_ H] o Ho Hl. unfold get_u16. rewrite H; [done|lia|done]. Qed.

Lemma place_keeps p record i q :
  page_base p -> (length record + SLOT_SIZE <= available p)%nat -> get_u16 p COUNT_OFF + 1 < 2 ^ 16 ->
  best_fit p (length record) (slot_count p) 0 None None = None ->
  place p (slot_count p) (free_space_offset p) record = Some (i, q) ->
  keeps_below (HEADER_SIZE + free_space_offset p) p q.
Proof.
  intros Hp Hn Hc Hbf. pose proof (available_room p _ Hp Hn) as Hroom. destruct Hp as [Hl Hb Hs].
  unfold place. rewrite Hbf. destruct (checked_write p _ record) as [p1|] eqn:E1; [|done]. rewrite Some_bind.
  assert (keeps_below (HEADER_SIZE + free_space_offset p) p p1) as K1 by (eapply checked_write_keeps; [exact E1|lia]).
  assert (get_u16 p1 COUNT_OFF = get_u16 p COUNT_OFF) as Ec.
  { unfold checked_write in E1. destruct (Nat.leb_spec (HEADER_SIZE + free_space_offset p + length record) (length p)) as [Hw|]; [|done].
    injection E1 as <-. eapply wrote_u16_other; [by apply wrote_write_at|]. page_lia. }
  pose proof (get_u16_range p COUNT_OFF Hb ltac:(page_lia)) as Hr. rewrite Ec, wrap_id by (unfold uint in *; lia).
  set (p2 := set_u16 p1 COUNT_OFF _). set (p3 := set_u16 p2 FREE_OFF _). destruct K1 as [L1 K1].
  assert (keeps_below (HEADER_SIZE + free_space_offset p) p1 p2) as K2 by (apply set_u16_keeps; page_lia).
  assert (keeps_below (HEADER_SIZE + free_space_offset p) p2 p3) as K3 by (apply set_u16_keeps; [rewrite (proj1 K2)|]; page_lia).
  destruct (checked_write p3 _ _) as [p4|] eqn:E4; [|done]. rewrite Some_bind. intros [= _ <-].
  eapply keeps_below_trans; [by split|]. eapply keeps_below_trans; [exact K2|]. eapply keeps_below_trans; [exact K3|].
  eapply checked_write_keeps; [exact E4|]. unfold slot_count in Hroom. page_lia.
Qed.

Lemma insert_at_place_keeps p idx record i q :
  page_base p -> bytes_ok record -> (length record + SLOT_SIZE <= available p)%nat ->
  insert_at_place p idx record = Some (i, q) -> keeps_below (HEADER_SIZE + free_space_offset p) p q.
Proof.
  intros Hp Hrec Hn. pose proof (available_room p _ Hp Hn) as Hroom. unfold insert_at_place.
  destruct (grow p record Hp Hrec Hn) as (p1 & E1 & _ & G). rewrite E1, Some_bind. destruct Hp as [Hl Hb Hs].
  assert (keeps_below (HEADER_SIZE + free_space_offset p) p p1) as K1 by (eapply checked_write_keeps; [exact E1|lia]).
  pose proof (gr_count _ _ _ G) as Ec. revert Ec. clear G.
  set (p2 := set_u16 p1 COUNT_OFF _). set (p3 := set_u16 p2 FREE_OFF _). intros Ec. destruct K1 as [L1 K1].
  assert (keeps_below (HEADER_SIZE + free_space_offset p) p1 p2) as K2 by (apply set_u16_keeps; page_lia).
  assert (keeps_below (HEADER_SIZE + free_space_offset p) p2 p3) as K3 by (apply set_u16_keeps; [rewrite (proj1 K2)|]; page_lia).
  destruct (write_slots p3 _ _ _) as [p4|] eqn:E4; [|done]. rewrite Some_bind. intros [= _ <-].
  eapply keeps_below_trans; [by split|]. eapply keeps_below_trans; [exact K2|]. eapply keeps_below_trans; [exact K3|].
  eapply write_slots_keeps; [exact E4|]. rewrite Ec. page_lia.
Qed.

Lemma delete_keeps p i :
  page_ok p -> keeps_below (HEADER_SIZE + free_space_offset p) p (delete p i).2 /\
  free_space_offset (delete p i).2 = free_space_offset p /\
  (forall lim, slots_above lim p -> slots_above lim (delete p i).2).
Proof.
  intros Hp. pose proof (page_ok_base p Hp) as Hpb. pose proof (po_space _ Hp) as Hsp. unfold delete.
  rewrite slot_entry by lia. destruct (Nat.ltb_spec i (slot_count p)) as [Hi|]; [|by repeat split].
  destruct (is_deleted (entry p i)); [by repeat split|]. cbn [snd]. unfold set_slot.
  replace (slot_count p - i - 1)%nat with (slot_count p - (i + 1))%nat by lia.
  rewrite dir_pos_entry by lia. destruct (entry_u16 p i Hpb Hi) as [_ Hul].
  revert Hul. generalize (s_length (entry p i)). intros len Hul. set (s := mkSlot U16_MAX len).
  destruct (put_entry p i s Hpb Hi) as [_ R]; [by split|]. split; [|split].
  - unfold write_slot. eapply wrote_keeps; [apply wrote_write_at|]; rewrite ?length_slot_bytes, ?(po_length _ Hp);
      unfold entry_pos; page_lia.
  - apply (rw_free _ _ _ _ R).
  - intros lim Ha j. rewrite (rw_count _ _ _ _ R). intros Hj. rewrite (rw_entry _ _ _ _ R) by done.
    case_decide; [by left|by apply Ha].
Qed.

(** ** Fresh pages and checksums *)

Lemma length_header_new page_id t : length (header_new page_id t) = HEADER_SIZE.
Proof. unfold header_new. rewrite !length_app, !length_to_le, length_replicate. reflexivity. Qed.

Lemma header_new_fields page_id t :
  slice (header_new page_id t) COUNT_OFF (COUNT_OFF + 2) = [0; 0] /\
  slice (header_new page_id t) FREE_OFF (FREE_OFF + 2) = [0; 0].
Proof.
  unfold header_new. rewrite (app_assoc (to_le 8 0)), (app_assoc (to_le 8 0 ++ _)).
  split; (rewrite slice_skip by (rewrite !length_app, !length_to_le; unfold COUNT_OFF, FREE_OFF; lia));
    rewrite !length_app, !length_to_le; reflexivity.
Qed.

(** A freshly initialised page is well formed and empty. *)
Lemma init_ok page_id t : page_ok (init page_id t) /\ contents (init page_id t) = [].
Proof.
  assert (wrote (replicate PAGE_SIZE 0) 0 (header_new page_id t) (init page_id t)) as W.
  { apply wrote_write_at. rewrite length_header_new, length_replicate. page_lia. }
  assert (forall o, (o + 2 <= HEADER_SIZE)%nat ->
    slice (init page_id t) o (o + 2) = slice (header_new page_id t) o (o + 2)) as Hs.
  { intros o Ho. rewrite <- (wr_here _ _ _ _ W), length_header_new at 1. apply list_eq. intros i.
    rewrite !lookup_slice. destruct (decide (i < o + 2 - o)%nat); [|done].
    rewrite decide_True by page_lia. f_equal. }
  destruct (header_new_fields page_id t) as [Hc Hf].
  assert (slot_count (init page_id t) = 0%nat) as Ec.
  { unfold slot_count, get_u16. rewrite Hs, Hc by page_lia. reflexivity. }
  assert (free_space_offset (init page_id t) = 0%nat) as Ef.
  { unfold free_space_offset, get_u16. rewrite Hs, Hf by page_lia. reflexivity. }
  split; [|unfold contents; by rewrite Ec]. split.
  - rewrite (wr_length _ _ _ _ W). apply length_replicate.
  - apply (wr_ok _ _ _ _ W); [auto with rg|].
    unfold header_new. rewrite !bytes_ok_app. repeat match goal with |- _ /\ _ => split end; auto with rg;
      apply Forall_singleton; destruct t; unfold uint, page_type_code; lia.
  - rewrite Ec, Ef. page_lia.
  - rewrite Ec. lia.
Qed.

Section ChecksumProps.
Context `{CS : Checksums}.

Lemma checksum_ignores_field p q :
  slice q 0 28 = slice p 0 28 -> drop 32 q = drop 32 p ->
  compute_checksum_bytes q = compute_checksum_bytes p.
Proof. intros H1 H2. unfold compute_checksum_bytes. by rewrite H1, H2. Qed.

(** A page whose checksum was just updated verifies, keeps its magic
    number, stays well formed and stores the same records. *)
Theorem checksum_update_verifies p :
  page_ok p ->
  let q := update_checksum_bytes p in
  verify_checksum_bytes q = true /\ has_valid_magic_bytes q = has_valid_magic_bytes p /\
  page_ok q /\ contents q = contents p.
Proof.
  intros Hp q. pose proof (po_length _ Hp) as Hl. pose proof (po_bytes _ Hp) as Hb.
  pose proof (po_space _ Hp) as Hsp. set (c := compute_checksum_bytes p).
  assert (wrote p 28 (to_le 4 c) q) as W by (apply wrote_write_at; rewrite length_to_le; page_lia).
  pose proof (length_to_le 4 c) as Lc. pose proof (wr_length _ _ _ _ W) as Lq.
  assert (drop 32 q = drop 32 p) as Hd.
  { apply list_eq. intros i. rewrite !lookup_drop.
    pose proof (wr_frame _ _ _ _ W (32 + i) (32 + i + 1) ltac:(lia)) as Hf.
    apply (f_equal (fun l => l !! 0%nat)) in Hf. rewrite !lookup_slice in Hf.
    rewrite !decide_True in Hf by lia. by rewrite Nat.add_0_r in Hf. }
  assert (compute_checksum_bytes q = c) as Hcq.
  { apply checksum_ignores_field; [|done]. apply (wr_frame _ _ _ _ W). lia. }
  assert (uint 32 c) as Hc by (apply crc32c_range).
  assert (slot_count q = slot_count p) as Ec.
  { unfold slot_count. rewrite (wrote_u16_other _ _ _ _ COUNT_OFF W) by page_lia. done. }
  assert (free_space_offset q = free_space_offset p) as Ef.
  { unfold free_space_offset. rewrite (wrote_u16_other _ _ _ _ FREE_OFF W) by page_lia. done. }
  assert (forall i, (i < slot_count p)%nat -> entry q i = entry p i) as Ht.
  { intros i Hi. apply (wrote_slot_other _ _ _ _ _ W). unfold entry_pos. page_lia. }
  split; [|split; [|split]].
  - unfold verify_checksum_bytes. rewrite Lq, Hl, Nat.eqb_refl. cbn [negb]. rewrite Hcq.
    pose proof (wr_here _ _ _ _ W) as Hh. rewrite Lc in Hh. cbn [Nat.add] in Hh. rewrite Hh.
    rewrite from_to_le_id by done. apply Z.eqb_refl.
  - unfold has_valid_magic_bytes. rewrite Lq, (wr_frame _ _ _ _ W) by lia. done.
  - split; [congruence|apply (wr_ok _ _ _ _ W); auto with rg|by rewrite Ec, Ef|].
    intros i Hi. rewrite Ec in Hi. rewrite Ef, Ht by done. by apply (po_slots p Hp).
  - apply list_eq. intros i. rewrite !lookup_contents, Ec.
    destruct (Nat.ltb_spec i (slot_count p)); [|done]. apply (f_equal Some). rewrite Ht by done.
    eapply slot_data_frame; [|by apply (po_slots p Hp)]. intros a b Ha _. apply (wr_frame _ _ _ _ W). page_lia.
Qed.
End ChecksumProps.

(** ** Concrete pages *)

(** Successive inserts into a fresh data page; [None] if one is refused. *)
Fixpoint insert_all (p : Page) (rs : list (list Z)) : option Page :=
  match rs with
  | [] => Some p
  | r :: rs' => match insert p r with Some (Some _, q) => insert_all q rs' | _ => None end
  end.

Fixpoint insert_front (p : Page) (rs : list (list Z)) : option Page :=
  match rs with
  | [] => Some p
  | r :: rs' => match insert_at p 0 r with Some (Some _, q) => insert_front q rs' | _ => None end
  end.

Definition fresh : Page := init 1 PtSlottedData.

Lemma fresh_ok : page_ok fresh /\ contents fresh = [].
Proof. exact (init_ok 1 PtSlottedData). Qed.

Lemma insert_refines_witness :
  exists i q, insert fresh [7; 8; 9] = Some (Some i, q) /\ page_ok q /\ read q i = Some [7; 8; 9].
Proof.
  destruct fresh_ok as [Hp _].
  destruct (insert_refines fresh [7; 8; 9] Hp) as (i & q & E & Hq & Hr & _).
  - apply (bool_decide_unpack _). vm_compute. exact I.
  - apply Nat.leb_le. vm_compute. reflexivity.
  - apply Nat.leb_le. vm_compute. reflexivity.
  - exists i, q. exact (conj E (conj Hq Hr)).
Defined.

Lemma delete_refines_witness : page_ok (delete fresh 0).2 /\ contents (delete fresh 0).2 = [].
Proof.
  destruct fresh_ok as [Hp Hc].
  destruct (delete_refines fresh 0 Hp) as (H1 & _ & H3). split; [exact H1|].
  rewrite H3. replace (delete fresh 0).1 with false by (vm_compute; reflexivity). exact Hc.
Defined.

Lemma insert_at_refines_witness :
  exists q, insert_at fresh 0 [5; 6] = Some (Some 0%nat, q) /\ page_ok q /\ contents q = [Some [5; 6]].
Proof.
  destruct fresh_ok as [Hp Hc].
  destruct (insert_at_refines fresh 0 [5; 6] Hp) as (q & E & Hq & Hr).
  - apply (bool_decide_unpack _). vm_compute. exact I.
  - apply Nat.leb_le. vm_compute. reflexivity.
  - apply Nat.leb_le. vm_compute. reflexivity.
  - exists q. rewrite Hc in Hr. exact (conj E (conj Hq Hr)).
Defined.

Lemma checksum_update_verifies_witness :
  @verify_checksum_bytes additive_checksums (@update_checksum_bytes additive_checksums fresh) = true.
Proof.
  destruct fresh_ok as [Hp _].
  exact (proj1 (@checksum_update_verifies additive_checksums fresh Hp)).
Defined.

(** Compaction writes the new directory in slot order from its low end,
    while slot [0] is read at its high end: the surviving records come back
    under reversed slot numbers. *)
Theorem compact_reverses_slots :
  match insert_all fresh [[1; 1]; [2; 2; 2]; [3]] with
  | Some p => contents p = [Some [1; 1]; Some [2; 2; 2]; Some [3]] /\
              (contents <$> compact p) = Some [Some [3]; Some [2; 2; 2]; Some [1; 1]]
  | None => False
  end.
Proof. vm_compute. split; reflexivity. Qed.

(** Compaction moves records in slot order, so where the slot order is not the
    offset order an early move overwrites a record still to be moved. *)
Theorem compact_clobbers_records :
  match insert_front fresh [[1; 1; 1]; [2; 2]] with
  | Some p => contents p = [Some [2; 2]; Some [1; 1; 1]] /\
              (contents <$> compact p) = Some [Some [2; 2; 1]; Some [2; 2]]
  | None => False
  end.
Proof. vm_compute. split; reflexivity. Qed.

(** An insert that compacts goes on with the slot count and free offset it
    read before the compaction, and indexes past the page. *)
Theorem insert_after_compact_panics :
  match insert_all fresh (replicate 4 (replicate 2000 7)) with
  | Some p => insert (delete p 0).2 (replicate 200 8) = None
  | None => False
  end.
Proof. vm_compute. reflexivity. Qed.
