(* ===== verification/PageFile.v ===== *)
(** * Files of pages

    The data file seen page by page, and what opening it and writing one page
    does to it; shared by recovery, the double-write buffer and the page
    manager. *)

From stdpp Require Import prelude list gmap.
From Stdlib Require Import ZArith Lia.
From S2P Require Import Prelude Bytes Io SlottedPage.

(** [page_id * PAGE_SIZE as u64], with the release build's wrap-around. *)
Definition page_offset (page_id : Z) : nat := Z.to_nat (wrap 64 (page_id * 8192)).

(** ** The data file as pages *)

(** Page [p] of a file; what lies past the end reads as zeros. *)
Definition page_of (f : list Z) (p : Z) : list Z :=
  take PAGE_SIZE (drop (page_offset p) f ++ replicate PAGE_SIZE 0).

(** Page numbers whose byte offset fits 64 bits. *)
Definition page_number (p : Z) : Prop := 0 <= p < 2 ^ 51.

Definition whole_pages (f : list Z) : Prop := exists n, length f = (n * PAGE_SIZE)%nat.

Lemma lookup_page_of f p i :
  page_of f p !! i = if decide (i < PAGE_SIZE)%nat then Some (default 0 (f !! (page_offset p + i)%nat)) else None.
Proof.
  unfold page_of. case_decide as Hi.
  - rewrite lookup_take_lt by done. destruct (decide (i < length (drop (page_offset p) f))%nat) as [H|H].
    + rewrite lookup_app_l, lookup_drop by done. rewrite length_drop in H.
      destruct (lookup_lt_is_Some_2 f (page_offset p + i)) as [x Hx]; [lia|]. by rewrite Hx.
    + rewrite lookup_app_r, lookup_replicate_2 by lia. rewrite length_drop in H.
      by rewrite (lookup_ge_None_2 f) by lia.
  - rewrite lookup_take_ge by lia. done.
Qed.

Lemma length_write_ext l off bs :
  length (write_ext l off bs) = max (length l) (off + length bs).
Proof.
  unfold write_ext. rewrite !length_app, length_take, length_app, length_replicate, length_drop. lia.
Qed.

Lemma write_ext_default l off bs j :
  default 0 (write_ext l off bs !! j) =
  if decide (off <= j < off + length bs)%nat then default 0 (bs !! (j - off)%nat) else default 0 (l !! j).
Proof.
  unfold write_ext. set (h := take off (l ++ replicate (off - length l) 0)).
  assert (length h = off) as Hh.
  { unfold h. rewrite length_take, length_app, length_replicate. lia. }
  destruct (decide (j < off)%nat) as [Hj|Hj].
  - rewrite lookup_app_l, decide_False by lia. unfold h. rewrite lookup_take_lt by done.
    destruct (decide (j < length l)%nat).
    + by rewrite lookup_app_l.
    + rewrite lookup_app_r, lookup_replicate_2 by lia. by rewrite (lookup_ge_None_2 l) by lia.
  - rewrite lookup_app_r, Hh by lia. case_decide as Hd.
    + by rewrite lookup_app_l by lia.
    + rewrite lookup_app_r, lookup_drop by lia. do 2 f_equal. lia.
Qed.

Lemma page_offset_eq p : page_number p -> Z.of_nat (page_offset p) = p * 8192.
Proof.
  intros Hp. unfold page_offset, page_number in *. rewrite wrap_id by (unfold uint; lia). lia.
Qed.

Lemma page_of_write f p q img :
  page_number p -> page_number q -> length img = PAGE_SIZE ->
  page_of (write_ext f (page_offset p) img) q = if decide (q = p) then img else page_of f q.
Proof.
  intros Hp Hq Hl. pose proof (page_offset_eq p Hp). pose proof (page_offset_eq q Hq).
  pose proof PAGE_SIZE_eq. apply list_eq. intros i. rewrite lookup_page_of, write_ext_default, Hl.
  destruct (decide (q = p)) as [->|Hne].
  - case_decide as Hi; [|by rewrite lookup_ge_None_2 by lia]. rewrite decide_True by lia.
    replace (page_offset p + i - page_offset p)%nat with i by lia.
    destruct (lookup_lt_is_Some_2 img i) as [x Hx]; [lia|]. by rewrite Hx.
  - rewrite lookup_page_of. case_decide as Hi; [|done]. rewrite decide_False; [done|]. nia.
Qed.

Lemma whole_pages_write f p img :
  page_number p -> whole_pages f -> length img = PAGE_SIZE ->
  whole_pages (write_ext f (page_offset p) img).
Proof.
  intros Hp [n Hn] Hl. pose proof (page_offset_eq p Hp). pose proof PAGE_SIZE_eq.
  exists (max n (Z.to_nat p + 1))%nat. rewrite length_write_ext, Hl, Hn.
  unfold page_number in Hp. nia.
Qed.

(** A page overwritten by the first [k] bytes of [new]. *)
Definition torn (k : nat) (new old : list Z) : list Z := take k new ++ drop k old.

Lemma lookup_torn k new old i :
  length new = length old -> torn k new old !! i = if decide (i < k)%nat then new !! i else old !! i.
Proof.
  intros Hl. unfold torn. destruct (decide (k <= length new)%nat) as [Hk|Hk].
  - case_decide.
    + by rewrite lookup_app_l, lookup_take_lt by (rewrite ?length_take; lia).
    + rewrite lookup_app_r, lookup_drop by (rewrite length_take; lia). rewrite length_take. f_equal. lia.
  - rewrite take_ge, drop_ge, app_nil_r by lia. case_decide; [done|]. by rewrite !lookup_ge_None_2 by lia.
Qed.

Lemma torn_torn j k new old :
  length new = length old -> torn j (torn k new old) old = torn (min j k) new old.
Proof.
  intros Hl. assert (length (torn k new old) = length old) as Hl'.
  { unfold torn. rewrite length_app, length_take, length_drop. lia. }
  apply list_eq. intros i. rewrite !lookup_torn by done.
  repeat case_decide; try done; lia.
Qed.

Lemma torn_same k old : torn k old old = old.
Proof. apply take_drop. Qed.

Lemma torn_all k new old : length new = length old -> (length new <= k)%nat -> torn k new old = new.
Proof. intros Hl Hk. unfold torn. rewrite take_ge, drop_ge by lia. apply app_nil_r. Qed.

Lemma length_page_of f p : length (page_of f p) = PAGE_SIZE.
Proof. unfold page_of. rewrite length_take, length_app, length_replicate. lia. Qed.

(** A page write that transferred [k] bytes. *)
Lemma page_of_partial f p q img k :
  page_number p -> page_number q -> length img = PAGE_SIZE ->
  page_of (write_ext f (page_offset p) (take k img)) q =
  if decide (q = p) then torn k img (page_of f p) else page_of f q.
Proof.
  intros Hp Hq Hl. pose proof (page_offset_eq p Hp). pose proof (page_offset_eq q Hq).
  pose proof PAGE_SIZE_eq. apply list_eq. intros i. rewrite lookup_page_of, write_ext_default, length_take, Hl.
  destruct (decide (q = p)) as [->|Hne].
  - rewrite lookup_torn, lookup_page_of by (by rewrite length_page_of).
    case_decide as Hi; [|case_decide; [by rewrite lookup_ge_None_2 by lia|done]].
    destruct (decide (i < k)%nat) as [Hk|Hk].
    + rewrite decide_True by lia. replace (page_offset p + i - page_offset p)%nat with i by lia.
      rewrite lookup_take_lt by done. destruct (lookup_lt_is_Some_2 img i) as [x Hx]; [lia|]. by rewrite Hx.
    + by rewrite decide_False by lia.
  - rewrite lookup_page_of. case_decide as Hi; [|done]. rewrite decide_False; [done|]. nia.
Qed.

Section DataFile.
Context (data_path : Path).

Definition data_file (w : World) : list Z := default [] (cached <$> files w !! data_path).

(** [w] has no fault ahead and its data file consists of whole pages. *)
Definition steady (w : World) : Prop := script w = [] /\ whole_pages (data_file w).

(** Opening the data file and writing a page, as [apply_after_image] and
    [apply_inverse] do. *)
Lemma write_page_spec {T} (s : T) w p buf :
  steady w -> page_number p -> length buf = PAGE_SIZE ->
  exists w', (bind (lift (fs_open data_path true))
     (fun _ => lift (h_write_at data_path buf (page_offset p)))) (s, w) = (Ok tt, (s, w')) /\ steady w' /\
    (forall q, page_number q ->
      page_of (data_file w') q = if decide (q = p) then buf else page_of (data_file w) q) /\
    (forall q, q <> data_path -> files w' !! q = files w !! q).
Proof.
  intros [Hs Hw] Hp Hl. pose proof (next_outcome_quiet w Hs) as Hn.
  pose proof (whole_pages_write _ _ buf Hp Hw Hl) as Hw'.
  assert (forall q, page_number q -> page_of (write_ext (data_file w) (page_offset p) buf) q =
    if decide (q = p) then buf else page_of (data_file w) q) as Hpg by (intros; by apply page_of_write).
  unfold bind, lift, fs_open, h_write_at, with_file. cbn [fst snd]. rewrite Hn.
  unfold data_file in *. destruct (files w !! data_path) as [f|] eqn:Ef.
  - cbn [fst snd fmap option_fmap option_map default id] in *. rewrite Ef, Hn.
    eexists. split; [reflexivity|]. unfold set_file, steady, data_file. cbn [files script].
    rewrite lookup_insert_eq. cbn [fmap option_fmap option_map default id cached].
    split; [by split|]. split; [done|]. intros q Hq. by rewrite lookup_insert_ne.
  - cbn [fst snd fmap option_fmap option_map default id] in *. unfold set_file, dir_change. cbn [files].
    rewrite lookup_insert_eq. unfold next_outcome. cbn [script]. rewrite Hs. cbn [files cached durable].
    eexists. split; [reflexivity|]. unfold steady, data_file. cbn [files script].
    rewrite !lookup_insert_eq. cbn [fmap option_fmap option_map default id cached].
    split; [by split|]. split; [done|]. intros q Hq. by rewrite !lookup_insert_ne.
Qed.

(** One page write under any outcome: some prefix of the image reaches the
    cached page, all of it on success. *)
Lemma h_write_page w f p img r w1 :
  files w !! data_path = Some f -> page_number p -> length img = PAGE_SIZE ->
  h_write_at data_path img (page_offset p) w = (r, w1) ->
  exists f1 k, files w1 !! data_path = Some f1 /\ durable f1 = durable f /\
    (forall q, page_number q -> page_of (cached f1) q =
       if decide (q = p) then torn k img (page_of (cached f) p) else page_of (cached f) q) /\
    match r with Ok _ => (PAGE_SIZE <= k)%nat | Err _ => True end.
Proof.
  intros Hf Hp Hl. unfold h_write_at, with_file. rewrite Hf.
  assert (forall o w2, next_outcome w = (o, w2) -> files w2 = files w) as Hn.
  { intros o w2. unfold next_outcome. by destruct (script w); intros [= _ <-]. }
  destruct (next_outcome w) as [[|j] w2] eqn:E; specialize (Hn _ _ eq_refl).
  - intros [= <- <-]. exists (mkFile (write_ext (cached f) (page_offset p) img) (durable f)), PAGE_SIZE.
    cbn [set_file files cached durable]. rewrite lookup_insert_eq. split; [done|]. split; [done|].
    split; [|done]. intros q Hq. rewrite <- (page_of_partial (cached f) p q img PAGE_SIZE) by done.
    by rewrite take_ge by lia.
  - destruct (Nat.eqb_spec (min j (length img)) 0) as [E0|E0]; intros [= <- <-].
    + exists f, 0%nat. rewrite Hn. split; [done|]. split; [done|]. split; [|done].
      intros q Hq. by case_decide; [subst|].
    + exists (mkFile (write_ext (cached f) (page_offset p) (take (min j (length img)) img)) (durable f)),
        (min j (length img)).
      cbn [set_file files cached durable]. rewrite lookup_insert_eq. split; [done|]. split; [done|].
      split; [|done]. intros q Hq. by apply page_of_partial.
Qed.

Lemma h_sync_file w f r w1 :
  files w !! data_path = Some f -> h_sync data_path w = (r, w1) ->
  exists f1, files w1 !! data_path = Some f1 /\ cached f1 = cached f /\
    durable f1 = match r with Ok _ => cached f | Err _ => durable f end.
Proof.
  intros Hf. unfold h_sync, with_file. rewrite Hf.
  assert (forall o w2, next_outcome w = (o, w2) -> files w2 = files w) as Hn.
  { intros o w2. unfold next_outcome. by destruct (script w); intros [= _ <-]. }
  destruct (next_outcome w) as [[|j] w2] eqn:E; specialize (Hn _ _ eq_refl); intros [= <- <-].
  - exists (mkFile (cached f) (cached f)). cbn [set_file files]. by rewrite lookup_insert_eq.
  - exists f. by rewrite Hn.
Qed.
End DataFile.

(** ** Calls without faults

    On a world with no fault ahead and an existing file, every call succeeds
    with a known effect; [quiet] lemmas rewrite such runs. *)

Section Quiet.
Context (p : Path) (w : World) (f : File).
Hypothesis (Hs : script w = []) (Hf : files w !! p = Some f).

Lemma quiet_open create : fs_open p create w = (Ok tt, w).
Proof using Hs Hf. unfold fs_open. by rewrite next_outcome_quiet, Hf. Qed.

Lemma quiet_len : h_len p w = (Ok (length (cached f)), w).
Proof using Hs Hf. unfold h_len, with_file. by rewrite Hf, next_outcome_quiet. Qed.

Lemma quiet_read n off :
  (off + n <= length (cached f))%nat -> h_read_at p n off w = (Ok (slice (cached f) off (off + n)), w).
Proof using Hs Hf.
  intros H. unfold h_read_at, with_file. rewrite Hf, next_outcome_quiet by done.
  by destruct (Nat.leb_spec (off + n) (length (cached f))); [|lia].
Qed.

Lemma quiet_write bs off :
  h_write_at p bs off w = (Ok tt, set_file w p (mkFile (write_ext (cached f) off bs) (durable f))).
Proof using Hs Hf. unfold h_write_at, with_file. by rewrite Hf, next_outcome_quiet. Qed.

Lemma quiet_sync : h_sync p w = (Ok tt, set_file w p (mkFile (cached f) (cached f))).
Proof using Hs Hf. unfold h_sync, with_file. by rewrite Hf, next_outcome_quiet. Qed.

Lemma quiet_set_len n :
  h_set_len p n w = (Ok tt, set_file w p (mkFile (take n (cached f ++ replicate (n - length (cached f)) 0)) (durable f))).
Proof using Hs Hf. unfold h_set_len, with_file. by rewrite Hf, next_outcome_quiet. Qed.
End Quiet.

Lemma set_file_files w p f : files (set_file w p f) !! p = Some f.
Proof. unfold set_file. cbn [files]. apply lookup_insert_eq. Qed.

Lemma set_file_other w p q f : q <> p -> files (set_file w p f) !! q = files w !! q.
Proof. intros. unfold set_file. cbn [files]. by apply lookup_insert_ne. Qed.

Lemma set_file_script w p f : script (set_file w p f) = script w.
Proof. done. Qed.

Lemma set_file_twice w p f g : set_file (set_file w p f) p g = set_file w p g.
Proof. unfold set_file. cbn [files script]. by rewrite insert_insert_eq. Qed.

Lemma exists_path_true w p f : files w !! p = Some f -> exists_path w p = true.
Proof. intros H. unfold exists_path. rewrite H. apply bool_decide_eq_true. eauto. Qed.

(** The part of a file that holds page [p] is its [page_of]. *)
Lemma slice_page f p :
  page_number p -> (page_offset p + PAGE_SIZE <= length f)%nat ->
  slice f (page_offset p) (page_offset p + PAGE_SIZE) = page_of f p.
Proof.
  intros Hp Hl. unfold slice, page_of. replace (page_offset p + PAGE_SIZE - page_offset p)%nat with PAGE_SIZE by lia.
  rewrite take_app_le by (rewrite length_drop; lia). done.
Qed.
