(* ===== verification/Aries.v ===== *)
(** * ARIES crash recovery ([src/wal/aries.rs], payloads of [src/wal/checkpoint.rs])

    The three phases over a record list: ANALYSIS rebuilds the active
    transaction and dirty page tables, REDO replays page images of committed
    transactions into the data file, UNDO walks the losers' chains backwards,
    restoring before-images and logging compensation records. *)

From stdpp Require Import prelude list gmap sorting.
From Stdlib Require Import ZArith Lia Sorted.
From S2P Require Import Prelude Bytes Checksum Io WalRecord WalWriter SlottedPage PageFile.

Inductive TxStatus := Active | Committed | Aborted.

#[global] Instance TxStatus_eq_dec : EqDecision TxStatus.
Proof. solve_decision. Defined.

Record AttEntry := mkAtt { a_txid : Z; a_status : TxStatus; a_last_lsn : Z }.
Record DptEntry := mkDpt { d_page_id : Z; d_rec_lsn : Z }.

Abbreviation Att := (gmap Z AttEntry).
Abbreviation Dpt := (gmap Z DptEntry).

(** [HashMap::entry(k).or_insert(v)]. *)
Definition or_insert {V} (m : gmap Z V) (k : Z) (v : V) : gmap Z V :=
  match m !! k with Some _ => m | None => <[k := v]> m end.

(** ** Payloads *)

Definition page_id_from_payload (payload : list Z) : Z := from_be (take 8 payload).

Definition extract_page_and_image (rec : WalRecord) : option (Z * list Z) :=
  match record_type rec with
  | Clr =>
      if (length (payload rec) <? 16)%nat then None
      else Some (page_id_from_payload (slice (payload rec) 8 16), drop 16 (payload rec))
  | _ =>
      if (length (payload rec) <? 8)%nat then None
      else Some (page_id_from_payload (payload rec), drop 8 (payload rec))
  end.

Definition BEFORE_IMAGE_MAGIC : Z := 0x42494D47.

Definition build_clr_payload (undo_next_lsn page_id : Z) (before_image : list Z) : list Z :=
  to_be 8 undo_next_lsn ++ to_be 8 page_id ++ take PAGE_SIZE before_image.

Definition clr_undo_next_lsn (payload : list Z) : Z :=
  if (length payload <? 8)%nat then 0 else from_be (take 8 payload).

(** The entries loop of [seed_dpt_from_checkpoint]. *)
Fixpoint seed_loop (n i : nat) (payload : list Z) (dpt : Dpt) : Dpt :=
  match n with
  | O => dpt
  | S n' =>
      let base := (4 + i * 16)%nat in
      let page_id := from_be (slice payload base (base + 8)) in
      let rec_lsn := from_be (slice payload (base + 8) (base + 16)) in
      seed_loop n' (S i) payload (or_insert dpt page_id (mkDpt page_id rec_lsn))
  end.

Definition seed_dpt_from_checkpoint (payload : list Z) (dpt : Dpt) : Dpt :=
  if (length payload <? 4)%nat then dpt else
  let count := from_be (slice payload 0 4) in
  if Z.of_nat (length payload) <? count * 16 + 4 then dpt
  else seed_loop (Z.to_nat count) 0 payload dpt.

(** The [CheckpointEnd] payload built by [Checkpoint::run]. *)
Definition checkpoint_payload (entries : list (Z * Z)) : list Z :=
  to_be 4 (wrap 32 (Z.of_nat (length entries))) ++
  concat ((fun e => to_be 8 e.1 ++ to_be 8 e.2) <$> entries) ++ to_be 4 0.

(** ** Phase 1: ANALYSIS *)

Record Tables := mkTables { att : Att; dpt : Dpt; max_lsn : Z }.

(** [if let Some(e) = att.get_mut(&txid) && lsn > e.last_lsn]. *)
Definition bump_last_lsn (m : Att) (txid lsn : Z) : Att :=
  match m !! txid with
  | Some e => if a_last_lsn e <? lsn then <[txid := mkAtt (a_txid e) (a_status e) lsn]> m else m
  | None => m
  end.

(** The [Commit] and [Abort] arms. *)
Definition finish (m : Att) (txid lsn : Z) (st : TxStatus) : Att :=
  match m !! txid with
  | Some e => <[txid := mkAtt (a_txid e) st (Z.max lsn (a_last_lsn e))]> m
  | None => <[txid := mkAtt txid st lsn]> m
  end.

(** Records whose payload is a page id and a page image. *)
Definition is_page_record (t : RecordType) : bool :=
  match t with
  | PageInsert | PageUpdate | PageFree | BitmapUpdate
  | IndexPageInsert | IndexPageUpdate | IndexPageFree => true
  | _ => false
  end.

Definition analysis_step (t : Tables) (rec : WalRecord) : Tables :=
  let l := lsn rec in
  let ml := if max_lsn t <? l then l else max_lsn t in
  match record_type rec with
  | RtBegin =>
      mkTables (bump_last_lsn (or_insert (att t) (txid rec) (mkAtt (txid rec) Active l)) (txid rec) l)
        (dpt t) ml
  | RtCommit => mkTables (finish (att t) (txid rec) l Committed) (dpt t) ml
  | RtAbort => mkTables (finish (att t) (txid rec) l Aborted) (dpt t) ml
  | Clr => mkTables (bump_last_lsn (att t) (txid rec) l) (dpt t) ml
  | PageInsert | PageUpdate | PageFree | BitmapUpdate
  | IndexPageInsert | IndexPageUpdate | IndexPageFree =>
      let d := if (8 <=? length (payload rec))%nat
               then let page_id := page_id_from_payload (payload rec) in
                    or_insert (dpt t) page_id (mkDpt page_id l)
               else dpt t in
      mkTables (bump_last_lsn (att t) (txid rec) l) d ml
  | NodeInsert | NodeDelete | NodeUpdate | EdgeInsert | EdgeDelete | EdgeUpdate
  | PropertyInsert | PropertyUpdate | RdfTripleInsert | RdfTripleDelete =>
      mkTables (bump_last_lsn (att t) (txid rec) l) (dpt t) ml
  | CheckpointEnd => mkTables (att t) (seed_dpt_from_checkpoint (payload rec) (dpt t)) ml
  | CheckpointBegin | RtSegmentDescriptor | CompactionBegin | CompactionEnd =>
      mkTables (att t) (dpt t) ml
  end.

Definition analysis (records : list WalRecord) : Tables :=
  foldl analysis_step (mkTables ∅ ∅ 0) records.

(** ** Page access *)

Section Phases.
Context `{CS : Checksums}.
Context (data_path : Path).
#[local] Open Scope act_scope.

Definition embed_before_image (payload before_image : list Z) : list Z :=
  let image := take PAGE_SIZE before_image in
  payload ++ image ++ to_be 4 (crc32c image) ++ to_be 4 (wrap 32 (Z.of_nat (length image))) ++
  to_be 4 BEFORE_IMAGE_MAGIC.

Definition extract_before_image (payload : list Z) : option (list Z) :=
  let n := length payload in
  if (n <? 12)%nat then None else
  if negb (from_be (slice payload (n - 4) n) =? BEFORE_IMAGE_MAGIC) then None else
  let image_len := from_be (slice payload (n - 8) (n - 4)) in
  if (8192 <? image_len) || (Z.of_nat n <? image_len + 12) then None else
  let crc_stored := from_be (slice payload (n - 12) (n - 8)) in
  let image := slice payload (n - 12 - Z.to_nat image_len) (n - 12) in
  if negb (crc32c image =? crc_stored) then None else Some image.

Definition read_page_lsn {T} (page_id : Z) : Act T Z :=
  do w <- world;
  if negb (exists_path w data_path) then ret 0 else
  lift (fs_open data_path false) ;;;
  do file_len <- lift (h_len data_path);
  if (file_len <? page_offset page_id + 8)%nat then ret 0 else
  do hdr <- lift (h_read_at data_path 8 (page_offset page_id));
  ret (from_be hdr).

(** The page buffer of [apply_after_image]. *)
Definition stamped_image (after_image : list Z) (record_lsn : Z) : list Z :=
  let copy_len := min (length after_image) PAGE_SIZE in
  let buf := write_at (take copy_len after_image ++ replicate (PAGE_SIZE - copy_len) 0) 0
               (to_be 8 record_lsn) in
  if (copy_len =? PAGE_SIZE)%nat && has_valid_magic_bytes buf then update_checksum_bytes buf else buf.

Definition apply_after_image {T} (page_id : Z) (after_image : list Z) (record_lsn : Z) : Act T unit :=
  lift (fs_open data_path true) ;;;
  lift (h_write_at data_path (stamped_image after_image record_lsn) (page_offset page_id)).

Definition zero_page : list Z := replicate PAGE_SIZE 0.

Definition apply_inverse {T} (rec : WalRecord) (page_id : Z) : Act T unit :=
  match extract_before_image (payload rec) with
  | Some before_image =>
      lift (fs_open data_path true) ;;;
      let copy_len := min (length before_image) PAGE_SIZE in
      lift (h_write_at data_path (take copy_len before_image ++ replicate (PAGE_SIZE - copy_len) 0)
              (page_offset page_id))
  | None =>
      match record_type rec with
      | PageInsert | IndexPageInsert =>
          lift (fs_open data_path true) ;;;
          lift (h_write_at data_path zero_page (page_offset page_id))
      | _ => ret tt
      end
  end.

(** ** Phase 2: REDO *)

Definition redo_start (d : Dpt) : Z :=
  match (fun kv => d_rec_lsn kv.2) <$> map_to_list d with
  | [] => 0
  | x :: xs => foldl Z.min x xs
  end.

Definition is_committed (a : Att) (t : Z) : bool :=
  match a !! t with Some e => bool_decide (a_status e = Committed) | None => false end.

(** The filters of REDO: the page and image of a record to replay. *)
Definition redo_target (a : Att) (d : Dpt) (rec : WalRecord) : option (Z * list Z) :=
  if lsn rec <? redo_start d then None else
  if negb (is_page_record (record_type rec) || bool_decide (record_type rec = Clr)) then None else
  if negb (bool_decide (record_type rec = Clr)) && negb (is_committed a (txid rec)) then None else
  match extract_page_and_image rec with
  | Some (page_id, image) => if bool_decide (is_Some (d !! page_id)) then Some (page_id, image) else None
  | None => None
  end.

Fixpoint redo_loop {T} (a : Att) (d : Dpt) (records : list WalRecord) (count : nat) : Act T nat :=
  match records with
  | [] => ret count
  | rec :: rest =>
      match redo_target a d rec with
      | None => redo_loop a d rest count
      | Some (page_id, after_image) =>
          do on_disk_page_lsn <- read_page_lsn page_id;
          if lsn rec <=? on_disk_page_lsn then redo_loop a d rest count
          else apply_after_image page_id after_image (lsn rec) ;;;
               redo_loop a d rest (S count)
      end
  end.

Definition redo {T} (records : list WalRecord) (a : Att) (d : Dpt) : Act T nat :=
  if bool_decide (d = ∅) then ret 0%nat else redo_loop a d records 0.

(** ** Phase 3: UNDO *)

(** Iteration order of the ATT's hash map, unspecified: some enumeration of the
    values. *)
Context (iter : Att -> list AttEntry).

(** [sort_by_key(Reverse(last_lsn))]: a stable sort, latest first. *)
Fixpoint insert_desc (e : AttEntry) (l : list AttEntry) : list AttEntry :=
  match l with
  | [] => [e]
  | x :: l' => if a_last_lsn x <=? a_last_lsn e then e :: l else x :: insert_desc e l'
  end.

Definition sort_desc (l : list AttEntry) : list AttEntry := foldr insert_desc [] l.

Definition is_loser (e : AttEntry) : bool := negb (bool_decide (a_status e = Committed)).

Definition to_undo (a : Att) : list AttEntry := sort_desc (base.filter (fun e => is_loser e = true) (iter a)).

(** [records.iter().map(|r| (r.lsn, r)).collect()]: the last record of an LSN
    wins. *)
Definition lsn_index (records : list WalRecord) : gmap Z WalRecord :=
  foldl (fun m r => <[lsn r := r]> m) ∅ records.

Context (now_millis : Z).

(** The page work of one chain step: [Some n] operations so far. *)
Definition undo_record (rec : WalRecord) (total : nat) : Act WalWriter nat :=
  if is_page_record (record_type rec) then
    match extract_page_and_image rec with
    | Some (page_id, _) =>
        let clr_image := match extract_before_image (payload rec) with
                         | Some bi => bi
                         | None => zero_page
                         end in
        apply_inverse rec page_id ;;;
        append (record_new Clr (txid rec) 0 (prev_lsn rec)
                  (build_clr_payload (prev_lsn rec) page_id clr_image) now_millis) ;;;
        ret (S total)
    | None => ret total
    end
  else ret total.

(** The chain walk of one transaction.  The loop of the source has no bound;
    [None] means that [fuel] steps did not end it. *)
Fixpoint undo_chain (fuel : nat) (idx : gmap Z WalRecord) (current_lsn : Z) (total : nat) :
    Act WalWriter (option nat) :=
  match fuel with
  | O => ret None
  | S f =>
      match idx !! current_lsn with
      | None => ret (Some total)
      | Some rec =>
          if bool_decide (record_type rec = Clr) then
            let next := clr_undo_next_lsn (payload rec) in
            if next =? 0 then ret (Some total) else undo_chain f idx next total
          else
            do total' <- undo_record rec total;
            if prev_lsn rec =? 0 then ret (Some total') else undo_chain f idx (prev_lsn rec) total'
      end
  end.

Fixpoint undo_all (fuel : nat) (idx : gmap Z WalRecord) (losers : list AttEntry) (total : nat) :
    Act WalWriter (option nat) :=
  match losers with
  | [] => ret (Some total)
  | e :: rest =>
      do r <- undo_chain fuel idx (a_last_lsn e) total;
      match r with
      | None => ret None
      | Some total' => flush ;;; undo_all fuel idx rest total'
      end
  end.

Definition undo (fuel : nat) (a : Att) (records : list WalRecord) : Act WalWriter (option nat) :=
  undo_all fuel (lsn_index records) (to_undo a) 0.

(** ** The whole recovery *)

Record RecoveryResult := mkRecovery { r_tables : Tables; redo_count : nat; undo_count : nat }.

Definition run_all_phases (fuel : nat) (checkpoint_lsn : Z) (records : list WalRecord) :
    Act WalWriter (option RecoveryResult) :=
  let t := analysis (base.filter (fun r => checkpoint_lsn <= lsn r) records) in
  do n <- redo records (att t) (dpt t);
  do u <- undo fuel (att t) records;
  ret (mkRecovery t n <$> u).

(** ** Loading the log *)

(** [exists] is asked of the live and of the archived segment; the loop stops
    at the first gap above the highest segment found. *)
Definition segment_present (w : World) (id : Z) : bool :=
  exists_path w (live_seg id) || exists_path w (archived_seg id).

Fixpoint highest_loop (fuel : nat) (w : World) (id max_id : Z) : Z :=
  match fuel with
  | O => max_id
  | S f =>
      if U32_MAX <? id then max_id
      else if segment_present w id then highest_loop f w (id + 1) id
      else if max_id <? id then max_id
      else highest_loop f w (id + 1) max_id
  end.

Definition highest_segment_id (w : World) : Z := highest_loop (size (files w) + 2) w 0 0.

(** [load_single_segment] on a path. *)
Definition load_segment_at {T} (p : Path) : Act T (list WalRecord) :=
  lift (fs_open p false) ;;;
  do len <- lift (h_len p);
  if (len =? 0)%nat then ret [] else
  do raw <- lift (h_read_at p len 0);
  ret (load_single_segment raw).

(** The segment loop: [n] segments from [seg_id]. *)
Fixpoint load_loop {T} (n : nat) (seg_id : Z) (acc : list WalRecord) : Act T (list WalRecord) :=
  match n with
  | O => ret acc
  | S n' =>
      do w <- world;
      if exists_path w (live_seg seg_id) then
        do recs <- load_segment_at (live_seg seg_id); load_loop n' (seg_id + 1) (acc ++ recs)
      else if exists_path w (archived_seg seg_id) then
        do recs <- load_segment_at (archived_seg seg_id); load_loop n' (seg_id + 1) (acc ++ recs)
      else load_loop n' (seg_id + 1) acc
  end.

Definition load_all_segments {T} (checkpoint_lsn : Z) : Act T (list WalRecord) :=
  do w <- world;
  let start_seg := Z.shiftr checkpoint_lsn 32 in
  let highest := highest_segment_id w in
  load_loop (Z.to_nat (highest + 1 - start_seg)) start_seg [].

Definition recover (fuel : nat) (checkpoint_lsn : Z) : Act WalWriter (option RecoveryResult) :=
  do records <- load_all_segments checkpoint_lsn;
  run_all_phases fuel checkpoint_lsn records.
End Phases.

(** ** Payload round trips *)

Lemma slice_tail {A} (x y : list A) a b :
  a = length x -> b = (length x + length y)%nat -> slice (x ++ y) a b = y.
Proof.
  intros -> ->. rewrite slice_skip by lia. rewrite Nat.sub_diag.
  rewrite <- (app_nil_r y) at 1. apply slice_here. lia.
Qed.

Lemma slice_mid {A} (x y z : list A) a b :
  a = length x -> b = (length x + length y)%nat -> slice (x ++ y ++ z) a b = y.
Proof. intros -> ->. rewrite slice_skip by lia. rewrite Nat.sub_diag. apply slice_here. lia. Qed.

Lemma embed_extract `{CS : Checksums} payload before_image :
  extract_before_image (embed_before_image payload before_image) = Some (take PAGE_SIZE before_image).
Proof.
  unfold embed_before_image, extract_before_image. set (image := take PAGE_SIZE before_image).
  assert (Z.of_nat (length image) <= 8192) as Hl.
  { unfold image. rewrite length_take. pose proof PAGE_SIZE_eq. lia. }
  rewrite (wrap_id 32) by (unfold uint; lia).
  set (c := to_be 4 (crc32c image)). set (n := to_be 4 (Z.of_nat (length image))).
  set (m := to_be 4 BEFORE_IMAGE_MAGIC).
  assert (length c = 4%nat /\ length n = 4%nat /\ length m = 4%nat) as (Hc & Hn & Hm)
    by (unfold c, n, m; by rewrite !length_to_be).
  set (p := payload ++ image ++ c ++ n ++ m).
  assert (length p = (length payload + length image + 12)%nat) as Hp.
  { unfold p. rewrite !length_app. lia. }
  assert (slice p (length p - 4) (length p) = m) as ->.
  { unfold p. rewrite !app_assoc. apply slice_tail; rewrite !length_app; lia. }
  assert (slice p (length p - 8) (length p - 4) = n) as ->.
  { unfold p. rewrite 2!app_assoc. apply slice_mid; rewrite !length_app; lia. }
  assert (slice p (length p - 12) (length p - 8) = c) as ->.
  { unfold p. rewrite app_assoc. apply slice_mid; rewrite !length_app; lia. }
  unfold m, n, c. rewrite !from_to_be_id; [|apply crc32c_range|unfold uint; lia|by vm_compute].
  rewrite Nat2Z.id. rewrite Z.eqb_refl. cbn [negb].
  destruct (Nat.ltb_spec (length p) 12); [lia|].
  destruct (Z.ltb_spec 8192 (Z.of_nat (length image))); [lia|].
  destruct (Z.ltb_spec (Z.of_nat (length p)) (Z.of_nat (length image) + 12)); [lia|]. cbn [orb].
  replace (length p - 12 - length image)%nat with (length payload) by lia.
  replace (length p - 12)%nat with (length payload + length image)%nat by lia.
  unfold p. rewrite slice_mid by done. by rewrite Z.eqb_refl.
Qed.

Lemma clr_roundtrip rec u p image :
  is_u64 u -> is_u64 p -> record_type rec = Clr -> payload rec = build_clr_payload u p image ->
  clr_undo_next_lsn (payload rec) = u /\
  extract_page_and_image rec = Some (p, take PAGE_SIZE image).
Proof.
  intros Hu Hp Ht Hb. unfold extract_page_and_image, clr_undo_next_lsn. rewrite Ht, Hb.
  unfold build_clr_payload, page_id_from_payload.
  rewrite !length_app, !length_to_be.
  destruct (Nat.ltb_spec (8 + (8 + length (take PAGE_SIZE image))) 8); [lia|].
  destruct (Nat.ltb_spec (8 + (8 + length (take PAGE_SIZE image))) 16); [lia|].
  rewrite slice_mid by (by rewrite ?length_to_be). rewrite !(take_app_length' (to_be 8 _)), take_ge
    by (by rewrite length_to_be). rewrite !from_to_be_id by done. split; [done|].
  rewrite app_assoc, drop_app_length' by (by rewrite length_app, !length_to_be). done.
Qed.

(** The entries a checkpoint record contributes, first entry of a page wins. *)
Definition seed_entries (entries : list (Z * Z)) (d : Dpt) : Dpt :=
  foldl (fun m e => or_insert m e.1 (mkDpt e.1 e.2)) d entries.

Lemma seed_loop_spec entries : forall pre suf i d,
  Forall (fun e => is_u64 e.1 /\ is_u64 e.2) entries -> length pre = (4 + i * 16)%nat ->
  seed_loop (length entries) i
    (pre ++ concat ((fun e => to_be 8 e.1 ++ to_be 8 e.2) <$> entries) ++ suf) d =
  seed_entries entries d.
Proof.
  induction entries as [|[p l] es IH]; intros pre suf i d He Hl; [done|].
  apply Forall_cons in He as [[H1 H2] He]. cbn [length seed_loop fmap list_fmap concat fst snd].
  rewrite <- !app_assoc.
  rewrite (slice_mid pre) by (rewrite ?length_to_be; lia).
  rewrite (app_assoc pre), (slice_mid (pre ++ _)) by (rewrite ?length_app, !length_to_be; lia).
  rewrite !from_to_be_id by done. rewrite (app_assoc (pre ++ _)).
  rewrite IH; [done|done|]. rewrite !length_app, !length_to_be. lia.
Qed.

Lemma checkpoint_seeds entries d :
  Forall (fun e => is_u64 e.1 /\ is_u64 e.2) entries -> is_u32 (Z.of_nat (length entries)) ->
  seed_dpt_from_checkpoint (checkpoint_payload entries) d = seed_entries entries d.
Proof.
  intros He Hn. unfold seed_dpt_from_checkpoint, checkpoint_payload. rewrite wrap_id by done.
  rewrite slice_here by (by rewrite length_to_be). rewrite from_to_be_id by done.
  assert (length (concat ((fun e => to_be 8 e.1 ++ to_be 8 e.2) <$> entries)) =
    (length entries * 16)%nat) as Hc.
  { clear. induction entries as [|e es IH]; [done|]. cbn [fmap list_fmap concat].
    rewrite !length_app, !length_to_be. cbn [length]. rewrite IH. lia. }
  rewrite !length_app, !length_to_be, Hc.
  destruct (Nat.ltb_spec (4 + (length entries * 16 + 4)) 4); [lia|].
  destruct (Z.ltb_spec (Z.of_nat (4 + (length entries * 16 + 4))) (Z.of_nat (length entries) * 16 + 4)); [lia|].
  rewrite Nat2Z.id. apply seed_loop_spec; [done|]. by rewrite length_to_be.
Qed.

(** ** What ANALYSIS computes *)

(** The decision a record carries for transaction [t]. *)
Definition mark (t : Z) (r : WalRecord) : option TxStatus :=
  if decide (txid r = t) then
    match record_type r with RtCommit => Some Committed | RtAbort => Some Aborted | _ => None end
  else None.

Definition begins (t : Z) (r : WalRecord) : bool :=
  bool_decide (txid r = t) && bool_decide (record_type r = RtBegin).

(** A transaction's outcome: its last commit or abort record decides; one that
    only began is active. *)
Definition outcome (records : list WalRecord) (t : Z) : option TxStatus :=
  match last (omap (mark t) records) with
  | Some s => Some s
  | None => if existsb (begins t) records then Some Active else None
  end.

(** The [(page, lsn)] pairs a record contributes to the dirty page table. *)
Definition checkpoint_entries (payload : list Z) : list (Z * Z) :=
  if (length payload <? 4)%nat then [] else
  let count := from_be (slice payload 0 4) in
  if Z.of_nat (length payload) <? count * 16 + 4 then []
  else (fun i => (from_be (slice payload (4 + i * 16) (4 + i * 16 + 8)),
                  from_be (slice payload (4 + i * 16 + 8) (4 + i * 16 + 16))))
         <$> seq 0 (Z.to_nat count).

Definition dirties (r : WalRecord) : list (Z * Z) :=
  if is_page_record (record_type r) then
    if (8 <=? length (payload r))%nat then [(page_id_from_payload (payload r), lsn r)] else []
  else if bool_decide (record_type r = CheckpointEnd) then checkpoint_entries (payload r) else [].

Lemma lookup_or_insert {V} (m : gmap Z V) k v j :
  or_insert m k v !! j = if decide (j = k) then Some (default v (m !! k)) else m !! j.
Proof.
  unfold or_insert. destruct (m !! k) as [x|] eqn:E; case_decide as Ej; subst; simpl; try done.
  - by rewrite lookup_insert_eq.
  - by rewrite lookup_insert_ne.
Qed.

Lemma bump_status m t l k : a_status <$> bump_last_lsn m t l !! k = a_status <$> m !! k.
Proof.
  unfold bump_last_lsn. destruct (m !! t) as [e|] eqn:E; [|done]. destruct (_ <? _); [|done].
  destruct (decide (k = t)) as [->|]; [by rewrite lookup_insert_eq, E|by rewrite lookup_insert_ne].
Qed.

Lemma finish_status m t l st k :
  a_status <$> finish m t l st !! k = if decide (k = t) then Some st else a_status <$> m !! k.
Proof.
  unfold finish. destruct (m !! t); case_decide; subst; by rewrite ?lookup_insert_eq, ?lookup_insert_ne.
Qed.

Lemma analysis_snoc recs r : analysis (recs ++ [r]) = analysis_step (analysis recs) r.
Proof. unfold analysis. by rewrite foldl_app. Qed.

Lemma omap_snoc {A B} (f : A -> option B) l x :
  omap f (l ++ [x]) = omap f l ++ match f x with Some y => [y] | None => [] end.
Proof. rewrite omap_app. by destruct (f x) eqn:E; simpl; rewrite E. Qed.

Lemma outcome_snoc recs r t :
  outcome (recs ++ [r]) t =
  match mark t r with
  | Some s => Some s
  | None => if begins t r then Some (default Active (outcome recs t)) else outcome recs t
  end.
Proof.
  unfold outcome. rewrite omap_snoc, existsb_app. cbn [existsb]. rewrite orb_false_r.
  destruct (mark t r); [by rewrite last_snoc|]. rewrite app_nil_r.
  destruct (last (omap (mark t) recs)), (existsb (begins t) recs), (begins t r); done.
Qed.

Lemma analysis_outcome recs t : a_status <$> att (analysis recs) !! t = outcome recs t.
Proof.
  induction recs as [|r recs IH] using rev_ind; [done|]. rewrite analysis_snoc, outcome_snoc, <- IH.
  unfold analysis_step, mark, begins.
  destruct (record_type r) eqn:Er; cbn [att]; rewrite ?bump_status, ?finish_status, ?lookup_or_insert;
    (destruct (decide (txid r = t)) as [Et|Et]; [subst t|]);
    rewrite ?(bool_decide_eq_true_2 _ Et), ?(bool_decide_eq_false_2 _ Et); cbn [andb];
    rewrite ?(decide_True _ _ (eq_refl : txid r = txid r)), ?decide_False by congruence; try done;
    rewrite ?bool_decide_eq_true_2 by done; cbn [andb]; try done.
  by destruct (att (analysis recs) !! txid r).
Qed.

Lemma seed_loop_entries payload n : forall i d,
  seed_loop n i payload d =
  seed_entries ((fun i => (from_be (slice payload (4 + i * 16) (4 + i * 16 + 8)),
                  from_be (slice payload (4 + i * 16 + 8) (4 + i * 16 + 16)))) <$> seq i n) d.
Proof. induction n as [|n IH]; intros i d; [done|]. cbn [seed_loop seq]. rewrite IH. done. Qed.

Lemma seed_checkpoint_entries payload d :
  seed_dpt_from_checkpoint payload d = seed_entries (checkpoint_entries payload) d.
Proof.
  unfold seed_dpt_from_checkpoint, checkpoint_entries. destruct (_ <? _)%nat; [done|].
  destruct (_ <? _); [done|]. apply seed_loop_entries.
Qed.

Lemma lookup_seed_entries es : forall d p,
  seed_entries es d !! p =
  match d !! p with
  | Some e => Some e
  | None => (fun e => mkDpt e.1 e.2) <$> head (base.filter (fun e => e.1 = p) es)
  end.
Proof.
  induction es as [|[q l] es IH]; intros d p; [unfold seed_entries; cbn [foldl]; by destruct (d !! p)|].
  unfold seed_entries in *. cbn [foldl]. rewrite IH, lookup_or_insert, filter_cons. cbn [fst snd].
  destruct (decide (p = q)) as [->|Hne].
  - rewrite decide_True by done. by destruct (d !! q).
  - rewrite (decide_False (P := q = p)) by congruence. done.
Qed.

Lemma analysis_dpt recs : dpt (analysis recs) = seed_entries (concat (dirties <$> recs)) ∅.
Proof.
  induction recs as [|r recs IH] using rev_ind; [done|].
  rewrite analysis_snoc, fmap_app, concat_app. unfold seed_entries. rewrite foldl_app.
  fold (seed_entries (concat (dirties <$> recs)) ∅). rewrite <- IH. cbn [fmap list_fmap concat].
  rewrite app_nil_r. unfold analysis_step, dirties.
  destruct (record_type r) eqn:Er; cbn [dpt is_page_record]; try done;
    try (by destruct (8 <=? length (payload r))%nat).
  rewrite bool_decide_eq_true_2 by done. apply seed_checkpoint_entries.
Qed.

Lemma analysis_max_lsn recs :
  max_lsn (analysis recs) = foldr Z.max 0 (lsn <$> recs).
Proof.
  assert (forall l a, 0 <= a -> foldl Z.max a l = Z.max a (foldr Z.max 0 l)) as Hf.
  { induction l as [|x l IH]; intros a Ha; simpl; [lia|]. rewrite IH; lia. }
  assert (max_lsn (analysis recs) = foldl Z.max 0 (lsn <$> recs) /\ 0 <= max_lsn (analysis recs)) as [H1 H2].
  { induction recs as [|r recs [IH Hp]] using rev_ind; [done|].
    rewrite analysis_snoc, fmap_app, foldl_app, <- IH. cbn [fmap list_fmap foldl].
    assert (max_lsn (analysis_step (analysis recs) r) =
      if max_lsn (analysis recs) <? lsn r then lsn r else max_lsn (analysis recs)) as ->
      by (unfold analysis_step; by destruct (record_type r)).
    destruct (Z.ltb_spec (max_lsn (analysis recs)) (lsn r)); lia. }
  rewrite H1, Hf by lia. apply Z.max_r. clear. induction recs as [|r l IH]; [done|]. rewrite fmap_cons. cbn [foldr]. lia.
Qed.

(** ANALYSIS computes the tables it should: a transaction's status is that
    of its last commit or abort record, [Active] if it only began; a page is
    dirty from the first record, or checkpoint entry, that mentions it; the
    maximal LSN is that of the records. *)
Theorem analysis_tables (recs : list WalRecord) :
  let t := analysis recs in
  (forall x, a_status <$> att t !! x = outcome recs x) /\
  (forall p, dpt t !! p =
     (fun e => mkDpt e.1 e.2) <$> head (base.filter (fun e => e.1 = p) (concat (dirties <$> recs)))) /\
  max_lsn t = foldr Z.max 0 (lsn <$> recs).
Proof.
  split; [apply analysis_outcome|]. split; [|apply analysis_max_lsn].
  intros p. rewrite analysis_dpt, lookup_seed_entries, lookup_empty. done.
Qed.

(** The payload encodings of recovery read back: an embedded before-image,
    a compensation record's next LSN, page and image, and the dirty pages of a
    checkpoint, each page with the first LSN listed for it. *)
Theorem recovery_payloads `{CS : Checksums} (pl image : list Z) (u p : Z) (rec : WalRecord)
    (entries : list (Z * Z)) :
  is_u64 u -> is_u64 p -> record_type rec = Clr -> payload rec = build_clr_payload u p image ->
  Forall (fun e => is_u64 e.1 /\ is_u64 e.2) entries -> is_u32 (Z.of_nat (length entries)) ->
  extract_before_image (embed_before_image pl image) = Some (take PAGE_SIZE image) /\
  clr_undo_next_lsn (payload rec) = u /\
  extract_page_and_image rec = Some (p, take PAGE_SIZE image) /\
  (forall q, seed_dpt_from_checkpoint (checkpoint_payload entries) ∅ !! q =
     (fun e => mkDpt e.1 e.2) <$> head (base.filter (fun e => e.1 = q) entries)).
Proof.
  intros Hu Hp Ht Hb He Hn. split; [apply embed_extract|].
  destruct (clr_roundtrip rec u p image Hu Hp Ht Hb) as [H1 H2]. split; [done|]. split; [done|].
  intros q. rewrite checkpoint_seeds by done. by rewrite lookup_seed_entries, lookup_empty.
Qed.

(** ** REDO writes pages *)

Definition lsn_of_page (pg : list Z) : Z := from_be (take 8 pg).

Section Redo.
Context `{CS : Checksums}.
Context (data_path : Path).
#[local] Abbreviation data_file := (PageFile.data_file data_path).
#[local] Abbreviation steady := (PageFile.steady data_path).

Lemma length_stamped img l : length (stamped_image img l) = PAGE_SIZE.
Proof.
  unfold stamped_image. set (b := write_at _ 0 _).
  assert (length b = PAGE_SIZE) as Hb.
  { unfold b. rewrite length_write_at; rewrite length_app, length_take, length_replicate, ?length_to_be; page_lia. }
  destruct (_ && _); [|done]. unfold update_checksum_bytes.
  rewrite length_write_at; rewrite ?length_to_le; page_lia.
Qed.

Lemma lsn_of_stamped img l : is_u64 l -> lsn_of_page (stamped_image img l) = l.
Proof.
  intros Hl. unfold stamped_image. set (b0 := _ ++ _). set (b := write_at b0 0 _).
  assert (length b0 = PAGE_SIZE) as Hb0.
  { unfold b0. rewrite length_app, length_take, length_replicate. page_lia. }
  assert (take 8 b = to_be 8 l) as Hb.
  { unfold b, write_at. rewrite take_0; cbn [app]. apply take_app_length'. by rewrite length_to_be. }
  unfold lsn_of_page. destruct (_ && _); [|rewrite Hb; by apply from_to_be_id].
  unfold update_checksum_bytes, write_at. rewrite take_app_le, take_take; [|].
  - replace (8 `min` 28)%nat with 8%nat by done. rewrite Hb. by apply from_to_be_id.
  - rewrite length_take. unfold b. rewrite length_write_at; rewrite ?length_to_be; page_lia.
Qed.

Lemma lsn_past_end f p :
  page_number p -> whole_pages f -> (length f < page_offset p + 8)%nat -> lsn_of_page (page_of f p) = 0.
Proof.
  intros Hp [n Hn] Hl. pose proof (page_offset_eq p Hp). pose proof PAGE_SIZE_eq.
  assert (length f <= page_offset p)%nat as Hge by nia.
  unfold page_of, lsn_of_page. rewrite drop_ge by lia. rewrite app_nil_l, take_take, take_replicate.
  replace (8 `min` PAGE_SIZE `min` PAGE_SIZE)%nat with 8%nat by lia. reflexivity.
Qed.

Lemma read_page_lsn_spec {T} (s : T) w p :
  steady w -> page_number p ->
  read_page_lsn data_path p (s, w) = (Ok (lsn_of_page (page_of (data_file w) p)), (s, w)).
Proof.
  intros [Hs Hw] Hp. pose proof (next_outcome_quiet w Hs) as Hn.
  pose proof (lsn_past_end _ _ Hp Hw) as Hpe. unfold data_file in *.
  unfold read_page_lsn, bind, world, exists_path. cbn [snd].
  destruct (files w !! data_path) as [f|] eqn:Ef; cbn [fmap option_fmap option_map default id] in *.
  - rewrite bool_decide_eq_true_2 by (by eexists). cbn [negb].
    unfold lift, fs_open, h_len, h_read_at, with_file. cbn [fst snd]. repeat (rewrite ?Hn, ?Ef; cbn [fst snd]).
    destruct (Nat.ltb_spec (length (cached f)) (page_offset p + 8)) as [Hlt|Hge].
    + unfold ret. by rewrite Hpe.
    + repeat (rewrite ?Hn, ?Ef; cbn [fst snd]).
      destruct (Nat.leb_spec (page_offset p + 8) (length (cached f))); [|lia].
      cbn [fst snd]. unfold ret. do 2 f_equal. unfold lsn_of_page. f_equal. apply list_eq. intros i.
      rewrite lookup_slice. destruct (decide (i < 8)%nat) as [Hi|Hi].
      * rewrite decide_True by lia. rewrite lookup_take_lt, lookup_page_of by done.
        pose proof PAGE_SIZE_eq. rewrite decide_True by lia.
        destruct (lookup_lt_is_Some_2 (cached f) (page_offset p + i)) as [x Hx]; [lia|]. by rewrite Hx.
      * rewrite decide_False by lia. by rewrite lookup_take_ge by lia.
  - rewrite bool_decide_eq_false_2 by (by intros [? ?]). unfold ret. rewrite Hpe; [done|].
    cbn [length]. lia.
Qed.

(** ** REDO, page by page *)

(** What REDO does to page [q]. *)
Definition redo_page_step (a : Att) (d : Dpt) (q : Z) (pg : list Z) (r : WalRecord) : list Z :=
  match redo_target a d r with
  | Some (p, img) => if bool_decide (p = q) && (lsn_of_page pg <? lsn r)
                     then stamped_image img (lsn r) else pg
  | None => pg
  end.

Definition redo_page (a : Att) (d : Dpt) (q : Z) (records : list WalRecord) (pg : list Z) : list Z :=
  foldl (redo_page_step a d q) pg records.

Definition targets_valid (a : Att) (d : Dpt) (records : list WalRecord) : Prop :=
  Forall (fun r => forall p img, redo_target a d r = Some (p, img) -> page_number p /\ is_u64 (lsn r)) records.

Lemma redo_loop_pages {T} (a : Att) (d : Dpt) (s : T) records : forall w n,
  steady w -> targets_valid a d records ->
  exists n' w', redo_loop data_path a d records n (s, w) = (Ok n', (s, w')) /\ steady w' /\
    (forall q, page_number q ->
       page_of (data_file w') q = redo_page a d q records (page_of (data_file w) q)) /\
    (forall q, q <> data_path -> files w' !! q = files w !! q) /\ (n <= n')%nat.
Proof.
  induction records as [|r rest IH]; intros w n Hw Hv.
  { exists n, w. by repeat split; destruct Hw. }
  apply Forall_cons in Hv as [Hr Hv]. cbn [redo_loop]. unfold redo_page in *. cbn [foldl].
  unfold redo_page_step at 2. destruct (redo_target a d r) as [[p img]|] eqn:Et; [|by apply IH].
  destruct (Hr p img eq_refl) as [Hp Hl]. unfold bind at 1. rewrite read_page_lsn_spec by done.
  destruct (Z.leb_spec (lsn r) (lsn_of_page (page_of (data_file w) p))) as [Hle|Hlt].
  - destruct (IH w n Hw Hv) as (n' & w' & E & Hw' & Hpg & Ho & Hn). exists n', w'.
    split; [done|]. split; [done|]. split; [|done]. intros q Hq. rewrite Hpg by done. f_equal.
    destruct (decide (p = q)) as [->|]; [|by rewrite bool_decide_eq_false_2].
    rewrite bool_decide_eq_true_2 by done. cbn [andb].
    destruct (Z.ltb_spec (lsn_of_page (page_of (data_file w) q)) (lsn r)); [lia|done].
  - destruct (write_page_spec data_path s w p _ Hw Hp (length_stamped img (lsn r))) as (w1 & E1 & Hw1 & Ed & Ho1).
    unfold apply_after_image. unfold bind at 1. rewrite E1.
    destruct (IH w1 (S n) Hw1 Hv) as (n' & w' & E & Hw' & Hpg & Ho & Hn). exists n', w'.
    split; [done|]. split; [done|]. split; [|split; [|lia]].
    + intros q Hq. rewrite Hpg by done. f_equal. rewrite Ed by done.
      destruct (decide (q = p)) as [->|Hne].
      * rewrite bool_decide_eq_true_2 by done. cbn [andb].
        destruct (Z.ltb_spec (lsn_of_page (page_of (data_file w) p)) (lsn r)); [done|lia].
      * by rewrite bool_decide_eq_false_2 by congruence.
    + intros q Hq. rewrite Ho by done. by apply Ho1.
Qed.

(** Page LSNs only grow, reach every replayed record's LSN, and come from the
    page itself or from a replayed record. *)
Lemma redo_page_lsn a d q records : forall pg,
  targets_valid a d records ->
  let l := lsn_of_page (redo_page a d q records pg) in
  lsn_of_page pg <= l /\
  (forall r img, r ∈ records -> redo_target a d r = Some (q, img) -> lsn r <= l) /\
  (redo_page a d q records pg = pg \/
   exists r img, r ∈ records /\ redo_target a d r = Some (q, img) /\
     redo_page a d q records pg = stamped_image img (lsn r)).
Proof.
  induction records as [|r rest IH]; intros pg Hv.
  { split; [done|]. split; [by intros r img ?%elem_of_nil|by left]. }
  apply Forall_cons in Hv as [Hr Hv]. unfold redo_page in *. cbn [foldl].
  set (pg' := redo_page_step a d q pg r) in *.
  destruct (IH pg' Hv) as (H1 & H2 & H3).
  assert (lsn_of_page pg <= lsn_of_page pg' /\
    (forall img, redo_target a d r = Some (q, img) -> lsn r <= lsn_of_page pg') /\
    (pg' = pg \/ exists img, redo_target a d r = Some (q, img) /\ pg' = stamped_image img (lsn r)))
    as (S1 & S2 & S3).
  { unfold pg', redo_page_step. destruct (redo_target a d r) as [[p img]|] eqn:Et;
      [|split; [lia|split; [done|by left]]].
    destruct (decide (p = q)) as [->|Hne].
    - rewrite bool_decide_eq_true_2 by done. cbn [andb].
      destruct (Z.ltb_spec (lsn_of_page pg) (lsn r)).
      + rewrite lsn_of_stamped by (by eapply Hr). split; [lia|]. split; [intros; lia|]. right. by exists img.
      + split; [lia|]. split; [intros; lia|by left].
    - rewrite bool_decide_eq_false_2 by done. cbn [andb]. split; [lia|]. split; [|by left]. congruence. }
  split; [lia|]. split.
  - intros r' img [->|Hin]%elem_of_cons Ht; [specialize (S2 img Ht); lia|]. by eapply H2.
  - destruct H3 as [->|(r' & img & Hin & Ht & E)].
    + destruct S3 as [->|(img & Ht & ->)]; [by left|]. right. exists r, img.
      split; [by apply elem_of_cons; left|done].
    + right. exists r', img. split; [by apply elem_of_cons; right|done].
Qed.

Lemma redo_page_app a d q pre r post pg :
  redo_page a d q (pre ++ r :: post) pg =
  redo_page a d q post (redo_page_step a d q (redo_page a d q pre pg) r).
Proof. unfold redo_page. by rewrite foldl_app. Qed.

(** Records at or below the page's LSN leave it alone. *)
Lemma redo_page_below a d q records pg :
  (forall r img, r ∈ records -> redo_target a d r = Some (q, img) -> lsn r <= lsn_of_page pg) ->
  redo_page a d q records pg = pg.
Proof.
  induction records as [|r rest IH]; intros Hb; [done|]. unfold redo_page in *. cbn [foldl].
  assert (redo_page_step a d q pg r = pg) as ->.
  { unfold redo_page_step. destruct (redo_target a d r) as [[p img]|] eqn:Et; [|done].
    destruct (decide (p = q)) as [->|]; [|by rewrite bool_decide_eq_false_2].
    destruct (Z.ltb_spec (lsn_of_page pg) (lsn r)); [|by rewrite andb_false_r].
    specialize (Hb r img ltac:(by apply elem_of_cons; left) Et). lia. }
  apply IH. intros r' img Hin. apply Hb. by apply elem_of_cons; right.
Qed.

(** A second pass over a state REDO has reached replays nothing. *)
Lemma redo_loop_skip {T} (a : Att) (d : Dpt) (s : T) records w n :
  steady w -> targets_valid a d records ->
  (forall r p img, r ∈ records -> redo_target a d r = Some (p, img) ->
     lsn r <= lsn_of_page (page_of (data_file w) p)) ->
  redo_loop data_path a d records n (s, w) = (Ok n, (s, w)).
Proof.
  intros Hw. induction records as [|r rest IH]; intros Hv Hb; [done|].
  apply Forall_cons in Hv as [Hr Hv]. cbn [redo_loop].
  assert (redo_loop data_path a d rest n (s, w) = (Ok n, (s, w))) as IH'.
  { apply IH; [done|]. intros r' p img Hin. apply Hb. by apply elem_of_cons; right. }
  destruct (redo_target a d r) as [[p img]|] eqn:Et; [|done].
  unfold bind at 1. rewrite read_page_lsn_spec by (done || by eapply Hr).
  specialize (Hb r p img ltac:(by apply elem_of_cons; left) Et).
  destruct (Z.leb_spec (lsn r) (lsn_of_page (page_of (data_file w) p))); [done|lia].
Qed.

Lemma redo_target_committed a d r p img :
  redo_target a d r = Some (p, img) ->
  (record_type r = Clr \/ is_committed a (txid r) = true) /\ is_Some (d !! p) /\
  extract_page_and_image r = Some (p, img).
Proof.
  unfold redo_target. destruct (_ <? _); [done|]. destruct (negb (_ || _)); [done|].
  destruct (bool_decide (record_type r = Clr)) eqn:Ec; rg_bool; cbn [negb andb];
    [|destruct (is_committed a (txid r)) eqn:Em; cbn [negb]; [|done]];
    destruct (extract_page_and_image r) as [[q i]|]; try done;
    destruct (bool_decide (is_Some (d !! q))) eqn:Ed; rg_bool; intros [= <- <-]; auto.
Qed.

Lemma redo_empty_dpt a r : redo_target a ∅ r = None.
Proof.
  destruct (redo_target a ∅ r) as [[p img]|] eqn:E; [|done].
  apply redo_target_committed in E as (_ & [? E] & _). by rewrite lookup_empty in E.
Qed.

Lemma redo_is_loop {T} (a : Att) (d : Dpt) records (sw : T * World) :
  redo data_path records a d sw = redo_loop data_path a d records 0 sw.
Proof.
  unfold redo. destruct (bool_decide (d = ∅)) eqn:E; [|done]. rg_bool. subst d.
  generalize 0%nat. induction records as [|r rest IH]; intros n; [done|]. cbn [redo_loop].
  rewrite redo_empty_dpt. apply IH.
Qed.

(** REDO, in a run without I/O errors, ends and leaves every page with the
    image of a committed transaction's record (or a compensation record), or
    as it was; only pages of the dirty page table change, and no other file. *)
Theorem redo_pages {T} (s : T) (w : World) (a : Att) (d : Dpt) (records : list WalRecord) :
  steady w -> targets_valid a d records ->
  exists n w', redo data_path records a d (s, w) = (Ok n, (s, w')) /\
    (forall p, p <> data_path -> files w' !! p = files w !! p) /\
    forall q, page_number q ->
      page_of (data_file w') q = redo_page a d q records (page_of (data_file w) q) /\
      (page_of (data_file w') q = page_of (data_file w) q \/
       is_Some (d !! q) /\
       exists r img, r ∈ records /\ (record_type r = Clr \/ is_committed a (txid r) = true) /\
         extract_page_and_image r = Some (q, img) /\
         page_of (data_file w') q = stamped_image img (lsn r)).
Proof.
  intros Hw Hv. rewrite redo_is_loop.
  destruct (redo_loop_pages a d s records w 0 Hw Hv) as (n & w' & E & _ & Hp & Ho & _).
  exists n, w'. split; [done|]. split; [done|]. intros q Hq. specialize (Hp q Hq). split; [done|].
  destruct (redo_page_lsn a d q records (page_of (data_file w) q) Hv) as (_ & _ & [H|H]).
  - left. congruence.
  - right. destruct H as (r & img & Hin & Ht & Ei).
    pose proof (redo_target_committed _ _ _ _ _ Ht) as (Hc & Hd & Hx). split; [done|]. exists r, img.
    split; [done|]. split; [done|]. split; [done|congruence].
Qed.

(** C32: REDO is idempotent: run again on what it left, it replays nothing and
    changes nothing. *)
Theorem redo_idempotent {T} (s : T) (w w' : World) (a : Att) (d : Dpt) (records : list WalRecord) (n : nat) :
  steady w -> targets_valid a d records ->
  redo data_path records a d (s, w) = (Ok n, (s, w')) ->
  redo data_path records a d (s, w') = (Ok 0%nat, (s, w')).
Proof.
  intros Hw Hv. rewrite !redo_is_loop. intros E.
  destruct (redo_loop_pages a d s records w 0 Hw Hv) as (n1 & w1 & E1 & Hw1 & Hp & _ & _).
  rewrite E1 in E. injection E as <- <-. apply redo_loop_skip; [done|done|].
  intros r p img Hin Ht. pose proof Hv as Hv'. unfold targets_valid in Hv'. rewrite Forall_forall in Hv'.
  destruct (Hv' r Hin p img Ht) as [Hpn _]. rewrite Hp by done.
  by eapply (redo_page_lsn a d p records _ Hv).
Qed.

Lemma redo_page_latest a d pre r post q img pg :
  let records := pre ++ r :: post in
  targets_valid a d records -> StronglySorted (fun x y => lsn x < lsn y) records ->
  redo_target a d r = Some (q, img) ->
  Forall (fun r' => forall i, redo_target a d r' <> Some (q, i)) post ->
  redo_page a d q records pg = if lsn_of_page pg <? lsn r then stamped_image img (lsn r) else pg.
Proof.
  intros records Hv Hs Ht Hpost.
  assert (forall r', r' ∈ pre -> lsn r' < lsn r) as Hpre.
  { intros r' Hin. apply StronglySorted_app in Hs as (Hs & _). apply Hs; [done|by apply elem_of_cons; left]. }
  assert (targets_valid a d pre) as Hvp by (unfold records, targets_valid in Hv; by apply Forall_app in Hv as [? _]).
  destruct (redo_page_lsn a d q pre pg Hvp) as (H1 & _ & H3).
  unfold records. rewrite redo_page_app. unfold redo_page_step. rewrite Ht, bool_decide_eq_true_2 by done.
  cbn [andb]. rewrite Forall_forall in Hpost.
  rewrite (redo_page_below a d q post) by (intros r' i Hin Ht'; by destruct (Hpost r' Hin i)).
  destruct (Z.ltb_spec (lsn_of_page pg) (lsn r)) as [Hlt|Hge].
  - destruct H3 as [->|(r' & i & Hin & Ht' & ->)].
    + destruct (Z.ltb_spec (lsn_of_page pg) (lsn r)); [done|lia].
    + unfold targets_valid in Hvp. rewrite Forall_forall in Hvp.
      rewrite lsn_of_stamped by (by eapply Hvp). pose proof (Hpre r' Hin).
      destruct (Z.ltb_spec (lsn r') (lsn r)); [done|lia].
  - rewrite (redo_page_below a d q pre) by (intros r' i Hin _; pose proof (Hpre r' Hin); lia).
    destruct (Z.ltb_spec (lsn_of_page pg) (lsn r)); [lia|done].
Qed.
End Redo.

(** ** UNDO terminates *)

(** Chains go back: a record points to an earlier one or ends its chain. *)
Definition chain_ok (r : WalRecord) : Prop :=
  if decide (record_type r = Clr)
  then clr_undo_next_lsn (payload r) = 0 \/ clr_undo_next_lsn (payload r) < lsn r
  else prev_lsn r = 0 \/ prev_lsn r < lsn r.

#[global] Instance chain_ok_dec r : Decision (chain_ok r).
Proof. unfold chain_ok. destruct (decide (record_type r = Clr)); apply _. Defined.

Lemma lsn_index_lookup records l r : lsn_index records !! l = Some r -> r ∈ records /\ lsn r = l.
Proof.
  unfold lsn_index. induction records as [|x recs IH] using rev_ind; [done|].
  rewrite foldl_app. cbn [foldl]. intros H. destruct (decide (lsn x = l)) as [E|E].
  - subst l. rewrite lookup_insert_eq in H. injection H as ->.
    split; [apply elem_of_app; right; by apply list_elem_of_singleton|done].
  - rewrite lookup_insert_ne in H by done. destruct (IH H). split; [apply elem_of_app; by left|done].
Qed.

(** Records at or below an LSN: the measure of a chain walk. *)
Definition below (records : list WalRecord) (l : Z) : nat :=
  length (base.filter (fun r => lsn r <= l) records).

Lemma below_lt records r a b :
  r ∈ records -> lsn r = b -> a < b -> (below records a < below records b)%nat.
Proof.
  intros Hin Hb Hab. unfold below.
  assert (forall l : list WalRecord, Nat.le (length (base.filter (fun r => lsn r <= a) l))
    (length (base.filter (fun r => lsn r <= b) l))) as Hmono.
  { induction l as [|x l IH]; [done|]. rewrite !filter_cons.
    destruct (decide (lsn x <= a)), (decide (lsn x <= b)); cbn [length]; lia. }
  induction records as [|x l IH]; [by apply elem_of_nil in Hin|]. rewrite !filter_cons.
  apply elem_of_cons in Hin as [->|Hin].
  - rewrite decide_False, decide_True by lia. cbn [length]. specialize (Hmono l). lia.
  - specialize (IH Hin). destruct (decide (lsn x <= a)), (decide (lsn x <= b)); cbn [length]; lia.
Qed.

Lemma below_length records l : (below records l <= length records)%nat.
Proof. apply length_filter. Qed.

Section Undo.
Context `{CS : Checksums}.
Context (data_path : Path) (iter : Att -> list AttEntry) (now_millis : Z).

Lemma undo_chain_ends records : Forall chain_ok records -> forall fuel cur total sw,
  (below records cur < fuel)%nat ->
  (undo_chain data_path now_millis fuel (lsn_index records) cur total sw).1 <> Ok None.
Proof.
  intros Hc. induction fuel as [|f IH]; intros cur total sw Hf; [lia|]. cbn [undo_chain].
  destruct (lsn_index records !! cur) as [r|] eqn:E; [|done].
  apply lsn_index_lookup in E as [Hin El]. rewrite Forall_forall in Hc.
  pose proof (Hc r Hin) as Hr. unfold chain_ok in Hr.
  destruct (decide (record_type r = Clr)) as [Et|Et].
  - rewrite bool_decide_eq_true_2 by done.
    destruct (Z.eqb_spec (clr_undo_next_lsn (payload r)) 0); [done|]. apply IH.
    pose proof (below_lt records r (clr_undo_next_lsn (payload r)) cur Hin El). lia.
  - rewrite bool_decide_eq_false_2 by done. unfold bind.
    destruct (undo_record data_path now_millis r total sw) as [[total'|e] sw']; [|done].
    destruct (Z.eqb_spec (prev_lsn r) 0); [done|]. apply IH.
    pose proof (below_lt records r (prev_lsn r) cur Hin El). lia.
Qed.

Lemma undo_all_ends records : Forall chain_ok records -> forall losers total sw,
  (undo_all data_path now_millis (S (length records)) (lsn_index records) losers total sw).1 <> Ok None.
Proof.
  intros Hc. induction losers as [|e rest IH]; intros total sw; [done|]. cbn [undo_all]. unfold bind at 1.
  pose proof (undo_chain_ends records Hc (S (length records)) (a_last_lsn e) total sw) as He.
  specialize (He ltac:(pose proof (below_length records (a_last_lsn e)); lia)).
  destruct (undo_chain _ _ _ _ _ _ sw) as [[[n|]|x] sw1]; cbn [fst] in He; [|done|done].
  unfold bind. destruct (flush sw1) as [[[]|x] sw2]; [apply IH|done].
Qed.

(** C35: over a log whose chains point backwards, UNDO ends within one step per
    record and transaction, whatever I/O errors occur. *)
Theorem undo_terminates (records : list WalRecord) (a : Att) (sw : WalWriter * World) :
  Forall chain_ok records ->
  (undo data_path iter now_millis (S (length records)) a records sw).1 <> Ok None.
Proof. intros Hc. by apply undo_all_ends. Qed.

(** ** What UNDO does to pages *)

(** The page [apply_inverse] writes, if any. *)
Definition inverse_image (r : WalRecord) : option (list Z) :=
  match extract_before_image (payload r) with
  | Some bi => Some (take (min (length bi) PAGE_SIZE) bi ++ replicate (PAGE_SIZE - min (length bi) PAGE_SIZE) 0)
  | None => match record_type r with PageInsert | IndexPageInsert => Some zero_page | _ => None end
  end.

Definition undo_page_step (q : Z) (pg : list Z) (r : WalRecord) : list Z :=
  if is_page_record (record_type r) then
    match extract_page_and_image r with
    | Some (p, _) => if bool_decide (p = q) then default pg (inverse_image r) else pg
    | None => pg
    end
  else pg.

(** The records a chain walk visits. *)
Fixpoint chain (fuel : nat) (idx : gmap Z WalRecord) (cur : Z) : list WalRecord :=
  match fuel with
  | O => []
  | S f =>
      match idx !! cur with
      | None => []
      | Some r =>
          if bool_decide (record_type r = Clr) then
            let next := clr_undo_next_lsn (payload r) in
            if next =? 0 then [] else chain f idx next
          else r :: if prev_lsn r =? 0 then [] else chain f idx (prev_lsn r)
      end
  end.

(** The log segment is an open file other than the data file. *)
Definition wal_ready (s : WalWriter) (w : World) : Prop :=
  segment_handle s <> data_path /\ is_Some (files w !! segment_handle s).

(** [(s, w)] becomes [(s', w')] without touching the data file. *)
Definition wal_only (w : World) (s' : WalWriter) (w' : World) : Prop :=
  steady data_path w' /\ wal_ready s' w' /\ data_file data_path w' = data_file data_path w.

Lemma flush_quiet s w :
  steady data_path w -> wal_ready s w ->
  exists s' w', flush (s, w) = (Ok tt, (s', w')) /\ buffer s' = [] /\ wal_only w s' w'.
Proof.
  intros [Hs Hw] [Hne [f Hf]]. destruct w as [fs sc u]. cbn [files script] in *. subst sc.
  destruct (decide (buffer s = [])) as [Hb|Hb].
  - exists s, (mkWorldAt fs [] u). unfold flush, bind, self. cbn [fst]. rewrite Hb. cbn [length Nat.eqb].
    split; [done|]. split; [done|]. by repeat split.
  - exists (flushed s), (mkWorldAt (<[segment_handle s := mkFile (cached f ++ buffer s) (cached f ++ buffer s)]> fs) [] u).
    split; [by apply flush_ok|]. split; [done|].
    assert (data_file data_path (mkWorldAt (<[segment_handle s := mkFile (cached f ++ buffer s) (cached f ++ buffer s)]> fs) [] u) =
      data_file data_path (mkWorldAt fs [] u)) as E.
    { unfold data_file. cbn [files]. by rewrite lookup_insert_ne. }
    split; [split; [done|by rewrite E]|]. split; [|done]. split; [done|].
    cbn [segment_handle flushed files]. rewrite lookup_insert_eq. by eexists.
Qed.

Lemma append_quiet s w r :
  steady data_path w -> wal_ready s w -> Z.of_nat (on_disk_size r) <= BUFFER_SIZE ->
  exists l s' w', append r (s, w) = (Ok l, (s', w')) /\ wal_only w s' w'.
Proof.
  intros Hw Hr Hl. unfold append. unfold bind at 1. unfold self at 1. cbn [fst]. cbv zeta.
  set (bytes := encode _).
  assert (length bytes = on_disk_size r) as Hlb by (unfold bytes; by rewrite length_encode).
  destruct (_ <? _).
  - destruct (flush_quiet s w Hw Hr) as (s1 & w1 & E & Hb & Hd & (H1 & H2) & H3).
    unfold bind at 1 2. rewrite E. rewrite Hlb.
    destruct (Z.ltb_spec BUFFER_SIZE (Z.of_nat (on_disk_size r))); [lia|].
    unfold ret at 1, bind, self, put, ret. cbn [fst snd]. do 3 eexists. split; [reflexivity|].
    split; [done|]. split; [|done]. by split.
  - unfold ret at 1, bind, self, put, ret. cbn [fst snd]. do 3 eexists. split; [reflexivity|].
    split; [done|]. split; [|done]. destruct Hr. by split.
Qed.

(** Page records name pages the data file can address. *)
Definition pages_valid (r : WalRecord) : Prop :=
  is_u64 (lsn r) /\ forall p img, extract_page_and_image r = Some (p, img) ->
    (is_page_record (record_type r) = true \/ record_type r = Clr) -> page_number p.

Lemma length_inverse r img : inverse_image r = Some img -> length img = PAGE_SIZE.
Proof.
  unfold inverse_image. destruct (extract_before_image (payload r)) as [bi|].
  - intros [= <-]. rewrite length_app, length_take, length_replicate. lia.
  - destruct (record_type r); intros [= <-]; unfold zero_page; apply length_replicate.
Qed.

Lemma apply_inverse_spec s w r p :
  steady data_path w -> page_number p -> wal_ready s w ->
  exists w', apply_inverse data_path r p (s, w) = (Ok tt, (s, w')) /\ steady data_path w' /\ wal_ready s w' /\
    forall q, page_number q ->
      page_of (data_file data_path w') q =
      if bool_decide (p = q) then default (page_of (data_file data_path w) q) (inverse_image r)
      else page_of (data_file data_path w) q.
Proof.
  intros Hw Hp [Hne Hf]. pose proof (length_inverse r) as Hl.
  assert (forall buf, inverse_image r = Some buf ->
    exists w', (bind (lift (fs_open data_path true))
       (fun _ => lift (h_write_at data_path buf (page_offset p)))) (s, w) = (Ok tt, (s, w')) /\
      steady data_path w' /\ wal_ready s w' /\ forall q, page_number q ->
      page_of (data_file data_path w') q =
      if bool_decide (p = q) then default (page_of (data_file data_path w) q) (inverse_image r)
      else page_of (data_file data_path w) q) as Hwrite.
  { intros buf Hb. destruct (write_page_spec data_path s w p buf Hw Hp (Hl buf Hb)) as (w' & E & Hw' & Hpg & Ho).
    exists w'. split; [done|]. split; [done|]. split; [split; [done|by rewrite Ho]|].
    intros q Hq. rewrite Hpg, Hb by done. cbn [default].
    destruct (decide (q = p)) as [->|]; [by rewrite bool_decide_eq_true_2|by rewrite bool_decide_eq_false_2]. }
  assert (inverse_image r = None -> exists w', @ret WalWriter unit tt (s, w) = (Ok tt, (s, w')) /\
      steady data_path w' /\ wal_ready s w' /\ forall q, page_number q ->
      page_of (data_file data_path w') q =
      if bool_decide (p = q) then default (page_of (data_file data_path w) q) (inverse_image r)
      else page_of (data_file data_path w) q) as Hskip.
  { intros Hn. exists w. rewrite Hn. split; [done|]. split; [done|]. split; [done|].
    intros q _. by destruct (bool_decide (p = q)). }
  unfold apply_inverse, inverse_image in *. destruct (extract_before_image (payload r)) as [bi|].
  - by apply Hwrite.
  - destruct (record_type r); try (by apply Hskip); by apply Hwrite.
Qed.

Lemma undo_record_spec s w r total :
  steady data_path w -> wal_ready s w -> pages_valid r ->
  exists n s' w', undo_record data_path now_millis r total (s, w) = (Ok n, (s', w')) /\
    steady data_path w' /\ wal_ready s' w' /\
    forall q, page_number q ->
      page_of (data_file data_path w') q = undo_page_step q (page_of (data_file data_path w) q) r.
Proof.
  intros Hw Hr [_ Hv]. unfold undo_record, undo_page_step.
  destruct (is_page_record (record_type r)) eqn:Et; [|by exists total, s, w].
  destruct (extract_page_and_image r) as [[p img]|] eqn:Ex; [|by exists total, s, w].
  destruct (apply_inverse_spec s w r p Hw (Hv p img eq_refl (or_introl eq_refl)) Hr)
    as (w1 & E1 & Hw1 & Hr1 & Hp1).
  unfold bind at 1. rewrite E1. set (c := record_new _ _ _ _ _ _).
  destruct (append_quiet s w1 c Hw1 Hr1) as (l & s2 & w2 & E2 & Hw2 & Hr2 & Hd2).
  { unfold c, on_disk_size, record_new, with_checksums, build_clr_payload, BUFFER_SIZE. cbn [payload].
    rewrite !length_app, !length_to_be, length_take. unfold WAL_RECORD_MIN_SIZE. pose proof PAGE_SIZE_eq. lia. }
  unfold bind. rewrite E2. exists (S total), s2, w2. split; [done|]. split; [done|]. split; [done|].
  intros q Hq. by rewrite Hd2, Hp1.
Qed.

Lemma undo_chain_pages records : Forall chain_ok records -> Forall pages_valid records ->
  forall fuel cur total s w, (below records cur < fuel)%nat -> steady data_path w -> wal_ready s w ->
  exists n s' w', undo_chain data_path now_millis fuel (lsn_index records) cur total (s, w) = (Ok (Some n), (s', w')) /\
    steady data_path w' /\ wal_ready s' w' /\
    forall q, page_number q ->
      page_of (data_file data_path w') q =
      foldl (undo_page_step q) (page_of (data_file data_path w) q) (chain fuel (lsn_index records) cur).
Proof.
  intros Hc Hv. induction fuel as [|f IH]; intros cur total s w Hf Hw Hr; [lia|]. cbn [undo_chain chain].
  destruct (lsn_index records !! cur) as [r|] eqn:E; [|by exists total, s, w].
  apply lsn_index_lookup in E as [Hin El]. rewrite Forall_forall in Hc, Hv.
  pose proof (Hc r Hin) as Hcr. unfold chain_ok in Hcr.
  destruct (decide (record_type r = Clr)) as [Et|Et].
  - rewrite bool_decide_eq_true_2 by done.
    destruct (Z.eqb_spec (clr_undo_next_lsn (payload r)) 0); [by exists total, s, w|]. apply IH; [|done|done].
    pose proof (below_lt records r (clr_undo_next_lsn (payload r)) cur Hin El). lia.
  - rewrite bool_decide_eq_false_2 by done. unfold bind.
    destruct (undo_record_spec s w r total Hw Hr (Hv r Hin)) as (n & s1 & w1 & E1 & Hw1 & Hr1 & Hp1).
    rewrite E1. cbn [foldl]. destruct (Z.eqb_spec (prev_lsn r) 0).
    + exists n, s1, w1. split; [done|]. split; [done|]. split; [done|]. intros q Hq. by rewrite Hp1.
    + destruct (IH (prev_lsn r) n s1 w1) as (n2 & s2 & w2 & E2 & Hw2 & Hr2 & Hp2); [|done|done|].
      { pose proof (below_lt records r (prev_lsn r) cur Hin El). lia. }
      exists n2, s2, w2. split; [done|]. split; [done|]. split; [done|]. intros q Hq. by rewrite Hp2, Hp1.
Qed.

(** The records UNDO works on, in order. *)
Definition undone (a : Att) (records : list WalRecord) : list WalRecord :=
  concat ((fun e => chain (S (length records)) (lsn_index records) (a_last_lsn e)) <$> to_undo iter a).

Lemma undo_pages a records s w :
  Forall chain_ok records -> Forall pages_valid records -> steady data_path w -> wal_ready s w ->
  exists n s' w', undo data_path iter now_millis (S (length records)) a records (s, w) = (Ok (Some n), (s', w')) /\
    forall q, page_number q ->
      page_of (data_file data_path w') q =
      foldl (undo_page_step q) (page_of (data_file data_path w) q) (undone a records).
Proof.
  intros Hc Hv. unfold undo, undone. generalize 0%nat. revert s w.
  induction (to_undo iter a) as [|e rest IH]; intros s w total Hw Hr; [by exists total, s, w|].
  cbn [undo_all fmap list_fmap concat]. unfold bind at 1.
  destruct (undo_chain_pages records Hc Hv (S (length records)) (a_last_lsn e) total s w)
    as (n1 & s1 & w1 & E1 & Hw1 & Hr1 & Hp1); [pose proof (below_length records (a_last_lsn e)); lia|done|done|].
  rewrite E1. destruct (flush_quiet s1 w1 Hw1 Hr1) as (s2 & w2 & E2 & _ & Hw2 & Hr2 & Hd2).
  unfold bind. rewrite E2. destruct (IH s2 w2 n1 Hw2 Hr2) as (n3 & s3 & w3 & E3 & Hp3).
  exists n3, s3, w3. split; [done|]. intros q Hq. rewrite foldl_app, Hp3 by done. f_equal.
  rewrite Hd2. by apply Hp1.
Qed.
End Undo.

(** ** Recovery of a no-steal log *)

(** The logs the engine writes: LSNs increase, transactions are not announced
    by a begin record, a rollback's record closes its transaction and its
    chain, and a checkpoint lists LSNs before its own. *)
Record no_steal_log (records : list WalRecord) : Prop := {
  ns_order : StronglySorted (fun x y => lsn x < lsn y /\ (record_type x = RtAbort -> txid y <> txid x)) records;
  ns_shape : Forall (fun r => record_type r <> RtBegin /\ (record_type r = RtAbort -> prev_lsn r = 0)) records;
  ns_dirty : Forall (fun r => Forall (fun e => e.2 <= lsn r) (dirties r)) records;
  ns_chain : Forall chain_ok records;
  ns_pages : Forall pages_valid records
}.

Lemma lookup_bump m t l k e :
  bump_last_lsn m t l !! k = Some e ->
  m !! k = Some e \/ (k = t /\ a_last_lsn e = l /\ exists e0, m !! t = Some e0 /\ a_status e = a_status e0).
Proof.
  unfold bump_last_lsn. destruct (m !! t) as [e0|] eqn:E; [|by left]. destruct (_ <? _); [|by left].
  destruct (decide (k = t)) as [->|]; [|rewrite lookup_insert_ne by done; by left].
  rewrite lookup_insert_eq. intros [= <-]. right. split; [done|]. split; [done|]. by exists e0.
Qed.

Lemma lookup_finish m t l st k e :
  finish m t l st !! k = Some e ->
  (k <> t /\ m !! k = Some e) \/
  (k = t /\ a_status e = st /\ (a_last_lsn e = l \/ exists e0, m !! t = Some e0 /\ a_last_lsn e = Z.max l (a_last_lsn e0))).
Proof.
  unfold finish. destruct (m !! t) as [e0|] eqn:E; (destruct (decide (k = t)) as [->|];
    [rewrite lookup_insert_eq; intros [= <-]; right|rewrite lookup_insert_ne by done; by left]);
    (split; [done|]; split; [done|]); [right; by exists e0|by left].
Qed.

Lemma sorted_snoc {A} (R : A -> A -> Prop) l x :
  StronglySorted R (l ++ [x]) -> StronglySorted R l /\ forall y, y ∈ l -> R y x.
Proof.
  rewrite StronglySorted_app. intros (Hr & Hl & _). split; [done|].
  intros y Hy. apply Hr; [done|by apply list_elem_of_singleton].
Qed.

(** Where the ATT's last LSNs come from. *)
Lemma att_last_lsn recs :
  StronglySorted (fun x y => lsn x < lsn y /\ (record_type x = RtAbort -> txid y <> txid x)) recs ->
  Forall (fun r => record_type r <> RtBegin /\ (record_type r = RtAbort -> prev_lsn r = 0)) recs ->
  forall t e, att (analysis recs) !! t = Some e ->
    (exists r, r ∈ recs /\ lsn r = a_last_lsn e) /\
    (a_status e <> Committed -> exists r, r ∈ recs /\ record_type r = RtAbort /\ txid r = t /\ lsn r = a_last_lsn e).
Proof.
  induction recs as [|x recs IH] using rev_ind; [done|]. intros Hs Hsh t e.
  destruct (sorted_snoc _ _ _ Hs) as [Hs' Hlt]. apply Forall_app in Hsh as [Hsh [Hx _]%Forall_singleton].
  specialize (IH Hs' Hsh). rewrite analysis_snoc.
  assert (x ∈ recs ++ [x]) as Hin by (apply elem_of_app; right; by apply list_elem_of_singleton).
  assert (forall t e, att (analysis recs) !! t = Some e ->
    (exists r, r ∈ recs ++ [x] /\ lsn r = a_last_lsn e) /\
    (a_status e <> Committed -> exists r, r ∈ recs ++ [x] /\ record_type r = RtAbort /\ txid r = t /\ lsn r = a_last_lsn e)) as Hold.
  { intros t' e' He. destruct (IH t' e' He) as [(r & Hr & El) Ha]. split.
    - exists r. split; [apply elem_of_app; by left|done].
    - intros Hc. destruct (Ha Hc) as (r' & Hr' & ? & ? & ?). exists r'. split; [apply elem_of_app; by left|done]. }
  assert (bump_last_lsn (att (analysis recs)) (txid x) (lsn x) !! t = Some e ->
    (exists r, r ∈ recs ++ [x] /\ lsn r = a_last_lsn e) /\
    (a_status e <> Committed -> exists r, r ∈ recs ++ [x] /\ record_type r = RtAbort /\ txid r = t /\ lsn r = a_last_lsn e)) as Hbump.
  { intros [He|(-> & El & e0 & He0 & Es)]%lookup_bump; [by apply Hold|]. split; [by exists x|].
    rewrite Es. intros Hc. destruct (proj2 (IH _ _ He0) Hc) as (r & Hr & Ea & Etx & _).
    destruct (Hlt r Hr) as [_ Hne]. by destruct (Hne Ea). }
  assert (forall st, (st <> Committed -> record_type x = RtAbort) ->
    finish (att (analysis recs)) (txid x) (lsn x) st !! t = Some e ->
    (exists r, r ∈ recs ++ [x] /\ lsn r = a_last_lsn e) /\
    (a_status e <> Committed -> exists r, r ∈ recs ++ [x] /\ record_type r = RtAbort /\ txid r = t /\ lsn r = a_last_lsn e)) as Hfin.
  { intros st Hst [[_ He]|(-> & Es & El)]%lookup_finish; [by apply Hold|].
    assert (a_last_lsn e = lsn x) as El'.
    { destruct El as [El|(e0 & He0 & El)]; [done|]. destruct (proj1 (IH _ _ He0)) as (r & Hr & Er).
      destruct (Hlt r Hr). lia. }
    split; [by exists x|]. rewrite Es. intros Hc. exists x. by rewrite El', Hst. }
  unfold analysis_step. destruct (record_type x) eqn:Ex; cbn [att]; auto; try done.
  all: by apply Hfin.
Qed.

Lemma lsn_index_sorted recs r :
  StronglySorted (fun x y => lsn x < lsn y) recs -> r ∈ recs -> lsn_index recs !! lsn r = Some r.
Proof.
  unfold lsn_index. induction recs as [|x recs IH] using rev_ind; intros Hs Hin; [by apply elem_of_nil in Hin|].
  rewrite foldl_app. cbn [foldl]. apply elem_of_app in Hin as [Hin|Hin].
  - destruct (sorted_snoc _ _ _ Hs) as [Hs' Hlt]. specialize (Hlt r Hin). cbv beta in Hlt.
    rewrite lookup_insert_ne by lia. by apply IH.
  - apply list_elem_of_singleton in Hin as ->. apply lookup_insert_eq.
Qed.

Lemma foldl_min_le xs : forall a, foldl Z.min a xs <= a /\ forall x, x ∈ xs -> foldl Z.min a xs <= x.
Proof.
  induction xs as [|y ys IH]; intros a; cbn [foldl]; [split; [lia|by intros x ?%elem_of_nil]|].
  destruct (IH (Z.min a y)) as [H1 H2]. split; [lia|]. intros x [->|Hx]%elem_of_cons; [lia|by apply H2].
Qed.

Lemma redo_start_le (d : Dpt) p e : d !! p = Some e -> redo_start d <= d_rec_lsn e.
Proof.
  intros He. unfold redo_start.
  assert (d_rec_lsn e ∈ (fun kv : Z * DptEntry => d_rec_lsn kv.2) <$> map_to_list d) as Hin.
  { apply list_elem_of_fmap. exists (p, e). split; [done|]. by apply elem_of_map_to_list. }
  destruct (_ <$> _) as [|x xs]; [by apply elem_of_nil in Hin|].
  destruct (foldl_min_le xs x) as [H1 H2]. apply elem_of_cons in Hin as [->|Hin]; [done|by apply H2].
Qed.

Lemma elem_of_sort_desc e l : e ∈ sort_desc l -> e ∈ l.
Proof.
  assert (forall x l, e ∈ insert_desc x l -> e = x \/ e ∈ l) as Hi.
  { intros x l'. induction l' as [|y l' IH]; cbn [insert_desc]; [intros ?%list_elem_of_singleton; by left|].
    destruct (_ <=? _); [by intros [->|?]%elem_of_cons; [left|right]|].
    intros [->|[->|?]%IH]%elem_of_cons; [right; by apply elem_of_cons; left|by left|right; by apply elem_of_cons; right]. }
  unfold sort_desc. induction l as [|x l IH]; cbn [foldr]; [done|].
  intros [->|?]%Hi; apply elem_of_cons; auto.
Qed.

Lemma sorted_weaken {A} (R1 R2 : A -> A -> Prop) l :
  (forall x y, R1 x y -> R2 x y) -> StronglySorted R1 l -> StronglySorted R2 l.
Proof.
  intros HR. induction 1 as [|x l _ IH Hx]; constructor; [done|]. eapply Forall_impl; [exact Hx|auto].
Qed.

Lemma filter_id {A} (P : A -> Prop) `{!forall x, Decision (P x)} l : Forall P l -> base.filter P l = l.
Proof. induction 1 as [|x l Hx _ IH]; [done|]. rewrite filter_cons, decide_True by done. by rewrite IH. Qed.

Section Recovery.
Context `{CS : Checksums}.
Context (data_path : Path) (iter : Att -> list AttEntry) (now_millis : Z).
Hypothesis iter_values : forall a, iter a ≡ₚ (map_to_list a).*2.

(** A no-steal log has nothing to undo on pages. *)
Lemma no_steal_undone records r :
  no_steal_log records -> r ∈ undone iter (att (analysis records)) records -> is_page_record (record_type r) = false.
Proof.
  intros [Ho Hsh _ _ _]. unfold undone. intros (l & Hl & Hr)%list_elem_of_In%in_concat.
  apply list_elem_of_In in Hl, Hr. apply list_elem_of_fmap in Hl as (e & -> & He). unfold to_undo in He.
  apply elem_of_sort_desc, list_elem_of_filter in He as [Hlo He]. rewrite iter_values in He.
  apply list_elem_of_fmap in He as ([t e'] & -> & He). apply elem_of_map_to_list in He. cbn [snd] in *.
  destruct (att_last_lsn records Ho Hsh t e' He) as [_ Ha].
  destruct Ha as (x & Hx & Ex & _ & El). { unfold is_loser in Hlo. rg_bool. done. }
  rewrite <- El in Hr. cbn [chain] in Hr.
  rewrite (lsn_index_sorted records x) in Hr by (done || by eapply sorted_weaken; [|exact Ho]; intros ? ? [? _]).
  rewrite bool_decide_eq_false_2 in Hr by (by rewrite Ex). rewrite Forall_forall in Hsh.
  destruct (Hsh x Hx) as [_ Hp]. rewrite (Hp Ex) in Hr. cbn [Z.eqb] in Hr.
  apply list_elem_of_singleton in Hr as ->. by rewrite Ex.
Qed.

Lemma no_steal_targets records a d : no_steal_log records -> targets_valid a d records.
Proof.
  intros [_ _ _ _ Hp]. eapply Forall_impl; [exact Hp|]. intros r [Hl Hv] p img Ht.
  split; [|done]. pose proof (redo_target_committed _ _ _ _ _ Ht) as (_ & _ & Hx). eapply Hv; [exact Hx|].
  revert Ht. unfold redo_target. destruct (_ <? _); [done|].
  destruct (is_page_record (record_type r)) eqn:E; [by left|]. cbn [orb].
  destruct (bool_decide (record_type r = Clr)) eqn:Ec; rg_bool; [by right|done].
Qed.

Lemma run_all_phases_pages records s w :
  no_steal_log records -> steady data_path w -> wal_ready data_path s w ->
  exists res s' w',
    run_all_phases data_path iter now_millis (S (length records)) 0 records (s, w) = (Ok (Some res), (s', w')) /\
    r_tables res = analysis records /\
    forall q, page_number q ->
      page_of (data_file data_path w') q =
      redo_page (att (analysis records)) (dpt (analysis records)) q records (page_of (data_file data_path w) q).
Proof.
  intros Hn Hw Hr. unfold run_all_phases.
  assert (base.filter (fun r => 0 <= lsn r) records = records) as ->.
  { apply filter_id. eapply Forall_impl; [apply (ns_pages _ Hn)|]. by intros r [[? _] _]. }
  cbv zeta. unfold bind at 1. rewrite redo_is_loop.
  destruct (redo_loop_pages data_path (att (analysis records)) (dpt (analysis records)) s records w 0 Hw
    (no_steal_targets _ _ _ Hn)) as (n & w1 & E1 & Hw1 & Hp1 & Ho1 & _).
  rewrite E1. destruct Hr as [Hne Hf].
  destruct (undo_pages data_path iter now_millis (att (analysis records)) records s w1) as (u & s2 & w2 & E2 & Hp2);
    [apply Hn|apply Hn|done|split; [done|by rewrite Ho1]|].
  unfold bind. rewrite E2. eexists _, s2, w2. split; [reflexivity|]. split; [done|].
  intros q Hq. rewrite Hp2, <- Hp1 by done. generalize (page_of (data_file data_path w1) q). intros pg.
  assert (forall r, r ∈ undone iter (att (analysis records)) records -> is_page_record (record_type r) = false) as Hnp
    by (intros; by eapply no_steal_undone).
  revert Hnp. generalize (undone iter (att (analysis records)) records). intros l.
  induction l as [|r l IH]; intros Hnp; [done|]. cbn [foldl]. unfold undo_page_step at 2.
  rewrite Hnp by (by apply elem_of_cons; left). apply IH. intros r' Hr'. apply Hnp. by apply elem_of_cons; right.
Qed.

(** Records REDO may replay on page [q]: page records of committed transactions
    and compensation records. *)
Definition replayable (records : list WalRecord) (q : Z) (r : WalRecord) : Prop :=
  (record_type r = Clr \/
   is_page_record (record_type r) = true /\ outcome records (txid r) = Some Committed) /\
  exists img, extract_page_and_image r = Some (q, img).

Lemma is_committed_outcome records t :
  is_committed (att (analysis records)) t = true <-> outcome records t = Some Committed.
Proof.
  rewrite <- analysis_outcome. unfold is_committed.
  destruct (att (analysis records) !! t) as [e|]; cbn [fmap option_fmap option_map]; [|done].
  rewrite bool_decide_eq_true. split; [by intros ->|by intros [= ->]].
Qed.

Lemma target_replayable records q r img :
  let t := analysis records in
  redo_target (att t) (dpt t) r = Some (q, img) -> replayable records q r.
Proof.
  intros t Ht. pose proof (redo_target_committed _ _ _ _ _ Ht) as (_ & _ & Hx). split; [|by exists img].
  revert Ht. unfold redo_target. destruct (_ <? _); [done|].
  destruct (bool_decide (record_type r = Clr)) eqn:Ec; rg_bool; [by left|].
  destruct (is_page_record (record_type r)) eqn:E; [|done]. cbn [orb negb andb].
  destruct (is_committed (att t) (txid r)) eqn:Em; [|done]. intros _. right. split; [done|].
  by apply is_committed_outcome.
Qed.

(** A committed page record is in REDO's range: its page is in the DPT, from no
    later than the record. *)
Lemma committed_page_target records r q img :
  no_steal_log records -> r ∈ records -> is_page_record (record_type r) = true ->
  outcome records (txid r) = Some Committed -> extract_page_and_image r = Some (q, img) ->
  let t := analysis records in redo_target (att t) (dpt t) r = Some (q, img).
Proof.
  intros Hn Hin Hp Hc Hx t.
  assert ((q, lsn r) ∈ dirties r) as Hd.
  { unfold dirties. rewrite Hp. unfold extract_page_and_image in Hx.
    destruct (record_type r); try done; destruct (Nat.ltb_spec (length (payload r)) 8); try done;
      destruct (Nat.leb_spec 8 (length (payload r))); try lia; injection Hx as <- <-; by apply list_elem_of_singleton. }
  assert (exists e, dpt t !! q = Some e /\ d_rec_lsn e <= lsn r) as (e & He & Hle).
  { unfold t. rewrite analysis_dpt, lookup_seed_entries, lookup_empty.
    apply list_elem_of_split in Hin as (pre & post & Erec).
    assert (concat (dirties <$> records) = concat (dirties <$> pre) ++ dirties r ++ concat (dirties <$> post)) as ->
      by (by rewrite Erec, fmap_app, concat_app).
    rewrite !filter_app.
    destruct (base.filter (fun e => e.1 = q) (concat (dirties <$> pre))) as [|[q' l'] l] eqn:Ef.
    - cbn [app]. assert ((q, lsn r) ∈ base.filter (fun e => e.1 = q) (dirties r)) as Hf
        by (by apply list_elem_of_filter).
      destruct (base.filter (fun e => e.1 = q) (dirties r)) as [|[q' l'] l] eqn:Ef'; [by apply elem_of_nil in Hf|].
      exists (mkDpt q' l'). split; [done|]. cbn [d_rec_lsn].
      assert ((q', l') ∈ dirties r) as Hin' by (eapply (list_elem_of_filter (fun e => e.1 = q)); rewrite Ef'; by apply elem_of_cons; left).
      pose proof (ns_dirty _ Hn) as Hnd. rewrite Forall_forall in Hnd. specialize (Hnd r).
      rewrite Forall_forall in Hnd. apply (Hnd ltac:(rewrite Erec; apply elem_of_app; right; by apply elem_of_cons; left) _ Hin').
    - exists (mkDpt q' l'). split; [done|]. cbn [d_rec_lsn].
      assert ((q', l') ∈ concat (dirties <$> pre)) as Hin' by (eapply (list_elem_of_filter (fun e => e.1 = q)); rewrite Ef; by apply elem_of_cons; left).
      apply list_elem_of_In, in_concat in Hin' as (x & Hx1%list_elem_of_In & Hx2%list_elem_of_In).
      apply list_elem_of_fmap in Hx1 as (y & -> & Hy).
      pose proof (ns_dirty _ Hn) as Hnd. rewrite Forall_forall in Hnd. specialize (Hnd y).
      rewrite Forall_forall in Hnd. specialize (Hnd ltac:(rewrite Erec; apply elem_of_app; by left) _ Hx2).
      pose proof (ns_order _ Hn) as Ho. rewrite Erec, StronglySorted_app in Ho. destruct Ho as (Ho & _).
      destruct (Ho y r Hy ltac:(by apply elem_of_cons; left)) as [? _]. cbn [snd] in Hnd. lia. }
  unfold redo_target. pose proof (redo_start_le _ _ _ He).
  destruct (Z.ltb_spec (lsn r) (redo_start (dpt t))); [lia|]. rewrite Hp, Hx. cbn [orb negb].
  pose proof (proj2 (is_committed_outcome records (txid r)) Hc) as Hcm. fold t in Hcm.
  rewrite Hcm, andb_false_r.
  by rewrite bool_decide_eq_true_2 by (by eexists).
Qed.

(** C2: recovery of a no-steal log (see [no_steal_log]), read from the start
    (checkpoint LSN 0) over a disk and log without I/O errors, ends.  A page
    whose last replayable record is a page record of a committed transaction
    then holds that record's image, stamped with its LSN, unless the page on
    disk was already at or past that LSN; a page without replayable record is
    left as it was, whatever the losers logged for it.  Replayable are the page
    records of committed transactions and all compensation records, so pages
    whose last replayable record is a compensation record are outside this
    statement. *)
Theorem recovery_installs_committed (records : list WalRecord) (s : WalWriter) (w : World) :
  no_steal_log records -> steady data_path w -> wal_ready data_path s w ->
  exists res s' w',
    run_all_phases data_path iter now_millis (S (length records)) 0 records (s, w) = (Ok (Some res), (s', w')) /\
    forall q, page_number q ->
      let old := page_of (data_file data_path w) q in
      (forall pre r post img, records = pre ++ r :: post -> is_page_record (record_type r) = true ->
         outcome records (txid r) = Some Committed -> extract_page_and_image r = Some (q, img) ->
         Forall (fun r' => ~ replayable records q r') post ->
         page_of (data_file data_path w') q =
           if lsn_of_page old <? lsn r then stamped_image img (lsn r) else old) /\
      (Forall (fun r => ~ replayable records q r) records -> page_of (data_file data_path w') q = old).
Proof.
  intros Hn Hw Hr. destruct (run_all_phases_pages records s w Hn Hw Hr) as (res & s' & w' & E & _ & Hp).
  exists res, s', w'. split; [done|]. intros q Hq old. rewrite Hp by done. fold old. split.
  - intros pre r post img Erec Hpr Hc Hx Hpost.
    pose proof (committed_page_target records r q img Hn ltac:(rewrite Erec; apply elem_of_app; right; by apply elem_of_cons; left) Hpr Hc Hx) as Ht.
    pose proof (no_steal_targets records (att (analysis records)) (dpt (analysis records)) Hn) as Hv.
    assert (StronglySorted (fun x y => lsn x < lsn y) records) as Ho
      by (eapply sorted_weaken; [|apply (ns_order _ Hn)]; by intros ? ? [? _]).
    pose proof (redo_page_latest (att (analysis records)) (dpt (analysis records)) pre r post q img old) as Hl.
    cbv zeta in Hl. rewrite <- Erec in Hl. apply Hl; [done|done|done|].
    eapply Forall_impl; [exact Hpost|]. intros r' Hnr i Ht'. apply Hnr. by eapply target_replayable.
  - intros Hnone. apply redo_page_below. intros r img Hin Ht. rewrite Forall_forall in Hnone.
    destruct (Hnone r Hin). by eapply target_replayable.
Qed.
End Recovery.

(** ** Concrete logs *)

Module Demo.
#[local] Existing Instance additive_checksums.

Definition data : Path := (7, 0).
Definition iter (a : Att) : list AttEntry := (map_to_list a).*2.

(** Transaction 5 commits an image of page 0; transaction 6 logs one of page 1
    and rolls back. *)
Definition log : list WalRecord :=
  [ record_new PageInsert 5 1 0 (to_be 8 0 ++ [0; 0; 0; 0; 0; 0; 0; 0; 11; 12]) 0;
    record_new RtCommit 5 100 0 [] 0;
    record_new PageInsert 6 200 100 (to_be 8 1 ++ [0; 0; 0; 0; 0; 0; 0; 0; 13]) 0;
    record_new RtAbort 6 300 0 [] 0 ].

Definition writer : WalWriter := mkWal 400 (live_seg 0) [] 0 0 1 0 1 (live_seg 0) 400 0.
Definition start : World := mkWorld {[ live_seg 0 := mkFile [] [] ]} [].

Lemma start_steady : steady data start.
Proof. split; [done|]. by exists 0%nat. Qed.

Lemma start_ready : wal_ready data writer start.
Proof. split; [done|]. by eexists. Qed.

Ltac page_record_valid :=
  split; [unfold uint; vm_compute; split; congruence|];
  intros p img Hx _; vm_compute in Hx; first [discriminate Hx | injection Hx as <- _];
  unfold page_number; lia.

Lemma log_no_steal : no_steal_log log.
Proof.
  split; unfold log.
  - repeat (apply SSorted_cons || apply SSorted_nil);
      rewrite ?Forall_cons, ?Forall_nil; repeat split; cbn [lsn txid record_type record_new with_checksums];
      (lia || done).
  - repeat constructor; try (vm_compute; congruence).
  - repeat constructor; vm_compute; congruence.
  - apply (bool_decide_unpack _). vm_compute. exact I.
  - rewrite !Forall_cons, Forall_nil. split_and!; [page_record_valid..|done].
Qed.

Lemma recovery_installs_committed_witness :
  exists res s' w', run_all_phases data iter 0 5 0 log (writer, start) = (Ok (Some res), (s', w')) /\
    page_of (data_file data w') 0 = stamped_image [0; 0; 0; 0; 0; 0; 0; 0; 11; 12] 1.
Proof.
  destruct (recovery_installs_committed data iter 0 (fun a => Permutation_refl _) log writer start
    log_no_steal start_steady start_ready) as (res & s' & w' & E & Hq).
  exists res, s', w'. split; [exact E|]. destruct (Hq 0 ltac:(unfold page_number; lia)) as [Hc _].
  rewrite (Hc [] (record_new PageInsert 5 1 0 (to_be 8 0 ++ [0; 0; 0; 0; 0; 0; 0; 0; 11; 12]) 0)
    (tail log) [0; 0; 0; 0; 0; 0; 0; 0; 11; 12]); try reflexivity.
  apply Forall_forall. intros r Hr [Hrep [img Hx]].
  unfold log, tail in Hr. rewrite !elem_of_cons, elem_of_nil in Hr.
  destruct Hr as [->|[->|[->|[]]]]; vm_compute in Hx; discriminate Hx.
Defined.

Lemma recovery_payloads_witness :
  extract_before_image (embed_before_image [1] [2; 3]) = Some [2; 3] /\
  seed_dpt_from_checkpoint (checkpoint_payload [(4, 9); (4, 7)]) ∅ !! 4 = Some (mkDpt 4 9).
Proof.
  destruct (recovery_payloads [1] [2; 3] 17 4 (record_new Clr 1 0 0 (build_clr_payload 17 4 [2; 3]) 0)
    [(4, 9); (4, 7)]) as (H1 & _ & _ & H4); try reflexivity.
  - unfold uint; lia.
  - unfold uint; lia.
  - repeat constructor; unfold uint; simpl; lia.
  - unfold uint; simpl; lia.
  - split; [exact H1|exact (H4 4)].
Defined.

Definition tables : Tables := analysis log.

Lemma redo_pages_witness :
  exists n w', redo data log (att tables) (dpt tables) (writer, start) = (Ok n, (writer, w')) /\
    files w' !! live_seg 0 = Some (mkFile [] []).
Proof.
  destruct (redo_pages data writer start (att tables) (dpt tables) log start_steady
    (no_steal_targets _ _ _ log_no_steal)) as (n & w' & E & Ho & _).
  exists n, w'. split; [exact E|]. rewrite Ho by done. reflexivity.
Defined.

Lemma redo_idempotent_witness :
  exists n w', redo data log (att tables) (dpt tables) (tt, start) = (Ok n, (tt, w')) /\
    redo data log (att tables) (dpt tables) (tt, w') = (Ok 0%nat, (tt, w')).
Proof.
  destruct (redo_loop_pages data (att tables) (dpt tables) tt log start 0 start_steady
    (no_steal_targets _ _ _ log_no_steal)) as (n & w' & E & _).
  rewrite <- redo_is_loop in E. exists n, w'. split; [exact E|].
  exact (redo_idempotent data tt start w' (att tables) (dpt tables) log n start_steady
    (no_steal_targets _ _ _ log_no_steal) E).
Defined.

Lemma undo_terminates_witness :
  (undo data iter 0 5 (att tables) log (writer, start)).1 <> Ok None.
Proof.
  apply (undo_terminates data iter 0 log (att tables) (writer, start)).
  apply (bool_decide_unpack _). vm_compute. exact I.
Defined.

(** An active transaction's page update logged without a before-image. *)
Definition update_log : list WalRecord :=
  [ record_new RtBegin 5 1 0 [] 0;
    record_new PageUpdate 5 100 1 (to_be 8 0 ++ [0; 0; 0; 0; 0; 0; 0; 0; 21]) 0 ].

(** The page as it was before the crash: page LSN 9 and a byte of data. *)
Definition old_page : list Z := to_be 8 9 ++ [77] ++ replicate (PAGE_SIZE - 9) 0.
Definition crashed : World :=
  mkWorld (<[data := mkFile old_page old_page]> {[ live_seg 0 := mkFile [] [] ]}) [].

(** UNDO leaves a page it cannot restore alone, but the compensation record it
    logs carries a zeroed image: the next recovery replays it and the page is
    lost. *)
Theorem compensation_zeroes_page :
  match run_all_phases data iter 0 3 0 update_log (writer, crashed) with
  | (Ok (Some _), (_, w1)) =>
      data_file data w1 = old_page /\
      match (do logged <- load_segment_at (live_seg 0);
             run_all_phases data iter 0 4 0 (update_log ++ logged))%act (writer, w1) with
      | (Ok (Some _), (_, w2)) => data_file data w2 = to_be 8 400 ++ replicate (PAGE_SIZE - 8) 0
      | _ => False
      end
  | _ => False
  end.
Proof. vm_compute. split; reflexivity. Qed.
End Demo.
