(* ===== verification/DoubleWrite.v ===== *)
(** * The double-write buffer ([src/wal/doublewrite.rs])

    Page images are copied to a side file and synced before they are written in
    place; recovery puts the copy back where the page in the data file is torn.
    The struct only holds the path of its file and the capacity constant. *)

From stdpp Require Import prelude list gmap sorting.
From Stdlib Require Import ZArith Lia.
From S2P Require Import Prelude Bytes Checksum Io SlottedPage PageFile.

Definition DOUBLEWRITE_CAPACITY : nat := 128.
Definition ENTRY_SIZE : nat := 8 + PAGE_SIZE.

Section DoubleWrite.
Context `{CS : Checksums}.

#[local] Open Scope act_scope.

(** [path] is the double-write file. *)
Definition open {T} (path : Path) : Act T unit :=
  lift fs_dir_op ;;;
  do w <- world;
  if exists_path w path then ret tt else
  lift (fs_open path true) ;;; lift (h_sync path).

(** ** The file format *)

(** The image as it is stored: cut or zero-padded to a page. *)
Definition stored_image (image : list Z) : list Z :=
  take PAGE_SIZE image ++ replicate (PAGE_SIZE - min (length image) PAGE_SIZE) 0.

Definition encode_entry (e : Z * list Z) : list Z := to_be 8 e.1 ++ stored_image e.2.

Definition encode_batch (batch : list (Z * list Z)) : list Z :=
  to_be 4 (wrap 32 (Z.of_nat (length batch))) ++ concat (map encode_entry batch).

Definition write_batch {T} (path : Path) (pages : list (Z * list Z)) : Act T unit :=
  let batch := take (min (length pages) DOUBLEWRITE_CAPACITY) pages in
  let total := (4 + length batch * ENTRY_SIZE)%nat in
  lift (fs_open path true) ;;;
  lift (h_write_at path (encode_batch batch) 0) ;;;
  lift (h_set_len path total) ;;;
  lift (h_sync path).

Fixpoint decode_entries (raw : list Z) (count off : nat) : list (Z * list Z) :=
  match count with
  | O => []
  | S count =>
      let page_id := from_be (slice raw off (off + 8)) in
      let off := (off + 8)%nat in
      (page_id, slice raw off (off + PAGE_SIZE)) :: decode_entries raw count (off + PAGE_SIZE)
  end.

(** The parsing of the whole file; a short or truncated one has no entries.
    The count is compared as a number, before it drives the loop. *)
Definition parse_entries (raw : list Z) : list (Z * list Z) :=
  if (length raw <? 4)%nat then [] else
  let count := from_be (slice raw 0 4) in
  if Z.of_nat (length raw) <? 4 + count * Z.of_nat ENTRY_SIZE then []
  else decode_entries raw (Z.to_nat count) 4.

Definition read_entries {T} (path : Path) : Act T (list (Z * list Z)) :=
  do w <- world;
  if negb (exists_path w path) then ret [] else
  lift (fs_open path false) ;;;
  do file_len <- lift (h_len path);
  if (file_len <? 4)%nat then ret [] else
  do raw <- lift (h_read_at path file_len 0);
  ret (parse_entries raw).

(** ** Checksums *)

Definition verify_page_checksum (page : list Z) : bool :=
  if (length page <? PAGE_SIZE)%nat then false
  else if forallb (fun b => b =? 0) page then true
  else verify_checksum_bytes (take PAGE_SIZE page).

Definition valid_image_for {T} (path : Path) (page_id : Z) : Act T (option (list Z)) :=
  do entries <- read_entries path;
  ret (snd <$> List.find (fun e => (e.1 =? page_id) && verify_page_checksum e.2) entries).

(** ** Recovery *)

(** [offset + PAGE_SIZE] with 64-bit wrap-around. *)
Definition page_end (page_id : Z) : nat :=
  Z.to_nat (wrap 64 (Z.of_nat (page_offset page_id) + 8192)).

Definition is_torn {T} (data_path : Path) (page_id : Z) : Act T bool :=
  do w <- world;
  if negb (exists_path w data_path) then ret true else
  lift (fs_open data_path false) ;;;
  do file_len <- lift (h_len data_path);
  if (file_len <? page_end page_id)%nat then ret true else
  do page_buf <- lift (h_read_at data_path PAGE_SIZE (page_offset page_id));
  ret (negb (verify_page_checksum page_buf)).

Fixpoint recover_loop {T} (data_path : Path) (entries : list (Z * list Z)) (restored : nat) : Act T nat :=
  match entries with
  | [] => ret restored
  | (page_id, dw_image) :: rest =>
      do torn <- is_torn data_path page_id;
      if torn : bool then
        lift (fs_open data_path true) ;;;
        lift (h_write_at data_path (stored_image dw_image) (page_offset page_id)) ;;;
        lift (h_sync data_path) ;;;
        recover_loop data_path rest (restored + 1)
      else recover_loop data_path rest restored
  end.

Definition recover_torn_pages {T} (path data_path : Path) : Act T nat :=
  do entries <- read_entries path;
  match entries with
  | [] => ret 0%nat
  | _ => recover_loop data_path entries 0
  end.

Definition clear {T} (path : Path) : Act T unit :=
  lift (fs_open path true) ;;;
  lift (h_set_len path 0) ;;;
  lift (h_sync path).

(** ** The format round trip *)

Lemma length_stored_image image : length (stored_image image) = PAGE_SIZE.
Proof. unfold stored_image. rewrite length_app, length_take, length_replicate. lia. Qed.

Lemma stored_image_page image : length image = PAGE_SIZE -> stored_image image = image.
Proof.
  intros H. unfold stored_image. rewrite H, Nat.min_id, Nat.sub_diag, take_ge by lia. apply app_nil_r.
Qed.

Lemma length_encode_entry e : length (encode_entry e) = ENTRY_SIZE.
Proof. unfold encode_entry, ENTRY_SIZE. by rewrite length_app, length_to_be, length_stored_image. Qed.

Lemma length_entries batch : length (concat (map encode_entry batch)) = (length batch * ENTRY_SIZE)%nat.
Proof.
  induction batch as [|e batch IH]; [done|]. cbn [map concat length Nat.mul].
  by rewrite length_app, length_encode_entry, IH.
Qed.

Lemma length_encode_batch batch : length (encode_batch batch) = (4 + length batch * ENTRY_SIZE)%nat.
Proof. unfold encode_batch. by rewrite length_app, length_to_be, length_entries. Qed.

Lemma decode_entries_encoded pre batch suf :
  Forall (fun e => is_u64 e.1) batch ->
  decode_entries (pre ++ concat (map encode_entry batch) ++ suf) (length batch) (length pre) =
  map (fun e => (e.1, stored_image e.2)) batch.
Proof.
  intros Hb. revert pre. induction Hb as [|[p img] batch Hp Hb IH]; intros pre; [done|].
  cbn [map concat length decode_entries]. unfold encode_entry. cbn [fst snd] in *.
  assert (forall a b c : list Z, length a = 8%nat -> length b = PAGE_SIZE ->
    from_be a = p -> b = stored_image img ->
    (from_be (slice (pre ++ (a ++ b) ++ c) (length pre) (length pre + 8)),
     slice (pre ++ (a ++ b) ++ c) (length pre + 8) (length pre + 8 + PAGE_SIZE)) = (p, stored_image img)) as Hhead.
  { intros a b c La Lb Ha Hb'. f_equal.
    - rewrite slice_app_r, Nat.sub_diag by lia. replace (length pre + 8 - length pre)%nat with (length a) by lia.
      rewrite <- !app_assoc. by rewrite slice_here.
    - rewrite slice_app_r by lia. rewrite <- !app_assoc, slice_app_r by lia.
      replace (length pre + 8 - length pre - length a)%nat with 0%nat by lia.
      replace (length pre + 8 + PAGE_SIZE - length pre - length a)%nat with (length b) by lia.
      by rewrite slice_here. }
  rewrite <- app_assoc. f_equal.
  - apply Hhead; [apply length_to_be|apply length_stored_image|by apply from_to_be_id|done].
  - specialize (IH (pre ++ to_be 8 p ++ stored_image img)).
    rewrite !length_app, length_to_be, length_stored_image in IH.
    rewrite <- IH. rewrite <- !app_assoc. f_equal. lia.
Qed.

Lemma parse_encoded batch suf :
  (length batch < Z.to_nat (2 ^ 32))%nat -> Forall (fun e => is_u64 e.1) batch ->
  parse_entries (encode_batch batch ++ suf) = map (fun e => (e.1, stored_image e.2)) batch.
Proof.
  intros Hn Hb. unfold parse_entries. rewrite length_app, length_encode_batch.
  destruct (Nat.ltb_spec (4 + length batch * ENTRY_SIZE + length suf) 4) as [|_]; [lia|].
  assert (from_be (slice (encode_batch batch ++ suf) 0 4) = Z.of_nat (length batch)) as ->.
  { unfold encode_batch. rewrite <- app_assoc, slice_here by (by rewrite length_to_be).
    rewrite wrap_id, from_to_be_id by (unfold uint; lia). done. }
  rewrite Nat2Z.id. destruct (Z.ltb_spec (Z.of_nat (4 + length batch * ENTRY_SIZE + length suf))
    (4 + Z.of_nat (length batch) * Z.of_nat ENTRY_SIZE)) as [|_]; [lia|].
  unfold encode_batch. rewrite <- app_assoc.
  exact (decode_entries_encoded (to_be 4 (wrap 32 (Z.of_nat (length batch)))) batch suf Hb).
Qed.

(** A batch write without faults leaves exactly the batch in the file, durably. *)
Lemma write_batch_quiet {T} (s : T) path pages w :
  script w = [] ->
  exists w', write_batch path pages (s, w) = (Ok tt, (s, w')) /\ script w' = [] /\
    (let img := encode_batch (take (min (length pages) DOUBLEWRITE_CAPACITY) pages) in
     files w' !! path = Some (mkFile img img)) /\
    (forall q, q <> path -> files w' !! q = files w !! q).
Proof.
  intros Hs. unfold write_batch. set (batch := take _ pages).
  assert (exists w1 f, fs_open path true w = (Ok tt, w1) /\ script w1 = [] /\ files w1 !! path = Some f /\
    (forall q, q <> path -> files w1 !! q = files w !! q)) as (w1 & f & E1 & Hs1 & Hf1 & Ho1).
  { unfold fs_open. rewrite next_outcome_quiet by done. destruct (files w !! path) as [f|] eqn:E.
    - exists w, f. done.
    - eexists _, _. split; [done|]. split; [done|]. split; [apply set_file_files|]. intros q Hq. by rewrite set_file_other. }
  unfold bind, lift. cbn [fst snd]. rewrite E1. cbn [fst snd].
  rewrite (quiet_write path w1 f) by done. cbn [fst snd].
  erewrite (quiet_set_len path) by (done || apply set_file_files). cbn [fst snd cached durable].
  erewrite (quiet_sync path) by (done || apply set_file_files). cbn [fst snd cached durable].
  rewrite !set_file_twice. eexists. split; [done|]. split; [done|]. split.
  - rewrite set_file_files. assert (forall l, l = encode_batch batch -> Some (mkFile l l) = Some (mkFile (encode_batch batch) (encode_batch batch))) as Hc
      by (by intros l ->).
    apply Hc. unfold write_ext. rewrite take_0. cbn [app].
    rewrite <- length_encode_batch, <- app_assoc, take_app_length by done. done.
  - intros q Hq. rewrite set_file_other by done. by apply Ho1.
Qed.

Lemma read_entries_quiet {T} (s : T) path w f :
  script w = [] -> files w !! path = Some f ->
  read_entries path (s, w) = (Ok (parse_entries (cached f)), (s, w)).
Proof.
  intros Hs Hf. unfold read_entries, bind, lift, world, ret. cbn [fst snd].
  rewrite (exists_path_true _ _ _ Hf). cbn [negb]. rewrite (quiet_open path w f) by done. cbn [fst snd].
  rewrite (quiet_len path w f) by done. cbn [fst snd].
  destruct (Nat.ltb_spec (length (cached f)) 4) as [Hl|Hl].
  - unfold parse_entries. by destruct (Nat.ltb_spec (length (cached f)) 4); [|lia].
  - rewrite (quiet_read path w f) by (done || lia). cbn [fst snd]. by rewrite Nat.add_0_l, slice_full.
Qed.

(** ** What recovery does to the pages *)

(** Pages whose last byte has a 64-bit offset. *)
Definition addressable (p : Z) : Prop := 0 <= p < 2 ^ 51 - 1.

Lemma addressable_number p : addressable p -> page_number p.
Proof. unfold addressable, page_number. lia. Qed.

Lemma page_end_eq p : addressable p -> page_end p = (page_offset p + PAGE_SIZE)%nat.
Proof.
  intros Hp. pose proof (page_offset_eq p (addressable_number p Hp)) as E. pose proof PAGE_SIZE_eq.
  unfold page_end. unfold addressable in Hp. rewrite wrap_id by (unfold uint; lia). lia.
Qed.

(** The test of one page, on the contents of the data file. *)
Definition torn_at (f : list Z) (p : Z) : bool :=
  (length f <? page_end p)%nat || negb (verify_page_checksum (page_of f p)).

Fixpoint restore (f : list Z) (entries : list (Z * list Z)) : list Z * nat :=
  match entries with
  | [] => (f, 0%nat)
  | (p, img) :: rest =>
      if torn_at f p then
        let '(f, n) := restore (write_ext f (page_offset p) (stored_image img)) rest in (f, S n)
      else restore f rest
  end.

Lemma is_torn_quiet {T} (s : T) data_path w f p :
  script w = [] -> files w !! data_path = Some f -> addressable p ->
  is_torn data_path p (s, w) = (Ok (torn_at (cached f) p), (s, w)).
Proof.
  intros Hs Hf Hp. unfold is_torn, torn_at, bind, lift, world, ret. cbn [fst snd].
  rewrite (exists_path_true _ _ _ Hf). cbn [negb]. rewrite (quiet_open data_path w f) by done. cbn [fst snd].
  rewrite (quiet_len data_path w f) by done. cbn [fst snd].
  destruct (Nat.ltb_spec (length (cached f)) (page_end p)) as [|Hl]; [done|]. rewrite page_end_eq in Hl by done.
  rewrite (quiet_read data_path w f) by done. cbn [fst snd orb].
  by rewrite slice_page by (try done; by apply addressable_number).
Qed.

Lemma recover_loop_quiet {T} (s : T) data_path entries w f n :
  script w = [] -> files w !! data_path = Some f -> Forall (fun e => addressable e.1) entries ->
  exists w' f', recover_loop data_path entries n (s, w) =
      (Ok (n + (restore (cached f) entries).2)%nat, (s, w')) /\
    files w' !! data_path = Some f' /\ cached f' = (restore (cached f) entries).1 /\
    (forall q, q <> data_path -> files w' !! q = files w !! q).
Proof.
  intros Hs Hf He. revert w f n Hs Hf. induction He as [|[p img] rest Hp He IH]; intros w f n Hs Hf.
  { exists w, f. cbn [recover_loop restore fst snd]. by rewrite Nat.add_0_r. }
  cbn [recover_loop restore fst snd] in *. unfold bind at 1. rewrite (is_torn_quiet s _ _ f) by done.
  destruct (torn_at (cached f) p); [|by apply IH]. unfold bind, lift. cbn [fst snd].
  rewrite (quiet_open data_path w f) by done. cbn [fst snd].
  rewrite (quiet_write data_path w f) by done. cbn [fst snd].
  erewrite (quiet_sync data_path) by (done || apply set_file_files). cbn [fst snd cached durable].
  rewrite set_file_twice.
  match goal with |- context [set_file w data_path ?g] => destruct (IH (set_file w data_path g) g (n + 1)%nat Hs (set_file_files _ _ _))
    as (w' & f' & E & Hf' & Hc & Ho) end.
  cbn [cached] in *. destruct (restore (write_ext _ _ _) rest) as [f2 k] eqn:Er. cbn [fst snd] in *.
  exists w', f'. split; [|split; [done|split; [done|]]].
  - rewrite E. do 2 f_equal. lia.
  - intros q Hq. rewrite Ho by done. by apply set_file_other.
Qed.

(** In ascending order of page ids, a restored page does not affect the test of
    a later one. *)
Lemma torn_at_after f p q img :
  addressable p -> addressable q -> p < q -> length img = PAGE_SIZE ->
  torn_at (write_ext f (page_offset p) img) q = torn_at f q.
Proof.
  intros Hp Hq Hlt Hl. unfold torn_at.
  rewrite page_of_write by (try done; by apply addressable_number). rewrite decide_False by lia.
  f_equal. rewrite length_write_ext, Hl. pose proof (page_end_eq q Hq) as Eq.
  pose proof (page_offset_eq p (addressable_number p Hp)). pose proof (page_offset_eq q (addressable_number q Hq)).
  pose proof PAGE_SIZE_eq. apply eq_true_iff_eq. rewrite !Nat.ltb_lt. lia.
Qed.

Lemma restore_pages entries f :
  Forall (fun e => addressable e.1) entries -> StronglySorted Z.lt (map fst entries) ->
  (forall p img, (p, img) ∈ entries ->
     page_of (restore f entries).1 p = if torn_at f p then stored_image img else page_of f p) /\
  (forall q, page_number q -> q ∉ map fst entries -> page_of (restore f entries).1 q = page_of f q).
Proof.
  intros He. revert f. induction He as [|[p img] rest Hp He IH]; intros f Hs.
  { split; [|done]. by intros ? ? ?%not_elem_of_nil. }
  cbn [map fst] in Hs. apply StronglySorted_inv in Hs as [Hs Hlt].
  rewrite Forall_forall in Hlt. rewrite Forall_forall in He.
  set (f1 := if torn_at f p then write_ext f (page_offset p) (stored_image img) else f).
  assert ((restore f ((p, img) :: rest)).1 = (restore f1 rest).1) as ->.
  { unfold f1. cbn [restore]. destruct (torn_at f p); [|done]. by destruct (restore (write_ext _ _ _) rest). }
  assert (forall q, page_number q -> page_of f1 q =
    if decide (q = p) then if torn_at f p then stored_image img else page_of f p else page_of f q) as Hf1.
  { intros q Hq. unfold f1. destruct (torn_at f p); [|by case_decide; [subst|]].
    by rewrite page_of_write by (first [done|by apply addressable_number|apply length_stored_image]). }
  destruct (IH f1 Hs) as [IHe IHo]. split.
  - intros q img' [E|Hin]%elem_of_cons.
    + injection E as -> ->. rewrite IHo, Hf1, decide_True by (try done; try (by apply addressable_number);
        intros Hin; specialize (Hlt _ Hin); cbn in Hlt; lia). done.
    + assert (p < q) as Hpq by (apply Hlt; apply list_elem_of_fmap; by exists (q, img')).
      pose proof (He _ Hin) as Hq. cbn in Hq, Hp.
      rewrite (IHe q img' Hin), Hf1, decide_False by (try lia; by apply addressable_number).
      assert (torn_at f1 q = torn_at f q) as ->; [|done]. unfold f1. destruct (torn_at f p); [|done].
      apply torn_at_after; try done. apply length_stored_image.
  - intros q Hq Hn. cbn [map fst] in Hn. apply not_elem_of_cons in Hn as [Hne Hn].
    rewrite IHo, Hf1, decide_False by done. done.
Qed.

(** ** Protection against torn pages *)

(** The page checksum notices an in-place write of [new] over [old] that
    stopped anywhere in the middle. *)
Definition page_torn_detected (new old : list Z) : Prop :=
  forall k, verify_page_checksum (torn k new old) = true -> torn k new old = new \/ torn k new old = old.

(** [f'] is [f] after in-place writes of [pages] that each stopped anywhere. *)
Definition cut_in_place (pages : list (Z * list Z)) (f f' : list Z) : Prop :=
  (forall p img, (p, img) ∈ pages -> exists k, page_of f' p = torn k img (page_of f p)) /\
  (forall q, page_number q -> q ∉ map fst pages -> page_of f' q = page_of f q).

Definition well_staged (pages : list (Z * list Z)) : Prop :=
  (length pages <= DOUBLEWRITE_CAPACITY)%nat /\ StronglySorted Z.lt (map fst pages) /\
  Forall (fun e => addressable e.1 /\ length e.2 = PAGE_SIZE) pages.

Lemma stored_pages pages :
  Forall (fun e => addressable e.1 /\ length e.2 = PAGE_SIZE) pages ->
  map (fun e => (e.1, stored_image e.2)) pages = pages.
Proof.
  induction 1 as [|[p img] pages [_ Hl] _ IH]; [done|]. cbn [map fst snd] in *.
  by rewrite IH, stored_image_page.
Qed.

(** The entries a synced batch leaves in the double-write file. *)
Lemma staged_entries pages :
  well_staged pages -> parse_entries (encode_batch (take (min (length pages) DOUBLEWRITE_CAPACITY) pages)) = pages.
Proof.
  intros (Hn & _ & Hp). rewrite Nat.min_l, firstn_all by done.
  rewrite <- (app_nil_r (encode_batch pages)), parse_encoded; [by apply stored_pages| |].
  - unfold DOUBLEWRITE_CAPACITY in Hn. lia.
  - eapply Forall_impl; [exact Hp|]. intros e [He _]. unfold addressable in He. unfold uint. lia.
Qed.

(** Recovery from a double-write file that holds [pages]. *)
Lemma recover_staged {T} (s : T) path data_path w fd ff pages :
  path <> data_path -> script w = [] -> well_staged pages ->
  files w !! path = Some fd -> parse_entries (cached fd) = pages -> files w !! data_path = Some ff ->
  exists n w' ff', recover_torn_pages path data_path (s, w) = (Ok n, (s, w')) /\
    files w' !! data_path = Some ff' /\
    (forall p img, (p, img) ∈ pages ->
       page_of (cached ff') p = if torn_at (cached ff) p then img else page_of (cached ff) p) /\
    (forall q, page_number q -> q ∉ map fst pages -> page_of (cached ff') q = page_of (cached ff) q).
Proof.
  intros Hne Hs (Hn & Hsort & Hp) Hfd He Hff. unfold recover_torn_pages, bind.
  rewrite (read_entries_quiet s path w fd) by done. rewrite He.
  assert (Forall (fun e => addressable e.1) pages) as Ha
    by (eapply Forall_impl; [exact Hp|]; by intros e []).
  destruct (recover_loop_quiet s data_path pages w ff 0 Hs Hff Ha) as (w' & ff' & E & Hff' & Hc & Ho).
  destruct (restore_pages pages (cached ff) Ha Hsort) as [H1 H2].
  exists (0 + (restore (cached ff) pages).2)%nat, w', ff'.
  split; [by destruct pages|]. split; [done|]. rewrite Hc. split; [|done].
  intros p img Hin. rewrite (H1 p img Hin). destruct (torn_at _ _); [|done].
  apply stored_image_page. rewrite Forall_forall in Hp. exact (proj2 (Hp _ Hin)).
Qed.

(** C26: the double-write buffer makes page writes atomic across a power loss,
    for a batch of at most 128 whole pages in ascending order of page id and a
    checksum that detects a tear of any of them at any byte.  Staged without
    faults, the batch is durable; if the in-place writes then stop anywhere, in
    any page, fault-free recovery ends with every page of the batch either as it
    was before or equal to the staged image, and touches no other page.  (A
    descending batch and a longer one are not protected: see
    [Demo.recover_order_matters]; pages beyond 128 are not staged.) *)
Theorem doublewrite_protects {T} (s : T) (path data_path : Path) (pages : list (Z * list Z))
    (w wc : World) (f fc : File) :
  path <> data_path -> script w = [] -> well_staged pages -> files w !! data_path = Some f ->
  Forall (fun e => page_torn_detected e.2 (page_of (cached f) e.1)) pages ->
  exists w1 fd, write_batch path pages (s, w) = (Ok tt, (s, w1)) /\ files w1 !! path = Some fd /\
    cached fd = durable fd /\ files w1 !! data_path = Some f /\
    (script wc = [] -> files wc !! path = Some (mkFile (durable fd) (durable fd)) ->
     files wc !! data_path = Some fc -> cut_in_place pages (cached f) (cached fc) ->
     exists n w' f', recover_torn_pages path data_path (s, wc) = (Ok n, (s, w')) /\
       files w' !! data_path = Some f' /\
       (forall p img, (p, img) ∈ pages ->
          page_of (cached f') p = img \/ page_of (cached f') p = page_of (cached f) p) /\
       (forall q, page_number q -> q ∉ map fst pages -> page_of (cached f') q = page_of (cached f) q)).
Proof.
  intros Hne Hs Hw Hf Hd. destruct (write_batch_quiet s path pages w Hs) as (w1 & E1 & Hs1 & Hf1 & Ho1).
  cbv zeta in Hf1. eexists w1, _. split; [done|]. split; [exact Hf1|]. split; [done|].
  split; [by rewrite Ho1|]. cbn [durable]. intros Hsc Hfd Hfc [Hcut Hrest].
  destruct (recover_staged s path data_path wc _ fc pages Hne Hsc Hw Hfd (staged_entries _ Hw) Hfc)
    as (n & w' & f' & E & Hf' & Hin & Hout).
  exists n, w', f'. split; [done|]. split; [done|]. split.
  - intros p img Hp. rewrite (Hin p img Hp). unfold torn_at. destruct (Hcut p img Hp) as [k ->].
    destruct (_ <? _)%nat; [by left|]. cbn [orb].
    destruct (verify_page_checksum (torn k img (page_of (cached f) p))) eqn:Ev; [|by left]. cbn [negb].
    rewrite Forall_forall in Hd. exact (Hd _ Hp k Ev).
  - intros q Hq Hn. rewrite (Hout q Hq Hn). by apply Hrest.
Qed.

(** Where the two images agree from byte [n] on, only the first [n] cut points
    matter. *)
Lemma page_torn_detected_prefix new old n :
  drop n new = drop n old ->
  forallb (fun k => negb (verify_page_checksum (torn k new old)) || bool_decide (torn k new old = new) ||
    bool_decide (torn k new old = old)) (seq 0 n) = true ->
  page_torn_detected new old.
Proof.
  intros Hd H k Hv. destruct (decide (k < n)%nat) as [Hk|Hk].
  - rewrite forallb_forall in H. specialize (H k ltac:(apply in_seq; lia)). rewrite Hv in H. cbn [negb orb] in H.
    apply orb_true_iff in H as [H|H]; apply bool_decide_eq_true in H; auto.
  - left. unfold torn. assert (drop k new = drop k old) as <-; [|apply take_drop].
    replace k with (n + (k - n))%nat by lia. by rewrite <- !drop_drop, Hd.
Qed.
End DoubleWrite.

Module Demo.
#[local] Existing Instance additive_checksums.

Definition dw_path : Path := (9, 1).
Definition db_path : Path := (9, 0).
Definition old_page : list Z := update_checksum_bytes (init 0 PtSlottedData).
Definition new_page : list Z := update_checksum_bytes (set_u16 (init 0 PtSlottedData) FLAGS_OFF 1).
Definition db (bytes : list Z) : World :=
  mkWorld (<[db_path := mkFile bytes bytes]> {[dw_path := mkFile [] []]}) [].
(** After the crash: 34 bytes of the new image reached the page. *)
Definition crashed (dw : list Z) : World :=
  mkWorld (<[db_path := mkFile (torn 34 new_page old_page) (torn 34 new_page old_page)]> {[dw_path := mkFile dw dw]}) [].

Lemma page_of_whole l : length l = PAGE_SIZE -> page_of l 0 = l.
Proof.
  intros H. unfold page_of. replace (page_offset 0) with 0%nat by reflexivity.
  rewrite drop_0, take_app_le, take_ge by lia. done.
Qed.

Lemma len_old : length old_page = PAGE_SIZE.
Proof. vm_compute. reflexivity. Qed.
Lemma len_torn : length (torn 34 new_page old_page) = PAGE_SIZE.
Proof. vm_compute. reflexivity. Qed.

Lemma doublewrite_protects_witness :
  exists fd n w' f', recover_torn_pages dw_path db_path (tt, crashed (durable fd)) = (Ok n, (tt, w')) /\
    files w' !! db_path = Some f' /\ (page_of (cached f') 0 = new_page \/ page_of (cached f') 0 = old_page).
Proof.
  assert (well_staged [(0, new_page)]) as Hw.
  { split; [cbn; unfold DOUBLEWRITE_CAPACITY; lia|]. split; [repeat constructor|].
    constructor; [|done]. split; [unfold addressable; cbn; lia|]. vm_compute. reflexivity. }
  assert (page_torn_detected new_page old_page) as Hd.
  { apply (page_torn_detected_prefix _ _ 64); vm_compute; reflexivity. }
  assert (exists fd, cached fd = encode_batch [(0, new_page)] /\ durable fd = encode_batch [(0, new_page)]) as (fd0 & _ & Hfd0)
    by (by exists (mkFile (encode_batch [(0, new_page)]) (encode_batch [(0, new_page)]))).
  destruct (doublewrite_protects tt dw_path db_path [(0, new_page)] (db old_page) (crashed (encode_batch [(0, new_page)]))
    (mkFile old_page old_page) (mkFile (torn 34 new_page old_page) (torn 34 new_page old_page)))
    as (w1 & fd & E1 & Hfd & Hcd & _ & Hrec).
  - done.
  - done.
  - exact Hw.
  - apply lookup_insert_eq.
  - constructor; [|done]. cbn [fst snd cached]. rewrite page_of_whole by exact len_old. exact Hd.
  - destruct (write_batch_quiet tt dw_path [(0, new_page)] (db old_page) eq_refl) as (w2 & E2 & _ & Hf2 & _).
    rewrite E1 in E2. injection E2 as <-. cbv zeta in Hf2. rewrite Hfd in Hf2. injection Hf2 as ->.
    destruct Hrec as (n & w' & f' & E & Hf' & Hp & _).
    + done.
    + reflexivity.
    + apply lookup_insert_eq.
    + split.
      * intros p img Hin. apply list_elem_of_singleton in Hin. injection Hin as -> ->. exists 34%nat. cbn [cached].
        rewrite !page_of_whole; [done|exact len_old|exact len_torn].
      * intros q Hq Hn. cbn [map fst cached] in *. apply not_elem_of_cons in Hn as [Hq0 _].
        apply list_eq. intros i. rewrite !lookup_page_of. case_decide; [|done].
        pose proof (page_offset_eq q Hq). pose proof PAGE_SIZE_eq. unfold page_number in Hq.
        rewrite !lookup_ge_None_2 by (rewrite ?len_old, ?len_torn; nia). done.
    + eexists fd0, n, w', f'. rewrite Hfd0. split; [exact E|]. split; [exact Hf'|].
      destruct (Hp 0 new_page ltac:(by apply list_elem_of_singleton)) as [H|H]; [by left|right].
      rewrite H. cbn [cached]. by apply page_of_whole, len_old.
Defined.

(** In descending order the protection is lost: restoring page 1 of a file that
    ends before page 0 fills page 0 with zeros, which pass as a never-written
    page, so its staged image is not put back. *)
Lemma recover_order_matters :
  let entries := [(1, new_page); (0, new_page)] in
  page_of (restore [] entries).1 0 = replicate PAGE_SIZE 0 /\
  page_of (restore [] (rev entries)).1 0 = new_page.
Proof. split; vm_compute; reflexivity. Qed.
End Demo.
