(* ===== verification/Superblock.v ===== *)
(** * The database superblock ([src/storage/meta.rs])

    The 128-byte [repr(C)] struct kept twice at the front of the data file
    (page 0 and page 1), its validation, and the choice between the copies. *)

From stdpp Require Import prelude list gmap.
From Stdlib Require Import ZArith Lia.
From S2P Require Import Prelude Bytes Checksum Io SlottedPage PageFile.

Definition FORMAT_VERSION : Z := 1.
Definition META_MAGIC : Z := 0x5247524150480001.
Definition SB_SIZE : nat := 128.

Record Superblock := mkSb {
  sb_magic : Z;
  sb_version : Z;
  sb_page_size : Z;
  total_page_count : Z;
  free_page_count : Z;
  next_free_page_id : Z;
  current_wal_lsn : Z;
  last_checkpoint_lsn : Z;
  checkpoint_dpt_offset : Z;
  generation : Z;
  sb_checksum : Z;
  graph_mode : Z;
  sb_reserved : list Z
}.

Inductive SuperblockError :=
| TooShort | BadMagic | EndiannessMismatch | ChecksumMismatch
| UnsupportedVersion (found supported : Z)
| WrongPageSize (found expected : Z).

Definition sb_new (page_size : Z) : Superblock :=
  mkSb META_MAGIC FORMAT_VERSION page_size 0 0 1 0 0 0 1 0 0 (replicate 51 0).

Definition set_checksum (s : Superblock) (c : Z) : Superblock :=
  mkSb (sb_magic s) (sb_version s) (sb_page_size s) (total_page_count s) (free_page_count s)
    (next_free_page_id s) (current_wal_lsn s) (last_checkpoint_lsn s) (checkpoint_dpt_offset s)
    (generation s) c (graph_mode s) (sb_reserved s).

Definition set_generation (s : Superblock) (g : Z) : Superblock :=
  mkSb (sb_magic s) (sb_version s) (sb_page_size s) (total_page_count s) (free_page_count s)
    (next_free_page_id s) (current_wal_lsn s) (last_checkpoint_lsn s) (checkpoint_dpt_offset s)
    g (sb_checksum s) (graph_mode s) (sb_reserved s).

(** The struct's bytes, and the struct read from bytes. *)
Definition sb_bytes (s : Superblock) : list Z :=
  to_le 8 (sb_magic s) ++ to_le 4 (sb_version s) ++ to_le 4 (sb_page_size s) ++
  to_le 8 (total_page_count s) ++ to_le 8 (free_page_count s) ++ to_le 8 (next_free_page_id s) ++
  to_le 8 (current_wal_lsn s) ++ to_le 8 (last_checkpoint_lsn s) ++
  to_le 8 (checkpoint_dpt_offset s) ++ to_le 8 (generation s) ++ to_le 4 (sb_checksum s) ++
  [graph_mode s] ++ sb_reserved s.

Definition sb_read (b : list Z) : Superblock :=
  mkSb (from_le (slice b 0 8)) (from_le (slice b 8 12)) (from_le (slice b 12 16))
    (from_le (slice b 16 24)) (from_le (slice b 24 32)) (from_le (slice b 32 40))
    (from_le (slice b 40 48)) (from_le (slice b 48 56)) (from_le (slice b 56 64))
    (from_le (slice b 64 72)) (from_le (slice b 72 76)) (from_le (slice b 76 77)) (slice b 77 128).

Section Superblocks.
Context `{CS : Checksums}.

Definition sb_compute_checksum (s : Superblock) : Z := crc32c (sb_bytes (set_checksum s 0)).
Definition sb_update_checksum (s : Superblock) : Superblock := set_checksum s (sb_compute_checksum s).
Definition sb_verify_checksum (s : Superblock) : bool := sb_checksum s =? sb_compute_checksum s.

Definition is_valid (s : Superblock) : bool :=
  (sb_magic s =? META_MAGIC) && (sb_version s =? FORMAT_VERSION) &&
  (sb_page_size s =? 8192) && sb_verify_checksum s.

Definition encode_superblock (s : Superblock) : list Z :=
  sb_bytes s ++ replicate (PAGE_SIZE - SB_SIZE) 0.

Definition swap_bytes (z : Z) : Z := from_be (to_le 8 z).

Definition validate_superblock (buf : list Z) : result Superblock SuperblockError :=
  if (length buf <? SB_SIZE)%nat then Err TooShort else
  let sb := sb_read buf in
  if negb (sb_magic sb =? META_MAGIC) then
    if sb_magic sb =? swap_bytes META_MAGIC then Err EndiannessMismatch else Err BadMagic
  else if negb (sb_verify_checksum sb) then Err ChecksumMismatch
  else if negb (sb_version sb =? FORMAT_VERSION) then
    Err (UnsupportedVersion (sb_version sb) FORMAT_VERSION)
  else if negb (sb_page_size sb =? 8192) then Err (WrongPageSize (sb_page_size sb) 8192)
  else Ok sb.

Definition decode_superblock (buf : list Z) : option Superblock :=
  match validate_superblock buf with Ok sb => Some sb | Err _ => None end.

Definition error_kind (e : SuperblockError) : IoError :=
  match e with
  | UnsupportedVersion _ _ | WrongPageSize _ _ | EndiannessMismatch => Unsupported
  | TooShort | BadMagic | ChecksumMismatch => InvalidData
  end.

Definition specificity (e : SuperblockError) : Z :=
  match e with
  | EndiannessMismatch => 5
  | UnsupportedVersion _ _ => 4
  | WrongPageSize _ _ => 3
  | ChecksumMismatch => 2
  | BadMagic => 1
  | TooShort => 0
  end.

(** The choice between the two copies. *)
Definition choose_superblock (primary mirror : list Z) : result Superblock IoError :=
  match validate_superblock primary, validate_superblock mirror with
  | Ok p, Ok m => if generation p <? generation m then Ok m else Ok p
  | Ok p, Err _ => Ok p
  | Err _, Ok m => Ok m
  | Err ep, Err em =>
      Err (error_kind (if specificity ep <? specificity em then em else ep))
  end.

#[local] Open Scope act_scope.

Definition load_superblock {T} (path : Path) : Act T Superblock :=
  lift (fs_open path false) ;;;
  do file_len <- lift (h_len path);
  if (file_len <? 2 * PAGE_SIZE)%nat then fail InvalidData else
  do primary_buf <- lift (h_read_at path PAGE_SIZE 0);
  do mirror_buf <- lift (h_read_at path PAGE_SIZE PAGE_SIZE);
  fun sw => (choose_superblock primary_buf mirror_buf, sw).

(** [PageManager::sync_superblock], on the manager's in-memory superblock: the
    mirror at the next generation, made durable, then the primary at the one
    after. *)
Definition sync_superblock (path : Path) : Act Superblock unit :=
  do sb <- self;
  let base := generation sb in
  let mirror := sb_update_checksum (set_generation sb (base + 1)) in
  lift (h_write_at path (encode_superblock mirror) PAGE_SIZE) ;;;
  lift (h_sync path) ;;;
  let primary := sb_update_checksum (set_generation sb (base + 2)) in
  lift (h_write_at path (encode_superblock primary) 0) ;;;
  lift (h_sync path) ;;;
  put (set_generation sb (base + 2)).

(** ** Round trip *)

Record sb_ok (s : Superblock) : Prop := {
  ok_ints : is_u64 (sb_magic s) /\ is_u32 (sb_version s) /\ is_u32 (sb_page_size s) /\
    is_u64 (total_page_count s) /\ is_u64 (free_page_count s) /\ is_u64 (next_free_page_id s) /\
    is_u64 (current_wal_lsn s) /\ is_u64 (last_checkpoint_lsn s) /\ is_u64 (checkpoint_dpt_offset s) /\
    is_u64 (generation s) /\ is_u32 (sb_checksum s) /\ is_u8 (graph_mode s);
  ok_reserved : length (sb_reserved s) = 51%nat
}.

Lemma length_sb_bytes s : sb_ok s -> length (sb_bytes s) = SB_SIZE.
Proof.
  intros [_ Hr]. unfold sb_bytes. rewrite !length_app, !length_to_le, Hr. reflexivity.
Qed.

Lemma sb_read_bytes s suffix : sb_ok s -> sb_read (sb_bytes s ++ suffix) = s.
Proof.
  intros [Hi Hr]. destruct s as [m v ps tp fp nf wl cl co g c gm rs]. cbn in Hi, Hr.
  destruct Hi as (? & ? & ? & ? & ? & ? & ? & ? & ? & ? & ? & ?).
  unfold sb_read, sb_bytes.
  cbn [sb_magic sb_version sb_page_size total_page_count free_page_count next_free_page_id
    current_wal_lsn last_checkpoint_lsn checkpoint_dpt_offset generation sb_checksum graph_mode sb_reserved].
  f_equal.
  1-11: field_slice; by apply from_to_le_id.
  - field_slice. cbn. lia.
  - field_slice. rewrite slice_here by (by rewrite Hr). done.
Qed.

Lemma length_encode_superblock s : sb_ok s -> length (encode_superblock s) = PAGE_SIZE.
Proof.
  intros H. unfold encode_superblock. rewrite length_app, length_replicate, length_sb_bytes by done.
  unfold SB_SIZE. pose proof PAGE_SIZE_eq. lia.
Qed.

Lemma update_checksum_ok s : sb_ok s -> sb_ok (sb_update_checksum s).
Proof.
  intros [Hi Hr]. split; [|done]. unfold sb_update_checksum, set_checksum. cbn.
  pose proof (crc32c_range (sb_bytes (set_checksum s 0))). tauto.
Qed.

Lemma validate_encoded s :
  sb_ok s -> sb_magic s = META_MAGIC -> sb_version s = FORMAT_VERSION -> sb_page_size s = 8192 ->
  validate_superblock (encode_superblock (sb_update_checksum s)) = Ok (sb_update_checksum s).
Proof.
  intros Hs Hm Hv Hp. pose proof (update_checksum_ok s Hs) as Hu. unfold validate_superblock.
  rewrite length_encode_superblock by done.
  destruct (Nat.ltb_spec PAGE_SIZE SB_SIZE); [unfold SB_SIZE in *; pose proof PAGE_SIZE_eq; lia|].
  unfold encode_superblock. rewrite sb_read_bytes by done. cbn [sb_magic sb_update_checksum set_checksum].
  rewrite Hm, Z.eqb_refl. cbn [negb]. unfold sb_verify_checksum, sb_update_checksum, set_checksum.
  cbn [sb_checksum]. unfold sb_compute_checksum at 2. unfold set_checksum. cbn.
  unfold sb_compute_checksum, set_checksum. rewrite Z.eqb_refl. cbn [negb].
  by rewrite Hv, Hp.
Qed.

Lemma validate_ok_bytes buf s :
  bytes_ok buf -> validate_superblock buf = Ok s ->
  take SB_SIZE buf = sb_bytes s /\ is_valid s = true.
Proof.
  unfold validate_superblock, is_valid. intros Hb. destruct (Nat.ltb_spec (length buf) SB_SIZE) as [|Hl]; [done|].
  destruct (sb_magic _ =? META_MAGIC) eqn:E1; [|by destruct (_ =? swap_bytes _)]. cbn [negb].
  destruct (sb_verify_checksum _) eqn:E2; [|done]. cbn [negb].
  destruct (sb_version _ =? FORMAT_VERSION) eqn:E3; [|done]. cbn [negb].
  destruct (sb_page_size _ =? 8192) eqn:E4; [|done]. cbn [negb]. intros [= <-].
  rewrite E1, E2, E3, E4. split; [|done]. unfold sb_bytes, sb_read.
  cbn [sb_magic sb_version sb_page_size total_page_count free_page_count next_free_page_id
    current_wal_lsn last_checkpoint_lsn checkpoint_dpt_offset generation sb_checksum graph_mode sb_reserved].
  assert (forall a b n, n = (b - a)%nat -> (a <= b <= 128)%nat -> to_le n (from_le (slice buf a b)) = slice buf a b) as Hf.
  { intros a b n -> Hle. apply from_le_fixed; [auto with rg|]. rewrite length_slice; unfold SB_SIZE in *; lia. }
  rewrite !Hf by lia.
  assert ([from_le (slice buf 76 77)] = slice buf 76 77) as ->.
  { destruct (lookup_lt_is_Some_2 buf 76) as [x Hx]; [unfold SB_SIZE in Hl; lia|].
    assert (slice buf 76 77 = [x]) as ->.
    { apply list_eq. intros i. rewrite lookup_slice. destruct i as [|i]; [by rewrite decide_True by lia|].
      by rewrite decide_False by lia. }
    cbn. f_equal. lia. }
  rewrite !slice_glue by lia. unfold slice. by rewrite drop_0.
Qed.

(** Superblocks round trip: a superblock of the current format with its
    checksum updated is accepted and read back exactly from its page; and a
    buffer that is accepted starts with exactly the bytes of the superblock
    read from it, which is valid. *)
Theorem superblock_roundtrip (s s' : Superblock) (buf : list Z) :
  sb_ok s -> sb_magic s = META_MAGIC -> sb_version s = FORMAT_VERSION -> sb_page_size s = 8192 ->
  bytes_ok buf -> validate_superblock buf = Ok s' ->
  length (encode_superblock (sb_update_checksum s)) = PAGE_SIZE /\
  decode_superblock (encode_superblock (sb_update_checksum s)) = Some (sb_update_checksum s) /\
  take SB_SIZE buf = sb_bytes s' /\ is_valid s' = true.
Proof.
  intros Hs Hm Hv Hp Hb Hd. split; [by apply length_encode_superblock, update_checksum_ok|].
  split; [unfold decode_superblock; by rewrite validate_encoded|]. by apply validate_ok_bytes.
Qed.

(** ** A crash while the superblock is written *)

(** What a power loss leaves of a page: some prefix of the cached page over the
    durable one. *)
Definition crash_copies (f : File) (p m : list Z) : Prop :=
  exists k0 k1, p = torn k0 (page_of (cached f) 0) (page_of (durable f) 0) /\
                m = torn k1 (page_of (cached f) 1) (page_of (durable f) 1).

(** Writing [new] over [old] is detected by the checksum wherever it stops. *)
Definition torn_detected (new old : list Z) : Prop :=
  forall k, let b := torn k new old in
    validate_superblock b = validate_superblock new \/ validate_superblock b = validate_superblock old \/
    exists e, validate_superblock b = Err e.

Lemma page_offset_0 : page_offset 0 = 0%nat.
Proof. reflexivity. Qed.

Lemma page_offset_1 : page_offset 1 = PAGE_SIZE.
Proof. pose proof (page_offset_eq 1 ltac:(unfold page_number; lia)). pose proof PAGE_SIZE_eq. lia. Qed.

(** With a valid primary at least as new as the mirror, whatever a stopped
    mirror write leaves, the primary or the new mirror is chosen. *)
Lemma choose_torn_mirror p m new old P N :
  validate_superblock p = Ok P -> validate_superblock new = Ok N ->
  (forall M, validate_superblock old = Ok M -> generation M <= generation P) ->
  torn_detected new old -> (exists k, m = torn k new old) ->
  exists X, choose_superblock p m = Ok X /\ (X = P \/ X = N).
Proof.
  intros Hp Hn Ho Ht [k ->]. unfold choose_superblock. rewrite Hp.
  destruct (Ht k) as [E|[E|[e E]]]; rewrite E.
  - rewrite Hn. destruct (_ <? _); eauto.
  - destruct (validate_superblock old) as [M|e]; [|eauto]. specialize (Ho M eq_refl).
    destruct (Z.ltb_spec (generation P) (generation M)); [lia|eauto].
  - eauto.
Qed.

(** With the mirror newer than the old primary, a stopped primary write leaves
    the mirror or the new primary. *)
Lemma choose_torn_primary p m new old P M N :
  validate_superblock m = Ok M -> validate_superblock new = Ok N -> validate_superblock old = Ok P ->
  generation P < generation M -> generation M < generation N ->
  torn_detected new old -> (exists k, p = torn k new old) ->
  exists X, choose_superblock p m = Ok X /\ (X = M \/ X = N).
Proof.
  intros Hm Hn Ho H1 H2 Ht [k ->]. unfold choose_superblock. rewrite Hm.
  destruct (Ht k) as [E|[E|[e E]]]; rewrite E.
  - rewrite Hn. destruct (Z.ltb_spec (generation N) (generation M)); [lia|eauto].
  - rewrite Ho. destruct (Z.ltb_spec (generation P) (generation M)); [eauto|lia].
  - eauto.
Qed.

(** The two stages of the staggered write, as states of the file. *)
Lemma crash_in_mirror f' old0 old1 new P N :
  page_of (cached f') 0 = old0 -> page_of (durable f') 0 = old0 ->
  (exists k, page_of (cached f') 1 = torn k new old1) -> page_of (durable f') 1 = old1 ->
  length new = length old1 ->
  validate_superblock old0 = Ok P -> validate_superblock new = Ok N ->
  (forall M, validate_superblock old1 = Ok M -> generation M <= generation P) ->
  torn_detected new old1 ->
  forall p m, crash_copies f' p m -> exists X, choose_superblock p m = Ok X /\ (X = P \/ X = N).
Proof.
  intros C0 D0 [k C1] D1 Hl HP HN Ho Ht p m (k0 & k1 & -> & ->).
  rewrite C0, D0, torn_same, C1, D1, torn_torn by done. eapply choose_torn_mirror; eauto.
Qed.

Lemma crash_in_primary f' old0 new0 m1 P M N :
  (exists k, page_of (cached f') 0 = torn k new0 old0) ->
  (page_of (durable f') 0 = old0 \/ page_of (durable f') 0 = page_of (cached f') 0) ->
  page_of (cached f') 1 = m1 -> page_of (durable f') 1 = m1 -> length new0 = length old0 ->
  validate_superblock m1 = Ok M -> validate_superblock new0 = Ok N -> validate_superblock old0 = Ok P ->
  generation P < generation M -> generation M < generation N -> torn_detected new0 old0 ->
  forall p m, crash_copies f' p m -> exists X, choose_superblock p m = Ok X /\ (X = M \/ X = N).
Proof.
  intros [k C0] D0 C1 D1 Hl HM HN HP H1 H2 Ht p m (k0 & k1 & -> & ->).
  rewrite C1, D1, torn_same, C0. eapply choose_torn_primary; eauto.
  destruct D0 as [->|E].
  - rewrite torn_torn by done. eauto.
  - rewrite E, C0, torn_same. eauto.
Qed.

(** Where [sync_superblock] can stop: in the mirror write, in the primary write
    (the mirror being durable), or after both. *)
Inductive sync_stage (old0 old1 newm newp : list Z) (f' : File) : bool -> Prop :=
| in_mirror k : page_of (cached f') 0 = old0 -> page_of (durable f') 0 = old0 ->
    page_of (cached f') 1 = torn k newm old1 -> page_of (durable f') 1 = old1 ->
    sync_stage old0 old1 newm newp f' false
| in_primary k : page_of (cached f') 0 = torn k newp old0 -> page_of (durable f') 0 = old0 ->
    page_of (cached f') 1 = newm -> page_of (durable f') 1 = newm ->
    sync_stage old0 old1 newm newp f' false
| synced : page_of (cached f') 0 = newp -> page_of (durable f') 0 = newp ->
    page_of (cached f') 1 = newm -> page_of (durable f') 1 = newm ->
    sync_stage old0 old1 newm newp f' true.

Lemma two_pages_write path w f newm newp r w' :
  files w !! path = Some f -> cached f = durable f -> length newm = PAGE_SIZE -> length newp = PAGE_SIZE ->
  (bind (lift (h_write_at path newm PAGE_SIZE)) (fun _ => bind (lift (h_sync path)) (fun _ =>
   bind (lift (h_write_at path newp 0)) (fun _ => lift (h_sync path))))) (tt, w) = (r, (tt, w')) ->
  exists f', files w' !! path = Some f' /\
    sync_stage (page_of (cached f) 0) (page_of (cached f) 1) newm newp f' (is_ok r).
Proof.
  intros Hf Hcd Lm Lp. assert (page_number 0 /\ page_number 1) as [N0 N1] by (unfold page_number; lia).
  rewrite <- page_offset_1, <- page_offset_0. unfold bind, lift. cbn [fst snd].
  destruct (h_write_at path newm (page_offset 1) w) as [r1 w1] eqn:E1.
  destruct (h_write_page path w f 1 _ _ _ Hf N1 Lm E1) as (f1 & k1 & Hf1 & D1 & P1 & K1).
  pose proof (P1 0 N0) as P10. pose proof (P1 1 N1) as P11.
  rewrite decide_True in P11 by done. rewrite decide_False in P10 by done.
  destruct r1 as [[]|e1]; [|cbn [fst snd]; intros [= <- ?]; subst; exists f1; split; [done|];
    by eapply (in_mirror _ _ _ _ _ k1); rewrite ?D1, <- ?Hcd].
  cbn [fst snd]. destruct (h_sync path w1) as [r2 w2] eqn:E2.
  destruct (h_sync_file path w1 f1 _ _ Hf1 E2) as (f2 & Hf2 & C2 & D2). cbn [snd].
  destruct r2 as [[]|e2]; [|cbn [fst snd]; intros [= <- ?]; subst; exists f2; split; [done|];
    by eapply (in_mirror _ _ _ _ _ k1); rewrite ?C2, ?D2, ?D1, <- ?Hcd].
  cbn [fst snd]. destruct (h_write_at path newp (page_offset 0) w2) as [r3 w3] eqn:E3.
  destruct (h_write_page path w2 f2 0 _ _ _ Hf2 N0 Lp E3) as (f3 & k3 & Hf3 & D3 & P3 & K3).
  pose proof (P3 0 N0) as P30. pose proof (P3 1 N1) as P31.
  rewrite decide_True in P30 by done. rewrite decide_False in P31 by done.
  rewrite torn_all in P11 by (rewrite ?length_page_of; lia). rewrite C2 in *. rewrite P10 in P30. rewrite P11 in P31.
  destruct r3 as [[]|e3]; [|cbn [fst snd]; intros [= <- ?]; subst; exists f3; split; [done|];
    by eapply (in_primary _ _ _ _ _ k3); rewrite ?D3, ?D2]. cbn [snd].
  cbn [fst snd]. destruct (h_sync path w3) as [r4 w4] eqn:E4.
  destruct (h_sync_file path w3 f3 _ _ Hf3 E4) as (f4 & Hf4 & C4 & D4).
  destruct r4 as [[]|e4]; cbn [fst snd]; intros [= <- ?]; subst; exists f4; (split; [done|]).
  - rewrite torn_all in P30 by (rewrite ?length_page_of; lia). by apply synced; rewrite ?C4, ?D4.
  - by eapply (in_primary _ _ _ _ _ k3); rewrite ?C4, ?D4, ?D3, ?D2.
Qed.

Lemma sync_superblock_stages path sb w res sb' w' f :
  let mirror := encode_superblock (sb_update_checksum (set_generation sb (generation sb + 1))) in
  let primary := encode_superblock (sb_update_checksum (set_generation sb (generation sb + 2))) in
  files w !! path = Some f -> cached f = durable f -> length mirror = PAGE_SIZE -> length primary = PAGE_SIZE ->
  sync_superblock path (sb, w) = (res, (sb', w')) ->
  exists f', files w' !! path = Some f' /\
    sync_stage (page_of (cached f) 0) (page_of (cached f) 1) mirror primary f' (is_ok res).
Proof.
  intros mirror primary Hf Hcd Lm Lp Hs.
  assert (exists r, (bind (lift (h_write_at path mirror PAGE_SIZE)) (fun _ => bind (lift (h_sync path)) (fun _ =>
    bind (lift (h_write_at path primary 0)) (fun _ => lift (h_sync path))))) (tt, w) = (r, (tt, w')) /\
    is_ok r = is_ok res) as (r & Hr & <-).
  { revert Hs. unfold sync_superblock, bind, self, lift, put. cbn [fst snd]. fold mirror primary.
    destruct (h_write_at path mirror PAGE_SIZE w) as [[[]|e] w1]; [|intros [= <- <- <-]; eauto]. cbn [fst snd].
    destruct (h_sync path w1) as [[[]|e] w2]; [|intros [= <- <- <-]; eauto]. cbn [fst snd].
    destruct (h_write_at path primary 0 w2) as [[[]|e] w3]; [|intros [= <- <- <-]; eauto]. cbn [fst snd].
    destruct (h_sync path w3) as [[[]|e] w4]; intros [= <- <- <-]; eauto. }
  by eapply two_pages_write.
Qed.

(** C30: the staggered superblock write is crash safe when it starts from a
    synced file whose primary copy is valid, carries the in-memory generation
    and is at least as new as the mirror, and when the checksum detects a tear of
    either page at any byte.  Then, whatever I/O errors [sync_superblock] meets,
    and wherever a power loss cuts the two pages, the choice between the copies
    succeeds with the old superblock or the new one, and after a successful sync
    with the new one.  The state a torn primary leaves is not such a start: see
    [Demo.second_torn_sync_loses_superblock]. *)
Theorem sync_superblock_crash_safe (path : Path) (sb sb' P : Superblock) (w w' : World) (f : File)
    (res : result unit IoError) :
  files w !! path = Some f -> cached f = durable f ->
  sb_ok sb -> generation sb + 2 < 2 ^ 64 ->
  sb_magic sb = META_MAGIC -> sb_version sb = FORMAT_VERSION -> sb_page_size sb = 8192 ->
  validate_superblock (page_of (cached f) 0) = Ok P -> generation P = generation sb ->
  (forall M, validate_superblock (page_of (cached f) 1) = Ok M -> generation M <= generation P) ->
  let mirror := sb_update_checksum (set_generation sb (generation sb + 1)) in
  let primary := sb_update_checksum (set_generation sb (generation sb + 2)) in
  torn_detected (encode_superblock mirror) (page_of (cached f) 1) ->
  torn_detected (encode_superblock primary) (page_of (cached f) 0) ->
  sync_superblock path (sb, w) = (res, (sb', w')) ->
  exists f', files w' !! path = Some f' /\
    forall p m, crash_copies f' p m ->
      exists X, choose_superblock p m = Ok X /\ (X = P \/ X = mirror \/ X = primary) /\
        (is_ok res = true -> X = primary).
Proof.
  intros Hf Hcd Hok Hg Hma Hve Hps HP Hgp Hold mirror primary Ht1 Ht0 Hs.
  assert (forall g, 0 <= g < 2 ^ 64 -> sb_ok (set_generation sb g)) as Hgok.
  { intros g Hg'. destruct Hok as [Hi Hr]. split; [|done]. unfold set_generation. cbn. unfold uint in *. tauto. }
  assert (0 <= generation sb) as Hg0 by (destruct Hok as [Hi _]; unfold uint in Hi; tauto).
  assert (validate_superblock (encode_superblock mirror) = Ok mirror) as Hvm
    by (apply validate_encoded; try done; apply Hgok; lia).
  assert (validate_superblock (encode_superblock primary) = Ok primary) as Hvp
    by (apply validate_encoded; try done; apply Hgok; lia).
  assert (length (encode_superblock mirror) = PAGE_SIZE) as Lm
    by (apply length_encode_superblock, update_checksum_ok, Hgok; lia).
  assert (length (encode_superblock primary) = PAGE_SIZE) as Lp
    by (apply length_encode_superblock, update_checksum_ok, Hgok; lia).
  destruct (sync_superblock_stages path sb w res sb' w' f Hf Hcd Lm Lp Hs) as (f' & Hf' & Hst).
  exists f'. split; [done|]. intros p m Hc. revert Hst. generalize (is_ok res). intros ok Hst.
  destruct Hst as [k C0 D0 C1 D1|k C0 D0 C1 D1|C0 D0 C1 D1].
  - destruct (crash_in_mirror f' (page_of (cached f) 0) (page_of (cached f) 1) (encode_superblock mirror) P mirror C0 D0 (ex_intro _ k C1) D1
      ltac:(by rewrite Lm, length_page_of) HP Hvm Hold Ht1 p m Hc) as (X & EX & Hx).
    exists X. split; [done|]. split; [tauto|done].
  - destruct (crash_in_primary f' (page_of (cached f) 0) (encode_superblock primary) (encode_superblock mirror) P mirror primary (ex_intro _ k C0) (or_introl D0) C1 D1
      ltac:(by rewrite Lp, length_page_of) Hvm Hvp HP ltac:(cbn; lia) ltac:(cbn; lia) Ht0 p m Hc)
      as (X & EX & Hx).
    exists X. split; [done|]. split; [tauto|done].
  - destruct Hc as (k0 & k1 & -> & ->). rewrite C0, D0, C1, D1, !torn_same. exists primary.
    fold mirror primary. unfold choose_superblock. rewrite Hvp, Hvm.
    destruct (Z.ltb_spec (generation primary) (generation mirror)) as [Hlt|_]; [cbn in Hlt; lia|]. auto.
Qed.

(** Validation reads the first 128 bytes only. *)
Lemma validate_prefix (b b' : list Z) :
  (SB_SIZE <= length b)%nat -> (SB_SIZE <= length b')%nat -> take SB_SIZE b = take SB_SIZE b' ->
  validate_superblock b = validate_superblock b'.
Proof.
  intros L L' E. unfold validate_superblock.
  destruct (Nat.ltb_spec (length b) SB_SIZE); [lia|]. destruct (Nat.ltb_spec (length b') SB_SIZE); [lia|].
  assert (sb_read b = sb_read b') as ->; [|done].
  assert (forall i j, (j <= SB_SIZE)%nat -> slice b i j = slice b' i j) as Hs.
  { intros i j Hj. rewrite <- (take_drop SB_SIZE b), <- (take_drop SB_SIZE b'), E.
    rewrite !slice_app_l; [done|rewrite length_take; lia..]. }
  unfold sb_read. rewrite !Hs by (unfold SB_SIZE; lia). done.
Qed.

(** The torn prefixes that matter are the 128 inside the struct. *)
Definition torn_detected_b (new old : list Z) : bool :=
  forallb (fun k => let b := torn k new old in
    bool_decide (take SB_SIZE b = take SB_SIZE new) || bool_decide (take SB_SIZE b = take SB_SIZE old) ||
    negb (is_ok (validate_superblock b))) (seq 0 SB_SIZE).

Lemma torn_detected_b_sound new old :
  length new = length old -> (SB_SIZE <= length new)%nat -> torn_detected_b new old = true ->
  torn_detected new old.
Proof.
  intros Hl Hn H k b. assert (length b = length new) as Lb.
  { unfold b, torn. rewrite length_app, length_take, length_drop. lia. }
  destruct (decide (k < SB_SIZE)%nat) as [Hk|Hk].
  - unfold torn_detected_b in H. rewrite forallb_forall in H.
    specialize (H k ltac:(apply in_seq; lia)). cbv zeta in H. fold b in H.
    apply orb_true_iff in H as [H|H]; [apply orb_true_iff in H as [H|H]; apply bool_decide_eq_true in H|].
    + left. apply validate_prefix; [lia..|done].
    + right. left. apply validate_prefix; [lia..|done].
    + right. right. destruct (validate_superblock b); [done|eauto].
  - left. apply validate_prefix; [lia..|]. unfold b, torn.
    rewrite take_app_le by (rewrite length_take; lia). rewrite take_take. f_equal. lia.
Qed.
End Superblocks.

Module Demo.
#[local] Existing Instance additive_checksums.

Definition demo_sb : Superblock := sb_update_checksum (set_generation (sb_new 8192) 3).
Definition demo_mirror : Superblock := sb_update_checksum (set_generation (sb_new 8192) 2).
Definition demo_path : Path := (9, 0).
Definition demo_bytes : list Z := encode_superblock demo_sb ++ encode_superblock demo_mirror.
(** The primary write transfers 70 bytes and fails. *)
Definition demo_world : World :=
  mkWorld {[demo_path := mkFile demo_bytes demo_bytes]} [Done; Done; Failed 70].

Lemma demo_sb_ok : sb_ok demo_sb.
Proof. split; [vm_compute; repeat split; congruence|reflexivity]. Qed.

Lemma sync_superblock_crash_safe_witness :
  exists res sb' w' f', sync_superblock demo_path (demo_sb, demo_world) = (res, (sb', w')) /\
    is_ok res = false /\ files w' !! demo_path = Some f' /\
    forall p m, crash_copies f' p m -> exists X, choose_superblock p m = Ok X.
Proof.
  destruct (sync_superblock demo_path (demo_sb, demo_world)) as [res [sb' w']] eqn:E.
  assert (is_ok res = false) as Hr.
  { transitivity (is_ok (sync_superblock demo_path (demo_sb, demo_world)).1); [by rewrite E|vm_compute; reflexivity]. }
  assert (page_of demo_bytes 0 = encode_superblock demo_sb) as P0.
  { vm_compute. reflexivity. }
  assert (page_of demo_bytes 1 = encode_superblock demo_mirror) as P1.
  { vm_compute. reflexivity. }
  assert (files demo_world !! demo_path = Some (mkFile demo_bytes demo_bytes)) as Hf by apply lookup_singleton_eq.
  assert (validate_superblock (page_of demo_bytes 0) = Ok demo_sb) as V0 by (rewrite P0; vm_compute; reflexivity).
  assert (validate_superblock (page_of demo_bytes 1) = Ok demo_mirror) as V1 by (rewrite P1; vm_compute; reflexivity).
  destruct (sync_superblock_crash_safe demo_path demo_sb sb' demo_sb demo_world w' _ res
    Hf eq_refl demo_sb_ok ltac:(vm_compute; reflexivity) eq_refl eq_refl eq_refl V0 eq_refl) as (f' & Hf' & Hc).
  - cbn [cached]. rewrite V1. intros M [= <-]. vm_compute. congruence.
  - cbn [cached]. rewrite P1. apply torn_detected_b_sound; vm_compute; first [reflexivity|lia].
  - cbn [cached]. rewrite P0. apply torn_detected_b_sound; vm_compute; first [reflexivity|lia].
  - exact E.
  - exists res, sb', w', f'. split; [done|]. split; [done|]. split; [done|]. intros p m Hpm.
    destruct (Hc p m Hpm) as (X & EX & _). by exists X.
Defined.

(** A torn primary is not repaired.  After the sync of [demo_world] has torn the
    primary the database opens from the mirror; its next sync starts by
    overwriting that mirror, the only valid copy, and when this write is torn
    too no copy is left: loading fails. *)
Definition torn_once : World := (sync_superblock demo_path (demo_sb, demo_world)).2.2.
Definition from_mirror : Superblock := sb_update_checksum (set_generation demo_sb 4).
Definition torn_twice : World :=
  (sync_superblock demo_path (from_mirror, mkWorld (files torn_once) [Failed 70])).2.2.

Theorem second_torn_sync_loses_superblock :
  (load_superblock demo_path (tt, mkWorld (files torn_once) [])).1 = Ok from_mirror /\
  (load_superblock demo_path (tt, mkWorld (files torn_twice) [])).1 = Err InvalidData.
Proof. vm_compute. split; reflexivity. Qed.

Lemma superblock_roundtrip_witness :
  decode_superblock (encode_superblock demo_sb) = Some demo_sb /\ is_valid demo_mirror = true.
Proof.
  destruct (superblock_roundtrip (set_generation (sb_new 8192) 3) demo_mirror (encode_superblock demo_mirror))
    as (_ & H & _ & Hv).
  - split; [vm_compute; repeat split; congruence|reflexivity].
  - reflexivity.
  - reflexivity.
  - reflexivity.
  - apply (bool_decide_unpack _). vm_compute. exact I.
  - vm_compute. reflexivity.
  - split; [exact H|exact Hv].
Defined.
End Demo.
