(* ===== verification/BufferPool.v ===== *)
(** * The buffer pool ([src/buffer/pool.rs], [frame.rs], [readahead.rs])

    Frames, the sharded page table, clock eviction, write-back through the
    double-write buffer, prefetching and invalidation.  Calls are modelled one
    at a time: a call runs to its end before the next starts, so the sentinel
    of a load in progress is never met by another call (the invariant says so),
    while every I/O call inside may fail. *)

From stdpp Require Import prelude list gmap sets.
From Stdlib Require Import ZArith Lia.
From S2P Require Import Prelude Bytes Checksum Io SlottedPage PageFile DoubleWrite.

(** ** Frames *)

Inductive FrameState := FEmpty | FClean | FDirty | FFlushing | FLoading.

#[global] Instance FrameState_eq_dec : EqDecision FrameState.
Proof. solve_decision. Defined.

(** The descriptor's fields and the page buffer. *)
Record Frame := mkFrame {
  f_page : Z;
  pin_count : Z;
  dirty : bool;
  clock_ref : bool;
  last_lsn : Z;
  rec_lsn : Z;
  io_inflight : bool;
  f_state : FrameState;
  f_buf : list Z
}.

Definition frame_new : Frame := mkFrame 0 0 false false 0 U64_MAX false FEmpty (replicate PAGE_SIZE 0).

Definition is_pinned (f : Frame) : bool := 0 <? pin_count f.

Definition is_evictable (f : Frame) : bool :=
  match f_state f with
  | FLoading | FFlushing => false
  | _ => (pin_count f =? 0) && negb (io_inflight f)
  end.

(** [FrameDescriptor::reset]; the buffer is not touched. *)
Definition reset (f : Frame) : Frame := mkFrame 0 0 false false 0 U64_MAX false FEmpty (f_buf f).

Definition set_inflight (f : Frame) (b : bool) : Frame :=
  mkFrame (f_page f) (pin_count f) (dirty f) (clock_ref f) (last_lsn f) (rec_lsn f) b (f_state f) (f_buf f).
Definition set_ref (f : Frame) (b : bool) : Frame :=
  mkFrame (f_page f) (pin_count f) (dirty f) b (last_lsn f) (rec_lsn f) (io_inflight f) (f_state f) (f_buf f).
Definition set_buf (f : Frame) (buf : list Z) : Frame :=
  mkFrame (f_page f) (pin_count f) (dirty f) (clock_ref f) (last_lsn f) (rec_lsn f) (io_inflight f) (f_state f) buf.
Definition set_pin (f : Frame) (n : Z) : Frame :=
  mkFrame (f_page f) n (dirty f) (clock_ref f) (last_lsn f) (rec_lsn f) (io_inflight f) (f_state f) (f_buf f).

(** The frame reserved for loading [page_id]. *)
Definition reserve (f : Frame) (page_id : Z) : Frame :=
  mkFrame page_id 0 false false 0 U64_MAX true FLoading (f_buf f).

(** Publication after a load: clean, with the given pin count and reference bit. *)
Definition publish (f : Frame) (pins : Z) (referenced : bool) : Frame :=
  mkFrame (f_page f) pins (dirty f) referenced (last_lsn f) (rec_lsn f) false FClean (f_buf f).

(** The end of a successful flush. *)
Definition mark_clean (f : Frame) : Frame :=
  mkFrame (f_page f) (pin_count f) false (clock_ref f) (last_lsn f) U64_MAX false FClean (f_buf f).

(** [pin_count.fetch_add(1)] on a 16-bit counter, and the reference bit. *)
Definition pin (f : Frame) : Frame := set_ref (set_pin f (wrap 16 (pin_count f + 1))) true.

(** [PageGuard::set_dirty]. *)
Definition set_dirty (f : Frame) (lsn : Z) : Frame :=
  let rec := if (rec_lsn f =? U64_MAX) || (lsn <? rec_lsn f) then lsn else rec_lsn f in
  mkFrame (f_page f) (pin_count f) true (clock_ref f) lsn rec (io_inflight f) FDirty (f_buf f).

(** ** Sequential read-ahead *)

Record Readahead := mkRa { last_page : Z; stride : Z; consecutive : Z }.

Definition ra_new : Readahead := mkRa 0 0 0.

(** [page_id as i64]: the two's complement reading of 64 bits. *)
Definition as_i64 (z : Z) : Z := if z <? 2 ^ 63 then z else z - 2 ^ 64.

Definition ra_record (s : Readahead) (page_id : Z) : option Z * Readahead :=
  let st := as_i64 (wrap 64 (page_id - last_page s)) in
  let prefetch_start :=
    if (st =? stride s) && (0 <? st) && (1 <=? consecutive s) then Some (wrap 64 (page_id + st)) else None in
  (prefetch_start,
   if (0 <? st) && (st =? stride s) then mkRa page_id (stride s) (saturating_add 32 (consecutive s) 1)
   else mkRa page_id st 1).

Definition MAX_PREFETCH_PAGES : nat := 32.

(** ** The pool *)

Definition SHARD_COUNT : nat := 256.

(** A page-table value: the loading sentinel or a frame id. *)
Inductive PtEntry := Loading | Resident (fid : nat).

#[global] Instance PtEntry_eq_dec : EqDecision PtEntry.
Proof. solve_decision. Defined.

Record BufferPool := mkPool {
  frames : list Frame;
  shards : list (gmap Z PtEntry);
  clock_hand : nat;
  ghost_capacity : nat;
  ghost_queue : list Z;
  ghost_set : gset Z;
  hits : Z;
  misses : Z;
  evictions : Z;
  io_failed : bool;
  readahead : Readahead
}.

Definition frame_count (p : BufferPool) : nat := length (frames p).

Definition pool_new (count : nat) : BufferPool :=
  mkPool (replicate count frame_new) (replicate SHARD_COUNT ∅) 0 (max (count / 4) 16) [] ∅ 0 0 0 false ra_new.

Definition with_frames (p : BufferPool) (fs : list Frame) : BufferPool :=
  mkPool fs (shards p) (clock_hand p) (ghost_capacity p) (ghost_queue p) (ghost_set p) (hits p) (misses p)
    (evictions p) (io_failed p) (readahead p).
Definition with_shards (p : BufferPool) (s : list (gmap Z PtEntry)) : BufferPool :=
  mkPool (frames p) s (clock_hand p) (ghost_capacity p) (ghost_queue p) (ghost_set p) (hits p) (misses p)
    (evictions p) (io_failed p) (readahead p).
Definition with_hand (p : BufferPool) (h : nat) : BufferPool :=
  mkPool (frames p) (shards p) h (ghost_capacity p) (ghost_queue p) (ghost_set p) (hits p) (misses p)
    (evictions p) (io_failed p) (readahead p).
Definition with_ghosts (p : BufferPool) (q : list Z) (s : gset Z) : BufferPool :=
  mkPool (frames p) (shards p) (clock_hand p) (ghost_capacity p) q s (hits p) (misses p)
    (evictions p) (io_failed p) (readahead p).
Definition with_counters (p : BufferPool) (h m e : Z) : BufferPool :=
  mkPool (frames p) (shards p) (clock_hand p) (ghost_capacity p) (ghost_queue p) (ghost_set p) h m
    e (io_failed p) (readahead p).
Definition with_failed (p : BufferPool) (b : bool) : BufferPool :=
  mkPool (frames p) (shards p) (clock_hand p) (ghost_capacity p) (ghost_queue p) (ghost_set p) (hits p) (misses p)
    (evictions p) b (readahead p).
Definition with_readahead (p : BufferPool) (r : Readahead) : BufferPool :=
  mkPool (frames p) (shards p) (clock_hand p) (ghost_capacity p) (ghost_queue p) (ghost_set p) (hits p) (misses p)
    (evictions p) (io_failed p) r.

Definition hit (p : BufferPool) : BufferPool := with_counters p (wrap 64 (hits p + 1)) (misses p) (evictions p).
Definition miss (p : BufferPool) : BufferPool := with_counters p (hits p) (wrap 64 (misses p + 1)) (evictions p).
Definition evicted (p : BufferPool) : BufferPool := with_counters p (hits p) (misses p) (wrap 64 (evictions p + 1)).

(** [self.frames[fid]]; frame ids come from the page table and the sweep, which
    only hold ids below the frame count (the invariant). *)
Definition frame (p : BufferPool) (fid : nat) : Frame := default frame_new (frames p !! fid).
Definition upd (p : BufferPool) (fid : nat) (g : Frame -> Frame) : BufferPool :=
  with_frames p (alter g fid (frames p)).

Definition shard_index (page_id : Z) : nat :=
  Z.to_nat (wrap 64 (page_id * 0x9E3779B97F4A7C15) mod Z.of_nat SHARD_COUNT).

Definition pt_lookup (p : BufferPool) (page_id : Z) : option PtEntry :=
  m ← shards p !! shard_index page_id; (m : gmap Z PtEntry) !! page_id.
Definition pt_insert (p : BufferPool) (page_id : Z) (s : PtEntry) : BufferPool :=
  with_shards p (alter (<[page_id := s]>) (shard_index page_id) (shards p)).
Definition pt_remove (p : BufferPool) (page_id : Z) : BufferPool :=
  with_shards p (alter (base.delete page_id) (shard_index page_id) (shards p)).

(** ** Ghost queue *)

Definition push_ghost (p : BufferPool) (page_id : Z) : BufferPool :=
  if bool_decide (page_id ∈ ghost_set p) then p else
  let '(q, s) :=
    match ghost_queue p with
    | old :: q => if (ghost_capacity p <=? length (ghost_queue p))%nat then (q, ghost_set p ∖ {[old]})
                  else (ghost_queue p, ghost_set p)
    | [] => ([], ghost_set p)
    end in
  with_ghosts p (q ++ [page_id]) ({[page_id]} ∪ s).

Definition ghost_promote (p : BufferPool) (page_id : Z) : BufferPool :=
  if bool_decide (page_id ∈ ghost_set p)
  then with_ghosts p (filter (fun q => q <> page_id) (ghost_queue p)) (ghost_set p ∖ {[page_id]})
  else p.

Section Pool.
Context `{CS : Checksums} (data_path : Path) (doublewrite : option Path).

#[local] Open Scope act_scope.

(** ** Write-back *)

Definition flush_single_frame (fid : nat) : Act BufferPool unit :=
  do p <- self;
  let page_id := f_page (frame p fid) in
  if page_id =? 0 then ret tt else
  if io_failed p then fail OtherError else
  let was_inflight := io_inflight (frame p fid) in
  modify (fun p => upd p fid (fun f => set_inflight f true)) ;;;
  if was_inflight then ret tt else
  if is_pinned (frame p fid) then modify (fun p => upd p fid (fun f => set_inflight f false)) else
  let buf := update_checksum_bytes (f_buf (frame p fid)) in
  modify (fun p => upd p fid (fun f => set_buf f buf)) ;;;
  match doublewrite with
  | Some dw => write_batch dw [(page_id, buf)]
  | None => ret tt
  end ;;;
  lift (fs_open data_path false) ;;;
  lift (h_write_at data_path buf (page_offset page_id)) ;;;
  do synced <- attempt (lift (h_sync data_path));
  match synced with
  | Err e =>
      modify (fun p => upd (with_failed p true) fid (fun f => set_inflight f false)) ;;;
      fail e
  | Ok _ =>
      match doublewrite with
      | Some dw => ignore (clear dw)
      | None => ret tt
      end ;;;
      modify (fun p => upd p fid mark_clean)
  end.

Definition dirty_candidates (p : BufferPool) : list nat :=
  List.filter (fun fid => let f := frame p fid in
    bool_decide (f_state f = FDirty) && negb (is_pinned f) && negb (io_inflight f)) (seq 0 (frame_count p)).

Fixpoint flush_list (fids : list nat) : Act BufferPool unit :=
  match fids with
  | [] => ret tt
  | fid :: fids => flush_single_frame fid ;;; flush_list fids
  end.

Definition flush_all : Act BufferPool unit :=
  do p <- self; flush_list (dirty_candidates p).

(** ** Clock sweep *)

(** First pass: an empty frame, from the hand on. *)
Fixpoint find_empty (p : BufferPool) (n i : nat) : option nat :=
  match n with
  | O => None
  | S n =>
      let idx := ((clock_hand p + i) mod frame_count p)%nat in
      if bool_decide (f_state (frame p idx) = FEmpty) && negb (io_inflight (frame p idx)) then Some idx
      else find_empty p n (S i)
  end.

(** Taking a clean or empty frame: unmap its page and clear the descriptor. *)
Definition evict (p : BufferPool) (idx : nat) : BufferPool :=
  let f := frame p idx in
  let old_page := f_page f in
  let p :=
    if old_page =? 0 then p else
    let p := if bool_decide (pt_lookup p old_page = Some (Resident idx)) then pt_remove p old_page else p in
    let p := upd p idx (fun f => set_ref f false) in
    let p := if clock_ref f then p else push_ghost p old_page in
    evicted p in
  upd p idx reset.

(** Second pass, [n] steps left. *)
Fixpoint clock_sweep (n : nat) : Act BufferPool (option nat) :=
  match n with
  | O => ret None
  | S n =>
      do p <- self;
      let idx := clock_hand p in
      let f := frame p idx in
      modify (fun p => with_hand p ((idx + 1) mod frame_count p)) ;;;
      if is_pinned f || io_inflight f then clock_sweep n else
      match f_state f with
      | FClean | FEmpty => modify (fun p => evict p idx) ;;; ret (Some idx)
      | FDirty =>
          if clock_ref f then modify (fun p => upd p idx (fun f => set_ref f false)) ;;; clock_sweep n
          else flush_single_frame idx ;;; clock_sweep n
      | FLoading | FFlushing => clock_sweep n
      end
  end.

Definition sweep_for_victim : Act BufferPool (option nat) :=
  do p <- self;
  match find_empty p (frame_count p) 0 with
  | Some idx => modify (fun p => with_hand p idx) ;;; ret (Some idx)
  | None => clock_sweep (frame_count p * 2)
  end.

Definition MAX_SWEEPS : nat := Z.to_nat 100000.

Fixpoint sweep_loop (n : nat) : Act BufferPool nat :=
  match n with
  | O => fail WouldBlock
  | S n =>
      do r <- sweep_for_victim;
      match r with
      | Some fid => ret fid
      | None => sweep_loop n
      end
  end.

Definition find_free_frame : Act BufferPool nat := sweep_loop MAX_SWEEPS.
Definition try_find_free_frame : Act BufferPool (option nat) := sweep_for_victim.

(** ** Prefetch *)

Fixpoint reserve_range (n : nat) (page_id : Z) (budget : nat) (acc : list (nat * Z)) :
    Act BufferPool (list (nat * Z)) :=
  match n with
  | O => ret acc
  | S n =>
      if (budget <=? length acc)%nat then ret acc else
      let next := wrap 64 (page_id + 1) in
      if page_id =? 0 then reserve_range n next budget acc else
      do p <- self;
      if bool_decide (is_Some (pt_lookup p page_id)) then reserve_range n next budget acc else
      do r <- try_find_free_frame;
      match r with
      | Some fid =>
          modify (fun p => upd p fid (fun f => reserve f page_id)) ;;;
          reserve_range n next budget (acc ++ [(fid, page_id)])
      | None => ret acc
      end
  end.

Fixpoint read_range (l : list (nat * Z)) : Act BufferPool unit :=
  match l with
  | [] => ret tt
  | (fid, page_id) :: l =>
      do buf <- lift (h_read_at data_path PAGE_SIZE (page_offset page_id));
      modify (fun p => upd p fid (fun f => set_buf f buf)) ;;;
      read_range l
  end.

(** The check of one prefetched frame: checksum and the page id in its header. *)
Definition prefetch_valid (f : Frame) (page_id : Z) : bool :=
  verify_checksum_bytes (f_buf f) && (from_le (slice (f_buf f) 8 16) =? page_id).

Definition publish_one (p : BufferPool) (fid : nat) (page_id : Z) : BufferPool :=
  if prefetch_valid (frame p fid) page_id then
    let p := upd p fid (fun f => publish f 0 false) in
    match pt_lookup p page_id with
    | None => pt_insert p page_id (Resident fid)
    | Some _ => upd p fid reset
    end
  else upd p fid reset.

Definition publish_range (p : BufferPool) (l : list (nat * Z)) : BufferPool :=
  fold_left (fun p e => publish_one p e.1 e.2) l p.

Definition prefetch_range (start_page : Z) (count : nat) : Act BufferPool unit :=
  do p <- self;
  let budget := min (max (frame_count p / 2) 1) count in
  do l <- reserve_range count start_page budget [];
  match l with
  | [] => ret tt
  | _ =>
      lift (fs_open data_path false) ;;;
      read_range l ;;;
      modify (fun p => publish_range p l)
  end.

(** ** Fixing a page *)

(** Spinning on another thread's load; calls run one at a time here, so a load
    in progress is never observed. *)
Definition wait_for_loading (page_id : Z) : Act BufferPool nat := fail WouldBlock.

Definition load_frame (fid : nat) (page_id : Z) : Act BufferPool unit :=
  lift (fs_open data_path false) ;;;
  do buf <- lift (h_read_at data_path PAGE_SIZE (page_offset page_id));
  modify (fun p => upd p fid (fun f => set_buf f buf)) ;;;
  if verify_checksum_bytes buf then ret tt else fail InvalidData.

Definition fix_page (page_id : Z) : Act BufferPool nat :=
  if page_id =? 0 then fail InvalidInput else
  do p <- self;
  match pt_lookup p page_id with
  | Some Loading => wait_for_loading page_id
  | Some (Resident fid) => modify (fun p => hit (upd p fid pin)) ;;; ret fid
  | None =>
      modify miss ;;;
      do fid <- find_free_frame;
      do p <- self;
      match pt_lookup p page_id with
      | Some Loading => modify (fun p => upd p fid reset) ;;; wait_for_loading page_id
      | Some (Resident existing) =>
          modify (fun p => hit (upd (upd p fid reset) existing pin)) ;;; ret existing
      | None =>
          modify (fun p => upd (pt_insert p page_id Loading) fid (fun f => reserve f page_id)) ;;;
          do io_result <- attempt (load_frame fid page_id);
          match io_result with
          | Err e => modify (fun p => pt_remove (upd p fid reset) page_id) ;;; fail e
          | Ok _ =>
              modify (fun p => pt_insert (upd p fid (fun f => publish f 1 true)) page_id (Resident fid)) ;;;
              modify (fun p => ghost_promote p page_id) ;;;
              do p <- self;
              let '(prefetch, ra) := ra_record (readahead p) page_id in
              modify (fun p => with_readahead p ra) ;;;
              match prefetch with
              | Some start => ignore (prefetch_range start MAX_PREFETCH_PAGES)
              | None => ret tt
              end ;;;
              ret fid
          end
      end
  end.

(** Dropping a guard. *)
Definition unfix_page (p : BufferPool) (fid : nat) : BufferPool :=
  upd p fid (fun f => set_pin f (Z.max 0 (pin_count f - 1))).

(** A guard's write: [buf_mut().copy_from_slice] and [set_dirty].  [buf_mut]
    first spins in [wait_io_quiescent] until no I/O on the frame is in flight;
    the pool's calls run one at a time here, so no other thread's I/O is under
    way, and the model lets the write go ahead even on a frame whose flag a
    failed write-back has left set, where the code would spin for ever. *)
Definition guard_write (p : BufferPool) (fid : nat) (buf : list Z) (lsn : Z) : BufferPool :=
  upd p fid (fun f => set_dirty (set_buf f buf) lsn).

(** [invalidate]; [None] when it spins forever on a frame whose I/O flag is
    never cleared. *)
Definition invalidate (p : BufferPool) (page_id : Z) : option BufferPool :=
  if page_id =? 0 then Some p else
  match pt_lookup p page_id with
  | None | Some Loading => Some p
  | Some (Resident fid) =>
      let p := pt_remove p page_id in
      if io_inflight (frame p fid) then None
      else Some (upd p fid (fun f => reset (set_buf f (replicate PAGE_SIZE 0))))
  end.

(** ** The page table and the frame array *)

Lemma shard_index_lt q : (shard_index q < SHARD_COUNT)%nat.
Proof.
  unfold shard_index. pose proof (Z.mod_pos_bound (wrap 64 (q * 0x9E3779B97F4A7C15)) (Z.of_nat SHARD_COUNT)).
  unfold SHARD_COUNT in *. lia.
Qed.

Lemma pt_lookup_insert p k s q :
  length (shards p) = SHARD_COUNT ->
  pt_lookup (pt_insert p k s) q = if decide (q = k) then Some s else pt_lookup p q.
Proof.
  intros Hl. unfold pt_lookup, pt_insert. cbn [with_shards shards].
  destruct (lookup_lt_is_Some_2 (shards p) (shard_index k)) as [m Hm]; [rewrite Hl; apply shard_index_lt|].
  destruct (decide (shard_index q = shard_index k)) as [E|E].
  - rewrite E, list_lookup_alter_eq, Hm. cbn [fmap option_fmap option_map mbind option_bind].
    case_decide as Hq; [subst; apply lookup_insert_eq|by rewrite lookup_insert_ne by congruence].
  - rewrite list_lookup_alter_ne by congruence. by rewrite decide_False by (by intros ->).
Qed.

Lemma pt_lookup_remove p k q :
  length (shards p) = SHARD_COUNT ->
  pt_lookup (pt_remove p k) q = if decide (q = k) then None else pt_lookup p q.
Proof.
  intros Hl. unfold pt_lookup, pt_remove. cbn [with_shards shards].
  destruct (lookup_lt_is_Some_2 (shards p) (shard_index k)) as [m Hm]; [rewrite Hl; apply shard_index_lt|].
  destruct (decide (shard_index q = shard_index k)) as [E|E].
  - rewrite E, list_lookup_alter_eq, Hm. cbn [fmap option_fmap option_map mbind option_bind].
    case_decide as Hq; [subst; apply lookup_delete_eq|by rewrite lookup_delete_ne by congruence].
  - rewrite list_lookup_alter_ne by congruence. by rewrite decide_False by (by intros ->).
Qed.

Lemma length_alter_shards p k f : length (alter f k (shards p)) = length (shards p).
Proof. apply length_alter. Qed.

Lemma frame_upd p fid g j :
  (fid < frame_count p)%nat -> frame (upd p fid g) j = if decide (j = fid) then g (frame p fid) else frame p j.
Proof.
  intros H. unfold frame, upd, frame_count in *. cbn [with_frames frames]. case_decide as E.
  - subst. rewrite list_lookup_alter_eq. destruct (lookup_lt_is_Some_2 (frames p) fid H) as [f ->]. done.
  - by rewrite list_lookup_alter_ne by congruence.
Qed.

Lemma frame_count_upd p fid g : frame_count (upd p fid g) = frame_count p.
Proof. unfold frame_count, upd. cbn [with_frames frames]. apply length_alter. Qed.

(** ** The logical content of a page

    Pages are compared up to their checksum field, which flushing rewrites. *)

Definition norm (b : list Z) : list Z := take 28 b ++ [0; 0; 0; 0] ++ drop 32 b.

Lemma norm_update b : (32 <= length b)%nat -> norm (update_checksum_bytes b) = norm b.
Proof.
  intros H. unfold norm, update_checksum_bytes. f_equal; [|f_equal].
  - unfold write_at. rewrite take_app_le by (rewrite length_take; lia). by rewrite take_take.
  - apply list_eq. intros i. rewrite !lookup_drop, lookup_write_at, length_to_le by (rewrite length_to_le; lia).
    by rewrite decide_False by lia.
Qed.

Definition disk (w : World) (q : Z) : list Z := page_of (data_file data_path w) q.
Definition durable_file (w : World) : list Z := default [] (durable <$> files w !! data_path).

Definition view (p : BufferPool) (w : World) (q : Z) : list Z :=
  match pt_lookup p q with
  | Some (Resident fid) => f_buf (frame p fid)
  | _ => disk w q
  end.

Definition dirty_page (p : BufferPool) (q : Z) : Prop :=
  exists fid, pt_lookup p q = Some (Resident fid) /\ f_state (frame p fid) = FDirty.

Record frame_ok (f : Frame) : Prop := {
  fo_state : match f_state f with
             | FEmpty => f_page f = 0
             | FLoading => io_inflight f = true
             | FFlushing => False
             | FClean | FDirty => f_page f <> 0
             end;
  fo_buf : length (f_buf f) = PAGE_SIZE;
  fo_pin : 0 <= pin_count f
}.

(** The invariant: a mapped page sits in the one frame that carries its id;
    a frame that carries an id is mapped or reserved for loading; clean frames
    equal the disk, and what is not dirty is durable. *)
Record pool_inv (p : BufferPool) (w : World) : Prop := {
  pi_hand : (clock_hand p < frame_count p)%nat;
  pi_shards : length (shards p) = SHARD_COUNT;
  pi_map : forall q e, pt_lookup p q = Some e -> page_number q /\ exists fid, e = Resident fid /\
    (fid < frame_count p)%nat /\ f_page (frame p fid) = q /\
    (f_state (frame p fid) = FClean \/ f_state (frame p fid) = FDirty);
  pi_own : forall fid, (fid < frame_count p)%nat -> f_page (frame p fid) <> 0 ->
    pt_lookup p (f_page (frame p fid)) = Some (Resident fid) \/ f_state (frame p fid) = FLoading;
  pi_frame : forall fid, (fid < frame_count p)%nat -> frame_ok (frame p fid);
  pi_clean : forall q fid, pt_lookup p q = Some (Resident fid) -> f_state (frame p fid) = FClean ->
    f_buf (frame p fid) = disk w q;
  pi_durable : forall q, page_number q -> ~ dirty_page p q -> page_of (durable_file w) q = disk w q
}.

(** Read-ahead strides from such a page stay below the last addressable page. *)
Definition cacheable (q : Z) : Prop := 0 <= q < 2 ^ 49.
Definition ra_ok (p : BufferPool) : Prop := cacheable (last_page (readahead p)).

(** What no call may disturb: the content of every page, pinned pages staying
    where they are, and frames reserved for loading. *)
Record keeps (p : BufferPool) (w : World) (p' : BufferPool) (w' : World) : Prop := {
  k_count : frame_count p' = frame_count p;
  k_view : forall q, page_number q -> norm (view p' w' q) = norm (view p w q);
  k_pinned : forall q fid, pt_lookup p q = Some (Resident fid) -> 0 < pin_count (frame p fid) ->
    pt_lookup p' q = Some (Resident fid) /\ f_buf (frame p' fid) = f_buf (frame p fid) /\
    pin_count (frame p fid) <= pin_count (frame p' fid);
  k_loading : forall fid, (fid < frame_count p)%nat -> f_state (frame p fid) = FLoading ->
    f_state (frame p' fid) = FLoading /\ f_page (frame p' fid) = f_page (frame p fid);
  k_ra : ra_ok p -> ra_ok p'
}.

Lemma keeps_refl p w : keeps p w p w.
Proof. split; [done|done| |done|done]. intros q fid H _. split; [exact H|split; [done|lia]]. Qed.

Lemma keeps_trans p w p1 w1 p2 w2 : keeps p w p1 w1 -> keeps p1 w1 p2 w2 -> keeps p w p2 w2.
Proof.
  intros [C1 V1 P1 L1 R1] [C2 V2 P2 L2 R2]. split.
  - congruence.
  - intros q Hq. by rewrite V2, V1.
  - intros q fid Hm Hp. destruct (P1 q fid Hm Hp) as (M1 & B1 & N1).
    destruct (P2 q fid M1 ltac:(lia)) as (M2 & B2 & N2). split; [done|]. split; [congruence|lia].
  - intros fid Hf Hs. destruct (L1 fid Hf Hs) as [S1 E1]. destruct (L2 fid ltac:(lia) S1) as [S2 E2].
    split; congruence.
  - auto.
Qed.

(** The same, except that the frames of [X] may leave the loading state. *)
Record keeps_but (X : nat -> Prop) (p : BufferPool) (w : World) (p' : BufferPool) (w' : World) : Prop := {
  kb_count : frame_count p' = frame_count p;
  kb_view : forall q, page_number q -> norm (view p' w' q) = norm (view p w q);
  kb_pinned : forall q fid, pt_lookup p q = Some (Resident fid) -> 0 < pin_count (frame p fid) ->
    pt_lookup p' q = Some (Resident fid) /\ f_buf (frame p' fid) = f_buf (frame p fid) /\
    pin_count (frame p fid) <= pin_count (frame p' fid);
  kb_loading : forall fid, (fid < frame_count p)%nat -> ~ X fid -> f_state (frame p fid) = FLoading ->
    f_state (frame p' fid) = FLoading /\ f_page (frame p' fid) = f_page (frame p fid);
  kb_ra : ra_ok p -> ra_ok p'
}.

Lemma keeps_but_trans X p w p1 w1 p2 w2 : keeps_but X p w p1 w1 -> keeps_but X p1 w1 p2 w2 -> keeps_but X p w p2 w2.
Proof.
  intros [C1 V1 P1 L1 R1] [C2 V2 P2 L2 R2]. split.
  - congruence.
  - intros q Hq. by rewrite V2, V1.
  - intros q fid Hm Hp. destruct (P1 q fid Hm Hp) as (M1 & B1 & N1).
    destruct (P2 q fid M1 ltac:(lia)) as (M2 & B2 & N2). split; [done|]. split; [congruence|lia].
  - intros fid Hf Hx Hs. destruct (L1 fid Hf Hx Hs) as [S1 E1]. destruct (L2 fid ltac:(lia) Hx S1) as [S2 E2].
    split; congruence.
  - auto.
Qed.

Lemma keeps_but_weaken (X Y : nat -> Prop) p w p' w' :
  (forall fid, X fid -> Y fid) -> keeps_but X p w p' w' -> keeps_but Y p w p' w'.
Proof. intros H [C V P L R]. split; auto. Qed.

(** Frames of [X] that were not loading at first do not matter. *)
Lemma keeps_then X p w p1 w1 p2 w2 :
  keeps p w p1 w1 -> keeps_but X p1 w1 p2 w2 ->
  (forall fid, (fid < frame_count p)%nat -> X fid -> f_state (frame p fid) <> FLoading) -> keeps p w p2 w2.
Proof.
  intros [C1 V1 P1 L1 R1] [C2 V2 P2 L2 R2] HX. split.
  - congruence.
  - intros q Hq. by rewrite V2, V1.
  - intros q fid Hm Hp. destruct (P1 q fid Hm Hp) as (M1 & B1 & N1).
    destruct (P2 q fid M1 ltac:(lia)) as (M2 & B2 & N2). split; [done|]. split; [congruence|lia].
  - intros fid Hf Hs. destruct (L1 fid Hf Hs) as [S1 E1].
    destruct (L2 fid ltac:(lia)) as [S2 E2]; [by intros Hx%(HX fid Hf)|done|]. split; congruence.
  - auto.
Qed.

(** One frame: it was not loading, or it still is, for the same page. *)
Lemma keeps_one fid p w p' w' :
  keeps_but (eq fid) p w p' w' ->
  (f_state (frame p fid) = FLoading -> f_state (frame p' fid) = FLoading /\ f_page (frame p' fid) = f_page (frame p fid)) ->
  keeps p w p' w'.
Proof.
  intros [C V P L R] Hf. split; [exact C|exact V|exact P| |exact R]. intros j Hj Hs.
  destruct (decide (fid = j)) as [<-|Hne]; [by apply Hf|by apply L].
Qed.

(** ** Steps that preserve the invariant *)

(** Frames as the invariant sees them. *)
Definition same_core (f f' : Frame) : Prop :=
  f_page f' = f_page f /\ f_state f' = f_state f /\ f_buf f' = f_buf f /\ pin_count f' = pin_count f /\
  io_inflight f' = io_inflight f.

(** Bookkeeping: hand, counters, ghosts, reference bits. *)
Lemma inert p w p' :
  pool_inv p w -> frame_count p' = frame_count p -> (clock_hand p' < frame_count p)%nat ->
  shards p' = shards p -> (ra_ok p -> ra_ok p') ->
  (forall fid, (fid < frame_count p)%nat -> same_core (frame p fid) (frame p' fid)) ->
  pool_inv p' w /\ keeps p w p' w.
Proof.
  intros [Hh Hsh Hm Ho Hf Hc Hd] Ecount Hh' Es Hra Hcore.
  assert (forall q, pt_lookup p' q = pt_lookup p q) as El by (intros; unfold pt_lookup; by rewrite Es).
  assert (forall q fid, pt_lookup p q = Some (Resident fid) -> same_core (frame p fid) (frame p' fid)) as Hcm.
  { intros q fid H. destruct (Hm _ _ H) as (_ & x & [= <-] & Hlt & _). by apply Hcore. }
  split; split.
  - by rewrite Ecount.
  - by rewrite Es.
  - intros q e. rewrite El. intros H. destruct (Hm q e H) as (Hq & fid & -> & Hlt & Hpg & Hst).
    split; [done|]. exists fid. destruct (Hcore fid Hlt) as (-> & -> & _). by rewrite Ecount.
  - intros fid. rewrite Ecount, El. intros Hlt. destruct (Hcore fid Hlt) as (-> & -> & _). by apply Ho.
  - intros fid. rewrite Ecount. intros Hlt. destruct (Hf fid Hlt) as [F1 F2 F3].
    destruct (Hcore fid Hlt) as (E1 & E2 & E3 & E4 & E5). split; by rewrite ?E1, ?E2, ?E3, ?E4, ?E5.
  - intros q fid. rewrite El. intros H. destruct (Hcm q fid H) as (_ & -> & -> & _). by apply Hc.
  - intros q Hq Hnd. apply Hd; [done|]. intros (fid & H & Hst). apply Hnd. exists fid. rewrite El.
    destruct (Hcm q fid H) as (_ & -> & _). done.
  - done.
  - intros q _. unfold view. rewrite El. destruct (pt_lookup p q) as [[|fid]|] eqn:E; [done| |done].
    by destruct (Hcm q fid E) as (_ & _ & -> & _).
  - intros q fid H Hp. rewrite El. destruct (Hcm q fid H) as (_ & _ & -> & -> & _). split; [done|split; [done|lia]].
  - intros fid Hlt Hs. destruct (Hcore fid Hlt) as (-> & -> & _). done.
  - exact Hra.
Qed.

(** A change to one frame that no page is mapped to. *)
Lemma unmapped_update p w p' fid f' :
  pool_inv p w -> (fid < frame_count p)%nat -> (f_state (frame p fid) = FEmpty \/ f_state (frame p fid) = FLoading) ->
  frame_count p' = frame_count p -> clock_hand p' = clock_hand p -> readahead p' = readahead p -> length (shards p') = SHARD_COUNT ->
  (forall q, pt_lookup p' q = pt_lookup p q) ->
  (forall j, (j < frame_count p)%nat -> frame p' j = if decide (j = fid) then f' else frame p j) ->
  frame_ok f' -> (f_state f' = FEmpty \/ f_state f' = FLoading) ->
  pool_inv p' w /\ keeps_but (eq fid) p w p' w.
Proof.
  intros [Hh Hsh Hm Ho Hf Hc Hd] Hlt Hst Ecount Eh Era Esh El Hfr Hok Hst'.
  assert (forall q j, pt_lookup p q = Some (Resident j) -> (j < frame_count p)%nat /\ j <> fid) as Hne.
  { intros q j H. destruct (Hm _ _ H) as (_ & x & [= <-] & Hj & _ & Hs). split; [done|]. intros ->.
    destruct Hst as [E|E]; rewrite E in Hs; destruct Hs; done. }
  assert (forall q j, pt_lookup p q = Some (Resident j) -> frame p' j = frame p j) as Hsame.
  { intros q j H. destruct (Hne q j H) as [Hj Hn]. by rewrite Hfr, decide_False. }
  split; split.
  - by rewrite Eh, Ecount.
  - done.
  - intros q e. rewrite El. intros H. destruct (Hm q e H) as (Hq & j & -> & Hj & Hpg & Hs).
    split; [done|]. exists j. rewrite (Hsame q j H), Ecount. done.
  - intros j. rewrite Ecount, El. intros Hj. rewrite Hfr by done. case_decide as E.
    + intros Hp. right. destruct Hst' as [Es|Es]; [|done]. pose proof (fo_state _ Hok) as Hs. rewrite Es in Hs. done.
    + by apply Ho.
  - intros j. rewrite Ecount. intros Hj. rewrite Hfr by done. case_decide; [done|by apply Hf].
  - intros q j. rewrite El. intros H. rewrite (Hsame q j H). by apply Hc.
  - intros q Hq Hnd. apply Hd; [done|]. intros (j & H & Hs). apply Hnd. exists j. by rewrite El, (Hsame q j H).
  - done.
  - intros q _. unfold view. rewrite El. destruct (pt_lookup p q) as [[|j]|] eqn:E; [done| |done].
    by rewrite (Hsame q j E).
  - intros q j H Hp. rewrite El, (Hsame q j H). split; [done|split; [done|lia]].
  - intros j Hj Hne' Hs. rewrite Hfr, decide_False by congruence. done.
  - unfold ra_ok. by rewrite Era.
Qed.

(** Publishing a page in a frame that no page is mapped to. *)
Lemma install p w p' fid q f' :
  pool_inv p w -> (fid < frame_count p)%nat -> (f_state (frame p fid) = FEmpty \/ f_state (frame p fid) = FLoading) ->
  frame_count p' = frame_count p -> clock_hand p' = clock_hand p -> readahead p' = readahead p -> length (shards p') = SHARD_COUNT ->
  (forall r, pt_lookup p' r = if decide (r = q) then Some (Resident fid) else pt_lookup p r) ->
  (forall j, (j < frame_count p)%nat -> frame p' j = if decide (j = fid) then f' else frame p j) ->
  pt_lookup p q = None -> page_number q -> q <> 0 ->
  f_page f' = q -> f_state f' = FClean -> f_buf f' = disk w q -> 0 <= pin_count f' ->
  pool_inv p' w /\ keeps_but (eq fid) p w p' w.
Proof.
  intros Hinv Hlt Hst Ecount Eh Era Esh El Hfr Hq Hnum Hq0 Fp Fs Fb Fpin.
  pose proof Hinv as [Hh Hsh Hm Ho Hf Hc Hd].
  assert (forall r j, pt_lookup p r = Some (Resident j) -> (j < frame_count p)%nat /\ j <> fid) as Hne.
  { intros r j H. destruct (Hm _ _ H) as (_ & x & [= <-] & Hj & _ & Hs). split; [done|]. intros ->.
    destruct Hst as [E|E]; rewrite E in Hs; destruct Hs; done. }
  assert (forall r j, pt_lookup p r = Some (Resident j) -> frame p' j = frame p j) as Hsame.
  { intros r j H. destruct (Hne r j H) as [Hj Hn]. by rewrite Hfr, decide_False. }
  assert (frame p' fid = f') as Hfid.
  { by rewrite Hfr, decide_True. }
  split; split.
  - by rewrite Eh, Ecount.
  - done.
  - intros r e. rewrite El. case_decide as E.
    + intros [= <-]. subst r. split; [done|]. exists fid. rewrite Hfid, Ecount. auto.
    + intros H. destruct (Hm r e H) as (Hr & j & -> & Hj & Hpg & Hs).
      split; [done|]. exists j. rewrite (Hsame r j H), Ecount. done.
  - intros j. rewrite Ecount, El. intros Hj. rewrite Hfr by done. case_decide as E.
    + intros _. left. subst j. by rewrite Fp, decide_True.
    + intros Hp. destruct (Ho j Hj Hp) as [H|H]; [left|by right].
      rewrite decide_False; [done|]. intros E'. rewrite E' in H. congruence.
  - intros j. rewrite Ecount. intros Hj. rewrite Hfr by done. case_decide; [|by apply Hf].
    split; [by rewrite Fs, Fp| |done]. rewrite Fb. apply length_page_of.
  - intros r j. rewrite El. case_decide as E; [intros [= <-] _; by rewrite Hfid, E|].
    intros H. rewrite (Hsame r j H). by apply Hc.
  - intros r Hr Hnd. apply Hd; [done|]. intros (j & H & Hs). apply Hnd. exists j.
    rewrite El, (Hsame r j H). rewrite decide_False; [done|]. intros ->. congruence.
  - done.
  - intros r _. unfold view. rewrite El. case_decide as E; [subst r; by rewrite Hq, Hfid, Fb|].
    destruct (pt_lookup p r) as [[|j]|] eqn:E'; [done| |done]. by rewrite (Hsame r j E').
  - intros r j H Hp. rewrite El, (Hsame r j H). rewrite decide_False by (intros ->; congruence).
    split; [done|split; [done|lia]].
  - intros j Hj Hne' Hs. rewrite Hfr, decide_False by congruence. done.
  - unfold ra_ok. by rewrite Era.
Qed.

(** ** What the I/O calls leave alone *)

(** The call neither changes the struct nor the data file. *)
Definition leaves {S A} (m : Act S A) : Prop := forall s w r s' w',
  m (s, w) = (r, (s', w')) -> s' = s /\ files w' !! data_path = files w !! data_path.

Lemma leaves_ret {S A} (a : A) : leaves (ret a : Act S A).
Proof. by intros s w r s' w' [= <- <- <-]. Qed.

Lemma leaves_bind {S A B} (m : Act S A) (k : A -> Act S B) :
  leaves m -> (forall a, leaves (k a)) -> leaves (bind m k).
Proof.
  intros Hm Hk s w r s' w'. unfold bind. destruct (m (s, w)) as [[a|e] [s1 w1]] eqn:E.
  - intros H. destruct (Hm _ _ _ _ _ E) as [-> <-]. by apply (Hk a) in H.
  - intros [= <- <- <-]. by apply (Hm _ _ _ _ _ E).
Qed.

Lemma leaves_lift {S A} (m : IO A) :
  (forall w, files (m w).2 !! data_path = files w !! data_path) -> leaves (lift m : Act S A).
Proof.
  intros Hm s w r s' w'. unfold lift. cbn [fst snd]. specialize (Hm w). destruct (m w) as [r1 w1].
  intros [= <- <- <-]. done.
Qed.

Lemma leaves_ignore {S A} (m : Act S A) : leaves m -> leaves (ignore m).
Proof.
  intros Hm s w r s' w'. unfold ignore. destruct (m (s, w)) as [r1 [s1 w1]] eqn:E. cbn [snd].
  intros [= <- <- <-]. by apply (Hm _ _ _ _ _ E).
Qed.

Lemma next_outcome_files w : files (next_outcome w).2 = files w.
Proof. unfold next_outcome. by destruct (script w). Qed.

Lemma leaves_open {S} : leaves (lift (fs_open data_path false) : Act S unit).
Proof.
  apply leaves_lift. intros w. unfold fs_open. pose proof (next_outcome_files w) as E.
  destruct (next_outcome w) as [[|k] w1]; cbn [snd] in E; [|by cbn [snd]; rewrite E].
  destruct (files w1 !! data_path) eqn:E1; cbn [snd]; congruence.
Qed.

Lemma leaves_read {S} n off : leaves (lift (h_read_at data_path n off) : Act S (list Z)).
Proof.
  apply leaves_lift. intros w. unfold h_read_at, with_file. pose proof (next_outcome_files w) as E.
  destruct (files w !! data_path) eqn:E0; [|done].
  destruct (next_outcome w) as [[|k] w1]; cbn [snd] in *; [destruct (_ <=? _)%nat|]; cbn [snd]; congruence.
Qed.

Section OtherFile.
Context (d : Path) (Hne : d <> data_path).

Lemma other_with_file {A} (k : File -> IO A) :
  (forall f w, files (k f w).2 !! data_path = files w !! data_path) ->
  forall w, files (with_file d k w).2 !! data_path = files w !! data_path.
Proof. intros Hk w. unfold with_file. by destruct (files w !! d). Qed.

Ltac other_step :=
  let f := fresh in let w := fresh in intros f w;
  pose proof (next_outcome_files w) as E; destruct (next_outcome w) as [[|k] w1]; cbn [snd] in *;
  repeat (first [rewrite set_file_other by congruence | case_match | cbn [snd]]); congruence.

Lemma leaves_other_write {S} bs off : leaves (lift (h_write_at d bs off) : Act S unit).
Proof using Hne. apply leaves_lift, other_with_file. other_step. Qed.
Lemma leaves_other_len {S} n : leaves (lift (h_set_len d n) : Act S unit).
Proof using Hne. apply leaves_lift, other_with_file. other_step. Qed.
Lemma leaves_other_sync {S} : leaves (lift (h_sync d) : Act S unit).
Proof using Hne. apply leaves_lift, other_with_file. other_step. Qed.
Lemma leaves_other_open {S} : leaves (lift (fs_open d true) : Act S unit).
Proof using Hne.
  apply leaves_lift. intros w. unfold fs_open. pose proof (next_outcome_files w) as E.
  destruct (next_outcome w) as [[|k] w1]; cbn [snd] in *; [|congruence].
  destruct (files w1 !! d); cbn [snd]; [congruence|]. rewrite set_file_other by congruence. cbn [files dir_change]. congruence.
Qed.

Lemma leaves_write_batch {S} pages : leaves (write_batch d pages : Act S unit).
Proof using Hne.
  unfold write_batch. apply leaves_bind; [apply leaves_other_open|]. intros _.
  apply leaves_bind; [apply leaves_other_write|]. intros _. apply leaves_bind; [apply leaves_other_len|].
  intros _. apply leaves_other_sync.
Qed.

Lemma leaves_clear {S} : leaves (clear d : Act S unit).
Proof using Hne.
  unfold clear. apply leaves_bind; [apply leaves_other_open|]. intros _.
  apply leaves_bind; [apply leaves_other_len|]. intros _. apply leaves_other_sync.
Qed.
End OtherFile.

Lemma same_file_disk w w' : files w' !! data_path = files w !! data_path ->
  (forall q, disk w' q = disk w q) /\ durable_file w' = durable_file w.
Proof. intros E. unfold disk, data_file, durable_file. by rewrite E. Qed.

(** The invariant only looks at the data file. *)
Lemma inv_world p w w' : files w' !! data_path = files w !! data_path -> pool_inv p w -> pool_inv p w'.
Proof.
  intros E [Hh Hsh Hm Ho Hf Hc Hd]. destruct (same_file_disk w w' E) as [Ed Edu].
  split; [exact Hh|exact Hsh|exact Hm|exact Ho|exact Hf| |].
  - intros q fid H Hs. rewrite Ed. by apply Hc.
  - intros q Hq Hn. rewrite Ed, Edu. by apply Hd.
Qed.

Lemma keeps_world p w w' : files w' !! data_path = files w !! data_path -> keeps p w p w'.
Proof.
  intros E. destruct (same_file_disk w w' E) as [Ed _]. split; [done| | |done|done].
  - intros q _. unfold view. destruct (pt_lookup p q) as [[|]|]; by rewrite ?Ed.
  - intros q fid H _. split; [exact H|split; [done|lia]].
Qed.

(** ** Write-back of a dirty frame *)

Lemma flush_core p w p' w' fid f' :
  pool_inv p w -> (fid < frame_count p)%nat -> f_state (frame p fid) = FDirty -> pin_count (frame p fid) = 0 ->
  frame_count p' = frame_count p -> clock_hand p' = clock_hand p -> readahead p' = readahead p -> shards p' = shards p ->
  (forall j, (j < frame_count p)%nat -> frame p' j = if decide (j = fid) then f' else frame p j) ->
  f_page f' = f_page (frame p fid) -> frame_ok f' -> norm (f_buf f') = norm (f_buf (frame p fid)) ->
  (f_state f' = FDirty \/ (f_state f' = FClean /\ f_buf f' = disk w' (f_page f') /\
     forall q, page_of (durable_file w') q = disk w' q)) ->
  (forall q, page_number q -> q <> f_page f' -> disk w' q = disk w q) ->
  (durable_file w' = durable_file w \/ forall q, page_of (durable_file w') q = disk w' q) ->
  pool_inv p' w' /\ keeps p w p' w'.
Proof.
  intros Hinv Hlt Hst Hpin Ecount Eh Era Es Hfr Fp Fok Fn Fst Hdisk Hdur. pose proof Hinv as [Hh Hsh Hm Ho Hf Hc Hd].
  assert (forall q, pt_lookup p' q = pt_lookup p q) as El by (intros; unfold pt_lookup; by rewrite Es).
  assert (frame p' fid = f') as Hfid. { by rewrite Hfr, decide_True. }
  assert (forall q j, pt_lookup p q = Some (Resident j) -> (j < frame_count p)%nat /\ f_page (frame p j) = q /\ page_number q) as Hj.
  { intros q j H. destruct (Hm _ _ H) as (Hq & x & [= <-] & Hj & Hp & _). done. }
  assert (forall q j, pt_lookup p q = Some (Resident j) -> j <> fid -> q <> f_page f') as Hother.
  { intros q j H Hn ->. destruct (Hj _ _ H) as (Hlt' & Hp & _). rewrite Fp in *.
    pose proof (fo_state _ (Hf fid Hlt)) as Hs. rewrite Hst in Hs. destruct (Ho fid Hlt Hs) as [H'|H']; congruence. }
  split; split.
  - by rewrite Eh, Ecount.
  - by rewrite Es.
  - intros q e. rewrite El. intros H. destruct (Hm q e H) as (Hq & j & -> & Hlj & Hpg & Hs).
    split; [done|]. exists j. rewrite Ecount, Hfr by done. case_decide as E; [|done]. subst j.
    rewrite Fp. repeat (split; [done|]). tauto.
  - intros j. rewrite Ecount, El. intros Hlj. rewrite Hfr by done. case_decide as E; [|by apply Ho].
    subst j. rewrite Fp. intros Hp. destruct (Ho fid Hlt Hp) as [|]; [by left|congruence].
  - intros j. rewrite Ecount. intros Hlj. rewrite Hfr by done. case_decide; [done|by apply Hf].
  - intros q j. rewrite El. intros H. destruct (Hj _ _ H) as (Hlj & Hpg & Hq). rewrite Hfr by done. case_decide as E.
    + subst j. intros Hs. destruct Fst as [|(_ & -> & _)]; [congruence|]. by rewrite Fp, Hpg.
    + intros Hs. rewrite Hdisk by (done || by eapply Hother). by apply Hc.
  - intros q Hq Hnd. destruct Hdur as [E|E]; [|by apply E]. destruct (decide (q = f_page f')) as [->|Hne].
    + destruct Fst as [Fd|(_ & _ & E')]; [|by apply E']. exfalso. apply Hnd. exists fid. rewrite El, Hfid. split; [|done].
      pose proof (fo_state _ (Hf fid Hlt)) as Hs. rewrite Hst in Hs. rewrite Fp.
      destruct (Ho fid Hlt Hs) as [|]; [done|congruence].
    + rewrite E, Hdisk by done. apply Hd; [done|]. intros (j & H & Hs). apply Hnd. exists j. rewrite El. split; [done|].
      destruct (Hj _ _ H) as (Hlj & Hpg & _). rewrite Hfr by done. case_decide as E'; [|done].
      subst j. congruence.
  - done.
  - intros q Hq. unfold view. rewrite El. destruct (pt_lookup p q) as [[|j]|] eqn:E.
    + exfalso. destruct (Hm _ _ E) as (_ & x & Hx & _). discriminate Hx.
    + destruct (Hj _ _ E) as (Hlj & _). rewrite Hfr by done. case_decide as E'; [by subst j; rewrite Fn|done].
    + rewrite Hdisk; [done|done|]. intros ->. rewrite Fp in E. pose proof (fo_state _ (Hf fid Hlt)) as Hs.
      rewrite Hst in Hs. destruct (Ho fid Hlt Hs) as [H|H]; [rewrite E in H|rewrite Hst in H]; discriminate H.
  - intros q j H Hp. destruct (Hj _ _ H) as (Hlj & _). rewrite El, Hfr by done.
    rewrite decide_False by (intros ->; lia). split; [done|split; [done|lia]].
  - intros j Hlj Hs. rewrite Hfr by done. rewrite decide_False by (intros ->; congruence). done.
  - unfold ra_ok. by rewrite Era.
Qed.

Lemma upd_upd p fid g h : (fid < frame_count p)%nat -> upd (upd p fid g) fid h = upd p fid (fun f => h (g f)).
Proof.
  intros Hlt. unfold upd, with_frames. cbn. f_equal. apply list_eq. intros j.
  destruct (decide (j = fid)) as [->|]; [|by rewrite !list_lookup_alter_ne by congruence].
  rewrite !list_lookup_alter_eq. by destruct (frames p !! fid).
Qed.

(** Writing the page in place and syncing, under any faults. *)
Lemma write_in_place w f q buf r w1 :
  files w !! data_path = Some f -> page_number q -> length buf = PAGE_SIZE ->
  h_write_at data_path buf (page_offset q) w = (r, w1) ->
  exists f1, files w1 !! data_path = Some f1 /\ durable f1 = durable f /\
    (forall q', page_number q' -> q' <> q -> disk w1 q' = disk w q') /\
    (is_ok r = true -> disk w1 q = buf).
Proof.
  intros Hf Hq Hl H. destruct (h_write_page data_path w f q buf r w1 Hf Hq Hl H) as (f1 & k & Hf1 & Hd & Hp & Hk).
  exists f1. split; [done|]. split; [done|]. unfold disk, data_file. rewrite Hf, Hf1.
  cbn [fmap option_fmap option_map default]. unfold from_option, id. split.
  - intros q' Hq' Hne. rewrite Hp by done. by rewrite decide_False.
  - intros Hr. rewrite Hp, decide_True by done. destruct r; [|done]. apply torn_all; rewrite ?length_page_of; lia.
Qed.

Context (Hdw : match doublewrite with Some d => d <> data_path | None => True end).

Lemma leaves_stage {S} pages :
  leaves (match doublewrite with Some dw => write_batch dw pages | None => ret tt end : Act S unit).
Proof using Hdw. destruct doublewrite; [by apply leaves_write_batch|apply leaves_ret]. Qed.

Lemma leaves_unstage {S} :
  leaves (match doublewrite with Some dw => ignore (clear dw) | None => ret tt end : Act S unit).
Proof using Hdw. destruct doublewrite; [by apply leaves_ignore, leaves_clear|apply leaves_ret]. Qed.

(** The state of a flush: only the frame changes, and it stays dirty unless the
    write was synced. *)
Record flushed (p : BufferPool) (w : World) (fid : nat) (p' : BufferPool) (w' : World) : Prop := {
  fl_inv : pool_inv p' w';
  fl_keeps : keeps p w p' w';
  fl_hand : clock_hand p' = clock_hand p;
  fl_shards : shards p' = shards p;
  fl_others : forall j, (j < frame_count p)%nat -> j <> fid -> frame p' j = frame p j;
  fl_frame : f_page (frame p' fid) = f_page (frame p fid) /\ pin_count (frame p' fid) = pin_count (frame p fid) /\
    clock_ref (frame p' fid) = clock_ref (frame p fid)
}.

Lemma flushed_intro p w fid p' w' f' :
  pool_inv p w -> (fid < frame_count p)%nat -> f_state (frame p fid) = FDirty -> pin_count (frame p fid) = 0 ->
  frame_count p' = frame_count p -> clock_hand p' = clock_hand p -> readahead p' = readahead p -> shards p' = shards p ->
  (forall j, (j < frame_count p)%nat -> frame p' j = if decide (j = fid) then f' else frame p j) ->
  f_page f' = f_page (frame p fid) -> pin_count f' = pin_count (frame p fid) -> clock_ref f' = clock_ref (frame p fid) ->
  f_buf f' = update_checksum_bytes (f_buf (frame p fid)) ->
  (f_state f' = FDirty \/ (f_state f' = FClean /\ f_buf f' = disk w' (f_page f') /\
     forall q, page_of (durable_file w') q = disk w' q)) ->
  (forall q, page_number q -> q <> f_page f' -> disk w' q = disk w q) ->
  (durable_file w' = durable_file w \/ forall q, page_of (durable_file w') q = disk w' q) ->
  flushed p w fid p' w'.
Proof.
  intros Hinv Hlt Hst Hpin Ecount Eh Era Es Hfr Fp Fpin Fref Fb Fst Hdisk Hdur.
  pose proof (pi_frame _ _ Hinv fid Hlt) as [Hs Hl Hp]. pose proof PAGE_SIZE_eq.
  assert (length (f_buf f') = PAGE_SIZE) as Hl'.
  { rewrite Fb. unfold update_checksum_bytes. rewrite length_write_at; [done|]. rewrite length_to_le. lia. }
  assert (frame_ok f') as Hok.
  { split; [|exact Hl'|by rewrite Fpin]. rewrite Hst in Hs. destruct Fst as [E|(E & _)]; by rewrite E, Fp. }
  assert (norm (f_buf f') = norm (f_buf (frame p fid))) as Hn by (rewrite Fb; apply norm_update; lia).
  destruct (flush_core p w p' w' fid f' Hinv Hlt Hst Hpin Ecount Eh Era Es Hfr Fp Hok Hn Fst Hdisk Hdur) as [H1 H2].
  assert (frame p' fid = f') as Hfid by (rewrite (Hfr fid Hlt); by destruct (decide (fid = fid))).
  split; [exact H1|exact H2|exact Eh|exact Es| |].
  - intros j Hj Hne. rewrite (Hfr j Hj). by destruct (decide (j = fid)).
  - rewrite Hfid. exact (conj Fp (conj Fpin Fref)).
Qed.

(** A flush that only touches the in-flight flag of a frame whose I/O is
    elsewhere or that is pinned. *)
Lemma flushed_same p w fid p' :
  pool_inv p w -> (fid < frame_count p)%nat -> frame_count p' = frame_count p -> clock_hand p' = clock_hand p ->
  readahead p' = readahead p -> shards p' = shards p ->
  (forall j, (j < frame_count p)%nat -> same_core (frame p j) (frame p' j) /\
     clock_ref (frame p' j) = clock_ref (frame p j) /\ (j <> fid -> frame p' j = frame p j)) ->
  flushed p w fid p' w.
Proof.
  intros Hinv Hlt Ec Eh Era Es Hcore.
  destruct (inert p w p' Hinv Ec ltac:(rewrite Eh; apply Hinv) Es ltac:(unfold ra_ok; by rewrite Era) (fun j Hj => proj1 (Hcore j Hj))) as [H1 H2].
  destruct (Hcore fid Hlt) as [(E1 & E2 & E3 & E4 & E5) [Er _]].
  split; [exact H1|exact H2|exact Eh|exact Es| |exact (conj E1 (conj E4 Er))].
  intros j Hj Hne. by apply (proj2 (proj2 (Hcore j Hj))).
Qed.

Lemma flush_write p w fid r p' w' (buf := update_checksum_bytes (f_buf (frame p fid))) (q := f_page (frame p fid))
    (p1 := upd (upd p fid (fun f => set_inflight f true)) fid (fun f => set_buf f buf)) :
  pool_inv p w -> (fid < frame_count p)%nat -> f_state (frame p fid) = FDirty -> pin_count (frame p fid) = 0 ->
  io_inflight (frame p fid) = false ->
  ((match doublewrite with Some dw => write_batch dw [(q, buf)] | None => ret tt end ;;;
    lift (fs_open data_path false) ;;;
    lift (h_write_at data_path buf (page_offset q)) ;;;
    do synced <- attempt (lift (h_sync data_path));
    match synced with
    | Err e => modify (fun p => upd (with_failed p true) fid (fun f => set_inflight f false)) ;;; fail e
    | Ok _ =>
        match doublewrite with Some dw => ignore (clear dw) | None => ret tt end ;;;
        modify (fun p => upd p fid mark_clean)
    end)%act) (p1, w) = (r, (p', w')) ->
  flushed p w fid p' w' /\
  (is_ok r = true -> f_state (frame p' fid) = FClean /\ io_inflight (frame p' fid) = false).
Proof using Hdw.
  intros Hinv Hlt Hst Hpin Hio Hrun.
  pose proof (pi_frame _ _ Hinv fid Hlt) as [Hs Hl _]. rewrite Hst in Hs. fold q in Hs. pose proof PAGE_SIZE_eq.
  assert (pt_lookup p q = Some (Resident fid)) as Hmap.
  { destruct (pi_own _ _ Hinv fid Hlt Hs) as [H'|H']; [exact H'|]. rewrite Hst in H'. discriminate H'. }
  destruct (pi_map _ _ Hinv q _ Hmap) as (Hq & _).
  assert (length buf = PAGE_SIZE) as Hlb.
  { unfold buf, update_checksum_bytes. rewrite length_write_at; [exact Hl|]. rewrite length_to_le. lia. }
  assert (frame_count p1 = frame_count p) as Ec1 by (unfold p1; by rewrite !frame_count_upd).
  assert (forall g, forall j, (j < frame_count p)%nat -> frame (upd p1 fid g) j =
    if decide (j = fid) then g (set_buf (set_inflight (frame p fid) true) buf) else frame p j) as Hfr.
  { intros g j Hj. rewrite frame_upd by lia. unfold p1.
    rewrite !frame_upd by (rewrite ?frame_count_upd; lia).
    destruct (decide (fid = fid)) as [_|]; [|done]. by destruct (decide (j = fid)). }
  assert (forall j, (j < frame_count p)%nat -> frame p1 j =
    if decide (j = fid) then set_buf (set_inflight (frame p fid) true) buf else frame p j) as Hfr1.
  { intros j Hj. unfold p1. rewrite !frame_upd by (rewrite ?frame_count_upd; lia).
    destruct (decide (fid = fid)) as [_|]; [|done]. by destruct (decide (j = fid)). }
  (* failures before the in-place write *)
  assert (forall w1, files w1 !! data_path = files w !! data_path -> flushed p w fid p1 w1) as Hearly.
  { intros w1 E. destruct (same_file_disk w w1 E) as [Ed Edu].
    apply (flushed_intro p w fid p1 w1 _ Hinv Hlt Hst Hpin Ec1 eq_refl eq_refl eq_refl Hfr1 eq_refl eq_refl eq_refl eq_refl).
    - by left.
    - intros q' _ _. apply Ed.
    - by left. }
  revert Hrun. unfold bind at 1.
  destruct (match doublewrite with Some dw => write_batch dw [(q, buf)] | None => ret tt end (p1, w)) as [r1 [pa wa]] eqn:Ea.
  destruct (leaves_stage [(q, buf)] _ _ _ _ _ Ea) as [-> Ewa].
  destruct r1 as [[]|e]; [|intros [= <- <- <-]; split; [by apply Hearly|done]].
  unfold bind at 1. destruct (lift (fs_open data_path false) (p1, wa)) as [r2 [pb wb]] eqn:Eb.
  destruct (leaves_open _ _ _ _ _ Eb) as [-> Ewb].
  destruct r2 as [[]|e]; [|intros [= <- <- <-]; split; [apply Hearly; congruence|done]].
  unfold bind at 1, lift at 1. cbn [fst snd].
  destruct (h_write_at data_path buf (page_offset q) wb) as [r3 wc] eqn:Ec.
  destruct (files wb !! data_path) as [f|] eqn:Ef.
  2:{ assert (r3 = Err NotFound /\ wc = wb) as [-> ->].
      { revert Ec. unfold h_write_at, with_file. rewrite Ef. by intros [= <- <-]. }
      intros [= <- <- <-]. split; [apply Hearly; congruence|done]. }
  destruct (write_in_place wb f q buf r3 wc Ef Hq Hlb Ec) as (f1 & Hf1 & Hd1 & Hoth & Hown).
  destruct (same_file_disk w wb ltac:(congruence)) as [Edb Edub].
  assert (forall q', page_number q' -> q' <> q -> disk wc q' = disk w q') as Hoth' by (intros; by rewrite Hoth, Edb).
  assert (durable_file wc = durable_file w) as Hdur.
  { rewrite <- Edub. unfold durable_file. rewrite Hf1, Ef. cbn [fmap option_fmap option_map]. by rewrite Hd1. }
  destruct r3 as [[]|e].
  2:{ intros [= <- <- <-]. split; [|done].
      apply (flushed_intro p w fid p1 wc _ Hinv Hlt Hst Hpin Ec1 eq_refl eq_refl eq_refl Hfr1 eq_refl eq_refl eq_refl eq_refl);
        [by left|exact Hoth'|by left]. }
  unfold bind at 1, attempt, lift at 1. cbn [fst snd].
  destruct (h_sync data_path wc) as [r4 wd] eqn:Ed.
  destruct (h_sync_file data_path wc f1 r4 wd Hf1 Ed) as (f2 & Hf2 & Hc2 & Hd2).
  assert (forall q', disk wd q' = disk wc q') as Edd.
  { intros q'. unfold disk, data_file. rewrite Hf2, Hf1. cbn [fmap option_fmap option_map]. by rewrite Hc2. }
  destruct r4 as [[]|e].
  2:{ unfold bind, modify, fail. cbn [fst snd]. intros [= <- <- <-]. split; [|done].
      refine (flushed_intro p w fid (upd (with_failed p1 true) fid (fun f => set_inflight f false)) wd (set_inflight (set_buf (set_inflight (frame p fid) true) buf) false)
        Hinv Hlt Hst Hpin _ eq_refl eq_refl eq_refl _ eq_refl eq_refl eq_refl eq_refl _ _ _).
      - rewrite frame_count_upd. exact Ec1.
      - intros j Hj. exact (Hfr (fun f => set_inflight f false) j Hj).
      - by left.
      - intros q' Hq' Hne. rewrite Edd. by apply Hoth'.
      - left. rewrite <- Hdur. unfold durable_file. rewrite Hf2, Hf1. cbn [fmap option_fmap option_map]. by rewrite Hd2. }
  unfold bind at 1.
  destruct (match doublewrite with Some dw => ignore (clear dw) | None => ret tt end (p1, wd)) as [r5 [pe we]] eqn:Ee.
  destruct (leaves_unstage _ _ _ _ _ Ee) as [-> Ewe]. destruct (same_file_disk wd we Ewe) as [Ede Edue].
  assert (r5 = Ok tt) as ->.
  { revert Ee. destruct doublewrite; [unfold ignore|unfold ret]; intros [= <- _]; done. }
  unfold modify. cbn [fst snd]. intros [= <- <- <-].
  assert (forall q', page_of (durable_file we) q' = disk we q') as Hall.
  { intros q'. rewrite Ede, Edue. unfold durable_file, disk, data_file. rewrite Hf2. cbn [fmap option_fmap option_map].
    by rewrite Hd2, Hc2. }
  split.
  - refine (flushed_intro p w fid (upd p1 fid mark_clean) we (mark_clean (set_buf (set_inflight (frame p fid) true) buf))
      Hinv Hlt Hst Hpin _ eq_refl eq_refl eq_refl (Hfr mark_clean) eq_refl eq_refl eq_refl eq_refl _ _ (or_intror Hall)).
    + rewrite frame_count_upd. exact Ec1.
    + right. split; [done|]. split; [|exact Hall]. rewrite Ede, Edd. symmetry. by apply Hown.
    + intros q' Hq' Hne. rewrite Ede, Edd. by apply Hoth'.
  - intros _. rewrite (Hfr mark_clean fid Hlt). by destruct (decide (fid = fid)).
Qed.

Lemma flush_dirty p w fid r p' w' :
  pool_inv p w -> (fid < frame_count p)%nat -> f_state (frame p fid) = FDirty ->
  flush_single_frame fid (p, w) = (r, (p', w')) ->
  flushed p w fid p' w' /\
  (is_ok r = true -> pin_count (frame p fid) = 0 -> io_inflight (frame p fid) = false ->
   f_state (frame p' fid) = FClean /\ io_inflight (frame p' fid) = false).
Proof using Hdw.
  intros Hinv Hlt Hst. unfold flush_single_frame. unfold bind at 1, self. cbn [fst].
  pose proof (pi_frame _ _ Hinv fid Hlt) as [Hs _ Hpin]. rewrite Hst in Hs.
  destruct (Z.eqb_spec (f_page (frame p fid)) 0) as [E|_]; [by rewrite E in Hs|].
  assert (forall g, (forall f, same_core f (g f) /\ clock_ref (g f) = clock_ref f) \/
     (same_core (frame p fid) (g (frame p fid)) /\ clock_ref (g (frame p fid)) = clock_ref (frame p fid)) ->
     flushed p w fid (upd p fid g) w) as Hsame.
  { intros g Hg. apply flushed_same; [exact Hinv|exact Hlt|apply frame_count_upd|reflexivity..|].
    intros j Hj. rewrite frame_upd by exact Hlt. destruct (decide (j = fid)) as [->|Hne].
    - destruct Hg as [Hg|Hg]; [destruct (Hg (frame p fid))|destruct Hg]; done.
    - unfold same_core. done. }
  destruct (io_failed p).
  { intros [= <- <- <-]. split; [|done]. apply flushed_same; [exact Hinv|exact Hlt|done..|]. intros j _. unfold same_core. done. }
  unfold bind at 1, modify at 1. cbn [fst snd].
  destruct (io_inflight (frame p fid)) eqn:Eio.
  { intros [= <- <- <-]. split; [|congruence]. apply Hsame. right. unfold same_core, set_inflight. cbn. by rewrite Eio. }
  destruct (is_pinned (frame p fid)) eqn:Epin.
  { unfold modify. cbn [fst snd]. intros [= <- <- <-]. unfold is_pinned in Epin. apply Z.ltb_lt in Epin. split; [|lia].
    rewrite upd_upd by exact Hlt. apply Hsame. right. unfold same_core, set_inflight. cbn. by rewrite Eio. }
  unfold is_pinned in Epin. apply Z.ltb_ge in Epin. unfold bind at 1, modify at 1. cbn [fst snd]. intros Hrun.
  destruct (flush_write p w fid r p' w' Hinv Hlt Hst ltac:(lia) Eio Hrun) as [H1 H2]. split; [exact H1|auto].
Qed.

(** ** Eviction *)

(** Unmapping the page of a clean frame, if it has one. *)
Lemma evict_core p w p' idx :
  pool_inv p w -> (idx < frame_count p)%nat -> pin_count (frame p idx) = 0 ->
  (f_state (frame p idx) = FClean \/ f_state (frame p idx) = FEmpty) ->
  frame_count p' = frame_count p -> clock_hand p' = clock_hand p -> readahead p' = readahead p -> length (shards p') = SHARD_COUNT ->
  (forall r, pt_lookup p' r = if decide (pt_lookup p r = Some (Resident idx)) then None else pt_lookup p r) ->
  (forall j, (j < frame_count p)%nat -> frame p' j = if decide (j = idx) then reset (frame p idx) else frame p j) ->
  pool_inv p' w /\ keeps p w p' w.
Proof.
  intros [Hh Hsh Hm Ho Hf Hc Hd] Hlt Hpin Hst Ec Eh Era Esh El Hfr.
  assert (forall r j, pt_lookup p' r = Some (Resident j) ->
    pt_lookup p r = Some (Resident j) /\ (j < frame_count p)%nat /\ frame p' j = frame p j) as Hback.
  { intros r j. rewrite El. case_decide as E; [done|]. intros H. split; [done|].
    destruct (Hm _ _ H) as (_ & x & [= <-] & Hj & _). split; [done|]. rewrite (Hfr j Hj).
    rewrite decide_False; [done|]. by intros ->. }
  split; split.
  - by rewrite Eh, Ec.
  - done.
  - intros r e H. assert (pt_lookup p r = Some e) as H' by (revert H; rewrite El; by case_decide).
    destruct (Hm r e H') as (Hr & j & -> & Hj & Hpg & Hs). split; [done|]. exists j.
    destruct (Hback r j H) as (_ & _ & ->). by rewrite Ec.
  - intros j. rewrite Ec. intros Hj. rewrite (Hfr j Hj). case_decide as E; [done|]. intros Hp.
    destruct (Ho j Hj Hp) as [H|H]; [left|by right]. rewrite El, H, decide_False; [done|]. by intros [= ->].
  - intros j. rewrite Ec. intros Hj. rewrite (Hfr j Hj). case_decide as E; [|by apply Hf].
    split; [done|exact (fo_buf _ (Hf idx Hlt))|done].
  - intros r j H Hs. destruct (Hback r j H) as (H' & _ & E). rewrite E in *. by apply Hc.
  - intros r Hr Hnd. apply Hd; [done|]. intros (j & H & Hs). apply Hnd. exists j.
    assert (j <> idx) as Hne by (intros ->; destruct Hst as [E|E]; rewrite E in Hs; discriminate Hs).
    destruct (Hm _ _ H) as (_ & x & [= <-] & Hj & _). rewrite El, H, decide_False by (by intros [= ->]).
    rewrite (Hfr j Hj), decide_False by done. done.
  - done.
  - intros r _. unfold view. rewrite El. case_decide as E.
    + rewrite E. f_equal. symmetry. apply Hc; [done|]. destruct (Hm _ _ E) as (_ & x & [= <-] & _ & _ & Hs).
      destruct Hst as [E'|E']; [done|]. rewrite E' in Hs. by destruct Hs.
    + destruct (pt_lookup p r) as [[|j]|] eqn:E'; [done| |done].
      destruct (Hm _ _ E') as (_ & x & [= <-] & Hj & _). rewrite (Hfr j Hj), decide_False; [done|]. by intros ->.
  - intros r j H Hp. assert (j <> idx) as Hne by (intros ->; lia).
    destruct (Hm _ _ H) as (_ & x & [= <-] & Hj & _). rewrite El, H, decide_False by (by intros [= ->]).
    rewrite (Hfr j Hj), decide_False by done. split; [done|split; [done|lia]].
  - intros j Hj Hs. assert (j <> idx) as Hne by (intros ->; destruct Hst as [E|E]; rewrite E in Hs; discriminate Hs).
    rewrite (Hfr j Hj), decide_False by done. done.
  - unfold ra_ok. by rewrite Era.
Qed.

Lemma push_ghost_core p q : frames (push_ghost p q) = frames p /\ shards (push_ghost p q) = shards p /\
  clock_hand (push_ghost p q) = clock_hand p /\ readahead (push_ghost p q) = readahead p.
Proof.
  unfold push_ghost. destruct (bool_decide _); [done|]. destruct (ghost_queue p) as [|old qs]; [done|]. by destruct (_ <=? _)%nat.
Qed.

Lemma evict_parts p idx (q := f_page (frame p idx)) : (idx < frame_count p)%nat ->
  clock_hand (evict p idx) = clock_hand p /\ readahead (evict p idx) = readahead p /\
  frame_count (evict p idx) = frame_count p /\
  (forall j, frame (evict p idx) j = if decide (j = idx) then reset (frame p idx) else frame p j) /\
  shards (evict p idx) = (if (q =? 0) then shards p
    else if bool_decide (pt_lookup p q = Some (Resident idx)) then shards (pt_remove p q) else shards p).
Proof.
  intros Hlt. unfold evict. fold q. destruct (q =? 0).
  { split; [done|]. split; [done|]. split; [apply frame_count_upd|]. split; [|done]. intros j. by apply frame_upd. }
  set (p0 := if bool_decide (pt_lookup p q = Some (Resident idx)) then pt_remove p q else p).
  assert (frames p0 = frames p /\ clock_hand p0 = clock_hand p /\ readahead p0 = readahead p) as (F0 & H0 & R0) by (unfold p0; by destruct (bool_decide _)).
  assert (shards p0 = if bool_decide (pt_lookup p q = Some (Resident idx)) then shards (pt_remove p q) else shards p) as <-
    by (unfold p0; by destruct (bool_decide _)).
  assert (frame_count p0 = frame_count p) as C0 by (unfold frame_count; by rewrite F0).
  assert (forall j, frame p0 j = frame p j) as Fr0 by (intros; unfold frame; by rewrite F0).
  set (p1 := if clock_ref (frame p idx) then upd p0 idx (fun f => set_ref f false)
             else push_ghost (upd p0 idx (fun f => set_ref f false)) q).
  assert (frames p1 = frames (upd p0 idx (fun f => set_ref f false)) /\ shards p1 = shards p0 /\ clock_hand p1 = clock_hand p0 /\
    readahead p1 = readahead p0) as (F1 & S1 & H1 & R1).
  { unfold p1. destruct (clock_ref (frame p idx)); [done|].
    destruct (push_ghost_core (upd p0 idx (fun f => set_ref f false)) q) as (-> & -> & -> & ->). done. }
  assert (frame_count (evicted p1) = frame_count p) as C1.
  { unfold frame_count, evicted. cbn [with_counters frames]. rewrite F1. fold (frame_count (upd p0 idx (fun f => set_ref f false))).
    by rewrite frame_count_upd. }
  split; [exact (eq_trans H1 H0)|]. split; [exact (eq_trans R1 R0)|]. split; [by rewrite frame_count_upd|]. split; [|exact S1].
  intros j. rewrite frame_upd by lia.
  assert (forall i, frame (evicted p1) i = frame (upd p0 idx (fun f => set_ref f false)) i) as E.
  { intros i. unfold frame, evicted. cbn [with_counters frames]. by rewrite F1. }
  rewrite !E, !frame_upd, !Fr0 by lia. by repeat case_decide.
Qed.

Lemma evict_spec p w idx :
  pool_inv p w -> (idx < frame_count p)%nat -> pin_count (frame p idx) = 0 ->
  (f_state (frame p idx) = FClean \/ f_state (frame p idx) = FEmpty) ->
  pool_inv (evict p idx) w /\ keeps p w (evict p idx) w /\ frame (evict p idx) idx = reset (frame p idx).
Proof.
  intros Hinv Hlt Hpin Hst. destruct (evict_parts p idx Hlt) as (Eh & Era & Ec & Hfr & Es).
  assert (frame (evict p idx) idx = reset (frame p idx)) as Hi by (rewrite Hfr; by destruct (decide (idx = idx))).
  assert (length (shards (evict p idx)) = SHARD_COUNT) as Hl.
  { rewrite Es. pose proof (pi_shards _ _ Hinv) as Hs. destruct (_ =? 0); [exact Hs|]. destruct (bool_decide _); [|exact Hs].
    unfold pt_remove. cbn [with_shards shards]. by rewrite length_alter. }
  set (q := f_page (frame p idx)) in *.
  assert (forall r, pt_lookup p r = Some (Resident idx) -> r = q /\ q <> 0) as Hr.
  { intros r H. destruct (pi_map _ _ Hinv _ _ H) as (_ & x & [= <-] & _ & Hpg & Hs). unfold q. split; [done|].
    pose proof (fo_state _ (pi_frame _ _ Hinv idx Hlt)) as Hfs. by destruct Hs as [E|E]; rewrite E in Hfs. }
  assert (forall r, pt_lookup (evict p idx) r = if decide (pt_lookup p r = Some (Resident idx)) then None else pt_lookup p r) as El.
  { intros r. unfold pt_lookup at 1. rewrite Es. destruct (Z.eqb_spec q 0) as [E0|E0].
    { rewrite decide_False; [done|]. intros H. by apply Hr in H as [_ ?]. }
    case_bool_decide as Eb.
    - fold (pt_lookup (pt_remove p q) r). rewrite pt_lookup_remove by apply Hinv.
      destruct (decide (r = q)) as [->|Hne]; [by rewrite decide_True|]. rewrite decide_False; [done|].
      intros H. by apply Hr in H as [? _].
    - rewrite decide_False; [done|]. intros H. by destruct (Hr r H) as [-> _]. }
  destruct (evict_core p w (evict p idx) idx Hinv Hlt Hpin Hst Ec Eh Era Hl El (fun j _ => Hfr j)) as [H1 H2].
  exact (conj H1 (conj H2 Hi)).
Qed.

(** ** The sweep *)

(** A call that keeps the pool, and whose answer, if it succeeds, satisfies [Q]. *)
Definition keeping {A} (m : Act BufferPool A) (Q : A -> BufferPool -> World -> Prop) : Prop :=
  forall p w r p' w', pool_inv p w -> m (p, w) = (r, (p', w')) ->
  pool_inv p' w' /\ keeps p w p' w' /\ (forall a, r = Ok a -> Q a p' w').

Lemma keeping_ret {A} (a : A) Q : (forall p w, pool_inv p w -> Q a p w) -> keeping (ret a) Q.
Proof. intros HQ p w r p' w' Hi [= <- <- <-]. split; [done|]. split; [apply keeps_refl|]. intros b [= <-]. by apply HQ. Qed.

Lemma keeping_fail {A} e Q : keeping (fail e : Act BufferPool A) Q.
Proof. intros p w r p' w' Hi [= <- <- <-]. split; [done|]. split; [apply keeps_refl|done]. Qed.

Lemma keeping_bind {A B} (m : Act BufferPool A) (k : A -> Act BufferPool B) Q R :
  keeping m Q ->
  (forall a p w r p' w', pool_inv p w -> Q a p w -> k a (p, w) = (r, (p', w')) ->
     pool_inv p' w' /\ keeps p w p' w' /\ (forall b, r = Ok b -> R b p' w')) ->
  keeping (bind m k) R.
Proof.
  intros Hm Hk p w r p' w' Hi. unfold bind. destruct (m (p, w)) as [[a|e] [p1 w1]] eqn:E.
  - destruct (Hm _ _ _ _ _ Hi E) as (Hi1 & K1 & HQ). intros H.
    destruct (Hk a _ _ _ _ _ Hi1 (HQ a eq_refl) H) as (Hi2 & K2 & HR).
    split; [done|]. split; [by eapply keeps_trans|done].
  - destruct (Hm _ _ _ _ _ Hi E) as (Hi1 & K1 & _). intros [= <- <- <-]. by split_and!.
Qed.

Definition vacant (p : BufferPool) (fid : nat) : Prop :=
  (fid < frame_count p)%nat /\ f_state (frame p fid) = FEmpty.

Lemma with_hand_step p w h : pool_inv p w -> (h < frame_count p)%nat ->
  pool_inv (with_hand p h) w /\ keeps p w (with_hand p h) w.
Proof. intros Hi Hh. apply inert; [done..|]. intros j _. unfold same_core. done. Qed.

Lemma set_ref_step p w idx b : pool_inv p w -> (idx < frame_count p)%nat ->
  pool_inv (upd p idx (fun f => set_ref f b)) w /\ keeps p w (upd p idx (fun f => set_ref f b)) w.
Proof.
  intros Hi Hlt. apply inert; [done|apply frame_count_upd|apply Hi|done|done|]. intros j _.
  rewrite frame_upd by done. case_decide; [subst|]; unfold same_core; done.
Qed.

Lemma mod_count p i : (0 < frame_count p)%nat -> (i mod frame_count p < frame_count p)%nat.
Proof. intros. apply Nat.mod_upper_bound. lia. Qed.

Lemma find_empty_spec p n i idx : (0 < frame_count p)%nat -> find_empty p n i = Some idx ->
  vacant p idx /\ io_inflight (frame p idx) = false.
Proof.
  intros H0. revert i. induction n as [|n IH]; intros i; cbn [find_empty]; [done|].
  destruct (bool_decide _ && _) eqn:E; [|apply IH].
  apply andb_true_iff in E as [E1%bool_decide_eq_true E2%negb_true_iff]. intros [= <-].
  split; [split; [by apply mod_count|done]|done].
Qed.

Lemma clock_sweep_spec n :
  keeping (clock_sweep n) (fun a p w => match a with Some fid => vacant p fid | None => True end).
Proof using Hdw.
  induction n as [|n IH]; [by apply keeping_ret|].
  intros p w r p' w' Hi. pose proof (pi_hand _ _ Hi) as Hlt. cbn [clock_sweep]. unfold bind at 1, self. cbn [fst].
  set (idx := clock_hand p) in *. unfold bind at 1, modify at 1. cbn [fst snd].
  destruct (with_hand_step p w ((idx + 1) mod frame_count p) Hi (mod_count p (idx + 1) ltac:(lia))) as [Hi1 K1].
  set (p1 := with_hand p ((idx + 1) mod frame_count p)) in *.
  assert (forall r p' w', clock_sweep n (p1, w) = (r, (p', w')) -> pool_inv p' w' /\ keeps p w p' w' /\
    (forall a, r = Ok a -> match a with Some fid => vacant p' fid | None => True end)) as Hgo.
  { intros r0 p0 w0 H0. destruct (IH _ _ _ _ _ Hi1 H0) as (H1 & H2 & H3). split; [done|]. split; [by eapply keeps_trans|done]. }
  destruct (is_pinned (frame p idx) || io_inflight (frame p idx)) eqn:Eb; [apply Hgo|].
  apply orb_false_iff in Eb as [Ep%Z.ltb_ge Eio].
  pose proof (fo_pin _ (pi_frame _ _ Hi idx Hlt)) as Hp0.
  assert (frame p1 idx = frame p idx) as Ef by reflexivity.
  destruct (f_state (frame p idx)) eqn:Es; [| | |apply Hgo|apply Hgo].
  1,2: unfold bind, modify, ret; cbn [fst snd]; intros [= <- <- <-];
    destruct (evict_spec p1 w idx Hi1 Hlt) as (H1 & H2 & H3);
      [rewrite Ef; lia|rewrite Ef, Es; auto|];
    (split; [exact H1|]); (split; [by eapply keeps_trans|]); intros a [= <-];
    (split; [rewrite (k_count _ _ _ _ H2); exact Hlt|by rewrite H3]).
  destruct (clock_ref (frame p idx)).
  - unfold bind, modify. cbn [fst snd]. destruct (set_ref_step p1 w idx false Hi1 Hlt) as [Hi2 K2]. intros H.
    destruct (IH _ _ _ _ _ Hi2 H) as (H1 & H2 & H3). split; [done|].
    split; [eapply keeps_trans; [exact K1|]; by eapply keeps_trans|done].
  - unfold bind. destruct (flush_single_frame idx (p1, w)) as [[[]|e] [p2 w2]] eqn:E.
    + destruct (flush_dirty p1 w idx _ _ _ Hi1 Hlt ltac:(by rewrite Ef) E) as [[Hi2 K2 _ _ _ _] _]. intros H.
      destruct (IH _ _ _ _ _ Hi2 H) as (H1 & H2 & H3). split; [done|].
      split; [eapply keeps_trans; [exact K1|]; by eapply keeps_trans|done].
    + destruct (flush_dirty p1 w idx _ _ _ Hi1 Hlt ltac:(by rewrite Ef) E) as [[Hi2 K2 _ _ _ _] _].
      intros [= <- <- <-]. split; [done|]. split; [by eapply keeps_trans|done].
Qed.

Lemma sweep_for_victim_spec :
  keeping sweep_for_victim (fun a p w => match a with Some fid => vacant p fid | None => True end).
Proof using Hdw.
  intros p w r p' w' Hi. unfold sweep_for_victim. unfold bind at 1, self. cbn [fst].
  pose proof (pi_hand _ _ Hi). destruct (find_empty p (frame_count p) 0) as [idx|] eqn:E.
  - apply find_empty_spec in E as [[Hlt Hs] _]; [|lia]. unfold bind, modify, ret. cbn [fst snd]. intros [= <- <- <-].
    destruct (with_hand_step p w idx Hi Hlt). split; [done|]. split; [done|]. intros a [= <-]. done.
  - by apply clock_sweep_spec.
Qed.

Lemma find_free_frame_spec : keeping find_free_frame (fun fid p w => vacant p fid).
Proof using Hdw.
  unfold find_free_frame. generalize MAX_SWEEPS as n. induction n as [|n IH]; [apply keeping_fail|]. cbn [sweep_loop].
  eapply keeping_bind; [apply sweep_for_victim_spec|]. intros [fid|] p w r p' w' Hi Hq; [|by apply IH].
  intros [= <- <- <-]. split; [done|]. split; [apply keeps_refl|]. by intros b [= <-].
Qed.

(** ** Prefetch *)

Lemma upd_parts p fid g : (fid < frame_count p)%nat ->
  frame_count (upd p fid g) = frame_count p /\ clock_hand (upd p fid g) = clock_hand p /\
  readahead (upd p fid g) = readahead p /\ shards (upd p fid g) = shards p /\
  (forall q, pt_lookup (upd p fid g) q = pt_lookup p q) /\
  (forall j, frame (upd p fid g) j = if decide (j = fid) then g (frame p fid) else frame p j).
Proof.
  intros H. split; [apply frame_count_upd|]. split; [reflexivity|]. split; [reflexivity|]. split; [reflexivity|].
  split; [reflexivity|]. intros j. by apply frame_upd.
Qed.

(** A change of one vacant or loading frame. *)
Lemma upd_unmapped p w fid g :
  pool_inv p w -> (fid < frame_count p)%nat -> (f_state (frame p fid) = FEmpty \/ f_state (frame p fid) = FLoading) ->
  frame_ok (g (frame p fid)) -> (f_state (g (frame p fid)) = FEmpty \/ f_state (g (frame p fid)) = FLoading) ->
  pool_inv (upd p fid g) w /\ keeps_but (eq fid) p w (upd p fid g) w.
Proof.
  intros Hi Hlt Hst Hok Hst'. destruct (upd_parts p fid g Hlt) as (E1 & E2 & E3 & E4 & E5 & E6).
  exact (unmapped_update p w (upd p fid g) fid (g (frame p fid)) Hi Hlt Hst E1 E2 E3
    (eq_trans (f_equal length E4) (pi_shards _ _ Hi)) E5 (fun j _ => E6 j) Hok Hst').
Qed.

Lemma reserve_step p w fid q :
  pool_inv p w -> vacant p fid ->
  pool_inv (upd p fid (fun f => reserve f q)) w /\ keeps p w (upd p fid (fun f => reserve f q)) w.
Proof.
  intros Hi [Hlt Hst]. destruct (upd_unmapped p w fid (fun f => reserve f q) Hi Hlt (or_introl Hst)) as [H1 H2].
  - split; [done|exact (fo_buf _ (pi_frame _ _ Hi fid Hlt))|done].
  - by right.
  - split; [exact H1|]. apply (keeps_one fid); [exact H2|]. rewrite Hst. discriminate.
Qed.

Lemma reset_step p w fid :
  pool_inv p w -> (fid < frame_count p)%nat -> (f_state (frame p fid) = FEmpty \/ f_state (frame p fid) = FLoading) ->
  pool_inv (upd p fid reset) w /\ keeps_but (eq fid) p w (upd p fid reset) w.
Proof.
  intros Hi Hlt Hst. apply upd_unmapped; [done..| |by left].
  split; [done|exact (fo_buf _ (pi_frame _ _ Hi fid Hlt))|done].
Qed.

(** The frames reserved so far. *)
Definition reserved_ok (l : list (nat * Z)) (p : BufferPool) : Prop :=
  NoDup (map fst l) /\ forall fid q, (fid, q) ∈ l ->
    (fid < frame_count p)%nat /\ f_state (frame p fid) = FLoading /\ f_page (frame p fid) = q /\
    page_number q /\ q <> 0.

Lemma reserved_ok_nil p : reserved_ok [] p.
Proof. split; [constructor|]. by intros fid q ?%not_elem_of_nil. Qed.

Lemma reserved_ok_keeps l p w p' w' : keeps p w p' w' -> reserved_ok l p -> reserved_ok l p'.
Proof.
  intros K [Hn Hl]. split; [done|]. intros fid q Hin. destruct (Hl fid q Hin) as (H1 & H2 & H3 & H4 & H5).
  destruct (k_loading _ _ _ _ K fid H1 H2) as [E1 E2]. rewrite (k_count _ _ _ _ K), E2. done.
Qed.

Lemma reserved_ok_push l p w fid q :
  pool_inv p w -> reserved_ok l p -> vacant p fid -> page_number q -> q <> 0 ->
  reserved_ok (l ++ [(fid, q)]) (upd p fid (fun f => reserve f q)).
Proof.
  intros Hi [Hn Hl] [Hlt Hst] Hq Hq0.
  assert (fid ∉ map fst l) as Hnew.
  { intros Hin. apply list_elem_of_fmap in Hin as ([fid' q'] & -> & Hin). cbn [fst] in *.
    destruct (Hl _ _ Hin) as (_ & E & _). congruence. }
  split.
  - rewrite map_app. apply NoDup_app. split; [done|]. split; [|apply NoDup_singleton].
    intros x Hx ->%list_elem_of_singleton. done.
  - intros fid' q' Hin. rewrite frame_count_upd, frame_upd by done.
    apply elem_of_app in Hin as [Hin|Hin].
    + rewrite decide_False; [by apply Hl|]. intros ->. apply Hnew, list_elem_of_fmap. by exists (fid, q').
    + apply list_elem_of_singleton in Hin. injection Hin as -> ->. by rewrite decide_True.
Qed.

Lemma reserve_range_spec n q budget acc p w r p' w' :
  pool_inv p w -> reserved_ok acc p -> 0 <= q -> q + Z.of_nat n <= 2 ^ 51 ->
  reserve_range n q budget acc (p, w) = (r, (p', w')) ->
  pool_inv p' w' /\ keeps p w p' w' /\
  (forall l, r = Ok l -> reserved_ok l p' /\
     forall fid, fid ∈ map fst l -> fid ∈ map fst acc \/ f_state (frame p fid) <> FLoading).
Proof using Hdw.
  revert q acc p w. induction n as [|n IH]; intros q acc p w Hi Ha H0 Hn; cbn [reserve_range].
  { intros [= <- <- <-]. split; [done|]. split; [apply keeps_refl|]. intros l [= <-]. auto. }
  destruct (budget <=? length acc)%nat.
  { intros [= <- <- <-]. split; [done|]. split; [apply keeps_refl|]. intros l [= <-]. auto. }
  assert (wrap 64 (q + 1) = q + 1) as -> by (apply wrap_id; unfold uint; lia).
  destruct (Z.eqb_spec q 0) as [|Hq0]; [apply IH; (done || lia)|].
  unfold bind at 1, self. cbn [fst]. destruct (bool_decide (is_Some (pt_lookup p q))); [apply IH; (done || lia)|].
  unfold bind at 1, try_find_free_frame.
  destruct (sweep_for_victim (p, w)) as [[[fid|]|e] [p1 w1]] eqn:E;
    destruct (sweep_for_victim_spec _ _ _ _ _ Hi E) as (Hi1 & K1 & Hv).
  - specialize (Hv _ eq_refl). cbn in Hv. unfold bind, modify. cbn [fst snd].
    destruct (reserve_step p1 w1 fid q Hi1 Hv) as [Hi2 K2]. intros H.
    assert (page_number q) as Hpn by (unfold page_number; lia).
    destruct (IH (q + 1) _ _ _ Hi2 (reserved_ok_push acc p1 w1 fid q Hi1 (reserved_ok_keeps _ _ _ _ _ K1 Ha) Hv Hpn Hq0)
      ltac:(lia) ltac:(lia) H) as (Hi3 & K3 & Hl).
    assert (keeps p w p' w') as K by (eapply keeps_trans; [exact K1|]; by eapply keeps_trans).
    split; [done|]. split; [done|]. intros l El. destruct (Hl l El) as [Hok Hsrc]. split; [done|].
    intros j Hj. destruct (Hsrc j Hj) as [Hin|Hne].
    + rewrite map_app in Hin. apply elem_of_app in Hin as [?|Hin]; [by left|right].
      apply list_elem_of_singleton in Hin as ->. cbn [fst]. intros Hs. destruct Hv as [Hlt Hst].
      destruct (k_loading _ _ _ _ K1 fid ltac:(rewrite <- (k_count _ _ _ _ K1); exact Hlt) Hs) as [E1 _]. congruence.
    + right. intros Hs. apply Hne. destruct (decide (j < frame_count p)%nat) as [Hj'|Hj'].
      * exact (proj1 (k_loading _ _ _ _ (keeps_trans _ _ _ _ _ _ K1 K2) j Hj' Hs)).
      * unfold frame in Hs. rewrite lookup_ge_None_2 in Hs by (unfold frame_count in Hj'; lia). discriminate Hs.
  - intros [= <- <- <-]. split; [done|]. split; [done|]. intros l [= <-].
    split; [by eapply reserved_ok_keeps|auto].
  - intros [= <- <- <-]. split; [done|]. split; [done|]. done.
Qed.

(** A successful read returns the page of the data file. *)
Lemma read_page_disk {T} (s s' : T) w w' q buf :
  page_number q -> lift (h_read_at data_path PAGE_SIZE (page_offset q)) (s, w) = (Ok buf, (s', w')) ->
  buf = disk w q.
Proof.
  intros Hq. unfold lift, h_read_at, with_file. cbn [fst snd]. unfold disk, data_file.
  destruct (files w !! data_path) as [f|]; [|done]. destruct (next_outcome w) as [[|k] w1]; [|done].
  destruct (Nat.leb_spec (page_offset q + PAGE_SIZE) (length (cached f))) as [Hl|]; [|done].
  intros [= <- _ _]. cbn [fmap option_fmap option_map default]. unfold from_option, id. by apply slice_page.
Qed.

Lemma set_buf_step p w fid buf :
  pool_inv p w -> (fid < frame_count p)%nat -> f_state (frame p fid) = FLoading -> length buf = PAGE_SIZE ->
  pool_inv (upd p fid (fun f => set_buf f buf)) w /\ keeps p w (upd p fid (fun f => set_buf f buf)) w.
Proof.
  intros Hi Hlt Hst Hl. destruct (pi_frame _ _ Hi fid Hlt) as [F1 F2 F3].
  destruct (upd_unmapped p w fid (fun f => set_buf f buf) Hi Hlt (or_intror Hst)) as [H1 H2].
  - split; [exact F1|exact Hl|exact F3].
  - by right.
  - split; [exact H1|]. apply (keeps_one fid); [exact H2|]. intros _. rewrite frame_upd, decide_True by done. done.
Qed.

Lemma read_range_spec l p w r p' w' :
  pool_inv p w -> reserved_ok l p -> read_range l (p, w) = (r, (p', w')) ->
  pool_inv p' w' /\ keeps p w p' w' /\ files w' !! data_path = files w !! data_path /\
  (forall j, j ∉ map fst l -> frame p' j = frame p j) /\
  (is_ok r = true -> forall fid q, (fid, q) ∈ l -> f_buf (frame p' fid) = disk w q).
Proof.
  revert p w. induction l as [|[fid q] l IH]; intros p w Hi Hl; cbn [read_range].
  { intros [= <- <- <-]. split; [done|]. split; [apply keeps_refl|]. split; [done|]. split; [done|].
    intros _ fid q H. by apply not_elem_of_nil in H. }
  destruct Hl as [Hnd Hl]. cbn [map fst] in Hnd. apply NoDup_cons in Hnd as [Hfid Hnd].
  destruct (Hl fid q ltac:(left)) as (Hlt & Hst & Hpg & Hq & Hq0).
  unfold bind at 1. destruct (lift (h_read_at data_path PAGE_SIZE (page_offset q)) (p, w)) as [[buf|e] [p1 w1]] eqn:E;
    destruct (leaves_read _ _ _ _ _ _ _ E) as [-> Ew].
  2:{ intros [= <- <- <-]. split; [by eapply inv_world|]. split; [by apply keeps_world|]. done. }
  pose proof (read_page_disk p p w w1 q buf Hq E) as ->. unfold bind, modify. cbn [fst snd].
  pose proof (inv_world p w w1 Ew Hi) as Hi1. pose proof (keeps_world p w w1 Ew) as K1.
  destruct (set_buf_step p w1 fid (disk w q) Hi1 Hlt Hst (length_page_of _ _)) as [Hi2 K2].
  assert (reserved_ok l (upd p fid (fun f => set_buf f (disk w q)))) as Hl'.
  { apply (reserved_ok_keeps l p w1 _ w1 K2). split; [done|]. intros j q' Hin. apply Hl. by right. }
  intros H. destruct (IH _ _ Hi2 Hl' H) as (Hi3 & K3 & Ew3 & Hoth & Hok).
  destruct (same_file_disk w w1 Ew) as [Ed _].
  split; [done|]. split; [eapply keeps_trans; [exact K1|]; by eapply keeps_trans|]. split; [congruence|]. split.
  - intros j Hj. cbn [map fst] in Hj. apply not_elem_of_cons in Hj as [Hne Hj]. rewrite (Hoth j Hj), frame_upd by done.
    by rewrite decide_False.
  - intros Hr fid' q' [Heq|Hin]%elem_of_cons.
    + injection Heq as -> ->. rewrite (Hoth fid Hfid), frame_upd by done. by rewrite decide_True.
    + rewrite (Hok Hr fid' q' Hin). apply Ed.
Qed.

Lemma publish_one_spec p w fid q :
  pool_inv p w -> (fid < frame_count p)%nat -> f_state (frame p fid) = FLoading -> f_page (frame p fid) = q ->
  page_number q -> q <> 0 -> f_buf (frame p fid) = disk w q ->
  pool_inv (publish_one p fid q) w /\ keeps_but (eq fid) p w (publish_one p fid q) w /\
  (forall j, j <> fid -> frame (publish_one p fid q) j = frame p j).
Proof.
  intros Hi Hlt Hst Hpg Hq Hq0 Hb. unfold publish_one.
  destruct (upd_parts p fid reset Hlt) as (_ & _ & _ & _ & _ & R6).
  destruct (upd_parts p fid (fun f => publish f 0 false) Hlt) as (E1 & E2 & E3 & E4 & E5 & E6).
  destruct (prefetch_valid (frame p fid) q).
  - rewrite E5. destruct (pt_lookup p q) as [e|] eqn:Em.
    + rewrite upd_upd by done. destruct (upd_unmapped p w fid (fun f => reset (publish f 0 false)) Hi Hlt (or_intror Hst)) as [H1 H2].
      * split; [done|exact (fo_buf _ (pi_frame _ _ Hi fid Hlt))|done].
      * by left.
      * split; [exact H1|]. split; [exact H2|]. intros j Hj. rewrite frame_upd by done. by rewrite decide_False.
    + set (p1 := upd p fid (fun f => publish f 0 false)) in *.
      assert (length (shards p1) = SHARD_COUNT) as Hs1 by (rewrite E4; apply Hi).
      destruct (install p w (pt_insert p1 q (Resident fid)) fid q (publish (frame p fid) 0 false)
        Hi Hlt (or_intror Hst) E1 E2 E3) as [H1 H2].
      * unfold pt_insert. cbn [with_shards shards]. by rewrite length_alter.
      * intros r. rewrite pt_lookup_insert by done. by rewrite E5.
      * intros j _. apply E6.
      * done.
      * done.
      * done.
      * done.
      * done.
      * done.
      * cbn. lia.
      * split; [exact H1|]. split; [exact H2|]. intros j Hj.
        change (frame (pt_insert p1 q (Resident fid)) j) with (frame p1 j). rewrite E6. by rewrite decide_False.
  - destruct (reset_step p w fid Hi Hlt (or_intror Hst)) as [H1 H2]. split; [exact H1|]. split; [exact H2|].
    intros j Hj. rewrite R6. by rewrite decide_False.
Qed.

Lemma publish_range_spec l p w :
  pool_inv p w -> reserved_ok l p -> (forall fid q, (fid, q) ∈ l -> f_buf (frame p fid) = disk w q) ->
  pool_inv (publish_range p l) w /\ keeps_but (fun fid => fid ∈ map fst l) p w (publish_range p l) w.
Proof.
  unfold publish_range. revert p. induction l as [|[fid q] l IH]; intros p Hi [Hnd Hl] Hb; cbn [fold_left fst snd].
  { split; [done|]. destruct (keeps_refl p w). by split; auto. }
  cbn [map fst] in Hnd. apply NoDup_cons in Hnd as [Hfid Hnd].
  destruct (Hl fid q ltac:(left)) as (Hlt & Hst & Hpg & Hq & Hq0).
  destruct (publish_one_spec p w fid q Hi Hlt Hst Hpg Hq Hq0 (Hb fid q ltac:(left))) as (Hi1 & K1 & Hoth).
  assert (forall j, j ∈ map fst l -> frame (publish_one p fid q) j = frame p j) as Hj.
  { intros j Hin. apply Hoth. by intros ->. }
  destruct (IH (publish_one p fid q)) as [Hi2 K2]; [done|split; [done|]| |].
  - intros j q' Hin. rewrite Hj by (apply list_elem_of_fmap; by exists (j, q')). rewrite (kb_count _ _ _ _ _ K1).
    apply Hl. by right.
  - intros j q' Hin. rewrite Hj by (apply list_elem_of_fmap; by exists (j, q')). apply Hb. by right.
  - split; [exact Hi2|]. eapply keeps_but_trans.
    + eapply keeps_but_weaken; [|exact K1]. intros j <-. left.
    + eapply keeps_but_weaken; [|exact K2]. intros j Hin. by right.
Qed.

Lemma prefetch_range_spec start n p w r p' w' :
  pool_inv p w -> 0 <= start -> start + Z.of_nat n <= 2 ^ 51 ->
  prefetch_range start n (p, w) = (r, (p', w')) -> pool_inv p' w' /\ keeps p w p' w'.
Proof using Hdw.
  intros Hi H0 Hn. unfold prefetch_range. unfold bind at 1, self. cbn [fst]. unfold bind at 1.
  destruct (reserve_range n start _ [] (p, w)) as [[l|e] [p1 w1]] eqn:E1.
  2:{ destruct (reserve_range_spec _ _ _ _ _ _ _ _ _ Hi (reserved_ok_nil p) H0 Hn E1)
        as (Hi1 & K1 & _). intros [= <- <- <-]. done. }
  destruct (reserve_range_spec _ _ _ _ _ _ _ _ _ Hi (reserved_ok_nil p) H0 Hn E1)
    as (Hi1 & K1 & Hl). destruct (Hl l eq_refl) as [Hok Hsrc]. clear Hl.
  destruct l as [|e l]; [intros [= <- <- <-]; done|]. clear E1. revert Hok Hsrc. generalize (e :: l). clear e l. intros l Hok Hsrc.
  unfold bind at 1. destruct (lift (fs_open data_path false) (p1, w1)) as [[[]|e] [p2 w2]] eqn:E2;
    destruct (leaves_open _ _ _ _ _ E2) as [-> Ew2];
    pose proof (inv_world _ _ _ Ew2 Hi1) as Hi2; pose proof (keeps_world p1 _ _ Ew2) as K2.
  2:{ intros [= <- <- <-]. split; [done|by eapply keeps_trans]. }
  unfold bind at 1. destruct (read_range l (p1, w2)) as [r3 [p3 w3]] eqn:E3.
  destruct (read_range_spec l p1 w2 r3 p3 w3 Hi2 Hok E3) as (Hi3 & K3 & Ew3 & _ & Hb).
  assert (keeps p w p3 w3) as K by (eapply keeps_trans; [exact K1|]; by eapply keeps_trans).
  destruct r3 as [[]|e]; [|intros [= <- <- <-]; done]. unfold modify. cbn [fst snd]. intros [= <- <- <-].
  destruct (same_file_disk w2 w3 Ew3) as [Ed3 _].
  destruct (publish_range_spec l p3 w3 Hi3 (reserved_ok_keeps _ _ _ _ _ K3 Hok)) as [Hi4 K4].
  { intros fid q Hin. rewrite Ed3. by apply Hb. }
  split; [exact Hi4|]. apply (keeps_then _ _ _ _ _ _ _ K K4). intros fid _ Hin. destruct (Hsrc fid Hin) as [Hn'|Hne]; [|done].
  by apply not_elem_of_nil in Hn'.
Qed.

(** ** Fixing a page *)

(** The sweep never maps a page. *)
Lemma clock_sweep_unmapped n p w r p' w' q :
  pool_inv p w -> clock_sweep n (p, w) = (r, (p', w')) -> pt_lookup p q = None -> pt_lookup p' q = None.
Proof using Hdw.
  revert p w. induction n as [|n IH]; intros p w Hi; [by intros [= <- <- <-]|].
  pose proof (pi_hand _ _ Hi) as Hlt. cbn [clock_sweep]. unfold bind at 1, self. cbn [fst].
  set (idx := clock_hand p) in *. unfold bind at 1, modify at 1. cbn [fst snd].
  destruct (with_hand_step p w ((idx + 1) mod frame_count p) Hi (mod_count p (idx + 1) ltac:(lia))) as [Hi1 _].
  set (p1 := with_hand p ((idx + 1) mod frame_count p)) in *. change (pt_lookup p q) with (pt_lookup p1 q).
  destruct (is_pinned (frame p idx) || io_inflight (frame p idx)); [by apply IH|].
  destruct (f_state (frame p idx)) eqn:Es; [| | |by apply IH|by apply IH].
  1,2: unfold bind, modify, ret; cbn [fst snd]; intros [= <- <- <-] Hq;
    destruct (evict_parts p1 idx Hlt) as (_ & _ & _ & _ & E); unfold pt_lookup; rewrite E;
    (destruct (_ =? 0); [exact Hq|]); (destruct (bool_decide _); [|exact Hq]);
    fold (pt_lookup (pt_remove p1 (f_page (frame p1 idx))) q); rewrite pt_lookup_remove by apply Hi1; by case_decide.
  destruct (clock_ref (frame p idx)).
  - unfold bind, modify. cbn [fst snd]. intros H Hq. exact (IH _ _ (proj1 (set_ref_step p1 w idx false Hi1 Hlt)) H Hq).
  - unfold bind. destruct (flush_single_frame idx (p1, w)) as [[[]|e] [p2 w2]] eqn:E;
      destruct (flush_dirty p1 w idx _ _ _ Hi1 Hlt Es E) as [[Hi2 _ _ Hsh _ _] _].
    + intros H Hq. apply (IH _ _ Hi2 H). unfold pt_lookup. by rewrite Hsh.
    + intros [= <- <- <-] Hq. unfold pt_lookup. by rewrite Hsh.
Qed.

Lemma find_free_unmapped p w r p' w' q :
  pool_inv p w -> find_free_frame (p, w) = (r, (p', w')) -> pt_lookup p q = None -> pt_lookup p' q = None.
Proof using Hdw.
  unfold find_free_frame. generalize MAX_SWEEPS as n. intros n. revert p w.
  induction n as [|n IH]; intros p w Hi; [by intros [= <- <- <-]|]. cbn [sweep_loop]. unfold bind at 1.
  destruct (sweep_for_victim (p, w)) as [r1 [p1 w1]] eqn:E.
  destruct (sweep_for_victim_spec _ _ _ _ _ Hi E) as (Hi1 & _). intros H Hq.
  assert (pt_lookup p1 q = None) as Hq1.
  { revert E. unfold sweep_for_victim. unfold bind at 1, self. cbn [fst].
    destruct (find_empty p (frame_count p) 0); [by intros [= <- <- <-]|]. intros E. by apply (clock_sweep_unmapped _ _ _ _ _ _ _ Hi E). }
  destruct r1 as [[fid|]|e]; [by injection H as <- <- <-|by apply (IH _ _ Hi1 H)|by injection H as <- <- <-].
Qed.

Lemma ra_record_bound ra q pf ra' :
  cacheable (last_page ra) -> cacheable q -> ra_record ra q = (pf, ra') ->
  last_page ra' = q /\ forall start, pf = Some start -> 0 <= start /\ start + Z.of_nat MAX_PREFETCH_PAGES <= 2 ^ 51.
Proof.
  unfold cacheable, ra_record, MAX_PREFETCH_PAGES. intros Hl Hq [= <- <-]. split; [by destruct (_ && _)|].
  intros start Hs.
  assert (as_i64 (wrap 64 (q - last_page ra)) = q - last_page ra) as E.
  { unfold as_i64, wrap. destruct (Z.le_gt_cases (last_page ra) q).
    - rewrite Z.mod_small by lia. by destruct (Z.ltb_spec (q - last_page ra) (2 ^ 63)); [|lia].
    - rewrite <- (Z.mod_unique_pos (q - last_page ra) (2 ^ 64) (-1) (q - last_page ra + 2 ^ 64)) by lia.
      destruct (Z.ltb_spec (q - last_page ra + 2 ^ 64) (2 ^ 63)); lia. }
  rewrite E in Hs. destruct (_ && _) eqn:Eb; [|done]. rg_bool. injection Hs as <-.
  rewrite wrap_id by (unfold uint; lia). lia.
Qed.

(** Loading a page into a reserved frame. *)
Lemma load_frame_spec p w fid q r p' w' :
  (fid < frame_count p)%nat -> page_number q -> load_frame fid q (p, w) = (r, (p', w')) ->
  files w' !! data_path = files w !! data_path /\ shards p' = shards p /\ frame_count p' = frame_count p /\
  clock_hand p' = clock_hand p /\ readahead p' = readahead p /\
  exists buf, (forall j, frame p' j = if decide (j = fid) then set_buf (frame p fid) buf else frame p j) /\
    (buf = disk w q \/ buf = f_buf (frame p fid)) /\ (is_ok r = true -> buf = disk w q).
Proof.
  intros Hlt Hq. unfold load_frame. unfold bind at 1.
  assert (forall j, frame p j = if decide (j = fid) then set_buf (frame p fid) (f_buf (frame p fid)) else frame p j) as Hid.
  { intros j. case_decide; [subst|done]. by destruct (frame p fid). }
  destruct (lift (fs_open data_path false) (p, w)) as [[[]|e] [p1 w1]] eqn:E1; destruct (leaves_open _ _ _ _ _ E1) as [-> Ew1].
  2:{ intros [= <- <- <-]. split; [exact Ew1|]. do 4 (split; [reflexivity|]). exists (f_buf (frame p fid)). split; [exact Hid|].
      split; [right; reflexivity|cbn; discriminate]. }
  unfold bind at 1. destruct (lift (h_read_at data_path PAGE_SIZE (page_offset q)) (p, w1)) as [[buf|e] [p2 w2]] eqn:E2;
    destruct (leaves_read _ _ _ _ _ _ _ E2) as [-> Ew2].
  2:{ intros [= <- <- <-]. split; [congruence|]. do 4 (split; [reflexivity|]). exists (f_buf (frame p fid)). split; [exact Hid|].
      split; [right; reflexivity|cbn; discriminate]. }
  pose proof (read_page_disk p p w1 w2 q buf Hq E2) as ->. destruct (same_file_disk w w1 Ew1) as [Ed1 _].
  unfold bind, modify. cbn [fst snd]. destruct (upd_parts p fid (fun f => set_buf f (disk w1 q)) Hlt) as (U1 & U2 & U3 & U4 & U5 & U6).
  intros H. assert (p' = upd p fid (fun f => set_buf f (disk w1 q)) /\ w' = w2) as [-> ->].
  { destruct (verify_checksum_bytes (disk w1 q)); injection H as _ <- <-; done. }
  split; [congruence|]. split; [exact U4|]. split; [exact U1|]. split; [exact U2|]. split; [exact U3|].
  exists (disk w1 q). split; [exact U6|]. split; [left; apply Ed1|]. intros _. apply Ed1.
Qed.

(** Changing the pin count of a frame. *)
Lemma repin_step p w fid g n :
  pool_inv p w -> (fid < frame_count p)%nat -> 0 <= n ->
  g (frame p fid) = set_ref (set_pin (frame p fid) n) (clock_ref (g (frame p fid))) ->
  pool_inv (upd p fid g) w /\ (forall q, view (upd p fid g) w q = view p w q) /\
  (pin_count (frame p fid) <= n -> keeps p w (upd p fid g) w).
Proof.
  intros [Hh Hsh Hm Ho Hf Hc Hd] Hlt Hn Hg. destruct (upd_parts p fid g Hlt) as (E1 & E2 & E3 & E4 & E5 & E6).
  assert (forall j, f_page (frame (upd p fid g) j) = f_page (frame p j) /\ f_state (frame (upd p fid g) j) = f_state (frame p j) /\
    f_buf (frame (upd p fid g) j) = f_buf (frame p j) /\ io_inflight (frame (upd p fid g) j) = io_inflight (frame p j)) as Hfr.
  { intros j. rewrite E6. case_decide as E; [subst j; by rewrite Hg|done]. }
  assert (forall q, view (upd p fid g) w q = view p w q) as Hview.
  { intros q. unfold view. rewrite E5. destruct (pt_lookup p q) as [[|j]|]; [done|apply Hfr|done]. }
  split; [split|split; [exact Hview|]].
  - by rewrite E1, E2.
  - by rewrite E4.
  - intros q e. rewrite E5. intros H. destruct (Hm q e H) as (Hq & j & -> & Hj & Hpg & Hs). split; [done|]. exists j.
    destruct (Hfr j) as (-> & -> & _). by rewrite E1.
  - intros j. rewrite E1, E5. destruct (Hfr j) as (-> & -> & _). apply Ho.
  - intros j. rewrite E1. intros Hj. destruct (Hf j Hj) as [F1 F2 F3]. destruct (Hfr j) as (G1 & G2 & G3 & G4).
    split; [by rewrite G1, G2, G4|by rewrite G3|]. rewrite E6. case_decide; [|done]. by rewrite Hg.
  - intros q j. rewrite E5. destruct (Hfr j) as (_ & -> & -> & _). apply Hc.
  - intros q Hq Hnd. apply Hd; [done|]. intros (j & H & Hs). apply Hnd. exists j. rewrite E5.
    by destruct (Hfr j) as (_ & -> & _).
  - intros Hle. split.
    + done.
    + intros q _. by rewrite Hview.
    + intros q j H Hp. rewrite E5. destruct (Hfr j) as (_ & _ & -> & _). split; [done|]. split; [done|].
      rewrite E6. case_decide; [|lia]. subst j. by rewrite Hg.
    + intros j Hj Hs. destruct (Hfr j) as (-> & -> & _). done.
    + unfold ra_ok. by rewrite E3.
Qed.

(** The pin counter has room for one more. *)
Definition pin_room (p : BufferPool) (q : Z) : Prop :=
  forall fid, pt_lookup p q = Some (Resident fid) -> pin_count (frame p fid) < U16_MAX.

Lemma pin_step p w q fid :
  pool_inv p w -> pt_lookup p q = Some (Resident fid) -> pin_room p q ->
  pool_inv (upd p fid pin) w /\ keeps p w (upd p fid pin) w /\ 0 < pin_count (frame (upd p fid pin) fid).
Proof.
  intros Hi Hm Hr. specialize (Hr fid Hm). destruct (pi_map _ _ Hi _ _ Hm) as (_ & x & [= <-] & Hlt & _).
  pose proof (fo_pin _ (pi_frame _ _ Hi fid Hlt)) as H0. unfold U16_MAX in Hr.
  assert (wrap 16 (pin_count (frame p fid) + 1) = pin_count (frame p fid) + 1) as Ew by (apply wrap_id; unfold uint; lia).
  destruct (repin_step p w fid pin (pin_count (frame p fid) + 1) Hi Hlt ltac:(lia)) as (H1 & _ & H2).
  { unfold pin. by rewrite Ew. }
  split; [exact H1|]. split; [apply H2; lia|]. rewrite frame_upd, decide_True by done. unfold pin. cbn. lia.
Qed.

Lemma counters_step p w h m e : pool_inv p w ->
  pool_inv (with_counters p h m e) w /\ keeps p w (with_counters p h m e) w.
Proof. intros Hi. apply inert; [done|done|apply Hi|done|done|]. intros j _. unfold same_core. done. Qed.

Lemma ghost_promote_step p w q : pool_inv p w -> pool_inv (ghost_promote p q) w /\ keeps p w (ghost_promote p q) w.
Proof.
  intros Hi. unfold ghost_promote. destruct (bool_decide _); [|split; [done|apply keeps_refl]].
  apply inert; [done|done|apply Hi|done|done|]. intros j _. unfold same_core. done.
Qed.

(** Publishing a loaded page or giving the frame up. *)
Lemma fix_publish p w fid q p2 w2 (p1 := upd (pt_insert p q Loading) fid (fun f => reserve f q)) r :
  pool_inv p w -> vacant p fid -> pt_lookup p q = None -> page_number q -> q <> 0 ->
  load_frame fid q (p1, w) = (r, (p2, w2)) ->
  (is_ok r = true -> let p3 := pt_insert (upd p2 fid (fun f => publish f 1 true)) q (Resident fid) in
     pool_inv p3 w2 /\ keeps p w p3 w2 /\ pt_lookup p3 q = Some (Resident fid) /\ pin_count (frame p3 fid) = 1) /\
  (let p3 := pt_remove (upd p2 fid reset) q in is_ok r = false -> pool_inv p3 w2 /\ keeps p w p3 w2).
Proof.
  intros Hi [Hlt Hst] Hq Hnum Hq0 Hload. pose proof (pi_shards _ _ Hi) as Hsh.
  assert (frame_count (pt_insert p q Loading) = frame_count p) as Ec0 by reflexivity.
  assert (length (shards p1) = SHARD_COUNT) as Hsh1.
  { unfold p1, upd, pt_insert. cbn [with_frames with_shards shards]. by rewrite length_alter. }
  assert (frame_count p1 = frame_count p) as Ec1 by (unfold p1; by rewrite frame_count_upd).
  destruct (load_frame_spec p1 w fid q r p2 w2 ltac:(lia) Hnum Hload) as (Ew & Es & Ec & Eh & Er & buf & Hfr & Hbuf & Hok).
  destruct (same_file_disk w w2 Ew) as [Ed _].
  assert (forall j, frame p1 j = if decide (j = fid) then reserve (frame p fid) q else frame p j) as Hfr1.
  { intros j. unfold p1. rewrite frame_upd by lia. done. }
  assert (forall x, pt_lookup p2 x = if decide (x = q) then Some Loading else pt_lookup p x) as Hl2.
  { intros x. unfold pt_lookup at 1. rewrite Es. fold (pt_lookup p1 x).
    change (pt_lookup p1 x) with (pt_lookup (pt_insert p q Loading) x). by apply pt_lookup_insert. }
  assert (length (shards p2) = SHARD_COUNT) as Hsh2 by (by rewrite Es).
  assert (forall g j, frame (upd p2 fid g) j = if decide (j = fid) then g (set_buf (reserve (frame p fid) q) buf) else frame p j) as Hfu.
  { intros g j. rewrite frame_upd by lia. rewrite !Hfr, !Hfr1. destruct (decide (fid = fid)) as [_|n]; [|by destruct n].
    by destruct (decide (j = fid)). }
  assert (length buf = PAGE_SIZE) as Hlb.
  { destruct Hbuf as [-> | ->]; [apply length_page_of|]. rewrite Hfr1. destruct (decide (fid = fid)) as [_|n]; [|by destruct n].
    exact (fo_buf _ (pi_frame _ _ Hi fid Hlt)). }
  split.
  - intros Hr p3. specialize (Hok Hr). subst buf.
    destruct (install p w p3 fid q (publish (set_buf (reserve (frame p fid) q) (disk w q)) 1 true) Hi Hlt (or_introl Hst)) as [H1 H2].
    + unfold p3. change (frame_count (pt_insert (upd p2 fid (fun f => publish f 1 true)) q (Resident fid)))
        with (frame_count (upd p2 fid (fun f => publish f 1 true))). rewrite frame_count_upd. lia.
    + exact Eh.
    + exact Er.
    + unfold p3, pt_insert, upd. cbn [with_frames with_shards shards]. by rewrite length_alter.
    + intros x. unfold p3. rewrite pt_lookup_insert by exact Hsh2.
      change (pt_lookup (upd p2 fid (fun f => publish f 1 true)) x) with (pt_lookup p2 x). rewrite Hl2. by case_decide.
    + intros j _. exact (Hfu (fun f => publish f 1 true) j).
    + exact Hq.
    + exact Hnum.
    + exact Hq0.
    + reflexivity.
    + reflexivity.
    + reflexivity.
    + cbn. lia.
    + split; [exact (inv_world _ _ _ Ew H1)|]. split.
      * eapply keeps_trans; [|exact (keeps_world p3 w w2 Ew)]. apply (keeps_one fid); [exact H2|]. rewrite Hst. discriminate.
      * split.
        -- unfold p3. rewrite pt_lookup_insert by exact Hsh2. by rewrite decide_True.
        -- change (frame p3 fid) with (frame (upd p2 fid (fun f => publish f 1 true)) fid). rewrite Hfu.
           by destruct (decide (fid = fid)).
  - intros p3 Hr.
    destruct (unmapped_update p w p3 fid (reset (set_buf (reserve (frame p fid) q) buf)) Hi Hlt (or_introl Hst)) as [H1 H2].
    + unfold p3. change (frame_count (pt_remove (upd p2 fid reset) q)) with (frame_count (upd p2 fid reset)).
      rewrite frame_count_upd. lia.
    + exact Eh.
    + exact Er.
    + unfold p3, pt_remove, upd. cbn [with_frames with_shards shards]. by rewrite length_alter.
    + intros x. unfold p3. rewrite pt_lookup_remove by exact Hsh2.
      change (pt_lookup (upd p2 fid reset) x) with (pt_lookup p2 x). rewrite Hl2. case_decide; [by subst|done].
    + intros j _. exact (Hfu reset j).
    + split; [done|exact Hlb|done].
    + by left.
    + split; [exact (inv_world _ _ _ Ew H1)|]. eapply keeps_trans; [|exact (keeps_world p3 w w2 Ew)].
      apply (keeps_one fid); [exact H2|]. rewrite Hst. discriminate.
Qed.

Lemma fix_page_spec p w q r p' w' :
  pool_inv p w -> cacheable q -> ra_ok p -> pin_room p q -> fix_page q (p, w) = (r, (p', w')) ->
  pool_inv p' w' /\ keeps p w p' w' /\
  (forall fid, r = Ok fid -> pt_lookup p' q = Some (Resident fid) /\ 0 < pin_count (frame p' fid)).
Proof using Hdw.
  intros Hi Hq Hra Hroom. assert (page_number q) as Hnum by (unfold cacheable, page_number in *; lia).
  unfold fix_page. destruct (Z.eqb_spec q 0) as [|Hq0].
  { intros [= <- <- <-]. split; [done|]. split; [apply keeps_refl|]. done. }
  unfold bind at 1, self. cbn [fst]. destruct (pt_lookup p q) as [[|fid]|] eqn:Em.
  - intros [= <- <- <-]. split; [done|]. split; [apply keeps_refl|]. done.
  - unfold bind, modify, ret. cbn [fst snd]. intros [= <- <- <-].
    destruct (pin_step p w q fid Hi Em Hroom) as (H1 & H2 & H3).
    destruct (counters_step (upd p fid pin) w (wrap 64 (hits p + 1)) (misses p) (evictions p) H1) as [H4 H5].
    split; [exact H4|]. split; [by eapply keeps_trans|]. intros f [= <-]. split; [exact Em|exact H3].
  - unfold bind at 1, modify at 1. cbn [fst snd].
    destruct (counters_step p w (hits p) (wrap 64 (misses p + 1)) (evictions p) Hi) as [Hi0 K0].
    fold (miss p) in Hi0, K0. unfold bind at 1.
    destruct (find_free_frame (miss p, w)) as [[fid|e] [p1 w1]] eqn:Ef;
      destruct (find_free_frame_spec _ _ _ _ _ Hi0 Ef) as (Hi1 & K1 & Hv);
      pose proof (keeps_trans _ _ _ _ _ _ K0 K1) as K01.
    2:{ intros [= <- <- <-]. split; [done|]. split; [done|done]. }
    specialize (Hv fid eq_refl). cbn in Hv. unfold bind at 1, self. cbn [fst].
    rewrite (find_free_unmapped _ _ _ _ _ q Hi0 Ef Em). unfold bind at 1, modify at 1. cbn [fst snd].
    pose proof (find_free_unmapped _ _ _ _ _ q Hi0 Ef Em) as Em1.
    unfold bind at 1, attempt at 1.
    destruct (load_frame fid q (upd (pt_insert p1 q Loading) fid (fun f => reserve f q), w1)) as [rl [p2 w2]] eqn:El.
    destruct (fix_publish p1 w1 fid q p2 w2 rl Hi1 Hv Em1 Hnum Hq0 El) as [Hgood Hbad].
    destruct rl as [[]|e].
    2:{ destruct (Hbad eq_refl) as [H1 H2]. unfold bind, modify, fail. cbn [fst snd]. intros [= <- <- <-].
        split; [exact H1|]. split; [by eapply keeps_trans|]. done. }
    destruct (Hgood eq_refl) as (Hi3 & K3 & Em3 & Hp3). clear Hgood Hbad.
    unfold bind at 1, modify at 1. cbn [fst snd]. set (p3 := pt_insert _ q (Resident fid)) in *.
    unfold bind at 1, modify at 1. cbn [fst snd]. destruct (ghost_promote_step p3 w2 q Hi3) as [Hi4 K4].
    unfold bind at 1, self. cbn [fst]. destruct (ra_record (readahead (ghost_promote p3 q)) q) as [pf ra] eqn:Er.
    assert (keeps p w (ghost_promote p3 q) w2) as K by (eapply keeps_trans; [exact K01|]; by eapply keeps_trans).
    destruct (ra_record_bound _ _ _ _ (k_ra _ _ _ _ K Hra) Hq Er) as [Hl Hpf].
    unfold bind at 1, modify at 1. cbn [fst snd].
    destruct (inert (ghost_promote p3 q) w2 (with_readahead (ghost_promote p3 q) ra) Hi4) as [Hi5 K5];
      [reflexivity|apply Hi4|reflexivity|intros _; unfold ra_ok; cbn; by rewrite Hl|intros j _; unfold same_core; done|].
    set (p5 := with_readahead (ghost_promote p3 q) ra) in *.
    assert (keeps p3 w2 p5 w2) as K35 by (by eapply keeps_trans).
    assert (forall p6 w6, pool_inv p6 w6 -> keeps p5 w2 p6 w6 -> pool_inv p6 w6 /\ keeps p w p6 w6 /\
      (forall f, Ok fid = Ok f :> result nat IoError -> pt_lookup p6 q = Some (Resident f) /\ 0 < pin_count (frame p6 f))) as Hend.
    { intros p6 w6 Hi6 K6. split; [done|]. pose proof (keeps_trans _ _ _ _ _ _ K35 K6) as K36.
      split; [eapply keeps_trans; [exact K01|]; by eapply keeps_trans|]. intros f [= <-].
      destruct (k_pinned _ _ _ _ K36 q fid Em3 ltac:(lia)) as (H1 & _ & H2). split; [done|lia]. }
    destruct pf as [start|].
    + destruct (Hpf start eq_refl) as [Hs0 Hs1]. unfold bind, ignore, ret.
      destruct (prefetch_range start MAX_PREFETCH_PAGES (p5, w2)) as [rp [p6 w6]] eqn:Ep. cbn [snd].
      destruct (prefetch_range_spec _ _ _ _ _ _ _ Hi5 Hs0 Hs1 Ep) as [Hi6 K6].
      intros [= <- <- <-]. by apply Hend.
    + unfold bind, ret. cbn [fst snd]. intros [= <- <- <-]. apply Hend; [done|apply keeps_refl].
Qed.

(** A hit adds one pin to the frame the page is in. *)
Lemma fix_page_hit p w q f0 fid p' w' :
  pool_inv p w -> pt_lookup p q = Some (Resident f0) -> pin_room p q ->
  fix_page q (p, w) = (Ok fid, (p', w')) ->
  fid = f0 /\ pin_count (frame p' fid) = pin_count (frame p fid) + 1.
Proof.
  intros Hi Hm Hr. destruct (pi_map _ _ Hi _ _ Hm) as (_ & x & [= <-] & Hlt & _).
  pose proof (fo_pin _ (pi_frame _ _ Hi f0 Hlt)). specialize (Hr f0 Hm). unfold U16_MAX in Hr.
  unfold fix_page. destruct (q =? 0); [done|]. unfold bind, self, modify, ret. cbn [fst snd]. rewrite Hm.
  intros [= <- <- <-]. split; [done|]. change (frame (hit (upd p f0 pin)) f0) with (frame (upd p f0 pin) f0).
  rewrite frame_upd by done. destruct (decide (f0 = f0)) as [_|n]; [|by destruct n].
  unfold pin. cbn [pin_count set_ref set_pin]. apply wrap_id. unfold uint. lia.
Qed.

(** ** Writing through a guard *)

Lemma guard_write_step p w q fid buf lsn :
  pool_inv p w -> pt_lookup p q = Some (Resident fid) -> length buf = PAGE_SIZE ->
  let p' := guard_write p fid buf lsn in
  pool_inv p' w /\ (forall r, pt_lookup p' r = pt_lookup p r) /\
  (forall r, view p' w r = if decide (r = q) then buf else view p w r) /\
  (forall j, pin_count (frame p' j) = pin_count (frame p j)) /\ (ra_ok p -> ra_ok p').
Proof.
  intros [Hh Hsh Hm Ho Hf Hc Hd] Hq Hl p'. destruct (Hm _ _ Hq) as (Hnum & x & [= <-] & Hlt & Hpg & Hs).
  destruct (upd_parts p fid (fun f => set_dirty (set_buf f buf) lsn) Hlt) as (E1 & E2 & E3 & E4 & E5 & E6).
  fold (guard_write p fid buf lsn) in E1, E2, E3, E4, E5, E6. fold p' in E1, E2, E3, E4, E5, E6.
  assert (forall r j, pt_lookup p r = Some (Resident j) -> r <> q -> j <> fid) as Hne.
  { intros r j H Hn ->. destruct (Hm _ _ H) as (_ & x & [= <-] & _ & Hpg' & _). congruence. }
  split; [split|split; [exact E5|split; [|split]]].
  - by rewrite E1, E2.
  - by rewrite E4.
  - intros r e. rewrite E5. intros H. destruct (Hm r e H) as (Hr & j & -> & Hj & Hpgj & Hsj). split; [done|]. exists j.
    rewrite E1, E6. case_decide as E; [subst j|done]. split; [done|]. split; [done|]. split; [exact Hpgj|by right].
  - intros j. rewrite E1, E5, E6. intros Hj. case_decide as E; [subst j|by apply Ho]. intros _. left.
    cbn [f_page set_dirty set_buf]. by rewrite Hpg.
  - intros j. rewrite E1, E6. intros Hj. case_decide as E; [subst j|by apply Hf]. destruct (Hf fid Hlt) as [F1 F2 F3].
    split; [|exact Hl|exact F3]. cbn. destruct Hs as [Es|Es]; by rewrite Es in F1.
  - intros r j. rewrite E5, E6. intros H. case_decide as E; [done|by apply Hc].
  - intros r Hr Hnd. apply Hd; [done|]. intros (j & H & Hsj). apply Hnd. exists j. rewrite E5, E6. split; [done|]. by case_decide.
  - intros r. unfold view. rewrite E5. case_decide as E.
    + subst r. rewrite Hq, E6. by destruct (decide (fid = fid)).
    + destruct (pt_lookup p r) as [[|j]|] eqn:Er; [done| |done]. rewrite E6. rewrite decide_False; [done|]. by eapply Hne.
  - intros j. rewrite E6. by case_decide; [subst|].
  - unfold ra_ok. by rewrite E3.
Qed.

Lemma unfix_step p w fid :
  pool_inv p w -> (fid < frame_count p)%nat -> 0 < pin_count (frame p fid) ->
  pool_inv (unfix_page p fid) w /\ (forall q, view (unfix_page p fid) w q = view p w q) /\
  (forall q, pt_lookup (unfix_page p fid) q = pt_lookup p q) /\
  (forall j, pin_count (frame (unfix_page p fid) j) = pin_count (frame p j) - (if decide (j = fid) then 1 else 0)) /\
  (ra_ok p -> ra_ok (unfix_page p fid)).
Proof.
  intros Hi Hlt Hp. unfold unfix_page.
  destruct (repin_step p w fid (fun f => set_pin f (Z.max 0 (pin_count f - 1))) (Z.max 0 (pin_count (frame p fid) - 1)) Hi Hlt
    ltac:(lia)) as (H1 & H2 & _); [by destruct (frame p fid)|].
  split; [exact H1|]. split; [exact H2|]. split; [reflexivity|]. split; [|done]. intros j. rewrite frame_upd by done.
  case_decide; [subst j; cbn; lia|lia].
Qed.

(** ** Flushing everything *)

Definition flushable (p : BufferPool) (fid : nat) : Prop :=
  (fid < frame_count p)%nat /\ f_state (frame p fid) = FDirty /\ pin_count (frame p fid) = 0 /\
  io_inflight (frame p fid) = false.

Lemma flush_list_spec l p w r p' w' :
  pool_inv p w -> NoDup l -> (forall fid, fid ∈ l -> flushable p fid) -> flush_list l (p, w) = (r, (p', w')) ->
  pool_inv p' w' /\ keeps p w p' w' /\ shards p' = shards p /\
  (forall j, (j < frame_count p)%nat -> j ∉ l -> frame p' j = frame p j) /\
  (is_ok r = true -> forall fid, fid ∈ l -> f_state (frame p' fid) = FClean).
Proof using Hdw.
  revert p w. induction l as [|fid l IH]; intros p w Hi Hnd Hl; cbn [flush_list].
  { intros [= <- <- <-]. split; [done|]. split; [apply keeps_refl|]. split; [done|]. split; [done|].
    intros _ fid H. by apply not_elem_of_nil in H. }
  apply NoDup_cons in Hnd as [Hfid Hnd]. destruct (Hl fid ltac:(left)) as (Hlt & Hst & Hpin & Hio).
  unfold bind. destruct (flush_single_frame fid (p, w)) as [r1 [p1 w1]] eqn:E.
  destruct (flush_dirty p w fid _ _ _ Hi Hlt Hst E) as [[Hi1 K1 _ Hsh1 Hoth1 _] Hok1].
  assert (forall j, j ∈ l -> frame p1 j = frame p j) as Hsame.
  { intros j Hj. destruct (Hl j ltac:(by right)) as (Hj' & _). apply Hoth1; [done|]. by intros ->. }
  destruct r1 as [[]|e].
  - intros H. destruct (IH p1 w1 Hi1 Hnd) with (2 := H) as (Hi2 & K2 & Hsh2 & Hoth2 & Hok2).
    { intros j Hj. unfold flushable. rewrite (Hsame j Hj), (k_count _ _ _ _ K1). apply Hl. by right. }
    split; [done|]. split; [by eapply keeps_trans|]. split; [congruence|]. split.
    + intros j Hj Hn. apply not_elem_of_cons in Hn as [Hne Hn].
      rewrite Hoth2 by (done || by rewrite (k_count _ _ _ _ K1)). by apply Hoth1.
    + intros Hr j [->|Hj]%elem_of_cons; [|by apply Hok2].
      rewrite Hoth2 by (done || by rewrite (k_count _ _ _ _ K1)). by apply Hok1.
  - intros [= <- <- <-]. split; [done|]. split; [done|]. split; [done|]. split; [|done].
    intros j Hj Hn. apply not_elem_of_cons in Hn as [Hne Hn]. by apply Hoth1.
Qed.

Lemma dirty_candidates_spec p fid :
  (forall j, (j < frame_count p)%nat -> 0 <= pin_count (frame p j)) ->
  fid ∈ dirty_candidates p <-> flushable p fid.
Proof.
  intros Hp.
  unfold dirty_candidates, flushable. rewrite list_elem_of_In, filter_In, in_seq, !andb_true_iff, bool_decide_eq_true, !negb_true_iff.
  unfold is_pinned. rewrite Z.ltb_ge. split.
  - intros (Hlt & (Hs & Hpin) & Hio). specialize (Hp fid ltac:(lia)). split; [lia|]. split; [done|]. split; [lia|done].
  - intros (Hlt & Hs & Hpin & Hio). split; [lia|]. split; [|done]. split; [done|lia].
Qed.

Lemma flush_all_spec p w r p' w' :
  pool_inv p w -> flush_all (p, w) = (r, (p', w')) ->
  pool_inv p' w' /\ keeps p w p' w' /\
  (is_ok r = true -> forall q, dirty_page p' q -> exists fid, pt_lookup p q = Some (Resident fid) /\
     f_state (frame p fid) = FDirty /\ (0 < pin_count (frame p fid) \/ io_inflight (frame p fid) = true)).
Proof using Hdw.
  intros Hi. unfold flush_all, bind, self. cbn [fst]. intros H.
  assert (forall j, (j < frame_count p)%nat -> 0 <= pin_count (frame p j)) as Hp
    by (intros j Hj; exact (fo_pin _ (pi_frame _ _ Hi j Hj))).
  destruct (flush_list_spec (dirty_candidates p) p w r p' w' Hi) with (3 := H) as (Hi' & K & Hsh & Hoth & Hok).
  - apply NoDup_ListNoDup, List.NoDup_filter, NoDup_ListNoDup, NoDup_seq.
  - intros fid. by apply dirty_candidates_spec.
  - split; [done|]. split; [done|]. intros Hr q (fid & Hm & Hs).
    assert (pt_lookup p q = Some (Resident fid)) as Hm0 by (unfold pt_lookup in *; by rewrite <- Hsh).
    exists fid. split; [done|]. destruct (pi_map _ _ Hi _ _ Hm0) as (_ & x & [= <-] & Hlt & _).
    destruct (decide (fid ∈ dirty_candidates p)) as [Hin|Hn].
    { specialize (Hok Hr fid Hin). rewrite Hok in Hs. discriminate Hs. }
    rewrite (Hoth fid Hlt Hn) in Hs. split; [done|].
    destruct (decide (pin_count (frame p fid) = 0)) as [E|E]; [|left; specialize (Hp fid Hlt); lia]. right.
    destruct (io_inflight (frame p fid)) eqn:Eio; [done|]. exfalso. apply Hn. by apply dirty_candidates_spec.
Qed.

(** ** Runs of the pool

    [M] is the content each page should have, [G] the guards held, as pages and
    frames.  Every call may fail at any I/O step. *)

Definition guards_on (G : list (Z * nat)) (fid : nat) : Z :=
  Z.of_nat (length (List.filter (fun g => bool_decide (g.2 = fid)) G)).

Inductive pool_run (w0 : World) (n : nat) : (Z -> list Z) -> list (Z * nat) -> BufferPool -> World -> Prop :=
| run_start : pool_run w0 n (disk w0) [] (pool_new n) w0
| run_fix M G p w q fid p' w' : pool_run w0 n M G p w -> cacheable q -> pin_room p q ->
    fix_page q (p, w) = (Ok fid, (p', w')) -> pool_run w0 n M ((q, fid) :: G) p' w'
| run_fix_failed M G p w q e p' w' : pool_run w0 n M G p w -> cacheable q -> pin_room p q ->
    fix_page q (p, w) = (Err e, (p', w')) -> pool_run w0 n M G p' w'
| run_write M G p w q fid buf lsn : pool_run w0 n M G p w -> (q, fid) ∈ G -> length buf = PAGE_SIZE ->
    pool_run w0 n (fun r => if decide (r = q) then buf else M r) G (guard_write p fid buf lsn) w
| run_unfix M G1 G2 p w q fid : pool_run w0 n M (G1 ++ (q, fid) :: G2) p w ->
    pool_run w0 n M (G1 ++ G2) (unfix_page p fid) w
| run_flush M G p w r p' w' : pool_run w0 n M G p w -> flush_all (p, w) = (r, (p', w')) -> pool_run w0 n M G p' w'
| run_prefetch M G p w start k r p' w' : pool_run w0 n M G p w -> 0 <= start -> start + Z.of_nat k <= 2 ^ 51 ->
    prefetch_range start k (p, w) = (r, (p', w')) -> pool_run w0 n M G p' w'.

Record run_inv (M : Z -> list Z) (G : list (Z * nat)) (p : BufferPool) (w : World) : Prop := {
  ri_inv : pool_inv p w;
  ri_ra : ra_ok p;
  ri_view : forall q, page_number q -> norm (view p w q) = norm (M q);
  ri_guard : forall q fid, (q, fid) ∈ G -> pt_lookup p q = Some (Resident fid);
  ri_pins : forall q fid, (q, fid) ∈ G -> guards_on G fid <= pin_count (frame p fid)
}.

Lemma guards_on_pos G q fid : (q, fid) ∈ G -> 0 < guards_on G fid.
Proof.
  intros H. unfold guards_on. destruct (List.filter _ G) eqn:E; [|cbn; lia]. exfalso.
  assert (In (q, fid) (List.filter (fun g => bool_decide (g.2 = fid)) G)) as Hin.
  { apply filter_In. split; [by apply list_elem_of_In|]. by apply bool_decide_eq_true. }
  by rewrite E in Hin.
Qed.

Lemma guards_on_cons q fid G j : guards_on ((q, fid) :: G) j = guards_on G j + (if decide (fid = j) then 1 else 0).
Proof. unfold guards_on. cbn. case_bool_decide; [rewrite decide_True by done; cbn [length]; lia|rewrite decide_False by done; lia]. Qed.

Lemma guards_on_mid G1 q fid G2 j :
  guards_on (G1 ++ (q, fid) :: G2) j = guards_on (G1 ++ G2) j + (if decide (fid = j) then 1 else 0).
Proof.
  pose proof (guards_on_cons q fid G2 j) as H. unfold guards_on in *. rewrite !List.filter_app, !length_app.
  cbn [List.filter] in H. revert H. cbn [List.filter]. case_decide; lia.
Qed.

Lemma run_inv_keeps M G p w p' w' :
  run_inv M G p w -> pool_inv p' w' -> keeps p w p' w' -> run_inv M G p' w'.
Proof.
  intros [Hi Hra Hv Hg Hp] Hi' K. split.
  - done.
  - exact (k_ra _ _ _ _ K Hra).
  - intros q Hq. by rewrite (k_view _ _ _ _ K q Hq), Hv.
  - intros q fid Hin. pose proof (guards_on_pos _ _ _ Hin). specialize (Hp q fid Hin).
    by destruct (k_pinned _ _ _ _ K q fid (Hg q fid Hin) ltac:(lia)) as [H1 _].
  - intros q fid Hin. pose proof (guards_on_pos _ _ _ Hin). specialize (Hp q fid Hin).
    destruct (k_pinned _ _ _ _ K q fid (Hg q fid Hin) ltac:(lia)) as (_ & _ & H1). lia.
Qed.

Lemma pt_lookup_new n q : pt_lookup (pool_new n) q = None.
Proof.
  unfold pt_lookup, pool_new. cbn [shards]. rewrite lookup_replicate_2 by apply shard_index_lt.
  rewrite Some_bind. apply lookup_empty.
Qed.

Lemma pool_new_inv n w : (0 < n)%nat -> (forall q, page_number q -> page_of (durable_file w) q = disk w q) ->
  pool_inv (pool_new n) w.
Proof.
  intros Hn Hd. pose proof (pt_lookup_new n) as Hl.
  assert (frame_count (pool_new n) = n) as Hc by (unfold frame_count, pool_new; cbn [frames]; apply length_replicate).
  assert (forall fid, (fid < n)%nat -> frame (pool_new n) fid = frame_new) as Hf.
  { intros fid Hlt. unfold frame, pool_new. cbn [frames]. by rewrite lookup_replicate_2. }
  split.
  - by rewrite Hc.
  - unfold pool_new. cbn [shards]. apply length_replicate.
  - intros q e. by rewrite Hl.
  - intros fid. rewrite Hc. intros Hlt. rewrite (Hf fid Hlt). done.
  - intros fid. rewrite Hc. intros Hlt. rewrite (Hf fid Hlt). split; [done|apply length_replicate|done].
  - intros q fid. by rewrite Hl.
  - intros q Hq _. by apply Hd.
Qed.

Lemma run_inv_fix M G p w q fid p' w' :
  run_inv M G p w -> cacheable q -> pin_room p q -> fix_page q (p, w) = (Ok fid, (p', w')) ->
  run_inv M ((q, fid) :: G) p' w'.
Proof using Hdw.
  intros HI Hq Hr E. pose proof HI as [Hi Hra _ Hg Hp].
  destruct (fix_page_spec p w q _ p' w' Hi Hq Hra Hr E) as (Hi' & K & Hfix).
  destruct (Hfix fid eq_refl) as [Hm' Hpin']. destruct (run_inv_keeps M G p w p' w' HI Hi' K) as [I1 I2 I3 I4 I5].
  split; [done|done|done| |].
  - intros r f [[= -> ->]|Hin]%elem_of_cons; [done|by apply I4].
  - assert (forall r, (r, fid) ∈ G -> guards_on G fid + 1 <= pin_count (frame p' fid)) as Hself.
    { intros r Hin. pose proof (I4 r fid Hin) as Hm1.
      destruct (pi_map _ _ Hi' _ _ Hm') as (_ & x & [= <-] & _ & Hpg & _).
      destruct (pi_map _ _ Hi' _ _ Hm1) as (_ & x & [= <-] & _ & Hpg1 & _).
      assert (r = q) as -> by congruence.
      destruct (fix_page_hit p w q fid fid p' w' Hi (Hg q fid Hin) Hr E) as [_ ->].
      specialize (Hp q fid Hin). lia. }
    intros r f. rewrite guards_on_cons. intros [[= -> ->]|Hin]%elem_of_cons.
    + rewrite decide_True by done. destruct (decide (guards_on G fid = 0)) as [->|Hne]; [lia|].
      assert (exists r, (r, fid) ∈ G) as [r Hin]; [|by eapply Hself].
      unfold guards_on in Hne. destruct (List.filter _ G) as [|[r f] l] eqn:Ef; [done|].
      assert (In (r, f) (List.filter (fun g => bool_decide (g.2 = fid)) G)) as Hin by (rewrite Ef; by left).
      apply filter_In in Hin as [Hin Hb%bool_decide_eq_true]. cbn in Hb. subst f. exists r. by apply list_elem_of_In.
    + destruct (decide (fid = f)) as [->|]; [by eapply Hself|]. rewrite Z.add_0_r. by eapply I5.
Qed.

Lemma run_inv_write M G p w q fid buf lsn :
  run_inv M G p w -> (q, fid) ∈ G -> length buf = PAGE_SIZE ->
  run_inv (fun r => if decide (r = q) then buf else M r) G (guard_write p fid buf lsn) w.
Proof.
  intros [Hi Hra Hv Hg Hp] Hin Hl.
  destruct (guard_write_step p w q fid buf lsn Hi (Hg q fid Hin) Hl) as (H1 & H2 & H3 & H4 & H5). split.
  - done.
  - by apply H5.
  - intros r Hr. rewrite H3. case_decide; [done|by apply Hv].
  - intros r f Hf. rewrite H2. by apply Hg.
  - intros r f Hf. rewrite H4. by eapply Hp.
Qed.

Lemma run_inv_unfix M G1 G2 p w q fid :
  run_inv M (G1 ++ (q, fid) :: G2) p w -> run_inv M (G1 ++ G2) (unfix_page p fid) w.
Proof.
  intros [Hi Hra Hv Hg Hp]. assert ((q, fid) ∈ G1 ++ (q, fid) :: G2) as Hin by set_solver.
  assert (forall g, g ∈ G1 ++ G2 -> g ∈ G1 ++ (q, fid) :: G2) as Hsub by set_solver.
  pose proof (guards_on_pos _ _ _ Hin) as Hpos. pose proof (Hp q fid Hin) as Hpin.
  destruct (pi_map _ _ Hi _ _ (Hg q fid Hin)) as (_ & x & [= <-] & Hlt & _).
  destruct (unfix_step p w fid Hi Hlt ltac:(lia)) as (H1 & H2 & H3 & H4 & H5). split.
  - done.
  - by apply H5.
  - intros r Hr. rewrite H2. by apply Hv.
  - intros r f Hf. rewrite H3. by apply Hg, Hsub.
  - intros r f Hf. rewrite H4. specialize (Hp r f (Hsub _ Hf)). rewrite guards_on_mid in Hp.
    destruct (decide (fid = f)), (decide (f = fid)); try congruence; lia.
Qed.

Lemma pool_run_inv w0 n M G p w :
  (0 < n)%nat -> (forall q, page_number q -> page_of (durable_file w0) q = disk w0 q) ->
  pool_run w0 n M G p w -> run_inv M G p w.
Proof using Hdw.
  intros Hn Hd. induction 1 as [|M G p w q fid p' w' _ IH Hq Hr E|M G p w q e p' w' _ IH Hq Hr E|M G p w q fid buf lsn _ IH Hin Hl
    |M G1 G2 p w q fid _ IH|M G p w r p' w' _ IH E|M G p w start k r p' w' _ IH H0 Hk E].
  - split.
    + by apply pool_new_inv.
    + split; cbn; lia.
    + intros q _. unfold view. by rewrite pt_lookup_new.
    + by intros q fid ?%not_elem_of_nil.
    + by intros q fid ?%not_elem_of_nil.
  - by apply (run_inv_fix M G p w q fid p' w').
  - destruct (fix_page_spec p w q _ p' w' (ri_inv _ _ _ _ IH) Hq (ri_ra _ _ _ _ IH) Hr E) as (Hi' & K & _).
    by apply (run_inv_keeps M G p w).
  - by apply run_inv_write with (q := q).
  - by apply run_inv_unfix with (q := q).
  - destruct (flush_all_spec p w r p' w' (ri_inv _ _ _ _ IH) E) as (Hi' & K & _). by apply (run_inv_keeps M G p w).
  - destruct (prefetch_range_spec start k p w r p' w' (ri_inv _ _ _ _ IH) H0 Hk E) as [Hi' K].
    by apply (run_inv_keeps M G p w).
Qed.

(** C25: the buffer pool is transparent.  Start from an empty pool over a synced
    data file and run any sequence of fixes, guarded writes, unfixes, flushes and
    prefetches, with any I/O error at any point (torn in-place writes included).
    Then every guard held shows the last content written to its page (or the
    original page of the data file), up to the checksum field; two guards on
    the same frame are for the same page; every page that is not dirty has that
    content durably on disk; and a flush that succeeds leaves dirty only pages
    whose frame was pinned or had I/O in flight. *)
Theorem pool_transparent (w0 w : World) (n : nat) (M : Z -> list Z) (G : list (Z * nat)) (p : BufferPool) :
  (0 < n)%nat -> (forall q, page_number q -> page_of (durable_file w0) q = disk w0 q) ->
  pool_run w0 n M G p w ->
  (forall q fid, (q, fid) ∈ G -> f_page (frame p fid) = q /\ norm (f_buf (frame p fid)) = norm (M q)) /\
  (forall q, page_number q -> ~ dirty_page p q -> norm (page_of (durable_file w) q) = norm (M q)) /\
  (forall r p' w', flush_all (p, w) = (r, (p', w')) -> is_ok r = true -> forall q, dirty_page p' q ->
     exists fid, pt_lookup p q = Some (Resident fid) /\
       (0 < pin_count (frame p fid) \/ io_inflight (frame p fid) = true)).
Proof using Hdw.
  intros Hn Hd Hrun. destruct (pool_run_inv w0 n M G p w Hn Hd Hrun) as [Hi Hra Hv Hg Hp]. split; [|split].
  - intros q fid Hin. pose proof (Hg q fid Hin) as Hm. destruct (pi_map _ _ Hi _ _ Hm) as (Hq & x & [= <-] & _ & Hpg & _).
    split; [done|]. rewrite <- (Hv q Hq). unfold view. by rewrite Hm.
  - intros q Hq Hnd. rewrite <- (Hv q Hq), (pi_durable _ _ Hi q Hq Hnd). unfold view.
    destruct (pt_lookup p q) as [[|fid]|] eqn:E; [done| |done].
    destruct (pi_map _ _ Hi _ _ E) as (_ & x & [= <-] & _ & _ & Hs). rewrite (pi_clean _ _ Hi q fid E); [done|].
    destruct Hs as [|Hs]; [done|]. exfalso. apply Hnd. by exists fid.
  - intros r p' w' E Hr q Hq. destruct (flush_all_spec p w r p' w' Hi E) as (_ & _ & H).
    destruct (H Hr q Hq) as (fid & H1 & _ & H2). by exists fid.
Qed.

(** ** Progress of the sweep *)

(** A world without faults ahead, with the data file in place. *)
Definition calm (p : BufferPool) (w : World) : Prop :=
  script w = [] /\ is_Some (files w !! data_path) /\ io_failed p = false.

Lemma clear_quiet {T} (s : T) d w : script w = [] ->
  exists w', clear d (s, w) = (Ok tt, (s, w')) /\ script w' = [].
Proof.
  intros Hs. unfold clear, bind, lift. cbn [fst snd].
  assert (exists w1 f, fs_open d true w = (Ok tt, w1) /\ script w1 = [] /\ files w1 !! d = Some f) as (w1 & f & -> & Hs1 & Hf1).
  { unfold fs_open. rewrite next_outcome_quiet by done. destruct (files w !! d) as [f|] eqn:E; [by exists w, f|].
    eexists _, _. split; [done|]. split; [done|apply set_file_files]. }
  cbn [fst snd]. rewrite (quiet_set_len d w1 f) by done. cbn [fst snd].
  erewrite (quiet_sync d) by (done || apply set_file_files). cbn [fst snd]. eexists. split; [reflexivity|]. by rewrite !set_file_script.
Qed.

Lemma stage_quiet {S} (s : S) pages w : script w = [] ->
  exists w', match doublewrite with Some dw => write_batch dw pages | None => ret tt end (s, w) = (Ok tt, (s, w')) /\ script w' = [].
Proof.
  intros Hs. destruct doublewrite as [d|]; [|by exists w].
  destruct (write_batch_quiet s d pages w Hs) as (w' & H1 & H2 & _). by exists w'.
Qed.

Lemma unstage_quiet {S} (s : S) w : script w = [] ->
  exists w', match doublewrite with Some dw => ignore (clear dw) | None => ret tt end (s, w) = (Ok tt, (s, w')) /\ script w' = [].
Proof.
  intros Hs. destruct doublewrite as [d|]; [|by exists w]. destruct (clear_quiet s d w Hs) as (w' & H1 & H2).
  exists w'. unfold ignore. by rewrite H1.
Qed.

Lemma flush_calm p w fid : calm p w -> flushable p fid -> f_page (frame p fid) <> 0 ->
  exists p' w', flush_single_frame fid (p, w) = (Ok tt, (p', w')) /\ calm p' w'.
Proof using Hdw.
  intros (Hs & [f Hf] & Hfail) (Hlt & Hst & Hpin & Hio) Hpg. unfold flush_single_frame.
  unfold bind at 1, self. cbn [fst]. destruct (Z.eqb_spec (f_page (frame p fid)) 0) as [|_]; [done|].
  rewrite Hfail, Hio. unfold bind at 1, modify at 1. cbn [fst snd]. unfold is_pinned. rewrite Hpin.
  change (0 <? 0) with false. cbv iota. unfold bind at 1, modify at 1. cbn [fst snd].
  set (p1 := upd (upd p fid _) fid _). set (buf := update_checksum_bytes _). set (q := f_page _).
  unfold bind at 1. destruct (stage_quiet p1 [(q, buf)] w Hs) as (w1 & E1 & Hs1). rewrite E1.
  destruct (leaves_stage [(q, buf)] _ _ _ _ _ E1) as [_ Ef1].
  assert (files w1 !! data_path = Some f) as Hf1 by congruence.
  unfold bind at 1, lift at 1. cbn [fst snd]. rewrite (quiet_open data_path w1 f) by done.
  unfold bind at 1, lift at 1. cbn [fst snd]. rewrite (quiet_write data_path w1 f) by done.
  unfold bind at 1, attempt, lift at 1. cbn [fst snd]. erewrite (quiet_sync data_path) by (done || apply set_file_files).
  match goal with |- context [set_file ?w ?a ?b] => set (w3 := set_file w a b) end.
  assert (script w3 = []) as Hs3 by done.
  unfold bind at 1. destruct (unstage_quiet p1 w3 Hs3) as (w4 & E4 & Hs4). rewrite E4.
  destruct (leaves_unstage _ _ _ _ _ E4) as [_ Ef4]. unfold modify. cbn [fst snd]. eexists _, _. split; [reflexivity|].
  split; [done|]. split; [|exact Hfail]. rewrite Ef4. eexists. apply set_file_files.
Qed.

(** Frame [j] can be reclaimed; [effort] is how many visits of the hand it takes
    before the one that takes it. *)
Definition reclaimable (p : BufferPool) (j : nat) : Prop :=
  (j < frame_count p)%nat /\ pin_count (frame p j) = 0 /\ io_inflight (frame p j) = false /\
  f_state (frame p j) <> FLoading /\ f_state (frame p j) <> FFlushing.

Definition effort (f : Frame) : nat :=
  match f_state f with
  | FDirty => if clock_ref f then 2 else 1
  | _ => 0
  end.

Definition dist (p : BufferPool) (j : nat) : nat := ((j + frame_count p - clock_hand p) mod frame_count p)%nat.

Definition potential (p : BufferPool) (j : nat) : nat := (effort (frame p j) * frame_count p + dist p j)%nat.

Lemma dist_step p j : (0 < frame_count p)%nat -> (clock_hand p < frame_count p)%nat -> (j < frame_count p)%nat ->
  let p' := with_hand p ((clock_hand p + 1) mod frame_count p) in
  (clock_hand p = j /\ dist p j = 0%nat /\ dist p' j = (frame_count p - 1)%nat) \/
  (clock_hand p <> j /\ dist p j = S (dist p' j)).
Proof.
  intros H0 Hh Hj p'. unfold dist. change (frame_count p') with (frame_count p).
  change (clock_hand p') with ((clock_hand p + 1) mod frame_count p)%nat.
  set (c := frame_count p) in *. set (h := clock_hand p) in *.
  assert (forall x, (x < 2 * c)%nat -> (x mod c = if x <? c then x else x - c)%nat) as Hmod.
  { intros x Hx. destruct (Nat.ltb_spec x c); [by apply Nat.mod_small|].
    symmetry. apply (Nat.mod_unique x c 1); lia. }
  assert (((h + 1) mod c = if h + 1 =? c then 0 else h + 1)%nat) as ->.
  { rewrite Hmod by lia. destruct (Nat.ltb_spec (h + 1) c), (Nat.eqb_spec (h + 1) c); lia. }
  rewrite !Hmod by (destruct (Nat.eqb_spec (h + 1) c); lia).
  destruct (Nat.eqb_spec (h + 1) c), (Nat.ltb_spec (j + c - h) c); destruct (decide (h = j));
    repeat match goal with |- context [(?a <? ?b)%nat] => destruct (Nat.ltb_spec a b) end; try lia.
Qed.

(** One step of the hand towards frame [j]: the potential drops by one. *)
Lemma potential_step p p2 j (p1 := with_hand p ((clock_hand p + 1) mod frame_count p)) :
  (clock_hand p < frame_count p)%nat -> reclaimable p j ->
  frame_count p2 = frame_count p -> clock_hand p2 = clock_hand p1 ->
  (clock_hand p = j -> effort (frame p j) = S (effort (frame p2 j)) /\ pin_count (frame p2 j) = 0 /\
     io_inflight (frame p2 j) = false /\ f_state (frame p2 j) <> FLoading /\ f_state (frame p2 j) <> FFlushing) ->
  (clock_hand p <> j -> frame p2 j = frame p j) ->
  reclaimable p2 j /\ potential p j = S (potential p2 j).
Proof.
  intros Hh (Hlt & Hpin & Hio & Hl & Hf) Ec Eh Hself Hoth.
  assert (dist p2 j = dist p1 j) as Ed by (unfold dist; rewrite Ec, Eh; reflexivity).
  unfold reclaimable, potential. rewrite Ec, Ed.
  destruct (dist_step p j ltac:(lia) Hh Hlt) as [(E & D0 & D1)|(E & D)].
  - fold p1 in D1. destruct (Hself E) as (He & H1 & H2 & H3 & H4). rewrite D0, D1, He. split; [done|]. cbn [Nat.mul]. lia.
  - fold p1 in D. rewrite (Hoth E), D. split; [done|]. lia.
Qed.

Lemma sweep_progress n p w j :
  pool_inv p w -> calm p w -> reclaimable p j ->
  exists r p' w', clock_sweep n (p, w) = (Ok r, (p', w')) /\
    (is_Some r \/ (r = None /\ pool_inv p' w' /\ calm p' w' /\ reclaimable p' j /\ potential p j = (n + potential p' j)%nat)).
Proof using Hdw.
  revert p w. induction n as [|n IH]; intros p w Hi Hcalm Hrec.
  { exists None, p, w. split; [reflexivity|]. right. done. }
  pose proof (pi_hand _ _ Hi) as Hlt. cbn [clock_sweep]. unfold bind at 1, self. cbn [fst].
  unfold bind at 1, modify at 1. cbn [fst snd].
  destruct (with_hand_step p w ((clock_hand p + 1) mod frame_count p) Hi (mod_count p (clock_hand p + 1) ltac:(lia))) as [Hi1 _].
  pose proof (potential_step p) as Hpot. cbv zeta in Hpot.
  set (p1 := with_hand p ((clock_hand p + 1) mod frame_count p)) in *. set (idx := clock_hand p) in *.
  assert (forall p2 w2, pool_inv p2 w2 -> calm p2 w2 -> reclaimable p2 j /\ potential p j = S (potential p2 j) ->
    exists r p' w', clock_sweep n (p2, w2) = (Ok r, (p', w')) /\
    (is_Some r \/ (r = None /\ pool_inv p' w' /\ calm p' w' /\ reclaimable p' j /\ potential p j = (S n + potential p' j)%nat))) as Hgo.
  { intros p2 w2 Hi2 Hc2 [Hr2 Hp2]. destruct (IH p2 w2 Hi2 Hc2 Hr2) as (r & p' & w' & E & Hres). exists r, p', w'. split; [exact E|].
    destruct Hres as [|(H1 & H2 & H3 & H4 & H5)]; [by left|right]. split; [done|]. split; [done|]. split; [done|]. split; [done|]. lia. }
  assert (idx = j -> is_pinned (frame p idx) || io_inflight (frame p idx) = false /\
    f_state (frame p idx) <> FLoading /\ f_state (frame p idx) <> FFlushing) as Hself.
  { intros ->. destruct Hrec as (_ & E1 & E2 & E3 & E4). unfold is_pinned. by rewrite E1, E2. }
  destruct (is_pinned (frame p idx) || io_inflight (frame p idx)) eqn:Eb.
  { apply Hgo; [exact Hi1|exact Hcalm|]. apply (Hpot p1 j Hlt Hrec eq_refl eq_refl).
    - intros E. by destruct (Hself E).
    - intros _. reflexivity. }
  apply orb_false_iff in Eb as [Ep%Z.ltb_ge Eio]. pose proof (fo_pin _ (pi_frame _ _ Hi idx Hlt)) as Hp0.
  destruct (f_state (frame p idx)) eqn:Es.
  1,2: eexists _, _, _; split; [reflexivity|left; eauto].
  - destruct (clock_ref (frame p idx)) eqn:Er.
    + unfold bind at 1, modify at 1. cbn [fst snd]. apply Hgo; [by apply set_ref_step|exact Hcalm|].
      apply (Hpot _ j Hlt Hrec); [exact (frame_count_upd p1 idx _)|reflexivity|..].
      * intros E. change (frame p1 j) with (frame p j). rewrite frame_upd by exact Hlt. rewrite <- E. unfold effort.
        destruct (decide (idx = idx)) as [_|n0]; [|by destruct n0]. change (frame p1 idx) with (frame p idx).
        cbn [set_ref f_state clock_ref pin_count io_inflight]. rewrite Es, Er. repeat (split; [done || lia|]). done.
      * intros E. rewrite frame_upd by exact Hlt. rewrite decide_False by congruence. reflexivity.
    + assert (flushable p1 idx) as Hfl by (split; [exact Hlt|]; split; [exact Es|]; split; [change (frame p1 idx) with (frame p idx); lia|exact Eio]).
      assert (f_page (frame p1 idx) <> 0) as Hpg.
      { pose proof (fo_state _ (pi_frame _ _ Hi idx Hlt)) as H. rewrite Es in H. exact H. }
      destruct (flush_calm p1 w idx Hcalm Hfl Hpg) as (p2 & w2 & E2 & Hc2). unfold bind at 1. rewrite E2.
      destruct (flush_dirty p1 w idx _ p2 w2 Hi1 Hlt Es E2) as [[Hi2 K2 Hh2 _ Hoth2 [_ [Hpin2 _]]] Hok2].
      destruct Hfl as (_ & _ & Hpin & Hio). destruct (Hok2 eq_refl Hpin Hio) as [Hcl Hio2].
      apply Hgo; [exact Hi2|exact Hc2|]. apply (Hpot p2 j Hlt Hrec); [exact (k_count _ _ _ _ K2)|exact Hh2|..].
      * intros E. rewrite <- E. unfold effort. rewrite Es, Er, Hcl, Hpin2, Hpin, Hio2. done.
      * intros E. rewrite Hoth2; [reflexivity|exact (proj1 Hrec)|congruence].
  - apply Hgo; [exact Hi1|exact Hcalm|]. apply (Hpot p1 j Hlt Hrec eq_refl eq_refl).
    + intros E. by destruct (Hself E) as (_ & _ & ?).
    + intros _. reflexivity.
  - apply Hgo; [exact Hi1|exact Hcalm|]. apply (Hpot p1 j Hlt Hrec eq_refl eq_refl).
    + intros E. by destruct (Hself E) as (_ & ? & _).
    + intros _. reflexivity.
Qed.

Lemma victim_progress p w j :
  pool_inv p w -> calm p w -> reclaimable p j ->
  exists r p' w', sweep_for_victim (p, w) = (Ok r, (p', w')) /\
    (is_Some r \/ (r = None /\ pool_inv p' w' /\ calm p' w' /\ reclaimable p' j /\
       potential p j = (frame_count p * 2 + potential p' j)%nat)).
Proof using Hdw.
  intros Hi Hc Hr. unfold sweep_for_victim. unfold bind at 1, self. cbn [fst].
  destruct (find_empty p (frame_count p) 0) as [idx|]; [|by apply sweep_progress].
  eexists _, _, _. split; [reflexivity|left; eauto].
Qed.

Lemma potential_bound p j : (0 < frame_count p)%nat -> (potential p j < 3 * frame_count p)%nat.
Proof.
  intros H. unfold potential, dist. pose proof (Nat.mod_upper_bound (j + frame_count p - clock_hand p) (frame_count p) ltac:(lia)).
  assert (effort (frame p j) <= 2)%nat by (unfold effort; destruct (f_state _); try lia; destruct (clock_ref _); lia). nia.
Qed.

(** All frames busy: every sweep only turns the hand. *)
Definition all_busy (p : BufferPool) : Prop :=
  forall j, (j < frame_count p)%nat ->
  io_inflight (frame p j) = true \/ (0 < pin_count (frame p j) /\ f_state (frame p j) <> FEmpty).

Lemma busy_sweep n p w :
  (clock_hand p < frame_count p)%nat -> all_busy p ->
  exists h, (h < frame_count p)%nat /\ clock_sweep n (p, w) = (Ok None, (with_hand p h, w)).
Proof.
  revert p. induction n as [|n IH]; intros p Hh Hb.
  { exists (clock_hand p). split; [done|]. unfold with_hand. by destruct p. }
  cbn [clock_sweep]. unfold bind at 1, self. cbn [fst]. unfold bind at 1, modify at 1. cbn [fst snd]. 
  assert (is_pinned (frame p (clock_hand p)) || io_inflight (frame p (clock_hand p)) = true) as ->.
  { unfold is_pinned. destruct (Hb _ Hh) as [->|[H _]]; [apply orb_true_r|]. by rewrite (proj2 (Z.ltb_lt _ _) H). }
  destruct (IH (with_hand p ((clock_hand p + 1) mod frame_count p)) (mod_count p (clock_hand p + 1) ltac:(lia)) Hb) as (h & Hlt & E).
  exists h. split; [exact Hlt|]. exact E.
Qed.

Lemma busy_no_empty p w n i : pool_inv p w -> all_busy p -> find_empty p n i = None.
Proof.
  intros Hi Hb. pose proof (pi_hand _ _ Hi) as Hh. destruct (find_empty p n i) as [idx|] eqn:E; [|done].
  apply find_empty_spec in E as [[Hlt Hs] Hio]; [|lia]. destruct (Hb idx Hlt) as [|[_ ?]]; congruence.
Qed.

Lemma busy_loop n p w : pool_inv p w -> all_busy p ->
  exists h, (h < frame_count p)%nat /\ sweep_loop n (p, w) = (Err WouldBlock, (with_hand p h, w)).
Proof.
  revert p. induction n as [|n IH]; intros p Hi Hb.
  { exists (clock_hand p). split; [apply Hi|]. unfold with_hand. by destruct p. }
  cbn [sweep_loop]. unfold bind at 1. unfold sweep_for_victim. unfold bind at 1, self. cbn [fst].
  rewrite (busy_no_empty p w) by done. destruct (busy_sweep (frame_count p * 2) p w (pi_hand _ _ Hi) Hb) as (h & Hlt & ->).
  destruct (IH (with_hand p h) (proj1 (with_hand_step p w h Hi Hlt)) Hb) as (h' & Hlt' & E). by exists h'.
Qed.

(** C31: a free frame is found whenever there is one to find.  With no fault
    ahead, if some frame is neither pinned nor in the middle of an I/O, then
    [find_free_frame] returns a vacant frame (writing back what it must), within
    two of its bounded sweeps, whatever the other frames do, and the pool's
    content is unchanged.  If instead every frame is pinned or in flight it gives
    up with [WouldBlock] after its last sweep, and only the clock hand has
    moved. *)
Theorem find_free_frame_live (p : BufferPool) (w : World) :
  pool_inv p w ->
  (forall j, calm p w -> reclaimable p j ->
     exists fid p' w', find_free_frame (p, w) = (Ok fid, (p', w')) /\ sweep_loop 2 (p, w) = (Ok fid, (p', w')) /\
       vacant p' fid /\ pool_inv p' w' /\ keeps p w p' w') /\
  (all_busy p -> exists h, (h < frame_count p)%nat /\ find_free_frame (p, w) = (Err WouldBlock, (with_hand p h, w))).
Proof using Hdw.
  intros Hi. split; [|by apply busy_loop]. intros j Hc Hr.
  assert (exists fid p' w', sweep_loop 2 (p, w) = (Ok fid, (p', w')) /\ find_free_frame (p, w) = (Ok fid, (p', w')))
    as (fid & p' & w' & E2 & E).
  { unfold find_free_frame. assert (exists k, MAX_SWEEPS = S (S k)) as [k ->].
    { exists (Z.to_nat 99998). unfold MAX_SWEEPS. rewrite <- !Z2Nat.inj_succ by lia. reflexivity. }
    cbn [sweep_loop]. unfold bind. destruct (victim_progress p w j Hi Hc Hr) as (r & p1 & w1 & E1 & H). rewrite E1.
    destruct H as [[fid ->]|(-> & Hi1 & Hc1 & Hr1 & P1)]; [by exists fid, p1, w1|].
    destruct (sweep_for_victim_spec p w _ _ _ Hi E1) as (_ & K1 & _). apply k_count in K1.
    destruct (victim_progress p1 w1 j Hi1 Hc1 Hr1) as (r & p2 & w2 & E2 & H). rewrite E2.
    destruct H as [[fid ->]|(-> & _ & _ & _ & P2)]; [by exists fid, p2, w2|].
    exfalso. pose proof (pi_hand _ _ Hi). pose proof (potential_bound p j ltac:(lia)). lia. }
  destruct (find_free_frame_spec p w _ p' w' Hi E) as (H1 & H2 & H3). exists fid, p', w'.
  exact (conj E (conj E2 (conj (H3 fid eq_refl) (conj H1 H2)))).
Qed.
End Pool.

(** ** Concrete runs *)
Module Demo.
#[local] Existing Instance additive_checksums.

Definition db_path : Path := (9, 0).
Definition dw_path : Path := (9, 1).
Definition page1 : list Z := update_checksum_bytes (init 1 PtSlottedData).
Definition page1' : list Z := set_u16 (init 1 PtSlottedData) FLAGS_OFF 1.
Definition db_bytes : list Z := replicate PAGE_SIZE 0 ++ page1.
Definition db : World := mkWorld {[db_path := mkFile db_bytes db_bytes]} [].
Definition db_faulty (s : list Outcome) : World := mkWorld (files db) s.

Definition run {A} (m : Act BufferPool A) (p : BufferPool) (w : World) : BufferPool * World := (m (p, w)).2.

Lemma run_eq {A} (m : Act BufferPool A) p w r : (m (p, w)).1 = r -> m (p, w) = (r, ((run m p w).1, (run m p w).2)).
Proof. unfold run. intros <-. by destruct (m (p, w)) as [r' [p' w']]. Qed.

Definition fixed : BufferPool * World := run (fix_page db_path (Some dw_path) 1) (pool_new 2) db.
Definition written : BufferPool := guard_write (fixed.1) 0 page1' 7.

Lemma fixed_ok : fix_page db_path (Some dw_path) 1 (pool_new 2, db) = (Ok 0%nat, (fixed.1, fixed.2)).
Proof.
  unfold fixed. apply (run_eq (fix_page db_path (Some dw_path) 1) (pool_new 2) db (Ok 0%nat)). vm_compute. reflexivity.
Qed.

Lemma pin_room_new n q : pin_room (pool_new n) q.
Proof. intros fid. rewrite pt_lookup_new. discriminate. Qed.

Lemma dw_ne : dw_path <> db_path.
Proof. discriminate. Qed.

Lemma db_synced q : page_number q -> page_of (durable_file db_path db) q = disk db_path db q.
Proof. reflexivity. Qed.

(** Page 1 fixed, overwritten through the guard, then released and flushed: the
    guard shows the new content, and so does the data file at the end. *)
Lemma pool_transparent_witness :
  norm (f_buf (frame written 0)) = norm page1' /\
  (let '(p', w') := run (flush_all db_path (Some dw_path)) (unfix_page written 0) (fixed.2) in
   ~ dirty_page p' 1 -> norm (page_of (durable_file db_path w') 1) = norm page1').
Proof.
  assert (pool_run db_path (Some dw_path) db 2 (fun r => if decide (r = 1) then page1' else disk db_path db r)
    [(1, 0%nat)] written (fixed.2)) as Hrun.
  { apply run_write with (q := 1); [|set_solver|vm_compute; reflexivity].
    assert (cacheable 1) as H1 by (split; lia).
    exact (run_fix _ _ _ _ _ _ _ _ _ _ _ _ (run_start _ _ db 2) H1 (pin_room_new 2 1) fixed_ok). }
  split.
  - destruct (pool_transparent db_path (Some dw_path) dw_ne db (fixed.2) 2 _ _ written (Nat.lt_0_succ 1) db_synced Hrun) as (H & _).
    pose proof (proj2 (H 1 0%nat ltac:(left))) as H2. cbv beta in H2. rewrite decide_True in H2 by reflexivity. exact H2.
  - destruct (run _ _ _) as [p' w'] eqn:E. intros Hnd.
    assert (pool_run db_path (Some dw_path) db 2 (fun r => if decide (r = 1) then page1' else disk db_path db r) [] p' w') as Hrun'.
    { eapply run_flush; [exact (run_unfix _ _ _ _ _ [] [] _ _ _ _ Hrun)|]. unfold run in E. rewrite <- E. apply surjective_pairing. }
    destruct (pool_transparent db_path (Some dw_path) dw_ne db w' 2 _ _ p' (Nat.lt_0_succ 1) db_synced Hrun') as (_ & H & _).
    pose proof (H 1 (conj Z.le_0_1 eq_refl) Hnd) as H2. cbv beta in H2. rewrite decide_True in H2 by reflexivity. exact H2.
Defined.

(** A pool of one frame, holding page 1. *)
Definition single : BufferPool * World := run (fix_page db_path (Some dw_path) 1) (pool_new 1) db.

Lemma single_run : pool_run db_path (Some dw_path) db 1 (disk db_path db) [(1, 0%nat)] (single.1) (single.2).
Proof.
  assert (fix_page db_path (Some dw_path) 1 (pool_new 1, db) = (Ok 0%nat, (single.1, single.2))) as E.
  { unfold single. apply (run_eq (fix_page db_path (Some dw_path) 1) (pool_new 1) db (Ok 0%nat)). vm_compute. reflexivity. }
  assert (cacheable 1) as H1 by (split; lia).
  exact (run_fix _ _ _ _ _ _ _ _ _ _ _ _ (run_start _ _ db 1) H1 (pin_room_new 1 1) E).
Qed.

Definition holds_one (p : BufferPool) (w : World) : Prop :=
  frame_count p = 1%nat /\ pin_count (frame p 0) = 1 /\ f_state (frame p 0) = FClean /\ io_inflight (frame p 0) = false /\
  io_failed p = false /\ script w = [] /\ bool_decide (is_Some (files w !! db_path)) = true.

Lemma single_facts : holds_one (single.1) (single.2).
Proof. vm_compute. repeat split. Qed.

Lemma single_inv : run_inv db_path (disk db_path db) [(1, 0%nat)] (single.1) (single.2).
Proof. exact (pool_run_inv db_path (Some dw_path) dw_ne db 1 _ _ _ _ Nat.lt_0_1 db_synced single_run). Qed.

Lemma single_busy p w : holds_one p w -> all_busy p.
Proof.
  intros (Hc & Hpin & Hst & _) j Hj. rewrite Hc in Hj. assert (j = 0%nat) as -> by lia.
  right. rewrite Hpin, Hst. split; [lia|discriminate].
Qed.

Lemma single_free p w : holds_one p w -> calm db_path (unfix_page p 0) w /\ reclaimable (unfix_page p 0) 0.
Proof.
  intros (Hc & Hpin & Hst & Hio & Hf & Hs & Hx%bool_decide_eq_true). split; [by repeat split|].
  unfold reclaimable, unfix_page. rewrite frame_count_upd, frame_upd by lia.
  destruct (decide (0%nat = 0%nat)) as [_|n]; [|destruct (n eq_refl)]. cbn [set_pin pin_count io_inflight f_state].
  rewrite Hpin, Hst. split; [lia|]. split; [reflexivity|]. split; [exact Hio|]. split; discriminate.
Qed.

(** While page 1 is pinned there is no frame to give out; once the guard is
    dropped there is. *)
Lemma find_free_frame_live_witness :
  (exists h, (h < frame_count (single.1))%nat /\
     find_free_frame db_path (Some dw_path) (single.1, single.2) = (Err WouldBlock, (with_hand (single.1) h, single.2))) /\
  (exists fid p' w', find_free_frame db_path (Some dw_path) (unfix_page (single.1) 0, single.2) = (Ok fid, (p', w'))).
Proof.
  pose proof (run_inv_unfix db_path (Some dw_path) dw_ne _ [] [] _ _ _ _ single_inv) as Hr'. split.
  - exact (proj2 (find_free_frame_live db_path (Some dw_path) dw_ne (single.1) (single.2) (ri_inv _ _ _ _ _ single_inv))
      (single_busy _ _ single_facts)).
  - destruct (single_free _ _ single_facts) as [Hc Hf].
    destruct (proj1 (find_free_frame_live db_path (Some dw_path) dw_ne _ _ (ri_inv _ _ _ _ _ Hr')) 0%nat Hc Hf)
      as (fid & p' & w' & E & _).
    exists fid, p', w'. exact E.
Defined.

(** Prefetching past the end of the data file: the read fails and the frames
    reserved for it stay marked as loading, so no sweep ever takes them again. *)
Lemma prefetch_leaks_frames :
  let '(r, (p, w)) := prefetch_range db_path (Some dw_path) 2 4 (pool_new 2, db) in
  is_ok r = false /\ f_state (frame p 0) = FLoading /\ io_inflight (frame p 0) = true /\ is_evictable (frame p 0) = false.
Proof. vm_compute. repeat split. Qed.

(** A write-back whose in-place write fails leaves the frame's I/O flag set: the
    page stays dirty, later flushes skip it and [invalidate] waits forever. *)
Lemma failed_write_back_wedges_frame :
  let p := unfix_page written 0 in
  let '(r, (p1, w1)) := flush_single_frame db_path None 0 (p, db_faulty [Done; Failed 0]) in
  is_ok r = false /\ f_state (frame p1 0) = FDirty /\ io_inflight (frame p1 0) = true /\
  dirty_candidates p1 = [] /\ (if invalidate p1 1 then true else false) = false.
Proof. vm_compute. repeat split. Qed.
End Demo.
