(* ===== verification/PageAlloc.v ===== *)
(** * Page allocation ([src/storage/bitmap.rs], [src/storage/manager.rs])

    The allocation bitmap as bits of page buffers, the free-list cache and the
    allocator of the page manager.  [None] stands for a panic (an index out of
    bounds); the theorems show that the allocator never reaches one. *)

From stdpp Require Import prelude list gmap sets.
From Stdlib Require Import ZArith Lia.
From S2P Require Import Prelude Bytes Checksum Io SlottedPage PageFile DoubleWrite Superblock.

(** ** Bitmap pages *)

(** [(PAGE_SIZE - HEADER_SIZE) * 8]. *)
Definition PAGES_PER_BITMAP : Z := 65024.

Record BitmapPage := mkBitmap { bm_page : list Z; bitmap_slot : Z }.

Definition bitmap_new (file_page_id slot : Z) : BitmapPage := mkBitmap (init file_page_id PtBitmap) slot.
Definition from_buf (buf : list Z) (slot : Z) : BitmapPage := mkBitmap buf slot.

Definition base_page_id (b : BitmapPage) : Z := wrap 64 (bitmap_slot b * PAGES_PER_BITMAP).
Definition local_index (b : BitmapPage) (global_id : Z) : Z := wrap 64 (global_id - base_page_id b).

(** Position in the page of the byte that holds bit [local]. *)
Definition byte_pos (local : Z) : nat := HEADER_SIZE + Z.to_nat (local / 8).

Definition bit_at (b : BitmapPage) (local : Z) : option bool :=
  byte ← bm_page b !! byte_pos local;
  Some (negb (Z.land byte (Z.shiftl 1 (local mod 8)) =? 0)).

Definition set_byte (b : BitmapPage) (pos : nat) (byte : Z) : BitmapPage :=
  mkBitmap (<[pos := byte]> (bm_page b)) (bitmap_slot b).

Definition is_set (b : BitmapPage) (global_id : Z) : option bool := bit_at b (local_index b global_id).

Definition allocate (b : BitmapPage) (global_id : Z) : option BitmapPage :=
  let local := local_index b global_id in
  byte ← bm_page b !! byte_pos local;
  Some (set_byte b (byte_pos local) (Z.lor byte (Z.shiftl 1 (local mod 8)))).

Definition free (b : BitmapPage) (global_id : Z) : option BitmapPage :=
  let local := local_index b global_id in
  byte ← bm_page b !! byte_pos local;
  Some (set_byte b (byte_pos local) (Z.land byte (Z.lxor (Z.shiftl 1 (local mod 8)) (Z.ones 8)))).

(** [for i in i..PAGES_PER_BITMAP], [n] iterations left. *)
Fixpoint find_free_loop (b : BitmapPage) (n : nat) (i : Z) : option (option Z) :=
  match n with
  | O => Some None
  | S n =>
      s ← bit_at b i;
      if s : bool then find_free_loop b n (i + 1) else Some (Some (wrap 64 (base_page_id b + i)))
  end.

Definition find_first_free (b : BitmapPage) (start_local : Z) : option (option Z) :=
  find_free_loop b (Z.to_nat (PAGES_PER_BITMAP - start_local)) start_local.

Fixpoint allocated_loop (b : BitmapPage) (n : nat) (i : Z) : option (list Z) :=
  match n with
  | O => Some []
  | S n =>
      s ← bit_at b i;
      rest ← allocated_loop b n (i + 1);
      Some (if s : bool then wrap 64 (base_page_id b + i) :: rest else rest)
  end.

Definition bitmap_allocated_pages (b : BitmapPage) : option (list Z) :=
  allocated_loop b (Z.to_nat PAGES_PER_BITMAP) 0.

(** ** The free-list cache: a [Vec] used as a stack from its end *)

Record FreeListCache := mkCache { pages : list Z; batch_size : nat }.

Definition cache_new (batch : nat) : FreeListCache := mkCache [] batch.

Definition cache_pop (c : FreeListCache) : option Z * FreeListCache :=
  match last (pages c) with
  | None => (None, c)
  | Some p => (Some p, mkCache (take (length (pages c) - 1) (pages c)) (batch_size c))
  end.

Definition cache_push (c : FreeListCache) (page_id : Z) : FreeListCache :=
  mkCache (pages c ++ [page_id]) (batch_size c).

(** ** Layout *)

Definition PRIMARY_SB_PAGE_ID : Z := 0.
Definition MIRROR_SB_PAGE_ID : Z := 1.
Definition FIRST_BITMAP_PAGE_ID : Z := 2.
Definition FIRST_DATA_PAGE_ID : Z := 3.
Definition MAX_ADDRESSABLE_PAGE_ID : Z := U64_MAX / 8192 - 1.
Definition CACHE_BATCH : nat := 64.

Definition num_bitmap_pages (next_free : Z) : Z :=
  if next_free =? 0 then 1 else (next_free + (PAGES_PER_BITMAP - 1)) / PAGES_PER_BITMAP.

Definition bitmap_physical_page_id (slot : Z) : Z :=
  if slot =? 0 then FIRST_BITMAP_PAGE_ID else wrap 64 (slot * PAGES_PER_BITMAP).

Definition is_bitmap_page (page_id : Z) : bool :=
  (page_id =? FIRST_BITMAP_PAGE_ID) || (negb (page_id =? 0) && (page_id mod PAGES_PER_BITMAP =? 0)).

(** [PageManager::page_offset], the checked multiplication. *)
Definition checked_page_offset (page_id : Z) : result Z IoError :=
  match checked_mul 64 page_id 8192 with
  | Some off => match checked_add 64 off 8192 with
                | Some _ => Ok off
                | None => Err InvalidInput
                end
  | None => Err InvalidInput
  end.

(** ** The allocator's part of the page manager *)

Record PageManager := mkPm {
  superblock : Superblock;
  bitmaps : list BitmapPage;
  free_cache : FreeListCache
}.

Definition set_sb_counts (s : Superblock) (total free_count next : Z) : Superblock :=
  mkSb (sb_magic s) (sb_version s) (sb_page_size s) total free_count next (current_wal_lsn s)
    (last_checkpoint_lsn s) (checkpoint_dpt_offset s) (generation s) (sb_checksum s) (graph_mode s) (sb_reserved s).

Definition set_free_count (s : Superblock) (c : Z) : Superblock :=
  set_sb_counts s (total_page_count s) c (next_free_page_id s).

Definition with_sb (m : PageManager) (s : Superblock) : PageManager := mkPm s (bitmaps m) (free_cache m).
Definition with_bitmaps (m : PageManager) (bs : list BitmapPage) : PageManager :=
  mkPm (superblock m) bs (free_cache m).
Definition with_cache (m : PageManager) (c : FreeListCache) : PageManager :=
  mkPm (superblock m) (bitmaps m) c.

Definition region (page_id : Z) : nat := Z.to_nat (page_id / PAGES_PER_BITMAP).

(** [self.bitmaps[slot].allocate(pid)]. *)
Definition bitmaps_allocate (bs : list BitmapPage) (slot : nat) (pid : Z) : option (list BitmapPage) :=
  b ← bs !! slot; b' ← allocate b pid; Some (<[slot := b']> bs).

Definition bitmaps_free (bs : list BitmapPage) (slot : nat) (pid : Z) : option (list BitmapPage) :=
  b ← bs !! slot; b' ← free b pid; Some (<[slot := b']> bs).

(** The bitmap page [ensure_bitmap] creates for [slot]. *)
Definition fresh_bitmap (slot : Z) : option BitmapPage :=
  let phys := bitmap_physical_page_id slot in
  b ← allocate (bitmap_new phys slot) phys;
  if slot =? 0 then b ← allocate b PRIMARY_SB_PAGE_ID; allocate b MIRROR_SB_PAGE_ID else Some b.

(** [while bitmaps.len() <= slot], at most [fuel] times. *)
Fixpoint ensure_loop (bs : list BitmapPage) (fuel : nat) (slot : nat) : option (list BitmapPage) :=
  if (length bs <=? slot)%nat then
    match fuel with
    | O => None
    | S fuel =>
        b ← fresh_bitmap (Z.of_nat (length bs));
        ensure_loop (bs ++ [b]) fuel slot
    end
  else Some bs.

Definition ensure_bitmap (m : PageManager) (slot : nat) : option PageManager :=
  bs ← ensure_loop (bitmaps m) (S slot - length (bitmaps m)) slot;
  Some (with_bitmaps m bs).

(** The loop of [try_allocate_page]; reserved bitmap pages are skipped. *)
Fixpoint allocate_loop (m : PageManager) (fuel : nat) : option (result Z IoError * PageManager) :=
  match fuel with
  | O => None
  | S fuel =>
      let sb := superblock m in
      let pid := next_free_page_id sb in
      if MAX_ADDRESSABLE_PAGE_ID <? pid then Some (Err OutOfMemory, m) else
      let m := with_sb m (set_sb_counts sb (wrap 64 (total_page_count sb + 1)) (free_page_count sb) (wrap 64 (pid + 1))) in
      m ← ensure_bitmap m (region pid);
      bs ← bitmaps_allocate (bitmaps m) (region pid) pid;
      let m := with_bitmaps m bs in
      if is_bitmap_page pid then allocate_loop m fuel else Some (Ok pid, m)
  end.

Definition try_allocate_page (m : PageManager) : option (result Z IoError * PageManager) :=
  match cache_pop (free_cache m) with
  | (Some pid, c) =>
      let m := with_cache m c in
      bs ← (if (region pid <? length (bitmaps m))%nat then bitmaps_allocate (bitmaps m) (region pid) pid
            else Some (bitmaps m));
      let m := with_bitmaps m bs in
      Some (Ok pid, with_sb m (set_free_count (superblock m) (Z.max 0 (free_page_count (superblock m) - 1))))
  | (None, _) => allocate_loop m 3
  end.

(** The second component says whether an attached pool is told to drop the page. *)
Definition free_page (m : PageManager) (page_id : Z) : option (PageManager * bool) :=
  if (page_id <? FIRST_DATA_PAGE_ID) || is_bitmap_page page_id then Some (m, false) else
  match bitmaps m !! region page_id with
  | None => Some (m, false)
  | Some b =>
      s ← is_set b page_id;
      if negb s then Some (m, false) else
      bs ← bitmaps_free (bitmaps m) (region page_id) page_id;
      let m := with_cache (with_bitmaps m bs) (cache_push (free_cache m) page_id) in
      Some (with_sb m (set_free_count (superblock m) (wrap 64 (free_page_count (superblock m) + 1))), true)
  end.

Fixpoint all_allocated (bs : list BitmapPage) : option (list Z) :=
  match bs with
  | [] => Some []
  | b :: bs => ids ← bitmap_allocated_pages b; rest ← all_allocated bs; Some (ids ++ rest)
  end.

Definition allocated_pages (m : PageManager) : option (list Z) := all_allocated (bitmaps m).

(** [init]: the in-memory state of a brand-new database. *)
Definition pm_init `{CS : Checksums} (page_size : Z) : option PageManager :=
  let sb := set_sb_counts (sb_new page_size) FIRST_DATA_PAGE_ID 0 FIRST_DATA_PAGE_ID in
  b ← allocate (bitmap_new FIRST_BITMAP_PAGE_ID 0) PRIMARY_SB_PAGE_ID;
  b ← allocate b MIRROR_SB_PAGE_ID;
  b ← allocate b FIRST_BITMAP_PAGE_ID;
  let b := mkBitmap (update_checksum_bytes (bm_page b)) (bitmap_slot b) in
  Some (mkPm (sb_update_checksum sb) [b] (cache_new CACHE_BATCH)).

(** [rebuild_cache]: the inner loop over the bits of one region, which returns
    [true] when the batch is full. *)
Fixpoint rebuild_bits (b : BitmapPage) (c : FreeListCache) (n : nat) (i : Z) : option (FreeListCache * bool) :=
  match n with
  | O => Some (c, false)
  | S n =>
      if (batch_size c <=? length (pages c))%nat then Some (c, true) else
      let pid := wrap 64 (base_page_id b + i) in
      if (pid <? FIRST_DATA_PAGE_ID) || is_bitmap_page pid then rebuild_bits b c n (i + 1) else
      s ← is_set b pid;
      rebuild_bits b (if s : bool then c else cache_push c pid) n (i + 1)
  end.

Fixpoint rebuild_loop (bs : list BitmapPage) (c : FreeListCache) : option FreeListCache :=
  match bs with
  | [] => Some c
  | b :: bs =>
      r ← rebuild_bits b c (Z.to_nat PAGES_PER_BITMAP) 0;
      if r.2 : bool then Some r.1 else rebuild_loop bs r.1
  end.

Definition rebuild_cache (m : PageManager) : option PageManager :=
  c ← rebuild_loop (bitmaps m) (mkCache [] (batch_size (free_cache m)));
  Some (with_cache m c).

(** [open_multi], after the data file has been opened. *)
Definition open_multi (sb : Superblock) (bitmap_bufs : list (list Z)) : option PageManager :=
  rebuild_cache (mkPm sb (imap (fun i buf => from_buf buf (Z.of_nat i)) bitmap_bufs) (cache_new CACHE_BATCH)).

(** ** Bits of one bitmap page *)

(** A bitmap page of region [slot]: a whole page of bytes. *)
Definition bm_ok (slot : Z) (b : BitmapPage) : Prop :=
  bitmap_slot b = slot /\ 0 <= slot /\ (slot + 1) * PAGES_PER_BITMAP <= 2 ^ 64 /\
  length (bm_page b) = PAGE_SIZE /\ Forall is_u8 (bm_page b).

Definition in_region (slot id : Z) : Prop :=
  slot * PAGES_PER_BITMAP <= id < (slot + 1) * PAGES_PER_BITMAP.

Definition bit (b : BitmapPage) (id : Z) : bool := default false (is_set b id).

Lemma land_pow2_testbit x k : 0 <= x -> 0 <= k -> negb (Z.land x (Z.shiftl 1 k) =? 0) = Z.testbit x k.
Proof.
  intros Hx Hk. rewrite Z.shiftl_1_l. destruct (Z.testbit x k) eqn:E.
  - apply negb_true_iff, Z.eqb_neq. apply land_nonzero_bit; [done|].
    exists k. by rewrite E, Z.pow2_bits_true.
  - apply negb_false_iff, Z.eqb_eq. apply Z.bits_inj'. intros j Hj. rewrite Z.land_spec, Z.bits_0.
    destruct (decide (j = k)) as [->|]; [by rewrite E|]. by rewrite Z.pow2_bits_false, andb_false_r by lia.
Qed.

Section OneBitmap.
Context (slot : Z) (b : BitmapPage) (Hb : bm_ok slot b).

Lemma base_eq : base_page_id b = slot * PAGES_PER_BITMAP.
Proof using Hb.
  destruct Hb as (E & H0 & H1 & _). unfold base_page_id. rewrite E.
  apply wrap_id. unfold uint, PAGES_PER_BITMAP in *. lia.
Qed.

Lemma local_eq id : in_region slot id -> local_index b id = id - slot * PAGES_PER_BITMAP.
Proof using Hb.
  intros Hi. unfold local_index. rewrite base_eq. apply wrap_id.
  destruct Hb as (_ & H0 & H1 & _). unfold in_region, uint, PAGES_PER_BITMAP in *. lia.
Qed.

Lemma local_range id : in_region slot id -> 0 <= local_index b id < PAGES_PER_BITMAP.
Proof using Hb. intros Hi. rewrite local_eq by done. unfold in_region in Hi. lia. Qed.

Lemma byte_pos_range local : 0 <= local < PAGES_PER_BITMAP -> (byte_pos local < PAGE_SIZE)%nat.
Proof using.
  intros H. unfold byte_pos, HEADER_SIZE, PAGES_PER_BITMAP in *. pose proof PAGE_SIZE_eq.
  assert (local / 8 < 8128) by (apply Z.div_lt_upper_bound; lia). lia.
Qed.

Lemma byte_at local : 0 <= local < PAGES_PER_BITMAP ->
  exists x, bm_page b !! byte_pos local = Some x /\ is_u8 x.
Proof using Hb.
  intros H. destruct Hb as (_ & _ & _ & Hl & Hu).
  destruct (lookup_lt_is_Some_2 (bm_page b) (byte_pos local)) as [x Hx]; [rewrite Hl; by apply byte_pos_range|].
  exists x. split; [done|]. rewrite Forall_lookup in Hu. by eapply Hu.
Qed.

Lemma bit_at_eq local : 0 <= local < PAGES_PER_BITMAP ->
  exists x, bm_page b !! byte_pos local = Some x /\ is_u8 x /\
    bit_at b local = Some (Z.testbit x (local mod 8)).
Proof using Hb.
  intros H. destruct (byte_at local H) as (x & Hx & Hu). exists x. split; [done|]. split; [done|].
  unfold bit_at. rewrite Hx. cbn [mbind option_bind]. apply (f_equal Some).
  apply land_pow2_testbit; [unfold uint in Hu; lia|apply Z.mod_pos_bound; lia].
Qed.

Lemma is_set_bit id : in_region slot id -> is_set b id = Some (bit b id).
Proof using Hb.
  intros Hi. unfold bit, is_set. destruct (bit_at_eq _ (local_range id Hi)) as (x & _ & _ & ->). done.
Qed.

(** Replacing one byte by one that differs in a single bit. *)
Lemma set_byte_bits id x y (v : bool) :
  in_region slot id -> bm_page b !! byte_pos (local_index b id) = Some x -> is_u8 y ->
  (forall k, 0 <= k < 8 -> Z.testbit y k = if decide (k = local_index b id mod 8) then v else Z.testbit x k) ->
  let b' := set_byte b (byte_pos (local_index b id)) y in
  bm_ok slot b' /\ (forall j, in_region slot j -> bit b' j = if decide (j = id) then v else bit b j).
Proof using Hb.
  intros Hi Hx Hy Hbits b'. assert (bm_ok slot b') as Hb'.
  { destruct Hb as (? & ? & ? & Hl & Hu). unfold b', bm_ok, set_byte. cbn [bitmap_slot bm_page].
    rewrite length_insert. repeat (split; [done|]). by apply Forall_insert. }
  split; [done|]. intros j Hj.
  assert (forall i, local_index b' i = local_index b i) as Hli by done.
  unfold bit at 1, is_set, bit_at. rewrite Hli.
  pose proof (local_range id Hi) as Ri. pose proof (local_range j Hj) as Rj.
  unfold b', set_byte. cbn [bm_page]. destruct (byte_at _ Rj) as (z & Hz & Hzu).
  destruct (decide (byte_pos (local_index b j) = byte_pos (local_index b id))) as [E|E].
  - rewrite E, list_lookup_insert_eq by (by eapply lookup_lt_Some). cbn [mbind option_bind].
    rewrite E, Hx in Hz. injection Hz as <-. unfold from_option, Datatypes.id.
    rewrite land_pow2_testbit by (try (apply Z.mod_pos_bound; lia); unfold uint in Hy; lia).
    rewrite Hbits by (apply Z.mod_pos_bound; lia).
    assert (local_index b j / 8 = local_index b id / 8) as Ed.
    { unfold byte_pos in E. pose proof (Z.div_pos (local_index b j) 8). pose proof (Z.div_pos (local_index b id) 8). lia. }
    assert (local_index b j mod 8 = local_index b id mod 8 <-> j = id) as Hiff.
    { split; [|by intros ->]. intros Em. pose proof (Z.div_mod (local_index b j) 8 ltac:(lia)).
      pose proof (Z.div_mod (local_index b id) 8 ltac:(lia)). rewrite !local_eq in * by done. lia. }
    destruct (decide (j = id)) as [->|Hne]; [by rewrite decide_True|].
    rewrite decide_False by tauto. unfold bit, is_set, bit_at. rewrite E, Hx. cbn [mbind option_bind].
    unfold from_option, Datatypes.id. rewrite land_pow2_testbit by (try (apply Z.mod_pos_bound; lia); pose proof (byte_at _ Ri) as (x' & Hx' & Hu'); unfold uint in Hu'; simplify_eq; lia).
    done.
  - rewrite list_lookup_insert_ne by done. rewrite decide_False by (by intros ->). done.
Qed.

Lemma allocate_spec id : in_region slot id ->
  exists b', allocate b id = Some b' /\ bm_ok slot b' /\
    forall j, in_region slot j -> bit b' j = if decide (j = id) then true else bit b j.
Proof using Hb.
  intros Hi. destruct (byte_at _ (local_range id Hi)) as (x & Hx & Hu).
  pose proof (Z.mod_pos_bound (local_index b id) 8 ltac:(lia)) as Hm.
  eexists. unfold allocate. rewrite Hx. split; [reflexivity|]. apply (set_byte_bits id x); [done|done| |].
  - apply uint_lor; [lia|done|]. rewrite Z.shiftl_1_l. split; [apply Z.pow_nonneg; lia|].
    apply Z.pow_lt_mono_r; lia.
  - intros k Hk. rewrite Z.lor_spec, Z.shiftl_1_l. case_decide as E.
    + by rewrite E, Z.pow2_bits_true, orb_true_r by lia.
    + by rewrite Z.pow2_bits_false, orb_false_r by lia.
Qed.

Lemma free_spec id : in_region slot id ->
  exists b', free b id = Some b' /\ bm_ok slot b' /\
    forall j, in_region slot j -> bit b' j = if decide (j = id) then false else bit b j.
Proof using Hb.
  intros Hi. destruct (byte_at _ (local_range id Hi)) as (x & Hx & Hu).
  pose proof (Z.mod_pos_bound (local_index b id) 8 ltac:(lia)) as Hm.
  eexists. unfold free. rewrite Hx. split; [reflexivity|]. apply (set_byte_bits id x); [done|done| |].
  - by apply uint_land_l.
  - intros k Hk. rewrite (testbit_clear 8), Z.shiftl_1_l by (done || lia). case_decide as E.
    + by rewrite E, Z.pow2_bits_true, andb_false_r by lia.
    + by rewrite Z.pow2_bits_false, andb_true_r by lia.
Qed.
End OneBitmap.

(** ** The chain of bitmaps *)

Definition reserved (id : Z) : bool := (id <? FIRST_DATA_PAGE_ID) || is_bitmap_page id.

Definition bs_ok (bs : list BitmapPage) : Prop := forall i b, bs !! i = Some b -> bm_ok (Z.of_nat i) b.
Definition covered (bs : list BitmapPage) (id : Z) : Prop := 0 <= id < Z.of_nat (length bs) * PAGES_PER_BITMAP.
Definition mbit (bs : list BitmapPage) (id : Z) : bool :=
  match bs !! region id with Some b => bit b id | None => false end.

#[global] Instance covered_dec bs id : Decision (covered bs id).
Proof. unfold covered. apply _. Defined.

Lemma region_in id : 0 <= id -> in_region (Z.of_nat (region id)) id.
Proof.
  intros H. unfold in_region, region, PAGES_PER_BITMAP. pose proof (Z.div_mod id 65024 ltac:(lia)).
  pose proof (Z.mod_pos_bound id 65024 ltac:(lia)). pose proof (Z.div_pos id 65024). lia.
Qed.

Lemma in_region_unique s id : 0 <= s -> in_region s id -> region id = Z.to_nat s.
Proof.
  unfold in_region, region, PAGES_PER_BITMAP. intros Hs H. f_equal.
  symmetry. apply (Z.div_unique_pos id 65024 s (id - s * 65024)); lia.
Qed.

Lemma covered_region bs id : 0 <= id -> covered bs id <-> (region id < length bs)%nat.
Proof.
  intros H. pose proof (region_in id H) as Hr. unfold in_region, covered, PAGES_PER_BITMAP in *. nia.
Qed.

Lemma covered_lookup bs id : bs_ok bs -> covered bs id ->
  exists b, bs !! region id = Some b /\ bm_ok (Z.of_nat (region id)) b /\ in_region (Z.of_nat (region id)) id.
Proof.
  intros Hb Hc. assert (0 <= id) as H0 by (unfold covered in Hc; lia).
  destruct (lookup_lt_is_Some_2 bs (region id)) as [b E]; [by apply covered_region|].
  exists b. split; [done|]. split; [by apply Hb|by apply region_in].
Qed.

Lemma mbit_uncovered bs id : 0 <= id -> ~ covered bs id -> mbit bs id = false.
Proof.
  intros H Hc. unfold mbit. rewrite lookup_ge_None_2; [done|].
  rewrite (covered_region bs id H) in Hc. lia.
Qed.

(** Replacing the bitmap of a page's region by one that differs in its bit. *)
Lemma bitmaps_update bs id b b' (v : bool) :
  bs_ok bs -> covered bs id -> bs !! region id = Some b -> bm_ok (Z.of_nat (region id)) b' ->
  (forall j, in_region (Z.of_nat (region id)) j -> bit b' j = if decide (j = id) then v else bit b j) ->
  bs_ok (<[region id := b']> bs) /\
  (forall j, 0 <= j -> mbit (<[region id := b']> bs) j = if decide (j = id) then v else mbit bs j).
Proof.
  intros Hb Hc E Hb' Hbits. pose proof (lookup_lt_Some _ _ _ E) as Hlt. split.
  - intros i c Hi. destruct (decide (i = region id)) as [->|Hne].
    + rewrite list_lookup_insert_eq in Hi by done. by injection Hi as <-.
    + rewrite list_lookup_insert_ne in Hi by done. by apply Hb.
  - intros j Hj. unfold mbit. destruct (decide (region j = region id)) as [Er|Hne].
    + rewrite Er, list_lookup_insert_eq by done. rewrite E. apply Hbits. rewrite <- Er. by apply region_in.
    + rewrite list_lookup_insert_ne by done. by rewrite decide_False by (by intros ->).
Qed.

Lemma bitmaps_allocate_spec bs id : bs_ok bs -> covered bs id ->
  exists bs', bitmaps_allocate bs (region id) id = Some bs' /\ bs_ok bs' /\ length bs' = length bs /\
    forall j, 0 <= j -> mbit bs' j = if decide (j = id) then true else mbit bs j.
Proof.
  intros Hb Hc. destruct (covered_lookup bs id Hb Hc) as (b & E & Hbm & Hin).
  destruct (allocate_spec _ b Hbm id Hin) as (b' & Ea & Hb' & Hbits).
  destruct (bitmaps_update bs id b b' true Hb Hc E Hb' Hbits) as [H1 H2].
  exists (<[region id := b']> bs). unfold bitmaps_allocate. rewrite E, Some_bind, Ea, Some_bind.
  split; [done|]. split; [done|]. split; [apply length_insert|done].
Qed.

Lemma bitmaps_free_spec bs id : bs_ok bs -> covered bs id ->
  exists bs', bitmaps_free bs (region id) id = Some bs' /\ bs_ok bs' /\ length bs' = length bs /\
    forall j, 0 <= j -> mbit bs' j = if decide (j = id) then false else mbit bs j.
Proof.
  intros Hb Hc. destruct (covered_lookup bs id Hb Hc) as (b & E & Hbm & Hin).
  destruct (free_spec _ b Hbm id Hin) as (b' & Ea & Hb' & Hbits).
  destruct (bitmaps_update bs id b b' false Hb Hc E Hb' Hbits) as [H1 H2].
  exists (<[region id := b']> bs). unfold bitmaps_free. rewrite E, Some_bind, Ea, Some_bind.
  split; [done|]. split; [done|]. split; [apply length_insert|done].
Qed.

(** ** Creating bitmaps *)

Lemma init_byte pid t i : (HEADER_SIZE <= i < PAGE_SIZE)%nat -> (init pid t : list Z) !! i = Some 0.
Proof.
  intros Hi. unfold init. rewrite lookup_write_at, length_header_new.
  - rewrite decide_False by lia. apply lookup_replicate_2. lia.
  - rewrite length_header_new, length_replicate. lia.
Qed.

Lemma bitmap_new_ok pid slot : 0 <= slot -> (slot + 1) * PAGES_PER_BITMAP <= 2 ^ 64 ->
  bm_ok slot (bitmap_new pid slot).
Proof.
  intros H0 H1. destruct (init_ok pid PtBitmap) as [Hp _]. unfold bm_ok, bitmap_new. cbn [bm_page bitmap_slot].
  exact (conj eq_refl (conj H0 (conj H1 (conj (po_length _ Hp) (po_bytes _ Hp))))).
Qed.

Lemma bitmap_new_bits pid slot j : 0 <= slot -> (slot + 1) * PAGES_PER_BITMAP <= 2 ^ 64 ->
  in_region slot j -> bit (bitmap_new pid slot) j = false.
Proof.
  intros H0 H1 Hj. pose proof (bitmap_new_ok pid slot H0 H1) as Hb.
  pose proof (local_range slot _ Hb j Hj) as Hr. unfold bit, is_set.
  destruct (bit_at_eq slot _ Hb _ Hr) as (x & Hx & _ & ->). unfold bitmap_new in Hx. cbn [bm_page] in Hx.
  rewrite init_byte in Hx by (split; [unfold byte_pos; lia|by apply byte_pos_range]).
  injection Hx as <-. cbn [from_option]. apply Z.testbit_0_l.
Qed.

Lemma reserved_region slot j : 0 <= slot -> in_region slot j ->
  reserved j = if decide (slot = 0) then bool_decide (0 <= j < 3) else bool_decide (j = slot * PAGES_PER_BITMAP).
Proof.
  intros Hs Hj. unfold in_region in Hj. unfold reserved, is_bitmap_page, FIRST_DATA_PAGE_ID, FIRST_BITMAP_PAGE_ID.
  unfold PAGES_PER_BITMAP in *. case_decide as E.
  - subst. rewrite Z.mod_small by lia. apply eq_true_iff_eq. rewrite bool_decide_eq_true.
    rewrite !orb_true_iff, andb_true_iff, negb_true_iff, Z.ltb_lt, Z.eqb_eq, Z.eqb_neq, Z.eqb_eq. lia.
  - assert (j mod 65024 = j - slot * 65024) as ->.
    { symmetry. apply (Z.mod_unique_pos j 65024 slot); lia. }
    apply eq_true_iff_eq. rewrite bool_decide_eq_true.
    rewrite !orb_true_iff, andb_true_iff, negb_true_iff, Z.ltb_lt, Z.eqb_eq, Z.eqb_neq, Z.eqb_eq. lia.
Qed.

Lemma fresh_bitmap_spec slot : 0 <= slot -> (slot + 1) * PAGES_PER_BITMAP <= 2 ^ 64 ->
  exists b, fresh_bitmap slot = Some b /\ bm_ok slot b /\ forall j, in_region slot j -> bit b j = reserved j.
Proof.
  intros H0 H1. unfold fresh_bitmap, bitmap_physical_page_id.
  destruct (Z.eqb_spec slot 0) as [->|Hne].
  - destruct (allocate_spec 0 _ (bitmap_new_ok FIRST_BITMAP_PAGE_ID 0 H0 H1) FIRST_BITMAP_PAGE_ID) as (b1 & E1 & Hb1 & B1);
      [unfold in_region, FIRST_BITMAP_PAGE_ID, PAGES_PER_BITMAP; lia|].
    destruct (allocate_spec 0 b1 Hb1 PRIMARY_SB_PAGE_ID) as (b2 & E2 & Hb2 & B2);
      [unfold in_region, PRIMARY_SB_PAGE_ID, PAGES_PER_BITMAP; lia|].
    destruct (allocate_spec 0 b2 Hb2 MIRROR_SB_PAGE_ID) as (b3 & E3 & Hb3 & B3);
      [unfold in_region, MIRROR_SB_PAGE_ID, PAGES_PER_BITMAP; lia|].
    rewrite E1, Some_bind, E2, Some_bind. exists b3. split; [done|]. split; [done|]. intros j Hj.
    rewrite B3, B2, B1, bitmap_new_bits, (reserved_region 0 j H0 Hj) by done.
    destruct (decide (0 = 0)) as [_|]; [|done].
    unfold FIRST_BITMAP_PAGE_ID, PRIMARY_SB_PAGE_ID, MIRROR_SB_PAGE_ID. unfold in_region in Hj.
    symmetry. repeat case_decide; (apply bool_decide_eq_true || apply bool_decide_eq_false); lia.
  - assert (wrap 64 (slot * PAGES_PER_BITMAP) = slot * PAGES_PER_BITMAP) as ->.
    { apply wrap_id. unfold uint, PAGES_PER_BITMAP in *. lia. }
    destruct (allocate_spec slot _ (bitmap_new_ok (slot * PAGES_PER_BITMAP) slot H0 H1) (slot * PAGES_PER_BITMAP)) as (b1 & E1 & Hb1 & B1);
      [unfold in_region, PAGES_PER_BITMAP; lia|].
    rewrite E1, Some_bind. exists b1. split; [done|]. split; [done|]. intros j Hj.
    rewrite B1, bitmap_new_bits, (reserved_region slot j H0 Hj) by done.
    destruct (decide (slot = 0)) as [?|_]; [done|].
    symmetry. case_decide; (apply bool_decide_eq_true || apply bool_decide_eq_false); done.
Qed.

Lemma bs_ok_snoc bs b : bs_ok bs -> bm_ok (Z.of_nat (length bs)) b -> bs_ok (bs ++ [b]).
Proof.
  intros Hbs Hb i c. destruct (decide (i < length bs)%nat).
  - rewrite lookup_app_l by done. apply Hbs.
  - rewrite lookup_app_r by lia. intros [E <-]%list_lookup_singleton_Some.
    replace i with (length bs) by lia. done.
Qed.

Lemma mbit_snoc bs b j : 0 <= j -> bs_ok bs -> bm_ok (Z.of_nat (length bs)) b ->
  (forall j, in_region (Z.of_nat (length bs)) j -> bit b j = reserved j) ->
  mbit (bs ++ [b]) j =
  if decide (covered bs j) then mbit bs j else if decide (covered (bs ++ [b]) j) then reserved j else false.
Proof.
  intros Hj Hbs Hb Hbits. unfold mbit. destruct (decide (covered bs j)) as [Hc|Hc].
  - rewrite lookup_app_l by (by apply covered_region). done.
  - rewrite (covered_region bs j Hj) in Hc. rewrite lookup_app_r by lia.
    case_decide as Hd; rewrite (covered_region (bs ++ [b]) j Hj), length_app in Hd; cbn [length] in Hd.
    + replace (region j - length bs)%nat with 0%nat by lia. cbn [lookup list_lookup]. apply Hbits.
      replace (length bs) with (region j) by lia. by apply region_in.
    + by destruct (region j - length bs)%nat eqn:E; [lia|].
Qed.

Lemma ensure_loop_spec fuel bs slot :
  bs_ok bs -> (Z.of_nat slot + 1) * PAGES_PER_BITMAP <= 2 ^ 64 -> (S slot - length bs <= fuel)%nat ->
  exists bs', ensure_loop bs fuel slot = Some bs' /\ bs_ok bs' /\ length bs' = max (length bs) (S slot) /\
    forall j, 0 <= j -> mbit bs' j =
      if decide (covered bs j) then mbit bs j else if decide (covered bs' j) then reserved j else false.
Proof.
  revert bs. induction fuel as [|fuel IH]; intros bs Hbs Hs Hf; cbn [ensure_loop].
  - destruct (Nat.leb_spec (length bs) slot); [lia|]. exists bs. repeat (split; [done || lia|]). intros j Hj.
    destruct (decide (covered bs j)); [done|]. by apply mbit_uncovered.
  - destruct (Nat.leb_spec (length bs) slot) as [Hle|].
    2:{ exists bs. repeat (split; [done || lia|]). intros j Hj.
        destruct (decide (covered bs j)); [done|]. by apply mbit_uncovered. }
    destruct (fresh_bitmap_spec (Z.of_nat (length bs))) as (b & Eb & Hb & Hbits); [lia|unfold PAGES_PER_BITMAP in *; lia|].
    rewrite Eb, Some_bind. destruct (IH (bs ++ [b])) as (bs' & E & Hbs' & Hl & Hm);
      [by apply bs_ok_snoc|done|rewrite length_app; cbn [length]; lia|].
    exists bs'. split; [done|]. split; [done|]. rewrite length_app in Hl. cbn [length] in Hl.
    split; [lia|]. intros j Hj. rewrite Hm, (mbit_snoc bs b j) by done.
    assert (covered bs j -> covered (bs ++ [b]) j) as Hmono1.
    { unfold covered. rewrite length_app. cbn [length]. unfold PAGES_PER_BITMAP. lia. }
    assert (covered (bs ++ [b]) j -> covered bs' j) as Hmono2.
    { unfold covered. rewrite length_app. cbn [length]. unfold PAGES_PER_BITMAP. lia. }
    repeat case_decide; tauto.
Qed.

(** ** The allocator's invariant

    [live] is the set of pages handed out and not freed since.  Exactly the live
    and the reserved pages have their bit set, every other page below
    [next_free_page_id] is in the cache once, and the counters agree. *)

Record alloc_inv (live : gset Z) (m : PageManager) : Prop := {
  ai_bs : bs_ok (bitmaps m);
  ai_next : FIRST_DATA_PAGE_ID <= next_free_page_id (superblock m) <= MAX_ADDRESSABLE_PAGE_ID + 1;
  ai_cover : next_free_page_id (superblock m) <= Z.of_nat (length (bitmaps m)) * PAGES_PER_BITMAP;
  ai_bits : forall id, covered (bitmaps m) id -> mbit (bitmaps m) id = reserved id || bool_decide (id ∈ live);
  ai_live : forall id, id ∈ live -> reserved id = false /\ id < next_free_page_id (superblock m);
  ai_nodup : NoDup (pages (free_cache m));
  ai_cached : forall id, id ∈ pages (free_cache m) <->
    (reserved id = false /\ id < next_free_page_id (superblock m) /\ id ∉ live);
  ai_free : free_page_count (superblock m) = Z.of_nat (length (pages (free_cache m)));
  ai_total : total_page_count (superblock m) = next_free_page_id (superblock m)
}.

Lemma not_reserved_ge id : reserved id = false -> FIRST_DATA_PAGE_ID <= id.
Proof. unfold reserved. intros [H _]%orb_false_iff. by apply Z.ltb_ge in H. Qed.

Lemma max_addressable : MAX_ADDRESSABLE_PAGE_ID = 2 ^ 51 - 2.
Proof. reflexivity. Qed.

(** One turn of the allocation loop below the limit. *)
Lemma extend_spec live m fuel :
  alloc_inv live m -> let pid := next_free_page_id (superblock m) in pid <= MAX_ADDRESSABLE_PAGE_ID ->
  exists m', allocate_loop m (S fuel) = (if is_bitmap_page pid then allocate_loop m' fuel else Some (Ok pid, m')) /\
    alloc_inv (if is_bitmap_page pid then live else {[pid]} ∪ live) m' /\
    next_free_page_id (superblock m') = pid + 1 /\ pid ∉ live.
Proof.
  intros [Hbs Hn Hcov Hbits Hlive Hnd Hc Hfree Htot] pid Hmax. fold pid in Hn, Hcov, Hlive, Hc, Htot.
  rewrite max_addressable in Hmax. unfold FIRST_DATA_PAGE_ID in Hn.
  cbn [allocate_loop]. fold pid. rewrite max_addressable. destruct (Z.ltb_spec (2 ^ 51 - 2) pid) as [|_]; [lia|].
  rewrite Htot. assert (wrap 64 (pid + 1) = pid + 1) as -> by (apply wrap_id; unfold uint; lia).
  pose proof (region_in pid ltac:(lia)) as Hreg.
  destruct (ensure_loop_spec (S (region pid) - length (bitmaps m)) (bitmaps m) (region pid)) as (bs1 & E1 & Hbs1 & Hl1 & Hm1);
    [done|unfold in_region, PAGES_PER_BITMAP in *; lia|lia|].
  destruct (bitmaps_allocate_spec bs1 pid) as (bs2 & E2 & Hbs2 & Hl2 & Hm2);
    [done|apply covered_region; lia|].
  unfold ensure_bitmap. cbn [with_sb bitmaps]. rewrite E1, !Some_bind. cbn [with_bitmaps bitmaps].
  rewrite E2, Some_bind. eexists. split; [reflexivity|]. cbn [with_bitmaps with_sb superblock set_sb_counts next_free_page_id].
  assert (pid ∉ live) as Hpl by (intros H; destruct (Hlive _ H); lia).
  split; [|done]. split; cbn [with_bitmaps with_sb superblock set_sb_counts next_free_page_id bitmaps free_cache
    total_page_count free_page_count].
  - done.
  - rewrite max_addressable. unfold FIRST_DATA_PAGE_ID. lia.
  - rewrite Hl2, Hl1. unfold in_region, PAGES_PER_BITMAP in *. lia.
  - intros id Hid. assert (0 <= id) as H0 by (unfold covered in Hid; lia).
    rewrite Hm2, Hm1 by done. destruct (decide (id = pid)) as [->|Hne].
    + destruct (is_bitmap_page pid) eqn:Eb; [unfold reserved; by rewrite Eb, orb_true_r|].
      rewrite (bool_decide_true (pid ∈ {[pid]} ∪ live)) by set_solver. by rewrite orb_true_r.
    + assert (bool_decide (id ∈ (if is_bitmap_page pid then live else {[pid]} ∪ live)) = bool_decide (id ∈ live)) as ->.
      { destruct (is_bitmap_page pid); [done|]. apply bool_decide_ext. set_solver. }
      destruct (decide (covered (bitmaps m) id)) as [Hci|Hci]; [by apply Hbits|].
      rewrite decide_True by (unfold covered in *; by rewrite <- Hl2).
      rewrite bool_decide_false; [by rewrite orb_false_r|]. intros Hin.
      destruct (Hlive _ Hin). apply Hci. unfold covered. lia.
  - intros id Hid. destruct (is_bitmap_page pid) eqn:Eb; [destruct (Hlive _ Hid); split; [done|lia]|].
    apply elem_of_union in Hid as [->%elem_of_singleton|Hid]; [|destruct (Hlive _ Hid); split; [done|lia]].
    split; [|lia]. unfold reserved. rewrite Eb, orb_false_r. apply Z.ltb_ge. unfold FIRST_DATA_PAGE_ID. lia.
  - done.
  - intros id. rewrite Hc. split.
    + intros (H1 & H2 & H3). split; [done|]. split; [lia|]. destruct (is_bitmap_page pid); [done|].
      apply not_elem_of_union. split; [|done]. rewrite elem_of_singleton. lia.
    + intros (H1 & H2 & H3). split; [done|]. destruct (is_bitmap_page pid) eqn:Eb.
      * split; [|done]. destruct (decide (id = pid)) as [->|]; [|lia]. unfold reserved in H1. by rewrite Eb, orb_true_r in H1.
      * apply not_elem_of_union in H3 as [H3 H4]. rewrite elem_of_singleton in H3. split; [lia|done].
  - done.
  - done.
Qed.

(** After a bitmap page comes a data page, so two turns suffice. *)
Lemma bitmap_pages_apart pid : FIRST_DATA_PAGE_ID <= pid -> is_bitmap_page pid = true -> is_bitmap_page (pid + 1) = false.
Proof.
  unfold is_bitmap_page, FIRST_DATA_PAGE_ID, FIRST_BITMAP_PAGE_ID, PAGES_PER_BITMAP. intros H.
  rewrite orb_true_iff, andb_true_iff, negb_true_iff, Z.eqb_eq, Z.eqb_neq, Z.eqb_eq.
  intros [|[_ E]]; [lia|]. apply orb_false_iff. split; [apply Z.eqb_neq; lia|]. apply andb_false_iff. right. apply Z.eqb_neq.
  rewrite <- Zplus_mod_idemp_l, E. by vm_compute.
Qed.

Definition fresh_page (live : gset Z) (id : Z) : Prop :=
  id ∉ live /\ reserved id = false /\ id <= MAX_ADDRESSABLE_PAGE_ID.

Lemma allocate_loop_spec live m :
  alloc_inv live m ->
  exists r m', allocate_loop m 3 = Some (r, m') /\
    match r with
    | Ok id => fresh_page live id /\ alloc_inv ({[id]} ∪ live) m'
    | Err e => e = OutOfMemory /\ alloc_inv live m' /\ MAX_ADDRESSABLE_PAGE_ID - 1 < next_free_page_id (superblock m)
    end.
Proof.
  intros Hi. set (pid := next_free_page_id (superblock m)).
  destruct (Z.ltb_spec MAX_ADDRESSABLE_PAGE_ID pid) as [Hlt|Hle].
  { exists (Err OutOfMemory), m. cbn [allocate_loop]. fold pid.
    destruct (Z.ltb_spec MAX_ADDRESSABLE_PAGE_ID pid); [|lia]. repeat (split; [done|]). lia. }
  destruct (extend_spec live m 2 Hi Hle) as (m1 & E1 & Hi1 & Hn1 & Hp1). fold pid in E1, Hi1, Hn1, Hp1.
  pose proof (ai_next _ _ Hi) as Hrange. fold pid in Hrange.
  destruct (is_bitmap_page pid) eqn:Eb.
  2:{ exists (Ok pid), m1. split; [done|]. split; [|done]. split; [done|]. split; [|lia].
      unfold reserved. rewrite Eb, orb_false_r. apply Z.ltb_ge. lia. }
  rewrite E1. destruct (Z.ltb_spec MAX_ADDRESSABLE_PAGE_ID (pid + 1)) as [Hlt|Hle2].
  { exists (Err OutOfMemory), m1. cbn [allocate_loop]. rewrite Hn1.
    destruct (Z.ltb_spec MAX_ADDRESSABLE_PAGE_ID (pid + 1)); [|lia]. repeat (split; [done|]). lia. }
  destruct (extend_spec live m1 1 Hi1 ltac:(by rewrite Hn1)) as (m2 & E2 & Hi2 & Hn2 & Hp2).
  rewrite Hn1 in E2, Hi2, Hn2, Hp2. rewrite (bitmap_pages_apart pid) in E2, Hi2 by (done || lia).
  exists (Ok (pid + 1)), m2. split; [done|]. split; [|done]. split; [done|]. split; [|lia].
  unfold reserved. rewrite (bitmap_pages_apart pid), orb_false_r by (done || lia). apply Z.ltb_ge. lia.
Qed.

Lemma cache_pop_spec c : match cache_pop c with
  | (None, c') => pages c = [] /\ c' = c
  | (Some p, c') => pages c = pages c' ++ [p] /\ batch_size c' = batch_size c
  end.
Proof.
  unfold cache_pop. destruct (last (pages c)) as [p|] eqn:E.
  - apply last_Some in E as [l E]. cbn [pages batch_size]. split; [|done]. rewrite E, length_app. cbn [length].
    rewrite Nat.add_sub, take_app_length by done. done.
  - by apply last_None in E.
Qed.

(** Taking the page on top of the cache. *)
Lemma pop_inv live m l pid bs c :
  alloc_inv live m -> pages (free_cache m) = l ++ [pid] -> pages c = l -> bs_ok bs ->
  length bs = length (bitmaps m) ->
  (forall j, 0 <= j -> mbit bs j = if decide (j = pid) then true else mbit (bitmaps m) j) ->
  alloc_inv ({[pid]} ∪ live)
    (mkPm (set_free_count (superblock m) (Z.max 0 (free_page_count (superblock m) - 1))) bs c).
Proof.
  intros [Hbs Hn Hcov Hbits Hlive Hnd Hc Hfree Htot] El Ec Hbs' Hlen Hm.
  assert (pid ∈ pages (free_cache m)) as Hin by (rewrite El; set_solver).
  destruct (proj1 (Hc pid) Hin) as (Hr & Hlt & Hnl).
  rewrite El in Hnd. apply NoDup_app in Hnd as (Hnd & Hdisj & _).
  split; cbn [superblock set_free_count set_sb_counts next_free_page_id bitmaps free_cache total_page_count free_page_count].
  - done.
  - done.
  - by rewrite Hlen.
  - intros id Hid. unfold covered in Hid. rewrite Hlen in Hid. rewrite Hm by lia.
    destruct (decide (id = pid)) as [->|Hne].
    + rewrite bool_decide_true by set_solver. by rewrite orb_true_r.
    + rewrite Hbits by done. f_equal. apply bool_decide_ext. set_solver.
  - intros id [->%elem_of_singleton|Hid]%elem_of_union; [done|by apply Hlive].
  - by rewrite Ec.
  - intros id. rewrite Ec. split.
    + intros H. destruct (proj1 (Hc id)) as (H1 & H2 & H3); [rewrite El; set_solver|].
      split; [done|]. split; [done|]. intros [->%elem_of_singleton|]%elem_of_union; [|done].
      eapply Hdisj; [exact H|set_solver].
    + intros (H1 & H2 & H3). assert (id ∈ pages (free_cache m)) as H by (apply Hc; set_solver).
      rewrite El in H. set_solver.
  - rewrite Ec, Hfree, El, length_app. cbn [length]. lia.
  - done.
Qed.

Lemma try_allocate_spec live m :
  alloc_inv live m ->
  exists r m', try_allocate_page m = Some (r, m') /\
    match r with
    | Ok id => fresh_page live id /\ alloc_inv ({[id]} ∪ live) m'
    | Err e => e = OutOfMemory /\ alloc_inv live m' /\ pages (free_cache m) = [] /\
        MAX_ADDRESSABLE_PAGE_ID - 1 < next_free_page_id (superblock m)
    end.
Proof.
  intros Hi. unfold try_allocate_page. pose proof (cache_pop_spec (free_cache m)) as Hp.
  destruct (cache_pop (free_cache m)) as [[pid|] c].
  - destruct Hp as [El _]. assert (pid ∈ pages (free_cache m)) as Hin by (rewrite El; set_solver).
    destruct (proj1 (ai_cached _ _ Hi pid) Hin) as (Hr & Hlt & Hnl).
    pose proof (not_reserved_ge _ Hr) as Hge. unfold FIRST_DATA_PAGE_ID in Hge. pose proof (ai_cover _ _ Hi).
    assert (covered (bitmaps m) pid) as Hcov by (unfold covered; lia). cbn [with_cache bitmaps].
    destruct (Nat.ltb_spec (region pid) (length (bitmaps m))) as [_|Hbad];
      [|apply covered_region in Hcov; lia].
    destruct (bitmaps_allocate_spec _ _ (ai_bs _ _ Hi) Hcov) as (bs & -> & Hbs & Hlen & Hm). rewrite Some_bind.
    eexists _, _. split; [reflexivity|]. pose proof (ai_next _ _ Hi). split.
    + split; [done|]. split; [done|]. lia.
    + exact (pop_inv live m (pages c) pid bs c Hi El eq_refl Hbs Hlen Hm).
  - destruct Hp as [Hemp ->]. destruct (allocate_loop_spec live m Hi) as (r & m' & E & Hr).
    exists r, m'. split; [done|]. destruct r; [done|]. tauto.
Qed.

(** Freeing a live page. *)
Lemma push_inv live m pid bs :
  alloc_inv live m -> pid ∈ live -> bs_ok bs -> length bs = length (bitmaps m) ->
  (forall j, 0 <= j -> mbit bs j = if decide (j = pid) then false else mbit (bitmaps m) j) ->
  Z.of_nat (length (pages (free_cache m))) + 1 < 2 ^ 64 ->
  alloc_inv (live ∖ {[pid]})
    (mkPm (set_free_count (superblock m) (wrap 64 (free_page_count (superblock m) + 1))) bs (cache_push (free_cache m) pid)).
Proof.
  intros [Hbs Hn Hcov Hbits Hlive Hnd Hc Hfree Htot] Hin Hbs' Hlen Hm Hbound.
  destruct (Hlive pid Hin) as [Hr Hlt]. assert (pid ∉ pages (free_cache m)) as Hnc by (rewrite Hc; tauto).
  split; cbn [superblock set_free_count set_sb_counts next_free_page_id bitmaps free_cache total_page_count
    free_page_count cache_push pages].
  - done.
  - done.
  - by rewrite Hlen.
  - intros id Hid. unfold covered in Hid. rewrite Hlen in Hid. rewrite Hm by lia.
    destruct (decide (id = pid)) as [->|Hne].
    + rewrite Hr, bool_decide_false by set_solver. done.
    + rewrite Hbits by done. f_equal. apply bool_decide_ext. set_solver.
  - intros id [Hid _]%elem_of_difference. by apply Hlive.
  - apply NoDup_app. split; [done|]. split; [|apply NoDup_singleton]. intros x Hx ->%list_elem_of_singleton. done.
  - intros id. rewrite elem_of_app, list_elem_of_singleton, Hc. split.
    + intros [(H1 & H2 & H3)| ->]; [set_solver|]. split; [done|]. split; [done|]. set_solver.
    + intros (H1 & H2 & H3). destruct (decide (id = pid)) as [->|]; [by right|]. left. set_solver.
  - rewrite length_app, Hfree. cbn [length]. rewrite wrap_id by (unfold uint; lia). lia.
  - done.
Qed.

(** The pages below [next_free_page_id] bound the cache. *)
Lemma cache_bound live m : alloc_inv live m -> Z.of_nat (length (pages (free_cache m))) <= 2 ^ 51.
Proof.
  intros Hi. pose proof (ai_next _ _ Hi) as Hn. rewrite max_addressable in Hn.
  assert (length (pages (free_cache m)) <= Z.to_nat (next_free_page_id (superblock m)))%nat; [|lia].
  rewrite <- (length_seqZ 0 (next_free_page_id (superblock m))). apply submseteq_length, NoDup_submseteq; [apply Hi|].
  intros id Hid. apply (ai_cached _ _ Hi) in Hid as (Hr & Hlt & _). apply not_reserved_ge in Hr.
  unfold FIRST_DATA_PAGE_ID in *. apply elem_of_seqZ. lia.
Qed.

Lemma free_page_spec live m pid :
  alloc_inv live m ->
  exists m' told, free_page m pid = Some (m', told) /\ alloc_inv (live ∖ {[pid]}) m' /\
    (told = true <-> pid ∈ live) /\ (pid ∉ live -> m' = m).
Proof.
  intros Hi. unfold free_page. fold (reserved pid). destruct (reserved pid) eqn:Hr.
  { assert (pid ∉ live) by (intros H; destruct (ai_live _ _ Hi _ H); congruence).
    exists m, false. replace (live ∖ {[pid]}) with live by set_solver. by split_and!. }
  pose proof (not_reserved_ge _ Hr) as Hge. unfold FIRST_DATA_PAGE_ID in Hge.
  destruct (decide (covered (bitmaps m) pid)) as [Hc|Hc].
  2:{ assert (pid ∉ live).
      { intros H. destruct (ai_live _ _ Hi _ H). pose proof (ai_cover _ _ Hi). apply Hc. unfold covered. lia. }
      rewrite (covered_region (bitmaps m) pid ltac:(lia)) in Hc. rewrite lookup_ge_None_2 by lia.
      exists m, false. replace (live ∖ {[pid]}) with live by set_solver. by split_and!. }
  destruct (covered_lookup _ _ (ai_bs _ _ Hi) Hc) as (b & Eb & Hb & Hin). rewrite Eb.
  rewrite (is_set_bit _ b Hb pid Hin), Some_bind.
  assert (bit b pid = bool_decide (pid ∈ live)) as ->.
  { pose proof (ai_bits _ _ Hi pid Hc) as H. unfold mbit in H. by rewrite Eb, Hr in H. }
  case_bool_decide as Hl; cbn [negb].
  2:{ exists m, false. replace (live ∖ {[pid]}) with live by set_solver. by split_and!. }
  destruct (bitmaps_free_spec _ _ (ai_bs _ _ Hi) Hc) as (bs & -> & Hbs & Hlen & Hm). rewrite Some_bind.
  eexists _, true. split; [reflexivity|]. split; [|done].
  apply (push_inv live m pid bs Hi Hl Hbs Hlen Hm). pose proof (cache_bound live m Hi). lia.
Qed.

(** ** Reading the bitmap back *)

Lemma bit_at_bit slot b i : bm_ok slot b -> 0 <= i < PAGES_PER_BITMAP ->
  bit_at b i = Some (bit b (slot * PAGES_PER_BITMAP + i)).
Proof.
  intros Hb Hi. assert (in_region slot (slot * PAGES_PER_BITMAP + i)) as Hr by (unfold in_region; lia).
  rewrite <- (is_set_bit slot b Hb _ Hr). unfold is_set. rewrite (local_eq slot b Hb _ Hr). f_equal. lia.
Qed.

Lemma global_id slot b i : bm_ok slot b -> 0 <= i < PAGES_PER_BITMAP ->
  wrap 64 (base_page_id b + i) = slot * PAGES_PER_BITMAP + i.
Proof.
  intros Hb Hi. rewrite (base_eq slot b Hb). apply wrap_id.
  destruct Hb as (_ & H0 & H1 & _). unfold uint, PAGES_PER_BITMAP in *. lia.
Qed.

Lemma allocated_loop_spec slot b n i :
  bm_ok slot b -> 0 <= i -> i + Z.of_nat n <= PAGES_PER_BITMAP ->
  exists l, allocated_loop b n i = Some l /\ forall id, id ∈ l <->
    (slot * PAGES_PER_BITMAP + i <= id < slot * PAGES_PER_BITMAP + i + Z.of_nat n /\ bit b id = true).
Proof.
  intros Hb. revert i. induction n as [|n IH]; intros i H0 Hn; cbn [allocated_loop].
  { exists []. split; [done|]. intros id. rewrite elem_of_nil. lia. }
  rewrite (bit_at_bit slot b i Hb ltac:(lia)), Some_bind.
  destruct (IH (i + 1) ltac:(lia) ltac:(lia)) as (l & -> & Hl). rewrite Some_bind.
  rewrite (global_id slot b i Hb ltac:(lia)).
  destruct (bit b (slot * PAGES_PER_BITMAP + i)) eqn:E; eexists; (split; [reflexivity|]); intros id.
  - rewrite elem_of_cons, Hl. split.
    + intros [->|[? ?]]; split; done || lia.
    + intros [? ?]. destruct (decide (id = slot * PAGES_PER_BITMAP + i)); [by left|right; split; [lia|done]].
  - rewrite Hl. split; intros [? ?]; (split; [|done]); [lia|].
    destruct (decide (id = slot * PAGES_PER_BITMAP + i)); [congruence|lia].
Qed.

(** [find_first_free] returns the lowest free page at or after the start. *)
Lemma find_free_loop_spec slot b n i :
  bm_ok slot b -> 0 <= i -> i + Z.of_nat n <= PAGES_PER_BITMAP ->
  exists r, find_free_loop b n i = Some r /\
    match r with
    | Some id => slot * PAGES_PER_BITMAP + i <= id < slot * PAGES_PER_BITMAP + i + Z.of_nat n /\ bit b id = false /\
        forall j, slot * PAGES_PER_BITMAP + i <= j < id -> bit b j = true
    | None => forall j, slot * PAGES_PER_BITMAP + i <= j < slot * PAGES_PER_BITMAP + i + Z.of_nat n -> bit b j = true
    end.
Proof.
  intros Hb. revert i. induction n as [|n IH]; intros i H0 Hn; cbn [find_free_loop].
  { exists None. split; [done|]. intros j. lia. }
  rewrite (bit_at_bit slot b i Hb ltac:(lia)), Some_bind.
  destruct (bit b (slot * PAGES_PER_BITMAP + i)) eqn:E.
  - destruct (IH (i + 1) ltac:(lia) ltac:(lia)) as (r & -> & Hr). exists r. split; [done|].
    assert (forall j, slot * PAGES_PER_BITMAP + i <= j ->
      j = slot * PAGES_PER_BITMAP + i \/ slot * PAGES_PER_BITMAP + (i + 1) <= j) as Hj by lia.
    destruct r as [id|].
    + destruct Hr as (Hr & Hf & Ha). split; [lia|]. split; [done|]. intros j Hlt.
      destruct (Hj j ltac:(lia)) as [->|]; [done|]. apply Ha. lia.
    + intros j Hlt. destruct (Hj j ltac:(lia)) as [->|]; [done|]. apply Hr. lia.
  - rewrite (global_id slot b i Hb ltac:(lia)). eexists. split; [reflexivity|]. split; [lia|]. split; [done|]. lia.
Qed.

Lemma all_allocated_spec bs k :
  (forall i b, bs !! i = Some b -> bm_ok (Z.of_nat (k + i)) b) ->
  exists ids, all_allocated bs = Some ids /\ forall id, id ∈ ids <->
    exists i b, bs !! i = Some b /\ in_region (Z.of_nat (k + i)) id /\ bit b id = true.
Proof.
  revert k. induction bs as [|b bs IH]; intros k Hbs; cbn [all_allocated].
  { exists []. split; [done|]. intros id. rewrite elem_of_nil. split; [done|]. by intros (i & b & ? & _). }
  pose proof (Hbs 0%nat b eq_refl) as Hb. rewrite Nat.add_0_r in Hb.
  destruct (allocated_loop_spec _ b (Z.to_nat PAGES_PER_BITMAP) 0 Hb ltac:(lia)) as (l & El & Hl);
    [unfold PAGES_PER_BITMAP; lia|].
  unfold bitmap_allocated_pages. rewrite El, Some_bind.
  destruct (IH (S k)) as (ids & -> & Hids).
  { intros i c Hc. replace (S k + i)%nat with (k + S i)%nat by lia. by apply Hbs. }
  rewrite Some_bind. eexists. split; [reflexivity|]. intros id. rewrite elem_of_app, Hl, Hids. split.
  - intros [[Hr Hbit]|(i & c & Hc & Hin & Hbit)].
    + exists 0%nat, b. split; [done|]. split; [|done]. rewrite Nat.add_0_r. unfold in_region, PAGES_PER_BITMAP in *. lia.
    + exists (S i), c. split; [done|]. split; [|done]. by replace (k + S i)%nat with (S k + i)%nat by lia.
  - intros ([|i] & c & Hc & Hin & Hbit).
    + left. injection Hc as <-. split; [|done]. rewrite Nat.add_0_r in Hin. unfold in_region, PAGES_PER_BITMAP in *. lia.
    + right. exists i, c. split; [done|]. split; [|done]. by replace (S k + i)%nat with (k + S i)%nat by lia.
Qed.

Lemma allocated_pages_spec m :
  bs_ok (bitmaps m) ->
  exists ids, allocated_pages m = Some ids /\
    forall id, id ∈ ids <-> covered (bitmaps m) id /\ mbit (bitmaps m) id = true.
Proof.
  intros Hbs. destruct (all_allocated_spec (bitmaps m) 0) as (ids & E & Hids); [exact Hbs|].
  exists ids. split; [done|]. intros id. rewrite Hids. split.
  - intros (i & b & Eb & Hin & Hbit). cbn [Nat.add] in Hin.
    assert (region id = i) as Er by (rewrite (in_region_unique (Z.of_nat i)) by (done || lia); lia).
    pose proof (lookup_lt_Some _ _ _ Eb). assert (0 <= id) by (unfold in_region, PAGES_PER_BITMAP in Hin; lia).
    split; [apply covered_region; [done|lia]|]. unfold mbit. by rewrite Er, Eb.
  - intros [Hc Hm]. destruct (covered_lookup _ _ Hbs Hc) as (b & Eb & Hb & Hin).
    exists (region id), b. split; [done|]. split; [done|]. unfold mbit in Hm. by rewrite Eb in Hm.
Qed.

(** The list of allocated pages names each page once. *)
Lemma allocated_loop_nodup slot b n i l :
  bm_ok slot b -> 0 <= i -> i + Z.of_nat n <= PAGES_PER_BITMAP -> allocated_loop b n i = Some l -> NoDup l.
Proof.
  intros Hb. revert i l. induction n as [|n IH]; intros i l H0 Hn; cbn [allocated_loop].
  { intros [= <-]. constructor. }
  rewrite (bit_at_bit slot b i Hb ltac:(lia)), Some_bind.
  destruct (allocated_loop_spec slot b n (i + 1) Hb ltac:(lia) ltac:(lia)) as (l1 & E1 & Hl1).
  rewrite E1, Some_bind, (global_id slot b i Hb ltac:(lia)). specialize (IH (i + 1) l1 ltac:(lia) ltac:(lia) E1).
  intros [= <-]. destruct (bit b _); [|done]. constructor; [|done]. rewrite Hl1. lia.
Qed.

Lemma all_allocated_nodup bs k ids :
  (forall i b, bs !! i = Some b -> bm_ok (Z.of_nat (k + i)) b) -> all_allocated bs = Some ids -> NoDup ids.
Proof.
  revert k ids. induction bs as [|b bs IH]; intros k ids Hbs; cbn [all_allocated]; [intros [= <-]; constructor|].
  pose proof (Hbs 0%nat b eq_refl) as Hb. rewrite Nat.add_0_r in Hb.
  assert (forall i c, bs !! i = Some c -> bm_ok (Z.of_nat (S k + i)) c) as Hbs'.
  { intros i c Hc. replace (S k + i)%nat with (k + S i)%nat by lia. by apply Hbs. }
  destruct (allocated_loop_spec _ b (Z.to_nat PAGES_PER_BITMAP) 0 Hb ltac:(lia)) as (l & El & Hl); [unfold PAGES_PER_BITMAP; lia|].
  destruct (all_allocated_spec bs (S k) Hbs') as (ids1 & E1 & Hids).
  unfold bitmap_allocated_pages. rewrite El, Some_bind, E1, Some_bind. intros [= <-]. apply NoDup_app. split; [|split].
  - by eapply (allocated_loop_nodup _ b (Z.to_nat PAGES_PER_BITMAP) 0); [exact Hb|lia|unfold PAGES_PER_BITMAP; lia|].
  - intros id [Hr _]%Hl (i & c & _ & Hin & _)%Hids. unfold in_region, PAGES_PER_BITMAP in *. lia.
  - by apply (IH (S k)).
Qed.

(** ** Every run of the allocator from a new database *)

Section Runs.
Context `{CS : Checksums}.

Lemma checksum_bitmap slot b : bm_ok slot b ->
  let b' := mkBitmap (update_checksum_bytes (bm_page b)) (bitmap_slot b) in
  bm_ok slot b' /\ forall j, in_region slot j -> bit b' j = bit b j.
Proof.
  intros Hb b'. pose proof Hb as (H1 & H2 & H3 & Hl & Hu). pose proof PAGE_SIZE_eq.
  assert (forall i, (HEADER_SIZE <= i)%nat -> bm_page b' !! i = bm_page b !! i) as Hlook.
  { intros i Hi. unfold b', update_checksum_bytes, HEADER_SIZE in *. cbn [bm_page].
    rewrite lookup_write_at by (rewrite length_to_le; lia). rewrite decide_False; [done|]. rewrite length_to_le. lia. }
  assert (bm_ok slot b') as Hb'.
  { unfold bm_ok, b', update_checksum_bytes. cbn [bm_page bitmap_slot].
    rewrite length_write_at by (rewrite length_to_le; lia).
    refine (conj H1 (conj H2 (conj H3 (conj Hl _)))). unfold write_at.
    apply Forall_app. split; [by apply Forall_take|]. apply Forall_app. split; [apply to_le_ok|by apply Forall_drop]. }
  split; [done|]. intros j Hj. unfold bit, is_set, bit_at.
  change (local_index b' j) with (local_index b j). by rewrite Hlook by (unfold byte_pos; lia).
Qed.

Lemma pm_init_inv page_size : exists m, pm_init page_size = Some m /\ alloc_inv ∅ m.
Proof.
  assert (0 <= 0 /\ (0 + 1) * PAGES_PER_BITMAP <= 2 ^ 64) as [H0 H1] by (unfold PAGES_PER_BITMAP; lia).
  unfold pm_init.
  destruct (allocate_spec 0 _ (bitmap_new_ok FIRST_BITMAP_PAGE_ID 0 H0 H1) PRIMARY_SB_PAGE_ID) as (b1 & E1 & Hb1 & B1);
    [unfold in_region, PRIMARY_SB_PAGE_ID, PAGES_PER_BITMAP; lia|].
  destruct (allocate_spec 0 b1 Hb1 MIRROR_SB_PAGE_ID) as (b2 & E2 & Hb2 & B2);
    [unfold in_region, MIRROR_SB_PAGE_ID, PAGES_PER_BITMAP; lia|].
  destruct (allocate_spec 0 b2 Hb2 FIRST_BITMAP_PAGE_ID) as (b3 & E3 & Hb3 & B3);
    [unfold in_region, FIRST_BITMAP_PAGE_ID, PAGES_PER_BITMAP; lia|].
  rewrite E1, Some_bind, E2, Some_bind, E3, Some_bind. eexists. split; [reflexivity|].
  destruct (checksum_bitmap 0 b3 Hb3) as [Hb4 B4].
  assert (bs_ok [mkBitmap (update_checksum_bytes (bm_page b3)) (bitmap_slot b3)]) as Hbs.
  { intros i b [-> <-]%list_lookup_singleton_Some. done. }
  split; cbn [superblock bitmaps free_cache]; unfold sb_update_checksum, set_checksum, set_sb_counts, cache_new;
    cbn [next_free_page_id free_page_count total_page_count pages length].
  - done.
  - by vm_compute.
  - by vm_compute.
  - intros id Hid. destruct (covered_lookup _ _ Hbs Hid) as (b & Eb & _ & Hin). unfold mbit. rewrite Eb.
    apply list_lookup_singleton_Some in Eb as [Er <-]. rewrite Er in Hin. cbn [Z.of_nat] in Hin.
    rewrite B4, B3, B2, B1, bitmap_new_bits, (reserved_region 0 id H0 Hin) by done.
    destruct (decide (0 = 0)) as [_|]; [|done]. rewrite (bool_decide_false (id ∈ ∅)) by set_solver. rewrite orb_false_r.
    unfold FIRST_BITMAP_PAGE_ID, PRIMARY_SB_PAGE_ID, MIRROR_SB_PAGE_ID. unfold in_region in Hin.
    symmetry. repeat case_decide; (apply bool_decide_eq_true || apply bool_decide_eq_false); lia.
  - intros id Hid. set_solver.
  - constructor.
  - intros id. split; [by intros ?%not_elem_of_nil|]. intros (Hr & Hlt & _). apply not_reserved_ge in Hr. lia.
  - done.
  - done.
Qed.

(** The runs: allocations (which may fail) and frees of any page numbers, in
    any order; [live] are the pages handed out and not freed since. *)
Inductive reachable : gset Z -> PageManager -> Prop :=
| reach_init page_size m : pm_init page_size = Some m -> reachable ∅ m
| reach_alloc live m id m' : reachable live m -> try_allocate_page m = Some (Ok id, m') ->
    reachable ({[id]} ∪ live) m'
| reach_full live m e m' : reachable live m -> try_allocate_page m = Some (Err e, m') -> reachable live m'
| reach_free live m id m' told : reachable live m -> free_page m id = Some (m', told) ->
    reachable (live ∖ {[id]}) m'.

Lemma reachable_inv live m : reachable live m -> alloc_inv live m.
Proof.
  induction 1 as [ps m E|live m id m' _ IH E|live m e m' _ IH E|live m id m' told _ IH E].
  - destruct (pm_init_inv ps) as (m1 & E1 & Hi). by simplify_eq.
  - destruct (try_allocate_spec live m IH) as (r & m1 & E1 & Hr). rewrite E1 in E. injection E as -> ->. apply Hr.
  - destruct (try_allocate_spec live m IH) as (r & m1 & E1 & Hr). rewrite E1 in E. injection E as -> ->. apply Hr.
  - destruct (free_page_spec live m id IH) as (m1 & t & E1 & Hr & _). by simplify_eq.
Qed.

Lemma fresh_page_offset live id : fresh_page live id -> checked_page_offset id = Ok (id * 8192).
Proof.
  intros (_ & Hr & Hm). apply not_reserved_ge in Hr. rewrite max_addressable in Hm. unfold FIRST_DATA_PAGE_ID in Hr.
  unfold checked_page_offset, checked_mul, checked_add.
  destruct (Z.ltb_spec (id * 8192) (2 ^ 64)); [|lia]. destruct (Z.ltb_spec (id * 8192 + 8192) (2 ^ 64)); [done|lia].
Qed.

(** C27: no page is ever handed out twice.  After any sequence of allocations
    and frees from a new database, nothing panics, and an allocation either
    returns a page that is not live, is neither a superblock copy nor a bitmap
    page and has an addressable byte range, or fails with [OutOfMemory] when
    the address space is exhausted; a free takes effect exactly on live pages
    and is a no-op otherwise (double frees and metadata pages included); the
    bitmaps list exactly the reserved and live pages; and every other page
    below the high-water mark is in the cache, so none is lost. *)
Theorem page_allocation_safe (live : gset Z) (m : PageManager) (pid : Z) :
  reachable live m ->
  (exists r m', try_allocate_page m = Some (r, m') /\
     match r with
     | Ok id => id ∉ live /\ FIRST_DATA_PAGE_ID <= id /\ is_bitmap_page id = false /\
         checked_page_offset id = Ok (id * 8192)
     | Err e => e = OutOfMemory /\ pages (free_cache m) = [] /\
         MAX_ADDRESSABLE_PAGE_ID - 1 < next_free_page_id (superblock m)
     end) /\
  (exists m' told, free_page m pid = Some (m', told) /\ (told = true <-> pid ∈ live) /\ (pid ∉ live -> m' = m)) /\
  (exists ids, allocated_pages m = Some ids /\
     forall id, id ∈ ids <-> covered (bitmaps m) id /\ (reserved id = true \/ id ∈ live)) /\
  (forall id, reserved id = false -> id < next_free_page_id (superblock m) ->
     id ∈ live \/ id ∈ pages (free_cache m)) /\
  free_page_count (superblock m) = Z.of_nat (length (pages (free_cache m))).
Proof.
  intros Hr. pose proof (reachable_inv live m Hr) as Hi. split; [|split; [|split; [|split]]].
  - destruct (try_allocate_spec live m Hi) as (r & m' & E & Hres). exists r, m'. split; [done|]. destruct r as [id|e].
    + destruct Hres as [Hf _]. pose proof (fresh_page_offset _ _ Hf). destruct Hf as (Hn & Hres & _).
      split; [done|]. split; [by apply not_reserved_ge|]. split; [|done].
      unfold reserved in Hres. by apply orb_false_iff in Hres as [_ ?].
    + tauto.
  - destruct (free_page_spec live m pid Hi) as (m' & told & E & _ & H1 & H2). by exists m', told.
  - destruct (allocated_pages_spec m (ai_bs _ _ Hi)) as (ids & E & Hids). exists ids. split; [done|]. intros id.
    rewrite Hids. split; intros [Hc H]; (split; [done|]); rewrite (ai_bits _ _ Hi id Hc) in *.
    + apply orb_true_iff in H as [?|?%bool_decide_eq_true]; auto.
    + apply orb_true_iff. destruct H as [?|?]; [by left|right; by apply bool_decide_eq_true].
  - intros id H1 H2. destruct (decide (id ∈ live)); [by left|right]. apply (ai_cached _ _ Hi). auto.
  - apply Hi.
Qed.
End Runs.

(** Allocating [n] times; the pages handed out, in order. *)
Fixpoint allocate_many (m : PageManager) (n : nat) : option (list Z) :=
  match n with
  | O => Some []
  | S n =>
      match try_allocate_page m with
      | Some (Ok id, m) => ids ← allocate_many m n; Some (id :: ids)
      | _ => None
      end
  end.

Module Demo.
#[local] Existing Instance additive_checksums.

Lemma page_allocation_safe_witness :
  exists m0 m1, pm_init 8192 = Some m0 /\ try_allocate_page m0 = Some (Ok 3, m1) /\
    (exists r m', try_allocate_page m1 = Some (r, m') /\ match r with Ok id => id <> 3 | Err _ => True end) /\
    (exists m' told, free_page m1 3 = Some (m', told) /\ told = true).
Proof.
  destruct (pm_init_inv 8192) as (m0 & E0 & _).
  assert (match pm_init 8192 with
          | Some m => match try_allocate_page m with Some (Ok id, _) => id =? 3 | _ => false end
          | None => false end = true) as H by (vm_compute; reflexivity).
  rewrite E0 in H. destruct (try_allocate_page m0) as [[[id|] m1]|] eqn:E1; try done. apply Z.eqb_eq in H as ->.
  exists m0, m1. split; [done|]. split; [done|].
  destruct (page_allocation_safe ({[3]} ∪ ∅) m1 3) as ((r & m' & E & Hr) & (m'' & told & Ef & Ht & _) & _).
  - eapply reach_alloc; [|exact E1]. by eapply reach_init.
  - split.
    + exists r, m'. split; [done|]. destruct r as [id|]; [|done]. destruct Hr as [Hr _]. set_solver.
    + exists m'', told. split; [done|]. apply Ht. set_solver.
Defined.

(** Reopening breaks it: the rebuilt cache takes the free bits from the start of
    the region, which lie at or above [next_free_page_id]; once it is used up,
    the allocation loop hands the same pages out again.  A fresh database,
    reopened, gives page 3 to the 64th and to the 65th caller. *)
Definition reopened_ids : option (list Z) :=
  m ← pm_init 8192;
  m ← open_multi (superblock m) (map bm_page (bitmaps m));
  allocate_many m 65.

Lemma reopen_allocates_twice :
  exists ids, reopened_ids = Some ids /\ ids !! 63%nat = Some 3 /\ ids !! 64%nat = Some 3.
Proof.
  assert (match reopened_ids with
          | Some ids => bool_decide (ids !! 63%nat = Some 3) && bool_decide (ids !! 64%nat = Some 3)
          | None => false end = true) as H by (vm_compute; reflexivity).
  destruct reopened_ids as [ids|]; [|done]. apply andb_true_iff in H as [H1%bool_decide_eq_true H2%bool_decide_eq_true].
  by exists ids.
Qed.
End Demo.
