(* ===== verification/BTreePage.v ===== *)
(** * B+ tree pages ([src/index/page.rs])

    A B+ tree page is a slotted page whose first 32 record bytes hold the tree
    header (siblings, rightmost child, key count, level); the slots hold leaf
    records or branch entries in key order.  Outer [None]s are panics, as in
    [SlottedPage].  The [prefix_compression] feature is off by default and its
    page operations are left out (its codec is in [Key]). *)

From stdpp Require Import prelude list.
From Stdlib Require Import ZArith Lia.
From S2P Require Import Prelude Bytes SlottedPage.

Definition BTREE_HEADER_SIZE : nat := 32.

(** ** The header at offset 64 *)

Record BTreeHeader := mkBh {
  sibling_prev : Z;
  sibling_next : Z;
  rightmost_child : Z;
  bh_key_count : Z;
  common_prefix_len : Z;
  level : Z;
  bh_reserved : list Z
}.

Definition bh_new (lvl : Z) : BTreeHeader := mkBh 0 0 0 0 0 lvl [0; 0; 0].

Definition bh_bytes (h : BTreeHeader) : list Z :=
  to_le 8 (sibling_prev h) ++ to_le 8 (sibling_next h) ++ to_le 8 (rightmost_child h) ++
  to_le 2 (bh_key_count h) ++ to_le 2 (common_prefix_len h) ++ to_le 1 (level h) ++ bh_reserved h.

Definition btree_header (p : Page) : BTreeHeader :=
  mkBh (from_le (slice p 64 72)) (from_le (slice p 72 80)) (from_le (slice p 80 88))
       (from_le (slice p 88 90)) (from_le (slice p 90 92)) (from_le (slice p 92 93)) (slice p 93 96).

Definition write_btree_header (p : Page) (h : BTreeHeader) : Page := write_at p HEADER_SIZE (bh_bytes h).

Definition set_key_count (h : BTreeHeader) (n : Z) : BTreeHeader :=
  mkBh (sibling_prev h) (sibling_next h) (rightmost_child h) n (common_prefix_len h) (level h) (bh_reserved h).

(** ** Pages *)

Definition new_page (page_id : Z) (t : PageType) (lvl : Z) : Page :=
  set_u16 (write_btree_header (init page_id t) (bh_new lvl)) FREE_OFF (Z.of_nat BTREE_HEADER_SIZE).

Definition new_leaf (page_id : Z) : Page := new_page page_id PtBTreeLeaf 0.
Definition new_branch (page_id lvl : Z) : Page := new_page page_id PtBTreeInterior lvl.

Definition page_id (p : Page) : Z := from_le (slice p 8 16).
Definition page_lsn (p : Page) : Z := from_le (slice p 0 8).
Definition set_page_lsn (p : Page) (lsn : Z) : Page := write_at p PAGE_LSN_OFF (to_le 8 lsn).

Definition page_type (p : Page) : Z := from_le (slice p 41 42).
Definition is_leaf (p : Page) : bool := page_type p =? page_type_code PtBTreeLeaf.
Definition is_branch (p : Page) : bool := page_type p =? page_type_code PtBTreeInterior.

Definition key_count (p : Page) : nat := Z.to_nat (bh_key_count (btree_header p)).

Definition key (p : Page) (idx : nat) : option (list Z) := read p idx.

(** The pointer at the end of a branch entry; the indexing of its eight bytes
    panics on a shorter record. *)
Definition child_pointer (p : Page) (idx : nat) : option (option Z) :=
  match read p idx with
  | None => Some None
  | Some data =>
      let ptr_bytes := drop (length data - 8) data in
      if (length ptr_bytes <? 8)%nat then None else Some (Some (from_be (take 8 ptr_bytes)))
  end.

Definition separator_key (p : Page) (idx : nat) : option (list Z) :=
  (fun data => take (length data - 8) data) <$> read p idx.

Definition bump_key_count (p : Page) : Page :=
  let bh := btree_header p in write_btree_header p (set_key_count bh (wrap 16 (bh_key_count bh + 1))).

Definition insert_raw (p : Page) (record : list Z) : option (option nat * Page) :=
  '(r, q) ← SlottedPage.insert p record;
  match r with
  | None => Some (None, q)
  | Some slot => Some (Some slot, bump_key_count q)
  end.

Definition insert_raw_at (p : Page) (idx : nat) (record : list Z) : option (option nat * Page) :=
  '(r, q) ← insert_at p idx record;
  match r with
  | None => Some (None, q)
  | Some slot => Some (Some slot, bump_key_count q)
  end.

Definition set_siblings (p : Page) (prev next : Z) : Page :=
  let bh := btree_header p in
  write_btree_header p (mkBh prev next (rightmost_child bh) (bh_key_count bh) (common_prefix_len bh) (level bh) (bh_reserved bh)).

Definition set_rightmost_child (p : Page) (child : Z) : Page :=
  let bh := btree_header p in
  write_btree_header p
    (mkBh (sibling_prev bh) (sibling_next bh) child (bh_key_count bh) (common_prefix_len bh) (level bh) (bh_reserved bh)).

(** The live records, in slot order. *)
Fixpoint live_records (p : Page) (n i : nat) : list (list Z) :=
  match n with
  | O => []
  | S n => match read p i with
           | Some data => data :: live_records p n (S i)
           | None => live_records p n (S i)
           end
  end.

(** Re-inserting them into the rebuilt page; a refusal trips the assertion. *)
Fixpoint reinsert (p : Page) (idx : nat) (records : list (list Z)) : option Page :=
  match records with
  | [] => Some p
  | r :: rs =>
      '(res, q) ← insert_at p idx r;
      match res with
      | Some _ => reinsert q (S idx) rs
      | None => None
      end
  end.

Definition compact (p : Page) : option Page :=
  let bh := btree_header p in
  let t := if is_leaf p then PtBTreeLeaf else PtBTreeInterior in
  let lsn := page_lsn p in
  let records := live_records p (slot_count p) 0 in
  let p1 := set_page_lsn (init (page_id p) t) lsn in
  let p2 := set_u16 p1 FREE_OFF (Z.of_nat BTREE_HEADER_SIZE) in
  reinsert (write_btree_header p2 bh) 0 records.

Definition delete (p : Page) (idx : nat) : option (bool * Page) :=
  match SlottedPage.delete p idx with
  | (true, q) =>
      let bh := btree_header q in
      let n := bh_key_count bh in
      let q := write_btree_header q (set_key_count bh (if 0 <? n then n - 1 else n)) in
      r ← compact q; Some (true, r)
  | (false, q) => Some (false, q)
  end.

Definition has_room_for (p : Page) (record_len : nat) : bool :=
  (record_len + SLOT_SIZE <=? available p)%nat.

(** ** What a page represents

    [is_body p id t h rs]: page [id] of type [t] holds header [h] and exactly
    the records [rs], with no deleted slot and no wasted space; for [is_node]
    the header also counts them. *)

Definition bh_ok (h : BTreeHeader) : Prop :=
  is_u64 (sibling_prev h) /\ is_u64 (sibling_next h) /\ is_u64 (rightmost_child h) /\
  is_u16 (bh_key_count h) /\ is_u16 (common_prefix_len h) /\ is_u8 (level h) /\
  length (bh_reserved h) = 3%nat /\ bytes_ok (bh_reserved h).

Definition total (rs : list (list Z)) : nat := sum_list (length <$> rs).

Record is_body (p : Page) (id : Z) (t : PageType) (h : BTreeHeader) (rs : list (list Z)) : Prop := {
  nd_ok : page_ok p;
  nd_contents : contents p = Some <$> rs;
  nd_id : slice p 8 16 = to_le 8 id;
  nd_type : slice p 41 42 = to_le 1 (page_type_code t);
  nd_header : btree_header p = h;
  nd_bh : bh_ok h;
  nd_free : free_space_offset p = (BTREE_HEADER_SIZE + total rs)%nat;
  nd_above : slots_above BTREE_HEADER_SIZE p
}.

Definition is_node (p : Page) (id : Z) (t : PageType) (h : BTreeHeader) (rs : list (list Z)) : Prop :=
  is_body p id t h rs /\ bh_key_count h = Z.of_nat (length rs).

(** ** The header bytes *)

Lemma length_bh_bytes h : bh_ok h -> length (bh_bytes h) = BTREE_HEADER_SIZE.
Proof.
  intros (_ & _ & _ & _ & _ & _ & Hr & _). unfold bh_bytes. rewrite !length_app, !length_to_le, Hr. reflexivity.
Qed.

Lemma bh_bytes_ok h : bh_ok h -> bytes_ok (bh_bytes h).
Proof.
  intros (_ & _ & _ & _ & _ & _ & _ & Hr). unfold bh_bytes. rewrite !bytes_ok_app.
  repeat (split; [apply to_le_ok|]). exact Hr.
Qed.

Lemma slice_slice {A} (l : list A) o n a b : (b <= n)%nat -> slice (slice l o (o + n)) a b = slice l (o + a) (o + b).
Proof.
  intros Hb. apply list_eq. intros i. rewrite !lookup_slice.
  destruct (decide (i < b - a)%nat), (decide (i < o + b - (o + a))%nat); try lia; [|done].
  rewrite decide_True by lia. f_equal. lia.
Qed.

Lemma read_bh p h :
  bh_ok h -> slice p HEADER_SIZE (HEADER_SIZE + BTREE_HEADER_SIZE) = bh_bytes h -> btree_header p = h.
Proof.
  intros Hok E. pose proof Hok as (H1 & H2 & H3 & H4 & H5 & H6 & H7 & _).
  assert (forall a b, (b <= BTREE_HEADER_SIZE)%nat -> slice p (HEADER_SIZE + a) (HEADER_SIZE + b) = slice (bh_bytes h) a b) as Hs.
  { intros a b Hb. rewrite <- E. symmetry. by apply slice_slice. }
  unfold btree_header. destruct h as [pv nx rm kc cp lv rs]. unfold bh_bytes in Hs. cbn [sibling_prev sibling_next
    rightmost_child bh_key_count common_prefix_len level bh_reserved] in *.
  f_equal.
  - change (slice p 64 72) with (slice p (HEADER_SIZE + 0) (HEADER_SIZE + 8)). rewrite Hs by (unfold BTREE_HEADER_SIZE; lia). field_slice. by apply from_to_le_id.
  - change (slice p 72 80) with (slice p (HEADER_SIZE + 8) (HEADER_SIZE + 16)). rewrite Hs by (unfold BTREE_HEADER_SIZE; lia). field_slice. by apply from_to_le_id.
  - change (slice p 80 88) with (slice p (HEADER_SIZE + 16) (HEADER_SIZE + 24)). rewrite Hs by (unfold BTREE_HEADER_SIZE; lia). field_slice. by apply from_to_le_id.
  - change (slice p 88 90) with (slice p (HEADER_SIZE + 24) (HEADER_SIZE + 26)). rewrite Hs by (unfold BTREE_HEADER_SIZE; lia). field_slice. by apply from_to_le_id.
  - change (slice p 90 92) with (slice p (HEADER_SIZE + 26) (HEADER_SIZE + 28)). rewrite Hs by (unfold BTREE_HEADER_SIZE; lia). field_slice. by apply from_to_le_id.
  - change (slice p 92 93) with (slice p (HEADER_SIZE + 28) (HEADER_SIZE + 29)). rewrite Hs by (unfold BTREE_HEADER_SIZE; lia). field_slice. by apply from_to_le_id.
  - change (slice p 93 96) with (slice p (HEADER_SIZE + 29) (HEADER_SIZE + 32)). rewrite Hs by (unfold BTREE_HEADER_SIZE; lia).
    rewrite !app_assoc. rewrite slice_skip by (rewrite !length_app, !length_to_le; lia).
    rewrite !length_app, !length_to_le. change (slice rs 0 3 = rs). rewrite <- H7. apply slice_full.
Qed.

(** ** Writes outside the records *)

Definition BODY : nat := HEADER_SIZE + BTREE_HEADER_SIZE.

Lemma slot_data_above p q s free :
  (forall a b, (BODY <= a)%nat -> slice q a b = slice p a b) ->
  is_deleted s = true \/ Z.of_nat BTREE_HEADER_SIZE <= s_offset s -> slot_fits s free ->
  slot_data q s = slot_data p s.
Proof.
  intros H Ha Hf. unfold slot_data. destruct (is_deleted s) eqn:E; [done|]. destruct Ha as [|Ha]; [done|].
  f_equal. apply H. unfold BODY, BTREE_HEADER_SIZE in *. lia.
Qed.

(** Changing only what is in front of the records keeps them. *)
Lemma body_same p q :
  page_ok p -> slots_above BTREE_HEADER_SIZE p -> (BTREE_HEADER_SIZE <= free_space_offset p)%nat ->
  length q = length p -> bytes_ok q ->
  get_u16 q COUNT_OFF = get_u16 p COUNT_OFF -> get_u16 q FREE_OFF = get_u16 p FREE_OFF ->
  (forall a b, (BODY <= a)%nat -> slice q a b = slice p a b) ->
  page_ok q /\ contents q = contents p /\ slots_above BTREE_HEADER_SIZE q.
Proof.
  intros Hp Ha Hf Hl Hb Ec Ef H. pose proof (po_space _ Hp) as Hsp.
  assert (slot_count q = slot_count p) as Hc by (unfold slot_count; by rewrite Ec).
  assert (free_space_offset q = free_space_offset p) as Hfr by (unfold free_space_offset; by rewrite Ef).
  assert (forall i, (i < slot_count p)%nat -> entry q i = entry p i) as He.
  { intros i Hi. unfold entry, read_slot, get_u16. rewrite !H; [done|..];
      unfold BODY, entry_pos, BTREE_HEADER_SIZE in *; page_lia. }
  split; [|split].
  - split; [by rewrite Hl; apply Hp|done|by rewrite Hfr, Hc|].
    rewrite Hc, Hfr. intros i Hi. rewrite He by done. by apply Hp.
  - unfold contents. rewrite Hc. apply list_fmap_ext. intros k i Hk. apply lookup_seq in Hk as [-> Hk]. cbn [Nat.add] in *.
    rewrite He by done. eapply slot_data_above; [exact H|by apply Ha|by apply Hp].
  - intros i. rewrite Hc. intros Hi. rewrite He by done. by apply Ha.
Qed.

Lemma write_header_body p id t h rs h' :
  is_body p id t h rs -> bh_ok h' -> is_body (write_btree_header p h') id t h' rs.
Proof.
  intros [Ho Hc Hi Ht Hh Hb Hf Ha] Hb'. unfold write_btree_header.
  pose proof (length_bh_bytes h' Hb') as Hlen. pose proof (po_length _ Ho) as Hl.
  assert (wrote p HEADER_SIZE (bh_bytes h') (write_at p HEADER_SIZE (bh_bytes h'))) as W
    by (apply wrote_write_at; rewrite Hlen, Hl; unfold BTREE_HEADER_SIZE; page_lia).
  set (q := write_at _ _ _) in *. clearbody q.
  assert (forall o, (o + 2 <= HEADER_SIZE)%nat -> get_u16 q o = get_u16 p o) as Hg
    by (intros o Hle; apply (wrote_u16_other _ _ _ _ _ W); by left).
  destruct (body_same p q Ho Ha) as (Q1 & Q2 & Q3).
  - rewrite Hf. lia.
  - apply W.
  - apply (wr_ok _ _ _ _ W); [apply Ho|by apply bh_bytes_ok].
  - apply Hg. page_lia.
  - apply Hg. page_lia.
  - intros a b Hle. apply (wr_frame _ _ _ _ W). right. by rewrite Hlen.
  - split; [done|by rewrite Q2|..|done| |done].
    + rewrite (wr_frame _ _ _ _ W); [done|left; page_lia].
    + rewrite (wr_frame _ _ _ _ W); [done|left; page_lia].
    + apply read_bh; [done|]. rewrite <- (wr_here _ _ _ _ W). by rewrite Hlen.
    + unfold free_space_offset. rewrite Hg by page_lia. exact Hf.
Qed.

Lemma set_page_lsn_node p id t h rs lsn :
  is_node p id t h rs -> is_node (set_page_lsn p lsn) id t h rs.
Proof.
  intros [[Ho Hc Hi Ht Hh Hb Hf Ha] Hn]. split; [|exact Hn]. unfold set_page_lsn, PAGE_LSN_OFF. pose proof (po_length _ Ho) as Hl.
  assert (wrote p 0 (to_le 8 lsn) (write_at p 0 (to_le 8 lsn))) as W
    by (apply wrote_write_at; rewrite length_to_le, Hl; page_lia).
  set (q := write_at _ _ _) in *. clearbody q.
  assert (forall a b, (8 <= a)%nat -> slice q a b = slice p a b) as Hs
    by (intros a b Hle; apply (wr_frame _ _ _ _ W); right; by rewrite length_to_le).
  destruct (body_same p q Ho Ha) as (Q1 & Q2 & Q3).
  - rewrite Hf. lia.
  - apply W.
  - apply (wr_ok _ _ _ _ W); [apply Ho|apply to_le_ok].
  - unfold get_u16. rewrite Hs; [done|page_lia].
  - unfold get_u16. rewrite Hs; [done|page_lia].
  - intros a b Hle. apply Hs. unfold BODY in Hle. page_lia.
  - split; [done|by rewrite Q2|by rewrite Hs by lia|by rewrite Hs by lia| |done| |done].
    + unfold btree_header. rewrite !Hs by lia. exact Hh.
    + unfold free_space_offset, get_u16. rewrite Hs by page_lia. exact Hf.
Qed.

(** ** Fresh pages *)

Lemma slice_init id t a b : (b <= HEADER_SIZE)%nat -> slice (init id t) a b = slice (header_new id t) a b.
Proof.
  intros Hb. assert (wrote (replicate PAGE_SIZE 0) 0 (header_new id t) (init id t)) as W.
  { apply wrote_write_at. rewrite length_header_new, length_replicate. page_lia. }
  rewrite <- (wr_here _ _ _ _ W), length_header_new. by rewrite (slice_slice _ 0 HEADER_SIZE) by done.
Qed.

Lemma init_fields id t :
  slice (init id t) 8 16 = to_le 8 id /\ slice (init id t) 41 42 = to_le 1 (page_type_code t) /\
  get_u16 (init id t) COUNT_OFF = 0.
Proof.
  unfold get_u16. rewrite !slice_init by (unfold HEADER_SIZE, COUNT_OFF; lia).
  split; [|split].
  - unfold header_new. rewrite slice_skip, length_to_le by (rewrite length_to_le; lia). cbn [Nat.sub].
    by rewrite slice_here by (by rewrite length_to_le).
  - unfold header_new. rewrite (app_assoc (to_le 8 0)), (app_assoc (to_le 8 0 ++ _)).
    rewrite slice_skip by (rewrite !length_app, !length_to_le; lia). rewrite !length_app, !length_to_le. by destruct t.
  - by rewrite (proj1 (header_new_fields id t)).
Qed.

Lemma fresh_node q id t h :
  length q = PAGE_SIZE -> bytes_ok q -> slice q 8 16 = to_le 8 id -> slice q 41 42 = to_le 1 (page_type_code t) ->
  get_u16 q COUNT_OFF = 0 -> get_u16 q FREE_OFF = Z.of_nat BTREE_HEADER_SIZE ->
  bh_ok h -> btree_header q = h -> is_body q id t h [].
Proof.
  intros Hl Hb Hi Ht Hc Hf Hbh Hh.
  assert (slot_count q = 0%nat) as Ec by (unfold slot_count; by rewrite Hc).
  assert (free_space_offset q = BTREE_HEADER_SIZE) as Ef by (unfold free_space_offset; by rewrite Hf).
  split; try done.
  - split; [done|done|rewrite Ef, Ec; unfold BTREE_HEADER_SIZE; page_lia|rewrite Ec; lia].
  - unfold contents. by rewrite Ec.
  - intros i. rewrite Ec. lia.
Qed.

(** The two orders in which a page is set up: [new_leaf] and [new_branch] write
    the tree header first, [compact] last. *)
Lemma length_init id t : length (init id t) = PAGE_SIZE.
Proof. apply (po_length _ (proj1 (init_ok id t))). Qed.

Lemma setup_node q1 id t h :
  length q1 = PAGE_SIZE -> bytes_ok q1 -> slice q1 8 16 = to_le 8 id -> slice q1 41 42 = to_le 1 (page_type_code t) ->
  get_u16 q1 COUNT_OFF = 0 -> bh_ok h ->
  is_body (set_u16 (write_btree_header q1 h) FREE_OFF (Z.of_nat BTREE_HEADER_SIZE)) id t h [] /\
  is_body (write_btree_header (set_u16 q1 FREE_OFF (Z.of_nat BTREE_HEADER_SIZE)) h) id t h [].
Proof.
  intros Hl Hb Hi Ht Hc Hh. pose proof (length_bh_bytes h Hh) as Hlen. unfold write_btree_header.
  assert (forall p, length p = PAGE_SIZE -> wrote p HEADER_SIZE (bh_bytes h) (write_at p HEADER_SIZE (bh_bytes h))) as WH
    by (intros p Hp; apply wrote_write_at; rewrite Hlen, Hp; unfold BTREE_HEADER_SIZE; page_lia).
  assert (forall p, length p = PAGE_SIZE -> wrote p FREE_OFF (to_le 2 (Z.of_nat BTREE_HEADER_SIZE))
    (set_u16 p FREE_OFF (Z.of_nat BTREE_HEADER_SIZE))) as WF by (intros p Hp; apply set_u16_wrote; rewrite Hp; page_lia).
  assert (is_u16 (Z.of_nat BTREE_HEADER_SIZE)) as Hu by (unfold uint, BTREE_HEADER_SIZE; lia).
  pose proof (bh_bytes_ok h Hh) as Hbb.
  split.
  - pose proof (WH q1 Hl) as W1. set (q2 := write_at _ _ _) in *. clearbody q2.
    assert (length q2 = PAGE_SIZE) as Hl2 by (by rewrite (wr_length _ _ _ _ W1)).
    pose proof (WF q2 Hl2) as W2. set (q3 := set_u16 _ _ _) in *. clearbody q3.
    apply fresh_node; [by rewrite (wr_length _ _ _ _ W2)| |..|done|].
    + apply (wr_ok _ _ _ _ W2); [by apply (wr_ok _ _ _ _ W1)|apply to_le_ok].
    + rewrite (wr_frame _ _ _ _ W2), (wr_frame _ _ _ _ W1); [done|left; page_lia|left; page_lia].
    + rewrite (wr_frame _ _ _ _ W2), (wr_frame _ _ _ _ W1); [done|left; page_lia|right; rewrite length_to_le; page_lia].
    + rewrite (wrote_u16_other _ _ _ _ _ W2), (wrote_u16_other _ _ _ _ _ W1); [done|left; page_lia|right; rewrite length_to_le; page_lia].
    + by rewrite (wrote_u16_same _ _ _ _ W2).
    + apply read_bh; [done|]. rewrite (wr_frame _ _ _ _ W2) by (right; rewrite length_to_le; page_lia).
      rewrite <- (wr_here _ _ _ _ W1). by rewrite Hlen.
  - pose proof (WF q1 Hl) as W1. set (q2 := set_u16 _ _ _) in *. clearbody q2.
    assert (length q2 = PAGE_SIZE) as Hl2 by (by rewrite (wr_length _ _ _ _ W1)).
    pose proof (WH q2 Hl2) as W2. set (q3 := write_at _ _ _) in *. clearbody q3.
    apply fresh_node; [by rewrite (wr_length _ _ _ _ W2)| |..|done|].
    + apply (wr_ok _ _ _ _ W2); [apply (wr_ok _ _ _ _ W1); [done|apply to_le_ok]|done].
    + rewrite (wr_frame _ _ _ _ W2), (wr_frame _ _ _ _ W1); [done|left; page_lia|left; page_lia].
    + rewrite (wr_frame _ _ _ _ W2), (wr_frame _ _ _ _ W1); [done|right; rewrite length_to_le; page_lia|left; page_lia].
    + rewrite (wrote_u16_other _ _ _ _ _ W2), (wrote_u16_other _ _ _ _ _ W1); [done|right; rewrite length_to_le; page_lia|left; page_lia].
    + rewrite (wrote_u16_other _ _ _ _ _ W2) by (left; page_lia). by rewrite (wrote_u16_same _ _ _ _ W1).
    + apply read_bh; [done|]. rewrite <- (wr_here _ _ _ _ W2). by rewrite Hlen.
Qed.

Lemma bh_new_ok lvl : is_u8 lvl -> bh_ok (bh_new lvl).
Proof.
  intros H. unfold bh_new, bh_ok. cbn [sibling_prev sibling_next rightmost_child bh_key_count common_prefix_len level bh_reserved].
  repeat (split; [done || (unfold uint; lia)|]). repeat constructor; unfold uint; lia.
Qed.

Lemma new_page_node id t lvl : is_u8 lvl -> is_node (new_page id t lvl) id t (bh_new lvl) [].
Proof.
  intros H. destruct (init_fields id t) as (E1 & E2 & E3). unfold new_page. split; [|done].
  apply setup_node; [apply length_init|apply init_ok|done|done|done|by apply bh_new_ok].
Qed.

Lemma new_leaf_node id : is_node (new_leaf id) id PtBTreeLeaf (bh_new 0) [].
Proof. apply (new_page_node id PtBTreeLeaf 0). unfold uint. lia. Qed.

Lemma new_branch_node id lvl : is_u8 lvl -> is_node (new_branch id lvl) id PtBTreeInterior (bh_new lvl) [].
Proof. exact (new_page_node id PtBTreeInterior lvl). Qed.

(** ** Reading *)

Lemma node_slot_count p id t h rs : is_body p id t h rs -> slot_count p = length rs.
Proof. intros []. rewrite <- length_contents, nd_contents0. apply length_fmap. Qed.

Lemma node_read p id t h rs i : is_body p id t h rs -> read p i = rs !! i.
Proof. intros []. rewrite read_contents, nd_contents0, list_lookup_fmap by done. by destruct (rs !! i). Qed.

Lemma node_key_count p id t h rs : is_node p id t h rs -> key_count p = length rs.
Proof. intros [[] Hn]. unfold key_count. rewrite nd_header0, Hn. lia. Qed.

Lemma node_page_id p id t h rs : is_body p id t h rs -> is_u64 id -> page_id p = id.
Proof. intros [] H. unfold page_id. rewrite nd_id0. by apply from_to_le_id. Qed.

Lemma node_page_type p id t h rs : is_body p id t h rs -> page_type p = page_type_code t.
Proof. intros []. unfold page_type. rewrite nd_type0. apply from_to_le_id. destruct t; unfold uint, page_type_code; lia. Qed.

Lemma node_available p id t h rs : is_body p id t h rs ->
  Z.of_nat (available p) = 8096 - Z.of_nat (total rs) - 4 * Z.of_nat (length rs).
Proof.
  intros Hn. pose proof (node_slot_count _ _ _ _ _ Hn) as Hc. destruct Hn. pose proof (po_space _ nd_ok0) as Hs.
  rewrite Hc, nd_free0 in Hs. unfold available, saturating_sub. rewrite nd_free0, Hc. unfold BTREE_HEADER_SIZE in *. page_lia.
Qed.

Lemma node_no_deleted p id t h rs len : is_body p id t h rs -> best_fit p len (slot_count p) 0 None None = None.
Proof.
  intros []. pose proof (po_space _ nd_ok0) as Hs.
  pose proof (best_fit_spec p len ltac:(lia) (slot_count p) 0 None ltac:(lia)) as H.
  cbn [fmap option_fmap option_map] in H. destruct (best_fit _ _ _ _ _ _) as [k|]; [|done]. exfalso.
  destruct H as ([?|[Hk Hr]] & _); [done|].
  assert (contents p !! k = Some None) as E.
  { rewrite lookup_contents. destruct (Nat.ltb_spec k (slot_count p)); [|lia]. unfold slot_data. by rewrite (proj1 Hr). }
  rewrite nd_contents0, list_lookup_fmap in E. by destruct (rs !! k).
Qed.

(** ** Inserting *)

(** Room for the records [rs], one slot each. *)
Definition fits (rs : list (list Z)) : Prop := Z.of_nat (total rs) + 4 * Z.of_nat (length rs) <= 8096.

Definition record_ok (r : list Z) : Prop := bytes_ok r /\ (length r <= MAX_INLINE_RECORD_LEN)%nat.

Lemma total_app a b : total (a ++ b) = (total a + total b)%nat.
Proof. unfold total. rewrite fmap_app. apply sum_list_with_app. Qed.

Lemma total_cons r rs : total (r :: rs) = (length r + total rs)%nat.
Proof. reflexivity. Qed.

Definition inserted (pos : nat) (r : list Z) (rs : list (list Z)) : list (list Z) := take pos rs ++ [r] ++ drop pos rs.

Lemma total_inserted pos r rs : total (inserted pos r rs) = (length r + total rs)%nat.
Proof.
  unfold inserted. rewrite !total_app, total_cons. cbn [total]. rewrite <- (take_drop pos rs) at 3. rewrite total_app.
  change (total []) with 0%nat. lia.
Qed.

Lemma length_inserted pos (r : list Z) rs : length (inserted pos r rs) = S (length rs).
Proof. unfold inserted. rewrite !length_app, length_take, length_drop. cbn [length]. lia. Qed.

Lemma bh_ok_count h n : bh_ok h -> is_u16 n -> bh_ok (set_key_count h n).
Proof. intros (H1 & H2 & H3 & _ & H5 & H6 & H7 & H8) Hn. by repeat (split; [assumption|]). Qed.

Lemma fits_count rs : fits rs -> Z.of_nat (length rs) < 2025.
Proof. unfold fits. lia. Qed.

(** A slotted page that kept its front and holds the records [rs']. *)
Lemma stored_body p id t h rs q (rs' : list (list Z)) :
  is_body p id t h rs -> page_ok q -> contents q = Some <$> rs' ->
  keeps_below (HEADER_SIZE + free_space_offset p) p q -> slots_above BTREE_HEADER_SIZE q ->
  free_space_offset q = (BTREE_HEADER_SIZE + total rs')%nat -> is_body q id t h rs'.
Proof.
  intros [Ho Hc Hi Ht Hh Hb Hf Ha] Hq Hcq [Hlq K] Haq Hfq.
  assert (forall a b, (b <= FREE_OFF \/ FLAGS_OFF <= a)%nat -> (b <= BODY)%nat -> slice q a b = slice p a b) as Hs
    by (intros a b H1 H2; apply K; [exact H1|rewrite Hf; unfold BODY in H2; lia]).
  split; try done.
  - rewrite Hs; [done|page_lia|unfold BODY; page_lia].
  - rewrite Hs; [done|page_lia|unfold BODY; page_lia].
  - rewrite <- Hh. unfold btree_header. rewrite !Hs; [reflexivity|unfold FLAGS_OFF, BODY, BTREE_HEADER_SIZE, HEADER_SIZE; lia..].
Qed.

Lemma node_room p id t h rs (r : list Z) (rs' : list (list Z)) :
  is_body p id t h rs -> fits rs' -> total rs' = (length r + total rs)%nat -> length rs' = S (length rs) ->
  (length r + SLOT_SIZE <= available p)%nat.
Proof.
  intros Hn Hf Ht Hl. pose proof (node_available _ _ _ _ _ Hn). unfold fits in Hf. rewrite Ht, Hl in Hf. unfold SLOT_SIZE. lia.
Qed.

(** After an insertion the header counts one more. *)
Lemma bump_node p id t h rs' n :
  is_body p id t h rs' -> fits rs' -> bh_key_count h = Z.of_nat n -> length rs' = S n ->
  is_node (bump_key_count p) id t (set_key_count h (Z.of_nat (S n))) rs'.
Proof.
  intros Hb Hfit Hn Hl. pose proof (fits_count _ Hfit) as Hlt. rewrite Hl in Hlt. unfold bump_key_count.
  rewrite (nd_header _ _ _ _ _ Hb), Hn, wrap_id by (unfold uint; lia). replace (Z.of_nat n + 1) with (Z.of_nat (S n)) by lia.
  split; [|cbn [bh_key_count set_key_count]; by rewrite Hl].
  eapply write_header_body; [exact Hb|]. apply bh_ok_count; [apply Hb|unfold uint; lia].
Qed.

Lemma insert_raw_node p id t h rs (r : list Z) :
  is_node p id t h rs -> record_ok r -> fits (rs ++ [r]) ->
  exists q, insert_raw p r = Some (Some (length rs), q) /\
    is_node q id t (set_key_count h (Z.of_nat (S (length rs)))) (rs ++ [r]).
Proof.
  intros [Hn Hcount] [Hb Hmax] Hfit. pose proof Hn as [Ho Hc _ _ _ _ Hf Ha].
  assert (total (rs ++ [r]) = (length r + total rs)%nat) as Et by (rewrite total_app, total_cons; change (total []) with 0%nat; lia).
  assert (length (rs ++ [r]) = S (length rs)) as El by (rewrite length_app; cbn [length]; lia).
  pose proof (node_room p id t h rs r _ Hn Hfit Et El) as Hroom.
  pose proof (node_no_deleted p id t h rs (length r) Hn) as Hbf.
  destruct (place_append p r Ho Hb Hroom Hbf) as (q & Eq & Hq & Ecq & Habove).
  destruct (Habove BTREE_HEADER_SIZE) as [Haq Hfq]; [rewrite Hf; lia|done|].
  assert (keeps_below (HEADER_SIZE + free_space_offset p) p q) as K.
  { eapply place_keeps; [by apply page_ok_base|done| |done|exact Eq].
    destruct (count_bounds p (page_ok_base p Ho)) as (H1 & _ & H2 & _). rewrite H2. lia. }
  assert (is_body q id t h (rs ++ [r])) as Hnode.
  { apply (stored_body p id t h rs); try done; [rewrite Ecq, Hc, fmap_app; reflexivity|rewrite Hfq, Hf, Et; lia]. }
  unfold insert_raw, SlottedPage.insert.
  destruct (Nat.ltb_spec MAX_INLINE_RECORD_LEN (length r)); [lia|].
  destruct (Nat.ltb_spec (available p) (length r + SLOT_SIZE)); [lia|].
  rewrite Eq. cbn [mbind option_bind]. rewrite (node_slot_count _ _ _ _ _ Hn). eexists. split; [reflexivity|].
  by apply bump_node.
Qed.

Lemma insert_at_body p id t h rs (r : list Z) idx :
  is_body p id t h rs -> record_ok r -> (idx <= length rs)%nat -> fits (inserted idx r rs) ->
  exists q, insert_at p idx r = Some (Some idx, q) /\ is_body q id t h (inserted idx r rs).
Proof.
  intros Hn [Hb Hmax] Hidx Hfit. pose proof Hn as [Ho Hc _ _ _ _ Hf Ha].
  pose proof (total_inserted idx r rs) as Et. pose proof (length_inserted idx r rs) as El.
  pose proof (node_room p id t h rs r _ Hn Hfit Et El) as Hroom.
  destruct (insert_at_place_spec p idx r Ho Hb Hroom) as (q & Eq & Hq & Ecq & Habove).
  rewrite (node_slot_count _ _ _ _ _ Hn), Nat.min_l in Eq, Ecq by done.
  destruct (Habove BTREE_HEADER_SIZE) as [Haq Hfq]; [rewrite Hf; lia|done|].
  pose proof (insert_at_place_keeps p idx r idx q (page_ok_base p Ho) Hb Hroom Eq) as K.
  exists q. split.
  - unfold insert_at. destruct (Nat.ltb_spec MAX_INLINE_RECORD_LEN (length r)); [lia|].
    destruct (Nat.ltb_spec (available p) (length r + SLOT_SIZE)); [lia|]. rewrite Eq. reflexivity.
  - apply (stored_body p id t h rs); try done; [|rewrite Hfq, Hf, Et; lia].
    rewrite Ecq, Hc. unfold inserted. rewrite !fmap_app, fmap_take, fmap_drop. reflexivity.
Qed.

Lemma insert_raw_at_node p id t h rs (r : list Z) idx :
  is_node p id t h rs -> record_ok r -> (idx <= length rs)%nat -> fits (inserted idx r rs) ->
  exists q, insert_raw_at p idx r = Some (Some idx, q) /\
    is_node q id t (set_key_count h (Z.of_nat (S (length rs)))) (inserted idx r rs).
Proof.
  intros [Hn Hc] Hr Hidx Hfit. destruct (insert_at_body p id t h rs r idx Hn Hr Hidx Hfit) as (q & Eq & Hq).
  unfold insert_raw_at. rewrite Eq. cbn [mbind option_bind]. eexists. split; [reflexivity|].
  apply bump_node; [done|done|done|apply length_inserted].
Qed.

(** ** Deleting *)

Lemma live_records_spec p (l : list (option (list Z))) :
  page_ok p -> contents p = l -> forall n i, (i + n <= length l)%nat ->
  live_records p n i = omap Datatypes.id (take n (drop i l)).
Proof.
  intros Hp Hc. induction n as [|n IH]; intros i Hi; [done|]. cbn [live_records].
  destruct (lookup_lt_is_Some_2 l i) as [x Hx]; [lia|]. rewrite (drop_S l x i Hx). cbn [take omap list_omap].
  rewrite read_contents, Hc, Hx by done. cbn [default from_option]. rewrite IH by lia. by destruct x.
Qed.

Lemma omap_live (rs : list (list Z)) : omap Datatypes.id (Some <$> rs) = rs.
Proof. induction rs as [|r rs IH]; [done|]. cbn [fmap list_fmap omap list_omap Datatypes.id]. by f_equal. Qed.

Lemma omap_deleted (rs : list (list Z)) i : omap Datatypes.id (<[i := None]> (Some <$> rs)) = base.delete i rs.
Proof.
  revert i. induction rs as [|r rs IH]; intros i; [done|]. destruct i as [|i].
  - cbn. by rewrite omap_live.
  - cbn [fmap list_fmap]. change (<[S i := None]> (Some r :: (Some <$> rs))) with (Some r :: <[i := None]> (Some <$> rs)).
    cbn [omap list_omap Datatypes.id base.delete list_delete]. f_equal. apply IH.
Qed.

Lemma reinsert_body rs2 : forall p id t h rs,
  is_body p id t h rs -> Forall record_ok rs2 -> fits (rs ++ rs2) ->
  exists q, reinsert p (length rs) rs2 = Some q /\ is_body q id t h (rs ++ rs2).
Proof.
  induction rs2 as [|r rs2 IH]; intros p id t h rs Hp Hok Hfit; [exists p; by rewrite app_nil_r|].
  apply Forall_cons in Hok as [Hr Hok]. cbn [reinsert].
  assert (inserted (length rs) r rs = rs ++ [r]) as Ei by (unfold inserted; by rewrite take_ge, drop_ge by lia).
  destruct (insert_at_body p id t h rs r (length rs) Hp Hr ltac:(lia)) as (q & Eq & Hq).
  { rewrite Ei. unfold fits in *. rewrite total_app, length_app, total_cons in *. cbn [length] in *. change (total []) with 0%nat. lia. }
  rewrite Eq. cbn [mbind option_bind]. rewrite Ei in Hq. destruct (IH q id t h (rs ++ [r]) Hq Hok) as (q' & Eq' & Hq').
  { by rewrite <- app_assoc. }
  rewrite length_app, Nat.add_1_r in Eq'. exists q'. by rewrite <- app_assoc in Hq'.
Qed.

Definition bt_type (t : PageType) : Prop := t = PtBTreeLeaf \/ t = PtBTreeInterior.

(** [compact] on a page in which slot [i] was deleted. *)
Lemma compact_body p id t h rs l :
  page_ok p -> contents p = l -> omap Datatypes.id l = rs -> slots_above BTREE_HEADER_SIZE p ->
  slice p 8 16 = to_le 8 id -> slice p 41 42 = to_le 1 (page_type_code t) -> btree_header p = h -> bh_ok h ->
  is_u64 id -> bt_type t -> Forall record_ok rs -> fits rs ->
  exists q, compact p = Some q /\ is_body q id t h rs.
Proof.
  intros Ho Hc Hl Ha Hi Ht Hh Hbh Hid Hbt Hok Hfit. unfold compact. rewrite Hh.
  assert (page_id p = id) as -> by (unfold page_id; rewrite Hi; by apply from_to_le_id).
  assert ((if is_leaf p then PtBTreeLeaf else PtBTreeInterior) = t) as ->.
  { unfold is_leaf, page_type. rewrite Ht, from_to_le_id; [by destruct Hbt as [->| ->]|].
    destruct t; unfold uint, page_type_code; lia. }
  rewrite (live_records_spec p l Ho Hc) by (rewrite <- Hc, length_contents; lia).
  rewrite drop_0, take_ge, Hl by (rewrite <- Hc, length_contents; lia).
  assert (is_body (write_btree_header (set_u16 (set_page_lsn (init id t) (page_lsn p)) FREE_OFF (Z.of_nat BTREE_HEADER_SIZE)) h) id t h []) as H0.
  { destruct (init_fields id t) as (E1 & E2 & E3). unfold set_page_lsn, PAGE_LSN_OFF.
    assert (wrote (init id t) 0 (to_le 8 (page_lsn p)) (write_at (init id t) 0 (to_le 8 (page_lsn p)))) as W
      by (apply wrote_write_at; rewrite length_to_le, length_init; page_lia).
    set (q1 := write_at _ _ _) in *. clearbody q1. apply setup_node; [|..|done].
    - rewrite (wr_length _ _ _ _ W). apply length_init.
    - apply (wr_ok _ _ _ _ W); [apply init_ok|apply to_le_ok].
    - rewrite (wr_frame _ _ _ _ W); [done|right; by rewrite length_to_le].
    - rewrite (wr_frame _ _ _ _ W); [done|right; rewrite length_to_le; lia].
    - rewrite (wrote_u16_other _ _ _ _ _ W); [done|right; rewrite length_to_le; page_lia]. }
  destruct (reinsert_body rs _ id t h [] H0 Hok Hfit) as (q & Eq & Hq). exists q. split; [exact Eq|exact Hq].
Qed.

Lemma total_delete i (rs : list (list Z)) : (total (base.delete i rs) <= total rs)%nat.
Proof.
  revert i. induction rs as [|r rs IH]; intros i; [by destruct i|]. rewrite total_cons. destruct i as [|i].
  - change (base.delete 0%nat (r :: rs)) with rs. lia.
  - change (base.delete (S i) (r :: rs)) with (r :: base.delete i rs). rewrite total_cons. specialize (IH i). lia.
Qed.

Lemma delete_node p id t h rs i r :
  is_node p id t h rs -> is_u64 id -> bt_type t -> Forall record_ok rs -> rs !! i = Some r ->
  exists q, delete p i = Some (true, q) /\
    is_node q id t (set_key_count h (Z.of_nat (length rs - 1))) (base.delete i rs).
Proof.
  intros [Hn Hcnt] Hid Hbt Hok Hr. pose proof Hn as [Ho Hc Hi Ht Hh Hb Hf Ha].
  pose proof (node_available _ _ _ _ _ Hn) as Hav. pose proof (lookup_lt_Some _ _ _ Hr) as Hlt.
  destruct (delete_spec p i Ho) as (Q1 & Q2 & Q3). destruct (delete_keeps p i Ho) as (K1 & K2 & K3).
  specialize (K3 _ Ha). assert ((SlottedPage.delete p i).1 = true) as E1 by (apply Q2; exists r; by rewrite (node_read _ _ _ _ _ i Hn)).
  unfold delete. destruct (SlottedPage.delete p i) as [b q]. cbn [fst snd] in *. subst b.
  assert (forall a b, (b <= FREE_OFF \/ FLAGS_OFF <= a)%nat -> (b <= BODY)%nat -> slice q a b = slice p a b) as Hs
    by (intros a b H1 H2; apply K1; [exact H1|rewrite Hf; unfold BODY in H2; lia]).
  assert (btree_header q = h) as Hhq.
  { rewrite <- Hh. unfold btree_header. rewrite !Hs; [reflexivity|unfold FLAGS_OFF, BODY, BTREE_HEADER_SIZE, HEADER_SIZE; lia..]. }
  rewrite Hhq, Hcnt. destruct (Z.ltb_spec 0 (Z.of_nat (length rs))); [|lia].
  replace (Z.of_nat (length rs) - 1) with (Z.of_nat (length rs - 1)) by lia.
  set (h' := set_key_count _ _).
  assert (bh_ok h') as Hbh'.
  { apply bh_ok_count; [done|]. unfold uint. lia. }
  pose proof (length_bh_bytes h' Hbh') as Hlen. pose proof (po_length _ Q1) as Hlq.
  assert (wrote q HEADER_SIZE (bh_bytes h') (write_btree_header q h')) as W
    by (apply wrote_write_at; rewrite Hlen, Hlq; unfold BTREE_HEADER_SIZE; page_lia).
  set (q' := write_btree_header q h') in *. clearbody q'.
  destruct (body_same q q' Q1 K3) as (B1 & B2 & B3).
  - rewrite K2, Hf. lia.
  - apply W.
  - apply (wr_ok _ _ _ _ W); [apply Q1|by apply bh_bytes_ok].
  - apply (wrote_u16_other _ _ _ _ _ W). left. page_lia.
  - apply (wrote_u16_other _ _ _ _ _ W). left. page_lia.
  - intros a b Hle. apply (wr_frame _ _ _ _ W). right. by rewrite Hlen.
  - destruct (compact_body q' id t h' (base.delete i rs) (<[i := None]> (Some <$> rs))) as (r' & Er & Hr'); try done.
    + by rewrite B2, Q3, Hc.
    + apply omap_deleted.
    + rewrite (wr_frame _ _ _ _ W) by (left; page_lia). rewrite Hs; [done|page_lia|unfold BODY; page_lia].
    + rewrite (wr_frame _ _ _ _ W) by (left; page_lia). rewrite Hs; [done|page_lia|unfold BODY; page_lia].
    + apply read_bh; [done|]. rewrite <- (wr_here _ _ _ _ W). by rewrite Hlen.
    + by apply Forall_delete.
    + unfold fits. pose proof (total_delete i rs). rewrite length_delete by (by eexists). lia.
    + rewrite Er. cbn [mbind option_bind]. exists r'. split; [reflexivity|]. split; [exact Hr'|].
      unfold h'. cbn [bh_key_count set_key_count]. by rewrite length_delete by (by eexists).
Qed.

(** ** Overflow

    An insert that does not fit runs the slotted page's own compaction, which
    reclaims the 32 bytes of the tree header; only a record that does not fit
    then either is refused. *)

Lemma node_entry p id t h rs i r : is_body p id t h rs -> rs !! i = Some r ->
  slot p i = Some (entry p i) /\ is_deleted (entry p i) = false /\ 0 <= s_offset (entry p i) /\
  s_length (entry p i) = Z.of_nat (length r) /\
  s_offset (entry p i) + s_length (entry p i) <= Z.of_nat (free_space_offset p).
Proof.
  intros Hn Hr. pose proof (node_slot_count _ _ _ _ _ Hn) as Hc. pose proof (lookup_lt_Some _ _ _ Hr) as Hlt. destruct Hn.
  pose proof (po_space _ nd_ok0) as Hs. rewrite slot_entry by lia.
  destruct (Nat.ltb_spec i (slot_count p)); [|lia]. split; [done|].
  assert (contents p !! i = Some (Some r)) as E by (rewrite nd_contents0, list_lookup_fmap, Hr; done).
  rewrite lookup_contents in E. destruct (Nat.ltb_spec i (slot_count p)); [|lia]. injection E as E. unfold slot_data in E.
  pose proof (po_slots _ nd_ok0 i ltac:(lia)) as Hfit. unfold slot_fits in Hfit.
  destruct (is_deleted (entry p i)); [done|]. destruct Hfit as [|(F1 & F2 & F3)]; [done|].
  split; [done|]. split; [done|]. split; [|done]. apply (inj Some) in E. rewrite <- E.
  pose proof (po_length _ nd_ok0) as HL. unfold Page in *. rewrite length_slice; page_lia.
Qed.

Lemma compact_plan_node p id t h rs : is_body p id t h rs -> forall n i off,
  (i + n = length rs)%nat -> 0 <= off -> off + Z.of_nat (total (drop i rs)) <= 8128 ->
  exists moves slots, compact_plan p n i off = (moves, slots, off + Z.of_nat (total (drop i rs))) /\ length slots = n /\
    Forall (fun m => m.1.1 + m.2 <= PAGE_SIZE /\ m.1.2 + m.2 <= PAGE_SIZE)%nat moves.
Proof.
  intros Hn. pose proof (po_space _ (nd_ok _ _ _ _ _ Hn)) as Hs.
  induction n as [|n IH]; intros i off Hi Hoff Htot.
  { exists [], []. rewrite drop_ge by lia. cbn. split; [f_equal; lia|]. by split. }
  destruct (lookup_lt_is_Some_2 rs i) as [r Hr]; [lia|]. destruct (node_entry p id t h rs i r Hn Hr) as (E1 & E2 & E3 & E4 & E5).
  cbn [compact_plan]. rewrite E1, E2. rewrite (drop_S rs r i Hr), total_cons in *. rewrite E4 in *.
  rewrite wrap_id by (unfold uint; lia).
  destruct (IH (S i) (off + Z.of_nat (length r)) ltac:(lia) ltac:(lia) ltac:(lia)) as (moves & slots & -> & Hl & Hm).
  eexists _, _. split; [f_equal; lia|]. split; [cbn [length]; lia|].
  destruct (_ =? _)%nat; [done|]. constructor; [|done]. cbn [fst snd]. page_lia.
Qed.

Lemma apply_moves_some moves : forall p,
  length p = PAGE_SIZE -> Forall (fun m => m.1.1 + m.2 <= PAGE_SIZE /\ m.1.2 + m.2 <= PAGE_SIZE)%nat moves ->
  exists q, apply_moves p moves = Some q /\ length q = PAGE_SIZE.
Proof.
  induction moves as [|[[a b] n] moves IH]; intros p Hl Hm; [by exists p|].
  apply Forall_cons in Hm as [[H1 H2] Hm]. cbn [fst snd] in *. cbn [apply_moves]. unfold copy_within. rewrite Hl.
  destruct (Nat.leb_spec (a + n) PAGE_SIZE); [|lia]. destruct (Nat.leb_spec (b + n) PAGE_SIZE); [|lia]. cbn [andb].
  rewrite Some_bind. apply IH; [|done]. rewrite length_write_at; [done|]. rewrite length_slice; lia.
Qed.

Lemma compact_node_available p id t h rs : is_body p id t h rs ->
  exists q, SlottedPage.compact p = Some q /\ Z.of_nat (available q) = Z.of_nat (available p) + 32.
Proof.
  intros Hn. pose proof (node_available _ _ _ _ _ Hn) as Hav. pose proof (node_slot_count _ _ _ _ _ Hn) as Hc.
  pose proof (po_length _ (nd_ok _ _ _ _ _ Hn)) as Hl.
  destruct (compact_plan_node p id t h rs Hn (length rs) 0 0) as (moves & slots & E & Hs & Hm);
    [lia|lia|rewrite drop_0; lia|]. rewrite drop_0, Z.add_0_l in E.
  unfold SlottedPage.compact. rewrite Hc, E. destruct (apply_moves_some moves p Hl Hm) as (p1 & E1 & Hl1).
  rewrite E1, Some_bind. rewrite Hs, (wrap_id 16 (Z.of_nat (length rs))) by (unfold uint; lia).
  pose proof (set_u16_wrote p1 FREE_OFF (Z.of_nat (total rs)) ltac:(page_lia)) as W2.
  set (p2 := set_u16 p1 _ _) in *. clearbody p2. assert (length p2 = PAGE_SIZE) as Hl2 by (by rewrite (wr_length _ _ _ _ W2)).
  pose proof (set_u16_wrote p2 COUNT_OFF (Z.of_nat (length rs)) ltac:(page_lia)) as W3.
  set (p3 := set_u16 p2 _ _) in *. clearbody p3. assert (length p3 = PAGE_SIZE) as Hl3 by (by rewrite (wr_length _ _ _ _ W3)).
  pose proof (set_u16_wrote p3 FLAGS_OFF (Z.land (get_u16 p3 FLAGS_OFF) (Z.lxor PAGE_FLAG_FULL U16_MAX)) ltac:(page_lia)) as W4.
  set (p4 := set_u16 p3 _ _) in *. clearbody p4. assert (length p4 = PAGE_SIZE) as Hl4 by (by rewrite (wr_length _ _ _ _ W4)).
  assert (length (concat (slot_bytes <$> slots)) = (length rs * SLOT_SIZE)%nat) as Hlc.
  { rewrite <- Hs. clear. induction slots as [|x l IH]; [done|]. cbn [fmap list_fmap concat length].
    rewrite length_app, length_slot_bytes, IH. lia. }
  destruct (checked_write_ok p4 (PAGE_SIZE - length rs * SLOT_SIZE) (concat (slot_bytes <$> slots))) as (q & Eq & W5);
    [rewrite Hlc; page_lia|]. exists q. split; [exact Eq|].
  assert (slot_count q = length rs) as Ecq.
  { unfold slot_count. rewrite (wrote_u16_other _ _ _ _ _ W5), (wrote_u16_other _ _ _ _ _ W4), (wrote_u16_same _ _ _ _ W3);
      [lia|unfold uint; lia|left; page_lia|left; page_lia]. }
  assert (free_space_offset q = total rs) as Efq.
  { unfold free_space_offset. rewrite (wrote_u16_other _ _ _ _ _ W5), (wrote_u16_other _ _ _ _ _ W4), (wrote_u16_other _ _ _ _ _ W3),
      (wrote_u16_same _ _ _ _ W2); [lia|unfold uint; lia|left; page_lia|left; page_lia|left; page_lia]. }
  rewrite Hav. unfold available, saturating_sub. rewrite Ecq, Efq. page_lia.
Qed.

Lemma insert_raw_full p id t h rs r :
  is_node p id t h rs -> 8096 + 32 < Z.of_nat (total (rs ++ [r])) + 4 * Z.of_nat (length (rs ++ [r])) ->
  exists q, insert_raw p r = Some (None, q).
Proof.
  intros [Hn _] Hbig. pose proof (node_available _ _ _ _ _ Hn) as Hav.
  rewrite total_app, length_app, total_cons in Hbig. change (total []) with 0%nat in Hbig. cbn [length] in Hbig.
  unfold insert_raw, SlottedPage.insert. destruct (Nat.ltb_spec MAX_INLINE_RECORD_LEN (length r)); [by eexists|].
  destruct (Nat.ltb_spec (available p) (length r + SLOT_SIZE)); [|unfold SLOT_SIZE in *; lia].
  destruct (compact_node_available p id t h rs Hn) as (q & -> & Hq). rewrite Some_bind.
  destruct (Nat.ltb_spec (available q) (length r + SLOT_SIZE)); [by eexists|unfold SLOT_SIZE in *; lia].
Qed.

(** ** Header updates *)

Definition with_siblings (h : BTreeHeader) (prev next : Z) : BTreeHeader :=
  mkBh prev next (rightmost_child h) (bh_key_count h) (common_prefix_len h) (level h) (bh_reserved h).
Definition with_rightmost (h : BTreeHeader) (child : Z) : BTreeHeader :=
  mkBh (sibling_prev h) (sibling_next h) child (bh_key_count h) (common_prefix_len h) (level h) (bh_reserved h).

Lemma set_siblings_node p id t h rs prev next :
  is_node p id t h rs -> is_u64 prev -> is_u64 next ->
  is_node (set_siblings p prev next) id t (with_siblings h prev next) rs.
Proof.
  intros [Hn Hc] H1 H2. split; [|done]. unfold set_siblings. rewrite (nd_header _ _ _ _ _ Hn).
  eapply write_header_body; [exact Hn|]. destruct (nd_bh _ _ _ _ _ Hn) as (_ & _ & H). by repeat (split; [assumption|]).
Qed.

Lemma set_rightmost_node p id t h rs child :
  is_node p id t h rs -> is_u64 child ->
  is_node (set_rightmost_child p child) id t (with_rightmost h child) rs.
Proof.
  intros [Hn Hc] H1. split; [|done]. unfold set_rightmost_child. rewrite (nd_header _ _ _ _ _ Hn).
  eapply write_header_body; [exact Hn|]. destruct (nd_bh _ _ _ _ _ Hn) as (A & B & _ & H). by repeat (split; [assumption|]).
Qed.
