(* ===== verification/BTree.v ===== *)
(** * The B+ tree ([src/index/btree.rs], [src/index/cursor.rs])

    Search, point insert and delete with splits, borrows and merges, and the
    two range scans, over the in-memory page store (no pool attached).  Writers
    hold the structural latch exclusively for a whole operation and readers
    shared, so operations are modelled one at a time.  An operation is a
    function of the tree: [None] is a panic, or a descent that would not end.

    A descend path is a list with the most recent entry first; the source
    pushes to and splits off the end of a vector. *)

From stdpp Require Import prelude list gmap.
From Stdlib Require Import ZArith Lia.
From S2P Require Import Prelude Bytes SlottedPage BTreePage Key.

(** [min_fill_ratio] is the fraction [min_fill_num / min_fill_den] (0.30); byte
    counts are integers of at most four digits, so comparing the rounded
    quotients of the source agrees with comparing the fractions. *)
Record BPlusTreeConfig := mkConfig { page_size : Z; min_fill_num : Z; min_fill_den : Z }.

Definition config_default : BPlusTreeConfig := mkConfig 8192 3 10.

Inductive BTreeError := MissingRoot | MissingLeaf | MissingParent | SplitFailed | MergeFailed.

Record BPlusTree := mkTree {
  root_page_id : Z;
  pages : gmap Z Page;
  next_page_id : Z;
  next_lsn : Z;
  dirty_recorder : option (gset Z)
}.

Definition tree_new : BPlusTree := mkTree 1 {[1 := new_leaf 1]} 2 1 None.

(** ** Operations on the tree *)

Definition BT (A : Type) : Type := BPlusTree -> option (result A BTreeError * BPlusTree).

#[global] Instance BT_ret : MRet BT := fun A a t => Some (Ok a, t).
#[global] Instance BT_bind : MBind BT := fun A B k m t =>
  match m t with
  | None => None
  | Some (Err e, t') => Some (Err e, t')
  | Some (Ok a, t') => k a t'
  end.

Definition throw {A} (e : BTreeError) : BT A := fun t => Some (Err e, t).

(** A pure step that may panic; a missing page as an error. *)
Definition try {A} (o : option A) : BT A := fun t => (fun a => (Ok a, t)) <$> o.
Definition ok_or {A} (o : option A) (e : BTreeError) : BT A := fun t =>
  Some (match o with Some a => Ok a | None => Err e end, t).

Definition get_page (id : Z) : BT (option Page) := fun t => Some (Ok (pages t !! id), t).
Definition get_page_or (id : Z) (e : BTreeError) : BT Page := p ← get_page id; ok_or p e.
Definition root_id : BT Z := fun t => Some (Ok (root_page_id t), t).
Definition set_root (id : Z) : BT unit := fun t =>
  Some (Ok tt, mkTree id (pages t) (next_page_id t) (next_lsn t) (dirty_recorder t)).

Definition alloc_page : BT Z := fun t =>
  Some (Ok (next_page_id t),
        mkTree (root_page_id t) (pages t) (wrap 64 (next_page_id t + 1)) (next_lsn t) (dirty_recorder t)).

Definition put_page_with_lsn (id : Z) (page : Page) : BT unit := fun t =>
  Some (Ok tt, mkTree (root_page_id t) (<[id := set_page_lsn page (next_lsn t)]> (pages t)) (next_page_id t)
                 (wrap 64 (next_lsn t + 1)) ((fun s => {[id]} ∪ s) <$> dirty_recorder t)).

Definition free_page (id : Z) : BT unit := fun t =>
  Some (Ok tt, mkTree (root_page_id t) (base.delete id (pages t)) (next_page_id t) (next_lsn t) (dirty_recorder t)).

(** ** Records *)

Definition encode_kv (k v : list Z) : list Z := to_be 2 (wrap 16 (Z.of_nat (length k))) ++ k ++ v.
Definition encode_branch_entry (k : list Z) (child : Z) : list Z := k ++ to_be 8 child.

(** [decode_kv] of the cursor; [leaf_key] and [leaf_value] of the tree are its
    parts. *)
Definition decode_kv (kv : list Z) : option (list Z * list Z) :=
  if (length kv <? 2)%nat then None else
  let key_len := Z.to_nat (from_be (take 2 kv)) in
  if (length kv <? 2 + key_len)%nat then None
  else Some (slice kv 2 (2 + key_len), drop (2 + key_len) kv).

Definition leaf_entry (p : Page) (slot : nat) : option (list Z * list Z) := key p slot ≫= decode_kv.
Definition leaf_key (p : Page) (slot : nat) : option CompositeKey := fst <$> leaf_entry p slot.
Definition leaf_value (p : Page) (slot : nat) : option (list Z) := snd <$> leaf_entry p slot.

Definition leaf_record_key (record : list Z) : list Z :=
  match decode_kv record with Some (k, _) => k | None => [] end.

(** ** Binary searches

    [right mid] says whether the search continues above [mid]. *)
Fixpoint bsearch (right : nat -> bool) (fuel lo hi : nat) : nat :=
  match fuel with
  | O => lo
  | S fuel =>
      if (lo <? hi)%nat then
        let mid := ((lo + hi) / 2)%nat in
        if right mid then bsearch right fuel (mid + 1) hi else bsearch right fuel lo mid
      else lo
  end.

Definition leaf_lower_bound (p : Page) (k : CompositeKey) : nat :=
  let count := key_count p in
  bsearch (fun mid => match leaf_key p mid with Some mk => bytes_lt mk k | None => false end) (S count) 0 count.

Definition branch_slot (p : Page) (k : CompositeKey) : option (Z * nat) :=
  let count := key_count p in
  let lo := bsearch (fun mid => match separator_key p mid with Some sep => bytes_le sep k | None => false end)
              (S count) 0 count in
  if (lo <? count)%nat then c ← child_pointer p lo; Some (default 0 c, lo)
  else Some (rightmost_child (btree_header p), count).

Definition branch_child (p : Page) (k : CompositeKey) : option Z := fst <$> branch_slot p k.

(** ** Descents *)

(** Ids and LSNs of the pages visited, last first; the inner [None] is a missing
    page. *)
Fixpoint find_leaf_loop (pgs : gmap Z Page) (fuel : nat) (page : Page) (k : CompositeKey) (path : list (Z * Z)) :
    option (option (list (Z * Z))) :=
  match fuel with
  | O => None
  | S fuel =>
      if is_branch page then
        child ← branch_child page k;
        match pgs !! child with
        | None => Some None
        | Some page' => find_leaf_loop pgs fuel page' k ((child, page_lsn page') :: path)
        end
      else Some (Some path)
  end.

Definition find_leaf (pgs : gmap Z Page) (page : Page) (k : CompositeKey) : option (option Z) :=
  r ← find_leaf_loop pgs (S (size pgs)) page k [(page_id page, page_lsn page)];
  match r with
  | None => Some None
  | Some path => Some (fst <$> head path)
  end.

Fixpoint descend_loop (pgs : gmap Z Page) (fuel : nat) (page : Page) (k : CompositeKey) (path : list (Z * nat)) :
    option (option (Z * Page * list (Z * nat))) :=
  match fuel with
  | O => None
  | S fuel =>
      if is_branch page then
        '(child, idx) ← branch_slot page k;
        match pgs !! child with
        | None => Some None
        | Some page' => descend_loop pgs fuel page' k ((page_id page, idx) :: path)
        end
      else Some (Some (page_id page, page, path))
  end.

Definition descend_to_leaf_with_path (page : Page) (k : CompositeKey) : BT (option (Z * Page * list (Z * nat))) :=
  fun t => (fun r => (Ok r, t)) <$> descend_loop (pages t) (S (size (pages t))) page k [].

(** ** Search *)

(** The outer [option] as everywhere; the answer is the leaf and its slot. *)
Definition search (t : BPlusTree) (k : CompositeKey) : option (option (Z * nat)) :=
  match pages t !! root_page_id t with
  | None => Some None
  | Some root =>
      r ← find_leaf (pages t) root k;
      match r with
      | None => Some None
      | Some leaf_id =>
          match pages t !! leaf_id with
          | None => Some None
          | Some leaf =>
              let slot := leaf_lower_bound leaf k in
              Some (match leaf_key leaf slot with
                    | Some mk => if bytes_eqb mk k then Some (leaf_id, slot) else None
                    | None => None
                    end)
          end
      end
  end.

(** ** Branch pages in canonical form *)

Fixpoint decode_entries (p : Page) (n i : nat) : option (list (list Z) * list Z) :=
  match n with
  | O => Some ([], [])
  | S n =>
      c ← child_pointer p i;
      '(seps, children) ← decode_entries p n (S i);
      Some (match separator_key p i with Some s => s :: seps | None => seps end,
            match c with Some c => c :: children | None => children end)
  end.

Definition decode_branch (p : Page) : option (list (list Z) * list Z) :=
  '(seps, children) ← decode_entries p (key_count p) 0;
  Some (seps, children ++ [rightmost_child (btree_header p)]).

Fixpoint build_entries (p : Page) (seps : list (list Z)) (children : list Z) : option (option Page) :=
  match seps, children with
  | [], _ => Some (Some p)
  | sep :: seps, c :: children =>
      '(r, q) ← insert_raw p (encode_branch_entry sep c);
      match r with
      | None => Some None
      | Some _ => build_entries q seps children
      end
  | _ :: _, [] => None
  end.

Definition try_build_branch (branch_id lvl : Z) (seps : list (list Z)) (children : list Z) : option (option Page) :=
  r ← build_entries (new_branch branch_id lvl) seps children;
  match r with
  | None => Some None
  | Some p => c ← last children; Some (Some (set_rightmost_child p c))
  end.

(** Panics when the entries do not fit. *)
Definition build_branch (branch_id lvl : Z) (seps : list (list Z)) (children : list Z) : option Page :=
  r ← try_build_branch branch_id lvl seps children; r.

(** ** Splits *)

(** [Vec::insert], which panics beyond the end. *)
Definition vec_insert {A} (i : nat) (x : A) (l : list A) : option (list A) :=
  if (i <=? length l)%nat then Some (take i l ++ x :: drop i l) else None.

Definition grow_root (left_child right_child : Z) (separator : list Z) : BT unit :=
  new_root_id ← alloc_page;
  l ← get_page left_child;
  let old_level := match l with Some p => level (btree_header p) | None => 0 end in
  '(_, new_root) ← try (insert_raw (new_branch new_root_id (wrap 8 (old_level + 1)))
                          (encode_branch_entry separator left_child));
  put_page_with_lsn new_root_id (set_rightmost_child new_root right_child);;
  set_root new_root_id.

Definition split_branch (insert_up : Z -> Z -> list Z -> BT unit) (branch_id lvl : Z)
    (seps : list (list Z)) (children : list Z) : BT unit :=
  let mid := (length seps / 2)%nat in
  promoted ← try (seps !! mid);
  left_branch ← try (build_branch branch_id lvl (take mid seps) (take (S mid) children));
  new_branch_id ← alloc_page;
  right_branch ← try (build_branch new_branch_id lvl (drop (S mid) seps) (drop (S mid) children));
  put_page_with_lsn branch_id left_branch;;
  put_page_with_lsn new_branch_id right_branch;;
  insert_up branch_id new_branch_id promoted.

Fixpoint insert_into_parent (path : list (Z * nat)) (left_child right_child : Z) (separator : list Z) : BT unit :=
  match path with
  | [] => grow_root left_child right_child separator
  | (parent_id, child_index) :: ancestors =>
      parent ← get_page_or parent_id MissingParent;
      '(seps, children) ← try (decode_branch parent);
      children ← try (if (child_index <? length children)%nat then Some (<[child_index := left_child]> children) else None);
      seps ← try (vec_insert child_index separator seps);
      children ← try (vec_insert (S child_index) right_child children);
      let lvl := level (btree_header parent) in
      b ← try (try_build_branch parent_id lvl seps children);
      match b with
      | Some branch => put_page_with_lsn parent_id branch
      | None => split_branch (insert_into_parent ancestors) parent_id lvl seps children
      end
  end.

(** The entries of a leaf without [new_key]. *)
Fixpoint other_entries (p : Page) (new_key : list Z) (n i : nat) : list (list Z * list Z) :=
  match n with
  | O => []
  | S n =>
      match leaf_entry p i with
      | Some (k, v) => if bytes_eqb k new_key then other_entries p new_key n (S i) else (k, v) :: other_entries p new_key n (S i)
      | None => other_entries p new_key n (S i)
      end
  end.

(** Stable insertion by key, and [sort_by] on the keys. *)
Fixpoint insert_entry (e : list Z * list Z) (l : list (list Z * list Z)) : list (list Z * list Z) :=
  match l with
  | [] => [e]
  | x :: l' => if bytes_lt x.1 e.1 then x :: insert_entry e l' else e :: l
  end.
Definition sort_entries (l : list (list Z * list Z)) : list (list Z * list Z) := foldr insert_entry [] l.

(** Filling a fresh leaf; a refused record is dropped silently. *)
Fixpoint fill_leaf (p : Page) (entries : list (list Z * list Z)) : option Page :=
  match entries with
  | [] => Some p
  | (k, v) :: es => '(_, q) ← insert_raw p (encode_kv k v); fill_leaf q es
  end.

Definition split_leaf (leaf_id : Z) (leaf : Page) (new_key new_value : list Z) (path : list (Z * nat)) : BT unit :=
  new_leaf_id ← alloc_page;
  let entries := sort_entries (other_entries leaf new_key (slot_count leaf) 0 ++ [(new_key, new_value)]) in
  let mid := (length entries / 2)%nat in
  left_leaf ← try (fill_leaf (new_leaf leaf_id) (take mid entries));
  right_leaf ← try (fill_leaf (new_leaf new_leaf_id) (drop mid entries));
  let bh := btree_header leaf in
  put_page_with_lsn leaf_id (set_siblings left_leaf (sibling_prev bh) new_leaf_id);;
  put_page_with_lsn new_leaf_id (set_siblings right_leaf leaf_id (sibling_next bh));;
  sep ← try (entries !! mid);
  insert_into_parent path leaf_id new_leaf_id sep.1.

(** ** Insert *)

(** The records of a leaf with slot [slot] replaced, re-inserted one by one into
    [p]; the inner [None] when one is missing or does not fit. *)
Fixpoint rebuild_loop (p leaf : Page) (slot : nat) (record : list Z) (n i : nat) : option (option Page) :=
  match n with
  | O => Some (Some p)
  | S n =>
      match (if (i =? slot)%nat then Some record else key leaf i) with
      | None => Some None
      | Some rec =>
          if has_room_for p (length rec) then
            '(r, q) ← insert_raw p rec;
            match r with
            | None => Some None
            | Some _ => rebuild_loop q leaf slot record n (S i)
            end
          else Some None
      end
  end.

Definition rebuild_leaf_replacing (leaf : Page) (slot : nat) (record : list Z) : option (option Page) :=
  let bh := btree_header leaf in
  rebuild_loop (set_siblings (new_leaf (page_id leaf)) (sibling_prev bh) (sibling_next bh)) leaf slot record (key_count leaf) 0.

(** The fast path of an empty root leaf. *)
Definition try_root_insert (root : Page) (record : list Z) : option (option Page) :=
  if is_leaf root && (key_count root =? 0)%nat && has_room_for root (length record) then
    '(r, q) ← insert_raw root record;
    Some (match r with Some _ => Some q | None => None end)
  else Some None.

(** A key that is not in the leaf: in place when the record fits. *)
Definition store_in_leaf (leaf_id : Z) (leaf : Page) (path : list (Z * nat)) (k v : list Z) : BT unit :=
  let record := encode_kv k v in
  if has_room_for leaf (length record) then
    '(r, q) ← try (insert_raw_at leaf (leaf_lower_bound leaf k) record);
    try (r : option nat);;
    put_page_with_lsn leaf_id q
  else split_leaf leaf_id leaf k v path.

Definition insert_in_leaf (leaf_id : Z) (leaf : Page) (path : list (Z * nat)) (k v : list Z) : BT unit :=
  let slot := leaf_lower_bound leaf k in
  match leaf_key leaf slot with
  | Some existing =>
      if bytes_eqb existing k then
        r ← try (rebuild_leaf_replacing leaf slot (encode_kv k v));
        match r with
        | Some rebuilt => put_page_with_lsn leaf_id rebuilt
        | None => split_leaf leaf_id leaf k v path
        end
      else store_in_leaf leaf_id leaf path k v
  | None => store_in_leaf leaf_id leaf path k v
  end.

Definition insert_locked (k v : list Z) : BT unit :=
  rid ← root_id;
  root ← get_page_or rid MissingRoot;
  fast ← try (try_root_insert root (encode_kv k v));
  match fast with
  | Some q => put_page_with_lsn rid q
  | None =>
      d ← descend_to_leaf_with_path root k;
      '(leaf_id, leaf, path) ← ok_or d MissingLeaf;
      insert_in_leaf leaf_id leaf path k v
  end.

Definition insert (k v : list Z) : BT unit := insert_locked k v.

Fixpoint insert_batch (entries : list (list Z * list Z)) : BT unit :=
  match entries with
  | [] => mret tt
  | (k, v) :: es => insert_locked k v;; insert_batch es
  end.

(** ** Rebalancing after a delete *)

Section Rebalance.
Context (config : BPlusTreeConfig).

Definition usable : Z := page_size config - Z.of_nat HEADER_SIZE - Z.of_nat BTREE_HEADER_SIZE.

Definition record_sizes (p : Page) : list nat := length <$> live_records p (slot_count p) 0.

(** [bytes / usable < min_fill_ratio]. *)
Definition below_min (bytes : Z) : bool := bytes * min_fill_den config <? min_fill_num config * usable.

Definition is_underfull (p : Page) : bool :=
  (key_count p =? 0)%nat || (if usable <=? 0 then false else below_min (Z.of_nat (sum_list (record_sizes p)))).

Definition can_lend (p : Page) : bool :=
  let sizes := record_sizes p in
  if (key_count p <=? 1)%nat then false else
  if (length sizes <=? 1)%nat then false else
  negb (below_min (Z.of_nat (sum_list sizes - max_list sizes))).

Definition borrow_leaf_from_left (left_id right_id : Z) : BT (list Z) :=
  left ← get_page_or left_id MissingLeaf;
  right ← get_page_or right_id MissingLeaf;
  let last := (key_count left - 1)%nat in
  rec ← ok_or (key left last) MergeFailed;
  '(_, left) ← try (delete left last);
  '(_, right) ← try (insert_raw_at right 0 rec);
  put_page_with_lsn left_id left;;
  put_page_with_lsn right_id right;;
  mret (leaf_record_key rec).

Definition borrow_leaf_from_right (left_id right_id : Z) : BT (list Z) :=
  left ← get_page_or left_id MissingLeaf;
  right ← get_page_or right_id MissingLeaf;
  rec ← ok_or (key right 0) MergeFailed;
  '(_, right) ← try (delete right 0);
  '(_, left) ← try (insert_raw left rec);
  new_first ← ok_or (key right 0) MergeFailed;
  put_page_with_lsn left_id left;;
  put_page_with_lsn right_id right;;
  mret (leaf_record_key new_first).

Definition borrow_branch_from_left (left_id right_id : Z) (parent_sep : list Z) : BT (list Z) :=
  left ← get_page_or left_id MissingParent;
  right ← get_page_or right_id MissingParent;
  '(lseps, lchildren) ← try (decode_branch left);
  '(rseps, rchildren) ← try (decode_branch right);
  moved_sep ← ok_or (last lseps) MergeFailed;
  moved_child ← ok_or (last lchildren) MergeFailed;
  let lvl := level (btree_header left) in
  lb ← try (build_branch left_id lvl (removelast lseps) (removelast lchildren));
  rb ← try (build_branch right_id lvl (parent_sep :: rseps) (moved_child :: rchildren));
  put_page_with_lsn left_id lb;;
  put_page_with_lsn right_id rb;;
  mret moved_sep.

Definition borrow_branch_from_right (left_id right_id : Z) (parent_sep : list Z) : BT (list Z) :=
  left ← get_page_or left_id MissingParent;
  right ← get_page_or right_id MissingParent;
  '(lseps, lchildren) ← try (decode_branch left);
  '(rseps, rchildren) ← try (decode_branch right);
  moved_sep ← ok_or (head rseps) MergeFailed;
  moved_child ← try (head rchildren);
  let lvl := level (btree_header left) in
  lb ← try (build_branch left_id lvl (lseps ++ [parent_sep]) (lchildren ++ [moved_child]));
  rb ← try (build_branch right_id lvl (tail rseps) (tail rchildren));
  put_page_with_lsn left_id lb;;
  put_page_with_lsn right_id rb;;
  mret moved_sep.

(** Appending the right leaf's records; the inner [None] when one is refused. *)
Fixpoint append_records (left right : Page) (n i : nat) : option (option Page) :=
  match n with
  | O => Some (Some left)
  | S n =>
      match key right i with
      | None => append_records left right n (S i)
      | Some rec =>
          '(r, q) ← insert_raw left rec;
          match r with
          | None => Some None
          | Some _ => append_records q right n (S i)
          end
      end
  end.

Definition merge_leaves (left_id right_id : Z) : BT unit :=
  left ← get_page_or left_id MissingLeaf;
  right ← get_page_or right_id MissingLeaf;
  m ← try (append_records left right (key_count right) 0);
  left ← ok_or m MergeFailed;
  let right_next := sibling_next (btree_header right) in
  put_page_with_lsn left_id (set_siblings left (sibling_prev (btree_header left)) right_next);;
  if right_next =? 0 then mret tt else
  n ← get_page right_next;
  match n with
  | Some next => put_page_with_lsn right_next (set_siblings next left_id (sibling_next (btree_header next)))
  | None => mret tt
  end.

Definition merge_branches (left_id right_id : Z) (separator : list Z) : BT unit :=
  left ← get_page_or left_id MissingParent;
  right ← get_page_or right_id MissingParent;
  '(lseps, lchildren) ← try (decode_branch left);
  '(rseps, rchildren) ← try (decode_branch right);
  b ← try (try_build_branch left_id (level (btree_header left)) (lseps ++ separator :: rseps) (lchildren ++ rchildren));
  merged ← ok_or b MergeFailed;
  put_page_with_lsn left_id merged.

(** Replacing the parent's separator [i] after a borrow. *)
Definition put_parent (parent_id lvl : Z) (seps : list (list Z)) (children : list Z) : BT unit :=
  branch ← try (build_branch parent_id lvl seps children);
  put_page_with_lsn parent_id branch.

Definition try_borrow_left (parent_id node_id lvl : Z) (is_leaf_node : bool) (child_index : nat)
    (seps : list (list Z)) (children : list Z) : BT bool :=
  if (child_index =? 0)%nat then mret false else
  left_id ← try (children !! (child_index - 1)%nat);
  left ← get_page_or left_id MissingLeaf;
  if can_lend left then
    parent_sep ← try (seps !! (child_index - 1)%nat);
    new_sep ← (if is_leaf_node then borrow_leaf_from_left left_id node_id
               else borrow_branch_from_left left_id node_id parent_sep);
    put_parent parent_id lvl (<[(child_index - 1)%nat := new_sep]> seps) children;;
    mret true
  else mret false.

Definition try_borrow_right (parent_id node_id lvl : Z) (is_leaf_node : bool) (child_index : nat)
    (seps : list (list Z)) (children : list Z) : BT bool :=
  if (child_index + 1 <? length children)%nat then
    right_id ← try (children !! (child_index + 1)%nat);
    right ← get_page_or right_id MissingLeaf;
    if can_lend right then
      parent_sep ← try (seps !! child_index);
      new_sep ← (if is_leaf_node then borrow_leaf_from_right node_id right_id
                 else borrow_branch_from_right node_id right_id parent_sep);
      put_parent parent_id lvl (<[child_index := new_sep]> seps) children;;
      mret true
    else mret false
  else mret false.

(** The merging part of [rebalance_node]; [rebalance_up] is the recursive call
    for the parent. *)
Definition merge_node (rebalance_up : Z -> BT unit) (top : bool) (parent_id lvl : Z) (is_leaf_node : bool)
    (child_index : nat) (seps : list (list Z)) (children : list Z) : BT unit :=
  let i := if (child_index =? 0)%nat then child_index else (child_index - 1)%nat in
  left_id ← try (children !! i);
  right_id ← try (children !! (i + 1)%nat);
  separator ← try (seps !! i);
  (if is_leaf_node then merge_leaves left_id right_id else merge_branches left_id right_id separator);;
  let seps := base.delete i seps in
  let children := base.delete (i + 1)%nat children in
  free_page right_id;;
  rid ← root_id;
  if top && (parent_id =? rid) && bool_decide (seps = []) then
    only_child ← try (children !! 0%nat);
    set_root only_child;;
    free_page parent_id
  else
    branch ← try (build_branch parent_id lvl seps children);
    put_page_with_lsn parent_id branch;;
    if is_underfull branch && negb top then rebalance_up parent_id else mret tt.

Fixpoint rebalance_node (path : list (Z * nat)) (node_id : Z) : BT unit :=
  match path with
  | [] => mret tt
  | (parent_id, child_index) :: ancestors =>
      parent ← get_page_or parent_id MissingParent;
      '(seps, children) ← try (decode_branch parent);
      node ← get_page_or node_id MissingLeaf;
      let lvl := level (btree_header parent) in
      bl ← try_borrow_left parent_id node_id lvl (is_leaf node) child_index seps children;
      if bl : bool then mret tt else
      br ← try_borrow_right parent_id node_id lvl (is_leaf node) child_index seps children;
      if br : bool then mret tt else
      merge_node (rebalance_node ancestors) (match ancestors with [] => true | _ => false end)
        parent_id lvl (is_leaf node) child_index seps children
  end.

Definition rebalance_after_delete (leaf_id : Z) (path : list (Z * nat)) : BT unit :=
  leaf ← get_page_or leaf_id MissingLeaf;
  if match path with [] => true | _ => false end || negb (is_underfull leaf) then mret tt
  else rebalance_node path leaf_id.

Definition tree_delete (k : list Z) : BT bool :=
  rid ← root_id;
  root ← get_page_or rid MissingRoot;
  d ← descend_to_leaf_with_path root k;
  '(leaf_id, leaf, path) ← ok_or d MissingLeaf;
  let slot := leaf_lower_bound leaf k in
  let found := match leaf_key leaf slot with Some existing => bytes_eqb existing k | None => false end in
  if found then
    '(_, leaf) ← try (delete leaf slot);
    put_page_with_lsn leaf_id leaf;;
    rebalance_after_delete leaf_id path;;
    mret true
  else mret false.
End Rebalance.

(** ** Range scans *)

(** One leaf of [range_search]: the entries in range, and whether the end was
    reached. *)
Fixpoint scan_leaf (leaf : Page) (start stop : list Z) (n i : nat) : list (list Z * list Z) * bool :=
  match n with
  | O => ([], false)
  | S n =>
      match leaf_key leaf i with
      | None => scan_leaf leaf start stop n (S i)
      | Some k =>
          if bytes_lt k start then scan_leaf leaf start stop n (S i) else
          if bytes_le stop k then ([], true) else
          let '(rest, done) := scan_leaf leaf start stop n (S i) in
          (match leaf_value leaf i with Some v => (k, v) :: rest | None => rest end, done)
      end
  end.

(** The walk along the leaf chain. *)
Fixpoint scan_chain (pgs : gmap Z Page) (start stop : list Z) (fuel : nat) (leaf_id : Z) : option (list (list Z * list Z)) :=
  match fuel with
  | O => None
  | S fuel =>
      match pgs !! leaf_id with
      | None => Some []
      | Some leaf =>
          let '(found, done) := scan_leaf leaf start stop (key_count leaf) 0 in
          if done : bool then Some found else
          let next := sibling_next (btree_header leaf) in
          if next =? 0 then Some found
          else rest ← scan_chain pgs start stop fuel next; Some (found ++ rest)
      end
  end.

Definition range_search (t : BPlusTree) (start stop : CompositeKey) : option (list (list Z * list Z)) :=
  match pages t !! root_page_id t with
  | None => Some []
  | Some root =>
      r ← find_leaf (pages t) root start;
      match r with
      | None => Some []
      | Some leaf_id => scan_chain (pages t) start stop (S (size (pages t))) leaf_id
      end
  end.

(** The range cursor. *)
Record BTreeRangeCursor := mkCursor {
  current_leaf_id : Z;
  current_leaf : Page;
  current_slot : nat;
  end_key : option CompositeKey
}.

Definition cursor_new (leaf_id : Z) (leaf : Page) (from : CompositeKey) (stop : option CompositeKey) : BTreeRangeCursor :=
  mkCursor leaf_id leaf (leaf_lower_bound leaf from) stop.

Definition current_within_bound (c : BTreeRangeCursor) : bool :=
  if (key_count (current_leaf c) <=? current_slot c)%nat then false else
  match end_key c, leaf_key (current_leaf c) (current_slot c) with
  | Some stop, Some k => negb (bytes_le stop k)
  | _, _ => true
  end.

Definition current (c : BTreeRangeCursor) : option (list Z * list Z) :=
  if current_within_bound c then leaf_entry (current_leaf c) (current_slot c) else None.

Definition next (pgs : gmap Z Page) (c : BTreeRangeCursor) : bool * BTreeRangeCursor :=
  let count := key_count (current_leaf c) in
  if (current_slot c + 1 <? count)%nat then
    let c := mkCursor (current_leaf_id c) (current_leaf c) (current_slot c + 1) (end_key c) in
    (current_within_bound c, c)
  else
    let nxt := sibling_next (btree_header (current_leaf c)) in
    if nxt =? 0 then (false, mkCursor (current_leaf_id c) (current_leaf c) count (end_key c)) else
    match pgs !! nxt with
    | Some p => let c := mkCursor nxt p 0 (end_key c) in (current_within_bound c, c)
    | None => (false, c)
    end.

(** [advance_to]: hop along the chain while the whole leaf is below [k]. *)
Fixpoint advance_loop (pgs : gmap Z Page) (fuel : nat) (c : BTreeRangeCursor) (k : CompositeKey) :
    option (bool * BTreeRangeCursor) :=
  match fuel with
  | O => None
  | S fuel =>
      let count := key_count (current_leaf c) in
      let below := (0 <? count)%nat &&
        match leaf_key (current_leaf c) (count - 1) with Some lk => bytes_lt lk k | None => false end in
      if below then
        let nxt := sibling_next (btree_header (current_leaf c)) in
        if nxt =? 0 then Some (false, mkCursor (current_leaf_id c) (current_leaf c) count (end_key c)) else
        match pgs !! nxt with
        | Some p => advance_loop pgs fuel (mkCursor nxt p 0 (end_key c)) k
        | None => Some (false, c)
        end
      else
        let c := mkCursor (current_leaf_id c) (current_leaf c) (leaf_lower_bound (current_leaf c) k) (end_key c) in
        Some (current_within_bound c, c)
  end.

Definition advance_to (pgs : gmap Z Page) (c : BTreeRangeCursor) (k : CompositeKey) : option (bool * BTreeRangeCursor) :=
  advance_loop pgs (S (size pgs)) c k.

Fixpoint collect_range (pgs : gmap Z Page) (fuel : nat) (c : BTreeRangeCursor) : option (list (list Z * list Z)) :=
  match fuel with
  | O => None
  | S fuel =>
      match current c with
      | None => Some []
      | Some kv =>
          let '(more, c) := next pgs c in
          if more then rest ← collect_range pgs fuel c; Some (kv :: rest) else Some [kv]
      end
  end.

Definition cursor_from (t : BPlusTree) (from : CompositeKey) (stop : option CompositeKey) :
    option (option BTreeRangeCursor) :=
  match pages t !! root_page_id t with
  | None => Some None
  | Some root =>
      r ← find_leaf (pages t) root from;
      match r with
      | None => Some None
      | Some leaf_id =>
          Some ((fun leaf => cursor_new leaf_id leaf from stop) <$> pages t !! leaf_id)
      end
  end.

(** A cursor yields each record of the store at most once; a page holds at most
    2024 of them. *)
Definition collect_fuel (pgs : gmap Z Page) : nat := S (size pgs * 2024).

Definition into_range (t : BPlusTree) (from stop : CompositeKey) : option (list (list Z * list Z)) :=
  c ← cursor_from t from (Some stop);
  match c with
  | None => Some []
  | Some c => collect_range (pages t) (collect_fuel (pages t)) c
  end.
