(* ===== verification/BTreeNode.v ===== *)
(** * Leaf and branch pages of the B+ tree as lists

    For fixed key and value widths: what the page operations of [BTree] compute
    on a page that represents a sorted list of entries, or a branch with its
    separators and children. *)

From stdpp Require Import prelude list gmap sorting.
From Stdlib Require Import ZArith Lia.
From S2P Require Import Prelude Bytes SlottedPage BTreePage Key BTree.

(** ** The order of keys *)

Definition klt (a b : list Z) : Prop := bytes_lt a b = true.
Definition kle (a b : list Z) : Prop := bytes_le a b = true.

Lemma klt_cmp a b : klt a b <-> bytes_cmp a b = Lt.
Proof. apply bytes_lt_spec. Qed.

Lemma kle_cmp a b : kle a b <-> bytes_cmp a b <> Gt.
Proof. unfold kle, bytes_le. destruct (bytes_cmp a b); split; congruence. Qed.

Lemma kle_or a b : kle a b <-> klt a b \/ a = b.
Proof.
  rewrite klt_cmp, kle_cmp. rewrite <- bytes_cmp_eq. destruct (bytes_cmp a b); intuition congruence.
Qed.

Lemma klt_irrefl a : ~ klt a a.
Proof. rewrite klt_cmp, bytes_cmp_refl. discriminate. Qed.

#[global] Instance klt_trans : Transitive klt.
Proof. intros a b c. rewrite !klt_cmp. apply bytes_cmp_lt_trans. Qed.

Lemma not_klt a b : ~ klt a b <-> kle b a.
Proof. rewrite klt_cmp, kle_cmp, (bytes_cmp_antisym a b). destruct (bytes_cmp a b); cbn; intuition congruence. Qed.

Lemma kle_refl a : kle a a.
Proof. apply kle_or. by right. Qed.

Lemma kle_klt_trans a b c : kle a b -> klt b c -> klt a c.
Proof. rewrite kle_or. intros [H| ->]; [by apply klt_trans|done]. Qed.

Lemma klt_kle_trans a b c : klt a b -> kle b c -> klt a c.
Proof. rewrite kle_or. intros H [H'| <-]; [by eapply klt_trans|done]. Qed.

Lemma klt_kle a b : klt a b -> kle a b.
Proof. rewrite kle_or. by left. Qed.

Lemma kle_trans a b c : kle a b -> kle b c -> kle a c.
Proof. rewrite (kle_or a b). intros [H| ->]; [|done]. intros H'. apply klt_kle. by eapply klt_kle_trans. Qed.

Lemma klt_or a b : klt a b \/ kle b a.
Proof. destruct (decide (bytes_lt a b = true)); [by left|right; by apply not_klt]. Qed.

Lemma bytes_ltP a b : reflect (klt a b) (bytes_lt a b).
Proof. unfold klt. destruct (bytes_lt a b); by constructor. Qed.

Lemma bytes_eqbP a b : reflect (a = b) (bytes_eqb a b).
Proof. apply iff_reflect. symmetry. apply bytes_eqb_eq. Qed.

Lemma bytes_leP a b : reflect (kle a b) (bytes_le a b).
Proof. unfold kle. destruct (bytes_le a b); by constructor. Qed.

(** ** Sorted entries *)

Notation kv := (list Z * list Z)%type.

Definition sorted (kvs : list kv) : Prop := StronglySorted klt kvs.*1.

Lemma sorted_app (a b : list kv) :
  sorted (a ++ b) <-> sorted a /\ sorted b /\ (forall x y, x ∈ a -> y ∈ b -> klt x.1 y.1).
Proof.
  unfold sorted. rewrite fmap_app. split.
  - intros H. apply StronglySorted_app in H as (H1 & H2 & H3). split; [done|]. split; [done|].
    intros x y Hx Hy. apply H1; by apply list_elem_of_fmap_2.
  - intros (H1 & H2 & H3). apply StronglySorted_app. split; [|done].
    intros x y (x' & -> & Hx)%list_elem_of_fmap (y' & -> & Hy)%list_elem_of_fmap. by apply H3.
Qed.

Lemma sorted_cons (e : kv) l : sorted (e :: l) <-> sorted l /\ (forall y, y ∈ l -> klt e.1 y.1).
Proof.
  change (e :: l) with ([e] ++ l). rewrite sorted_app. split.
  - intros (_ & H1 & H2). split; [done|]. intros y Hy. apply H2; [set_solver|done].
  - intros (H1 & H2). split; [repeat constructor|]. split; [done|]. intros x y Hx%list_elem_of_singleton Hy. subst. by apply H2.
Qed.

Lemma sorted_nodup kvs : sorted kvs -> NoDup kvs.*1.
Proof.
  induction kvs as [|e l IH]; [constructor|]. rewrite sorted_cons. intros [H1 H2]. cbn. constructor; [|by apply IH].
  intros (y & E & Hy)%list_elem_of_fmap. apply (klt_irrefl e.1). rewrite E at 2. by apply H2.
Qed.

(** Where a key belongs. *)
Lemma sorted_split kvs k : sorted kvs -> exists l1 l2,
  kvs = l1 ++ l2 /\ (forall e, e ∈ l1 -> klt e.1 k) /\ (forall e, e ∈ l2 -> kle k e.1).
Proof.
  induction kvs as [|e l IH]; [exists [], []; set_solver|]. rewrite sorted_cons. intros [H1 H2].
  destruct (klt_or e.1 k) as [Hlt|Hle].
  - destruct (IH H1) as (l1 & l2 & -> & Ha & Hb). exists (e :: l1), l2. split; [done|]. split; [|done].
    intros x [->|Hx]%elem_of_cons; [done|by apply Ha].
  - exists [], (e :: l). split; [done|]. split; [set_solver|]. intros x [->|Hx]%elem_of_cons; [done|].
    eapply kle_trans; [exact Hle|]. by apply klt_kle, H2.
Qed.

(** ** Binary search *)

Lemma bsearch_spec right m fuel lo hi :
  (forall i, (i < hi)%nat -> right i = true <-> (i < m)%nat) -> (lo <= m)%nat -> (m <= hi)%nat -> (hi - lo < fuel)%nat ->
  bsearch right fuel lo hi = m.
Proof.
  revert lo hi. induction fuel as [|fuel IH]; intros lo hi Hr Hlo Hhi Hf; [lia|]. cbn [bsearch].
  destruct (Nat.ltb_spec lo hi) as [Hlt|Hge]; [|lia].
  assert (lo <= (lo + hi) / 2 < hi)%nat as [Hm1 Hm2].
  { split; [apply Nat.div_le_lower_bound; lia|apply Nat.div_lt_upper_bound; lia]. }
  destruct (right ((lo + hi) / 2)%nat) eqn:E.
  - apply IH; [done| |done|lia]. assert ((lo + hi) / 2 < m)%nat by (by apply Hr). lia.
  - apply IH; [intros i Hi; apply Hr; lia|done| |lia].
    destruct (decide ((lo + hi) / 2 < m)%nat) as [Hc|]; [|lia]. apply Hr in Hc; [congruence|lia].
Qed.

(** ** Fixed widths *)

Section Node.
Context (K V : nat).

(** The widths the theorems are about: keys of 8 to 1000 bytes, and records of
    at most 2048 bytes, the longest a slotted page accepts. *)
Record widths_ok : Prop := {
  wd_key : (8 <= K <= 1000)%nat;
  wd_rec : (2 + K + V <= 2048)%nat
}.
Context (HW : widths_ok).

Definition key_ok (k : list Z) : Prop := length k = K /\ bytes_ok k.
Definition val_ok (v : list Z) : Prop := length v = V /\ bytes_ok v.
Definition entry_ok (e : kv) : Prop := key_ok e.1 /\ val_ok e.2.
Definition rec_len : nat := 2 + K + V.
Definition enc (e : kv) : list Z := encode_kv e.1 e.2.

(** Sizes of a leaf of [n] entries and of a branch of [n] separators. *)
Definition leaf_size (n : nat) : Z := Z.of_nat n * (Z.of_nat rec_len + 4).
Definition branch_size (n : nat) : Z := Z.of_nat n * (Z.of_nat K + 12).

Definition leaf_page (p : Page) (id prev next : Z) (kvs : list kv) : Prop :=
  exists h, is_node p id PtBTreeLeaf h (enc <$> kvs) /\ sibling_prev h = prev /\ sibling_next h = next /\ Forall entry_ok kvs.

Definition branch_page (p : Page) (id : Z) (seps : list (list Z)) (children : list Z) : Prop :=
  exists h, is_node p id PtBTreeInterior h (zip_with encode_branch_entry seps children) /\
    last children = Some (rightmost_child h) /\ length children = S (length seps) /\
    Forall key_ok seps /\ Forall (uint 64) children.

(** ** Records *)

Lemma K_u16 : uint 16 (Z.of_nat K).
Proof using HW. destruct HW. unfold uint. lia. Qed.

Lemma length_enc e : entry_ok e -> length (enc e) = rec_len.
Proof. intros [[H1 _] [H2 _]]. unfold enc, encode_kv. rewrite !length_app, length_to_be, H1, H2. unfold rec_len. lia. Qed.

Lemma decode_enc e : entry_ok e -> decode_kv (enc e) = Some e.
Proof using HW.
  intros He. pose proof (length_enc e He) as Hl. destruct e as [k v]. destruct He as [[Hk _] [Hv _]]. cbn [fst snd] in *.
  unfold decode_kv. rewrite Hl. unfold rec_len.
  destruct (Nat.ltb_spec (2 + K + V) 2); [lia|]. unfold enc, encode_kv. cbn [fst snd]. rewrite Hk.
  rewrite (wrap_id 16 (Z.of_nat K)) by apply K_u16.
  rewrite take_app_length' by (by rewrite length_to_be). rewrite from_to_be_id by apply K_u16. rewrite Nat2Z.id.
  destruct (Nat.ltb_spec (2 + K + V) (2 + K)); [lia|]. f_equal. f_equal.
  - rewrite slice_skip by (rewrite length_to_be; lia). rewrite length_to_be.
    replace (2 - 2)%nat with 0%nat by lia. apply slice_here. lia.
  - rewrite app_assoc, drop_app_length'; [done|]. rewrite length_app, length_to_be. lia.
Qed.

Lemma enc_ok e : entry_ok e -> record_ok (enc e).
Proof using HW.
  intros He. split; [|rewrite length_enc by done; destruct HW; unfold rec_len, MAX_INLINE_RECORD_LEN; lia].
  destruct He as [[_ H1] [_ H2]]. unfold enc, encode_kv. rewrite !bytes_ok_app. split; [apply to_be_ok|done].
Qed.

Lemma enc_all_ok kvs : Forall entry_ok kvs -> Forall record_ok (enc <$> kvs).
Proof using HW. intros H. apply Forall_fmap. eapply Forall_impl; [exact H|]. apply enc_ok. Qed.

Lemma total_enc kvs : Forall entry_ok kvs -> total (enc <$> kvs) = (length kvs * rec_len)%nat.
Proof.
  induction 1 as [|e l He _ IH]; [done|]. cbn [fmap list_fmap]. rewrite total_cons, length_enc by done.
  change (list_fmap _ _ enc l) with (enc <$> l). rewrite IH. cbn [length]. lia.
Qed.

Lemma fits_enc kvs : Forall entry_ok kvs -> fits (enc <$> kvs) <-> leaf_size (length kvs) <= 8096.
Proof. intros H. unfold fits, leaf_size. rewrite total_enc, length_fmap by done. split; lia. Qed.

Lemma length_branch_entry s c : key_ok s -> length (encode_branch_entry s c) = (K + 8)%nat.
Proof. intros [H _]. unfold encode_branch_entry. rewrite length_app, length_to_be. lia. Qed.

Lemma branch_entry_ok s c : key_ok s -> record_ok (encode_branch_entry s c).
Proof using HW.
  intros Hs. split; [|rewrite length_branch_entry by done; destruct HW; unfold MAX_INLINE_RECORD_LEN; lia].
  destruct Hs as [_ H]. unfold encode_branch_entry. rewrite bytes_ok_app. split; [done|apply to_be_ok].
Qed.

Lemma total_branch seps children : Forall key_ok seps -> (length seps <= length children)%nat ->
  total (zip_with encode_branch_entry seps children) = (length seps * (K + 8))%nat.
Proof.
  intros H. revert children. induction H as [|s l Hs _ IH]; intros [|c cs] Hl; cbn [length] in *; [done..|lia|].
  cbn [zip_with]. rewrite total_cons, length_branch_entry by done. rewrite IH by lia. lia.
Qed.

Lemma fits_branch seps children : Forall key_ok seps -> (length seps <= length children)%nat ->
  fits (zip_with encode_branch_entry seps children) <-> branch_size (length seps) <= 8096.
Proof. intros H Hl. unfold fits, branch_size. rewrite total_branch, length_zip_with_l by done. split; lia. Qed.

(** ** Reading leaves *)

Lemma leaf_is_leaf p id prev next kvs : leaf_page p id prev next kvs -> is_leaf p = true /\ is_branch p = false.
Proof. intros (h & [Hb _] & _). unfold is_leaf, is_branch. by rewrite (node_page_type _ _ _ _ _ Hb). Qed.

Lemma branch_is_branch p id seps children : branch_page p id seps children -> is_leaf p = false /\ is_branch p = true.
Proof. intros (h & [Hb _] & _). unfold is_leaf, is_branch. by rewrite (node_page_type _ _ _ _ _ Hb). Qed.

Lemma leaf_key_count p id prev next kvs : leaf_page p id prev next kvs -> key_count p = length kvs.
Proof. intros (h & Hn & _). by rewrite (node_key_count _ _ _ _ _ Hn), length_fmap. Qed.

Lemma leaf_slot_count p id prev next kvs : leaf_page p id prev next kvs -> slot_count p = length kvs.
Proof. intros (h & [Hb _] & _). by rewrite (node_slot_count _ _ _ _ _ Hb), length_fmap. Qed.

Lemma leaf_key_rec p id prev next kvs i : leaf_page p id prev next kvs -> key p i = enc <$> kvs !! i.
Proof. intros (h & [Hb _] & _). unfold key. by rewrite (node_read _ _ _ _ _ _ Hb), list_lookup_fmap. Qed.

Lemma leaf_entry_spec p id prev next kvs i : leaf_page p id prev next kvs -> leaf_entry p i = kvs !! i.
Proof using HW.
  intros Hp. unfold leaf_entry. rewrite (leaf_key_rec _ _ _ _ _ _ Hp). destruct (kvs !! i) as [e|] eqn:E; [|done].
  cbn [fmap option_fmap option_map mbind option_bind]. apply decode_enc. destruct Hp as (h & _ & _ & _ & Hok).
  by eapply Forall_lookup_1.
Qed.

Lemma leaf_siblings p id prev next kvs : leaf_page p id prev next kvs ->
  sibling_prev (btree_header p) = prev /\ sibling_next (btree_header p) = next.
Proof. intros (h & [Hb _] & <- & <- & _). by rewrite (nd_header _ _ _ _ _ Hb). Qed.

Lemma leaf_page_id p id prev next kvs : leaf_page p id prev next kvs -> uint 64 id -> page_id p = id.
Proof. intros (h & [Hb _] & _). by apply (node_page_id _ _ _ _ _ Hb). Qed.

Lemma leaf_fits p id prev next kvs : leaf_page p id prev next kvs -> leaf_size (length kvs) <= 8096.
Proof.
  intros (h & [Hb _] & _ & _ & Hok). rewrite <- fits_enc by done. pose proof (node_available _ _ _ _ _ Hb). unfold fits. lia.
Qed.

(** The lower bound of a key in a sorted leaf. *)
Lemma leaf_lower_bound_spec p id prev next l1 l2 k :
  leaf_page p id prev next (l1 ++ l2) -> (forall e, e ∈ l1 -> klt e.1 k) -> (forall e, e ∈ l2 -> kle k e.1) ->
  leaf_lower_bound p k = length l1.
Proof using HW.
  intros Hp H1 H2. unfold leaf_lower_bound. rewrite (leaf_key_count _ _ _ _ _ Hp), length_app.
  apply bsearch_spec; [|lia|lia|lia]. intros i Hi. unfold leaf_key. rewrite (leaf_entry_spec _ _ _ _ _ _ Hp).
  destruct (decide (i < length l1)%nat) as [Hl|Hl].
  - rewrite lookup_app_l by done. destruct (lookup_lt_is_Some_2 l1 i Hl) as [e He]. rewrite He. cbn.
    split; [done|]. intros _. apply H1. by eapply list_elem_of_lookup_2.
  - rewrite lookup_app_r by lia. destruct (lookup_lt_is_Some_2 l2 (i - length l1)) as [e He]; [lia|]. rewrite He. cbn.
    split; [|lia]. intros Hlt. exfalso. apply (klt_irrefl k). eapply kle_klt_trans; [apply H2; by eapply list_elem_of_lookup_2|done].
Qed.

(** ** Reading branches *)

Lemma branch_key_count p id seps children : branch_page p id seps children -> key_count p = length seps.
Proof. intros (h & Hn & _ & Hl & _). rewrite (node_key_count _ _ _ _ _ Hn), length_zip_with_l; [done|lia]. Qed.

Lemma branch_page_id p id seps children : branch_page p id seps children -> uint 64 id -> page_id p = id.
Proof. intros (h & [Hb _] & _). by apply (node_page_id _ _ _ _ _ Hb). Qed.

Lemma branch_fits p id seps children : branch_page p id seps children -> branch_size (length seps) <= 8096.
Proof.
  intros (h & [Hb _] & _ & Hl & Hk & _). rewrite <- (fits_branch seps children) by (done || lia).
  pose proof (node_available _ _ _ _ _ Hb). unfold fits. lia.
Qed.

Lemma branch_read p id seps children i : branch_page p id seps children ->
  read p i = match seps !! i, children !! i with Some s, Some c => Some (encode_branch_entry s c) | _, _ => None end.
Proof.
  intros (h & [Hb _] & _). rewrite (node_read _ _ _ _ _ _ Hb), lookup_zip_with.
  destruct (seps !! i), (children !! i); reflexivity.
Qed.

Lemma separator_key_spec p id seps children i : branch_page p id seps children -> separator_key p i = seps !! i.
Proof.
  intros Hp. unfold separator_key. rewrite (branch_read _ _ _ _ _ Hp). destruct Hp as (h & _ & _ & Hl & Hk & _).
  destruct (seps !! i) as [s|] eqn:Es; [|done].
  destruct (lookup_lt_is_Some_2 children i) as [c ->]; [apply lookup_lt_Some in Es; lia|].
  cbn [fmap option_fmap option_map]. pose proof (Forall_lookup_1 _ _ _ _ Hk Es) as Hs.
  rewrite length_branch_entry by done. unfold encode_branch_entry. rewrite take_app_length'; [done|]. destruct Hs. lia.
Qed.

Lemma child_pointer_spec p id seps children i : branch_page p id seps children ->
  child_pointer p i = Some (if (i <? length seps)%nat then children !! i else None).
Proof.
  intros Hp. unfold child_pointer. rewrite (branch_read _ _ _ _ _ Hp). destruct Hp as (h & _ & _ & Hl & Hk & Hu).
  destruct (seps !! i) as [s|] eqn:Es.
  - pose proof (lookup_lt_Some _ _ _ Es) as Hlt. destruct (Nat.ltb_spec i (length seps)); [|lia].
    destruct (lookup_lt_is_Some_2 children i) as [c Hc]; [lia|]. rewrite Hc. pose proof (Forall_lookup_1 _ _ _ _ Hk Es) as Hs.
    rewrite length_branch_entry by done. replace (K + 8 - 8)%nat with K by lia. unfold encode_branch_entry.
    rewrite drop_app_length' by (destruct Hs; lia). rewrite length_to_be. cbn [Nat.ltb Nat.leb].
    rewrite take_ge by (by rewrite length_to_be). rewrite from_to_be_id; [done|]. by eapply (Forall_lookup_1 (uint 64)).
  - apply lookup_ge_None in Es. destruct (Nat.ltb_spec i (length seps)); [lia|done].
Qed.

Lemma branch_rightmost p id seps children : branch_page p id seps children ->
  last children = Some (rightmost_child (btree_header p)).
Proof. intros (h & [Hb _] & Hr & _). by rewrite (nd_header _ _ _ _ _ Hb). Qed.

Lemma decode_entries_spec p id seps children : branch_page p id seps children -> forall n i, (i + n = length seps)%nat ->
  decode_entries p n i = Some (drop i seps, take n (drop i children)).
Proof.
  intros Hp. pose proof Hp as (h & _ & _ & Hl & _). induction n as [|n IH]; intros i Hi.
  { cbn. rewrite drop_ge by lia. done. }
  cbn [decode_entries]. rewrite (child_pointer_spec _ _ _ _ _ Hp). destruct (Nat.ltb_spec i (length seps)); [|lia].
  rewrite (separator_key_spec _ _ _ _ _ Hp). rewrite Some_bind, IH by lia. rewrite Some_bind.
  destruct (lookup_lt_is_Some_2 seps i) as [s Hs]; [lia|]. destruct (lookup_lt_is_Some_2 children i) as [c Hc]; [lia|].
  rewrite Hs, Hc. rewrite (drop_S seps s i Hs), (drop_S children c i Hc). reflexivity.
Qed.

Lemma decode_branch_spec p id seps children : branch_page p id seps children -> decode_branch p = Some (seps, children).
Proof.
  intros Hp. pose proof (branch_rightmost _ _ _ _ Hp) as Hr. pose proof Hp as (h & _ & _ & Hl & _). unfold decode_branch.
  rewrite (branch_key_count _ _ _ _ Hp), (decode_entries_spec _ _ _ _ Hp) by lia. rewrite Some_bind, !drop_0.
  apply last_Some in Hr as [l Hc]. rewrite Hc in *. rewrite length_app in Hl. cbn [length] in Hl.
  rewrite take_app_length' by lia. reflexivity.
Qed.

(** The child to follow: left of the first separator above the key. *)
Lemma branch_slot_spec p id ss1 ss2 cs1 c cs2 k :
  branch_page p id (ss1 ++ ss2) (cs1 ++ c :: cs2) -> length cs1 = length ss1 ->
  (forall s, s ∈ ss1 -> kle s k) -> (forall s, s ∈ ss2 -> klt k s) ->
  branch_slot p k = Some (c, length ss1).
Proof.
  intros Hp Hlen H1 H2. pose proof Hp as (h & _ & _ & Hl & _). unfold branch_slot. rewrite (branch_key_count _ _ _ _ Hp), length_app.
  rewrite (bsearch_spec _ (length ss1)); [|intros i Hi|lia..].
  - destruct (Nat.ltb_spec (length ss1) (length ss1 + length ss2)) as [Hlt|Hge].
    + rewrite (child_pointer_spec _ _ _ _ _ Hp), length_app.
      destruct (Nat.ltb_spec (length ss1) (length ss1 + length ss2)); [|lia].
      rewrite lookup_app_r, Hlen, Nat.sub_diag by lia. reflexivity.
    + pose proof (branch_rightmost _ _ _ _ Hp) as Hr. rewrite !length_app in Hl. cbn [length] in Hl.
      destruct cs2 as [|c' cs2]; [|cbn in Hl; lia]. rewrite last_snoc in Hr. apply (inj Some) in Hr. rewrite <- Hr. do 2 f_equal. lia.
  - rewrite (separator_key_spec _ _ _ _ _ Hp). destruct (decide (i < length ss1)%nat) as [Hi1|Hi1].
    + rewrite lookup_app_l by done. destruct (lookup_lt_is_Some_2 ss1 i Hi1) as [s Hs]. rewrite Hs.
      split; [done|]. intros _. apply H1. by eapply list_elem_of_lookup_2.
    + rewrite lookup_app_r by lia. destruct (lookup_lt_is_Some_2 ss2 (i - length ss1)) as [s Hs]; [lia|]. rewrite Hs.
      split; [|lia]. intros Hle. exfalso. apply (klt_irrefl k). eapply klt_kle_trans; [|exact Hle].
      apply H2. by eapply list_elem_of_lookup_2.
Qed.

(** ** Writing leaves *)

Lemma leaf_size_mono m n : (m <= n)%nat -> leaf_size m <= leaf_size n.
Proof. unfold leaf_size. intros H. apply Z.mul_le_mono_nonneg_r; lia. Qed.

Lemma branch_size_mono m n : (m <= n)%nat -> branch_size m <= branch_size n.
Proof. unfold branch_size. intros H. apply Z.mul_le_mono_nonneg_r; lia. Qed.

Lemma lsn_leaf p id prev next kvs lsn : leaf_page p id prev next kvs -> leaf_page (set_page_lsn p lsn) id prev next kvs.
Proof. intros (h & Hn & H). exists h. split; [by apply set_page_lsn_node|done]. Qed.

Lemma lsn_branch p id seps children lsn : branch_page p id seps children -> branch_page (set_page_lsn p lsn) id seps children.
Proof. intros (h & Hn & H). exists h. split; [by apply set_page_lsn_node|done]. Qed.

Lemma new_leaf_page id : leaf_page (new_leaf id) id 0 0 [].
Proof. exists (bh_new 0). split; [exact (new_leaf_node id)|]. repeat split. constructor. Qed.

Lemma siblings_leaf p id prev next kvs prev' next' :
  leaf_page p id prev next kvs -> uint 64 prev' -> uint 64 next' -> leaf_page (set_siblings p prev' next') id prev' next' kvs.
Proof. intros (h & Hn & _ & _ & Hok) H1 H2. eexists. split; [by eapply set_siblings_node|]. by repeat split. Qed.

Lemma append_leaf p id prev next kvs e :
  leaf_page p id prev next kvs -> entry_ok e -> leaf_size (S (length kvs)) <= 8096 ->
  exists q, insert_raw p (enc e) = Some (Some (length kvs), q) /\ leaf_page q id prev next (kvs ++ [e]).
Proof using HW.
  intros (h & Hn & H1 & H2 & Hok) He Hs.
  assert (Forall entry_ok (kvs ++ [e])) as Hok' by (apply Forall_app; split; [done|by apply Forall_singleton]).
  destruct (insert_raw_node p id PtBTreeLeaf h (enc <$> kvs) (enc e) Hn) as (q & Eq & Hq).
  - by apply enc_ok.
  - change [enc e] with (enc <$> [e]). rewrite <- fmap_app. apply fits_enc; [done|]. rewrite length_app, Nat.add_1_r. exact Hs.
  - rewrite length_fmap in *. exists q. split; [exact Eq|]. eexists. split; [by rewrite fmap_app|]. by repeat split.
Qed.

Lemma fill_leaf_spec l2 : forall p id prev next l1,
  leaf_page p id prev next l1 -> Forall entry_ok l2 -> leaf_size (length (l1 ++ l2)) <= 8096 ->
  exists q, fill_leaf p l2 = Some q /\ leaf_page q id prev next (l1 ++ l2).
Proof using HW.
  induction l2 as [|[k v] l2 IH]; intros p id prev next l1 Hp Hok Hs; [exists p; by rewrite app_nil_r|].
  apply Forall_cons in Hok as [He Hok]. cbn [fill_leaf]. rewrite length_app in Hs. cbn [length] in Hs.
  destruct (append_leaf p id prev next l1 (k, v) Hp He) as (q & Eq & Hq).
  { etransitivity; [|exact Hs]. apply leaf_size_mono. lia. }
  change (encode_kv k v) with (enc (k, v)). rewrite Eq, Some_bind.
  destruct (IH q id prev next (l1 ++ [(k, v)]) Hq Hok) as (q' & Eq' & Hq').
  { rewrite !length_app. cbn [length]. replace (length l1 + 1 + length l2)%nat with (length l1 + S (length l2))%nat by lia. exact Hs. }
  exists q'. split; [exact Eq'|]. by rewrite <- app_assoc in Hq'.
Qed.

Lemma has_room_leaf p id prev next kvs : leaf_page p id prev next kvs ->
  has_room_for p rec_len = true <-> leaf_size (S (length kvs)) <= 8096.
Proof.
  intros (h & [Hb _] & _ & _ & Hok). unfold has_room_for. rewrite Nat.leb_le.
  pose proof (node_available _ _ _ _ _ Hb) as Ha. rewrite total_enc, length_fmap in Ha by done.
  unfold leaf_size, SLOT_SIZE. split; lia.
Qed.

Lemma insert_leaf p id prev next l1 l2 e :
  leaf_page p id prev next (l1 ++ l2) -> entry_ok e -> leaf_size (S (length (l1 ++ l2))) <= 8096 ->
  exists q, insert_raw_at p (length l1) (enc e) = Some (Some (length l1), q) /\ leaf_page q id prev next (l1 ++ e :: l2).
Proof using HW.
  intros (h & Hn & H1 & H2 & Hok) He Hs.
  assert (inserted (length l1) (enc e) (enc <$> l1 ++ l2) = enc <$> (l1 ++ e :: l2)) as Ei.
  { unfold inserted. rewrite fmap_app, take_app_length', drop_app_length' by (by rewrite length_fmap).
    rewrite fmap_app. reflexivity. }
  assert (Forall entry_ok (l1 ++ e :: l2)) as Hok'.
  { rewrite Forall_app in *. destruct Hok. split; [done|by constructor]. }
  destruct (insert_raw_at_node p id PtBTreeLeaf h (enc <$> l1 ++ l2) (enc e) (length l1) Hn) as (q & Eq & Hq).
  - by apply enc_ok.
  - rewrite length_fmap, length_app. lia.
  - rewrite Ei. apply fits_enc; [done|]. rewrite length_app in *. cbn [length]. rewrite <- plus_n_Sm. exact Hs.
  - rewrite Ei in Hq. exists q. split; [exact Eq|]. eexists. split; [exact Hq|]. by repeat split.
Qed.

Lemma delete_leaf p id prev next l1 e l2 :
  leaf_page p id prev next (l1 ++ e :: l2) -> uint 64 id ->
  exists q, delete p (length l1) = Some (true, q) /\ leaf_page q id prev next (l1 ++ l2).
Proof using HW.
  intros (h & Hn & H1 & H2 & Hok) Hid.
  destruct (delete_node p id PtBTreeLeaf h (enc <$> l1 ++ e :: l2) (length l1) (enc e) Hn Hid) as (q & Eq & Hq).
  - by left.
  - by apply enc_all_ok.
  - by rewrite list_lookup_fmap, list_lookup_middle.
  - assert (base.delete (length l1) (enc <$> l1 ++ e :: l2) = enc <$> l1 ++ l2) as Ed.
    { rewrite !fmap_app. rewrite <- (length_fmap enc l1). apply delete_middle. }
    rewrite Ed in Hq. exists q. split; [exact Eq|]. eexists. split; [exact Hq|]. split; [exact H1|]. split; [exact H2|].
    rewrite Forall_app, Forall_cons in Hok. rewrite Forall_app. tauto.
Qed.

(** Rebuilding with one record replaced; the new one has the same width. *)
Lemma rebuild_loop_spec leaf id prev next l1 e l2 e' :
  leaf_page leaf id prev next (l1 ++ e :: l2) -> entry_ok e' -> forall n i p,
  (i + n = length (l1 ++ e :: l2))%nat -> leaf_page p id prev next (take i (l1 ++ e' :: l2)) ->
  exists q, rebuild_loop p leaf (length l1) (enc e') n i = Some (Some q) /\ leaf_page q id prev next (l1 ++ e' :: l2).
Proof using HW.
  intros Hleaf He'. pose proof (leaf_fits _ _ _ _ _ Hleaf) as Hfit. pose proof Hleaf as (h & _ & _ & _ & Hok).
  assert (length (l1 ++ e' :: l2) = length (l1 ++ e :: l2)) as Hlen by (rewrite !length_app; done).
  induction n as [|n IH]; intros i p Hi Hp.
  { exists p. rewrite take_ge in Hp by lia. split; [reflexivity|exact Hp]. }
  cbn [rebuild_loop]. assert (exists x, (l1 ++ e' :: l2) !! i = Some x /\ entry_ok x /\
    (if (i =? length l1)%nat then Some (enc e') else key leaf i) = Some (enc x)) as (x & Hx & Hxok & ->).
  { destruct (Nat.eqb_spec i (length l1)) as [->|Hne].
    - exists e'. by rewrite list_lookup_middle.
    - destruct (lookup_lt_is_Some_2 (l1 ++ e :: l2) i) as [x Hx]; [lia|]. exists x.
      split; [|split; [by eapply Forall_lookup_1|by rewrite (leaf_key_rec _ _ _ _ _ _ Hleaf), Hx]].
      destruct (decide (i < length l1)%nat); [by rewrite lookup_app_l in Hx |- * by lia|].
      rewrite lookup_app_r in Hx |- * by lia. destruct (i - length l1)%nat eqn:E; [lia|]. exact Hx. }
  rewrite length_enc by done. assert (length (take i (l1 ++ e' :: l2)) = i) as Hli by (rewrite length_take; lia).
  assert (leaf_size (S i) <= 8096) as Hsz by (etransitivity; [apply leaf_size_mono|exact Hfit]; lia).
  assert (has_room_for p rec_len = true) as -> by (apply (has_room_leaf _ _ _ _ _ Hp); by rewrite Hli).
  destruct (append_leaf p id prev next _ x Hp Hxok) as (q & Eq & Hq); [by rewrite Hli|].
  rewrite Eq, Some_bind. apply IH; [lia|]. by rewrite (take_S_r _ _ _ Hx).
Qed.

Lemma rebuild_leaf_spec leaf id prev next l1 e l2 e' :
  leaf_page leaf id prev next (l1 ++ e :: l2) -> entry_ok e' -> uint 64 id -> uint 64 prev -> uint 64 next ->
  exists q, rebuild_leaf_replacing leaf (length l1) (enc e') = Some (Some q) /\ leaf_page q id prev next (l1 ++ e' :: l2).
Proof using HW.
  intros Hl He' H1 H2 H3. unfold rebuild_leaf_replacing.
  destruct (leaf_siblings _ _ _ _ _ Hl) as [-> ->]. rewrite (leaf_page_id _ _ _ _ _ Hl H1), (leaf_key_count _ _ _ _ _ Hl).
  eapply rebuild_loop_spec; [exact Hl|done|done|]. eapply siblings_leaf; [apply new_leaf_page|done|done].
Qed.

Lemma append_records_spec right rid rprev rnext r : leaf_page right rid rprev rnext r -> forall n i p id prev next l,
  (i + n = length r)%nat -> leaf_page p id prev next l -> leaf_size (length l + n) <= 8096 ->
  exists q, append_records p right n i = Some (Some q) /\ leaf_page q id prev next (l ++ drop i r).
Proof using HW.
  intros Hr. pose proof Hr as (h & _ & _ & _ & Hok). induction n as [|n IH]; intros i p id prev next l Hi Hp Hs.
  { exists p. rewrite drop_ge, app_nil_r by lia. split; [reflexivity|exact Hp]. }
  destruct (lookup_lt_is_Some_2 r i) as [e He]; [lia|]. cbn [append_records]. rewrite (leaf_key_rec _ _ _ _ _ _ Hr), He.
  cbn [fmap option_fmap option_map]. destruct (append_leaf p id prev next l e Hp) as (q & Eq & Hq).
  - by eapply Forall_lookup_1.
  - etransitivity; [apply leaf_size_mono|exact Hs]. lia.
  - rewrite Eq, Some_bind. destruct (IH (S i) q id prev next (l ++ [e]) ltac:(lia) Hq) as (q' & Eq' & Hq').
    + rewrite length_app. cbn [length]. replace (length l + 1 + n)%nat with (length l + S n)%nat by lia. exact Hs.
    + exists q'. split; [exact Eq'|]. rewrite (drop_S r e i He). by rewrite <- app_assoc in Hq'.
Qed.

(** ** Building branches *)

Lemma zip_snoc {A B C} (f : A -> B -> C) l1 a l2 b (r : list B) :
  length l1 = length l2 -> zip_with f (l1 ++ [a]) (l2 ++ b :: r) = zip_with f l1 l2 ++ [f a b].
Proof. intros H. by rewrite zip_with_app by done. Qed.

Lemma build_entries_spec ss : forall p id lvl ss0 cs0 cs h,
  is_node p id PtBTreeInterior h (zip_with encode_branch_entry ss0 cs0) -> length cs0 = length ss0 -> level h = lvl ->
  Forall key_ok ss0 -> Forall key_ok ss -> (length ss <= length cs)%nat -> branch_size (length (ss0 ++ ss)) <= 8096 ->
  exists q h', build_entries p ss cs = Some (Some q) /\
    is_node q id PtBTreeInterior h' (zip_with encode_branch_entry (ss0 ++ ss) (cs0 ++ cs)) /\ level h' = lvl.
Proof using HW.
  induction ss as [|s ss IH]; intros p id lvl ss0 cs0 cs h Hp Hl Hlv Hk0 Hk Hc Hs.
  { exists p, h. split; [by destruct cs|]. split; [|done]. rewrite app_nil_r.
    rewrite <- (app_nil_r ss0) at 1. by rewrite zip_with_app, zip_with_nil_l, app_nil_r by done. }
  destruct cs as [|c cs]; [cbn in Hc; lia|]. apply Forall_cons in Hk as [Hks Hk]. cbn [build_entries].
  assert (Forall key_ok (ss0 ++ [s])) as Hk1 by (apply Forall_app; split; [done|by apply Forall_singleton]).
  rewrite length_app in Hs. cbn [length] in Hs, Hc.
  destruct (insert_raw_node p id PtBTreeInterior h _ (encode_branch_entry s c) Hp) as (q & Eq & Hq).
  - by apply branch_entry_ok.
  - rewrite <- (zip_snoc _ ss0 s cs0 c []) by done. apply fits_branch; [done|rewrite !length_app; cbn; lia|].
    etransitivity; [apply branch_size_mono|exact Hs]. rewrite length_app. cbn. lia.
  - rewrite Eq, Some_bind. rewrite <- (zip_snoc _ ss0 s cs0 c []) in Hq by done.
    destruct (IH q id lvl (ss0 ++ [s]) (cs0 ++ [c]) cs _ Hq) as (q' & h' & E' & Hq' & Hlv'); try done.
    + rewrite !length_app. cbn. lia.
    + lia.
    + rewrite !length_app. cbn [length]. replace (length ss0 + 1 + length ss)%nat with (length ss0 + S (length ss))%nat by lia. exact Hs.
    + exists q', h'. split; [exact E'|]. by rewrite <- !app_assoc in Hq'.
Qed.

Lemma try_build_branch_fits id lvl seps children :
  uint 8 lvl -> Forall key_ok seps -> Forall (uint 64) children -> length children = S (length seps) ->
  branch_size (length seps) <= 8096 ->
  exists p, try_build_branch id lvl seps children = Some (Some p) /\ branch_page p id seps children.
Proof using HW.
  intros Hlv Hk Hu Hl Hs. unfold try_build_branch.
  destruct (build_entries_spec seps (new_branch id lvl) id lvl [] [] children (bh_new lvl)) as (q & h & E & Hq & Hlv');
    [exact (new_branch_node id lvl Hlv)|done|done|constructor|done|lia|done|].
  rewrite E, Some_bind. destruct (last children) as [c|] eqn:Ec; [|apply last_None in Ec; by subst].
  rewrite Some_bind. eexists. split; [reflexivity|]. assert (uint 64 c) as Hc.
  { apply last_Some in Ec as [l ->]. rewrite Forall_app in Hu. destruct Hu as [_ Hu]. by inversion Hu. }
  exists (with_rightmost h c). split; [by apply set_rightmost_node|]. by split_and!.
Qed.

Lemma build_branch_fits id lvl seps children :
  uint 8 lvl -> Forall key_ok seps -> Forall (uint 64) children -> length children = S (length seps) ->
  branch_size (length seps) <= 8096 ->
  exists p, build_branch id lvl seps children = Some p /\ branch_page p id seps children.
Proof using HW.
  intros H1 H2 H3 H4 H5. destruct (try_build_branch_fits id lvl seps children H1 H2 H3 H4 H5) as (p & E & Hp).
  exists p. unfold build_branch. rewrite E. done.
Qed.

(** No number of entries lands in the 32 bytes in which an overflow would go
    unnoticed. *)
Definition window_free : Prop := forall n, branch_size n <= 8096 \/ 8096 + 32 < branch_size n.

Lemma build_entries_full ss : forall p id ss0 cs0 cs h,
  window_free -> is_node p id PtBTreeInterior h (zip_with encode_branch_entry ss0 cs0) -> length cs0 = length ss0 ->
  Forall key_ok ss0 -> Forall key_ok ss -> (length ss <= length cs)%nat ->
  branch_size (length ss0) <= 8096 -> 8096 < branch_size (length (ss0 ++ ss)) ->
  build_entries p ss cs = Some None.
Proof using HW.
  induction ss as [|s ss IH]; intros p id ss0 cs0 cs h Hw Hp Hl Hk0 Hk Hc H0 Hs; [rewrite app_nil_r in Hs; lia|].
  destruct cs as [|c cs]; [cbn in Hc; lia|]. apply Forall_cons in Hk as [Hks Hk]. cbn [build_entries].
  assert (Forall key_ok (ss0 ++ [s])) as Hk1 by (apply Forall_app; split; [done|by apply Forall_singleton]).
  cbn [length] in Hc. assert (length (ss0 ++ [s]) <= length (cs0 ++ [c]))%nat as Hl1 by (rewrite !length_app; cbn; lia).
  destruct (Hw (length (ss0 ++ [s]))) as [Hin|Hout].
  - destruct (insert_raw_node p id PtBTreeInterior h _ (encode_branch_entry s c) Hp) as (q & Eq & Hq).
    + by apply branch_entry_ok.
    + rewrite <- (zip_snoc _ ss0 s cs0 c []) by done. by apply fits_branch.
    + rewrite Eq, Some_bind. rewrite <- (zip_snoc _ ss0 s cs0 c []) in Hq by done.
      eapply (IH q id (ss0 ++ [s]) (cs0 ++ [c]) cs); try done; [rewrite !length_app; cbn; lia|lia|by rewrite <- app_assoc].
  - destruct (insert_raw_full p id PtBTreeInterior h _ (encode_branch_entry s c) Hp) as (q & Eq); [|by rewrite Eq].
    rewrite <- (zip_snoc _ ss0 s cs0 c []) by done. rewrite total_branch, length_zip_with_l by done.
    unfold branch_size in Hout. lia.
Qed.

Lemma try_build_branch_full id lvl seps children :
  window_free -> uint 8 lvl -> Forall key_ok seps -> length children = S (length seps) ->
  8096 < branch_size (length seps) -> try_build_branch id lvl seps children = Some None.
Proof using HW.
  intros Hw Hlv Hk Hl Hs. unfold try_build_branch.
  rewrite (build_entries_full seps (new_branch id lvl) id [] [] children (bh_new lvl)); [done|done|exact (new_branch_node id lvl Hlv)|done|constructor|done|lia|unfold branch_size; cbn; lia|done].
Qed.
End Node.
