(* ===== verification/BTreeSpec.v ===== *)
(** * The B+ tree refines a sorted map

    A store of pages holds a tree of given height over a key interval; a path
    is a context with a hole.  From these: descents reach the leaf of a key,
    splits and merges rebuild the context around the nodes they change, and
    every operation acts on the sorted list of entries as on a map. *)

From stdpp Require Import prelude list gmap sorting.
From Stdlib Require Import ZArith Lia.
From S2P Require Import Prelude Bytes SlottedPage BTreePage Key BTree BTreeNode.

(** ** Bounds

    [lo] inclusive, [hi] exclusive; [None] is unbounded. *)

Definition bound : Type := option (list Z).

Definition above (lo : bound) (k : list Z) : Prop := match lo with None => True | Some l => kle l k end.
Definition below (hi : bound) (k : list Z) : Prop := match hi with None => True | Some h => klt k h end.
Definition within (lo hi : bound) (k : list Z) : Prop := above lo k /\ below hi k.
Definition bounds_ok (lo hi : bound) : Prop :=
  match lo, hi with Some a, Some b => klt a b | _, _ => True end.

Lemma within_ok lo hi k : within lo hi k -> bounds_ok lo hi.
Proof. destruct lo, hi; intros [H1 H2]; cbn in *; try done. by eapply kle_klt_trans. Qed.

(** Conjunctions of forests, lists and disjoint page sets. *)
Ltac fs1 :=
  lazymatch goal with
  | |- @eq (gset _) _ _ => set_solver
  | |- _ ## _ => set_solver
  | |- _ ∉ _ => set_solver
  | |- within _ _ _ => first [done | split; done]
  | |- @eq _ _ _ => done
  | |- _ => first [done | by constructor | (constructor; [done|done|set_solver])]
  end.
Ltac fs := repeat match goal with |- _ /\ _ => split end; fs1.

(** ** Forests: the children of a branch

    [T c lo hi kvs leaves F]: the subtree at page [c] covers the interval, holds
    [kvs], has the given leaves from left to right and occupies pages [F]. *)

Section Forest.
Context (T : Z -> bound -> bound -> list kv -> list Z -> gset Z -> Prop).

Inductive forest : list (list Z) -> list Z -> bound -> bound -> list kv -> list Z -> gset Z -> Prop :=
| forest_one c lo hi kvs l F : T c lo hi kvs l F -> forest [] [c] lo hi kvs l F
| forest_cons s ss c cs lo hi kvs1 kvs2 l1 l2 F1 F2 :
    T c lo (Some s) kvs1 l1 F1 -> forest ss cs (Some s) hi kvs2 l2 F2 -> F1 ## F2 ->
    forest (s :: ss) (c :: cs) lo hi (kvs1 ++ kvs2) (l1 ++ l2) (F1 ∪ F2).

(** Children to the left of a hole that starts at [b]. *)
Inductive lforest : list (list Z) -> list Z -> bound -> bound -> list kv -> list Z -> gset Z -> Prop :=
| lforest_nil b : lforest [] [] b b [] [] ∅
| lforest_cons s ss c cs lo b kvs1 kvs2 l1 l2 F1 F2 :
    T c lo (Some s) kvs1 l1 F1 -> lforest ss cs (Some s) b kvs2 l2 F2 -> F1 ## F2 ->
    lforest (s :: ss) (c :: cs) lo b (kvs1 ++ kvs2) (l1 ++ l2) (F1 ∪ F2).

(** Children to the right of a hole that ends at [b]. *)
Definition rforest (ss : list (list Z)) (cs : list Z) (b hi : bound) (kvs : list kv) (l : list Z) (F : gset Z) : Prop :=
  match ss with
  | [] => cs = [] /\ b = hi /\ kvs = [] /\ l = [] /\ F = ∅
  | s :: ss => b = Some s /\ forest ss cs (Some s) hi kvs l F
  end.

Lemma forest_split ss1 ss2 cs1 c cs2 lo hi kvs l F :
  forest (ss1 ++ ss2) (cs1 ++ c :: cs2) lo hi kvs l F -> length ss1 = length cs1 ->
  exists b b' k1 l1 F1 k2 l2 F2 k3 l3 F3,
    lforest ss1 cs1 lo b k1 l1 F1 /\ T c b b' k2 l2 F2 /\ rforest ss2 cs2 b' hi k3 l3 F3 /\
    kvs = k1 ++ k2 ++ k3 /\ l = l1 ++ l2 ++ l3 /\ F = F1 ∪ F2 ∪ F3 /\ F1 ## F2 /\ F1 ## F3 /\ F2 ## F3.
Proof.
  revert cs1 lo kvs l F. induction ss1 as [|s ss1 IH]; intros [|c1 cs1] lo kvs l F H Hl; try done; cbn [app] in H.
  - inversion H as [? ? ? ? ? ? HT|s ss ? ? ? ? kvs1 kvs2 l1 l2 F1 F2 HT Hf Hd]; subst.
    + exists lo, hi, [], [], ∅, kvs, l, F, [], [], ∅. rewrite !app_nil_r. fs.
    + exists lo, (Some s), [], [], ∅, kvs1, l1, F1, kvs2, l2, F2. fs.
  - inversion H as [|s' ss' ? ? ? ? kvs1 kvs2 l1 l2 F1 F2 HT Hf Hd]; subst.
    apply (inj S) in Hl. destruct (IH cs1 (Some s) kvs2 l2 F2 Hf Hl) as (b & b' & k1 & m1 & G1 & k2 & m2 & G2 & k3 & m3 & G3 & A1 & A2 & A3 & -> & -> & -> & D1 & D2 & D3).
    exists b, b', (kvs1 ++ k1), (l1 ++ m1), (F1 ∪ G1), k2, m2, G2, k3, m3, G3. rewrite <- !app_assoc.
    fs.
Qed.

Lemma forest_join ss1 ss2 cs1 c cs2 lo hi b b' k1 l1 F1 k2 l2 F2 k3 l3 F3 :
  lforest ss1 cs1 lo b k1 l1 F1 -> T c b b' k2 l2 F2 -> rforest ss2 cs2 b' hi k3 l3 F3 ->
  F1 ## F2 -> F1 ## F3 -> F2 ## F3 ->
  forest (ss1 ++ ss2) (cs1 ++ c :: cs2) lo hi (k1 ++ k2 ++ k3) (l1 ++ l2 ++ l3) (F1 ∪ F2 ∪ F3).
Proof.
  intros HL HT HR. revert c b' k2 l2 F2 HT HR. induction HL as [b|s ss c1 cs lo b kvs1 kvs2 l1 l2 F1 F2 H1 HL IH Hd];
    intros c b' k2 m2 G2 HT HR D1 D2 D3.
  - cbn [app]. rewrite union_empty_l_L. destruct ss2 as [|s ss2]; cbn [rforest] in HR.
    + destruct HR as (-> & -> & -> & -> & ->). rewrite !app_nil_r, union_empty_r_L. by constructor.
    + destruct HR as [-> HR]. by constructor.
  - cbn [app]. rewrite <- !app_assoc, <- !union_assoc_L. constructor; [done| |set_solver].
    rewrite union_assoc_L. apply (IH c b'); [done|done|set_solver..].
Qed.

Lemma lforest_length ss cs lo b k l F : lforest ss cs lo b k l F -> length ss = length cs.
Proof. induction 1; cbn; congruence. Qed.

Lemma forest_length ss cs lo hi k l F : forest ss cs lo hi k l F -> length cs = S (length ss).
Proof. induction 1; cbn; congruence. Qed.

Lemma rforest_length ss cs b hi k l F : rforest ss cs b hi k l F -> length cs = length ss.
Proof.
  destruct ss; cbn [rforest]; [by intros (-> & _)|]. intros [_ H]. by apply forest_length in H.
Qed.

Lemma lforest_snoc ss cs lo b k l F s c k' l' F' :
  lforest ss cs lo b k l F -> T c b (Some s) k' l' F' -> F ## F' ->
  lforest (ss ++ [s]) (cs ++ [c]) lo (Some s) (k ++ k') (l ++ l') (F ∪ F').
Proof.
  induction 1 as [b|s1 ss c1 cs lo b kvs1 kvs2 l1 l2 F1 F2 H1 HL IH Hd]; intros HT D; cbn [app].
  - rewrite union_empty_l_L. rewrite <- (app_nil_r k'), <- (app_nil_r l'), <- (union_empty_r_L F').
    constructor; [done|constructor|set_solver].
  - rewrite <- !app_assoc, <- union_assoc_L. constructor; [done| |set_solver]. apply IH; [done|set_solver].
Qed.

Lemma lforest_unsnoc ss s cs c lo b k l F : lforest (ss ++ [s]) (cs ++ [c]) lo b k l F ->
  exists b0 k1 l1 F1 k2 l2 F2, lforest ss cs lo b0 k1 l1 F1 /\ T c b0 (Some s) k2 l2 F2 /\ b = Some s /\
    k = k1 ++ k2 /\ l = l1 ++ l2 /\ F = F1 ∪ F2 /\ F1 ## F2.
Proof.
  revert cs lo k l F. induction ss as [|s1 ss IH]; intros cs lo k l F H.
  - pose proof (lforest_length _ _ _ _ _ _ _ H) as Hl. rewrite !length_app in Hl. destruct cs as [|]; [|cbn in Hl; lia]. cbn [app] in H.
    inversion H as [|? ? ? ? ? ? kvs1 kvs2 l1 l2 F1 F2 HT HL HD]; subst. inversion HL; subst. rewrite !app_nil_r, union_empty_r_L.
    exists lo, [], [], ∅, kvs1, l1, F1. fs.
  - destruct cs as [|c1 cs]; cbn [app] in H.
    + pose proof (lforest_length _ _ _ _ _ _ _ H) as Hl. cbn in Hl. rewrite length_app in Hl. cbn in Hl. lia.
    + inversion H as [|? ? ? ? ? ? kvs1 kvs2 l1 l2 F1 F2 HT HL HD]; subst.
      destruct (IH _ _ _ _ _ HL) as (b0 & k1 & m1 & G1 & k2 & m2 & G2 & A1 & A2 & -> & -> & -> & -> & D).
      exists b0, (kvs1 ++ k1), (l1 ++ m1), (F1 ∪ G1), k2, m2, G2. rewrite <- (app_assoc kvs1), <- (app_assoc l1).
      split; [constructor; [done|done|set_solver]|]. split; [done|]. split; [done|]. split; [done|]. split; [done|]. split; set_solver.
Qed.

(** Every subtree lies between consecutive separators. *)
Lemma forest_seps ss cs lo hi k l F : (forall c lo hi k l F, T c lo hi k l F -> bounds_ok lo hi) ->
  forest ss cs lo hi k l F -> forall s, s ∈ ss -> match lo with Some a => klt a s | None => True end.
Proof.
  intros HT. induction 1 as [|s ss c cs lo hi kvs1 kvs2 l1 l2 F1 F2 H1 Hf IH Hd]; [set_solver|].
  pose proof (HT _ _ _ _ _ _ H1) as Hb. intros s' [->|Hs]%elem_of_cons; [by destruct lo|].
  destruct lo as [a|]; [|done]. eapply klt_trans; [exact Hb|]. exact (IH s' Hs).
Qed.

(** The child for a key. *)
Lemma forest_route ss cs lo hi kvs l F k : (forall c lo hi k l F, T c lo hi k l F -> bounds_ok lo hi) ->
  forest ss cs lo hi kvs l F -> within lo hi k ->
  exists ss1 ss2 cs1 c cs2, ss = ss1 ++ ss2 /\ cs = cs1 ++ c :: cs2 /\ length ss1 = length cs1 /\
    (forall s, s ∈ ss1 -> kle s k) /\ (forall s, s ∈ ss2 -> klt k s) /\
    exists b b' k1 l1 F1 k2 l2 F2 k3 l3 F3,
    lforest ss1 cs1 lo b k1 l1 F1 /\ T c b b' k2 l2 F2 /\ rforest ss2 cs2 b' hi k3 l3 F3 /\ within b b' k /\
    kvs = k1 ++ k2 ++ k3 /\ l = l1 ++ l2 ++ l3 /\ F = F1 ∪ F2 ∪ F3 /\ F1 ## F2 /\ F1 ## F3 /\ F2 ## F3.
Proof.
  intros HT. induction 1 as [c lo hi kvs l F H1|s ss c cs lo hi kvs1 kvs2 l1 l2 F1 F2 H1 Hf IH Hd]; intros [Hk1 Hk2].
  - exists [], [], [], c, []. split_and!; [done|done|done|set_solver|set_solver|].
    exists lo, hi, [], [], ∅, kvs, l, F, [], [], ∅. rewrite !app_nil_r. fs.
  - destruct (klt_or k s) as [Hlt|Hle].
    + exists [], (s :: ss), [], c, cs. split_and!; [done|done|done|set_solver| |].
      { intros s' [->|Hs]%elem_of_cons; [done|]. eapply klt_trans; [exact Hlt|]. exact (forest_seps _ _ _ _ _ _ _ HT Hf s' Hs). }
      exists lo, (Some s), [], [], ∅, kvs1, l1, F1, kvs2, l2, F2. fs.
    + destruct IH as (ss1 & ss2 & cs1 & c' & cs2 & -> & -> & Hl & Ha & Hb & b & b' & k1 & m1 & G1 & k2 & m2 & G2 & k3 & m3 & G3 & A1 & A2 & A3 & A4 & -> & -> & -> & D1 & D2 & D3).
      { by split. }
      exists (s :: ss1), ss2, (c :: cs1), c', cs2. split_and!; [done|done|cbn; congruence| |done|].
      { intros s' [->|Hs]%elem_of_cons; [done|by apply Ha]. }
      exists b, b', (kvs1 ++ k1), (l1 ++ m1), (F1 ∪ G1), k2, m2, G2, k3, m3, G3. rewrite <- !app_assoc.
      fs.
Qed.
Lemma forest_bounds ss cs lo hi k l F : (forall c lo hi k l F, T c lo hi k l F -> bounds_ok lo hi) ->
  forest ss cs lo hi k l F -> bounds_ok lo hi.
Proof.
  intros HT. induction 1 as [c lo hi kvs l F H1|s ss c cs lo hi kvs1 kvs2 l1 l2 F1 F2 H1 Hf IH Hd]; [by eapply HT|].
  apply HT in H1. destruct lo, hi; cbn in *; try done. by eapply klt_trans.
Qed.

(** Two subtrees in the place of one. *)
Lemma forest_join2 ss1 ss2 cs1 cs2 c d s lo hi b b' k1 l1 F1 kc lc Fc kd ld Fd k3 l3 F3 :
  lforest ss1 cs1 lo b k1 l1 F1 -> T c b (Some s) kc lc Fc -> T d (Some s) b' kd ld Fd -> rforest ss2 cs2 b' hi k3 l3 F3 ->
  F1 ## Fc -> F1 ## Fd -> F1 ## F3 -> Fc ## Fd -> Fc ## F3 -> Fd ## F3 ->
  forest (ss1 ++ s :: ss2) (cs1 ++ c :: d :: cs2) lo hi (k1 ++ (kc ++ kd) ++ k3) (l1 ++ (lc ++ ld) ++ l3) (F1 ∪ Fc ∪ Fd ∪ F3).
Proof.
  intros HL Hc Hd HR D1 D2 D3 D4 D5 D6.
  pose proof (lforest_snoc _ _ _ _ _ _ _ _ _ _ _ _ HL Hc D1) as HL'.
  pose proof (forest_join (ss1 ++ [s]) ss2 (cs1 ++ [c]) d cs2 lo hi _ _ _ _ _ _ _ _ _ _ _ HL' Hd HR) as H.
  rewrite <- (app_assoc ss1), <- (app_assoc cs1), <- (app_assoc k1), <- (app_assoc l1) in H. rewrite <- (app_assoc kc), <- (app_assoc lc).
  apply H; set_solver.
Qed.

(** Cutting a forest at a separator, and pasting it. *)
Lemma forest_cut ss1 : forall s ss2 cs1 cs2 lo hi k l F,
  forest (ss1 ++ s :: ss2) (cs1 ++ cs2) lo hi k l F -> length cs1 = S (length ss1) ->
  exists k1 l1 F1 k2 l2 F2, forest ss1 cs1 lo (Some s) k1 l1 F1 /\ forest ss2 cs2 (Some s) hi k2 l2 F2 /\
    k = k1 ++ k2 /\ l = l1 ++ l2 /\ F = F1 ∪ F2 /\ F1 ## F2.
Proof.
  induction ss1 as [|s1 ss1 IH]; intros s ss2 cs1 cs2 lo hi k l F H Hl; cbn [app length] in *.
  - destruct cs1 as [|c [|]]; try done. cbn [app] in H. inversion H as [|s' ss' ? ? ? ? k1 k2 l1 l2 F1 F2 HT Hf Hd]; subst.
    exists k1, l1, F1, k2, l2, F2. split; [by constructor|done].
  - destruct cs1 as [|c cs1]; [done|]. cbn [app] in H. inversion H as [|s' ss' ? ? ? ? k1 k2 l1 l2 F1 F2 HT Hf Hd]; subst.
    apply (inj S) in Hl. destruct (IH _ _ _ _ _ _ _ _ _ Hf Hl) as (k1' & m1 & G1 & k2' & m2 & G2 & A1 & A2 & -> & -> & -> & D).
    exists (k1 ++ k1'), (l1 ++ m1), (F1 ∪ G1), k2', m2, G2. split; [constructor; [done|done|set_solver]|].
    split; [done|]. rewrite <- !app_assoc. split; [done|]. split; [done|]. split; set_solver.
Qed.

Lemma forest_paste ss1 cs1 lo s k1 l1 F1 : forest ss1 cs1 lo (Some s) k1 l1 F1 -> forall ss2 cs2 hi k2 l2 F2,
  forest ss2 cs2 (Some s) hi k2 l2 F2 -> F1 ## F2 ->
  forest (ss1 ++ s :: ss2) (cs1 ++ cs2) lo hi (k1 ++ k2) (l1 ++ l2) (F1 ∪ F2).
Proof.
  intros H. remember (Some s) as b eqn:Eb. induction H as [c lo b k l F H|s1 ss c cs lo b k1 k2 l1 l2 F1 F2 H1 Hf IH Hd];
    intros ss2 cs2 hi k3 l3 F3 H3 D; subst b.
  - by constructor.
  - cbn [app]. rewrite <- !app_assoc, <- union_assoc_L. constructor; [done|apply IH; [done|done|set_solver]|set_solver].
Qed.
End Forest.

Lemma forest_mono (T T' : Z -> bound -> bound -> list kv -> list Z -> gset Z -> Prop) ss cs lo hi k l F :
  (forall c lo hi k l G, G ⊆ F -> T c lo hi k l G -> T' c lo hi k l G) ->
  forest T ss cs lo hi k l F -> forest T' ss cs lo hi k l F.
Proof.
  intros HT H. induction H as [c lo hi kvs l F H1|s ss c cs lo hi kvs1 kvs2 l1 l2 F1 F2 H1 Hf IH Hd].
  - constructor. by apply HT.
  - constructor; [apply HT; [set_solver|done]| |done]. apply IH. intros. apply HT; [set_solver|done].
Qed.

Lemma lforest_mono (T T' : Z -> bound -> bound -> list kv -> list Z -> gset Z -> Prop) ss cs lo b k l F :
  (forall c lo hi k l G, G ⊆ F -> T c lo hi k l G -> T' c lo hi k l G) ->
  lforest T ss cs lo b k l F -> lforest T' ss cs lo b k l F.
Proof.
  intros HT H. induction H as [|s ss c cs lo hi kvs1 kvs2 l1 l2 F1 F2 H1 Hf IH Hd]; [constructor|].
  constructor; [apply HT; [set_solver|done]| |done]. apply IH. intros. apply HT; [set_solver|done].
Qed.

Lemma rforest_mono (T T' : Z -> bound -> bound -> list kv -> list Z -> gset Z -> Prop) ss cs b hi k l F :
  (forall c lo hi k l G, G ⊆ F -> T c lo hi k l G -> T' c lo hi k l G) ->
  rforest T ss cs b hi k l F -> rforest T' ss cs b hi k l F.
Proof. intros HT. destruct ss; [done|]. intros [H1 H2]. split; [done|]. by eapply forest_mono. Qed.

(** ** Counting in forests *)

Section Count.
Context (T : Z -> bound -> bound -> list kv -> list Z -> gset Z -> Prop).

Lemma forest_count ss cs lo hi k l F :
  (forall c lo hi k l F, T c lo hi k l F -> lo <> None \/ hi <> None -> (length l <= length k)%nat) ->
  forest T ss cs lo hi k l F -> ss <> [] \/ lo <> None \/ hi <> None -> (length l <= length k)%nat.
Proof.
  intros HT. induction 1 as [c lo hi kvs l F H1|s ss c cs lo hi kvs1 kvs2 l1 l2 F1 F2 H1 Hf IH Hd]; intros Hb.
  - eapply HT; [exact H1|]. by destruct Hb.
  - rewrite !length_app. apply Nat.add_le_mono; [eapply HT; [exact H1|by right]|apply IH; by right; left].
Qed.

Lemma forest_leaf_count ss cs lo hi k l F :
  (forall c lo hi k l F, T c lo hi k l F -> (1 <= length l)%nat) -> forest T ss cs lo hi k l F -> (length cs <= length l)%nat.
Proof.
  intros HT. induction 1 as [c lo hi kvs l F H1|s ss c cs lo hi kvs1 kvs2 l1 l2 F1 F2 H1 Hf IH Hd]; apply HT in H1; cbn [length];
    rewrite ?length_app; lia.
Qed.

Lemma lforest_leaf_count ss cs lo hi k l F :
  (forall c lo hi k l F, T c lo hi k l F -> (1 <= length l)%nat) -> lforest T ss cs lo hi k l F -> (length ss <= length l)%nat.
Proof.
  intros HT. induction 1 as [|s ss c cs lo b kvs1 kvs2 l1 l2 F1 F2 H1 Hf IH Hd]; [cbn; lia|]. apply HT in H1. rewrite length_app. cbn. lia.
Qed.

Lemma rforest_leaf_count ss cs b hi k l F :
  (forall c lo hi k l F, T c lo hi k l F -> (1 <= length l)%nat) -> rforest T ss cs b hi k l F -> (length ss <= length l)%nat.
Proof.
  intros HT. destruct ss as [|s ss]; [cbn; lia|]. intros [_ Hf]. pose proof (forest_length _ _ _ _ _ _ _ _ Hf).
  apply forest_leaf_count in Hf; [|done]. cbn in *. lia.
Qed.

Lemma forest_size n ss cs lo hi k l F :
  (forall c lo hi k l F, T c lo hi k l F -> (n <= size F)%nat) -> forest T ss cs lo hi k l F -> (length cs * n <= size F)%nat.
Proof.
  intros HT. induction 1 as [c lo hi kvs l F H1|s ss c cs lo hi kvs1 kvs2 l1 l2 F1 F2 H1 Hf IH Hd]; apply HT in H1; cbn [length].
  - lia.
  - rewrite size_union by done. lia.
Qed.
End Count.

(** ** Trees *)

Section Tree.
Context (K V : nat) (HW : widths_ok K V).
#[local] Set Default Proof Using "K V HW".

Definition page_no (id : Z) : Prop := 0 < id < 2 ^ 64.

Definition leaf_at (S : gmap Z Page) (id prev next : Z) (kvs : list kv) : Prop :=
  exists p, S !! id = Some p /\ leaf_page K V p id prev next kvs.
Definition branch_at (S : gmap Z Page) (id : Z) (seps : list (list Z)) (children : list Z) : Prop :=
  exists p, S !! id = Some p /\ branch_page K p id seps children.

(** Stores that agree on a page, up to the prev pointer of a leaf. *)
Definition sim (S S' : gmap Z Page) (i : Z) : Prop :=
  S' !! i = S !! i \/ exists prev prev' next kvs, leaf_at S i prev next kvs /\ leaf_at S' i prev' next kvs.

Lemma leaf_page_det p id prev next kvs id' prev' next' kvs' :
  leaf_page K V p id prev next kvs -> leaf_page K V p id' prev' next' kvs' -> next = next' /\ kvs = kvs'.
Proof.
  intros H1 H2. destruct (leaf_siblings _ _ _ _ _ _ _ H1) as [_ <-]. destruct (leaf_siblings _ _ _ _ _ _ _ H2) as [_ <-].
  split; [done|]. apply list_eq. intros i.
  rewrite <- (leaf_entry_spec _ _ HW _ _ _ _ _ _ H1). by rewrite (leaf_entry_spec _ _ HW _ _ _ _ _ _ H2).
Qed.

Lemma sim_leaf S S' i prev next kvs : sim S S' i -> leaf_at S i prev next kvs -> exists prev', leaf_at S' i prev' next kvs.
Proof.
  intros [E|(pr & pr' & n & ks & (p & Hp & H1) & H2)] (q & Hq & H3); [exists prev, q; by rewrite E|].
  rewrite Hp in Hq. injection Hq as <-. destruct (leaf_page_det _ _ _ _ _ _ _ _ _ H1 H3) as [<- <-]. eauto.
Qed.

Lemma sim_branch S S' i seps children : sim S S' i -> branch_at S i seps children -> branch_at S' i seps children.
Proof.
  intros [E|(pr & pr' & n & ks & (p & Hp & H1) & _)] (q & Hq & H3); [exists q; by rewrite E|].
  rewrite Hp in Hq. injection Hq as <-. apply leaf_is_leaf in H1. apply branch_is_branch in H3. destruct H1, H3. congruence.
Qed.

Lemma sim_eq S S' i : S' !! i = S !! i -> sim S S' i.
Proof. by left. Qed.

(** Leaves are non-empty, except a root leaf. *)
Fixpoint tree (S : gmap Z Page) (h : nat) (id : Z) (lo hi : bound) (kvs : list kv) (lvs : list Z) (F : gset Z) : Prop :=
  bounds_ok lo hi /\ page_no id /\
  match h with
  | O =>
      (exists prev next, leaf_at S id prev next kvs) /\ sorted kvs /\ Forall (fun e => within lo hi e.1) kvs /\
      (kvs = [] -> lo = None /\ hi = None) /\ lvs = [id] /\ F = {[id]}
  | Datatypes.S h =>
      exists seps children F', branch_at S id seps children /\ seps <> [] /\
        forest (tree S h) seps children lo hi kvs lvs F' /\ id ∉ F' /\ F = {[id]} ∪ F'
  end.

Lemma tree_bounds S h id lo hi kvs lvs F : tree S h id lo hi kvs lvs F -> bounds_ok lo hi.
Proof. destruct h; by intros [H _]. Qed.

Lemma tree_page_no S h id lo hi kvs lvs F : tree S h id lo hi kvs lvs F -> page_no id.
Proof. destruct h; by intros (_ & H & _). Qed.

Lemma tree_root S h id lo hi kvs lvs F : tree S h id lo hi kvs lvs F -> id ∈ F.
Proof. destruct h; cbn [tree]; [intros (_ & _ & H); destruct_and!; set_solver|]. intros (_ & _ & ? & ? & ? & H). destruct_and!. set_solver. Qed.

(** Building nodes. *)
Lemma tree_branch S h id lo hi seps children kvs lvs F :
  branch_at S id seps children -> page_no id -> seps <> [] ->
  forest (tree S h) seps children lo hi kvs lvs F -> id ∉ F -> tree S (Datatypes.S h) id lo hi kvs lvs ({[id]} ∪ F).
Proof.
  intros Hb Hid Hne Hf Hn. split; [eapply forest_bounds; [|exact Hf]; intros; by eapply tree_bounds|]. split; [done|].
  exists seps, children, F. done.
Qed.

Lemma tree_frame S S' h : forall id lo hi kvs lvs F,
  (forall i, i ∈ F -> sim S S' i) -> tree S h id lo hi kvs lvs F -> tree S' h id lo hi kvs lvs F.
Proof.
  induction h as [|h IH]; intros id lo hi kvs lvs F HS; cbn [tree].
  - intros (H1 & H2 & (prev & next & Hl) & H). split; [done|]. split; [done|]. split; [|done].
    destruct (sim_leaf S S' id prev next kvs) as [prev' Hl']; [|done|eauto]. apply HS.
    destruct H as (_ & _ & _ & _ & ->). by apply elem_of_singleton.
  - intros (H1 & H2 & seps & children & F' & Hb & H3 & Hf & H4 & ->). split; [done|]. split; [done|].
    exists seps, children, F'. split; [apply (sim_branch S S'); [|done]; apply HS; apply elem_of_union_l, elem_of_singleton; done|].
    split; [done|]. split; [|done]. eapply forest_mono; [|exact Hf]. intros c lo' hi' k l G HG HT. eapply IH; [|exact HT].
    intros i Hi. apply HS. apply elem_of_union_r. by apply HG.
Qed.

Lemma forest_page_nos S h ss cs lo hi k l F : forest (tree S h) ss cs lo hi k l F -> Forall page_no cs.
Proof. induction 1; [apply Forall_singleton|apply Forall_cons; split; [|done]]; by eapply tree_page_no. Qed.

(** Keys are sorted and inside the interval. *)
Lemma forest_sorted T ss cs lo hi k l F :
  (forall c lo hi k l F, T c lo hi k l F -> bounds_ok lo hi /\ sorted k /\ Forall (fun e : kv => within lo hi e.1) k) ->
  forest T ss cs lo hi k l F -> sorted k /\ Forall (fun e => within lo hi e.1) k.
Proof.
  intros HT. induction 1 as [c lo hi kvs l F H1|s ss c cs lo hi kvs1 kvs2 l1 l2 F1 F2 H1 Hf IH Hd]; [by destruct (HT _ _ _ _ _ _ H1) as (_ & ? & ?)|].
  pose proof (HT _ _ _ _ _ _ H1) as (Hb & S1 & W1). destruct IH as [S2 W2].
  assert (match hi with Some b => klt s b | None => True end) as Hsb.
  { clear -HT Hf. remember (Some s) as lo eqn:E. revert s E. induction Hf as [c lo hi kvs l F H1|s' ss c cs lo hi kvs1 kvs2 l1 l2 F1 F2 H1 Hf IH Hd];
      intros s ->; pose proof (HT _ _ _ _ _ _ H1) as (Hb & _); [by destruct hi|].
    specialize (IH s' eq_refl). destruct hi; [|done]. by eapply klt_trans. }
  rewrite Forall_forall in W1. rewrite Forall_forall in W2. split.
  - apply sorted_app. split; [done|]. split; [done|]. intros x y Hx Hy. apply W1 in Hx as [_ Hx]. apply W2 in Hy as [Hy _].
    by eapply klt_kle_trans.
  - apply Forall_app. split; apply Forall_forall; intros e He.
    + destruct (W1 e He) as [A B]. split; [done|]. destruct hi; [|done]. by eapply klt_trans.
    + destruct (W2 e He) as [A B]. split; [|done]. destruct lo; [|done]. cbn in *. apply klt_kle. by eapply klt_kle_trans.
Qed.

Lemma tree_sorted S h : forall id lo hi kvs lvs F, tree S h id lo hi kvs lvs F ->
  sorted kvs /\ Forall (fun e => within lo hi e.1) kvs.
Proof.
  induction h as [|h IH]; intros id lo hi kvs lvs F; cbn [tree]; [intros (_ & _ & _ & H); by destruct_and!|].
  intros (_ & _ & seps & children & F' & _ & _ & Hf & _ & _). eapply forest_sorted; [|exact Hf].
  intros c lo' hi' k l G HT. split; [by eapply tree_bounds|]. by eapply IH.
Qed.

(** The leaves and the pages of a tree are in the store. *)
Lemma tree_dom S h : forall id lo hi kvs lvs F, tree S h id lo hi kvs lvs F ->
  (forall i, i ∈ F -> is_Some (S !! i) /\ page_no i) /\ (forall i, i ∈ lvs -> i ∈ F) /\ (h < size F)%nat.
Proof.
  induction h as [|h IH]; intros id lo hi kvs lvs F; cbn [tree].
  - intros (_ & Hid & (prev & next & p & Hp & _) & H). destruct_and!. subst.
    split; [|split; [set_solver|rewrite size_singleton; lia]]. intros i ->%elem_of_singleton. eauto.
  - intros (_ & Hid & seps & children & F' & (p & Hp & _) & _ & Hf & Hn & ->).
    assert ((forall i, i ∈ F' -> is_Some (S !! i) /\ page_no i) /\ (forall i, i ∈ lvs -> i ∈ F') /\ (h < size F')%nat) as (A & B & C).
    { clear Hn. induction Hf as [c lo hi kvs l F H1|s ss c cs lo hi kvs1 kvs2 l1 l2 F1 F2 H1 Hf IHf Hd]; [by eapply IH|].
      destruct (IH _ _ _ _ _ _ H1) as (A1 & B1 & C1). destruct IHf as (A2 & B2 & C2).
      split; [intros i [Hi|Hi]%elem_of_union; [by apply A1|by apply A2]|].
      split; [intros i [Hi|Hi]%elem_of_app; apply elem_of_union; [left; by apply B1|right; by apply B2]|].
      rewrite size_union by done. lia. }
    split; [|split; [intros i Hi; apply elem_of_union; right; by apply B|rewrite size_union, size_singleton by set_solver; lia]].
    intros i [->%elem_of_singleton|Hi]%elem_of_union; [eauto|by apply A].
Qed.

(** ** Contexts *)

Inductive ctx (S : gmap Z Page) (H : nat) (root : Z) :
    list (Z * nat) -> nat -> Z -> bound -> bound -> list kv -> list kv -> list Z -> list Z -> gset Z -> Prop :=
| ctx_nil : ctx S H root [] H root None None [] [] [] [] ∅
| ctx_cons path h p id lo hi L R LL RL F ss1 ss2 cs1 cs2 b b' k1 l1 F1 k2 l2 F2 :
    ctx S H root path (Datatypes.S h) p lo hi L R LL RL F -> bounds_ok lo hi -> page_no p ->
    branch_at S p (ss1 ++ ss2) (cs1 ++ id :: cs2) -> ss1 ++ ss2 <> [] ->
    lforest (tree S h) ss1 cs1 lo b k1 l1 F1 -> rforest (tree S h) ss2 cs2 b' hi k2 l2 F2 ->
    p ∉ F ∪ F1 ∪ F2 -> F ## F1 -> F ## F2 -> F1 ## F2 ->
    ctx S H root ((p, length ss1) :: path) h id b b' (L ++ k1) (k2 ++ R) (LL ++ l1) (l2 ++ RL) ({[p]} ∪ F ∪ F1 ∪ F2).

Lemma ctx_plug S H root path h id lo hi L R LL RL F kvs lvs F' :
  ctx S H root path h id lo hi L R LL RL F -> tree S h id lo hi kvs lvs F' -> F ## F' ->
  tree S H root None None (L ++ kvs ++ R) (LL ++ lvs ++ RL) (F ∪ F').
Proof.
  intros Hc. revert kvs lvs F'. induction Hc as [|path h p id lo hi L R LL RL F ss1 ss2 cs1 cs2 b b' k1 l1 F1 k2 l2 F2
    Hc IH Hb Hp Hbr Hne HL HR D1 D2 D3 D4]; intros kvs lvs F' HT HD.
  - rewrite !app_nil_r, union_empty_l_L. done.
  - replace ((L ++ k1) ++ kvs ++ k2 ++ R) with (L ++ (k1 ++ kvs ++ k2) ++ R) by (by rewrite <- !app_assoc).
    replace ((LL ++ l1) ++ lvs ++ l2 ++ RL) with (LL ++ (l1 ++ lvs ++ l2) ++ RL) by (by rewrite <- !app_assoc).
    assert ({[p]} ∪ F ∪ F1 ∪ F2 ∪ F' = F ∪ ({[p]} ∪ (F1 ∪ F' ∪ F2))) as -> by set_solver.
    assert (p ∉ F') as Hn by set_solver.
    apply IH; [|set_solver]. split; [done|]. split; [done|]. exists (ss1 ++ ss2), (cs1 ++ id :: cs2), (F1 ∪ F' ∪ F2).
    split; [done|]. split; [done|]. split; [|split; [set_solver|done]].
    eapply forest_join; [exact HL|exact HT|exact HR|set_solver..].
Qed.

Lemma forest_frame S S' h ss cs lo hi k l F :
  (forall i, i ∈ F -> sim S S' i) -> forest (tree S h) ss cs lo hi k l F -> forest (tree S' h) ss cs lo hi k l F.
Proof.
  intros HS. apply forest_mono. intros c lo' hi' k' l' G HG HT. eapply tree_frame; [|exact HT]. intros i Hi. by apply HS, HG.
Qed.

Lemma lforest_frame S S' h ss cs lo b k l F :
  (forall i, i ∈ F -> sim S S' i) -> lforest (tree S h) ss cs lo b k l F -> lforest (tree S' h) ss cs lo b k l F.
Proof.
  intros HS. apply lforest_mono. intros c lo' hi' k' l' G HG HT. eapply tree_frame; [|exact HT]. intros i Hi. by apply HS, HG.
Qed.

Lemma rforest_frame S S' h ss cs b hi k l F :
  (forall i, i ∈ F -> sim S S' i) -> rforest (tree S h) ss cs b hi k l F -> rforest (tree S' h) ss cs b hi k l F.
Proof.
  intros HS. apply rforest_mono. intros c lo' hi' k' l' G HG HT. eapply tree_frame; [|exact HT]. intros i Hi. by apply HS, HG.
Qed.

Lemma ctx_frame S S' H root path h id lo hi L R LL RL F :
  (forall i, i ∈ F -> sim S S' i) -> ctx S H root path h id lo hi L R LL RL F ->
  ctx S' H root path h id lo hi L R LL RL F.
Proof.
  intros HS Hc. induction Hc as [|path h p id lo hi L R LL RL F ss1 ss2 cs1 cs2 b b' k1 l1 F1 k2 l2 F2
    Hc IH Hb Hp Hbr Hne HL HR D1 D2 D3 D4]; [constructor|].
  apply (ctx_cons S' H root path h p id lo hi L R LL RL F ss1 ss2 cs1 cs2 b b' k1 l1 F1 k2 l2 F2); try done.
  - apply IH. intros i Hi. apply HS. rewrite !elem_of_union. tauto.
  - apply (sim_branch S S'); [|done]. apply HS. rewrite !elem_of_union, elem_of_singleton. tauto.
  - apply (lforest_frame S S'); [|done]. intros i Hi. apply HS. rewrite !elem_of_union. tauto.
  - apply (rforest_frame S S'); [|done]. intros i Hi. apply HS. rewrite !elem_of_union. tauto.
Qed.

Lemma lforest_leaves S h ss cs lo b k l F : lforest (tree S h) ss cs lo b k l F -> forall i, i ∈ l -> i ∈ F.
Proof.
  induction 1 as [|s ss c cs lo b kvs1 kvs2 l1 l2 F1 F2 H1 HL IH Hd]; [by intros i ?%not_elem_of_nil|].
  intros i [Hi|Hi]%elem_of_app; apply elem_of_union; [left; by apply (tree_dom _ _ _ _ _ _ _ _ H1)|right; by apply IH].
Qed.

Lemma forest_leaves S h ss cs lo b k l F : forest (tree S h) ss cs lo b k l F -> forall i, i ∈ l -> i ∈ F.
Proof.
  induction 1 as [c lo hi kvs l F H1|s ss c cs lo b kvs1 kvs2 l1 l2 F1 F2 H1 HL IH Hd]; [apply (tree_dom _ _ _ _ _ _ _ _ H1)|].
  intros i [Hi|Hi]%elem_of_app; apply elem_of_union; [left; by apply (tree_dom _ _ _ _ _ _ _ _ H1)|right; by apply IH].
Qed.

Lemma rforest_leaves S h ss cs b hi k l F : rforest (tree S h) ss cs b hi k l F -> forall i, i ∈ l -> i ∈ F.
Proof.
  destruct ss; cbn [rforest]; [intros (_ & _ & _ & -> & _) i ?%not_elem_of_nil; done|].
  intros [_ H]. by eapply forest_leaves.
Qed.

Lemma ctx_leaves S H root path h id lo hi L R LL RL F :
  ctx S H root path h id lo hi L R LL RL F -> forall i, i ∈ LL ++ RL -> i ∈ F.
Proof.
  induction 1 as [|path h p id lo hi L R LL RL F ss1 ss2 cs1 cs2 b b' k1 l1 F1 k2 l2 F2
    Hc IH Hb Hp Hbr Hne HL HR D1 D2 D3 D4]; [by intros i ?%not_elem_of_nil|]. intros i.
  pose proof (lforest_leaves _ _ _ _ _ _ _ _ _ HL i). pose proof (rforest_leaves _ _ _ _ _ _ _ _ _ HR i). specialize (IH i).
  rewrite !elem_of_app, !elem_of_union in *. tauto.
Qed.

Lemma forest_pages S h ss cs lo hi k l F : forest (tree S h) ss cs lo hi k l F -> forall i, i ∈ F -> page_no i.
Proof.
  induction 1 as [c lo hi kvs l F H1|s ss c cs lo b kvs1 kvs2 l1 l2 F1 F2 H1 HL IH Hd]; [apply (tree_dom _ _ _ _ _ _ _ _ H1)|].
  intros i [Hi|Hi]%elem_of_union; [by apply (tree_dom _ _ _ _ _ _ _ _ H1)|by apply IH].
Qed.

Lemma lforest_pages S h ss cs lo b k l F : lforest (tree S h) ss cs lo b k l F -> forall i, i ∈ F -> page_no i.
Proof.
  induction 1 as [|s ss c cs lo b kvs1 kvs2 l1 l2 F1 F2 H1 HL IH Hd]; [by intros i ?%not_elem_of_empty|].
  intros i [Hi|Hi]%elem_of_union; [by apply (tree_dom _ _ _ _ _ _ _ _ H1)|by apply IH].
Qed.

Lemma rforest_pages S h ss cs b hi k l F : rforest (tree S h) ss cs b hi k l F -> forall i, i ∈ F -> page_no i.
Proof. destruct ss; cbn [rforest]; [intros (_ & _ & _ & _ & ->) i ?%not_elem_of_empty; done|]. intros [_ H]. by eapply forest_pages. Qed.

Lemma ctx_pages S H root path h id lo hi L R LL RL F : ctx S H root path h id lo hi L R LL RL F -> forall i, i ∈ F -> page_no i.
Proof.
  induction 1 as [|path h p id lo hi L R LL RL F ss1 ss2 cs1 cs2 b b' k1 l1 F1 k2 l2 F2
    Hc IH Hb Hp Hbr Hne HL HR D1 D2 D3 D4]; [by intros i ?%not_elem_of_empty|].
  intros i [[[->%elem_of_singleton|Hi]%elem_of_union|Hi]%elem_of_union|Hi]%elem_of_union; [done|by apply IH|by eapply lforest_pages|by eapply rforest_pages].
Qed.

(** ** Descents *)

(** The leaf of key [k], in its context. *)
Record focus (S : gmap Z Page) (H : nat) (root : Z) (k : list Z) (path : list (Z * nat)) (id : Z) (leaf : Page)
    (lo hi : bound) (kvs L R : list kv) (LL RL : list Z) (F : gset Z) : Prop := {
  fo_page : S !! id = Some leaf;
  fo_ctx : ctx S H root path 0 id lo hi L R LL RL F;
  fo_leaf : tree S 0 id lo hi kvs [id] {[id]};
  fo_in : within lo hi k;
  fo_out : id ∉ F
}.

Lemma tree_node_leaf S id lo hi kvs lvs F page : tree S 0 id lo hi kvs lvs F -> S !! id = Some page ->
  exists prev next, leaf_page K V page id prev next kvs.
Proof. intros (_ & _ & (prev & next & p & Hp & Hl) & _) E. rewrite E in Hp. injection Hp as <-. eauto. Qed.

Lemma descend_spec S H root k h : forall id page path fuel lo hi kvs lvs F L R LL RL Fc,
  tree S h id lo hi kvs lvs F -> S !! id = Some page -> within lo hi k ->
  ctx S H root path h id lo hi L R LL RL Fc -> Fc ## F -> (h < fuel)%nat ->
  exists leaf_id leaf path' lo' hi' kvs' L' R' LL' RL' F',
    descend_loop S fuel page k path = Some (Some (leaf_id, leaf, path')) /\
    (forall acc, fst <$> head acc = Some id -> exists acc', find_leaf_loop S fuel page k acc = Some (Some acc') /\
       fst <$> head acc' = Some leaf_id) /\
    focus S H root k path' leaf_id leaf lo' hi' kvs' L' R' LL' RL' F' /\
    L' ++ kvs' ++ R' = L ++ kvs ++ R /\ LL' ++ leaf_id :: RL' = LL ++ lvs ++ RL /\ F' ∪ {[leaf_id]} = Fc ∪ F /\
    length path' = (length path + h)%nat.
Proof.
  induction h as [|h IH]; intros id page path fuel lo hi kvs lvs F L R LL RL Fc HT HS Hk Hc HD Hf;
    (destruct fuel as [|fuel]; [lia|]); cbn [descend_loop find_leaf_loop].
  - destruct (tree_node_leaf _ _ _ _ _ _ _ _ HT HS) as (prev & next & Hl). destruct (leaf_is_leaf _ _ _ _ _ _ _ Hl) as [_ ->].
    pose proof (tree_page_no _ _ _ _ _ _ _ _ HT) as Hno.
    rewrite (leaf_page_id _ _ _ _ _ _ _ Hl) by (unfold page_no, uint in *; lia).
    assert (lvs = [id] /\ F = {[id]}) as [-> ->] by (destruct HT as (_ & _ & HT); by destruct_and!).
    exists id, page, path, lo, hi, kvs, L, R, LL, RL, Fc. split; [done|]. split; [eauto|].
    split; [|split; [done|]; split; [done|]; split; [set_solver|lia]]. split; [done..|set_solver].
  - pose proof (tree_page_no _ _ _ _ _ _ _ _ HT) as Hno. pose proof HT as (Hb & _ & seps & children & F' & (p & Hp & Hbr) & Hne & Hfo & Hn & ->).
    rewrite HS in Hp. injection Hp as <-. destruct (branch_is_branch _ _ _ _ _ Hbr) as [_ ->].
    assert (forall c lo hi k l G, tree S h c lo hi k l G -> bounds_ok lo hi) as HTb by (intros; by eapply tree_bounds).
    destruct (forest_route _ _ _ _ _ _ _ _ k HTb Hfo Hk) as (ss1 & ss2 & cs1 & c & cs2 & -> & -> & Hlen & Ha & Hbe &
      b & b' & k1 & l1 & F1 & k2 & l2 & F2 & k3 & l3 & F3 & A1 & A2 & A3 & A4 & -> & -> & -> & D1 & D2 & D3).
    assert (page_id page = id) as -> by (eapply branch_page_id; [exact Hbr|unfold page_no, uint in *; lia]).
    unfold branch_child. rewrite (branch_slot_spec _ _ _ _ _ _ _ _ _ Hbr (eq_sym Hlen) Ha Hbe). rewrite Some_bind. cbn [fmap option_fmap option_map fst].
    destruct (proj1 (tree_dom _ _ _ _ _ _ _ _ A2) c (tree_root _ _ _ _ _ _ _ _ A2)) as [[page' Hpage'] _]. rewrite Hpage'.
    destruct (IH c page' ((id, length ss1) :: path) fuel b b' k2 l2 F2 (L ++ k1) (k3 ++ R) (LL ++ l1) (l3 ++ RL) ({[id]} ∪ Fc ∪ F1 ∪ F3) A2 Hpage' A4)
      as (leaf_id & leaf & path' & lo' & hi' & kvs' & L' & R' & LL' & RL' & G & E1 & E2 & E3 & E4 & E5 & E6 & E7).
    + apply (ctx_cons _ _ _ path h id c lo hi L R LL RL Fc ss1 ss2 cs1 cs2 b b' k1 l1 F1 k3 l3 F3 Hc Hb Hno); try assumption.
      * exists page. by split.
      * clear -HD Hn. set_solver.
      * clear -HD. set_solver.
      * clear -HD. set_solver.
    + clear -HD Hn D1 D3. set_solver.
    + lia.
    + exists leaf_id, leaf, path', lo', hi', kvs', L', R', LL', RL', G. split; [exact E1|].
      split; [intros acc _; rewrite Some_bind, Hpage'; by apply E2|]. split; [exact E3|].
      split; [rewrite E4; by rewrite <- !app_assoc|]. split; [rewrite E5; by rewrite <- !app_assoc|].
      split; [rewrite E6; clear; set_solver|]. rewrite E7. cbn [length]. lia.
Qed.

(** ** Invariant *)

(** The next pointers run through the leaves from left to right. *)
Fixpoint chain (S : gmap Z Page) (lvs : list Z) (e : Z) : Prop :=
  match lvs with
  | [] => True
  | x :: l => (exists prev kvs, leaf_at S x prev (match l with [] => e | y :: _ => y end) kvs) /\ chain S l e
  end.

Record holds (t : BPlusTree) (kvs : list kv) (H : nat) (lvs : list Z) (F : gset Z) : Prop := {
  ho_tree : tree (pages t) H (root_page_id t) None None kvs lvs F;
  ho_chain : chain (pages t) lvs 0;
  ho_ids : forall i, i ∈ F -> i < next_page_id t
}.

Definition btree_inv (t : BPlusTree) (kvs : list kv) : Prop := exists H lvs F, holds t kvs H lvs F.

Lemma dom_size (S : gmap Z Page) (F : gset Z) : (forall i, i ∈ F -> is_Some (S !! i)) -> (size F <= size S)%nat.
Proof. intros HF. rewrite <- (size_dom S). apply subseteq_size. intros i Hi. apply elem_of_dom. by apply HF. Qed.

(** Every key has its leaf. *)
Lemma holds_focus t kvs H lvs F k : holds t kvs H lvs F ->
  exists root leaf_id leaf path lo hi kvs' L R LL RL F',
    pages t !! root_page_id t = Some root /\
    descend_loop (pages t) (S (size (pages t))) root k [] = Some (Some (leaf_id, leaf, path)) /\
    find_leaf (pages t) root k = Some (Some leaf_id) /\
    focus (pages t) H (root_page_id t) k path leaf_id leaf lo hi kvs' L R LL RL F' /\
    kvs = L ++ kvs' ++ R /\ lvs = LL ++ leaf_id :: RL /\ F = F' ∪ {[leaf_id]} /\ length path = H.
Proof.
  intros [HT Hch Hids]. destruct (tree_dom _ _ _ _ _ _ _ _ HT) as (Hd & Hl & Hsz).
  destruct (Hd _ (tree_root _ _ _ _ _ _ _ _ HT)) as [[root Hr] Hno].
  pose proof (dom_size (pages t) F (fun i Hi => proj1 (Hd i Hi))) as Hsize.
  destruct (descend_spec (pages t) H (root_page_id t) k H (root_page_id t) root [] (S (size (pages t))) None None kvs lvs F [] [] [] [] ∅ HT Hr)
    as (leaf_id & leaf & path & lo & hi & kvs' & L & R & LL & RL & F' & E1 & E2 & E3 & E4 & E5 & E6 & E7).
  - by split.
  - constructor.
  - apply disjoint_empty_l.
  - lia.
  - exists root, leaf_id, leaf, path, lo, hi, kvs', L, R, LL, RL, F'. split; [done|]. split; [done|].
    split; [|split; [done|]; split; [by rewrite E4, app_nil_r|]; split; [by rewrite E5, app_nil_r|]; split; [by rewrite E6, union_empty_l_L|done]].
    unfold find_leaf. destruct (E2 [(page_id root, page_lsn root)]) as (acc & -> & Eh).
    + cbn. f_equal. destruct H as [|h].
      * destruct (tree_node_leaf _ _ _ _ _ _ _ _ HT Hr) as (prev & next & Hlf). eapply leaf_page_id; [exact Hlf|].
        unfold page_no, uint in *. lia.
      * destruct HT as (_ & _ & seps & children & G & (p & Hp & Hbr) & _). rewrite Hr in Hp. injection Hp as <-.
        eapply branch_page_id; [exact Hbr|]. unfold page_no, uint in *. lia.
    + rewrite Some_bind. by rewrite Eh.
Qed.

(** ** Chains *)

Lemma chain_app S l1 x l2 e : chain S (l1 ++ x :: l2) e <-> chain S l1 x /\ chain S (x :: l2) e.
Proof.
  induction l1 as [|y l1 IH]; [split; [by split|by intros [_ ?]]|].
  cbn [app]. change (chain S (y :: ?l) ?e) with ((exists prev kvs, leaf_at S y prev (match l with [] => e | y :: _ => y end) kvs) /\ chain S l e).
  rewrite IH. destruct l1 as [|z l1]; cbn [app]; tauto.
Qed.

Lemma chain_frame S S' l e : (forall i, i ∈ l -> sim S S' i) -> chain S l e -> chain S' l e.
Proof.
  induction l as [|x l IH]; [done|]. intros HS [(prev & kvs & Hx) Hl]. split.
  - destruct (sim_leaf S S' x _ _ _ (HS x (list_elem_of_here _ _)) Hx) as [prev' H']. eauto.
  - apply IH; [|done]. intros i Hi. apply HS. by right.
Qed.

Lemma chain_leaf S x l e prev next kvs : chain S (x :: l) e -> leaf_at S x prev next kvs ->
  next = match l with [] => e | y :: _ => y end.
Proof.
  intros [(prev' & kvs' & p & Hp & H1) _] (q & Hq & H2). rewrite Hp in Hq. injection Hq as <-.
  by destruct (leaf_page_det _ _ _ _ _ _ _ _ _ H1 H2).
Qed.

(** ** Counting *)


Lemma tree_leaf_count S h : forall id lo hi k l F, tree S h id lo hi k l F -> (1 <= length l)%nat.
Proof.
  induction h as [|h IH]; intros id lo hi k l F; [intros (_ & _ & H); destruct_and!; by subst|].
  intros (_ & _ & seps & children & F' & _ & _ & Hf & _ & _). pose proof (forest_length _ _ _ _ _ _ _ _ Hf).
  apply (forest_leaf_count _ _ _ _ _ _ _ _ IH) in Hf. lia.
Qed.

(** Leaves of a tree that is not a bare root are not empty. *)
Lemma tree_count S h : forall id lo hi k l F, tree S h id lo hi k l F -> h <> 0%nat \/ lo <> None \/ hi <> None ->
  (length l <= length k)%nat.
Proof.
  induction h as [|h IH]; intros id lo hi k l F.
  - intros (_ & _ & _ & _ & _ & Hn & -> & _) Hb. destruct k; [|cbn; lia]. destruct (Hn eq_refl) as [-> ->]. naive_solver.
  - intros (_ & _ & seps & children & F' & _ & Hne & Hf & _ & _) _. eapply forest_count; [|exact Hf|by left].
    intros c lo' hi' k' l' G HT Hb. eapply IH; [exact HT|by right].
Qed.

(** Every branch has two children, so the height is logarithmic in the pages. *)
Lemma tree_height S h : forall id lo hi k l F, tree S h id lo hi k l F -> (2 ^ h <= size F)%nat.
Proof.
  induction h as [|h IH]; intros id lo hi k l F.
  - intros (_ & _ & H). destruct_and!. subst. rewrite size_singleton. cbn. lia.
  - intros (_ & _ & seps & children & F' & _ & Hne & Hf & Hn & ->). pose proof (forest_length _ _ _ _ _ _ _ _ Hf) as Hl.
    apply (forest_size _ _ _ _ _ _ _ _ _ IH) in Hf. rewrite size_union by (clear -Hn; set_solver). rewrite Nat.pow_succ_r'.
    destruct seps; [done|]. cbn [length] in Hl. nia.
Qed.

Lemma ids_size (F : gset Z) n : (forall i, i ∈ F -> 0 < i < n) -> (size F <= Z.to_nat n)%nat.
Proof.
  intros HF. transitivity (size (list_to_set (C := gset Z) (seqZ 0 n))).
  - apply subseteq_size. intros i Hi. apply elem_of_list_to_set, elem_of_seqZ. apply HF in Hi. lia.
  - rewrite size_list_to_set by apply NoDup_seqZ. by rewrite length_seqZ.
Qed.

(** ** The pages of a path *)

Lemma ctx_path S H root path h id lo hi L R LL RL F :
  ctx S H root path h id lo hi L R LL RL F -> forall i, i ∈ path.*1 -> i ∈ F /\ i ∉ LL ++ RL.
Proof.
  induction 1 as [|path h p id lo hi L R LL RL F ss1 ss2 cs1 cs2 b b' k1 l1 F1 k2 l2 F2
    Hc IH Hb Hp Hbr Hne HL HR D1 D2 D3 D4]; [by intros i ?%not_elem_of_nil|]. intros i Hi. cbn [fmap list_fmap fst] in Hi.
  pose proof (lforest_leaves _ _ _ _ _ _ _ _ _ HL i) as E1. pose proof (rforest_leaves _ _ _ _ _ _ _ _ _ HR i) as E2.
  pose proof (ctx_leaves _ _ _ _ _ _ _ _ _ _ _ _ _ Hc i) as E3. specialize (IH i).
  specialize (D2 i). specialize (D3 i). specialize (D4 i).
  rewrite elem_of_cons in Hi. rewrite !elem_of_app, !elem_of_union, elem_of_singleton in *.
  destruct Hi as [->|Hi]; naive_solver.
Qed.

(** Changing the entries of a leaf. *)
Lemma chain_update S S' l1 x l2 e prev next kvs prev' kvs' :
  chain S (l1 ++ x :: l2) e -> (forall i, i ∈ l1 ++ l2 -> sim S S' i) ->
  leaf_at S x prev next kvs -> leaf_at S' x prev' next kvs' -> chain S' (l1 ++ x :: l2) e.
Proof.
  rewrite !chain_app. intros [H1 H2] HS Hx Hx'. rewrite (chain_leaf _ _ _ _ _ _ _ H2 Hx) in Hx'. split; [|split; [eauto|]].
  - eapply chain_frame; [|exact H1]. intros i Hi. apply HS, elem_of_app. by left.
  - eapply chain_frame; [|exact (proj2 H2)]. intros i Hi. apply HS, elem_of_app. by right.
Qed.

(** The entries around the hole of a context lie on either side of its interval. *)
Lemma lforest_side S h ss cs lo b kvs l F x : lforest (tree S h) ss cs lo b kvs l F -> above b x ->
  above lo x /\ forall e, e ∈ kvs -> klt e.1 x.
Proof.
  induction 1 as [|s ss c cs lo b kvs1 kvs2 l1 l2 F1 F2 H1 HL IH Hd]; intros Hx; [split; [done|by intros e ?%not_elem_of_nil]|].
  destruct (IH Hx) as [Hs He]. pose proof (tree_bounds _ _ _ _ _ _ _ _ H1) as Hb. apply tree_sorted in H1 as [_ Hw].
  rewrite Forall_forall in Hw. split.
  - destruct lo; [|done]. cbn in *. apply klt_kle. by eapply klt_kle_trans.
  - intros e [Hi|Hi]%elem_of_app; [|by apply He]. destruct (Hw e Hi) as [_ Hlt]. by eapply klt_kle_trans.
Qed.

Lemma rforest_side S h ss cs b hi kvs l F x : rforest (tree S h) ss cs b hi kvs l F -> below b x ->
  below hi x /\ forall e, e ∈ kvs -> klt x e.1.
Proof.
  destruct ss as [|s ss]; cbn [rforest]; [intros (_ & -> & -> & _) Hx; split; [done|by intros e ?%not_elem_of_nil]|].
  intros [-> Hf] Hx. assert (bounds_ok (Some s) hi) as Hb by (eapply forest_bounds; [|exact Hf]; intros; by eapply tree_bounds).
  apply forest_sorted in Hf as [_ Hw]; [|intros c lo' hi' k l0 G HT; split; [by eapply tree_bounds|by eapply tree_sorted]].
  rewrite Forall_forall in Hw. split; [destruct hi; [|done]; by eapply klt_trans|].
  intros e He. destruct (Hw e He) as [Hs _]. by eapply klt_kle_trans.
Qed.

Lemma ctx_sides S H root path h id lo hi L R LL RL F x :
  ctx S H root path h id lo hi L R LL RL F -> within lo hi x ->
  (forall e, e ∈ L -> klt e.1 x) /\ (forall e, e ∈ R -> klt x e.1).
Proof.
  induction 1 as [|path h p id lo hi L R LL RL F ss1 ss2 cs1 cs2 b b' k1 l1 F1 k2 l2 F2
    Hc IH Hb Hp Hbr Hne HL HR D1 D2 D3 D4]; intros [Hx1 Hx2]; [split; by intros e ?%not_elem_of_nil|].
  destruct (lforest_side _ _ _ _ _ _ _ _ _ x HL Hx1) as [Hlo Hk1]. destruct (rforest_side _ _ _ _ _ _ _ _ _ x HR Hx2) as [Hhi Hk2].
  destruct (IH (conj Hlo Hhi)) as [A1 A2]. split; intros e [He|He]%elem_of_app; auto.
Qed.
End Tree.

(** ** The map

    What the operations do to the sorted list of entries. *)

Fixpoint kv_insert (k v : list Z) (l : list kv) : list kv :=
  match l with
  | [] => [(k, v)]
  | e :: l' => if bytes_lt e.1 k then e :: kv_insert k v l' else if bytes_eqb e.1 k then (k, v) :: l' else (k, v) :: l
  end.

Fixpoint kv_lookup (k : list Z) (l : list kv) : option (list Z) :=
  match l with
  | [] => None
  | e :: l' => if bytes_eqb e.1 k then Some e.2 else kv_lookup k l'
  end.

Definition kv_delete (k : list Z) (l : list kv) : list kv := filter (fun e => e.1 <> k) l.

Lemma kv_insert_at l1 l2 k v : (forall e, e ∈ l1 -> klt e.1 k) -> (forall e, e ∈ l2 -> klt k e.1) ->
  kv_insert k v (l1 ++ l2) = l1 ++ (k, v) :: l2.
Proof.
  intros H1 H2. induction l1 as [|x l1 IH]; cbn [app kv_insert].
  - destruct l2 as [|y l2]; [done|]. cbn [kv_insert]. pose proof (H2 y (list_elem_of_here _ _)) as Hy.
    destruct (bytes_ltP y.1 k) as [Hlt|_]; [destruct (klt_irrefl k); by eapply klt_trans|].
    destruct (bytes_eqbP y.1 k) as [E|_]; [rewrite E in Hy; by destruct (klt_irrefl k)|done].
  - pose proof (H1 x (list_elem_of_here _ _)) as Hx. unfold klt in Hx. rewrite Hx, IH; [done|]. intros e He. apply H1. by right.
Qed.

Lemma kv_insert_over l1 l2 k v v0 : (forall e, e ∈ l1 -> klt e.1 k) -> kv_insert k v (l1 ++ (k, v0) :: l2) = l1 ++ (k, v) :: l2.
Proof.
  intros H1. induction l1 as [|x l1 IH]; cbn [app kv_insert fst].
  - destruct (bytes_ltP k k) as [Hlt|_]; [by destruct (klt_irrefl k)|]. by destruct (bytes_eqbP k k).
  - pose proof (H1 x (list_elem_of_here _ _)) as Hx. unfold klt in Hx. rewrite Hx, IH; [done|]. intros e He. apply H1. by right.
Qed.

Lemma kv_lookup_app (k : list Z) l1 l2 : (forall e : kv, e ∈ l1 -> e.1 <> k) -> kv_lookup k (l1 ++ l2) = kv_lookup k l2.
Proof.
  induction l1 as [|e l1 IH]; intros Hl; [done|]. cbn [app kv_lookup].
  destruct (bytes_eqbP e.1 k) as [E|_]; [by destruct (Hl e (list_elem_of_here _ _))|]. apply IH. intros x Hx. apply Hl. by right.
Qed.

Lemma kv_lookup_None (k : list Z) l : (forall e : kv, e ∈ l -> e.1 <> k) -> kv_lookup k l = None.
Proof. intros H. rewrite <- (app_nil_r l), kv_lookup_app by done. done. Qed.

Lemma klt_ne a b : klt a b -> a <> b.
Proof. intros H ->. by apply (klt_irrefl b). Qed.

Lemma kv_delete_absent (k : list Z) (l : list kv) : (forall e, e ∈ l -> e.1 <> k) -> kv_delete k l = l.
Proof.
  induction l as [|e l IH]; intros Hl; [done|]. unfold kv_delete. rewrite filter_cons_True by (apply Hl, list_elem_of_here).
  f_equal. apply IH. intros x Hx. apply Hl. by right.
Qed.

Lemma kv_delete_at (k v : list Z) l1 l2 : (forall e : kv, e ∈ l1 ++ l2 -> e.1 <> k) -> kv_delete k (l1 ++ (k, v) :: l2) = l1 ++ l2.
Proof.
  intros Hl. unfold kv_delete. rewrite filter_app, filter_cons_False by (cbn; tauto).
  rewrite <- filter_app. by apply kv_delete_absent.
Qed.
