(* ===== verification/BTreeInsert.v ===== *)
(** * Inserts into the B+ tree

    An insert puts a record into its leaf, in place or by splitting the leaf and
    then the branches above it; on the sorted list of entries it is the insertion
    into a map. *)

From stdpp Require Import prelude list gmap sorting.
From Stdlib Require Import ZArith Lia.
From S2P Require Import Prelude Bytes SlottedPage BTreePage Key BTree BTreeNode BTreeSpec.

(** ** Steps of the monad *)

Lemma bind_ok {A B} (m : BT A) (k : A -> BT B) t a t' : m t = Some (Ok a, t') -> (m ≫= k) t = k a t'.
Proof. intros E. unfold mbind, BT_bind. by rewrite E. Qed.

Lemma try_ok {A} (o : option A) t a : o = Some a -> try o t = Some (Ok a, t).
Proof. by intros ->. Qed.

Lemma get_page_or_ok id e t p : pages t !! id = Some p -> get_page_or id e t = Some (Ok p, t).
Proof. intros E. unfold get_page_or. erewrite bind_ok by reflexivity. unfold ok_or. by rewrite E. Qed.

Definition put (t : BPlusTree) (id : Z) (page : Page) : BPlusTree :=
  mkTree (root_page_id t) (<[id := set_page_lsn page (next_lsn t)]> (pages t)) (next_page_id t)
    (wrap 64 (next_lsn t + 1)) ((fun s => {[id]} ∪ s) <$> dirty_recorder t).

Lemma put_ok id page t : put_page_with_lsn id page t = Some (Ok tt, put t id page).
Proof. reflexivity. Qed.

Definition advance (t : BPlusTree) : BPlusTree :=
  mkTree (root_page_id t) (pages t) (next_page_id t + 1) (next_lsn t) (dirty_recorder t).

Lemma alloc_ok t : 0 <= next_page_id t -> next_page_id t + 1 < 2 ^ 64 -> alloc_page t = Some (Ok (next_page_id t), advance t).
Proof. intros H1 H2. unfold alloc_page, advance, wrap. by rewrite Z.mod_small by lia. Qed.

(** Runs the next command, whose outcome the lemma [E] gives. *)
Tactic Notation "run" uconstr(E) := erewrite bind_ok by (exact E); cbv beta iota.

Lemma put_other t id p i : i <> id -> pages (put t id p) !! i = pages t !! i.
Proof. intros H. cbn [pages put]. by rewrite lookup_insert_ne. Qed.

Lemma app_around {A} (L l1 l2 R : list A) x : L ++ (l1 ++ x :: l2) ++ R = (L ++ l1) ++ x :: (l2 ++ R).
Proof. by rewrite <- !app_assoc. Qed.

Section Insert.
Context (K V : nat) (HW : widths_ok K V).
#[local] Set Default Proof Using "K V HW".

Lemma put_leaf_at t id p prev next kvs : leaf_page K V p id prev next kvs -> leaf_at K V (pages (put t id p)) id prev next kvs.
Proof. intros H. eexists. cbn [pages put]. rewrite lookup_insert_eq. split; [done|]. by apply lsn_leaf. Qed.

Lemma put_branch_at t id p seps children : branch_page K p id seps children -> branch_at K (pages (put t id p)) id seps children.
Proof. intros H. eexists. cbn [pages put]. rewrite lookup_insert_eq. split; [done|]. by apply lsn_branch. Qed.

Lemma branch_level p id seps children : branch_page K p id seps children -> uint 8 (level (btree_header p)).
Proof. intros (h & [Hb _] & _). rewrite (nd_header _ _ _ _ _ Hb). by destruct (nd_bh _ _ _ _ _ Hb) as (_ & _ & _ & _ & _ & ? & _). Qed.

(** ** Growing a root *)

Lemma grow_root_page id lvl sep l r : uint 8 lvl -> key_ok K sep -> uint 64 l -> uint 64 r ->
  exists res q, insert_raw (new_branch id lvl) (encode_branch_entry sep l) = Some (res, q) /\
    branch_page K (set_rightmost_child q r) id [sep] [l; r].
Proof.
  intros H1 H2 H3 H4. destruct (try_build_branch_fits K V HW id lvl [sep] [l; r]) as (p & E & Hp); [done|by apply Forall_singleton|by apply Forall_cons; split; [|apply Forall_singleton]|done| |].
  { destruct HW as [[]]. unfold branch_size. cbn [length]. lia. }
  unfold try_build_branch in E. cbn [build_entries] in E. destruct (insert_raw _ _) as [[[s|] q]|]; [|done|done].
  exists (Some s), q. split; [done|]. injection E as ->. done.
Qed.

(** ** Inserting a separator into the branches of a path *)

(** The branches cannot fall into the window in which an overflow is missed
    (see [window_free]), or the tree has too few leaves to fill one. *)
Definition roomy (n : nat) : Prop := window_free K \/ branch_size K n <= 8096.

Lemma roomy_fits n m : roomy m -> (n <= m)%nat -> branch_size K n <= 8096 \/ window_free K /\ 8096 < branch_size K n.
Proof.
  intros [Hw|Hm] Hn; [|left; pose proof (branch_size_mono K n m Hn); lia].
  destruct (Hw n); [by left|right; split; [done|lia]].
Qed.

Lemma roomy_mono n m : roomy m -> (n <= m)%nat -> roomy n.
Proof. intros [Hw|Hm] Hn; [by left|right]. pose proof (branch_size_mono K n m Hn). lia. Qed.

(** The outcome of an insertion into the parent. *)
Definition parent_updated (t t' : BPlusTree) (path : list (Z * nat)) (kvs : list kv) (lvs : list Z) : Prop :=
  (exists H' F', tree K V (pages t') H' (root_page_id t') None None kvs lvs F' /\ (forall i, i ∈ F' -> i < next_page_id t')) /\
  (forall i, i ∉ path.*1 -> i < next_page_id t -> pages t' !! i = pages t !! i) /\
  next_page_id t <= next_page_id t' <= next_page_id t + Z.of_nat (S (length path)).

Lemma tree_ids_page_no (S : gmap Z Page) h id lo hi k l F : tree K V S h id lo hi k l F -> uint 64 id.
Proof. intros HT. apply (tree_page_no _ _ HW) in HT. unfold page_no, uint in *. lia. Qed.

Lemma grow_root_spec t h id rid sep k1 l1 F1 k2 l2 F2 :
  root_page_id t = id ->
  tree K V (pages t) h id None (Some sep) k1 l1 F1 -> tree K V (pages t) h rid (Some sep) None k2 l2 F2 -> F1 ## F2 -> key_ok K sep ->
  (forall i, i ∈ F1 ∪ F2 -> i < next_page_id t) -> next_page_id t + 1 < 2 ^ 64 ->
  exists t', grow_root id rid sep t = Some (Ok tt, t') /\ parent_updated t t' [] (k1 ++ k2) (l1 ++ l2).
Proof.
  intros Hroot HT1 HT2 HD Hsep Hids Hnext. unfold grow_root.
  pose proof (tree_root _ _ HW _ _ _ _ _ _ _ _ HT1) as Hid. destruct (proj1 (tree_dom _ _ HW _ _ _ _ _ _ _ _ HT1) id Hid) as [[page Hpage] Hno].
  assert (0 < next_page_id t) as Hpos by (pose proof (Hids id (elem_of_union_l _ _ _ Hid)); unfold page_no in *; lia).
  run (alloc_ok t ltac:(lia) Hnext). erewrite bind_ok by reflexivity. cbv zeta.
  destruct (grow_root_page (next_page_id t) (wrap 8 (match pages (advance t) !! id with Some p => level (btree_header p) | None => 0 end + 1)) sep id rid)
    as (res & q & Eq & Hq); [apply wrap_range; lia|done|by eapply tree_ids_page_no|by eapply tree_ids_page_no|].
  erewrite bind_ok by (apply try_ok; exact Eq). cbv beta iota. erewrite bind_ok by apply put_ok.
  eexists. split; [reflexivity|]. set (nid := next_page_id t) in *.
  assert (forall i, i ∈ F1 ∪ F2 -> sim K V (pages t) (<[nid := set_page_lsn (set_rightmost_child q rid) (next_lsn t)]> (pages t)) i) as HS.
  { intros i Hi. left. rewrite lookup_insert_ne; [done|]. apply Hids in Hi. lia. }
  assert (forall i, i ∈ F1 -> i ∈ F1 ∪ F2) as HF1 by (intros; by apply elem_of_union_l).
  assert (forall i, i ∈ F2 -> i ∈ F1 ∪ F2) as HF2 by (intros; by apply elem_of_union_r).
  split; [|split; [|cbn; lia]].
  - exists (S h), ({[nid]} ∪ (F1 ∪ F2)). cbn [pages root_page_id next_page_id put advance]. split.
    + eapply (tree_branch _ _ HW); [eexists; rewrite lookup_insert_eq; split; [reflexivity|by apply lsn_branch]|unfold page_no; lia|done| |].
      * constructor; [|constructor|done]; (eapply (tree_frame _ _ HW); [|eassumption]); auto.
      * intros Hi%Hids. lia.
    + intros i [->%elem_of_singleton|Hi%Hids]%elem_of_union; lia.
  - intros i _ Hi. cbn [pages put advance]. rewrite lookup_insert_ne; [done|]. lia.
Qed.

Lemma split_sizes n : branch_size K n <= 8096 -> 8096 < branch_size K (S n) -> (9 <= S n)%nat.
Proof. destruct HW as [[? ?] ?]. unfold branch_size. nia. Qed.

Lemma split_branch_spec insert_up t h p lvl seps children lo hi kvs lvs F n :
  forest (tree K V (pages t) h) seps children lo hi kvs lvs F -> Forall (key_ok K) seps -> length seps = S n ->
  branch_size K n <= 8096 -> 8096 < branch_size K (S n) -> uint 8 lvl ->
  p ∉ F -> page_no p -> (forall i, i ∈ {[p]} ∪ F -> i < next_page_id t) -> next_page_id t + 1 < 2 ^ 64 ->
  let nid := next_page_id t in
  exists t1 promoted kA lA FA kB lB FB, split_branch insert_up p lvl seps children t = insert_up p nid promoted t1 /\
    tree K V (pages t1) (S h) p lo (Some promoted) kA lA FA /\ tree K V (pages t1) (S h) nid (Some promoted) hi kB lB FB /\
    FA ## FB /\ kvs = kA ++ kB /\ lvs = lA ++ lB /\ FA ∪ FB = {[p]} ∪ ({[nid]} ∪ F) /\ key_ok K promoted /\
    root_page_id t1 = root_page_id t /\ next_page_id t1 = nid + 1 /\
    (forall i, i <> p -> i <> nid -> pages t1 !! i = pages t !! i).
Proof.
  intros Hf Hk Hn Hfit Hfull Hlv Hp Hno Hids Hnext nid. pose proof (split_sizes n Hfit Hfull) as H9.
  pose proof (forest_length _ _ _ _ _ _ _ _ Hf) as Hlen. pose proof (forest_page_nos _ _ HW _ _ _ _ _ _ _ _ _ Hf) as Hcs.
  assert (0 < nid) as Hpos by (assert (p < nid) by (apply Hids; clear; set_solver); unfold page_no in *; lia).
  assert (p < nid) as Hpn by (apply Hids; clear; set_solver).
  assert (nid ∉ F) as HnF by (intros Hi; pose proof (Hids nid ltac:(clear -Hi; set_solver)); lia).
  assert (Forall (uint 64) children) as Hu by (eapply Forall_impl; [exact Hcs|]; unfold page_no, uint; intros; lia).
  unfold split_branch. set (mid := (length seps / 2)%nat).
  assert (1 <= mid /\ mid < length seps /\ mid <= n /\ S mid < length seps)%nat as (Hm1 & Hm2 & Hm3 & Hm4).
  { unfold mid. rewrite Hn. pose proof (Nat.div_mod_eq (S n) 2). pose proof (Nat.mod_upper_bound (S n) 2). lia. }
  clearbody mid.
  destruct (lookup_lt_is_Some_2 seps mid Hm2) as [promoted Hpr].
  erewrite bind_ok by (apply try_ok; exact Hpr). cbv beta.
  pose proof (branch_size_mono K mid n ltac:(lia)) as Hs1. pose proof (branch_size_mono K (n - mid) n ltac:(lia)) as Hs2.
  destruct (build_branch_fits K V HW p lvl (take mid seps) (take (S mid) children)) as (lb & El & Hlb);
    [done|by apply Forall_take|by apply Forall_take|rewrite !length_take; lia|rewrite length_take_le by lia; lia|].
  destruct (build_branch_fits K V HW nid lvl (drop (S mid) seps) (drop (S mid) children)) as (rb & Er & Hrb);
    [done|by apply Forall_drop|by apply Forall_drop|rewrite !length_drop; lia|rewrite length_drop, Hn; replace (S n - S mid)%nat with (n - mid)%nat by lia; lia|].
  erewrite bind_ok by (apply try_ok; exact El). cbv beta. run (alloc_ok t ltac:(lia) Hnext). fold nid.
  erewrite bind_ok by (apply try_ok; exact Er). cbv beta. erewrite bind_ok by apply put_ok. erewrite bind_ok by apply put_ok.
  set (t1 := put (put (advance t) p lb) nid rb).
  pose proof (take_drop_middle seps mid promoted Hpr) as Es.
  rewrite <- Es, <- (take_drop (S mid) children) in Hf.
  destruct (forest_cut _ _ _ _ _ _ _ _ _ _ _ Hf) as (kA & lA & GA & kB & lB & GB & HA & HB & -> & -> & -> & HD); [rewrite !length_take; lia|].
  assert (forall i, i <> p -> i <> nid -> pages t1 !! i = pages t !! i) as Hsame.
  { intros i H1 H2. unfold t1. rewrite !put_other by done. done. }
  assert (forall i, i ∈ GA ∪ GB -> sim K V (pages t) (pages t1) i) as HS.
  { intros i Hi. left. apply Hsame; intros ->; contradiction. }
  exists t1, promoted, kA, lA, ({[p]} ∪ GA), kB, lB, ({[nid]} ∪ GB). split; [done|]. split; [|split].
  - eapply (tree_branch _ _ HW); [|done| |eapply (forest_frame _ _ HW); [|exact HA]|].
    + exists (set_page_lsn lb (next_lsn t)).
      split; [|by apply lsn_branch]. unfold t1. rewrite put_other by lia. cbn [pages put advance]. by rewrite lookup_insert_eq.
    + intros E. apply (f_equal length) in E. rewrite length_take in E. cbn [length] in E. lia.
    + intros i Hi. apply HS. by apply elem_of_union_l.
    + intros Hi. apply Hp. by apply elem_of_union_l.
  - eapply (tree_branch _ _ HW); [by apply put_branch_at|unfold page_no; lia| |eapply (forest_frame _ _ HW); [|exact HB]|].
    + intros E. apply (f_equal length) in E. rewrite length_drop in E. cbn [length] in E. lia.
    + intros i Hi. apply HS. by apply elem_of_union_r.
    + intros Hi. apply HnF. by apply elem_of_union_r.
  - assert (p <> nid) by lia. split; [clear Hids HS Hsame; set_solver|]. split; [done|]. split; [done|]. split; [clear; set_solver|].
    split; [|done]. rewrite Forall_forall in Hk. apply Hk. by eapply list_elem_of_lookup_2.
Qed.

(** The entries of the parent after the insertion. *)
Lemma insert_into_parent_step t p page path ss1 ss2 cs1 cs2 id rid sep :
  pages t !! p = Some page -> branch_page K page p (ss1 ++ ss2) (cs1 ++ id :: cs2) -> length ss1 = length cs1 ->
  insert_into_parent ((p, length ss1) :: path) id rid sep t =
  (b ← try (try_build_branch p (level (btree_header page)) (ss1 ++ sep :: ss2) (cs1 ++ id :: rid :: cs2));
   match b with
   | Some branch => put_page_with_lsn p branch
   | None => split_branch (insert_into_parent path) p (level (btree_header page)) (ss1 ++ sep :: ss2) (cs1 ++ id :: rid :: cs2)
   end) t.
Proof.
  intros Hpage Hbr Hlen. cbn [insert_into_parent]. erewrite bind_ok by (by apply get_page_or_ok). cbv beta.
  erewrite bind_ok by (apply try_ok; eapply decode_branch_spec; exact Hbr). cbv beta iota.
  assert ((if (length ss1 <? length (cs1 ++ id :: cs2))%nat then Some (<[length ss1 := id]> (cs1 ++ id :: cs2)) else None) = Some (cs1 ++ id :: cs2)) as Ec.
  { rewrite length_app. cbn [length]. destruct (Nat.ltb_spec (length ss1) (length cs1 + S (length cs2))); [|lia].
    rewrite Hlen, insert_app_r_alt, Nat.sub_diag by lia. done. }
  erewrite bind_ok by (apply try_ok; exact Ec). cbv beta.
  assert (vec_insert (length ss1) sep (ss1 ++ ss2) = Some (ss1 ++ sep :: ss2)) as Es.
  { unfold vec_insert. rewrite length_app. destruct (Nat.leb_spec (length ss1) (length ss1 + length ss2)); [|lia].
    by rewrite take_app_length, drop_app_length. }
  erewrite bind_ok by (apply try_ok; exact Es). cbv beta.
  assert (vec_insert (S (length ss1)) rid (cs1 ++ id :: cs2) = Some (cs1 ++ id :: rid :: cs2)) as Ei.
  { unfold vec_insert. rewrite length_app. cbn [length]. destruct (Nat.leb_spec (S (length ss1)) (length cs1 + S (length cs2))); [|lia].
    rewrite (cons_middle id cs1 cs2), app_assoc, take_app_length', drop_app_length' by (rewrite length_app; cbn; lia). by rewrite <- app_assoc. }
  erewrite bind_ok by (apply try_ok; exact Ei). cbv beta zeta. done.
Qed.

(** A leaf or branch at the hole of a context, after its split. *)
Lemma insert_into_parent_spec path : forall t H h id rid sep lo hi L R LL RL F k1 l1 F1 k2 l2 F2,
  ctx K V (pages t) H (root_page_id t) path h id lo hi L R LL RL F ->
  tree K V (pages t) h id lo (Some sep) k1 l1 F1 -> tree K V (pages t) h rid (Some sep) hi k2 l2 F2 ->
  F ## F1 -> F ## F2 -> F1 ## F2 -> key_ok K sep ->
  (forall i, i ∈ F ∪ F1 ∪ F2 -> i < next_page_id t) -> roomy (length (LL ++ (l1 ++ l2) ++ RL)) ->
  next_page_id t + Z.of_nat (S (length path)) < 2 ^ 64 ->
  exists t', insert_into_parent path id rid sep t = Some (Ok tt, t') /\
    parent_updated t t' path (L ++ (k1 ++ k2) ++ R) (LL ++ (l1 ++ l2) ++ RL).
Proof.
  induction path as [|[p idx] path IH]; intros t H h id rid sep lo hi L R LL RL F k1 l1 F1 k2 l2 F2 Hc HT1 HT2 D1 D2 D3 Hsep Hids Hroom Hnext.
  { inversion Hc; subst. rewrite !app_nil_r. cbn [insert_into_parent app]. eapply grow_root_spec; try done.
    intros i Hi. apply Hids. clear -Hi. set_solver. }
  inversion Hc as [|path0 h0 p0 id0 lo0 hi0 L0 R0 LL0 RL0 G ss1 ss2 cs1 cs2 b b' k1' l1' G1 k2' l2' G2 Hc0 Hb Hp (page & Hpage & Hbr) Hne HL HR E1 E2 E3 E4]; subst.
  rewrite (insert_into_parent_step t p page path ss1 ss2 cs1 cs2 id rid sep Hpage Hbr (lforest_length _ _ _ _ _ _ _ _ HL)).
  pose proof Hbr as (hd & _ & _ & _ & Hks & _). pose proof (branch_fits _ _ _ _ _ Hbr) as Hfit. pose proof (branch_level _ _ _ _ Hbr) as Hlv.
  assert (G1 ## F1 /\ G1 ## F2 /\ F1 ## G2 /\ F2 ## G2 /\ G ## F1 /\ G ## F2 /\ p ∉ G1 ∪ F1 ∪ F2 ∪ G2 /\ G ## G1 ∪ F1 ∪ F2 ∪ G2 /\ p ∉ G)
    as (X1 & X2 & X3 & X4 & X5 & X6 & X7 & X8 & X9) by (clear -D1 D2 D3 E1 E2 E3 E4; set_solver).
  pose proof (forest_join2 _ ss1 ss2 cs1 cs2 id rid sep _ _ _ _ _ _ _ _ _ _ _ _ _ _ _ _ HL HT1 HT2 HR X1 X2 E4 D3 X3 X4) as Hf.
  pose proof (forest_page_nos _ _ HW _ _ _ _ _ _ _ _ _ Hf) as Hcs. pose proof (forest_length _ _ _ _ _ _ _ _ Hf) as Hcl.
  assert (Forall (key_ok K) (ss1 ++ sep :: ss2)) as Hks' by (apply Forall_app in Hks as [? ?]; apply Forall_app; split; [done|by constructor]).
  assert (Forall (uint 64) (cs1 ++ id :: rid :: cs2)) as Hu by (eapply Forall_impl; [exact Hcs|]; unfold page_no, uint; intros; lia).
  set (n := length (ss1 ++ ss2)) in *. assert (length (ss1 ++ sep :: ss2) = S n) as Hn by (unfold n; rewrite !length_app; cbn; lia).
  assert (S n <= length ((LL0 ++ l1') ++ (l1 ++ l2) ++ l2' ++ RL0))%nat as Hcount.
  { pose proof (lforest_leaf_count _ _ _ _ _ _ _ _ (tree_leaf_count _ _ HW _ _) HL) as C1.
    pose proof (rforest_leaf_count _ _ _ _ _ _ _ _ (tree_leaf_count _ _ HW _ _) HR) as C2.
    apply (tree_leaf_count _ _ HW) in HT1, HT2. unfold n. rewrite !length_app. lia. }
  assert (forall i, i ∈ {[p]} ∪ (G1 ∪ F1 ∪ F2 ∪ G2) -> i < next_page_id t) as Hids' by (intros i Hi; apply Hids; clear -Hi; set_solver).
  assert (forall i, i ∈ G -> i < next_page_id t) as HidsG by (intros i Hi; apply Hids; clear -Hi; set_solver).
  assert (forall k : list kv, (L0 ++ k1') ++ k ++ k2' ++ R0 = L0 ++ (k1' ++ k ++ k2') ++ R0) as Ak by (intros; by rewrite <- !app_assoc).
  assert (forall l : list Z, (LL0 ++ l1') ++ l ++ l2' ++ RL0 = LL0 ++ (l1' ++ l ++ l2') ++ RL0) as Al by (intros; by rewrite <- !app_assoc).
  rewrite Ak, Al. rewrite Al in Hroom.
  destruct (roomy_fits _ _ Hroom ltac:(rewrite <- Al; exact Hcount)) as [Hok|[Hw Hfull]].
  - destruct (try_build_branch_fits K V HW p _ _ _ Hlv Hks' Hu Hcl) as (q & Eq & Hq); [by rewrite Hn|].
    erewrite bind_ok by (apply try_ok; exact Eq). cbv beta iota. rewrite put_ok. eexists. split; [done|].
    split; [|split; [|cbn; lia]].
    + exists H, (G ∪ ({[p]} ∪ (G1 ∪ F1 ∪ F2 ∪ G2))). split.
      * eapply (ctx_plug _ _ HW); [eapply (ctx_frame _ _ HW); [|exact Hc0]| |clear -X8 X9; set_solver].
        { intros i Hi. left. apply put_other. by intros ->. }
        eapply (tree_branch _ _ HW); [by apply put_branch_at|done|by destruct ss1| |done].
        eapply (forest_frame _ _ HW); [|exact Hf]. intros i Hi. left. apply put_other. by intros ->.
      * intros i [Hi|Hi]%elem_of_union; [by apply HidsG|by apply Hids'].
    + intros i Hi _. apply put_other. intros ->. apply Hi. left.
  - rewrite (bind_ok _ _ _ None t) by (apply try_ok; eapply try_build_branch_full; [exact HW|done|done|done|done|by rewrite Hn]).
    cbv beta iota. cbn [length] in Hnext.
    destruct (split_branch_spec (insert_into_parent path) t h p _ _ _ _ _ _ _ _ n Hf Hks' Hn Hfit Hfull Hlv X7 Hp Hids' ltac:(lia))
      as (t1 & promoted & kA & lA & FA & kB & lB & FB & -> & TA & TB & DAB & Ekv & Elv & EF & Hpr & Er & En & Hsame).
    rewrite Ekv, Elv. rewrite Elv in Hroom.
    assert (forall i, i ∈ G -> i <> p /\ i <> next_page_id t) as HG by (intros i Hi; split; [by intros ->|apply HidsG in Hi; lia]).
    assert (forall i, i ∈ FA ∪ FB -> i < next_page_id t + 1 /\ i ∉ G) as HFAB.
    { intros i Hi. rewrite EF in Hi. split.
      - apply elem_of_union in Hi as [Hi|[->%elem_of_singleton|Hi]%elem_of_union]; [|lia|];
          (assert (i < next_page_id t); [apply Hids'; clear -Hi; set_solver|lia]).
      - intros HiG. destruct (HG i HiG). apply (X8 i HiG). clear -Hi H0 H1. set_solver. }
    destruct (IH t1 H (S h) p (next_page_id t) promoted lo0 hi0 L0 R0 LL0 RL0 G kA lA FA kB lB FB) as (t' & E & Hpu1 & Hpu2 & Hpu3);
      [|done|done| | |done|done| |done|rewrite En; lia|].
    + rewrite Er. eapply (ctx_frame _ _ HW); [|exact Hc0]. intros i Hi. left. by apply Hsame; apply HG.
    + intros i Hi Hi'. apply (HFAB i); [by apply elem_of_union_l|done].
    + intros i Hi Hi'. apply (HFAB i); [by apply elem_of_union_r|done].
    + intros i Hi. rewrite En. rewrite <- union_assoc_L in Hi. apply elem_of_union in Hi as [Hi%HidsG|Hi%HFAB]; lia.
    + exists t'. split; [done|]. split; [done|]. split; [|rewrite En in Hpu3; cbn [length]; lia].
      intros i Hi Hlt. cbn [fmap list_fmap fst] in Hi. rewrite not_elem_of_cons in Hi. rewrite Hpu2; [apply Hsame|..]; try tauto; lia.
Qed.

(** ** Leaves *)

(** Replacing the leaf in focus. *)
Lemma update_leaf t H lvs kvs F k path id leaf lo hi old L R LL RL F' q prev prev' next kvs' :
  holds K V t kvs H lvs F -> focus K V (pages t) H (root_page_id t) k path id leaf lo hi old L R LL RL F' ->
  lvs = LL ++ id :: RL -> F = F' ∪ {[id]} ->
  leaf_page K V leaf id prev next old -> leaf_page K V q id prev' next kvs' -> sorted kvs' -> Forall (fun e => within lo hi e.1) kvs' ->
  (kvs' = [] -> lo = None /\ hi = None) ->
  holds K V (put t id q) (L ++ kvs' ++ R) H lvs F.
Proof.
  intros [_ Hch Hids] [Hpg Hc (Hb & Hno & _) Hk Hout] -> -> Hl Hq Hs Hw Hn.
  assert (forall i, i <> id -> sim K V (pages t) (pages (put t id q)) i) as HS by (intros i Hi; left; by apply put_other).
  split.
  - change (LL ++ id :: RL) with (LL ++ [id] ++ RL). eapply (ctx_plug _ _ HW).
    + eapply (ctx_frame _ _ HW); [|exact Hc]. intros i Hi. apply HS. by intros ->.
    + split; [done|]. split; [done|]. split; [exists prev', next; by apply put_leaf_at|]. done.
    + clear -Hout. set_solver.
  - eapply (chain_update _ _ HW); [exact Hch| |by exists leaf|by apply put_leaf_at]. intros i Hi. apply HS. intros ->.
    by apply Hout, (ctx_leaves _ _ HW _ _ _ _ _ _ _ _ _ _ _ _ _ Hc).
  - done.
Qed.

(** Sorting the entries of a full leaf. *)
Lemma insert_entry_first e l : (forall x, x ∈ l -> klt e.1 x.1) -> insert_entry e l = e :: l.
Proof.
  intros Hl. destruct l as [|x l]; [done|]. cbn [insert_entry]. destruct (bytes_ltP x.1 e.1) as [Hx|]; [|done].
  destruct (klt_irrefl e.1). eapply klt_trans; [apply Hl; apply list_elem_of_here|done].
Qed.

Lemma sort_entries_snoc l1 l2 (e : kv) : sorted (l1 ++ l2) -> (forall x, x ∈ l1 -> klt x.1 e.1) -> (forall x, x ∈ l2 -> klt e.1 x.1) ->
  sort_entries ((l1 ++ l2) ++ [e]) = l1 ++ e :: l2.
Proof.
  intros Hs H1 H2. unfold sort_entries. rewrite <- app_assoc, !foldr_app. cbn [foldr]. change (insert_entry e []) with [e].
  apply sorted_app in Hs as (S1 & S2 & S12).
  assert (foldr insert_entry [e] l2 = e :: l2) as ->.
  { clear S1 S12 H1. induction l2 as [|x l2 IH]; [done|]. apply sorted_cons in S2 as [S2 Hx].
    cbn [foldr]. rewrite IH; [|done|intros y Hy; apply H2; by right]. cbn [insert_entry].
    destruct (bytes_ltP e.1 x.1) as [_|Hn]; [by rewrite insert_entry_first|]. destruct Hn. apply H2, list_elem_of_here. }
  induction l1 as [|x l1 IH]; [done|]. apply sorted_cons in S1 as [S1 Hx]. cbn [foldr app].
  rewrite IH by (first [done|intros; apply H1; by right|intros; apply S12; [by right|done]]).
  apply insert_entry_first. intros y [Hy|[->|Hy]%elem_of_cons]%elem_of_app; [by apply Hx|apply H1, list_elem_of_here|].
  apply S12; [apply list_elem_of_here|done].
Qed.

Lemma other_entries_absent p id prev next kvs k : leaf_page K V p id prev next kvs -> (forall e, e ∈ kvs -> e.1 <> k) ->
  forall n i, (i + n = length kvs)%nat -> other_entries p k n i = drop i kvs.
Proof.
  intros Hp Hk. induction n as [|n IH]; intros i Hi; [rewrite drop_ge by lia; done|]. cbn [other_entries].
  destruct (lookup_lt_is_Some_2 kvs i) as [[k' v'] He]; [lia|]. rewrite (leaf_entry_spec _ _ HW _ _ _ _ _ _ Hp), He.
  destruct (bytes_eqbP k' k) as [->|_]; [by destruct (Hk _ (list_elem_of_lookup_2 _ _ _ He))|].
  rewrite IH by lia. by rewrite (drop_S kvs _ i He).
Qed.

Lemma leaf_split_sizes n : leaf_size K V n <= 8096 -> 8096 < leaf_size K V (S n) -> (3 <= n)%nat.
Proof. destruct HW as [? ?]. unfold leaf_size, rec_len. nia. Qed.

(** The two halves of a full leaf, in the pages of [t1]. *)
Lemma split_leaf_halves t lo hi id leaf prev next l1 l2 e path :
  pages t !! id = Some leaf -> leaf_page K V leaf id prev next (l1 ++ l2) -> page_no id -> entry_ok K V e ->
  sorted (l1 ++ e :: l2) -> Forall (fun e => within lo hi e.1) (l1 ++ e :: l2) -> 8096 < leaf_size K V (S (length (l1 ++ l2))) ->
  id < next_page_id t -> next_page_id t + 1 < 2 ^ 64 ->
  let nid := next_page_id t in
  exists t1 sep A B prev', split_leaf id leaf e.1 e.2 path t = insert_into_parent path id nid sep t1 /\
    tree K V (pages t1) 0 id lo (Some sep) A [id] {[id]} /\ tree K V (pages t1) 0 nid (Some sep) hi B [nid] {[nid]} /\
    leaf_at K V (pages t1) id prev nid A /\ leaf_at K V (pages t1) nid prev' next B /\
    A ++ B = l1 ++ e :: l2 /\ key_ok K sep /\ root_page_id t1 = root_page_id t /\ next_page_id t1 = nid + 1 /\
    (forall i, i <> id -> i <> nid -> pages t1 !! i = pages t !! i).
Proof.
  intros Hpg Hl Hno He Hs Hw Hfull Hid Hnext nid. pose proof (leaf_fits _ _ _ _ _ _ _ Hl) as Hfit.
  pose proof (leaf_split_sizes _ Hfit Hfull) as H3. pose proof Hl as (hd & [Hbd _] & Hsp & Hsn & Hok). unfold split_leaf.
  run (alloc_ok t ltac:(unfold page_no in *; lia) Hnext). fold nid.
  apply sorted_app in Hs as (Sl1 & Sl2 & S12). apply sorted_cons in Sl2 as [Sl2 Se].
  assert (forall x, x ∈ l1 -> klt x.1 e.1) as Hl1 by (intros; apply S12; [done|apply list_elem_of_here]).
  assert (sorted (l1 ++ l2)) as Sl by (apply sorted_app; split_and!; [done|done|]; intros; apply S12; [done|by right]).
  rewrite (other_entries_absent leaf id prev next (l1 ++ l2)) by (first [done|rewrite (leaf_slot_count _ _ _ _ _ _ _ Hl); lia|
    intros x [Hx|Hx]%elem_of_app E; [apply (klt_irrefl e.1); rewrite <- E at 1; by apply Hl1|apply (klt_irrefl e.1); rewrite <- E at 2; by apply Se]]).
  rewrite drop_0. replace (e.1, e.2) with e by (by destruct e). rewrite sort_entries_snoc by done.
  set (ents := l1 ++ e :: l2) in *. assert (length ents = S (length (l1 ++ l2))) as Hn by (unfold ents; rewrite !length_app; cbn; lia).
  assert (sorted ents) as Sents by (apply sorted_app; split; [done|]; split; [apply sorted_cons; by split|done]).
  assert (Forall (entry_ok K V) ents) as Hok' by (apply Forall_app in Hok as [? ?]; apply Forall_app; split; [done|by constructor]).
  clearbody ents. set (mid := (length ents / 2)%nat).
  assert (1 <= mid /\ mid <= length (l1 ++ l2) /\ mid < length ents)%nat as (Hm1 & Hm2 & Hm3).
  { unfold mid. rewrite Hn. pose proof (Nat.div_mod_eq (S (length (l1 ++ l2))) 2). pose proof (Nat.mod_upper_bound (S (length (l1 ++ l2))) 2). lia. }
  clearbody mid. pose proof (leaf_size_mono K V mid _ Hm2) as Hz1. pose proof (leaf_size_mono K V (length ents - mid) (length (l1 ++ l2)) ltac:(lia)) as Hz2.
  destruct (lookup_lt_is_Some_2 ents mid Hm3) as [sep Hsep]. pose proof (take_drop_middle ents mid sep Hsep) as Ed.
  pose proof (drop_S ents sep mid Hsep) as Edr.
  destruct (fill_leaf_spec K V HW (take mid ents) (new_leaf id) id 0 0 [] (new_leaf_page K V id)) as (p1 & E1 & Hp1);
    [by apply Forall_take|cbn [app]; rewrite length_take_le by lia; lia|].
  destruct (fill_leaf_spec K V HW (drop mid ents) (new_leaf nid) nid 0 0 [] (new_leaf_page K V nid)) as (p2 & E2 & Hp2);
    [by apply Forall_drop|cbn [app]; rewrite length_drop; lia|].
  cbn [app] in Hp1, Hp2. cbv zeta. erewrite bind_ok by (apply try_ok; exact E1). cbv beta. erewrite bind_ok by (apply try_ok; exact E2). cbv beta.
  erewrite bind_ok by apply put_ok. erewrite bind_ok by apply put_ok. erewrite bind_ok by (apply try_ok; exact Hsep). cbv beta.
  destruct (leaf_siblings _ _ _ _ _ _ _ Hl) as [Esp Esn]. rewrite Esp, Esn.
  destruct (nd_bh _ _ _ _ _ Hbd) as (Up & Un & _). rewrite Hsp in Up. rewrite Hsn in Un.
  assert (is_u64 nid /\ is_u64 id) as [Unid Uid] by (unfold uint, page_no in *; lia).
  apply (siblings_leaf _ _ _ _ _ _ _ prev nid) in Hp1; [|done|done]. apply (siblings_leaf _ _ _ _ _ _ _ id next) in Hp2; [|done|done].
  set (t1 := put (put (advance t) id _) nid _).
  assert (leaf_at K V (pages t1) id prev nid (take mid ents)) as L1.
  { destruct (put_leaf_at (advance t) id _ _ _ _ Hp1) as (q & Hq & Hlq). exists q. split; [|done]. unfold t1. rewrite put_other by lia. done. }
  assert (leaf_at K V (pages t1) nid id next (drop mid ents)) as L2 by (by apply put_leaf_at).
  rewrite <- (take_drop mid ents) in Sents, Hw. apply sorted_app in Sents as (SA & SB & SAB). apply Forall_app in Hw as [WA WB].
  rewrite Forall_forall in WA. rewrite Forall_forall in WB.
  assert (sep ∈ drop mid ents) as Hin by (rewrite Edr; apply list_elem_of_here).
  assert (exists a, a ∈ take mid ents) as [a Ha].
  { destruct (take mid ents) as [|a l] eqn:Et; [apply (f_equal length) in Et; rewrite length_take in Et; cbn [length] in Et; lia|].
    exists a. apply list_elem_of_here. }
  exists t1, sep.1, (take mid ents), (drop mid ents), id. split; [done|]. split; [|split; [|split; [done|split; [done|split; [apply take_drop|]]]]].
  - split; [|split; [done|]; split; [by exists prev, nid|]; split; [done|]; split; [|split; [intros E; rewrite E in Ha; by apply not_elem_of_nil in Ha|done]]].
    + destruct (WA a Ha) as [Hlo _]. destruct lo; [|done]. cbn in *. eapply kle_klt_trans; [exact Hlo|]. by apply SAB.
    + apply Forall_forall. intros x Hx. split; [by apply WA|]. cbn. by apply SAB.
  - split; [|split; [unfold page_no in *; lia|]; split; [by exists id, next|]; split; [done|]; split; [|split; [intros E; rewrite E in Hin; by apply not_elem_of_nil in Hin|done]]].
    + destruct (WB sep Hin) as [_ Hhi]. by destruct hi.
    + apply Forall_forall. intros x Hx. split; [|by apply WB]. cbn. rewrite Edr in Hx, SB. apply sorted_cons in SB as [_ SB].
      apply elem_of_cons in Hx as [->|Hx]; [apply kle_refl|apply klt_kle; by apply SB].
  - split; [|split; [done|]; split; [done|]; intros i H1 H2; unfold t1; by rewrite !put_other].
    rewrite Forall_forall in Hok'. apply (Hok' sep). by eapply list_elem_of_lookup_2.
Qed.

(** At most one leaf more than entries, and then only when the root is an empty leaf. *)
Lemma leaves_bounded t kvs H lvs F : holds K V t kvs H lvs F -> (length lvs <= length kvs)%nat \/ length lvs = 1%nat.
Proof.
  intros [HT _ _]. destruct H as [|h]; [right|left; eapply (tree_count _ _ HW); [exact HT|by left]].
  destruct HT as (_ & _ & HT). destruct_and!. by subst.
Qed.

Lemma split_leaf_spec t H F k v path id leaf lo hi l1 l2 L R LL RL F' :
  holds K V t (L ++ (l1 ++ l2) ++ R) H (LL ++ id :: RL) F -> focus K V (pages t) H (root_page_id t) k path id leaf lo hi (l1 ++ l2) L R LL RL F' ->
  F = F' ∪ {[id]} -> entry_ok K V (k, v) -> (forall e, e ∈ l1 -> klt e.1 k) -> (forall e, e ∈ l2 -> klt k e.1) ->
  8096 < leaf_size K V (S (length (l1 ++ l2))) -> roomy (S (length (L ++ (l1 ++ l2) ++ R))) ->
  next_page_id t + Z.of_nat (length path) + 2 < 2 ^ 64 ->
  exists t', split_leaf id leaf k v path t = Some (Ok tt, t') /\ btree_inv K V t' (L ++ (l1 ++ (k, v) :: l2) ++ R) /\
    next_page_id t' <= next_page_id t + Z.of_nat (length path) + 2.
Proof.
  intros Hh Hfo -> He H1 H2 Hfull Hroom Hnext. pose proof (leaves_bounded _ _ _ _ _ Hh) as Hcount. destruct Hh as [HT Hch Hids].
  destruct Hfo as [Hpg Hc Hleaf Hk Hout]. pose proof (tree_page_no _ _ HW _ _ _ _ _ _ _ _ Hleaf) as Hno.
  pose proof (tree_node_leaf _ _ HW _ _ _ _ _ _ _ _ Hleaf Hpg) as (prev & next & Hl). destruct (tree_sorted _ _ HW _ _ _ _ _ _ _ _ Hleaf) as [Hs Hw].
  pose proof (leaf_split_sizes _ (leaf_fits _ _ _ _ _ _ _ Hl) Hfull) as H3.
  apply sorted_app in Hs as (S1 & S2 & S12). apply Forall_app in Hw as [W1 W2].
  destruct (split_leaf_halves t lo hi id leaf prev next l1 l2 (k, v) path) as (t1 & sep & A & B & prev' & Esplit & TA & TB & LA & LB & EAB & Hsep & Er & En & Hsame);
    [done|done|done|done| | |done|apply Hids; apply elem_of_union_r; by apply elem_of_singleton|lia|].
  { apply sorted_app. split; [done|]. split; [apply sorted_cons; by split|]. intros x y Hx [->|Hy]%elem_of_cons; [by apply H1|by apply S12]. }
  { apply Forall_app. split; [done|]. by constructor. }
  cbn [fst snd] in Esplit. rewrite Esplit.
  set (nid := next_page_id t) in *.
  assert (forall i, i ∈ F' ∪ {[id]} -> i < nid) as Hids' by done.
  assert (forall i, i ∈ F' -> i <> id /\ i <> nid) as HF' by (intros i Hi; split; [by intros ->|pose proof (Hids' i (elem_of_union_l _ _ _ Hi)); lia]).
  assert (id < nid) as Hidn by (apply Hids', elem_of_union_r; by apply elem_of_singleton).
  destruct (insert_into_parent_spec path t1 H 0 id nid sep lo hi L R LL RL F' A [id] {[id]} B [nid] {[nid]}) as (t' & E & (H' & F'' & HT' & HI') & Hkeep & Hn').
  - rewrite Er. eapply (ctx_frame _ _ HW); [|exact Hc]. intros i Hi. left. by apply Hsame; apply HF'.
  - exact TA.
  - exact TB.
  - clear -Hout. set_solver.
  - apply disjoint_singleton_r. intros Hi. by apply HF' in Hi as [_ ?].
  - apply disjoint_singleton_r. intros ->%elem_of_singleton. lia.
  - done.
  - intros i [Hi| ->%elem_of_singleton]%elem_of_union; [apply Hids' in Hi|]; lia.
  - eapply roomy_mono; [exact Hroom|]. rewrite !length_app in *. cbn [length] in *. lia.
  - lia.
  - exists t'. split; [done|]. rewrite EAB in HT'. split; [|lia]. exists H', (LL ++ ([id] ++ [nid]) ++ RL), F''. split; [done| |done].
    assert (forall i, i ∈ LL ++ RL -> i ∈ F') as HLR by (intros i; apply (ctx_leaves _ _ HW _ _ _ _ _ _ _ _ _ _ _ _ _ Hc)).
    assert (forall i, i ∈ F' -> i ∉ path.*1 -> pages t' !! i = pages t !! i) as Hold.
    { intros i Hi Hp. destruct (HF' i Hi). rewrite Hkeep; [by apply Hsame|done|]. pose proof (Hids' i (elem_of_union_l _ _ _ Hi)). lia. }
    assert (forall i, i ∈ LL ++ RL -> sim K V (pages t) (pages t') i) as Hsim.
    { intros i Hi. left. apply Hold; [by apply HLR|]. intros Hp. by apply (ctx_path _ _ HW _ _ _ _ _ _ _ _ _ _ _ _ _ Hc) in Hp as [_ ?]. }
    assert (forall i, i ∈ path.*1 -> i <> id /\ i <> nid) as Hpid by (intros i Hi; apply HF'; by apply (ctx_path _ _ HW _ _ _ _ _ _ _ _ _ _ _ _ _ Hc) in Hi as [? _]).
    cbn [app]. rewrite (chain_app _ _ HW) in Hch |- *. destruct Hch as [C1 C2]. split; [|split; [|split]].
    + eapply (chain_frame _ _ HW); [|exact C1]. intros i Hi. apply Hsim, elem_of_app. by left.
    + exists prev, A. destruct LA as (q & Hq & HA). exists q. split; [|done]. rewrite Hkeep; [done| |lia]. intros Hi. by apply Hpid in Hi as [? _].
    + pose proof (chain_leaf _ _ HW _ _ _ _ _ _ _ C2 (ex_intro _ leaf (conj Hpg Hl))) as ->.
      exists prev', B. destruct LB as (q & Hq & HB). exists q. split; [|done]. rewrite Hkeep; [done| |lia]. intros Hi. by apply Hpid in Hi as [_ ?].
    + eapply (chain_frame _ _ HW); [|exact (proj2 C2)]. intros i Hi. apply Hsim, elem_of_app. by right.
Qed.

(** ** Insert *)


(** The place of a key in a sorted leaf. *)
Lemma leaf_place p id prev next kvs k : leaf_page K V p id prev next kvs -> sorted kvs ->
  exists l1 l2, kvs = l1 ++ l2 /\ leaf_lower_bound p k = length l1 /\ leaf_entry p (leaf_lower_bound p k) = head l2 /\
    (forall e, e ∈ l1 -> klt e.1 k) /\
    ((exists v l2', l2 = (k, v) :: l2' /\ forall e, e ∈ l2' -> klt k e.1) \/
     ((forall e, e ∈ l2 -> klt k e.1) /\ forall e, head l2 = Some e -> e.1 <> k)).
Proof.
  intros Hp Hs. destruct (sorted_split kvs k Hs) as (l1 & l2 & -> & H1 & H2). exists l1, l2.
  assert (leaf_lower_bound p k = length l1) as E by (by eapply leaf_lower_bound_spec).
  split; [done|]. split; [done|]. split; [rewrite E, (leaf_entry_spec _ _ HW _ _ _ _ _ _ Hp), lookup_app_r, Nat.sub_diag by lia; by destruct l2|].
  split; [done|]. apply sorted_app in Hs as (_ & Hs & _). destruct l2 as [|[k' v'] l2]; [right; split; [by intros e ?%not_elem_of_nil|done]|].
  apply sorted_cons in Hs as [_ Hs]. cbn [fst] in Hs. pose proof (H2 _ (list_elem_of_here _ _)) as Hk. cbn [fst] in Hk.
  apply kle_or in Hk as [Hk| <-]; [right|left; eauto]. split.
  - intros e [->|He]%elem_of_cons; [done|]. eapply klt_trans; [exact Hk|]. by apply Hs.
  - intros e [= <-]. cbn. intros ->. by apply (klt_irrefl k).
Qed.

Lemma insert_in_leaf_spec t H F k v path id leaf lo hi kvs L R LL RL F' :
  holds K V t (L ++ kvs ++ R) H (LL ++ id :: RL) F -> focus K V (pages t) H (root_page_id t) k path id leaf lo hi kvs L R LL RL F' ->
  F = F' ∪ {[id]} -> entry_ok K V (k, v) -> roomy (S (length (L ++ kvs ++ R))) -> next_page_id t + Z.of_nat (length path) + 2 < 2 ^ 64 ->
  exists t', insert_in_leaf id leaf path k v t = Some (Ok tt, t') /\ btree_inv K V t' (kv_insert k v (L ++ kvs ++ R)) /\
    next_page_id t' <= next_page_id t + Z.of_nat (length path) + 2.
Proof.
  intros Hh Hfo HF He Hroom Hnext. destruct (ctx_sides _ _ HW _ _ _ _ _ _ _ _ _ _ _ _ _ k (fo_ctx _ _ _ _ _ _ _ _ _ _ _ _ _ _ _ _ _ Hfo) (fo_in _ _ _ _ _ _ _ _ _ _ _ _ _ _ _ _ _ Hfo)) as [HL HR].
  pose proof Hfo as [Hpg Hc Hleaf Hk Hout]. pose proof (tree_page_no _ _ HW _ _ _ _ _ _ _ _ Hleaf) as Hno.
  pose proof (tree_node_leaf _ _ HW _ _ _ _ _ _ _ _ Hleaf Hpg) as (prev & next & Hl). destruct (tree_sorted _ _ HW _ _ _ _ _ _ _ _ Hleaf) as [Hs Hw].
  pose proof Hl as (hd & [Hbd _] & Hsp & Hsn & Hok). destruct (nd_bh _ _ _ _ _ Hbd) as (Up & Un & _). rewrite Hsp in Up. rewrite Hsn in Un.
  destruct (leaf_place leaf id prev next kvs k Hl Hs) as (l1 & l2 & -> & Elb & Een & Hl1 & Hcase).
  unfold insert_in_leaf, leaf_key. cbv zeta. rewrite Een, Elb.
  apply sorted_app in Hs as (S1 & S2 & S12). apply Forall_app in Hw as [W1 W2].
  assert (forall e, e ∈ L ++ l1 -> klt e.1 k) as HLl by (intros e [?|?]%elem_of_app; auto).
  destruct Hcase as [(v0 & l2' & -> & H2)|[H2 Hne]].
  - cbn [head fmap option_fmap option_map fst]. rewrite bytes_eqb_refl.
    destruct (rebuild_leaf_spec K V HW leaf id prev next l1 (k, v0) l2' (k, v)) as (q & Eq & Hq); [done|done|unfold page_no, uint in *; lia|done|done|].
    erewrite bind_ok by (apply try_ok; exact Eq). cbv beta iota. rewrite put_ok. eexists. split; [done|]. split; [|cbn; lia].
    rewrite app_around, kv_insert_over, <- app_around by done.
    exists H, (LL ++ id :: RL), F. apply sorted_cons in S2 as [S2 Se]. apply Forall_cons in W2 as [We W2].
    eapply update_leaf; [exact Hh|exact Hfo|done|done|exact Hl|exact Hq| | |by destruct l1].
    + apply sorted_app. split; [done|]. split; [by apply sorted_cons|]. intros x y Hx [->|Hy]%elem_of_cons; [by apply Hl1|apply S12; [done|by right]].
    + apply Forall_app. split; [done|]. by constructor.
  - assert (match fst <$> head l2 with Some existing => bytes_eqb existing k | None => false end = false) as Efound.
    { destruct (head l2) as [e|]; [|done]. cbn. destruct (bytes_eqbP e.1 k); [|done]. by destruct (Hne e). }
    replace (kv_insert k v (L ++ (l1 ++ l2) ++ R)) with (L ++ (l1 ++ (k, v) :: l2) ++ R).
    2: { rewrite app_around, <- (app_assoc l1), (app_assoc L), kv_insert_at; [done|done|]. intros e [?|?]%elem_of_app; auto. }
    assert (exists t', store_in_leaf id leaf path k v t = Some (Ok tt, t') /\ btree_inv K V t' (L ++ (l1 ++ (k, v) :: l2) ++ R) /\
      next_page_id t' <= next_page_id t + Z.of_nat (length path) + 2) as Hstore.
    { unfold store_in_leaf. cbv zeta. change (encode_kv k v) with (enc (k, v)). rewrite (length_enc K V (k, v) He), Elb.
      destruct (has_room_for leaf (rec_len K V)) eqn:Eroom.
      - apply (has_room_leaf _ _ _ _ _ _ _ Hl) in Eroom.
        destruct (insert_leaf K V HW leaf id prev next l1 l2 (k, v) Hl He Eroom) as (q & Eq & Hq).
        erewrite bind_ok by (apply try_ok; exact Eq). cbv beta iota. erewrite bind_ok by reflexivity. rewrite put_ok.
        eexists. split; [done|]. split; [|cbn; lia]. exists H, (LL ++ id :: RL), F.
        eapply update_leaf; [exact Hh|exact Hfo|done|done|exact Hl|exact Hq| | |by destruct l1].
        + apply sorted_app. split; [done|]. split; [by apply sorted_cons|]. intros x y Hx [->|Hy]%elem_of_cons; [by apply Hl1|by apply S12].
        + apply Forall_app. split; [done|]. by constructor.
      - eapply split_leaf_spec; try done. apply Z.nle_gt. intros Hle. apply (has_room_leaf _ _ _ _ _ _ _ Hl) in Hle. congruence. }
    destruct (fst <$> head l2) as [ex|]; [|exact Hstore]. rewrite Efound. exact Hstore.
Qed.

Lemma height_bound t kvs H lvs F : holds K V t kvs H lvs F -> next_page_id t < 2 ^ 63 -> (H < 63)%nat.
Proof.
  intros [HT _ Hids] Hn. pose proof (tree_height _ _ HW _ _ _ _ _ _ _ _ HT) as Hh. pose proof (tree_dom _ _ HW _ _ _ _ _ _ _ _ HT) as (Hd & _).
  assert (size F <= Z.to_nat (next_page_id t))%nat as Hsz.
  { apply (ids_size K V HW). intros i Hi. destruct (Hd i Hi) as [_ []]. apply Hids in Hi. lia. }
  apply (Nat.pow_lt_mono_r_iff 2); [lia|]. apply Nat2Z.inj_lt. rewrite !Nat2Z.inj_pow. change (Z.of_nat 2) with 2. change (Z.of_nat 63) with 63.
  apply Nat2Z.inj_le in Hh. rewrite Nat2Z.inj_pow in Hh. change (Z.of_nat 2) with 2 in Hh. lia.
Qed.

(** The fast path is taken for an empty root leaf only. *)
Lemma try_root_insert_spec t kvs H lvs F root r : holds K V t kvs H lvs F -> pages t !! root_page_id t = Some root ->
  (H <> 0%nat \/ kvs <> []) -> try_root_insert root r = Some None.
Proof.
  intros [HT _ _] Hr Hne. unfold try_root_insert. destruct H as [|h].
  - destruct (tree_node_leaf _ _ HW _ _ _ _ _ _ _ _ HT Hr) as (prev & next & Hl). destruct (leaf_is_leaf _ _ _ _ _ _ _ Hl) as [-> _].
    rewrite (leaf_key_count _ _ _ _ _ _ _ Hl). destruct kvs; [naive_solver|done].
  - destruct HT as (_ & _ & seps & children & G & (p & Hp & Hbr) & _). rewrite Hr in Hp. injection Hp as <-.
    by destruct (branch_is_branch _ _ _ _ _ Hbr) as [-> _].
Qed.

Lemma insert_spec t kvs k v : btree_inv K V t kvs -> entry_ok K V (k, v) -> roomy (S (length kvs)) -> next_page_id t < 2 ^ 63 ->
  exists t', insert k v t = Some (Ok tt, t') /\ btree_inv K V t' (kv_insert k v kvs) /\ next_page_id t' <= next_page_id t + 65.
Proof.
  intros (H & lvs & F & Hh) He Hroom Hn. pose proof (height_bound _ _ _ _ _ Hh Hn) as HH. unfold insert, insert_locked.
  destruct (holds_focus _ _ HW _ _ _ _ _ k Hh) as (root & id & leaf & path & lo & hi & kvs' & L & R & LL & RL & F' & Hr & Hd & _ & Hfo & -> & -> & EF & Hlen).
  erewrite bind_ok by reflexivity. erewrite bind_ok by (by apply get_page_or_ok). cbv beta.
  destruct (decide (H = 0%nat /\ L ++ kvs' ++ R = [])) as [[-> E0]|Hne].
  - pose proof Hh as [HT _ _]. rewrite E0 in *. destruct (tree_node_leaf _ _ HW _ _ _ _ _ _ _ _ HT Hr) as (prev & next & Hl).
    destruct path; [|done]. pose proof (fo_ctx _ _ _ _ _ _ _ _ _ _ _ _ _ _ _ _ _ Hfo) as Hc. inversion Hc; subst.
    apply app_nil in E0 as [_ E0]. apply app_nil in E0 as [-> _].
    pose proof (fo_page _ _ _ _ _ _ _ _ _ _ _ _ _ _ _ _ _ Hfo) as Hpg. rewrite Hr in Hpg. injection Hpg as <-.
    destruct (append_leaf K V HW root _ prev next [] (k, v) Hl He) as (q & Eq & Hq).
    { destruct HW as [? ?]. unfold leaf_size, rec_len. cbn [length]. lia. }
    assert (try_root_insert root (encode_kv k v) = Some (Some q)) as Et.
    { unfold try_root_insert. destruct (leaf_is_leaf _ _ _ _ _ _ _ Hl) as [-> _]. rewrite (leaf_key_count _ _ _ _ _ _ _ Hl).
      change (encode_kv k v) with (enc (k, v)). rewrite (length_enc K V (k, v) He).
      assert (has_room_for root (rec_len K V) = true) as ->; [|cbn [length Nat.eqb andb]; by rewrite Eq].
      apply (has_room_leaf _ _ _ _ _ _ _ Hl). destruct HW as [? ?]. unfold leaf_size, rec_len. cbn [length]. lia. }
    erewrite bind_ok by (apply try_ok; exact Et). cbv beta iota. rewrite put_ok. eexists. split; [done|]. split; [|cbn; lia].
    eexists 0%nat, _, _. change (kv_insert k v []) with ([] ++ [(k, v)] ++ ([] : list kv)).
    eapply update_leaf; [exact Hh|exact Hfo|done|done|exact Hl|exact Hq|apply sorted_cons; split; [constructor|by intros e ?%not_elem_of_nil]| |done].
    apply Forall_singleton. done.
  - erewrite bind_ok by (apply try_ok; eapply try_root_insert_spec; [exact Hh|exact Hr|]; clear -Hne; destruct (decide (H = 0%nat)); tauto). cbv beta iota.
    assert (descend_to_leaf_with_path root k t = Some (Ok (Some (id, leaf, path)), t)) as Ed by (unfold descend_to_leaf_with_path; by rewrite Hd).
    erewrite bind_ok by exact Ed. erewrite bind_ok by reflexivity. cbv beta iota.
    destruct (insert_in_leaf_spec t H F k v path id leaf lo hi kvs' L R LL RL F' Hh Hfo EF He Hroom ltac:(lia)) as (t' & E & Hinv & Hnx).
    exists t'. split; [done|]. split; [done|]. lia.
Qed.

Lemma tree_new_inv : btree_inv K V tree_new [].
Proof.
  assert (leaf_at K V (pages tree_new) 1 0 0 []) as Hl by (exists (new_leaf 1); split; [done|apply new_leaf_page]).
  exists 0%nat, [1], {[1]}. split.
  - split; [done|]. split; [unfold page_no; cbn; lia|]. split; [by exists 0, 0|]. split; [constructor|]. split; [constructor|]. done.
  - split; [by exists 0, []|done].
  - by intros i ->%elem_of_singleton.
Qed.
End Insert.
