(* ===== verification/BTreeRange.v ===== *)
(** * Lookups and range scans of the B+ tree

    [search] finds a key exactly when the map holds it; [range_search] returns
    the entries of the map in the range; the cursor behind [into_range] returns
    the same entries whenever it starts on an entry. *)

From stdpp Require Import prelude list gmap sorting.
From Stdlib Require Import ZArith Lia.
From S2P Require Import Prelude Bytes SlottedPage BTreePage Key BTree BTreeNode BTreeSpec BTreeInsert.

(** ** Ranges of a sorted list *)

Definition in_range (a b : list Z) (e : kv) : bool := bytes_le a e.1 && bytes_lt e.1 b.
Definition kv_range (a b : list Z) (l : list kv) : list kv := filter (fun e => in_range a b e = true) l.

Lemma kv_range_app a b l1 l2 : kv_range a b (l1 ++ l2) = kv_range a b l1 ++ kv_range a b l2.
Proof. apply filter_app. Qed.

Lemma kv_range_nil a b l : (forall e, e ∈ l -> klt e.1 a \/ kle b e.1) -> kv_range a b l = [].
Proof.
  induction l as [|e l IH]; intros Hl; [done|]. unfold kv_range. rewrite filter_cons_False.
  - apply IH. intros x Hx. apply Hl. by right.
  - unfold in_range. rewrite andb_true_iff. intros [H1 H2].
    destruct (Hl e (list_elem_of_here _ _)) as [H|H]; [apply (klt_irrefl a); by eapply kle_klt_trans|].
    apply (klt_irrefl b). by eapply kle_klt_trans.
Qed.

Lemma kv_range_cons a b e l : in_range a b e = true -> kv_range a b (e :: l) = e :: kv_range a b l.
Proof. intros H. unfold kv_range. by rewrite filter_cons_True. Qed.

(** A range that starts higher is part of the range. *)
Lemma range_sub a k b l : kle a k -> kv_range k b (kv_range a b l) = kv_range k b l.
Proof.
  intros Hak. unfold kv_range. rewrite list_filter_filter_l; [done|]. intros e [H1 H2]%andb_true_iff. apply andb_true_iff. split; [|done]. by eapply kle_trans.
Qed.

Section Range.
Context (K V : nat) (HW : widths_ok K V).
#[local] Set Default Proof Using "K V HW".

(** ** The leaves and their entries *)

(** The leaves [lvs] are not empty and hold [kvs] in order. *)
Fixpoint runs (S : gmap Z Page) (lvs : list Z) (kvs : list kv) : Prop :=
  match lvs with
  | [] => kvs = []
  | x :: l => exists ks rest prev next, kvs = ks ++ rest /\ ks <> [] /\ leaf_at K V S x prev next ks /\ runs S l rest
  end.

Lemma runs_app S l1 l2 k1 k2 : runs S l1 k1 -> runs S l2 k2 -> runs S (l1 ++ l2) (k1 ++ k2).
Proof.
  revert k1. induction l1 as [|x l1 IH]; intros k1; cbn [runs app]; [by intros ->|].
  intros (ks & rest & prev & next & -> & Hne & Hl & Hr) H2. exists ks, (rest ++ k2), prev, next.
  rewrite <- app_assoc. split; [done|]. split; [done|]. split; [done|]. by apply IH.
Qed.

Lemma tree_runs S h : forall id lo hi kvs lvs F, tree K V S h id lo hi kvs lvs F -> h <> 0%nat \/ lo <> None \/ hi <> None -> runs S lvs kvs.
Proof.
  induction h as [|h IH]; intros id lo hi kvs lvs F.
  - intros (_ & _ & (prev & next & Hl) & _ & _ & Hn & -> & _) Hb. cbn [runs]. exists kvs, [], prev, next. rewrite app_nil_r.
    split; [done|]. split; [|done]. intros E. destruct (Hn E) as [-> ->]. naive_solver.
  - intros (_ & _ & seps & children & G & _ & Hne & Hf & _ & _) _. assert (seps <> [] \/ lo <> None \/ hi <> None) as Hb by (by left).
    clear Hne. induction Hf as [c lo hi kvs l F0 H1|s ss c cs lo hi kvs1 kvs2 l1 l2 F1 F2 H1 Hf IHf Hd].
    + eapply IH; [exact H1|]. right. by destruct Hb.
    + apply runs_app; [eapply IH; [exact H1|right; by right]|]. apply IHf. by right; left.
Qed.

Lemma lforest_runs S h ss cs lo b k l F : lforest (tree K V S h) ss cs lo b k l F -> runs S l k.
Proof.
  induction 1 as [|s ss c cs lo b kvs1 kvs2 l1 l2 F1 F2 H1 HL IH Hd]; [done|].
  apply runs_app; [|done]. eapply tree_runs; [exact H1|]. right. by right.
Qed.

Lemma rforest_runs S h ss cs b hi k l F : rforest (tree K V S h) ss cs b hi k l F -> runs S l k.
Proof.
  destruct ss as [|s ss]; cbn [rforest]; [by intros (_ & _ & -> & -> & _)|]. intros [_ Hf].
  remember (Some s) as lo eqn:E. assert (lo <> None) as Hlo by (by subst). clear E.
  induction Hf as [c lo hi kvs l F0 H1|s' ss' c cs' lo hi kvs1 kvs2 l1 l2 F1 F2 H1 Hf IHf Hd].
  - eapply tree_runs; [exact H1|]. by right; left.
  - apply runs_app; [eapply tree_runs; [exact H1|by right; left]|]. by apply IHf.
Qed.

Lemma ctx_runs S H root path h id lo hi L R LL RL F :
  ctx K V S H root path h id lo hi L R LL RL F -> runs S LL L /\ runs S RL R.
Proof.
  induction 1 as [|path h p id lo hi L R LL RL F ss1 ss2 cs1 cs2 b b' k1 l1 F1 k2 l2 F2
    Hc IH Hb Hp Hbr Hne HL HR D1 D2 D3 D4]; [done|]. destruct IH as [I1 I2].
  split; apply runs_app; [done|by eapply lforest_runs|by eapply rforest_runs|done].
Qed.

(** Leaves are distinct pages of the store. *)
Lemma tree_leaves_size S h : forall id lo hi kvs lvs F, tree K V S h id lo hi kvs lvs F -> (length lvs <= size F)%nat.
Proof.
  induction h as [|h IH]; intros id lo hi kvs lvs F.
  - intros (_ & _ & _ & _ & _ & _ & -> & ->). by rewrite size_singleton.
  - intros (_ & _ & seps & children & G & _ & _ & Hf & Hn & ->). rewrite size_union, size_singleton by (clear -Hn; set_solver).
    assert (length lvs <= size G)%nat; [|lia]. clear Hn.
    induction Hf as [c lo hi kvs l F H1|s ss c cs lo hi kvs1 kvs2 l1 l2 F1 F2 H1 Hf IHf Hd]; [by eapply IH|].
    apply IH in H1. rewrite length_app, size_union by done. lia.
Qed.

Lemma leaves_in_store t kvs H lvs F : holds K V t kvs H lvs F -> (length lvs <= size (pages t))%nat.
Proof.
  intros [HT _ _]. pose proof (tree_leaves_size _ _ _ _ _ _ _ _ HT). destruct (tree_dom _ _ HW _ _ _ _ _ _ _ _ HT) as (Hd & _ & _).
  pose proof (dom_size K V HW (pages t) F (fun i Hi => proj1 (Hd i Hi))). lia.
Qed.

(** ** Point lookups *)

Definition search_answer (t : BPlusTree) (k : list Z) (r : option (Z * nat)) : option (list Z) :=
  '(id, slot) ← r; leaf ← pages t !! id; '(k', v) ← leaf_entry leaf slot; if bytes_eqb k' k then Some v else None.

Lemma search_spec t kvs k : btree_inv K V t kvs ->
  exists r, search t k = Some r /\ search_answer t k r = kv_lookup k kvs /\ (r = None <-> kv_lookup k kvs = None).
Proof.
  intros (H & lvs & F & Hh). destruct (holds_focus _ _ HW _ _ _ _ _ k Hh) as (root & id & leaf & path & lo & hi & kvs' & L & R & LL & RL & F' & Hr & _ & Hfl & [Hpg Hc Hleaf Hk Hout] & -> & _).
  destruct (ctx_sides _ _ HW _ _ _ _ _ _ _ _ _ _ _ _ _ k Hc Hk) as [HL HR].
  pose proof (tree_node_leaf _ _ HW _ _ _ _ _ _ _ _ Hleaf Hpg) as (prev & next & Hl). destruct (tree_sorted _ _ HW _ _ _ _ _ _ _ _ Hleaf) as [Hs _].
  destruct (leaf_place K V HW leaf id prev next kvs' k Hl Hs) as (l1 & l2 & -> & Elb & Een & Hl1 & Hcase).
  unfold search. rewrite Hr, Hfl, Some_bind, Hpg. cbv zeta. unfold leaf_key. rewrite Een.
  rewrite kv_lookup_app by (intros e He; by apply klt_ne, HL). rewrite <- app_assoc, kv_lookup_app by (intros e He; by apply klt_ne, Hl1).
  destruct Hcase as [(v0 & l2' & -> & H2)|[H2 Hne]].
  - cbn [head fmap option_fmap option_map fst app kv_lookup snd]. rewrite bytes_eqb_refl. eexists. split; [done|].
    split; [|done]. cbn [search_answer mbind option_bind]. rewrite Hpg. cbn [mbind option_bind]. rewrite Een. cbn. by rewrite bytes_eqb_refl.
  - assert (kv_lookup k (l2 ++ R) = None) as ->.
    { apply kv_lookup_None. intros e [He|He]%elem_of_app E; [apply (klt_ne k e.1); [by apply H2|done]|apply (klt_ne k e.1); [by apply HR|done]]. }
    exists None. split; [|done]. destruct (head l2) as [e|] eqn:Eh; [|done]. cbn. destruct (bytes_eqbP e.1 k) as [E|]; [by destruct (Hne e)|done].
Qed.

(** ** The scan along the leaves *)

Lemma scan_leaf_spec p id prev next ks a b : leaf_page K V p id prev next ks -> sorted ks -> forall n i, (i + n = length ks)%nat ->
  exists d, scan_leaf p a b n i = (kv_range a b (drop i ks), d) /\
    if d : bool then exists e, e ∈ drop i ks /\ kle b e.1 else True.
Proof.
  intros Hp Hs. induction n as [|n IH]; intros i Hi; [exists false; by rewrite drop_ge by lia|]. cbn [scan_leaf].
  destruct (lookup_lt_is_Some_2 ks i) as [[k v] He]; [lia|]. unfold leaf_key, leaf_value. rewrite (leaf_entry_spec _ _ HW _ _ _ _ _ _ Hp), He.
  rewrite (drop_S ks _ i He). destruct (IH (S i) ltac:(lia)) as (d & E & Hd). cbn [fmap option_fmap option_map fst snd].
  destruct (bytes_ltP k a) as [Hlt|Hge].
  { exists d. rewrite E. unfold kv_range at 2. rewrite filter_cons_False; [split; [done|]|].
    - destruct d; [|done]. destruct Hd as (e & He' & Hb). exists e. split; [by right|done].
    - unfold in_range. cbn [fst]. rewrite andb_true_iff. intros [Hle _]. apply (klt_irrefl a). by eapply kle_klt_trans. }
  rewrite not_klt in Hge. destruct (bytes_leP b k) as [Hb|Hb].
  - exists true. split; [|exists (k, v); split; [apply list_elem_of_here|done]]. f_equal. symmetry. apply kv_range_nil.
    intros x Hx. right. rewrite <- (drop_S ks _ i He) in Hx. rewrite <- (take_drop i ks) in Hs. apply sorted_app in Hs as (_ & Hs & _).
    rewrite (drop_S ks _ i He) in Hx, Hs. apply sorted_cons in Hs as [_ Hs]. apply elem_of_cons in Hx as [->|Hx]; [done|].
    eapply kle_trans; [exact Hb|]. apply klt_kle, Hs, Hx.
  - exists d. rewrite E. split; [|destruct d; [|done]; destruct Hd as (e & He' & Hb'); exists e; split; [by right|done]].
    f_equal. rewrite kv_range_cons; [done|]. unfold in_range. cbn [fst]. apply andb_true_iff. split; [done|].
    destruct (klt_or k b) as [?|?]; [done|contradiction].
Qed.

Lemma scan_chain_spec S a b : forall RL id ks R fuel prev next,
  leaf_at K V S id prev next ks -> chain K V S (id :: RL) 0 -> runs S RL R -> sorted (ks ++ R) ->
  Forall page_no RL -> (length RL < fuel)%nat -> scan_chain S a b fuel id = Some (kv_range a b (ks ++ R)).
Proof.
  induction RL as [|y RL IH]; intros id ks R fuel prev next Hid Hch Hr Hs Hno Hf; (destruct fuel as [|fuel]; [cbn in Hf; lia|]); cbn [scan_chain];
    pose proof (chain_leaf _ _ HW _ _ _ _ _ _ _ Hch Hid) as Hnext; destruct Hid as (p & Hp & Hl); rewrite Hp;
    pose proof Hs as (Sk & SR & SkR)%sorted_app;
    destruct (scan_leaf_spec p id prev next ks a b Hl Sk (key_count p) 0) as (d & -> & Hd);
      try (rewrite (leaf_key_count _ _ _ _ _ _ _ Hl); lia); rewrite drop_0 in *; rewrite kv_range_app;
    (assert (if d then kv_range a b R = [] else True) as HdR;
      [destruct d; [|done]; destruct Hd as (e & He & Hb); apply kv_range_nil; intros x Hx; right;
       eapply kle_trans; [exact Hb|]; apply klt_kle; by apply SkR|]); destruct d; try (by rewrite HdR, app_nil_r);
    destruct (leaf_siblings _ _ _ _ _ _ _ Hl) as [_ ->]; rewrite Hnext.
  - cbn [runs] in Hr. subst R. by rewrite app_nil_r.
  - destruct Hr as (ks' & R' & prev' & next' & -> & Hne & Hy & Hr). apply Forall_cons in Hno as [[Hy0 _] Hno].
    destruct (Z.eqb_spec y 0); [lia|]. rewrite (IH y ks' R' fuel prev' next' Hy (proj2 Hch) Hr SR Hno) by (cbn in Hf; lia). done.
Qed.

Lemma leaves_page_no t kvs H lvs F : holds K V t kvs H lvs F -> Forall page_no lvs.
Proof.
  intros [HT _ _]. destruct (tree_dom _ _ HW _ _ _ _ _ _ _ _ HT) as (Hd & Hl & _). apply Forall_forall. intros i Hi. by apply Hd, Hl.
Qed.

(** Only a root leaf may be empty. *)
Lemma lforest_bounded T ss cs lo b k l F : lforest T ss cs lo b k l F -> ss <> [] -> b <> None.
Proof.
  induction 1 as [|s ss c cs lo b kvs1 kvs2 l1 l2 F1 F2 H1 HL IH Hd]; [done|]. intros _. destruct ss as [|s' ss]; [by inversion HL|by apply IH].
Qed.

Lemma ctx_empty S H root path id lo hi L R LL RL F : ctx K V S H root path 0 id lo hi L R LL RL F -> lo = None -> hi = None -> RL = [].
Proof.
  intros Hc -> ->. inversion Hc as [|path0 h0 p0 id0 lo0 hi0 L0 R0 LL0 RL0 G ss1 ss2 cs1 cs2 b b' k1 l1 F1 k2 l2 F2 Hc0 Hb Hp Hbr Hse HL HR]; subst; [done|].
  destruct ss1 as [|s ss1]; [|by apply lforest_bounded in HL]. destruct ss2 as [|s ss2]; [done|]. by destruct HR.
Qed.

(** The start of a scan: the leaf of [a] and what follows it. *)
Lemma scan_start t kvs a : btree_inv K V t kvs ->
  exists root id leaf ks R RL prev next, pages t !! root_page_id t = Some root /\ find_leaf (pages t) root a = Some (Some id) /\
    pages t !! id = Some leaf /\ leaf_page K V leaf id prev next ks /\ chain K V (pages t) (id :: RL) 0 /\ runs (pages t) RL R /\
    sorted (ks ++ R) /\ Forall page_no RL /\ (length RL < size (pages t))%nat /\ (forall e, e ∈ R -> klt a e.1) /\ (RL <> [] -> ks <> []) /\
    forall b, kv_range a b kvs = kv_range a b (ks ++ R).
Proof.
  intros (H & lvs & F & Hh). pose proof (leaves_in_store _ _ _ _ _ Hh) as Hsz. pose proof (leaves_page_no _ _ _ _ _ Hh) as Hno.
  destruct (holds_focus _ _ HW _ _ _ _ _ a Hh) as (root & id & leaf & path & lo & hi & ks & L & R & LL & RL & F' & Hr & _ & Hfl & [Hpg Hc Hleaf Hk Hout] & -> & -> & _).
  destruct (ctx_sides _ _ HW _ _ _ _ _ _ _ _ _ _ _ _ _ a Hc Hk) as [HL HR]. destruct (ctx_runs _ _ _ _ _ _ _ _ _ _ _ _ _ Hc) as [_ HRL].
  pose proof (tree_node_leaf _ _ HW _ _ _ _ _ _ _ _ Hleaf Hpg) as (prev & next & Hl). destruct Hh as [HT Hch _].
  apply (tree_sorted _ _ HW) in HT as [Hs _]. apply sorted_app in Hs as (_ & Hs & _). apply (chain_app _ _ HW) in Hch as [_ Hch].
  apply Forall_app in Hno as [_ Hno]. apply Forall_cons in Hno as [_ Hno]. rewrite length_app in Hsz. cbn [length] in Hsz.
  assert (RL <> [] -> ks <> []) as Hne.
  { intros HRL0 ->. destruct Hleaf as (_ & _ & _ & _ & _ & Hn & _). destruct (Hn eq_refl) as [-> ->]. apply HRL0. by eapply ctx_empty. }
  exists root, id, leaf, ks, R, RL, prev, next. split_and!; try done; [lia|].
  intros b. rewrite kv_range_app, (kv_range_nil a b L); [done|]. intros e He. left. by apply HL.
Qed.

Lemma range_search_spec t kvs a b : btree_inv K V t kvs -> range_search t a b = Some (kv_range a b kvs).
Proof.
  intros Hi. destruct (scan_start t kvs a Hi) as (root & id & leaf & ks & R & RL & prev & next & Hr & Hfl & Hpg & Hl & Hch & HRL & Hs & Hno & Hsz & _ & _ & ->).
  unfold range_search. rewrite Hr, Hfl, Some_bind. eapply scan_chain_spec; [by exists leaf|done|done|done|done|lia].
Qed.

(** ** The cursor *)

(** Entries below the end of the range. *)
Lemma range_stop (a b : list Z) e l : sorted (e :: l) -> kle b e.1 -> kv_range a b (e :: l) = [].
Proof.
  intros [_ Hs]%sorted_cons Hb. apply kv_range_nil. intros x [->|Hx]%elem_of_cons; right; [done|].
  eapply kle_trans; [exact Hb|]. by apply klt_kle, Hs.
Qed.

Lemma within_bound_spec p id prev next ks i b e : leaf_page K V p id prev next ks -> ks !! i = Some e ->
  current_within_bound (mkCursor id p i (Some b)) = bytes_lt e.1 b.
Proof.
  intros Hl He. unfold current_within_bound. cbn [current_leaf current_slot end_key]. rewrite (leaf_key_count _ _ _ _ _ _ _ Hl).
  pose proof (lookup_lt_Some _ _ _ He). destruct (Nat.leb_spec (length ks) i); [lia|]. unfold leaf_key.
  rewrite (leaf_entry_spec _ _ HW _ _ _ _ _ _ Hl), He. cbn. destruct (bytes_leP b e.1) as [H1|H1], (bytes_ltP e.1 b) as [H2|H2]; try done.
  - destruct (klt_irrefl b). by eapply kle_klt_trans.
  - rewrite not_klt in H2. contradiction.
Qed.

Lemma current_spec p id prev next ks i b e : leaf_page K V p id prev next ks -> ks !! i = Some e ->
  current (mkCursor id p i (Some b)) = if bytes_lt e.1 b then Some e else None.
Proof.
  intros Hl He. unfold current. rewrite (within_bound_spec _ _ _ _ _ _ _ _ Hl He). cbn [current_leaf current_slot].
  by rewrite (leaf_entry_spec _ _ HW _ _ _ _ _ _ Hl), He.
Qed.

(** One step of the cursor: the next entry of the leaf, or the first of the next
    leaf; [false] at the end of the range. *)
Lemma next_spec S p id prev next ks i e RL R b : S !! id = Some p -> leaf_page K V p id prev next ks -> ks !! i = Some e ->
  chain K V S (id :: RL) 0 -> runs S RL R -> Forall page_no RL ->
  match drop (i + 1) ks ++ R with
  | [] => (BTree.next S (mkCursor id p i (Some b))).1 = false
  | e' :: rest =>
      exists id' p' i' prev' next' ks' RL' R', BTree.next S (mkCursor id p i (Some b)) = (bytes_lt e'.1 b, mkCursor id' p' i' (Some b)) /\
        S !! id' = Some p' /\ leaf_page K V p' id' prev' next' ks' /\ ks' !! i' = Some e' /\ chain K V S (id' :: RL') 0 /\
        runs S RL' R' /\ Forall page_no RL' /\ drop (i' + 1) ks' ++ R' = rest
  end.
Proof.
  intros Hp Hl He Hch Hr Hno. pose proof (lookup_lt_Some _ _ _ He) as Hlt.
  unfold BTree.next. cbn [current_leaf current_slot current_leaf_id end_key]. rewrite (leaf_key_count _ _ _ _ _ _ _ Hl).
  destruct (Nat.ltb_spec (i + 1) (length ks)) as [Hi|Hi].
  - destruct (lookup_lt_is_Some_2 ks (i + 1) Hi) as [e' He']. rewrite (drop_S _ _ _ He'). cbn [app].
    exists id, p, (i + 1)%nat, prev, next, ks, RL, R. rewrite (within_bound_spec _ _ _ _ _ _ _ _ Hl He').
    split; [done|]. split; [done|]. split; [done|]. split; [done|]. split; [done|]. split; [done|]. split; [done|].
    by replace (i + 1 + 1)%nat with (Datatypes.S (i + 1)) by lia.
  - rewrite drop_ge by lia. cbn [app]. destruct (leaf_siblings _ _ _ _ _ _ _ Hl) as [_ ->].
    rewrite (chain_leaf _ _ HW _ _ _ _ _ _ _ Hch (ex_intro _ p (conj Hp Hl))). destruct RL as [|y RL]; [by cbn [runs] in Hr; subst|].
    destruct Hr as (ks' & R' & prev' & next' & -> & Hne & (p' & Hp' & Hl') & Hr). apply Forall_cons in Hno as [[Hy0 _] Hno].
    destruct (Z.eqb_spec y 0); [lia|]. rewrite Hp'. destruct ks' as [|e' ks']; [done|]. cbn [app].
    exists y, p', 0%nat, prev', next', (e' :: ks'), RL, R'. rewrite (within_bound_spec _ _ _ _ _ 0 _ e' Hl' eq_refl).
    split; [done|]. split; [done|]. split; [done|]. split; [done|]. split; [exact (proj2 Hch)|]. by split_and!.
Qed.

Lemma collect_spec S a b : forall fuel p id prev next ks i e RL R, S !! id = Some p -> leaf_page K V p id prev next ks -> ks !! i = Some e ->
  chain K V S (id :: RL) 0 -> runs S RL R -> Forall page_no RL ->
  let rest := drop (i + 1) ks ++ R in
  sorted (e :: rest) -> kle a e.1 -> (length rest < fuel)%nat ->
  collect_range S fuel (mkCursor id p i (Some b)) = Some (kv_range a b (e :: rest)).
Proof.
  induction fuel as [|fuel IH]; intros p id prev next ks i e RL R Hp Hl He Hch Hr Hno rest Hs Ha Hf; [lia|]. cbn [collect_range].
  rewrite (current_spec _ _ _ _ _ _ _ _ Hl He). destruct (bytes_ltP e.1 b) as [Hb|Hb].
  2: { rewrite not_klt in Hb. by rewrite range_stop. }
  rewrite kv_range_cons by (unfold in_range; apply andb_true_iff; by split).
  pose proof (next_spec S p id prev next ks i e RL R b Hp Hl He Hch Hr Hno) as Hnx. fold rest in Hnx.
  pose proof Hs as [Hs' Hse]%sorted_cons. destruct rest as [|e' rest'].
  - destruct (BTree.next _ _) as [m c]. cbn in Hnx. by subst m.
  - destruct Hnx as (id' & p' & i' & prev' & next' & ks' & RL' & R' & -> & Hp' & Hl' & He' & Hch' & Hr' & Hno' & Erest).
    assert (kle a e'.1) as Ha' by (eapply kle_trans; [exact Ha|]; apply klt_kle, Hse, list_elem_of_here).
    destruct (bytes_ltP e'.1 b) as [Hb'|Hb'].
    + rewrite (IH p' id' prev' next' ks' i' e' RL' R'); rewrite ?Erest; try done. cbn [length] in Hf. lia.
    + rewrite not_klt in Hb'. by rewrite range_stop.
Qed.

(** Whether the scan from [a] starts on an entry of the leaf of [a], or that leaf
    is the last one. *)
Definition start_covered (t : BPlusTree) (a : list Z) : bool :=
  match pages t !! root_page_id t with
  | None => true
  | Some root =>
      match find_leaf (pages t) root a with
      | Some (Some id) =>
          match pages t !! id with
          | Some leaf => (leaf_lower_bound leaf a <? key_count leaf)%nat || (sibling_next (btree_header leaf) =? 0)
          | None => true
          end
      | _ => true
      end
  end.

Lemma runs_length S : forall l k, runs S l k -> (length k <= length l * 578)%nat.
Proof.
  induction l as [|x l IH]; intros k; cbn [runs]; [by intros ->|]. intros (ks & rest & prev & next & -> & _ & (p & _ & Hl) & Hr).
  apply IH in Hr. apply leaf_fits in Hl. unfold leaf_size, rec_len in Hl. destruct HW as [? ?]. rewrite length_app. cbn [length].
  assert (length ks <= 578)%nat by nia. lia.
Qed.

Lemma into_range_spec t kvs a b : btree_inv K V t kvs ->
  into_range t a b = Some (if start_covered t a then kv_range a b kvs else []).
Proof.
  intros Hi. destruct (scan_start t kvs a Hi) as (root & id & leaf & ks & R & RL & prev & next & Hr & Hfl & Hpg & Hl & Hch & HRL & Hs & Hno & Hsz & HR & _ & ->).
  unfold into_range, cursor_from, start_covered. rewrite Hr, Hfl, Some_bind, Hpg. cbn [fmap option_fmap option_map]. rewrite Some_bind.
  pose proof Hs as (Sk & _ & _)%sorted_app. destruct (leaf_place K V HW leaf id prev next ks a Hl Sk) as (l1 & l2 & -> & Elb & Een & Hl1 & Hcase).
  unfold cursor_new. rewrite Elb, (leaf_key_count _ _ _ _ _ _ _ Hl), length_app.
  destruct (leaf_siblings _ _ _ _ _ _ _ Hl) as [_ ->]. destruct l2 as [|e l2].
  - cbn [length]. rewrite Nat.add_0_r, Nat.ltb_irrefl. cbn [orb].
    assert (collect_range (pages t) (collect_fuel (pages t)) (mkCursor id leaf (length l1) (Some b)) = Some []) as ->.
    { unfold collect_fuel. cbn [collect_range]. unfold current, current_within_bound. cbn [current_leaf current_slot].
      rewrite (leaf_key_count _ _ _ _ _ _ _ Hl), app_nil_r, Nat.leb_refl. done. }
    destruct (Z.eqb_spec next 0) as [->|]; [|done]. pose proof (chain_leaf _ _ HW _ _ _ _ _ _ _ Hch (ex_intro _ leaf (conj Hpg Hl))) as Hn.
    destruct RL as [|y RL]; [|subst y; apply Forall_cons in Hno as [[? _] _]; lia]. cbn [runs] in HRL. subst R. rewrite !app_nil_r.
    rewrite kv_range_nil; [done|]. intros e He. left. by apply Hl1.
  - destruct (Nat.ltb_spec (length l1) (length l1 + length (e :: l2))) as [_|Hn]; [|cbn in Hn; lia]. cbn [orb].
    assert ((l1 ++ e :: l2) !! length l1 = Some e) as He by (rewrite lookup_app_r, Nat.sub_diag by lia; done).
    assert (drop (length l1 + 1) (l1 ++ e :: l2) = l2) as Hdr by (rewrite (cons_middle e l1 l2), app_assoc, drop_app_length' by (rewrite length_app; done); done).
    pose proof Hs as (_ & _ & _)%sorted_app. rewrite <- app_assoc in Hs. apply sorted_app in Hs as (_ & Hs & _). cbn [app] in Hs.
    assert (kle a e.1) as Ha. { destruct Hcase as [(v & l2' & [= -> ->] & _)|[H2 _]]; [apply kle_refl|apply klt_kle, H2, list_elem_of_here]. }
    rewrite (collect_spec (pages t) a b _ leaf id prev next (l1 ++ e :: l2) (length l1) e RL R); rewrite ?Hdr; try done.
    + rewrite <- app_assoc, kv_range_app, (kv_range_nil a b l1); [done|]. intros x Hx. left. by apply Hl1.
    + pose proof (runs_length _ _ _ HRL). apply leaf_fits in Hl. unfold leaf_size, rec_len in Hl. destruct HW as [? ?]. rewrite length_app in *. cbn [length] in Hl.
      unfold collect_fuel. assert (length l2 <= 578)%nat by nia. nia.
Qed.

(** ** Seeking forward *)

Lemma head_range_skip k b l1 l2 : (forall e : kv, e ∈ l1 -> klt e.1 k) -> kv_range k b (l1 ++ l2) = kv_range k b l2.
Proof. intros H. rewrite kv_range_app, (kv_range_nil k b l1); [done|]. intros e He. left. by apply H. Qed.

(** The last key of a leaf decides whether the whole leaf is below [k]. *)
Lemma leaf_below_spec p id prev next ks k : leaf_page K V p id prev next ks -> sorted ks ->
  let count := key_count p in
  if (0 <? count)%nat && match leaf_key p (count - 1) with Some lk => bytes_lt lk k | None => false end
  then forall e, e ∈ ks -> klt e.1 k
  else ks = [] \/ exists l e, ks = l ++ [e] /\ kle k e.1.
Proof.
  intros Hl Hs count. unfold count. rewrite (leaf_key_count _ _ _ _ _ _ _ Hl). unfold leaf_key. rewrite (leaf_entry_spec _ _ HW _ _ _ _ _ _ Hl).
  destruct ks as [|e l _] using rev_ind; [by left|]. rewrite length_app. cbn [length]. replace (length l + 1 - 1)%nat with (length l) by lia.
  destruct (Nat.ltb_spec 0 (length l + 1)); [|lia]. rewrite lookup_app_r, Nat.sub_diag by lia. cbn.
  apply sorted_app in Hs as (_ & _ & Hs). destruct (bytes_ltP e.1 k) as [Hlt|Hge].
  - intros x [Hx|Hx]%elem_of_app; [|apply list_elem_of_singleton in Hx; by subst]. eapply klt_trans; [|exact Hlt]. apply Hs; [done|by apply list_elem_of_singleton].
  - right. exists l, e. split; [done|]. by apply not_klt.
Qed.

Lemma seek_in_leaf p id prev next ks R b k : leaf_page K V p id prev next ks -> sorted (ks ++ R) ->
  (ks = [] /\ R = []) \/ (exists l e, ks = l ++ [e] /\ kle k e.1) ->
  let c := mkCursor id p (leaf_lower_bound p k) (Some b) in
  current c = head (kv_range k b (ks ++ R)) /\ current_within_bound c = match current c with Some _ => true | None => false end.
Proof.
  intros Hl Hs Hcase c. pose proof Hs as (Sk & _ & _)%sorted_app. destruct (leaf_place K V HW p id prev next ks k Hl Sk) as (l1 & l2 & -> & Elb & _ & Hl1 & Hl2).
  unfold c. rewrite Elb. rewrite <- app_assoc in Hs |- *. rewrite head_range_skip by done. destruct l2 as [|e l2].
  - assert (current_within_bound (mkCursor id p (length l1) (Some b)) = false) as Hw.
    { unfold current_within_bound. cbn [current_leaf current_slot]. by rewrite (leaf_key_count _ _ _ _ _ _ _ Hl), app_nil_r, Nat.leb_refl. }
    unfold current. rewrite Hw. split; [|done]. destruct Hcase as [[_ ->]|(l & e & E & Hk)]; [done|]. rewrite app_nil_r in E. subst l1.
    destruct (klt_irrefl k). eapply kle_klt_trans; [exact Hk|]. apply Hl1, elem_of_app. right. by apply list_elem_of_singleton.
  - assert ((l1 ++ e :: l2) !! length l1 = Some e) as He by (rewrite lookup_app_r, Nat.sub_diag by lia; done).
    rewrite (current_spec _ _ _ _ _ _ b _ Hl He), (within_bound_spec _ _ _ _ _ _ b _ Hl He). apply sorted_app in Hs as (_ & Hs & _). cbn [app] in *.
    assert (kle k e.1) as Hk. { destruct Hl2 as [(v & l2' & [= -> ->] & _)|[H2 _]]; [apply kle_refl|apply klt_kle, H2, list_elem_of_here]. }
    destruct (bytes_ltP e.1 b) as [Hb|Hb].
    + rewrite kv_range_cons by (unfold in_range; apply andb_true_iff; by split). done.
    + rewrite not_klt in Hb. by rewrite range_stop.
Qed.

Lemma advance_loop_spec S b k : forall RL fuel p id i prev next ks R, S !! id = Some p -> leaf_page K V p id prev next ks ->
  chain K V S (id :: RL) 0 -> runs S RL R -> Forall page_no RL -> sorted (ks ++ R) -> (RL <> [] -> ks <> []) -> (length RL < fuel)%nat ->
  exists more c, advance_loop S fuel (mkCursor id p i (Some b)) k = Some (more, c) /\ current c = head (kv_range k b (ks ++ R)) /\
    more = match current c with Some _ => true | None => false end.
Proof.
  induction RL as [|y RL IH]; intros fuel p id i prev next ks R Hp Hl Hch Hr Hno Hs Hne Hf; (destruct fuel as [|fuel]; [cbn in Hf; lia|]);
    cbn [advance_loop]; cbn [current_leaf current_leaf_id end_key]; pose proof Hs as (Sk & SR & SkR)%sorted_app;
    pose proof (leaf_below_spec p id prev next ks k Hl Sk) as Hb; cbv zeta in Hb |- *;
    pose proof (chain_leaf _ _ HW _ _ _ _ _ _ _ Hch (ex_intro _ p (conj Hp Hl))) as Hnx; destruct (leaf_siblings _ _ _ _ _ _ _ Hl) as [_ Esn];
    destruct (_ && _).
  1,3: rewrite Esn, Hnx.
  - cbn [runs] in Hr. subst R. cbn [Z.eqb]. eexists _, _. split; [reflexivity|]. unfold current, current_within_bound. cbn [current_leaf current_slot].
    rewrite Nat.leb_refl. split; [|done]. by rewrite head_range_skip by done.
  - destruct Hr as (ks' & R' & prev' & next' & -> & Hne' & (p' & Hp' & Hl') & Hr). apply Forall_cons in Hno as [[Hy0 _] Hno].
    destruct (Z.eqb_spec y 0); [lia|]. rewrite Hp', head_range_skip by done. eapply IH; [done|done|exact (proj2 Hch)|done|done|done|done|cbn in Hf; lia].
  - eexists _, _. split; [reflexivity|]. cbn [runs] in Hr. eapply seek_in_leaf; [done|done|]. destruct Hb as [->|Hb]; [by left|by right].
  - eexists _, _. split; [reflexivity|]. eapply seek_in_leaf; [done|done|]. destruct Hb as [->|Hb]; [by destruct Hne|by right].
Qed.

Lemma cursor_seek_spec t kvs a b k c : btree_inv K V t kvs -> cursor_from t a (Some b) = Some (Some c) -> kle a k ->
  exists more c', advance_to (pages t) c k = Some (more, c') /\ current c' = head (kv_range k b kvs) /\
    more = match current c' with Some _ => true | None => false end.
Proof.
  intros Hi Hcur Hak. destruct (scan_start t kvs a Hi) as (root & id & leaf & ks & R & RL & prev & next & Hr & Hfl & Hpg & Hl & Hch & HRL & Hs & Hno & Hsz & HR & Hne & Hrg).
  unfold cursor_from in Hcur. rewrite Hr, Hfl, Some_bind, Hpg in Hcur. cbn in Hcur. injection Hcur as <-.
  assert (kv_range k b kvs = kv_range k b (ks ++ R)) as ->.
  { rewrite <- (range_sub a k b kvs Hak), <- (range_sub a k b (ks ++ R) Hak). by rewrite Hrg. }
  unfold advance_to, cursor_new. eapply advance_loop_spec; try done. lia.
Qed.
End Range.
