(* ===== verification/BTreeDelete.v ===== *)
(** * Deletes from the B+ tree

    A delete removes a record from its leaf; an underfull node borrows an entry
    from a sibling or merges with one, up to the root, which loses a level when
    one child is left.  On the sorted list of entries it is the removal from a
    map. *)

From stdpp Require Import prelude list gmap sorting.
From Stdlib Require Import ZArith Lia.
From S2P Require Import Prelude Bytes SlottedPage BTreePage Key BTree BTreeNode BTreeSpec BTreeInsert.

(** ** Sizes *)

Lemma sum_replicate n r : sum_list (replicate n r) = (n * r)%nat.
Proof. induction n as [|n IH]; [done|]. change (sum_list (replicate (S n) r)) with (r + sum_list (replicate n r))%nat. lia. Qed.

Lemma max_replicate n r : max_list (replicate n r) = match n with O => 0%nat | _ => r end.
Proof. induction n as [|n IH]; [done|]. change (max_list (replicate (S n) r)) with (r `max` max_list (replicate n r))%nat. destruct n; lia. Qed.

Lemma lengths_replicate (l : list (list Z)) r : Forall (fun x => length x = r) l -> length <$> l = replicate (length l) r.
Proof. induction 1 as [|x l Hx Hl IH]; [done|]. cbn. by rewrite Hx, IH. Qed.

Lemma app_around2 {A} (a1 a2 x b1 b2 : list A) : (a1 ++ a2) ++ x ++ b1 ++ b2 = a1 ++ (a2 ++ x ++ b1) ++ b2.
Proof. by rewrite <- !app_assoc. Qed.

Lemma app_pair_l {A} (a1 a2 x y b1 b2 : list A) : (a1 ++ a2 ++ x) ++ y ++ b1 ++ b2 = a1 ++ (a2 ++ (x ++ y) ++ b1) ++ b2.
Proof. by rewrite <- !app_assoc. Qed.

Lemma app_pair_r {A} (a1 a2 x y b1 b2 : list A) : (a1 ++ a2) ++ x ++ (y ++ b1) ++ b2 = a1 ++ (a2 ++ (x ++ y) ++ b1) ++ b2.
Proof. by rewrite <- !app_assoc. Qed.

Definition freed (u : BPlusTree) (i : Z) : BPlusTree :=
  mkTree (root_page_id u) (base.delete i (pages u)) (next_page_id u) (next_lsn u) (dirty_recorder u).

Lemma free_ok (u : BPlusTree) (i : Z) : free_page i u = Some (Ok tt, freed u i).
Proof. done. Qed.

Lemma freed_other (u : BPlusTree) (i j : Z) : j <> i -> pages (freed u i) !! j = pages u !! j.
Proof. intros Hj. cbn [pages freed]. by rewrite lookup_delete_ne. Qed.

Section Delete.
Context (K V : nat) (HW : widths_ok K V).
#[local] Set Default Proof Using "K V HW".

Notation is_underfull := (is_underfull config_default).
Notation can_lend := (can_lend config_default).

Lemma node_sizes p id t h rs r : is_node p id t h rs -> Forall (fun x => length x = r) rs ->
  record_sizes p = replicate (length rs) r.
Proof.
  intros [Hb _] Hr. unfold record_sizes. pose proof (node_slot_count _ _ _ _ _ Hb) as Hc.
  rewrite (live_records_spec p (Some <$> rs) (nd_ok _ _ _ _ _ Hb) (nd_contents _ _ _ _ _ Hb)) by (rewrite length_fmap; lia).
  rewrite drop_0, take_ge by (rewrite length_fmap; lia). rewrite <- lengths_replicate by done. f_equal.
  clear. induction rs as [|x rs IH]; [done|]. cbn. by f_equal.
Qed.

(** Entries that leave a node below the fill limit. *)
Definition low (n r : Z) : Prop := n * r * 10 < 3 * 8096.

Lemma below_min_spec b : below_min config_default b = (b * 10 <? 3 * 8096).
Proof. done. Qed.

Lemma node_underfull p id t h rs r : is_node p id t h rs -> Forall (fun x => length x = r) rs ->
  if is_underfull p then low (Z.of_nat (length rs)) (Z.of_nat r) else length rs <> 0%nat.
Proof.
  intros Hn Hr. unfold BTree.is_underfull. rewrite (node_key_count _ _ _ _ _ Hn), (node_sizes _ _ _ _ _ _ Hn Hr), sum_replicate, below_min_spec.
  change (usable config_default <=? 0) with false. cbv iota. destruct (Nat.eqb_spec (length rs) 0) as [->|E]; cbn [orb]; [unfold low; cbn; lia|].
  destruct (Z.ltb_spec (Z.of_nat (length rs * r) * 10) (3 * 8096)); [unfold low; lia|done].
Qed.

Lemma node_can_lend p id t h rs r : is_node p id t h rs -> Forall (fun x => length x = r) rs ->
  if can_lend p then (2 <= length rs)%nat else low (Z.of_nat (length rs) - 1) (Z.of_nat r).
Proof.
  intros Hn Hr. unfold BTree.can_lend. rewrite (node_key_count _ _ _ _ _ Hn), (node_sizes _ _ _ _ _ _ Hn Hr), sum_replicate, max_replicate, length_replicate, below_min_spec.
  cbv zeta. destruct (Nat.leb_spec (length rs) 1) as [H1|H1].
  { unfold low. destruct (length rs) as [|[|]]; cbn; nia. }
  destruct (Z.ltb_spec (Z.of_nat (length rs * r - match length rs with O => 0 | S _ => r end)%nat * 10) (3 * 8096)) as [Hlt|Hge]; cbn [negb]; [|lia].
  unfold low. destruct (length rs) as [|n]; [lia|]. nia.
Qed.

(** Leaves and branches as nodes of records of one size. *)
Lemma leaf_widths kvs : Forall (entry_ok K V) kvs -> Forall (fun x => length x = rec_len K V) (enc <$> kvs).
Proof. intros H. apply Forall_fmap. eapply Forall_impl; [exact H|]. intros e He. by apply length_enc. Qed.

Lemma leaf_low p id prev next kvs : leaf_page K V p id prev next kvs ->
  if is_underfull p then low (Z.of_nat (length kvs)) (Z.of_nat (rec_len K V)) else kvs <> [].
Proof.
  intros (h & Hn & _ & _ & Hok). pose proof (node_underfull _ _ _ _ _ _ Hn (leaf_widths _ Hok)) as H. rewrite length_fmap in H.
  destruct (is_underfull p); [done|]. by intros ->.
Qed.

Lemma leaf_lend p id prev next kvs : leaf_page K V p id prev next kvs ->
  if can_lend p then (2 <= length kvs)%nat else low (Z.of_nat (length kvs) - 1) (Z.of_nat (rec_len K V)).
Proof.
  intros (h & Hn & _ & _ & Hok). pose proof (node_can_lend _ _ _ _ _ _ Hn (leaf_widths _ Hok)) as H. by rewrite length_fmap in H.
Qed.

Lemma branch_widths seps children : Forall (key_ok K) seps -> (length seps <= length children)%nat ->
  Forall (fun x => length x = (K + 8)%nat) (zip_with encode_branch_entry seps children) /\
  length (zip_with encode_branch_entry seps children) = length seps.
Proof.
  revert children. induction seps as [|s seps IH]; intros children Hk Hl; [by split; [constructor|]|].
  destruct children as [|c children]; [cbn in Hl; lia|]. apply Forall_cons in Hk as [Hs Hk]. cbn [zip_with length] in *.
  destruct (IH children Hk ltac:(lia)) as [I1 I2]. split; [|by rewrite I2]. constructor; [|done]. by apply length_branch_entry.
Qed.

Lemma branch_low p id seps children : branch_page K p id seps children ->
  if is_underfull p then low (Z.of_nat (length seps)) (Z.of_nat (K + 8)) else seps <> [].
Proof.
  intros (h & Hn & _ & Hl & Hk & _). destruct (branch_widths seps children Hk ltac:(lia)) as [W E].
  pose proof (node_underfull _ _ _ _ _ _ Hn W) as H. rewrite E in H. destruct (is_underfull p); [done|]. by intros ->.
Qed.

Lemma branch_lend p id seps children : branch_page K p id seps children ->
  if can_lend p then (2 <= length seps)%nat else low (Z.of_nat (length seps) - 1) (Z.of_nat (K + 8)).
Proof.
  intros (h & Hn & _ & Hl & Hk & _). destruct (branch_widths seps children Hk ltac:(lia)) as [W E].
  pose proof (node_can_lend _ _ _ _ _ _ Hn W) as H. by rewrite E in H.
Qed.

Lemma branch_underfull_eq p q id id' seps children children' : branch_page K p id seps children -> branch_page K q id' seps children' ->
  is_underfull p = is_underfull q.
Proof.
  intros (h & Hn & _ & Hl & Hk & _) (h' & Hn' & _ & Hl' & _ & _). destruct (branch_widths seps children Hk ltac:(lia)) as [W E].
  destruct (branch_widths seps children' Hk ltac:(lia)) as [W' E']. unfold BTree.is_underfull.
  by rewrite (node_key_count _ _ _ _ _ Hn), (node_key_count _ _ _ _ _ Hn'), (node_sizes _ _ _ _ _ _ Hn W), (node_sizes _ _ _ _ _ _ Hn' W'), E, E'.
Qed.

(** An underfull node has room for one more entry, and for the entries of a
    sibling that cannot lend. *)
Lemma leaf_gain n : low (Z.of_nat n) (Z.of_nat (rec_len K V)) -> leaf_size K V (S n) <= 8096.
Proof. destruct HW as [? ?]. unfold low, leaf_size, rec_len. nia. Qed.

Lemma leaf_merge m n : low (Z.of_nat m - 1) (Z.of_nat (rec_len K V)) -> low (Z.of_nat n) (Z.of_nat (rec_len K V)) ->
  leaf_size K V (m + n) <= 8096.
Proof.
  destruct HW as [HK HR]. unfold low, leaf_size, rec_len. intros H1 H2. set (r := Z.of_nat (2 + K + V)) in *.
  assert (10 <= r <= 2048) as Hr by (unfold r; lia). set (q := Z.of_nat (m + n) - 1). assert (q * r * 10 < 2 * 3 * 8096) as Hq by (unfold q; lia).
  replace (Z.of_nat (m + n)) with (q + 1) by lia. clearbody q r. destruct (Z.le_gt_cases r 1292); [|]; nia.
Qed.

Lemma branch_gain n : low (Z.of_nat n) (Z.of_nat (K + 8)) -> branch_size K (S n) <= 8096.
Proof. destruct HW as [? ?]. unfold low, branch_size. nia. Qed.

Lemma branch_merge m n : low (Z.of_nat m - 1) (Z.of_nat (K + 8)) -> low (Z.of_nat n) (Z.of_nat (K + 8)) ->
  branch_size K (m + S n) <= 8096.
Proof.
  destruct HW as [HK HR]. unfold low, branch_size. intros H1 H2. set (r := Z.of_nat (K + 8)) in *.
  assert (16 <= r <= 1008) as Hr by (unfold r; lia). set (q := Z.of_nat (m + n) - 1). assert (q * r * 10 < 2 * 3 * 8096) as Hq by (unfold q; lia).
  replace (Z.of_nat (m + S n)) with (q + 2) by lia. replace (Z.of_nat K + 12) with (r + 4) by lia. clearbody q r. nia.
Qed.

(** ** Nodes that may be empty *)

Definition wtree (S : gmap Z Page) (h : nat) (id : Z) (lo hi : bound) (kvs : list kv) (lvs : list Z) (F : gset Z) : Prop :=
  bounds_ok lo hi /\ page_no id /\
  match h with
  | O => (exists prev next, leaf_at K V S id prev next kvs) /\ sorted kvs /\ Forall (fun e => within lo hi e.1) kvs /\ lvs = [id] /\ F = {[id]}
  | Datatypes.S h =>
      exists seps children F', branch_at K S id seps children /\ forest (tree K V S h) seps children lo hi kvs lvs F' /\ id ∉ F' /\ F = {[id]} ∪ F'
  end.

Lemma tree_wtree S h id lo hi kvs lvs F : tree K V S h id lo hi kvs lvs F -> wtree S h id lo hi kvs lvs F.
Proof.
  destruct h; cbn [tree wtree]; [intros (H1 & H2 & H3 & H4 & H5 & _ & H6 & H7); by split_and!|].
  intros (H1 & H2 & seps & children & F' & H3 & _ & H4 & H5 & H6). split; [done|]. split; [done|]. by exists seps, children, F'.
Qed.

Lemma leaf_tree S id lo hi prev next kvs : leaf_at K V S id prev next kvs -> page_no id -> sorted kvs ->
  Forall (fun e => within lo hi e.1) kvs -> kvs <> [] -> tree K V S 0 id lo hi kvs [id] {[id]}.
Proof.
  intros Hl Hno Hs Hw Hne. split; [|split; [done|]; split; [by exists prev, next|]; by split_and!].
  destruct kvs as [|e kvs]; [done|]. apply Forall_cons in Hw as [He _]. by eapply within_ok.
Qed.

(** The leaf of a page that changed keeps its place in the chain. *)
Definition keeps_next (S S' : gmap Z Page) (i : Z) : Prop :=
  forall prev next ks, leaf_at K V S i prev next ks -> exists prev' ks', leaf_at K V S' i prev' next ks'.

Lemma chain_keeps S S' l e : (forall i, i ∈ l -> keeps_next S S' i) -> chain K V S l e -> chain K V S' l e.
Proof.
  induction l as [|x l IH]; [done|]. intros HS [(prev & kvs & Hx) Hl]. split; [by eapply HS; [apply list_elem_of_here|exact Hx]|].
  apply IH; [|done]. intros i Hi. apply HS. by right.
Qed.

Lemma keeps_same S S' i : S' !! i = S !! i -> keeps_next S S' i.
Proof. intros E prev next ks (p & Hp & Hl). exists prev, ks, p. by rewrite E. Qed.

Lemma keeps_branch S S' i seps children : branch_at K S i seps children -> keeps_next S S' i.
Proof.
  intros (p & Hp & Hb) prev next ks (q & Hq & Hl). rewrite Hp in Hq. injection Hq as <-.
  apply branch_is_branch in Hb as [_ Hb]. apply leaf_is_leaf in Hl as [_ Hl]. congruence.
Qed.

Lemma keeps_leaf S S' i prev next ks prev' ks' : leaf_at K V S i prev next ks -> leaf_at K V S' i prev' next ks' -> keeps_next S S' i.
Proof.
  intros (p & Hp & Hl) H' pr nx k (q & Hq & Hl'). rewrite Hp in Hq. injection Hq as <-.
  destruct (leaf_page_det _ _ HW _ _ _ _ _ _ _ _ _ Hl Hl') as [<- _]. eauto.
Qed.

(** ** Borrowing *)

(** Siblings [c] and [d] after entries moved between them; [s'] separates them. *)
Definition rebalanced (t t' : BPlusTree) (h : nat) (c d : Z) (b b' : bound) (s' : list Z) (kvs : list kv) (lvs : list Z) (F : gset Z) : Prop :=
  (exists kc lc Fc kd ld Fd, tree K V (pages t') h c b (Some s') kc lc Fc /\ tree K V (pages t') h d (Some s') b' kd ld Fd /\
     Fc ## Fd /\ kvs = kc ++ kd /\ lvs = lc ++ ld /\ F = Fc ∪ Fd) /\
  key_ok K s' /\ root_page_id t' = root_page_id t /\ next_page_id t' = next_page_id t /\
  (forall i, i <> c -> i <> d -> pages t' !! i = pages t !! i) /\ (forall i, keeps_next (pages t) (pages t') i).

Lemma pair_sorted b s b' (kc kd : list kv) : bounds_ok b (Some s) -> bounds_ok (Some s) b' -> sorted kc -> sorted kd ->
  Forall (fun e => within b (Some s) e.1) kc -> Forall (fun e => within (Some s) b' e.1) kd ->
  sorted (kc ++ kd) /\ Forall (fun e => within b b' e.1) (kc ++ kd).
Proof.
  intros B1 B2 S1 S2 W1 W2. rewrite Forall_forall in W1. rewrite Forall_forall in W2. split.
  - apply sorted_app. split; [done|]. split; [done|]. intros x y Hx Hy. destruct (W1 x Hx) as [_ Hxs]. destruct (W2 y Hy) as [Hys _].
    by eapply klt_kle_trans.
  - apply Forall_app. split; apply Forall_forall; intros e He.
    + destruct (W1 e He) as [H1 H2]. split; [done|]. destruct b'; [|done]. by eapply klt_trans.
    + destruct (W2 e He) as [H1 H2]. split; [|done]. destruct b; [|done]. cbn in *. apply klt_kle. by eapply klt_kle_trans.
Qed.

Lemma cut_bounds lo hi (A : list kv) e B : sorted (A ++ e :: B) -> Forall (fun e => within lo hi e.1) (A ++ e :: B) ->
  sorted A /\ sorted (e :: B) /\ Forall (fun x => within lo (Some e.1) x.1) A /\ Forall (fun x => within (Some e.1) hi x.1) (e :: B).
Proof.
  intros (SA & SB & SAB)%sorted_app [WA WB]%Forall_app. split; [done|]. split; [done|]. rewrite Forall_forall in WA. rewrite Forall_forall in WB.
  split; apply Forall_forall; intros x Hx.
  - split; [by apply WA|]. apply SAB; [done|apply list_elem_of_here].
  - split; [|by apply WB]. apply sorted_cons in SB as [_ SB]. apply elem_of_cons in Hx as [->|Hx]; [apply kle_refl|by apply klt_kle, SB].
Qed.

(** Two leaves rewritten with the same entries, cut before [e]. *)
Lemma leaves_rebalanced t c d b b' pc nc pd nd kc kd pc' pd' qc qd A e B : c <> d -> page_no c -> page_no d ->
  leaf_at K V (pages t) c pc nc kc -> leaf_at K V (pages t) d pd nd kd ->
  leaf_page K V qc c pc' nc A -> leaf_page K V qd d pd' nd (e :: B) -> A <> [] ->
  sorted (A ++ e :: B) -> Forall (fun e => within b b' e.1) (A ++ e :: B) ->
  rebalanced t (put (put t c qc) d qd) 0 c d b b' e.1 (A ++ e :: B) [c; d] ({[c]} ∪ {[d]}).
Proof.
  intros Hcd Hnc Hnd Hlc Hld Hqc Hqd Hne Hs Hw. destruct (cut_bounds _ _ _ _ _ Hs Hw) as (SA & SB & WA & WB).
  assert (leaf_at K V (pages (put (put t c qc) d qd)) c pc' nc A) as LC.
  { destruct (put_leaf_at K V HW t c qc _ _ _ Hqc) as (q & Hq & Hlq). exists q. split; [|done]. by rewrite put_other. }
  assert (leaf_at K V (pages (put (put t c qc) d qd)) d pd' nd (e :: B)) as LD by (by apply put_leaf_at).
  pose proof Hqd as (hd & _ & _ & _ & Hok). apply Forall_cons in Hok as [[Hek _] _].
  split; [|split; [done|split; [done|split; [done|split]]]].
  - exists A, [c], {[c]}, (e :: B), [d], {[d]}. split; [by eapply leaf_tree|]. split; [by eapply leaf_tree|].
    split; [clear -Hcd; set_solver|]. done.
  - intros i H1 H2. by rewrite !put_other.
  - intros i. destruct (decide (i = d)) as [->|Hd]; [by eapply keeps_leaf|]. destruct (decide (i = c)) as [->|Hc]; [by eapply keeps_leaf|].
    apply keeps_same. by rewrite !put_other.
Qed.

Lemma leaf_record_key_enc e : entry_ok K V e -> leaf_record_key (enc e) = e.1.
Proof. intros He. unfold leaf_record_key. rewrite (decode_enc K V) by done. by destruct e. Qed.

Lemma ok_or_ok {A} (o : option A) e t a : o = Some a -> ok_or o e t = Some (Ok a, t).
Proof. by intros ->. Qed.

Lemma borrow_leaf_left t c d s b b' pc pd lc Fc ld Fd kc kd : c <> d -> pages t !! c = Some pc -> pages t !! d = Some pd ->
  tree K V (pages t) 0 c b (Some s) kc lc Fc -> wtree (pages t) 0 d (Some s) b' kd ld Fd ->
  can_lend pc = true -> is_underfull pd = true ->
  exists s' t', borrow_leaf_from_left c d t = Some (Ok s', t') /\ rebalanced t t' 0 c d b b' s' (kc ++ kd) (lc ++ ld) (Fc ∪ Fd).
Proof.
  intros Hcd Hpc Hpd (Bc & Nc & (prc & nxc & HLc) & Sc & Wc & _ & -> & ->) (Bd & Nd & (prd & nxd & HLd) & Sd & Wd & -> & ->) Hlend Hunder.
  pose proof HLc as (p1 & E1 & Hl1). rewrite Hpc in E1. injection E1 as <-. pose proof HLd as (p2 & E2 & Hl2). rewrite Hpd in E2. injection E2 as <-.
  pose proof (leaf_lend _ _ _ _ _ Hl1) as H2. rewrite Hlend in H2. pose proof (leaf_low _ _ _ _ _ Hl2) as Hlow. rewrite Hunder in Hlow. apply leaf_gain in Hlow.
  destruct kc as [|e l _] using rev_ind; [cbn in H2; lia|]. rewrite length_app in H2. cbn [length] in H2.
  destruct (pair_sorted b s b' _ kd Bc Bd Sc Sd Wc Wd) as [Hs Hw]. rewrite <- app_assoc in Hs, Hw |- *. cbn [app] in Hs, Hw |- *.
  pose proof Hl1 as (h1 & _ & _ & _ & Hok). apply Forall_app in Hok as [_ He]. apply Forall_cons in He as [He _].
  destruct (delete_leaf K V HW pc c prc nxc l e [] Hl1) as (qc & Eqc & Hqc); [unfold page_no, uint in *; lia|]. rewrite app_nil_r in Hqc.
  destruct (insert_leaf K V HW pd d prd nxd [] kd e Hl2 He Hlow) as (qd & Eqd & Hqd). cbn [app length] in Eqd, Hqd.
  unfold borrow_leaf_from_left. erewrite bind_ok by (by apply get_page_or_ok). erewrite bind_ok by (by apply get_page_or_ok). cbv beta zeta.
  assert ((key_count pc - 1)%nat = length l) as Elast by (rewrite (leaf_key_count _ _ _ _ _ _ _ Hl1), length_app; cbn; lia). rewrite Elast.
  assert (key pc (length l) = Some (enc e)) as Ekey by (rewrite (leaf_key_rec _ _ _ _ _ _ _ _ Hl1), lookup_app_r, Nat.sub_diag by lia; done).
  erewrite bind_ok by (apply ok_or_ok; exact Ekey). erewrite bind_ok by (apply try_ok; exact Eqc). cbv beta iota.
  erewrite bind_ok by (apply try_ok; exact Eqd). cbv beta iota. erewrite bind_ok by apply put_ok. erewrite bind_ok by apply put_ok.
  rewrite leaf_record_key_enc by done. eexists _, _. split; [reflexivity|].
  eapply leaves_rebalanced; try done. destruct l; [cbn in H2; lia|done].
Qed.

Lemma borrow_leaf_right t c d s b b' pc pd lc Fc ld Fd kc kd : c <> d -> pages t !! c = Some pc -> pages t !! d = Some pd ->
  wtree (pages t) 0 c b (Some s) kc lc Fc -> tree K V (pages t) 0 d (Some s) b' kd ld Fd ->
  is_underfull pc = true -> can_lend pd = true ->
  exists s' t', borrow_leaf_from_right c d t = Some (Ok s', t') /\ rebalanced t t' 0 c d b b' s' (kc ++ kd) (lc ++ ld) (Fc ∪ Fd).
Proof.
  intros Hcd Hpc Hpd (Bc & Nc & (prc & nxc & HLc) & Sc & Wc & -> & ->) (Bd & Nd & (prd & nxd & HLd) & Sd & Wd & _ & -> & ->) Hunder Hlend.
  pose proof HLc as (p1 & E1 & Hl1). rewrite Hpc in E1. injection E1 as <-. pose proof HLd as (p2 & E2 & Hl2). rewrite Hpd in E2. injection E2 as <-.
  pose proof (leaf_lend _ _ _ _ _ Hl2) as H2. rewrite Hlend in H2. pose proof (leaf_low _ _ _ _ _ Hl1) as Hlow. rewrite Hunder in Hlow. apply leaf_gain in Hlow.
  destruct kd as [|e [|e2 l]]; [cbn in H2; lia..|].
  destruct (pair_sorted b s b' kc _ Bc Bd Sc Sd Wc Wd) as [Hs Hw]. rewrite (cons_middle e kc), app_assoc in Hs, Hw |- *.
  pose proof Hl2 as (h1 & _ & _ & _ & Hok). apply Forall_cons in Hok as [He Hok]. apply Forall_cons in Hok as [He2 _].
  destruct (delete_leaf K V HW pd d prd nxd [] e (e2 :: l) Hl2) as (qd & Eqd & Hqd); [unfold page_no, uint in *; lia|]. cbn [app length] in Eqd, Hqd.
  destruct (append_leaf K V HW pc c prc nxc kc e Hl1 He Hlow) as (qc & Eqc & Hqc).
  unfold borrow_leaf_from_right. erewrite bind_ok by (by apply get_page_or_ok). erewrite bind_ok by (by apply get_page_or_ok). cbv beta zeta.
  assert (key pd 0 = Some (enc e)) as Ekey by (rewrite (leaf_key_rec _ _ _ _ _ _ _ _ Hl2); done).
  assert (key qd 0 = Some (enc e2)) as Ekey2 by (rewrite (leaf_key_rec _ _ _ _ _ _ _ _ Hqd); done).
  erewrite bind_ok by (apply ok_or_ok; exact Ekey). erewrite bind_ok by (apply try_ok; exact Eqd). cbv beta iota.
  erewrite bind_ok by (apply try_ok; exact Eqc). cbv beta iota. erewrite bind_ok by (apply ok_or_ok; exact Ekey2). cbv beta.
  erewrite bind_ok by apply put_ok. erewrite bind_ok by apply put_ok.
  rewrite leaf_record_key_enc by done. eexists _, _. split; [reflexivity|].
  eapply leaves_rebalanced; try done. by destruct kc.
Qed.

(** Two branches rewritten with the same children. *)
Lemma branches_rebalanced t h c d b b' m sc cc sd cd sA cA kA lA GA sB cB kB lB GB qc qd : c <> d -> page_no c -> page_no d ->
  branch_at K (pages t) c sc cc -> branch_at K (pages t) d sd cd ->
  branch_page K qc c sA cA -> branch_page K qd d sB cB -> sA <> [] -> sB <> [] -> key_ok K m ->
  forest (tree K V (pages t) h) sA cA b (Some m) kA lA GA -> forest (tree K V (pages t) h) sB cB (Some m) b' kB lB GB ->
  GA ## GB -> c ∉ GA ∪ GB -> d ∉ GA ∪ GB ->
  rebalanced t (put (put t c qc) d qd) (S h) c d b b' m (kA ++ kB) (lA ++ lB) ({[c]} ∪ GA ∪ ({[d]} ∪ GB)).
Proof.
  intros Hcd Nc Nd Hc Hd Hqc Hqd HA HB Hm FA FB HD Hnc Hnd.
  assert (forall i, i <> c -> i <> d -> pages (put (put t c qc) d qd) !! i = pages t !! i) as Hsame by (intros i H1 H2; by rewrite !put_other).
  assert (forall i, i ∈ GA ∪ GB -> sim K V (pages t) (pages (put (put t c qc) d qd)) i) as HS by (intros i Hi; left; apply Hsame; by intros ->).
  split; [|split; [done|split; [done|split; [done|split; [done|]]]]].
  - exists kA, lA, ({[c]} ∪ GA), kB, lB, ({[d]} ∪ GB). split; [|split; [|split; [clear -Hcd Hnc Hnd HD; set_solver|done]]].
    + eapply (tree_branch _ _ HW _ _ _ _ _ sA cA); [|done|done|eapply (forest_frame _ _ HW); [|exact FA]|].
      * destruct (put_branch_at K V HW t c qc _ _ Hqc) as (q & Hq & Hlq). exists q. split; [|done]. by rewrite put_other.
      * intros i Hi. apply HS. by apply elem_of_union_l.
      * intros Hi. apply Hnc. by apply elem_of_union_l.
    + eapply (tree_branch _ _ HW); [by apply (put_branch_at K V HW)|done|done|eapply (forest_frame _ _ HW); [|exact FB]|].
      * intros i Hi. apply HS. by apply elem_of_union_r.
      * intros Hi. apply Hnd. by apply elem_of_union_r.
  - intros i. destruct (decide (i = d)) as [->|H1]; [by eapply keeps_branch|]. destruct (decide (i = c)) as [->|H2]; [by eapply keeps_branch|].
    by apply keeps_same, Hsame.
Qed.

Lemma branch_of_wtree t h d lo hi kd ld Fd pd : pages t !! d = Some pd -> wtree (pages t) (S h) d lo hi kd ld Fd ->
  exists seps children G, branch_page K pd d seps children /\ forest (tree K V (pages t) h) seps children lo hi kd ld G /\
    d ∉ G /\ Fd = {[d]} ∪ G /\ page_no d /\ Forall (key_ok K) seps /\ Forall (uint 64) children /\ length children = S (length seps) /\
    uint 8 (level (btree_header pd)).
Proof.
  intros Hpd (_ & Nd & seps & children & G & (p & Hp & Hb) & Hf & Hn & ->). rewrite Hpd in Hp. injection Hp as <-.
  exists seps, children, G. pose proof Hb as (h0 & _ & _ & Hl & Hk & Hu). pose proof (branch_level K V HW _ _ _ _ Hb). by split_and!.
Qed.

Lemma borrow_branch_left t h c d s b b' pc pd lc Fc ld Fd kc kd : c <> d -> Fc ## Fd -> pages t !! c = Some pc -> pages t !! d = Some pd ->
  wtree (pages t) (S h) c b (Some s) kc lc Fc -> wtree (pages t) (S h) d (Some s) b' kd ld Fd -> key_ok K s ->
  can_lend pc = true -> is_underfull pd = true ->
  exists s' t', borrow_branch_from_left c d s t = Some (Ok s', t') /\ rebalanced t t' (S h) c d b b' s' (kc ++ kd) (lc ++ ld) (Fc ∪ Fd).
Proof.
  intros Hcd HD Hpc Hpd Hwc Hwd Hs Hlend Hunder.
  destruct (branch_of_wtree _ _ _ _ _ _ _ _ _ Hpc Hwc) as (ssl & csl & Gc & Hbc & Hfc & Hnc & -> & Nc & Kc & Uc & Lc & Lv).
  destruct (branch_of_wtree _ _ _ _ _ _ _ _ _ Hpd Hwd) as (ssr & csr & Gd & Hbd & Hfd & Hnd & -> & Nd & Kd & Ud & Ld & _).
  pose proof (branch_lend _ _ _ _ Hbc) as H2. rewrite Hlend in H2. pose proof (branch_low _ _ _ _ Hbd) as Hlow. rewrite Hunder in Hlow. apply branch_gain in Hlow.
  pose proof (branch_fits _ _ _ _ _ Hbc) as Hfit.
  destruct ssl as [|m ssl _] using rev_ind; [cbn in H2; lia|]. destruct csl as [|x csl _] using rev_ind; [done|].
  rewrite (length_app csl), (length_app ssl) in Lc. rewrite (length_app ssl) in H2. cbn [length] in Lc, H2. apply Forall_app in Kc as [Kc [Km _]%Forall_cons]. apply Forall_app in Uc as [Uc [Ux _]%Forall_cons].
  destruct (forest_cut _ ssl m [] csl [x] _ _ _ _ _ Hfc) as (k1 & l1 & F1 & k2 & l2 & F2 & HfA & Hfx & -> & -> & -> & D12); [lia|].
  assert (F2 ## Gd) as D2 by (clear -HD; set_solver).
  pose proof (forest_paste _ _ _ _ _ _ _ _ Hfx _ _ _ _ _ _ Hfd D2) as HfB. cbn [app] in HfB.
  destruct (build_branch_fits K V HW c (level (btree_header pc)) ssl csl) as (qc & Eqc & Hqc); [done|done|done|lia| |].
  { rewrite length_app in Hfit. pose proof (branch_size_mono K (length ssl) (length ssl + length [m]) ltac:(lia)). lia. }
  destruct (build_branch_fits K V HW d (level (btree_header pc)) (s :: ssr) (x :: csr)) as (qd & Eqd & Hqd); [done|by constructor|by constructor|cbn; lia|done|].
  unfold borrow_branch_from_left. erewrite bind_ok by (by apply get_page_or_ok). erewrite bind_ok by (by apply get_page_or_ok). cbv beta.
  erewrite bind_ok by (apply try_ok; eapply decode_branch_spec; exact Hbc). cbv beta iota.
  erewrite bind_ok by (apply try_ok; eapply decode_branch_spec; exact Hbd). cbv beta iota.
  erewrite bind_ok by (apply ok_or_ok; apply last_snoc). erewrite bind_ok by (apply ok_or_ok; apply last_snoc). cbv beta zeta. rewrite !removelast_last.
  erewrite bind_ok by (apply try_ok; exact Eqc). erewrite bind_ok by (apply try_ok; exact Eqd). cbv beta.
  erewrite bind_ok by apply put_ok. erewrite bind_ok by apply put_ok. eexists _, _. split; [reflexivity|].
  replace ({[c]} ∪ (F1 ∪ F2) ∪ ({[d]} ∪ Gd)) with ({[c]} ∪ F1 ∪ ({[d]} ∪ (F2 ∪ Gd))) by (clear; set_solver). rewrite <- (app_assoc k1), <- (app_assoc l1).
  eapply branches_rebalanced; [done|done|done|by exists pc|by exists pd|exact Hqc|exact Hqd|destruct ssl; [cbn in H2; lia|done]|done|done|exact HfA|exact HfB|clear -HD D12 Hnc Hnd Hcd; set_solver..].
Qed.

Lemma borrow_branch_right t h c d s b b' pc pd lc Fc ld Fd kc kd : c <> d -> Fc ## Fd -> pages t !! c = Some pc -> pages t !! d = Some pd ->
  wtree (pages t) (S h) c b (Some s) kc lc Fc -> wtree (pages t) (S h) d (Some s) b' kd ld Fd -> key_ok K s ->
  is_underfull pc = true -> can_lend pd = true ->
  exists s' t', borrow_branch_from_right c d s t = Some (Ok s', t') /\ rebalanced t t' (S h) c d b b' s' (kc ++ kd) (lc ++ ld) (Fc ∪ Fd).
Proof.
  intros Hcd HD Hpc Hpd Hwc Hwd Hs Hunder Hlend.
  destruct (branch_of_wtree _ _ _ _ _ _ _ _ _ Hpc Hwc) as (ssl & csl & Gc & Hbc & Hfc & Hnc & -> & Nc & Kc & Uc & Lc & Lv).
  destruct (branch_of_wtree _ _ _ _ _ _ _ _ _ Hpd Hwd) as (ssr & csr & Gd & Hbd & Hfd & Hnd & -> & Nd & Kd & Ud & Ld & _).
  pose proof (branch_lend _ _ _ _ Hbd) as H2. rewrite Hlend in H2. pose proof (branch_low _ _ _ _ Hbc) as Hlow. rewrite Hunder in Hlow. apply branch_gain in Hlow.
  pose proof (branch_fits _ _ _ _ _ Hbd) as Hfit.
  destruct ssr as [|m ssr]; [cbn in H2; lia|]. destruct csr as [|x csr]; [done|]. cbn [length] in *.
  apply Forall_cons in Kd as [Km Kd]. apply Forall_cons in Ud as [Ux Ud].
  destruct (forest_cut _ [] m ssr [x] csr _ _ _ _ _ Hfd) as (k1 & l1 & F1 & k2 & l2 & F2 & Hfx & HfB & -> & -> & -> & D12); [done|].
  assert (Gc ## F1) as D1 by (clear -HD; set_solver).
  pose proof (forest_paste _ _ _ _ _ _ _ _ Hfc _ _ _ _ _ _ Hfx D1) as HfA.
  destruct (build_branch_fits K V HW c (level (btree_header pc)) (ssl ++ [s]) (csl ++ [x])) as (qc & Eqc & Hqc);
    [done|apply Forall_app; split; [done|by constructor]|apply Forall_app; split; [done|by constructor]|rewrite !length_app; cbn; lia| |].
  { rewrite length_app, Nat.add_comm. done. }
  destruct (build_branch_fits K V HW d (level (btree_header pc)) ssr csr) as (qd & Eqd & Hqd); [done|done|done|lia| |].
  { pose proof (branch_size_mono K (length ssr) (S (length ssr)) ltac:(lia)). lia. }
  unfold borrow_branch_from_right. erewrite bind_ok by (by apply get_page_or_ok). erewrite bind_ok by (by apply get_page_or_ok). cbv beta.
  erewrite bind_ok by (apply try_ok; eapply decode_branch_spec; exact Hbc). cbv beta iota.
  erewrite bind_ok by (apply try_ok; eapply decode_branch_spec; exact Hbd). cbv beta iota.
  erewrite bind_ok by (by apply ok_or_ok). erewrite bind_ok by (by apply try_ok). cbv beta zeta. cbn [tail].
  erewrite bind_ok by (apply try_ok; exact Eqc). erewrite bind_ok by (apply try_ok; exact Eqd). cbv beta.
  erewrite bind_ok by apply put_ok. erewrite bind_ok by apply put_ok. eexists _, _. split; [reflexivity|].
  replace ({[c]} ∪ Gc ∪ ({[d]} ∪ (F1 ∪ F2))) with ({[c]} ∪ (Gc ∪ F1) ∪ ({[d]} ∪ F2)) by (clear; set_solver). rewrite (app_assoc kc), (app_assoc lc).
  eapply branches_rebalanced; [done|done|done|by exists pc|by exists pd|exact Hqc|exact Hqd|by destruct ssl|destruct ssr; [cbn in H2; lia|done]|done|exact HfA|exact HfB|clear -HD D12 Hnc Hnd Hcd; set_solver..].
Qed.

(** ** Merging *)

Definition can_merge (pc pd : Page) : Prop :=
  (can_lend pc = false /\ is_underfull pd = true) \/ (is_underfull pc = true /\ can_lend pd = false).

(** The siblings [c] and [d] in the page of [c]; [A] and [B] are the leaves on
    either side. *)
Definition merged (t t' : BPlusTree) (h : nat) (c d : Z) (b b' : bound) (kvs : list kv) (F : gset Z) (A B : list Z) : Prop :=
  (exists lvs' F', tree K V (pages t') h c b b' kvs lvs' F' /\ d ∉ F' /\ F = F' ∪ {[d]} /\ chain K V (pages t') (A ++ lvs' ++ B) 0) /\
  root_page_id t' = root_page_id t /\ next_page_id t' = next_page_id t /\ (forall i, i <> c -> sim K V (pages t) (pages t') i).

Lemma merge_leaves_spec t c d pc pd prc nxc prd nxd kc kd :
  pages t !! c = Some pc -> pages t !! d = Some pd -> leaf_page K V pc c prc nxc kc -> leaf_page K V pd d prd nxd kd ->
  leaf_size K V (length kc + length kd) <= 8096 -> uint 64 c ->
  (nxd = 0 \/ nxd <> 0 /\ nxd <> c /\ exists p n k, leaf_at K V (pages t) nxd p n k) ->
  exists t', merge_leaves c d t = Some (Ok tt, t') /\ leaf_at K V (pages t') c prc nxd (kc ++ kd) /\
    root_page_id t' = root_page_id t /\ next_page_id t' = next_page_id t /\ (forall i, i <> c -> sim K V (pages t) (pages t') i).
Proof.
  intros Hpc Hpd Hl1 Hl2 Hsz Uc Hnx. unfold merge_leaves.
  erewrite bind_ok by (by apply get_page_or_ok). erewrite bind_ok by (by apply get_page_or_ok). cbv beta.
  destruct (append_records_spec K V HW pd d prd nxd kd Hl2 (length kd) 0 pc c prc nxc kc ltac:(lia) Hl1 Hsz) as (q & Eq & Hq). rewrite drop_0 in Hq.
  rewrite (leaf_key_count _ _ _ _ _ _ _ Hl2). erewrite bind_ok by (apply try_ok; exact Eq). erewrite bind_ok by (by apply ok_or_ok). cbv beta zeta.
  destruct (leaf_siblings _ _ _ _ _ _ _ Hq) as [-> _]. destruct (leaf_siblings _ _ _ _ _ _ _ Hl2) as [_ ->].
  pose proof Hl1 as (h1 & [Hb1 _] & Ep & _ & _). destruct (nd_bh _ _ _ _ _ Hb1) as (Up & _). rewrite Ep in Up.
  pose proof Hl2 as (h2 & [Hb2 _] & _ & En & _). destruct (nd_bh _ _ _ _ _ Hb2) as (_ & Un & _). rewrite En in Un.
  apply (siblings_leaf _ _ _ _ _ _ _ prc nxd) in Hq; [|done|done]. erewrite bind_ok by apply put_ok. set (q' := set_siblings q prc nxd) in *. clearbody q'.
  destruct Hnx as [->|(Hn0 & Hnc & pn & nn & kn & (pg & Hpg & Hln))].
  - eexists. split; [reflexivity|]. split; [by apply put_leaf_at|]. split; [done|]. split; [done|]. intros i Hi. left. by apply put_other.
  - destruct (Z.eqb_spec nxd 0); [done|]. erewrite bind_ok by reflexivity. cbv beta. rewrite put_other, Hpg by done.
    destruct (leaf_siblings _ _ _ _ _ _ _ Hln) as [_ ->]. rewrite put_ok.
    pose proof Hln as (h3 & [Hb3 _] & _ & En3 & _). destruct (nd_bh _ _ _ _ _ Hb3) as (_ & Un3 & _). rewrite En3 in Un3.
    apply (siblings_leaf _ _ _ _ _ _ _ c nn) in Hln as Hln'; [|done|done].
    eexists. split; [reflexivity|]. split; [|split; [done|split; [done|]]].
    + destruct (put_leaf_at K V HW t c q' _ _ _ Hq) as (q2 & Hq2 & Hlq). exists q2. split; [|done]. by rewrite put_other.
    + intros i Hi. destruct (decide (i = nxd)) as [->|Hin]; [|left; by rewrite !put_other].
      right. exists pn, c, nn, kn. split; [by exists pg|by apply put_leaf_at].
Qed.

Lemma merge_leaves_pair t c d s b b' pc pd lc Fc ld Fd kc kd A B : c <> d -> pages t !! c = Some pc -> pages t !! d = Some pd ->
  wtree (pages t) 0 c b (Some s) kc lc Fc -> wtree (pages t) 0 d (Some s) b' kd ld Fd -> kc ++ kd <> [] -> can_merge pc pd ->
  chain K V (pages t) (A ++ (lc ++ ld) ++ B) 0 -> Forall page_no B -> c ∉ A ++ B ->
  exists t', merge_leaves c d t = Some (Ok tt, t') /\ merged t t' 0 c d b b' (kc ++ kd) (Fc ∪ Fd) A B.
Proof.
  intros Hcd Hpc Hpd (Bc & Nc & (prc & nxc & HLc) & Sc & Wc & -> & ->) (Bd & Nd & (prd & nxd & HLd) & Sd & Wd & -> & ->) Hne Hm Hch HB HcAB.
  pose proof HLc as (p1 & E1 & Hl1). rewrite Hpc in E1. injection E1 as <-. pose proof HLd as (p2 & E2 & Hl2). rewrite Hpd in E2. injection E2 as <-.
  destruct (pair_sorted b s b' _ kd Bc Bd Sc Sd Wc Wd) as [Hs Hw]. cbn [app] in Hch.
  pose proof Hch as (C1 & C2)%(chain_app _ _ HW). pose proof (chain_leaf _ _ HW _ _ _ _ _ _ _ (proj2 C2) HLd) as Hnx.
  destruct (merge_leaves_spec t c d pc pd prc nxc prd nxd kc kd) as (t' & E & Hlc & Hr & Hn & Hsim); [done|done|done|done| |unfold page_no, uint in *; lia| |].
  - destruct Hm as [[H1 H2]|[H1 H2]].
    + pose proof (leaf_lend _ _ _ _ _ Hl1) as L1. rewrite H1 in L1. pose proof (leaf_low _ _ _ _ _ Hl2) as L2. rewrite H2 in L2. by apply leaf_merge.
    + pose proof (leaf_low _ _ _ _ _ Hl1) as L1. rewrite H1 in L1. pose proof (leaf_lend _ _ _ _ _ Hl2) as L2. rewrite H2 in L2.
      rewrite Nat.add_comm. by apply leaf_merge.
  - destruct B as [|y B]; [by left|right]. subst nxd. apply Forall_cons in HB as [[? _] _]. split; [lia|].
    split; [intros ->; apply HcAB, elem_of_app; right; apply list_elem_of_here|].
    destruct C2 as (_ & _ & (py & ky & Hy) & _). by exists py, (match B with [] => 0 | z :: _ => z end), ky.
  - exists t'. split; [done|]. split; [|done]. exists [c], {[c]}. split; [by eapply leaf_tree|]. split; [clear -Hcd; set_solver|]. split; [done|].
    cbn [app]. apply (chain_app _ _ HW). rewrite Hnx in Hlc. split; [|split; [by exists prc, (kc ++ kd)|]].
    + eapply (chain_frame _ _ HW); [|exact C1]. intros i Hi. apply Hsim. intros ->. apply HcAB, elem_of_app. by left.
    + eapply (chain_frame _ _ HW); [|exact (proj2 (proj2 C2))]. intros i Hi. apply Hsim. intros ->. apply HcAB, elem_of_app. by right.
Qed.

Lemma merge_branches_pair t h c d s b b' pc pd lc Fc ld Fd kc kd A B : c <> d -> Fc ## Fd -> pages t !! c = Some pc -> pages t !! d = Some pd ->
  wtree (pages t) (S h) c b (Some s) kc lc Fc -> wtree (pages t) (S h) d (Some s) b' kd ld Fd -> key_ok K s -> can_merge pc pd ->
  chain K V (pages t) (A ++ (lc ++ ld) ++ B) 0 ->
  exists t', merge_branches c d s t = Some (Ok tt, t') /\ merged t t' (S h) c d b b' (kc ++ kd) (Fc ∪ Fd) A B.
Proof.
  intros Hcd HD Hpc Hpd Hwc Hwd Hs Hm Hch.
  destruct (branch_of_wtree _ _ _ _ _ _ _ _ _ Hpc Hwc) as (ssl & csl & Gc & Hbc & Hfc & Hnc & -> & Nc & Kc & Uc & Lc & Lv).
  destruct (branch_of_wtree _ _ _ _ _ _ _ _ _ Hpd Hwd) as (ssr & csr & Gd & Hbd & Hfd & Hnd & -> & Nd & Kd & Ud & Ld & _).
  assert (Gc ## Gd) as D1 by (clear -HD; set_solver). pose proof (forest_paste _ _ _ _ _ _ _ _ Hfc _ _ _ _ _ _ Hfd D1) as Hf.
  destruct (try_build_branch_fits K V HW c (level (btree_header pc)) (ssl ++ s :: ssr) (csl ++ csr)) as (q & Eq & Hq);
    [done|apply Forall_app; split; [done|by constructor]|by apply Forall_app|rewrite (length_app csl), (length_app ssl); cbn; lia| |].
  { rewrite length_app. cbn [length]. destruct Hm as [[H1 H2]|[H1 H2]].
    - pose proof (branch_lend _ _ _ _ Hbc) as L1. rewrite H1 in L1. pose proof (branch_low _ _ _ _ Hbd) as L2. rewrite H2 in L2. by apply branch_merge.
    - pose proof (branch_low _ _ _ _ Hbc) as L1. rewrite H1 in L1. pose proof (branch_lend _ _ _ _ Hbd) as L2. rewrite H2 in L2.
      replace (length ssl + S (length ssr))%nat with (length ssr + S (length ssl))%nat by lia. by apply branch_merge. }
  unfold merge_branches. erewrite bind_ok by (by apply get_page_or_ok). erewrite bind_ok by (by apply get_page_or_ok). cbv beta.
  erewrite bind_ok by (apply try_ok; eapply decode_branch_spec; exact Hbc). cbv beta iota.
  erewrite bind_ok by (apply try_ok; eapply decode_branch_spec; exact Hbd). cbv beta iota.
  erewrite bind_ok by (apply try_ok; exact Eq). erewrite bind_ok by (by apply ok_or_ok). cbv beta. rewrite put_ok.
  eexists. split; [reflexivity|]. split; [|split; [done|split; [done|intros i Hi; left; by apply put_other]]].
  exists (lc ++ ld), ({[c]} ∪ (Gc ∪ Gd)). split; [|split; [clear -Hcd HD Hnd; set_solver|split; [clear; set_solver|]]].
  - eapply (tree_branch _ _ HW _ _ _ _ _ (ssl ++ s :: ssr) (csl ++ csr)); [by apply (put_branch_at K V HW)|done|by destruct ssl| |clear -HD Hnc; set_solver].
    eapply (forest_frame _ _ HW); [|exact Hf]. intros i Hi. left. apply put_other. intros ->. clear -Hi Hnc HD. set_solver.
  - eapply chain_keeps; [|exact Hch]. intros i _. destruct (decide (i = c)) as [->|Hi]; [eapply keeps_branch; by exists pc|].
    apply keeps_same. by apply put_other.
Qed.

(** ** Two siblings under their parent *)

Record siblings (t : BPlusTree) (H : nat) (path : list (Z * nat)) (h : nat) (p : Z) (pp : Page) (lo hi b b' : bound)
    (L R : list kv) (LL RL : list Z) (G : gset Z) (sa sb : list (list Z)) (ca cb : list Z) (k1 k2 : list kv) (l1 l2 : list Z) (F1 F2 : gset Z)
    (c d : Z) (s : list Z) (pc pd : Page) (kc kd : list kv) (lc ld : list Z) (Fc Fd : gset Z) : Prop := {
  si_ctx : ctx K V (pages t) H (root_page_id t) path (S h) p lo hi L R LL RL G;
  si_no : page_no p;
  si_left : lforest (tree K V (pages t) h) sa ca lo b k1 l1 F1;
  si_right : rforest (tree K V (pages t) h) sb cb b' hi k2 l2 F2;
  si_parent : pages t !! p = Some pp;
  si_branch : branch_page K pp p (sa ++ s :: sb) (ca ++ c :: d :: cb);
  si_c : wtree (pages t) h c b (Some s) kc lc Fc;
  si_d : wtree (pages t) h d (Some s) b' kd ld Fd;
  si_pc : pages t !! c = Some pc;
  si_pd : pages t !! d = Some pd;
  si_out : p ∉ G ∪ F1 ∪ F2 ∪ (Fc ∪ Fd);
  si_dis : G ## F1 /\ G ## F2 /\ F1 ## F2 /\ G ## Fc ∪ Fd /\ F1 ## Fc ∪ Fd /\ F2 ## Fc ∪ Fd /\ Fc ## Fd;
  si_chain : chain K V (pages t) (LL ++ (l1 ++ (lc ++ ld) ++ l2) ++ RL) 0;
  si_ids : forall i, i ∈ {[p]} ∪ G ∪ F1 ∪ F2 ∪ (Fc ∪ Fd) -> i < next_page_id t
}.

Lemma wtree_root S h id lo hi kvs lvs F : wtree S h id lo hi kvs lvs F -> id ∈ F /\ page_no id.
Proof. destruct h; cbn [wtree]; [intros (_ & ? & _ & _ & _ & _ & ->)|intros (_ & ? & ? & ? & ? & _ & _ & _ & ->)]; (split; [clear; set_solver|done]). Qed.

Lemma wtree_is_leaf S h id lo hi kvs lvs F pg : wtree S h id lo hi kvs lvs F -> S !! id = Some pg ->
  is_leaf pg = match h with O => true | _ => false end.
Proof.
  destruct h; cbn [wtree].
  - intros (_ & _ & (prev & next & q & Hq & Hl) & _) Hp. rewrite Hp in Hq. injection Hq as <-. by apply leaf_is_leaf in Hl as [-> _].
  - intros (_ & _ & seps & children & G & (q & Hq & Hb) & _) Hp. rewrite Hp in Hq. injection Hq as <-. by apply branch_is_branch in Hb as [-> _].
Qed.

Section Siblings.
Context {t : BPlusTree} {H : nat} {path : list (Z * nat)} {h : nat} {p : Z} {pp : Page} {lo hi b b' : bound}
  {L R : list kv} {LL RL : list Z} {G : gset Z} {sa sb : list (list Z)} {ca cb : list Z} {k1 k2 : list kv} {l1 l2 : list Z} {F1 F2 : gset Z}
  {c d : Z} {s : list Z} {pc pd : Page} {kc kd : list kv} {lc ld : list Z} {Fc Fd : gset Z}.
Context (HS : siblings t H path h p pp lo hi b b' L R LL RL G sa sb ca cb k1 k2 l1 l2 F1 F2 c d s pc pd kc kd lc ld Fc Fd).
#[local] Set Default Proof Using "All".

Lemma si_distinct : c <> d /\ c <> p /\ d <> p.
Proof.
  destruct HS as [_ _ _ _ _ _ Hc Hd _ _ Ho (_ & _ & _ & _ & _ & _ & HD) _ _]. apply wtree_root in Hc as [Hc _], Hd as [Hd _].
  split_and!; intros ->; clear -Hc Hd Ho HD; set_solver.
Qed.

Lemma si_entries : key_ok K s /\ Forall (key_ok K) sa /\ Forall (key_ok K) sb /\ Forall (uint 64) (ca ++ c :: d :: cb) /\
  length (ca ++ c :: d :: cb) = S (length (sa ++ s :: sb)) /\ branch_size K (length (sa ++ s :: sb)) <= 8096 /\
  uint 8 (level (btree_header pp)) /\ length sa = length ca.
Proof.
  destruct HS as [_ _ HL _ _ Hb _ _ _ _ _ _ _ _]. pose proof (branch_fits _ _ _ _ _ Hb).
  pose proof (branch_level K V HW _ _ _ _ Hb). destruct Hb as (h0 & _ & _ & Hl & Hk & Hu). apply Forall_app in Hk as [Hk1 [Hk2 Hk3]%Forall_cons].
  pose proof (lforest_length _ _ _ _ _ _ _ _ HL). by split_and!.
Qed.

(** The tree around two siblings that exchanged entries. *)
Lemma finish_borrow t1 s' : rebalanced t t1 h c d b b' s' (kc ++ kd) (lc ++ ld) (Fc ∪ Fd) ->
  exists t', put_parent p (level (btree_header pp)) (sa ++ s' :: sb) (ca ++ c :: d :: cb) t1 = Some (Ok tt, t') /\
    btree_inv K V t' (L ++ (k1 ++ (kc ++ kd) ++ k2) ++ R) /\ next_page_id t' = next_page_id t.
Proof.
  intros ((kc' & lc' & Fc' & kd' & ld' & Fd' & Tc & Td & D & -> & El & EF) & Hs' & Er & En & Hsame & Hkeep).
  destruct si_entries as (Hs & Ka & Kb & Hu & Hlen & Hfit & Hlv & _). destruct si_distinct as (Dcd & Dcp & Ddp).
  destruct HS as [Hc Hno HL HR Hpp Hbr _ _ _ _ Ho (D1 & D2 & D3 & D4 & D5 & D6 & D7) Hch Hids].
  destruct (build_branch_fits K V HW p (level (btree_header pp)) (sa ++ s' :: sb) (ca ++ c :: d :: cb)) as (q & Eq & Hq);
    [done|apply Forall_app; split; [done|by constructor]|done|rewrite Hlen, !length_app; done|rewrite length_app in *; done|].
  unfold put_parent. erewrite bind_ok by (apply try_ok; exact Eq). rewrite put_ok. eexists. split; [reflexivity|]. split; [|done].
  assert (forall i, i ∈ G ∪ F1 ∪ F2 -> i <> p /\ i <> c /\ i <> d) as Hne.
  { intros i Hi. pose proof (tree_root _ _ HW _ _ _ _ _ _ _ _ Tc) as Rc. pose proof (tree_root _ _ HW _ _ _ _ _ _ _ _ Td) as Rd.
    assert (c ∈ Fc ∪ Fd /\ d ∈ Fc ∪ Fd) as [Ic Id] by (rewrite EF; clear -Rc Rd; set_solver).
    split_and!; intros ->; clear -Hi Ho D4 D5 D6 Ic Id; set_solver. }
  assert (forall i, i ∈ G ∪ F1 ∪ F2 -> sim K V (pages t) (pages (put t1 p q)) i) as HSim.
  { intros i Hi. destruct (Hne i Hi) as (N1 & N2 & N3). left. rewrite put_other by done. by apply Hsame. }
  assert (forall i, i ∈ Fc' ∪ Fd' -> sim K V (pages t1) (pages (put t1 p q)) i) as HSim1.
  { intros i Hi. left. apply put_other. intros ->. rewrite <- EF in Hi. clear -Hi Ho. set_solver. }
  exists H, (LL ++ (l1 ++ (lc' ++ ld') ++ l2) ++ RL), (G ∪ ({[p]} ∪ (F1 ∪ Fc' ∪ Fd' ∪ F2))). split.
  - cbn [root_page_id put]. rewrite Er. eapply (ctx_plug _ _ HW); [eapply (ctx_frame _ _ HW); [|exact Hc]| |clear -EF Ho D1 D2 D4; set_solver].
    { intros i Hi. apply HSim. clear -Hi. set_solver. }
    eapply (tree_branch _ _ HW _ _ _ _ _ (sa ++ s' :: sb)); [by apply (put_branch_at K V HW)|done|by destruct sa| |clear -EF Ho; set_solver].
    eapply forest_join2.
    + eapply (lforest_frame _ _ HW); [|exact HL]. intros i Hi. apply HSim. clear -Hi. set_solver.
    + eapply (tree_frame _ _ HW); [|exact Tc]. intros i Hi. apply HSim1. clear -Hi. set_solver.
    + eapply (tree_frame _ _ HW); [|exact Td]. intros i Hi. apply HSim1. clear -Hi. set_solver.
    + eapply (rforest_frame _ _ HW); [|exact HR]. intros i Hi. apply HSim. clear -Hi. set_solver.
    + clear -EF D5. set_solver.
    + clear -EF D5. set_solver.
    + done.
    + done.
    + clear -EF D6. set_solver.
    + clear -EF D6. set_solver.
  - rewrite <- El. eapply chain_keeps; [|exact Hch]. intros i _ prev next ks Hl. destruct (decide (i = p)) as [->|Hip].
    { eapply keeps_branch in Hl as HX; [|by exists pp]. exact HX. }
    destruct (Hkeep i prev next ks Hl) as (prev' & ks' & q' & Hq' & Hl'). exists prev', ks', q'. split; [|done]. by rewrite put_other.
  - cbn [next_page_id put]. rewrite En. intros i Hi. apply Hids. clear -Hi EF. set_solver.
Qed.

Lemma si_lookups : (ca ++ c :: d :: cb) !! length sa = Some c /\ (ca ++ c :: d :: cb) !! S (length sa) = Some d /\
  (sa ++ s :: sb) !! length sa = Some s /\ (forall s', <[length sa := s']> (sa ++ s :: sb) = sa ++ s' :: sb).
Proof.
  destruct si_entries as (_ & _ & _ & _ & _ & _ & _ & El). split_and!.
  - by rewrite El, lookup_app_r, Nat.sub_diag by lia.
  - rewrite El, lookup_app_r by lia. by replace (S (length ca) - length ca)%nat with 1%nat by lia.
  - by rewrite lookup_app_r, Nat.sub_diag by lia.
  - intros s'. by rewrite insert_app_r_alt, Nat.sub_diag by lia.
Qed.

(** Borrowing by the right one of the two siblings, and by the left one. *)
Definition borrowed (r : option (result bool BTreeError * BPlusTree)) : Prop :=
  exists t', r = Some (Ok true, t') /\ btree_inv K V t' (L ++ (k1 ++ (kc ++ kd) ++ k2) ++ R) /\ next_page_id t' = next_page_id t.

Lemma try_left_spec : tree K V (pages t) h c b (Some s) kc lc Fc -> is_underfull pd = true ->
  let r := try_borrow_left config_default p d (level (btree_header pp)) (is_leaf pd) (S (length sa)) (sa ++ s :: sb) (ca ++ c :: d :: cb) t in
  if can_lend pc then borrowed r else r = Some (Ok false, t).
Proof.
  intros Tc Hund r. destruct si_lookups as (E1 & E2 & E3 & E4). destruct si_distinct as (Dcd & _ & _). destruct si_entries as (Hs & _).
  pose proof HS as [_ _ _ _ _ _ Hwc Hwd Hpc Hpd _ (_ & _ & _ & _ & _ & _ & HD) _ _].
  unfold r, try_borrow_left. cbn [Nat.eqb]. replace (S (length sa) - 1)%nat with (length sa) by lia.
  erewrite bind_ok by (apply try_ok; exact E1). erewrite bind_ok by (by apply get_page_or_ok). cbv beta.
  destruct (can_lend pc) eqn:Hlend; [|done]. erewrite bind_ok by (apply try_ok; exact E3). cbv beta.
  assert (exists s' t1, (if is_leaf pd then borrow_leaf_from_left c d else borrow_branch_from_left c d s) t = Some (Ok s', t1) /\
    rebalanced t t1 h c d b b' s' (kc ++ kd) (lc ++ ld) (Fc ∪ Fd)) as (s' & t1 & Eb & Hre).
  { rewrite (wtree_is_leaf _ _ _ _ _ _ _ _ _ Hwd Hpd). destruct h; [by eapply borrow_leaf_left|by eapply borrow_branch_left]. }
  erewrite bind_ok by exact Eb. cbv beta. rewrite E4. destruct (finish_borrow t1 s' Hre) as (t' & Ep & Hinv & Hn).
  erewrite bind_ok by exact Ep. by exists t'.
Qed.

Lemma try_right_spec : tree K V (pages t) h d (Some s) b' kd ld Fd -> is_underfull pc = true ->
  let r := try_borrow_right config_default p c (level (btree_header pp)) (is_leaf pc) (length sa) (sa ++ s :: sb) (ca ++ c :: d :: cb) t in
  if can_lend pd then borrowed r else r = Some (Ok false, t).
Proof.
  intros Td Hund r. destruct si_lookups as (E1 & E2 & E3 & E4). destruct si_distinct as (Dcd & _ & _). destruct si_entries as (Hs & _ & _ & _ & Hlen & _ & _ & El).
  pose proof HS as [_ _ _ _ _ _ Hwc Hwd Hpc Hpd _ (_ & _ & _ & _ & _ & _ & HD) _ _].
  unfold r, try_borrow_right. replace (length sa + 1)%nat with (S (length sa)) by lia.
  destruct (Nat.ltb_spec (S (length sa)) (length (ca ++ c :: d :: cb))) as [_|Hx]; [|apply lookup_lt_Some in E2; lia].
  erewrite bind_ok by (apply try_ok; exact E2). erewrite bind_ok by (by apply get_page_or_ok). cbv beta.
  destruct (can_lend pd) eqn:Hlend; [|done]. erewrite bind_ok by (apply try_ok; exact E3). cbv beta.
  assert (exists s' t1, (if is_leaf pc then borrow_leaf_from_right c d else borrow_branch_from_right c d s) t = Some (Ok s', t1) /\
    rebalanced t t1 h c d b b' s' (kc ++ kd) (lc ++ ld) (Fc ∪ Fd)) as (s' & t1 & Eb & Hre).
  { rewrite (wtree_is_leaf _ _ _ _ _ _ _ _ _ Hwc Hpc). destruct h; [by eapply borrow_leaf_right|by eapply borrow_branch_right]. }
  erewrite bind_ok by exact Eb. cbv beta. rewrite E4. destruct (finish_borrow t1 s' Hre) as (t' & Ep & Hinv & Hn).
  erewrite bind_ok by exact Ep. by exists t'.
Qed.

(** ** Merging the two siblings *)

Lemma merge_step : kc ++ kd <> [] -> can_merge pc pd -> exists t1,
  (if match h with O => true | _ => false end then merge_leaves c d else merge_branches c d s) t = Some (Ok tt, t1) /\
  merged t t1 h c d b b' (kc ++ kd) (Fc ∪ Fd) (LL ++ l1) (l2 ++ RL).
Proof.
  intros Hne Hm. destruct si_distinct as (Dcd & _ & _). destruct si_entries as (Hs & _).
  pose proof HS as [Hc _ HL HR _ _ Hwc Hwd Hpc Hpd Ho (D1 & D2 & D3 & D4 & D5 & D6 & HD) Hch _].
  assert (chain K V (pages t) ((LL ++ l1) ++ (lc ++ ld) ++ l2 ++ RL) 0) as Hch' by (by rewrite app_around2).
  destruct h; [|by eapply merge_branches_pair]. eapply merge_leaves_pair; try done.
  - apply Forall_app. split; apply Forall_forall; intros i Hi.
    + eapply (rforest_pages _ _ HW); [exact HR|]. eapply (rforest_leaves _ _ HW); [exact HR|done].
    + eapply (ctx_pages _ _ HW); [exact Hc|]. eapply (ctx_leaves _ _ HW); [exact Hc|]. apply elem_of_app. by right.
  - apply wtree_root in Hwc as [Rc _]. intros Hi. rewrite !elem_of_app in Hi.
    assert (c ∈ G ∪ F1 ∪ F2) as Hin; [|clear -Hin Rc D4 D5 D6; set_solver]. rewrite !elem_of_union.
    pose proof (ctx_leaves _ _ HW _ _ _ _ _ _ _ _ _ _ _ _ _ Hc c) as X1. rewrite elem_of_app in X1.
    pose proof (lforest_leaves _ _ HW _ _ _ _ _ _ _ _ _ HL c). pose proof (rforest_leaves _ _ HW _ _ _ _ _ _ _ _ _ HR c). tauto.
Qed.

(** The state after the right page is freed. *)
Lemma after_merge t1 : merged t t1 h c d b b' (kc ++ kd) (Fc ∪ Fd) (LL ++ l1) (l2 ++ RL) ->
  exists lvs' F', tree K V (pages (freed t1 d)) h c b b' (kc ++ kd) lvs' F' /\ Fc ∪ Fd = F' ∪ {[d]} /\ d ∉ F' /\
    chain K V (pages (freed t1 d)) (LL ++ (l1 ++ lvs' ++ l2) ++ RL) 0 /\
    lforest (tree K V (pages (freed t1 d)) h) sa ca lo b k1 l1 F1 /\ rforest (tree K V (pages (freed t1 d)) h) sb cb b' hi k2 l2 F2 /\
    ctx K V (pages (freed t1 d)) H (root_page_id t1) path (S h) p lo hi L R LL RL G /\
    (forall i, i ∈ LL ++ (l1 ++ lvs' ++ l2) ++ RL -> i <> p).
Proof.
  intros ((lvs' & F' & HT & Hd & EF & Hch') & Er & En & Hsim). destruct HS as [Hc Hno HL HR Hpp Hbr Hwc Hwd _ _ Ho (D1 & D2 & D3 & D4 & D5 & D6 & D7) Hch Hids].
  apply wtree_root in Hwc as [Rc _], Hwd as [Rd _].
  assert (forall i, i ∈ G ∪ F1 ∪ F2 -> sim K V (pages t) (pages (freed t1 d)) i) as HSim.
  { intros i Hi. assert (i <> c /\ i <> d) as [N1 N2] by (split; intros ->; clear -Hi Rc Rd D4 D5 D6; set_solver).
    destruct (Hsim i N1) as [E|(p1 & p2 & n & ks & X1 & X2)]; [left; by rewrite freed_other|right]. exists p1, p2, n, ks. split; [done|].
    destruct X2 as (q & Hq & Hl). exists q. split; [by rewrite freed_other|done]. }
  assert (forall i, i ∈ LL ++ (l1 ++ lvs' ++ l2) ++ RL -> i ∈ G ∪ F1 ∪ F2 ∪ F') as Hin.
  { intros i. pose proof (ctx_leaves _ _ HW _ _ _ _ _ _ _ _ _ _ _ _ _ Hc i) as X1. rewrite elem_of_app in X1.
    pose proof (lforest_leaves _ _ HW _ _ _ _ _ _ _ _ _ HL i). pose proof (rforest_leaves _ _ HW _ _ _ _ _ _ _ _ _ HR i).
    pose proof (proj1 (proj2 (tree_dom _ _ HW _ _ _ _ _ _ _ _ HT)) i). rewrite !elem_of_app, !elem_of_union. tauto. }
  exists lvs', F'. split_and!; try done.
  - eapply (tree_frame _ _ HW); [|exact HT]. intros i Hi. left. apply freed_other. by intros ->.
  - eapply (chain_frame _ _ HW) with (S := pages t1); [|by rewrite <- app_around2]. intros i Hi. left. apply freed_other. intros ->.
    apply Hin in Hi. clear -Hi Rd D4 D5 D6 Hd. set_solver.
  - eapply (lforest_frame _ _ HW); [|exact HL]. intros i Hi. apply HSim. clear -Hi. set_solver.
  - eapply (rforest_frame _ _ HW); [|exact HR]. intros i Hi. apply HSim. clear -Hi. set_solver.
  - rewrite Er. eapply (ctx_frame _ _ HW); [|exact Hc]. intros i Hi. apply HSim. clear -Hi. set_solver.
  - intros i Hi ->. apply Hin in Hi. assert (p ∈ G ∪ F1 ∪ F2 ∪ (Fc ∪ Fd)) by (rewrite EF; clear -Hi; set_solver). contradiction.
Qed.

(** What [rebalance_up] does for the parent. *)
Definition rebalances (up : Z -> BT unit) : Prop := forall u pg kvs lvs F,
  ctx K V (pages u) H (root_page_id u) path (S h) p lo hi L R LL RL G -> wtree (pages u) (S h) p lo hi kvs lvs F -> G ## F ->
  pages u !! p = Some pg -> is_underfull pg = true -> chain K V (pages u) (LL ++ lvs ++ RL) 0 -> (forall i, i ∈ G ∪ F -> i < next_page_id u) ->
  exists t', up p u = Some (Ok tt, t') /\ btree_inv K V t' (L ++ kvs ++ R) /\ next_page_id t' = next_page_id u.

Lemma si_delete : base.delete (length sa) (sa ++ s :: sb) = sa ++ sb /\ base.delete (length sa + 1)%nat (ca ++ c :: d :: cb) = ca ++ c :: cb.
Proof.
  destruct si_entries as (_ & _ & _ & _ & _ & _ & _ & El). split; [apply delete_middle|].
  rewrite (cons_middle c ca), app_assoc. replace (length sa + 1)%nat with (length (ca ++ [c])) by (rewrite length_app; cbn; lia).
  by rewrite delete_middle, <- app_assoc.
Qed.

(** The parent rewritten after the merge. *)
Lemma finish_merge t1 up (top : bool) q : merged t t1 h c d b b' (kc ++ kd) (Fc ∪ Fd) (LL ++ l1) (l2 ++ RL) ->
  branch_page K q p (sa ++ sb) (ca ++ c :: cb) -> (top = false -> rebalances up) -> (top = true -> sa ++ sb <> []) ->
  exists t', (put_page_with_lsn p q;; if is_underfull q && negb top then up p else mret tt) (freed t1 d) = Some (Ok tt, t') /\
    btree_inv K V t' (L ++ (k1 ++ (kc ++ kd) ++ k2) ++ R) /\ next_page_id t' = next_page_id t.
Proof.
  intros Hmg Hq Hup Htop. destruct (after_merge t1 Hmg) as (lvs' & F' & HT & EF & Hd & Hch & HL & HR & Hc & Hnp).
  destruct Hmg as (_ & Er & En & _). pose proof HS as [_ Hno _ _ _ _ _ _ _ _ Ho (D1 & D2 & D3 & D4 & D5 & D6 & D7) _ Hids].
  assert (p ∉ G ∪ F1 ∪ F2 ∪ F' /\ F1 ## F' /\ F' ## F2 /\ G ## F') as (Ho' & D5' & D6' & D4') by (clear -EF Ho D4 D5 D6; set_solver).
  erewrite bind_ok by apply put_ok. set (u := put (freed t1 d) p q).
  assert (forall i, i <> p -> sim K V (pages (freed t1 d)) (pages u) i) as HSim by (intros i Hi; left; by apply put_other).
  pose proof (forest_join _ sa sb ca c cb _ _ _ _ _ _ _ _ _ _ _ _ _ HL HT HR D5' D3 D6') as Hf.
  assert (p ∉ F1 ∪ F' ∪ F2) as Hpf by (clear -Ho'; set_solver).
  eapply (forest_frame _ _ HW _ (pages u)) in Hf; [|intros i Hi; apply HSim; by intros ->].
  assert (ctx K V (pages u) H (root_page_id u) path (S h) p lo hi L R LL RL G) as Hcu.
  { eapply (ctx_frame _ _ HW); [|exact Hc]. intros i Hi. apply HSim. intros ->. clear -Hi Ho'. set_solver. }
  assert (chain K V (pages u) (LL ++ (l1 ++ lvs' ++ l2) ++ RL) 0) as Hchu by (eapply (chain_frame _ _ HW); [|exact Hch]; intros i Hi; by apply HSim, Hnp).
  assert (branch_at K (pages u) p (sa ++ sb) (ca ++ c :: cb)) as Hbu by (by apply (put_branch_at K V HW)).
  assert (forall i, i ∈ G ∪ ({[p]} ∪ (F1 ∪ F' ∪ F2)) -> i < next_page_id u) as Hidu.
  { intros i Hi. cbn [next_page_id put freed u]. rewrite En. apply Hids. rewrite EF. clear -Hi. set_solver. }
  assert (next_page_id u = next_page_id t) as Enu by exact En.
  assert (G ## {[p]} ∪ (F1 ∪ F' ∪ F2)) as DG by (clear -Ho' D1 D2 D4'; set_solver).
  destruct (is_underfull q && negb top) eqn:Eu.
  - apply andb_true_iff in Eu as [Eu Et]. apply negb_true_iff in Et. rewrite <- Enu.
    assert (pages u !! p = Some (set_page_lsn q (next_lsn (freed t1 d)))) as Hpu by (cbn [pages u put]; by rewrite lookup_insert_eq).
    destruct Hbu as (q' & Hq' & Hbq). rewrite Hpu in Hq'. injection Hq' as <-.
    eapply (Hup Et u); [done| |exact DG|exact Hpu| |exact Hchu|exact Hidu].
    + split; [eapply forest_bounds; [|exact Hf]; intros; by eapply (tree_bounds _ _ HW)|]. split; [done|].
      exists (sa ++ sb), (ca ++ c :: cb), (F1 ∪ F' ∪ F2). split; [by eexists|]. done.
    + rewrite <- Eu. by eapply branch_underfull_eq.
  - exists u. split; [done|]. split; [|done]. exists H, (LL ++ (l1 ++ lvs' ++ l2) ++ RL), (G ∪ ({[p]} ∪ (F1 ∪ F' ∪ F2))). split; [|done|done].
    eapply (ctx_plug _ _ HW); [exact Hcu| |exact DG]. eapply (tree_branch _ _ HW); [exact Hbu|done| |exact Hf|done].
    apply andb_false_iff in Eu as [Eu|Eu]; [|apply Htop; by destruct top]. pose proof (branch_low _ _ _ _ Hq) as Hlow. by rewrite Eu in Hlow.
Qed.

End Siblings.

Lemma merge_node_spec t H path h p pp lo hi b b' L R LL RL G sa sb ca cb k1 k2 l1 l2 F1 F2 c d s pc pd kc kd lc ld Fc Fd
  (HS : siblings t H path h p pp lo hi b b' L R LL RL G sa sb ca cb k1 k2 l1 l2 F1 F2 c d s pc pd kc kd lc ld Fc Fd) up idx :
  (if (idx =? 0)%nat then idx else (idx - 1)%nat) = length sa -> kc ++ kd <> [] -> can_merge pc pd ->
  (path <> [] -> @rebalances H path h p lo hi L R LL RL G up) ->
  let top := match path with [] => true | _ => false end in
  let il := match h with O => true | _ => false end in
  exists t', merge_node config_default up top p (level (btree_header pp)) il idx (sa ++ s :: sb) (ca ++ c :: d :: cb) t = Some (Ok tt, t') /\
    btree_inv K V t' (L ++ (k1 ++ (kc ++ kd) ++ k2) ++ R) /\ next_page_id t' = next_page_id t.
Proof.
  intros Hidx Hne Hm Hup top il. destruct (si_lookups HS) as (E1 & E2 & E3 & _). destruct (si_delete HS) as [E4 E5].
  destruct (si_entries HS) as (_ & Ka & Kb & Hu & Hlen & Hfit & Hlv & El). destruct (merge_step HS Hne Hm) as (t1 & Em & Hmg).
  unfold merge_node. cbv zeta. rewrite Hidx. replace (length sa + 1)%nat with (S (length sa)) in * by lia.
  erewrite bind_ok by (apply try_ok; exact E1). erewrite bind_ok by (apply try_ok; exact E2). erewrite bind_ok by (apply try_ok; exact E3).
  cbv beta. erewrite bind_ok by exact Em. cbv beta. rewrite E4, E5. erewrite bind_ok by apply free_ok. cbv beta. erewrite bind_ok by reflexivity. cbv beta.
  destruct (top && (p =? root_page_id (freed t1 d)) && bool_decide (sa ++ sb = [])) eqn:Ecol.
  - apply andb_true_iff in Ecol as [Ecol E0%bool_decide_eq_true]. apply andb_true_iff in Ecol as [Etop _].
    destruct path as [|x path'] eqn:Epath; [|done]. apply app_nil in E0 as [-> ->].
    destruct (after_merge HS t1 Hmg) as (lvs' & F' & HT & EF & Hd & Hch & HL & HR & Hc & Hnp). destruct Hmg as (_ & Er & En & _).
    pose proof HS as [_ _ _ _ _ _ _ _ _ _ Ho _ _ Hids]. inversion Hc; subst. inversion HL; subst. destruct HR as (-> & -> & -> & -> & ->).
    cbn [app] in *. rewrite !app_nil_r in *.
    erewrite bind_ok by (by apply try_ok). cbv beta. erewrite bind_ok by reflexivity. cbv beta. rewrite free_ok. eexists. split; [reflexivity|]. split; [|done].
    assert (forall i, i ∈ F' -> i <> root_page_id t1) as HFp by (intros i Hi ->; apply Ho; rewrite EF; clear -Hi; set_solver).
    exists h, lvs', F'. split.
    + eapply (tree_frame _ _ HW); [|exact HT]. intros i Hi. left. etrans; [apply freed_other; by apply HFp|done].
    + eapply (chain_frame _ _ HW); [|exact Hch]. intros i Hi. left. etrans; [apply freed_other; by apply Hnp|done].
    + intros i Hi. cbn [next_page_id freed]. rewrite En. apply Hids. rewrite EF. clear -Hi. set_solver.
  - destruct (build_branch_fits K V HW p (level (btree_header pp)) (sa ++ sb) (ca ++ c :: cb)) as (q & Eq & Hq); [done|by apply Forall_app| | | |].
    + apply Forall_app in Hu as [Hu1 [Hu2 [_ Hu3]%Forall_cons]%Forall_cons]. apply Forall_app. split; [done|by constructor].
    + rewrite (length_app ca), (length_app sa) in Hlen |- *. cbn [length] in *. lia.
    + pose proof (branch_size_mono K (length (sa ++ sb)) (length (sa ++ s :: sb))). rewrite !length_app in *. cbn [length] in *. lia.
    + erewrite bind_ok by (apply try_ok; exact Eq). cbv beta. apply (finish_merge HS t1 up top q Hmg Hq).
      * intros Et. apply Hup. by destruct path.
      * intros Et E0. destruct path as [|x path'] eqn:Epath; [|done]. rewrite bool_decide_eq_true_2, andb_true_r in Ecol by done. cbn [andb top] in Ecol.
        destruct (after_merge HS t1 Hmg) as (_ & _ & _ & _ & _ & _ & _ & _ & Hc & _). inversion Hc; subst. cbn [freed root_page_id] in Ecol. by rewrite Z.eqb_refl in Ecol.
Qed.

(** ** A node and its left or right sibling *)

Section Node.
Context {t : BPlusTree} {H : nat} {path : list (Z * nat)} {h : nat} {p : Z} {pp : Page} {lo hi : bound}
  {L R : list kv} {LL RL : list Z} {G : gset Z} {ss1 ss2 : list (list Z)} {cs1 cs2 : list Z} {b b' : bound} {k1 k2 : list kv} {l1 l2 : list Z} {F1 F2 : gset Z}
  {id : Z} {pg : Page} {kvs : list kv} {lvs : list Z} {Fi : gset Z}.
Context (Hc : ctx K V (pages t) H (root_page_id t) path (S h) p lo hi L R LL RL G) (Hno : page_no p)
  (Hpp : pages t !! p = Some pp) (Hbr : branch_page K pp p (ss1 ++ ss2) (cs1 ++ id :: cs2))
  (HL : lforest (tree K V (pages t) h) ss1 cs1 lo b k1 l1 F1) (HR : rforest (tree K V (pages t) h) ss2 cs2 b' hi k2 l2 F2)
  (Ho : p ∉ G ∪ F1 ∪ F2) (D1 : G ## F1) (D2 : G ## F2) (D3 : F1 ## F2)
  (Hw : wtree (pages t) h id b b' kvs lvs Fi) (HD : {[p]} ∪ G ∪ F1 ∪ F2 ## Fi) (Hpg : pages t !! id = Some pg)
  (Hch : chain K V (pages t) ((LL ++ l1) ++ lvs ++ l2 ++ RL) 0)
  (Hids : forall i, i ∈ ({[p]} ∪ G ∪ F1 ∪ F2) ∪ Fi -> i < next_page_id t).
#[local] Set Default Proof Using "All".

Lemma with_left sa s : ss1 = sa ++ [s] -> exists b0 ca c pc k0 l0 F0 kc lc Fc, tree K V (pages t) h c b0 (Some s) kc lc Fc /\ kc <> [] /\
  cs1 = ca ++ [c] /\ k1 = k0 ++ kc /\
  siblings t H path h p pp lo hi b0 b' L R LL RL G sa ss2 ca cs2 k0 k2 l0 l2 F0 F2 c id s pc pg kc kvs lc lvs Fc Fi.
Proof.
  intros ->. pose proof (lforest_length _ _ _ _ _ _ _ _ HL) as Hlen. rewrite length_app in Hlen. cbn [length] in Hlen.
  destruct cs1 as [|c ca _] using rev_ind; [cbn in Hlen; lia|].
  destruct (lforest_unsnoc _ _ _ _ _ _ _ _ _ _ HL) as (b0 & k0 & l0 & F0 & kc & lc & Fc & HL0 & Tc & Eb & Ek & El & EF & D).
  destruct (proj1 (tree_dom _ _ HW _ _ _ _ _ _ _ _ Tc) c (tree_root _ _ HW _ _ _ _ _ _ _ _ Tc)) as [[pc Hpc] _].
  exists b0, ca, c, pc, k0, l0, F0, kc, lc, Fc. split; [done|]. split; [|split; [done|split; [done|]]].
  { intros E. pose proof (tree_leaf_count _ _ HW _ _ _ _ _ _ _ _ Tc). pose proof (tree_count _ _ HW _ _ _ _ _ _ _ _ Tc ltac:(right; by right)). rewrite E in *. cbn in *. lia. }
  rewrite Eb in Hw. rewrite El in Hch. split; try done.
  - by rewrite <- !app_assoc in Hbr.
  - by apply tree_wtree.
  - rewrite EF in Ho. clear -Ho HD. set_solver.
  - rewrite EF in D1, D3, HD. clear -D1 D2 D3 HD D. set_solver.
  - by rewrite app_pair_l in Hch.
  - intros i Hi. apply Hids. rewrite EF. clear -Hi. set_solver.
Qed.

Lemma with_right s sb : ss2 = s :: sb -> exists b0 d cb pd k0 l0 F0 kd ld Fd, tree K V (pages t) h d (Some s) b0 kd ld Fd /\ kd <> [] /\
  cs2 = d :: cb /\ k2 = kd ++ k0 /\
  siblings t H path h p pp lo hi b b0 L R LL RL G ss1 sb cs1 cb k1 k0 l1 l0 F1 F0 id d s pg pd kvs kd lvs ld Fi Fd.
Proof.
  intros ->. destruct HR as [Eb Hf]. pose proof (forest_length _ _ _ _ _ _ _ _ Hf) as Hlen. destruct cs2 as [|d cb]; [done|].
  destruct (forest_split _ [] sb [] d cb _ _ _ _ _ Hf eq_refl) as (b1 & b0 & ka & la & Fa & kd & ld & Fd & k0 & l0 & F0 & HA & Td & HR0 & Ek & El & EF & X1 & X2 & X3).
  inversion HA; subst b1 ka la Fa. cbn [app] in Ek, El. rewrite union_empty_l_L in EF.
  destruct (proj1 (tree_dom _ _ HW _ _ _ _ _ _ _ _ Td) d (tree_root _ _ HW _ _ _ _ _ _ _ _ Td)) as [[pd Hpd] _].
  exists b0, d, cb, pd, k0, l0, F0, kd, ld, Fd. split; [done|]. split; [|split; [done|split; [done|]]].
  { intros E. pose proof (tree_leaf_count _ _ HW _ _ _ _ _ _ _ _ Td). pose proof (tree_count _ _ HW _ _ _ _ _ _ _ _ Td ltac:(right; by left)). rewrite E in *. cbn in *. lia. }
  rewrite Eb in Hw. rewrite El in Hch. split; try done.
  - by apply tree_wtree.
  - rewrite EF in Ho. clear -Ho HD EF. set_solver.
  - rewrite EF in D2, D3, HD. clear -D1 D2 D3 HD X3. set_solver.
  - by rewrite app_pair_r in Hch.
  - intros i Hi. apply Hids. rewrite EF. clear -Hi. set_solver.
Qed.
End Node.

(** ** Rebalancing up a path *)

Lemma rebalance_node_spec path : forall t H h id pg lo hi L R LL RL F kvs lvs F1, path <> [] ->
  ctx K V (pages t) H (root_page_id t) path h id lo hi L R LL RL F -> wtree (pages t) h id lo hi kvs lvs F1 -> F ## F1 ->
  pages t !! id = Some pg -> is_underfull pg = true -> chain K V (pages t) (LL ++ lvs ++ RL) 0 -> (forall i, i ∈ F ∪ F1 -> i < next_page_id t) ->
  exists t', rebalance_node config_default path id t = Some (Ok tt, t') /\ btree_inv K V t' (L ++ kvs ++ R) /\ next_page_id t' = next_page_id t.
Proof.
  induction path as [|[p idx] path IH]; intros t H h id pg lo hi L R LL RL F kvs lvs Fi Hne Hc Hw HD Hpg Hund Hch Hids; [done|].
  inversion Hc as [|path0 h0 p0 id0 lo0 hi0 L0 R0 LL0 RL0 G ss1 ss2 cs1 cs2 b b' k1 l1 F1 k2 l2 F2 Hc0 Hb Hp (pp & Hpp & Hbr) Hse HL HR E1 E2 E3 E4]; subst.
  assert (path <> [] -> @rebalances H path h p lo0 hi0 L0 R0 LL0 RL0 G (rebalance_node config_default path)) as Hup.
  { intros Hne' u pg' kvs' lvs' F' X1 X2 X3 X4 X5 X6 X7. by eapply IH. }
  rewrite <- app_assoc in Hch. rewrite app_assoc in Hch.
  cbn [rebalance_node]. erewrite bind_ok by (by apply get_page_or_ok). cbv beta.
  erewrite bind_ok by (apply try_ok; eapply decode_branch_spec; exact Hbr). cbv beta iota. erewrite bind_ok by (by apply get_page_or_ok). cbv beta zeta.
  pose proof (lforest_length _ _ _ _ _ _ _ _ HL) as Hlen.
  pose proof (fun sa s => with_left Hc0 Hp Hpp Hbr HL HR E1 E2 E3 E4 Hw HD Hpg Hch Hids sa s) as WL.
  pose proof (fun s sb => with_right Hc0 Hp Hpp Hbr HL HR E1 E2 E3 E4 Hw HD Hpg Hch Hids s sb) as WR.
  assert (exists r, try_borrow_right config_default p id (level (btree_header pp)) (is_leaf pg) (length ss1) (ss1 ++ ss2) (cs1 ++ id :: cs2) t = r /\
    ((exists t', r = Some (Ok true, t') /\ btree_inv K V t' ((L0 ++ k1) ++ kvs ++ k2 ++ R0) /\ next_page_id t' = next_page_id t) \/
     (r = Some (Ok false, t) /\ (ss1 = [] -> exists t', merge_node config_default (rebalance_node config_default path) (match path with [] => true | _ => false end)
        p (level (btree_header pp)) (is_leaf pg) 0 (ss1 ++ ss2) (cs1 ++ id :: cs2) t = Some (Ok tt, t') /\
        btree_inv K V t' ((L0 ++ k1) ++ kvs ++ k2 ++ R0) /\ next_page_id t' = next_page_id t)))) as (rr & Err & Hright).
  { eexists. split; [reflexivity|]. destruct ss2 as [|s' sb'].
    - right. pose proof (rforest_length _ _ _ _ _ _ _ _ HR) as Hl2. split; [|intros ->; by destruct Hse]. unfold try_borrow_right.
      rewrite length_app. destruct cs2; [|done]. cbn [length]. by rewrite Hlen, Nat.ltb_irrefl.
    - destruct (WR s' sb' eq_refl) as (b0 & d & cb & pd & k0 & l0 & F0 & kd & ld & Fd & Td & Hkd & -> & -> & HSr).
      pose proof (try_right_spec HSr Td Hund) as Ht. cbv zeta in Ht. destruct (can_lend pd) eqn:Elend.
      + left. destruct Ht as (t' & E & Hinv & Hn). exists t'. by rewrite app_pair_r.
      + right. split; [done|]. intros Hss. rewrite (wtree_is_leaf _ _ _ _ _ _ _ _ _ Hw Hpg), app_pair_r.
        apply (merge_node_spec _ _ _ _ _ _ _ _ _ _ _ _ _ _ _ _ _ _ _ _ _ _ _ _ _ _ _ _ _ _ _ _ _ _ _ _ HSr); [by rewrite Hss|by destruct kvs|right; by split|done]. }
  destruct ss1 as [|s sa _] using rev_ind.
  - erewrite bind_ok by reflexivity. cbv iota.
    destruct Hright as [(t' & Er & Hinv & Hn)|[Er Hm]]; rewrite Er in Err; erewrite bind_ok by exact Err; cbv iota; [by exists t'|].
    by apply Hm.
  - destruct (WL sa s eq_refl) as (b0 & ca & c & pc & k0 & l0 & F0 & kc & lc & Fc & Tc & Hkc & -> & -> & HSl).
    pose proof (try_left_spec HSl Tc Hund) as Ht. cbv zeta in Ht.
    assert ((sa ++ [s]) ++ ss2 = sa ++ s :: ss2) as Es by (by rewrite <- app_assoc). assert ((ca ++ [c]) ++ id :: cs2 = ca ++ c :: id :: cs2) as Ec by (by rewrite <- app_assoc).
    assert (length (sa ++ [s]) = S (length sa)) as El by (rewrite length_app; cbn; lia). rewrite Es, Ec, El in *.
    destruct (can_lend pc) eqn:Elend.
    + destruct Ht as (t' & E & Hinv & Hn). erewrite bind_ok by exact E. cbv iota. exists t'. by rewrite app_pair_l.
    + erewrite bind_ok by exact Ht. cbv iota.
      destruct Hright as [(t' & Er & Hinv & Hn)|[Er _]]; rewrite Er in Err; erewrite bind_ok by exact Err; cbv iota; [by exists t'|].
      rewrite (wtree_is_leaf _ _ _ _ _ _ _ _ _ Hw Hpg), app_pair_l.
      apply (merge_node_spec _ _ _ _ _ _ _ _ _ _ _ _ _ _ _ _ _ _ _ _ _ _ _ _ _ _ _ _ _ _ _ _ _ _ _ _ HSl); [cbn; lia|by destruct kc|left; by split|done].
Qed.

(** ** Delete *)

Lemma tree_delete_spec t kvs k : btree_inv K V t kvs ->
  exists t', tree_delete config_default k t = Some (Ok (match kv_lookup k kvs with Some _ => true | None => false end), t') /\
    btree_inv K V t' (kv_delete k kvs) /\ next_page_id t' = next_page_id t.
Proof.
  intros (H & lvs & F & Hh). unfold tree_delete.
  destruct (holds_focus _ _ HW _ _ _ _ _ k Hh) as (root & id & leaf & path & lo & hi & kvs' & L & R & LL & RL & F' & Hr & Hd & _ & Hfo & -> & -> & EF & Hlen).
  erewrite bind_ok by reflexivity. erewrite bind_ok by (by apply get_page_or_ok). cbv beta.
  assert (descend_to_leaf_with_path root k t = Some (Ok (Some (id, leaf, path)), t)) as Ed by (unfold descend_to_leaf_with_path; by rewrite Hd).
  erewrite bind_ok by exact Ed. erewrite bind_ok by reflexivity. cbv beta iota.
  pose proof Hfo as [Hpg Hc Hleaf Hk Hout]. destruct (ctx_sides _ _ HW _ _ _ _ _ _ _ _ _ _ _ _ _ k Hc Hk) as [HL HR].
  pose proof (tree_page_no _ _ HW _ _ _ _ _ _ _ _ Hleaf) as Hno. pose proof (tree_bounds _ _ HW _ _ _ _ _ _ _ _ Hleaf) as Hbo.
  pose proof (tree_node_leaf _ _ HW _ _ _ _ _ _ _ _ Hleaf Hpg) as (prev & next & Hl). destruct (tree_sorted _ _ HW _ _ _ _ _ _ _ _ Hleaf) as [Hs Hw].
  destruct (leaf_place K V HW leaf id prev next kvs' k Hl Hs) as (l1 & l2 & -> & Elb & Een & Hl1 & Hcase).
  cbv zeta. unfold leaf_key. rewrite Een, Elb. apply sorted_app in Hs as (S1 & S2 & S12). apply Forall_app in Hw as [W1 W2].
  destruct Hcase as [(v & l2' & -> & H2)|[H2 Hne]].
  - cbn [head fmap option_fmap option_map fst]. rewrite bytes_eqb_refl.
    destruct (delete_leaf K V HW leaf id prev next l1 (k, v) l2' Hl) as (q & Eq & Hq); [unfold page_no, uint in *; lia|].
    erewrite bind_ok by (apply try_ok; exact Eq). cbv beta iota. erewrite bind_ok by apply put_ok. cbv beta.
    assert (forall e : kv, e ∈ (L ++ l1) ++ (l2' ++ R) -> e.1 <> k) as Hab.
    { intros e He E. rewrite !elem_of_app in He. destruct He as [[He|He]|[He|He]];
        [apply (klt_ne e.1 k)|apply (klt_ne e.1 k)|apply (klt_ne k e.1)|apply (klt_ne k e.1)]; auto. }
    rewrite app_around, kv_delete_at by done. rewrite kv_lookup_app by (intros e He; apply Hab, elem_of_app; by left). cbn [kv_lookup fst]. rewrite bytes_eqb_refl.
    rewrite <- (app_assoc L l1), (app_assoc l1 l2').
    apply sorted_cons in S2 as [S2 Se]. apply Forall_cons in W2 as [We W2].
    assert (sorted (l1 ++ l2')) as Hs' by (apply sorted_app; split; [done|]; split; [done|]; intros x y Hx Hy; apply S12; [done|by right]).
    assert (Forall (fun e => within lo hi e.1) (l1 ++ l2')) as Hw' by (by apply Forall_app).
    set (u := put t id q). assert (pages u !! id = Some (set_page_lsn q (next_lsn t))) as Hu by (cbn [pages u put]; by rewrite lookup_insert_eq).
    assert (exists t', rebalance_after_delete config_default id path u = Some (Ok tt, t') /\ btree_inv K V t' (L ++ (l1 ++ l2') ++ R) /\ next_page_id t' = next_page_id t) as (t' & Er & Hinv & Hn).
    2: { erewrite bind_ok by exact Er. by exists t'. }
    unfold rebalance_after_delete. erewrite bind_ok by (by apply get_page_or_ok). cbv beta.
    pose proof (lsn_leaf _ _ _ _ _ _ _ (next_lsn t) Hq) as Hq'.
    destruct (match path with [] => true | _ => false end || negb (is_underfull (set_page_lsn q (next_lsn t)))) eqn:Estop.
    + exists u. split; [done|]. split; [|done]. exists H, (LL ++ id :: RL), F. eapply update_leaf; [exact HW|exact Hh|exact Hfo|done|done|exact Hl|exact Hq|done|done|].
      intros E0. apply orb_true_iff in Estop as [Ep|Eu]; [destruct path; [|done]; by inversion Hc|].
      apply negb_true_iff in Eu. pose proof (leaf_low _ _ _ _ _ Hq') as Hlow. rewrite Eu in Hlow. contradiction.
    + apply orb_false_iff in Estop as [Ep Eu]. apply negb_false_iff in Eu. destruct Hh as [_ Hch Hids].
      assert (forall i, i <> id -> sim K V (pages t) (pages u) i) as HSim by (intros i Hi; left; by apply put_other).
      eapply (rebalance_node_spec path u H 0 id _ lo hi L R LL RL F' (l1 ++ l2') [id] {[id]}); [by destruct path| | | |exact Hu|exact Eu| |].
      * eapply (ctx_frame _ _ HW); [|exact Hc]. intros i Hi. apply HSim. by intros ->.
      * split; [done|]. split; [done|]. split; [|done]. exists prev, next. by apply put_leaf_at.
      * clear -Hout. set_solver.
      * cbn [app]. eapply (chain_update _ _ HW); [exact Hch| |by exists leaf|by apply put_leaf_at]. intros i Hi. apply HSim. intros ->.
        by apply Hout, (ctx_leaves _ _ HW _ _ _ _ _ _ _ _ _ _ _ _ _ Hc).
      * intros i Hi. cbn [next_page_id u put]. apply Hids. by rewrite EF.
  - match goal with |- context [if ?f then _ else _] => assert (f = false) as -> end.
    { destruct (head l2) as [e|]; [|done]. cbn. destruct (bytes_eqbP e.1 k); [|done]. by destruct (Hne e). }
    assert (forall e : kv, e ∈ L ++ (l1 ++ l2) ++ R -> e.1 <> k) as Hab.
    { intros e He E. rewrite !elem_of_app in He. destruct He as [He|[[He|He]|He]];
        [apply (klt_ne e.1 k)|apply (klt_ne e.1 k)|apply (klt_ne k e.1)|apply (klt_ne k e.1)]; auto. }
    exists t. rewrite kv_lookup_None, kv_delete_absent by done. split; [done|]. split; [|done]. by exists H, (LL ++ id :: RL), F.
Qed.
End Delete.
