(* ===== verification/BTreeMap.v ===== *)
(** * The B+ tree refines a finite map

    Histories of inserts, deletes, lookups and range scans on a fresh tree: every
    operation returns, and answers as the finite map from keys to values. *)

From stdpp Require Import prelude list gmap sorting.
From Stdlib Require Import ZArith Lia.
From S2P Require Import Prelude Bytes SlottedPage BTreePage Key BTree BTreeNode BTreeSpec BTreeInsert BTreeRange BTreeDelete.

(** ** The map of a sorted list of entries *)

Definition to_map (kvs : list kv) : gmap (list Z) (list Z) := list_to_map kvs.

Lemma to_map_lookup kvs k : to_map kvs !! k = kv_lookup k kvs.
Proof.
  unfold to_map. induction kvs as [|[k' v] kvs IH]; [apply lookup_empty|]. cbn [list_to_map foldr kv_lookup fst snd].
  destruct (bytes_eqbP k' k) as [->|Hne]; [apply lookup_insert_eq|]. rewrite lookup_insert_ne by done. exact IH.
Qed.

Lemma kv_lookup_elem kvs k v : sorted kvs -> kv_lookup k kvs = Some v <-> (k, v) ∈ kvs.
Proof.
  intros Hs. rewrite <- to_map_lookup. unfold to_map. symmetry. apply elem_of_list_to_map. by apply sorted_nodup.
Qed.

Lemma kv_lookup_insert kvs k v k' : sorted kvs -> kv_lookup k' (kv_insert k v kvs) = if bytes_eqb k k' then Some v else kv_lookup k' kvs.
Proof.
  induction kvs as [|e l IH]; intros Hs; cbn [kv_insert]; [done|]. apply sorted_cons in Hs as [Hs He].
  destruct (bytes_ltP e.1 k) as [Hlt|Hge]; cbn [kv_lookup].
  - rewrite IH by done. destruct (bytes_eqbP e.1 k') as [<-|]; [|done]. destruct (bytes_eqbP k e.1) as [->|]; [|done]. by destruct (klt_irrefl e.1).
  - destruct (bytes_eqbP e.1 k) as [<-|Hne]; cbn [kv_lookup fst snd]; [|done]. by destruct (bytes_eqbP e.1 k').
Qed.

Lemma kv_lookup_delete kvs k k' : kv_lookup k' (kv_delete k kvs) = if bytes_eqb k k' then None else kv_lookup k' kvs.
Proof.
  unfold kv_delete. induction kvs as [|e l IH]; [by destruct (bytes_eqb k k')|].
  destruct (decide (e.1 = k)) as [E|E]; [rewrite filter_cons_False by tauto|rewrite filter_cons_True by done]; cbn [kv_lookup]; rewrite IH.
  - destruct (bytes_eqbP k k'); [done|]. destruct (bytes_eqbP e.1 k'); [congruence|done].
  - destruct (bytes_eqbP e.1 k') as [<-|]; [|done]. by destruct (bytes_eqbP k e.1).
Qed.

Lemma kv_insert_length k v l : (length (kv_insert k v l) <= S (length l))%nat.
Proof. induction l as [|e l IH]; cbn [kv_insert length]; [lia|]. destruct (bytes_lt e.1 k); [cbn; lia|]. destruct (bytes_eqb e.1 k); cbn; lia. Qed.

Lemma to_map_insert kvs k v : sorted kvs -> to_map (kv_insert k v kvs) = <[k := v]> (to_map kvs).
Proof.
  intros Hs. apply map_eq. intros i. rewrite to_map_lookup, kv_lookup_insert by done. destruct (bytes_eqbP k i) as [->|Hne].
  - by rewrite lookup_insert_eq.
  - by rewrite lookup_insert_ne, to_map_lookup.
Qed.

Lemma to_map_delete kvs k : to_map (kv_delete k kvs) = base.delete k (to_map kvs).
Proof.
  apply map_eq. intros i. rewrite to_map_lookup, kv_lookup_delete. destruct (bytes_eqbP k i) as [->|Hne].
  - by rewrite lookup_delete_eq.
  - by rewrite lookup_delete_ne, to_map_lookup.
Qed.

(** ** Histories *)

Inductive index_op :=
| OpInsert (k v : list Z)
| OpDelete (k : list Z)
| OpSearch (k : list Z)
| OpRange (a b : list Z).

Inductive index_out :=
| OutUnit
| OutBool (found : bool)
| OutValue (v : option (list Z))
| OutRange (l : list (list Z * list Z)).

(** One operation of the tree; a lookup is [search] and the record at the place
    it returns. *)
Definition run_op (o : index_op) (t : BPlusTree) : option (index_out * BPlusTree) :=
  match o with
  | OpInsert k v => match insert k v t with Some (Ok _, t') => Some (OutUnit, t') | _ => None end
  | OpDelete k => match tree_delete config_default k t with Some (Ok f, t') => Some (OutBool f, t') | _ => None end
  | OpSearch k => r ← search t k; Some (OutValue (search_answer t k r), t)
  | OpRange a b => l ← range_search t a b; Some (OutRange l, t)
  end.

Fixpoint run_ops (ops : list index_op) (t : BPlusTree) : option (list index_out * BPlusTree) :=
  match ops with
  | [] => Some ([], t)
  | o :: ops => '(x, t) ← run_op o t; '(xs, t) ← run_ops ops t; Some (x :: xs, t)
  end.

(** The abstract index: a finite map. *)
Definition range_of (m : gmap (list Z) (list Z)) (a b : list Z) (l : list (list Z * list Z)) : Prop :=
  sorted l /\ forall k v, (k, v) ∈ l <-> m !! k = Some v /\ bytes_le a k = true /\ bytes_lt k b = true.

Definition spec_op (o : index_op) (m : gmap (list Z) (list Z)) (x : index_out) (m' : gmap (list Z) (list Z)) : Prop :=
  match o, x with
  | OpInsert k v, OutUnit => m' = <[k := v]> m
  | OpDelete k, OutBool f => f = bool_decide (is_Some (m !! k)) /\ m' = base.delete k m
  | OpSearch k, OutValue r => r = m !! k /\ m' = m
  | OpRange a b, OutRange l => range_of m a b l /\ m' = m
  | _, _ => False
  end.

Fixpoint spec_ops (ops : list index_op) (m : gmap (list Z) (list Z)) (xs : list index_out) (m' : gmap (list Z) (list Z)) : Prop :=
  match ops, xs with
  | [], [] => m' = m
  | o :: ops, x :: xs => exists m1, spec_op o m x m1 /\ spec_ops ops m1 xs m'
  | _, _ => False
  end.

Definition op_ok (K V : nat) (o : index_op) : Prop :=
  match o with OpInsert k v => key_ok K k /\ val_ok V v | _ => True end.

Section Refine.
Context (K V : nat) (HW : widths_ok K V).
#[local] Set Default Proof Using "K V HW".

Lemma inv_sorted t kvs : btree_inv K V t kvs -> sorted kvs.
Proof. intros (H & lvs & F & [HT _ _]). by apply (tree_sorted _ _ HW) in HT as [? _]. Qed.

Lemma sorted_filter_range a b kvs : sorted kvs -> sorted (kv_range a b kvs).
Proof.
  induction kvs as [|e l IH]; [done|]. intros [Hs He]%sorted_cons. unfold kv_range. destruct (decide (in_range a b e = true)).
  - rewrite filter_cons_True by done. apply sorted_cons. split; [by apply IH|]. intros y [_ Hy]%list_elem_of_filter. by apply He.
  - rewrite filter_cons_False by done. by apply IH.
Qed.

Lemma range_of_map a b kvs : sorted kvs -> range_of (to_map kvs) a b (kv_range a b kvs).
Proof.
  intros Hs. split; [by apply sorted_filter_range|]. intros k v. rewrite to_map_lookup, kv_lookup_elem by done. unfold kv_range, in_range.
  rewrite list_elem_of_filter, andb_true_iff. cbn [fst]. tauto.
Qed.

Lemma run_op_spec t kvs o : btree_inv K V t kvs -> op_ok K V o -> roomy K (S (length kvs)) -> next_page_id t < 2 ^ 63 ->
  exists x t' kvs', run_op o t = Some (x, t') /\ btree_inv K V t' kvs' /\ spec_op o (to_map kvs) x (to_map kvs') /\
    (length kvs' <= S (length kvs))%nat /\ next_page_id t' <= next_page_id t + 65.
Proof.
  intros Hi Ho Hr Hn. pose proof (inv_sorted _ _ Hi) as Hs. destruct o as [k v|k|k|a b]; cbn [run_op spec_op op_ok] in *.
  - destruct (insert_spec K V HW t kvs k v Hi Ho Hr Hn) as (t' & -> & Hi' & Hn'). exists OutUnit, t', (kv_insert k v kvs).
    rewrite to_map_insert by done. split_and!; [done..|apply kv_insert_length|done].
  - destruct (tree_delete_spec K V HW t kvs k Hi) as (t' & -> & Hi' & Hn'). eexists _, t', (kv_delete k kvs). split; [done|]. split; [done|]. split.
    + rewrite to_map_lookup, to_map_delete. split; [|done]. destruct (kv_lookup k kvs); [by rewrite bool_decide_eq_true_2|].
      by rewrite bool_decide_eq_false_2 by (intros []; done).
    + unfold kv_delete. pose proof (length_filter (fun e : kv => e.1 <> k) kvs). lia.
  - destruct (search_spec K V HW t kvs k Hi) as (r & -> & Ha & _). rewrite Some_bind. eexists _, t, kvs. rewrite Ha, to_map_lookup. split_and!; [done..|lia|lia].
  - rewrite (range_search_spec K V HW t kvs a b Hi), Some_bind. eexists _, t, kvs. split_and!; [done|done|split; [by apply range_of_map|done]|lia|lia].
Qed.

Lemma run_ops_spec ops : forall t kvs, btree_inv K V t kvs -> Forall (op_ok K V) ops -> roomy K (length kvs + length ops) ->
  next_page_id t + 65 * Z.of_nat (length ops) < 2 ^ 63 ->
  exists xs t' kvs', run_ops ops t = Some (xs, t') /\ btree_inv K V t' kvs' /\ spec_ops ops (to_map kvs) xs (to_map kvs').
Proof.
  induction ops as [|o ops IH]; intros t kvs Hi Hok Hr Hn; [by exists [], t, kvs|]. apply Forall_cons in Hok as [Ho Hok]. cbn [length] in *.
  destruct (run_op_spec t kvs o Hi Ho) as (x & t1 & kvs1 & E & Hi1 & Hs1 & Hl1 & Hn1); [eapply (roomy_mono _ _ HW); [exact Hr|lia]|lia|].
  destruct (IH t1 kvs1 Hi1 Hok) as (xs & t' & kvs' & E' & Hi' & Hs'); [eapply (roomy_mono _ _ HW); [exact Hr|lia]|lia|].
  exists (x :: xs), t', kvs'. cbn [run_ops spec_ops]. rewrite E, Some_bind, E', Some_bind. split; [done|]. split; [done|]. by exists (to_map kvs1).
Qed.
End Refine.

(** ** The theorems *)

(** The hypotheses on a history: fixed widths, no branch in the overflow window
    of [window_free] (or too few operations to fill a branch), and page ids that
    do not wrap. *)
Definition history_ok (K V : nat) (ops : list index_op) : Prop :=
  widths_ok K V /\ Forall (op_ok K V) ops /\ (window_free K \/ branch_size K (length ops) <= 8096) /\ Z.of_nat (length ops) < 2 ^ 56.

Lemma history_spec K V ops : history_ok K V ops ->
  exists xs t kvs, run_ops ops tree_new = Some (xs, t) /\ btree_inv K V t kvs /\ spec_ops ops ∅ xs (to_map kvs).
Proof.
  intros (HW & Hok & Hroom & Hn). apply (run_ops_spec K V HW ops tree_new []); [by apply tree_new_inv|done|done|].
  cbn [next_page_id tree_new]. lia.
Qed.

Lemma history_inv K V ops xs t : history_ok K V ops -> run_ops ops tree_new = Some (xs, t) -> exists kvs, btree_inv K V t kvs.
Proof.
  intros Hh E. destruct (history_spec K V ops Hh) as (xs' & t' & kvs & E' & Hi & _). rewrite E in E'. injection E' as -> ->. by exists kvs.
Qed.

(** C5: every history of inserts, deletes, lookups and range scans on a fresh
    tree, within the limits of [history_ok] (keys of one width from 8 to 1000
    bytes, values of one width, records of at most 2048 bytes, and a key width
    in the sense of [window_free] or too few operations to fill a branch), runs
    to the end without panic or error, and its answers are those of a finite
    map: lookups find exactly the stored values, deletes report whether the key
    was there, and a range scan returns the entries of the range in key order. *)
Theorem btree_refines_map K V ops : history_ok K V ops ->
  exists xs t m, run_ops ops tree_new = Some (xs, t) /\ spec_ops ops ∅ xs m.
Proof. intros Hh. destruct (history_spec K V ops Hh) as (xs & t & kvs & E & _ & Hs). by exists xs, t, (to_map kvs). Qed.

(** ** Types of pages *)

(** The pages that child pointers lead to from the root. *)
Inductive reachable (t : BPlusTree) : Z -> Prop :=
| reach_root : reachable t (root_page_id t)
| reach_child i p seps children c : reachable t i -> pages t !! i = Some p -> is_branch p = true ->
    decode_branch p = Some (seps, children) -> c ∈ children -> reachable t c.

Definition typed_page (K V : nat) (i : Z) (p : Page) : Prop :=
  (exists prev next kvs, leaf_page K V p i prev next kvs) \/ (exists seps children, branch_page K p i seps children).

Lemma forest_child (T : Z -> bound -> bound -> list kv -> list Z -> gset Z -> Prop) ss cs lo hi k l F : forest T ss cs lo hi k l F ->
  forall c, c ∈ cs -> exists lo' hi' k' l' F', T c lo' hi' k' l' F'.
Proof.
  induction 1 as [c lo hi kvs l F H1|s ss c cs lo hi kvs1 kvs2 l1 l2 F1 F2 H1 Hf IH Hd]; intros c'.
  - intros ->%list_elem_of_singleton. eauto 10.
  - intros [->|Hc]%elem_of_cons; [eauto 10|by apply IH].
Qed.

Lemma reachable_tree K V t kvs i : widths_ok K V -> btree_inv K V t kvs -> reachable t i ->
  exists h lo hi k l F, tree K V (pages t) h i lo hi k l F.
Proof.
  intros HW (H & lvs & F & [HT _ _]). induction 1 as [|i p seps children c Hr IH Hp Hb Hd Hc]; [eauto 10|].
  destruct IH as (h & lo & hi & k & l & G & Hi). destruct h as [|h].
  - destruct (tree_node_leaf _ _ HW _ _ _ _ _ _ _ _ Hi Hp) as (prev & next & Hl). apply leaf_is_leaf in Hl as [_ Hl]. congruence.
  - destruct Hi as (_ & _ & seps' & children' & G' & (q & Hq & Hbr) & _ & Hf & _). rewrite Hp in Hq. injection Hq as <-.
    rewrite (decode_branch_spec _ _ _ _ _ Hbr) in Hd. injection Hd as <- <-. destruct (forest_child _ _ _ _ _ _ _ _ Hf c Hc) as (? & ? & ? & ? & ? & ?). eauto 10.
Qed.

(** C21: after any history within the limits of [history_ok], following child
    pointers from the root never leads outside the store, and every page met is
    a well-formed leaf or branch page with its own page id: leaf records decode
    to keys and values of the index's widths, a branch has one child more than
    separators.  (Outside those limits a branch can be built that does not read
    back.) *)
Theorem btree_pages_typed K V ops xs t i : history_ok K V ops -> run_ops ops tree_new = Some (xs, t) -> reachable t i ->
  exists p, pages t !! i = Some p /\ typed_page K V i p /\ page_id p = i.
Proof.
  intros Hh E Hr. destruct (history_inv _ _ _ _ _ Hh E) as [kvs Hi]. pose proof Hh as (HW & _).
  destruct (reachable_tree K V t kvs i HW Hi Hr) as (h & lo & hi & k & l & F & HT). pose proof (tree_page_no _ _ HW _ _ _ _ _ _ _ _ HT) as Hno.
  destruct (proj1 (tree_dom _ _ HW _ _ _ _ _ _ _ _ HT) i (tree_root _ _ HW _ _ _ _ _ _ _ _ HT)) as [[p Hp] _]. exists p. split; [done|].
  assert (uint 64 i) as Ui by (unfold page_no, uint in *; lia). destruct h as [|h].
  - destruct (tree_node_leaf _ _ HW _ _ _ _ _ _ _ _ HT Hp) as (prev & next & Hl). split; [left; eauto|by eapply leaf_page_id].
  - destruct HT as (_ & _ & seps & children & G & (q & Hq & Hbr) & _). rewrite Hp in Hq. injection Hq as <-.
    split; [right; eauto|by eapply branch_page_id].
Qed.

(** ** The two range scans *)

(** C20: what range cursors show, on a tree reached by a history within the
    limits of [history_ok].  A cursor opened at [a] for the range up to [b] and
    advanced to a key [k] at or above [a] stands on the first entry that
    [range_search] from [k] to [b] returns, and reports whether there is one.
    Draining a new cursor with [into_range] gives exactly the entries of
    [range_search] when the leaf of the start key holds a key at or above it or
    is the last leaf, and nothing in the other case, where the documented
    equivalence of the two scans fails. *)
Theorem range_cursor_exact K V ops xs t a b : history_ok K V ops -> run_ops ops tree_new = Some (xs, t) ->
  (forall k c, cursor_from t a (Some b) = Some (Some c) -> bytes_le a k = true ->
     exists more c' l, advance_to (pages t) c k = Some (more, c') /\ range_search t k b = Some l /\ current c' = head l /\
       more = match current c' with Some _ => true | None => false end) /\
  into_range t a b = if start_covered t a then range_search t a b else Some [].
Proof.
  intros Hh E. destruct (history_inv _ _ _ _ _ Hh E) as [kvs Hi]. pose proof Hh as (HW & _). split.
  - intros k c Hc Hk. destruct (cursor_seek_spec K V HW t kvs a b k c Hi Hc Hk) as (more & c' & E1 & E2 & E3).
    exists more, c', (kv_range k b kvs). by rewrite (range_search_spec K V HW t kvs k b Hi).
  - rewrite (into_range_spec K V HW t kvs a b Hi), (range_search_spec K V HW t kvs a b Hi). by destruct (start_covered t a).
Qed.

(** ** Examples *)

Module Demo.

Definition key32 (x : Z) : list Z := repeat x 32.
Definition val8 (x : Z) : list Z := repeat x 8.

Definition ops : list index_op :=
  [OpInsert (key32 3) (val8 30); OpInsert (key32 1) (val8 10); OpInsert (key32 2) (val8 20); OpInsert (key32 1) (val8 11);
   OpDelete (key32 3); OpDelete (key32 9); OpSearch (key32 1); OpRange (key32 1) (key32 3)].

Definition outs : list index_out :=
  [OutUnit; OutUnit; OutUnit; OutUnit; OutBool true; OutBool false; OutValue (Some (val8 11));
   OutRange [(key32 1, val8 11); (key32 2, val8 20)]].

Definition final : BPlusTree := match run_ops ops tree_new with Some (_, t) => t | None => tree_new end.

Lemma ops_run : run_ops ops tree_new = Some (outs, final).
Proof. vm_compute. reflexivity. Qed.

(** 32-byte keys: 184 separators fit exactly, 185 are beyond the window. *)
Lemma window_free_32 : window_free 32.
Proof. intros n. unfold branch_size. lia. Qed.

Lemma ops_ok : history_ok 32 8 ops.
Proof.
  split; [split; lia|]. split; [|split; [left; exact window_free_32|vm_compute; reflexivity]].
  repeat constructor; cbn [op_ok]; (repeat split; try done; repeat constructor; lia).
Qed.

Definition seek_from : option (option BTreeRangeCursor) := cursor_from final (key32 1) (Some (key32 9)).
Definition seek_cursor : BTreeRangeCursor := match seek_from with Some (Some c) => c | _ => mkCursor 0 [] 0 None end.

Lemma seek_cursor_ok : cursor_from final (key32 1) (Some (key32 9)) = Some (Some seek_cursor).
Proof. vm_compute. reflexivity. Qed.
End Demo.

Lemma btree_refines_map_witness : exists xs t m, run_ops Demo.ops tree_new = Some (xs, t) /\ spec_ops Demo.ops ∅ xs m.
Proof. exact (btree_refines_map 32 8 Demo.ops Demo.ops_ok). Defined.

Lemma btree_pages_typed_witness : exists p, pages Demo.final !! root_page_id Demo.final = Some p /\
  typed_page 32 8 (root_page_id Demo.final) p /\ page_id p = root_page_id Demo.final.
Proof. exact (btree_pages_typed 32 8 Demo.ops Demo.outs Demo.final _ Demo.ops_ok Demo.ops_run (reach_root Demo.final)). Defined.

Lemma range_cursor_exact_witness :
  (exists more c' l, advance_to (pages Demo.final) Demo.seek_cursor (Demo.key32 2) = Some (more, c') /\
     range_search Demo.final (Demo.key32 2) (Demo.key32 9) = Some l /\ current c' = head l /\
     more = match current c' with Some _ => true | None => false end) /\
  into_range Demo.final (Demo.key32 1) (Demo.key32 9) =
    if start_covered Demo.final (Demo.key32 1) then range_search Demo.final (Demo.key32 1) (Demo.key32 9) else Some [].
Proof.
  destruct (range_cursor_exact 32 8 Demo.ops Demo.outs Demo.final (Demo.key32 1) (Demo.key32 9) Demo.ops_ok Demo.ops_run) as [H1 H2].
  split; [|exact H2]. apply H1; [exact Demo.seek_cursor_ok|reflexivity].
Defined.

(** ** Where the two scans differ, and where a branch overflows *)

Module Gaps.

Definition wide (x : Z) : list Z := repeat x 8.

Definition wide_ops : list index_op := map (fun x => OpInsert (wide (10 * x)) (repeat x 1500)) [1; 2; 3; 4; 5; 6; 7; 8; 9; 10; 11; 12].

(** A scan that starts between the last key of a leaf and the first key of the
    next one: [range_search] finds nine entries, the cursor none. *)
Lemma into_range_misses_entries :
  match run_ops wide_ops tree_new with
  | Some (_, t) => (into_range t (wide 35) (wide 200), length <$> range_search t (wide 35) (wide 200))
  | None => (None, None)
  end = (Some [], Some 9%nat).
Proof. vm_compute. reflexivity. Qed.

(** Four separators of 2015 bytes take 8108 bytes, more than the 8096 a branch
    has: the build does not refuse them, since compaction reclaims the 32 header
    bytes, and the entries read back are not those written. *)
Definition long_seps : list (list Z) := map (fun x => repeat x 2015) [1; 2; 3; 4].

Lemma branch_overflow_not_detected :
  match try_build_branch 9 1 long_seps [11; 12; 13; 14; 15] with
  | Some (Some p) => bool_decide (decode_branch p = Some (long_seps, [11; 12; 13; 14; 15]))
  | _ => true
  end = false.
Proof. vm_compute. reflexivity. Qed.
End Gaps.
