(* ===== verification/GraphRecord.v ===== *)
(** * Graph record formats ([src/graph/record.rs])

    The fixed-size node, edge and version-header records, the property header
    and the overflow handle are [repr(C)] structs copied to and from bytes on a
    little-endian machine; a struct is the list of its fields packed at their
    widths.  Property records are variable-length and mix the little-endian
    header with big-endian links.  [String::from_utf8] is modelled by the
    well-formedness table of the encoding. *)

From stdpp Require Import prelude list countable.
From Stdlib Require Import ZArith Lia.
From S2P Require Import Prelude Bytes ValueCodec.

(** ** UTF-8 validity ([std::str::from_utf8]) *)

Definition in_bytes (lo hi b : Z) : bool := (lo <=? b) && (b <=? hi).

(** The range of the second byte of a three-byte and of a four-byte sequence,
    given the first; [None] when the first byte starts no such sequence. *)
Definition second_of_three (b0 : Z) : option (Z * Z) :=
  if b0 =? 0xE0 then Some (0xA0, 0xBF)
  else if b0 =? 0xED then Some (0x80, 0x9F)
  else if in_bytes 0xE1 0xEF b0 then Some (0x80, 0xBF)
  else None.

Definition second_of_four (b0 : Z) : option (Z * Z) :=
  if b0 =? 0xF0 then Some (0x90, 0xBF)
  else if b0 =? 0xF4 then Some (0x80, 0x8F)
  else if in_bytes 0xF1 0xF3 b0 then Some (0x80, 0xBF)
  else None.

Fixpoint utf8_valid (l : list Z) : bool :=
  match l with
  | [] => true
  | b0 :: l1 =>
      if b0 <? 0x80 then utf8_valid l1 else
      match l1 with
      | [] => false
      | b1 :: l2 =>
          if in_bytes 0xC2 0xDF b0 then in_bytes 0x80 0xBF b1 && utf8_valid l2 else
          match l2 with
          | [] => false
          | b2 :: l3 =>
              match second_of_three b0 with
              | Some (lo, hi) => in_bytes lo hi b1 && in_bytes 0x80 0xBF b2 && utf8_valid l3
              | None =>
                  match l3 with
                  | [] => false
                  | b3 :: l4 =>
                      match second_of_four b0 with
                      | Some (lo, hi) =>
                          in_bytes lo hi b1 && in_bytes 0x80 0xBF b2 && in_bytes 0x80 0xBF b3 &&
                          utf8_valid l4
                      | None => false
                      end
                  end
              end
          end
      end
  end.

Definition from_utf8 (l : list Z) : option (list Z) := if utf8_valid l then Some l else None.

(** The bytes of a Rust [String]. *)
Definition is_string (s : list Z) : Prop := bytes_ok s /\ utf8_valid s = true.

(** ** Packed little-endian structs *)

Fixpoint pack_le (ws : list nat) (zs : list Z) : list Z :=
  match ws, zs with
  | w :: ws, z :: zs => to_le w z ++ pack_le ws zs
  | _, _ => []
  end.

Fixpoint unpack_le (ws : list nat) (b : list Z) : list Z :=
  match ws with
  | [] => []
  | w :: ws => from_le (take w b) :: unpack_le ws (drop w b)
  end.

Definition fields_ok (ws : list nat) (zs : list Z) : Prop :=
  Forall2 (fun w z => uint (8 * Z.of_nat w) z) ws zs.

Lemma length_pack_le ws zs : length ws = length zs -> length (pack_le ws zs) = sum_list ws.
Proof.
  revert zs. induction ws as [|w ws IH]; intros [|z zs]; simpl; try done.
  intros [= H]. rewrite length_app, length_to_le, IH by done. done.
Qed.

Lemma pack_le_ok ws zs : bytes_ok (pack_le ws zs).
Proof.
  revert zs. induction ws as [|w ws IH]; intros [|z zs]; simpl; try by constructor.
  apply bytes_ok_app. split; [apply to_le_ok|apply IH].
Qed.

Lemma unpack_pack_le ws zs rest :
  fields_ok ws zs -> unpack_le ws (pack_le ws zs ++ rest) = zs.
Proof.
  induction 1 as [|w z ws zs Hz _ IH]; simpl; [done|].
  rewrite <- app_assoc, take_app_length', drop_app_length' by (by rewrite length_to_le).
  by rewrite from_to_le_id, IH.
Qed.

Lemma length_unpack_le ws b : length (unpack_le ws b) = length ws.
Proof. revert b. induction ws; intros; simpl; auto. Qed.

Lemma unpack_le_ok ws b :
  bytes_ok b -> (sum_list ws <= length b)%nat -> fields_ok ws (unpack_le ws b).
Proof.
  revert b. induction ws as [|w ws IH]; intros b Hb Hl; simpl in *; constructor.
  - apply from_le_fixed; [by apply bytes_ok_take|]. rewrite length_take. lia.
  - apply IH; [by apply bytes_ok_drop|]. rewrite length_drop. lia.
Qed.

Lemma pack_unpack_le ws b :
  bytes_ok b -> (sum_list ws <= length b)%nat ->
  pack_le ws (unpack_le ws b) = take (sum_list ws) b.
Proof.
  revert b. induction ws as [|w ws IH]; intros b Hb Hl; simpl in *; [done|].
  rewrite IH; [|by apply bytes_ok_drop|rewrite length_drop; lia].
  destruct (from_le_fixed w (take w b)) as [_ ->];
    [by apply bytes_ok_take|rewrite length_take; lia|].
  apply take_take_drop.
Qed.

(** ** Slot references *)

Record SlotRef := mkSlotRef { raw : Z }.

#[global] Instance SlotRef_eq_dec : EqDecision SlotRef.
Proof. solve_decision. Defined.
#[global] Instance SlotRef_countable : Countable SlotRef.
Proof. apply (inj_countable' raw mkSlotRef). by intros []. Defined.

Definition SLOT_NULL : SlotRef := mkSlotRef 0.
Definition MAX_PAGE_ID : Z := 0x00FFFFFF.
Definition MAX_SLOT_INDEX : Z := 0xFF.

(** [SlotRef::new] without the debug assertion: the shift drops the page
    number's high byte. *)
Definition slot_new (page_id slot_index : Z) : SlotRef :=
  mkSlotRef (Z.lor (wrap 32 (Z.shiftl page_id 8)) slot_index).

Definition slot_page_id (s : SlotRef) : Z := Z.shiftr (raw s) 8.
Definition slot_index (s : SlotRef) : Z := Z.land (raw s) 0xFF.
Definition slot_is_null (s : SlotRef) : bool := raw s =? 0.

Definition slot_ok (s : SlotRef) : Prop := is_u32 (raw s).

(** ** Version headers *)

Record VersionHeader := mkVh {
  vh_xmin : Z;
  vh_xmax : Z;
  next_version : SlotRef;
  vh_flags : Z;
  vh_pad : Z
}.

Definition VH_WIDTHS : list nat := [8; 8; 4; 2; 2]%nat.
Definition VH_SIZE : nat := 24.

Definition vh_live (xmin : Z) : VersionHeader := mkVh xmin 0 SLOT_NULL 0 0.
Definition vh_is_deleted (h : VersionHeader) : bool := negb (vh_xmax h =? 0).

Definition vh_fields (h : VersionHeader) : list Z :=
  [vh_xmin h; vh_xmax h; raw (next_version h); vh_flags h; vh_pad h].
Definition vh_encode (h : VersionHeader) : list Z := pack_le VH_WIDTHS (vh_fields h).
Definition vh_decode (b : list Z) : option VersionHeader :=
  if (length b <? VH_SIZE)%nat then None else
  match unpack_le VH_WIDTHS b with
  | [xmin; xmax; nv; fl; pad] => Some (mkVh xmin xmax (mkSlotRef nv) fl pad)
  | _ => None
  end.

Definition encode_versioned (h : VersionHeader) (entity : list Z) : list Z :=
  vh_encode h ++ entity.
Definition split_versioned (slot : list Z) : option (VersionHeader * list Z) :=
  h ← vh_decode slot; Some (h, drop VH_SIZE slot).

Definition vh_ok (h : VersionHeader) : Prop := fields_ok VH_WIDTHS (vh_fields h).

(** ** Node records *)

Record NodeRecord := mkNode {
  node_id : Z;
  label_id : Z;
  first_outgoing_edge : SlotRef;
  first_incoming_edge : SlotRef;
  nr_first_property : SlotRef;
  nr_flags : Z;
  nr_generation : Z;
  nr_pad : Z
}.

Definition NODE_WIDTHS : list nat := [8; 4; 4; 4; 4; 2; 2; 4]%nat.
Definition NODE_SIZE : nat := 32.
Definition NODE_DELETED : Z := 0x0001.
Definition NODE_HAS_OVERFLOW : Z := 0x0002.

Definition node_new (id label : Z) : NodeRecord :=
  mkNode id label SLOT_NULL SLOT_NULL SLOT_NULL 0 0 0.

Definition node_fields (n : NodeRecord) : list Z :=
  [node_id n; label_id n; raw (first_outgoing_edge n); raw (first_incoming_edge n);
   raw (nr_first_property n); nr_flags n; nr_generation n; nr_pad n].
Definition node_encode (n : NodeRecord) : list Z := pack_le NODE_WIDTHS (node_fields n).
Definition node_decode (b : list Z) : option NodeRecord :=
  if negb (length b =? NODE_SIZE)%nat then None else
  match unpack_le NODE_WIDTHS b with
  | [id; lb; o; i; p; fl; gn; pad] =>
      Some (mkNode id lb (mkSlotRef o) (mkSlotRef i) (mkSlotRef p) fl gn pad)
  | _ => None
  end.

Definition node_ok (n : NodeRecord) : Prop := fields_ok NODE_WIDTHS (node_fields n).

(** ** Edge records *)

Record EdgeRecord := mkEdge {
  edge_id : Z;
  source_id : Z;
  target_id : Z;
  type_id : Z;
  source_node : SlotRef;
  target_node : SlotRef;
  prev_source_edge : SlotRef;
  next_source_edge : SlotRef;
  prev_target_edge : SlotRef;
  next_target_edge : SlotRef;
  er_first_property : SlotRef;
  er_flags : Z;
  er_generation : Z;
  er_pad : Z
}.

Definition EDGE_WIDTHS : list nat := [8; 8; 8; 4; 4; 4; 4; 4; 4; 4; 4; 2; 2; 4]%nat.
Definition EDGE_SIZE : nat := 64.
Definition EDGE_DELETED : Z := 0x0001.
Definition EDGE_HAS_OVERFLOW : Z := 0x0002.

Definition edge_new (id ty src tgt : Z) (source target : SlotRef) : EdgeRecord :=
  mkEdge id src tgt ty source target SLOT_NULL SLOT_NULL SLOT_NULL SLOT_NULL SLOT_NULL 0 0 0.

Definition edge_fields (e : EdgeRecord) : list Z :=
  [edge_id e; source_id e; target_id e; type_id e; raw (source_node e); raw (target_node e);
   raw (prev_source_edge e); raw (next_source_edge e); raw (prev_target_edge e);
   raw (next_target_edge e); raw (er_first_property e); er_flags e; er_generation e; er_pad e].
Definition edge_encode (e : EdgeRecord) : list Z := pack_le EDGE_WIDTHS (edge_fields e).
Definition edge_decode (b : list Z) : option EdgeRecord :=
  if negb (length b =? EDGE_SIZE)%nat then None else
  match unpack_le EDGE_WIDTHS b with
  | [id; src; tgt; ty; s; t; ps; ns; pt; nt; p; fl; gn; pad] =>
      Some (mkEdge id src tgt ty (mkSlotRef s) (mkSlotRef t) (mkSlotRef ps) (mkSlotRef ns)
              (mkSlotRef pt) (mkSlotRef nt) (mkSlotRef p) fl gn pad)
  | _ => None
  end.

Definition edge_ok (e : EdgeRecord) : Prop := fields_ok EDGE_WIDTHS (edge_fields e).

(** ** Property records *)

Definition value_type_u8 (t : ValueType) : Z :=
  match t with
  | VtNull => 0x00 | VtBool => 0x01 | VtInt64 => 0x02 | VtFloat64 => 0x03
  | VtString => 0x04 | VtList => 0x05 | VtMap => 0x06
  end.
Definition value_type_from_u8 (v : Z) : option ValueType :=
  if v =? 0x00 then Some VtNull else if v =? 0x01 then Some VtBool
  else if v =? 0x02 then Some VtInt64 else if v =? 0x03 then Some VtFloat64
  else if v =? 0x04 then Some VtString else if v =? 0x05 then Some VtList
  else if v =? 0x06 then Some VtMap else None.

Definition MAX_INLINE_PROPERTY_LEN : nat := 256.

Record PropertyHeader := mkPh {
  property_key_id : Z;
  value_length : Z;
  value_type : Z;
  ph_pad : Z
}.

Definition PH_WIDTHS : list nat := [4; 2; 1; 1]%nat.
Definition PH_SIZE : nat := 8.

Definition ph_new (key_id : Z) (t : ValueType) (len : Z) : PropertyHeader :=
  mkPh key_id len (value_type_u8 t) 0.
Definition ph_fields (h : PropertyHeader) : list Z :=
  [property_key_id h; value_length h; value_type h; ph_pad h].
Definition ph_encode (h : PropertyHeader) : list Z := pack_le PH_WIDTHS (ph_fields h).
Definition ph_decode (b : list Z) : option PropertyHeader :=
  if negb (length b =? PH_SIZE)%nat then None else
  match unpack_le PH_WIDTHS b with
  | [k; len; ty; pad] => Some (mkPh k len ty pad)
  | _ => None
  end.
Definition ph_ok (h : PropertyHeader) : Prop := fields_ok PH_WIDTHS (ph_fields h).

Record OverflowHandle := mkOvf { oh_page_id : Z; oh_offset : Z; oh_pad : Z }.

Definition OH_WIDTHS : list nat := [4; 2; 2]%nat.
Definition OH_SIZE : nat := 8.
Definition oh_new (page_id offset : Z) : OverflowHandle := mkOvf page_id offset 0.
Definition oh_fields (h : OverflowHandle) : list Z := [oh_page_id h; oh_offset h; oh_pad h].
Definition oh_encode (h : OverflowHandle) : list Z := pack_le OH_WIDTHS (oh_fields h).
Definition oh_decode (b : list Z) : option OverflowHandle :=
  if negb (length b =? OH_SIZE)%nat then None else
  match unpack_le OH_WIDTHS b with
  | [p; o; pad] => Some (mkOvf p o pad)
  | _ => None
  end.
Definition oh_ok (h : OverflowHandle) : Prop := fields_ok OH_WIDTHS (oh_fields h).

Record PropertyRecord := mkProp {
  header : PropertyHeader;
  next_property : SlotRef;
  property_name : list Z;
  payload : list Z
}.

(** [PropertyRecord::inline] panics on a payload over the limit: [None]. *)
Definition prop_inline (name : list Z) (key_id : Z) (t : ValueType) (bytes : list Z) :
    option PropertyRecord :=
  if (length bytes <=? MAX_INLINE_PROPERTY_LEN)%nat
  then Some (mkProp (ph_new key_id t 0) SLOT_NULL name bytes) else None.

Definition prop_overflow (name : list Z) (key_id : Z) (t : ValueType) (h : OverflowHandle) :
    PropertyRecord :=
  mkProp (ph_new key_id t 0) SLOT_NULL name (oh_encode h).

Definition on_disk_size (p : PropertyRecord) : nat :=
  (PH_SIZE + 4 + 2 + length (property_name p) + length (payload p))%nat.

Definition prop_total_len (p : PropertyRecord) : nat :=
  (4 + 2 + length (property_name p) + length (payload p))%nat.

(** The header as [encode] stores it: the length is cast to [u16]. *)
Definition stored_header (p : PropertyRecord) : PropertyHeader :=
  mkPh (property_key_id (header p)) (wrap 16 (Z.of_nat (prop_total_len p)))
    (value_type (header p)) (ph_pad (header p)).

Definition prop_encode (p : PropertyRecord) : list Z :=
  ph_encode (stored_header p) ++ to_be 4 (raw (next_property p)) ++
  to_be 2 (wrap 16 (Z.of_nat (length (property_name p)))) ++ property_name p ++ payload p.

Definition prop_decode (b : list Z) : option PropertyRecord :=
  if (length b <? PH_SIZE)%nat then None else
  h ← ph_decode (take PH_SIZE b);
  let total_len := Z.to_nat (value_length h) in
  if (total_len <? 6)%nat || (length b <? PH_SIZE + total_len)%nat then None else
  let next_raw := from_be (slice b 8 12) in
  let name_len := Z.to_nat (from_be (slice b 12 14)) in
  if (total_len <? 6 + name_len)%nat then None else
  name ← from_utf8 (slice b 14 (14 + name_len));
  Some (mkProp h (mkSlotRef next_raw) name (slice b (14 + name_len) (PH_SIZE + total_len))).

Definition is_inline (p : PropertyRecord) : bool :=
  (length (payload p) <=? MAX_INLINE_PROPERTY_LEN)%nat &&
  (Z.to_nat (value_length (header p)) <=?
     MAX_INLINE_PROPERTY_LEN + 6 + length (property_name p))%nat.

Definition overflow_handle (p : PropertyRecord) : option OverflowHandle :=
  if negb (length (payload p) =? OH_SIZE)%nat then None else oh_decode (payload p).

Definition prop_from_str (s : list Z) : option PropertyRecord := prop_inline [] 0 VtString s.

Definition prop_ok (p : PropertyRecord) : Prop :=
  ph_ok (header p) /\ slot_ok (next_property p) /\ is_string (property_name p) /\
  bytes_ok (payload p).

(** ** Engine-side packing ([src/graph/engine.rs]) *)

Inductive StorageError :=
| SeIoError | SeNotFound | SeIndexError | SePageFull | SeSlotOverflow | SeAlreadyExists
| SeInvalidId | SeTxConflict | SeTxAborted.

#[global] Instance StorageError_eq_dec : EqDecision StorageError.
Proof. solve_decision. Defined.

Definition slot_ref (page_id slot : Z) : result SlotRef StorageError :=
  if (MAX_PAGE_ID <? page_id) || (MAX_SLOT_INDEX <? slot) then Err SeSlotOverflow
  else Ok (slot_new (wrap 32 page_id) (wrap 8 slot)).

Definition encode_slot_ref (s : SlotRef) : list Z := to_be 4 (raw s).
Definition decode_slot_ref (b : list Z) : option SlotRef :=
  if (length b <? 4)%nat then None else Some (mkSlotRef (from_be (take 4 b))).

(** Lock-table resource identifiers of nodes and edges. *)
Definition node_resource_id (id : Z) : Z := Z.land id 0x0000FFFFFFFFFFFF.
Definition edge_resource_id (id : Z) : Z :=
  Z.lor (Z.land id 0x0000FFFFFFFFFFFF) (Z.shiftl 1 48).

(** ** Slot references pack and unpack *)

Lemma slot_new_value p s :
  0 <= p <= MAX_PAGE_ID -> is_u8 s -> slot_new p s = mkSlotRef (p * 256 + s).
Proof.
  unfold MAX_PAGE_ID, slot_new, uint. intros Hp Hs. f_equal.
  rewrite Z.shiftl_mul_pow2 by lia. rewrite wrap_id by (unfold uint; lia).
  assert (Z.land (p * 2 ^ 8) s = 0) as Hl.
  { apply Z.bits_inj'. intros k Hk. rewrite Z.land_spec, Z.bits_0.
    destruct (Z.lt_ge_cases k 8).
    - by rewrite Z.mul_pow2_bits_low by lia.
    - rewrite (uint_bits_high 8 s) by (try done; lia). apply andb_false_r. }
  rewrite <- Z.lxor_lor, <- Z.add_nocarry_lxor by done. lia.
Qed.

Lemma slot_new_parts p s :
  0 <= p <= MAX_PAGE_ID -> is_u8 s ->
  slot_page_id (slot_new p s) = p /\ slot_index (slot_new p s) = s /\ slot_ok (slot_new p s) /\
  (slot_is_null (slot_new p s) = true <-> p = 0 /\ s = 0).
Proof.
  intros Hp Hs. rewrite slot_new_value by done. unfold MAX_PAGE_ID, uint in *.
  unfold slot_page_id, slot_index, slot_ok, slot_is_null, uint. simpl.
  rewrite Z.shiftr_div_pow2 by lia. change 0xFF with (Z.ones 8). rewrite Z.land_ones by lia.
  rewrite Z.eqb_eq. change (2 ^ 8) with 256. split_and!; [..|lia].
  - symmetry. apply (Z.div_unique_pos _ _ _ s); lia.
  - symmetry. apply (Z.mod_unique_pos _ _ p); lia.
  - lia.
  - lia.
Qed.

Lemma slot_of_parts s :
  slot_ok s -> slot_new (slot_page_id s) (slot_index s) = s /\
    0 <= slot_page_id s <= MAX_PAGE_ID /\ is_u8 (slot_index s).
Proof.
  destruct s as [r]. unfold slot_ok, slot_page_id, slot_index, uint. simpl. intros Hr.
  rewrite Z.shiftr_div_pow2 by lia. change 0xFF with (Z.ones 8). rewrite Z.land_ones by lia.
  change (2 ^ 8) with 256. pose proof (Z.mod_pos_bound r 256 ltac:(lia)).
  pose proof (Z.div_mod r 256 ltac:(lia)).
  assert (0 <= r / 256 <= MAX_PAGE_ID) by (unfold MAX_PAGE_ID; lia).
  split_and!; try lia. rewrite slot_new_value by (try done; unfold uint; lia). f_equal. lia.
Qed.

Lemma slot_ref_ok_inv p s r :
  0 <= p -> is_u16 s -> slot_ref p s = Ok r ->
  0 <= p <= MAX_PAGE_ID /\ is_u8 s /\ r = slot_new p s.
Proof.
  unfold slot_ref, MAX_PAGE_ID, MAX_SLOT_INDEX, uint. intros Hp Hs.
  destruct (_ || _) eqn:E; [done|]. rg_bool. intros [= <-].
  rewrite !wrap_id by (unfold uint; lia). split_and!; [lia..|done].
Qed.

(** ** Struct codecs *)

Lemma vh_roundtrip h rest : vh_ok h -> vh_decode (vh_encode h ++ rest) = Some h.
Proof.
  intros Hh. unfold vh_decode, vh_encode. rewrite unpack_pack_le by done.
  rewrite length_app, length_pack_le by done. by destruct h as [? ? [] ? ?].
Qed.

Lemma node_roundtrip n : node_ok n -> node_decode (node_encode n) = Some n.
Proof.
  intros Hn. unfold node_decode, node_encode.
  rewrite <- (app_nil_r (pack_le NODE_WIDTHS (node_fields n))) at 2.
  rewrite unpack_pack_le, length_pack_le by done. by destruct n as [? ? [] [] [] ? ? ?].
Qed.

Lemma edge_roundtrip e : edge_ok e -> edge_decode (edge_encode e) = Some e.
Proof.
  intros He. unfold edge_decode, edge_encode.
  rewrite <- (app_nil_r (pack_le EDGE_WIDTHS (edge_fields e))) at 2.
  rewrite unpack_pack_le, length_pack_le by done.
  by destruct e as [? ? ? ? [] [] [] [] [] [] [] ? ? ?].
Qed.

Lemma ph_roundtrip h : ph_ok h -> ph_decode (ph_encode h) = Some h.
Proof.
  intros Hh. unfold ph_decode, ph_encode.
  rewrite <- (app_nil_r (pack_le PH_WIDTHS (ph_fields h))) at 2.
  rewrite unpack_pack_le, length_pack_le by done. by destruct h.
Qed.

Lemma oh_roundtrip h : oh_ok h -> oh_decode (oh_encode h) = Some h.
Proof.
  intros Hh. unfold oh_decode, oh_encode.
  rewrite <- (app_nil_r (pack_le OH_WIDTHS (oh_fields h))) at 2.
  rewrite unpack_pack_le, length_pack_le by done. by destruct h.
Qed.

(** Whatever bytes of the right length are on the page, the decoder accepts
    them, and encoding the result gives the bytes back. *)
Lemma vh_decode_inv b h :
  bytes_ok b -> vh_decode b = Some h -> vh_ok h /\ vh_encode h = take VH_SIZE b.
Proof.
  intros Hb. unfold vh_decode. destruct (_ <? _)%nat eqn:E; [done|]. rg_bool.
  assert (sum_list VH_WIDTHS <= length b)%nat by (unfold VH_SIZE in *; simpl; lia).
  pose proof (unpack_le_ok VH_WIDTHS b Hb) as Hf. pose proof (pack_unpack_le VH_WIDTHS b Hb) as Hp.
  destruct (unpack_le VH_WIDTHS b) as [|? [|? [|? [|? [|? []]]]]]; try done.
  intros [= <-]. unfold vh_ok, vh_encode, vh_fields. simpl. split; auto.
Qed.

Lemma node_decode_inv b n :
  bytes_ok b -> node_decode b = Some n -> node_ok n /\ node_encode n = b.
Proof.
  intros Hb. unfold node_decode. destruct (negb _) eqn:E; [done|]. rg_bool.
  assert (sum_list NODE_WIDTHS <= length b)%nat by (unfold NODE_SIZE in *; simpl; lia).
  pose proof (unpack_le_ok NODE_WIDTHS b Hb) as Hf.
  pose proof (pack_unpack_le NODE_WIDTHS b Hb) as Hp.
  rewrite take_ge in Hp by (unfold NODE_SIZE in *; simpl; lia).
  destruct (unpack_le NODE_WIDTHS b) as [|? [|? [|? [|? [|? [|? [|? [|? []]]]]]]]]; try done.
  intros [= <-]. unfold node_ok, node_encode, node_fields. simpl. split; auto.
Qed.

Lemma edge_decode_inv b e :
  bytes_ok b -> edge_decode b = Some e -> edge_ok e /\ edge_encode e = b.
Proof.
  intros Hb. unfold edge_decode. destruct (negb _) eqn:E; [done|]. rg_bool.
  assert (sum_list EDGE_WIDTHS <= length b)%nat by (unfold EDGE_SIZE in *; simpl; lia).
  pose proof (unpack_le_ok EDGE_WIDTHS b Hb) as Hf.
  pose proof (pack_unpack_le EDGE_WIDTHS b Hb) as Hp.
  rewrite take_ge in Hp by (unfold EDGE_SIZE in *; simpl; lia).
  destruct (unpack_le EDGE_WIDTHS b)
    as [|? [|? [|? [|? [|? [|? [|? [|? [|? [|? [|? [|? [|? [|? []]]]]]]]]]]]]]]; try done.
  intros [= <-]. unfold edge_ok, edge_encode, edge_fields. simpl. split; auto.
Qed.

Lemma ph_decode_inv b h :
  bytes_ok b -> ph_decode b = Some h -> ph_ok h /\ ph_encode h = b.
Proof.
  intros Hb. unfold ph_decode. destruct (negb _) eqn:E; [done|]. rg_bool.
  assert (sum_list PH_WIDTHS <= length b)%nat by (unfold PH_SIZE in *; simpl; lia).
  pose proof (unpack_le_ok PH_WIDTHS b Hb) as Hf.
  pose proof (pack_unpack_le PH_WIDTHS b Hb) as Hp.
  rewrite take_ge in Hp by (unfold PH_SIZE in *; simpl; lia).
  destruct (unpack_le PH_WIDTHS b) as [|? [|? [|? [|? []]]]]; try done.
  intros [= <-]. unfold ph_ok, ph_encode, ph_fields. simpl. split; auto.
Qed.

Lemma oh_decode_inv b h :
  bytes_ok b -> oh_decode b = Some h -> oh_ok h /\ oh_encode h = b.
Proof.
  intros Hb. unfold oh_decode. destruct (negb _) eqn:E; [done|]. rg_bool.
  assert (sum_list OH_WIDTHS <= length b)%nat by (unfold OH_SIZE in *; simpl; lia).
  pose proof (unpack_le_ok OH_WIDTHS b Hb) as Hf.
  pose proof (pack_unpack_le OH_WIDTHS b Hb) as Hp.
  rewrite take_ge in Hp by (unfold OH_SIZE in *; simpl; lia).
  destruct (unpack_le OH_WIDTHS b) as [|? [|? [|? []]]]; try done.
  intros [= <-]. unfold oh_ok, oh_encode, oh_fields. simpl. split; auto.
Qed.

Lemma length_node_encode n : length (node_encode n) = NODE_SIZE.
Proof. apply length_pack_le. done. Qed.
Lemma length_edge_encode e : length (edge_encode e) = EDGE_SIZE.
Proof. apply length_pack_le. done. Qed.
Lemma length_vh_encode h : length (vh_encode h) = VH_SIZE.
Proof. apply length_pack_le. done. Qed.
Lemma length_ph_encode h : length (ph_encode h) = PH_SIZE.
Proof. apply length_pack_le. done. Qed.

(** ** Property records on the page *)

Lemma from_utf8_string s : is_string s -> from_utf8 s = Some s.
Proof. intros [_ H]. unfold from_utf8. by rewrite H. Qed.

Lemma length_prop_encode p : length (prop_encode p) = on_disk_size p.
Proof.
  unfold prop_encode, on_disk_size.
  rewrite !length_app, length_ph_encode, !length_to_be. unfold PH_SIZE. lia.
Qed.

Lemma ph_ok_iff h :
  ph_ok h <-> is_u32 (property_key_id h) /\ is_u16 (value_length h) /\ is_u8 (value_type h) /\
              is_u8 (ph_pad h).
Proof.
  unfold ph_ok, fields_ok, ph_fields, PH_WIDTHS. split.
  - intros H. repeat match goal with H : Forall2 _ (_ :: _) _ |- _ => inv H end. done.
  - intros (? & ? & ? & ?). do 4 (constructor; [done|]). constructor.
Qed.

Lemma stored_header_ok p : ph_ok (header p) -> ph_ok (stored_header p).
Proof.
  rewrite !ph_ok_iff. intros (? & ? & ? & ?). split_and!; try done. apply wrap_range. lia.
Qed.

(** The part of [prop_decode] after the header, on a record laid out field by
    field. *)
Lemma prop_decode_fields h nx nl name pay rest :
  ph_ok h -> length nx = 4%nat -> length nl = 2%nat ->
  Z.to_nat (from_be nl) = length name -> is_string name ->
  Z.to_nat (value_length h) = (6 + length name + length pay)%nat ->
  prop_decode (ph_encode h ++ nx ++ nl ++ name ++ pay ++ rest)
  = Some (mkProp h (mkSlotRef (from_be nx)) name pay).
Proof.
  intros Hh Hnx Hnl Hlen Hname Htot. unfold prop_decode.
  rewrite !length_app, length_ph_encode, Hnx, Hnl.
  destruct (_ <? _)%nat eqn:E1; rg_bool; [lia|].
  rewrite take_app_length' by (by rewrite length_ph_encode). rewrite ph_roundtrip by done.
  cbn [mbind option_bind]. rewrite Htot. unfold PH_SIZE in *.
  replace ((_ <? 6)%nat || _) with false
    by (symmetry; apply orb_false_iff; split; apply Nat.ltb_ge; lia).
  rewrite !(slice_skip (ph_encode h)) by (rewrite length_ph_encode; unfold PH_SIZE; lia).
  rewrite length_ph_encode. unfold PH_SIZE. cbn [Nat.sub].
  rewrite slice_here by done. rewrite !(slice_skip nx) by lia. rewrite Hnx. cbn [Nat.sub].
  rewrite slice_here by done. rewrite Hlen.
  replace (6 + length name + length pay <? 6 + length name)%nat with false
    by (symmetry; apply Nat.ltb_ge; lia).
  rewrite !(slice_skip nl) by lia. rewrite Hnl.
  replace (14 + length name - 8 - 4 - 2)%nat with (length name) by lia.
  rewrite slice_here by done. rewrite from_utf8_string by done.
  cbn [mbind option_bind]. do 2 f_equal. rewrite slice_skip by lia.
  rewrite Nat.sub_diag. apply slice_here. lia.
Qed.

Lemma prop_roundtrip p rest :
  prop_ok p -> Z.of_nat (prop_total_len p) <= U16_MAX ->
  prop_decode (prop_encode p ++ rest)
  = Some (mkProp (stored_header p) (next_property p) (property_name p) (payload p)).
Proof.
  intros (Hh & Hn & Hs & Hp) Hlen. unfold prop_encode. rewrite <- !app_assoc.
  unfold prop_total_len, U16_MAX in Hlen.
  rewrite prop_decode_fields.
  - rewrite from_to_be_id by done. by destruct (next_property p).
  - by apply stored_header_ok.
  - apply length_to_be.
  - apply length_to_be.
  - rewrite from_to_be_id by (apply wrap_range; lia). rewrite wrap_id; [lia|].
    unfold uint. lia.
  - done.
  - simpl value_length. unfold prop_total_len. rewrite wrap_id; [lia|]. unfold uint. lia.
Qed.

Lemma prop_decode_inv b p :
  bytes_ok b -> prop_decode b = Some p ->
  prop_ok p /\ prop_encode p = take (on_disk_size p) b /\ stored_header p = header p.
Proof.
  intros Hb. unfold prop_decode. destruct (_ <? _)%nat eqn:E1; [done|].
  destruct (ph_decode _) as [h|] eqn:Eh; cbn [mbind option_bind]; [|done].
  destruct (_ || _) eqn:E2; [done|]. destruct (_ <? 6 + _)%nat eqn:E3; [done|].
  unfold from_utf8. destruct (utf8_valid _) eqn:E4; cbn [mbind option_bind]; [|done].
  intros <-%(inj Some). rg_bool.
  unfold PH_SIZE in *. apply ph_decode_inv in Eh as [Hh He]; [|by apply bytes_ok_take].
  set (nl := Z.to_nat (from_be (slice b 12 14))) in *. set (tl := Z.to_nat (value_length h)) in *.
  assert (length (slice b 14 (14 + nl)) = nl) as L1 by (rewrite length_slice; lia).
  assert (length (slice b (14 + nl) (8 + tl)) = tl - 6 - nl)%nat as L2
    by (rewrite length_slice; lia).
  assert (is_u16 (value_length h)) as Hv.
  { by apply ph_ok_iff in Hh as (_ & ? & _). }
  destruct (from_be_fixed 4 (slice b 8 12)) as [U1 V1]; [auto with rg|rewrite length_slice; lia|].
  destruct (from_be_fixed 2 (slice b 12 14)) as [U2 V2]; [auto with rg|rewrite length_slice; lia|].
  assert (stored_header (mkProp h (mkSlotRef (from_be (slice b 8 12)))
            (slice b 14 (14 + nl)) (slice b (14 + nl) (8 + tl))) = h) as Hst.
  { unfold stored_header, prop_total_len. cbn [header property_name payload]. rewrite L1, L2.
    replace (Z.of_nat _) with (value_length h); [|unfold uint in *; lia].
    rewrite wrap_id by done. by destruct h. }
  split_and!; [split_and!; [done|done|split; [cbn; auto with rg|done]|cbn; auto with rg]| |done].
  unfold prop_encode, on_disk_size. rewrite Hst.
  cbn [property_name payload next_property raw]. rewrite He, V1, L1, L2.
  replace (wrap 16 (Z.of_nat nl)) with (from_be (slice b 12 14)).
  2:{ rewrite wrap_id by (unfold uint in *; lia). unfold uint in *. lia. }
  rewrite V2. change (take 8 b) with (slice b 0 8). rewrite !slice_glue by lia.
  unfold slice. rewrite drop_0. f_equal. unfold PH_SIZE. lia.
Qed.

(** C18: The graph record codecs are mutual inverses.  A well-typed node, edge
    or versioned record, property header or overflow handle decodes from its own
    bytes to itself, and every byte string of the record's size (for versioned
    records: every one that decodes) is the encoding of exactly the record it
    decodes to, so no bit of a page slot is lost or invented; a node's bytes are
    never read as an edge nor an edge's as a node.  A property record whose total
    length fits 16 bits decodes, whatever follows it in the slot, to the record
    with the length field of its header set to that total length, and every
    record the decoder accepts re-encodes to the bytes it came from. *)
Theorem graph_records_roundtrip :
  (forall n, node_ok n ->
     node_decode (node_encode n) = Some n /\ edge_decode (node_encode n) = None) /\
  (forall b, bytes_ok b -> length b = NODE_SIZE ->
     exists n, node_decode b = Some n /\ node_ok n /\ node_encode n = b) /\
  (forall e, edge_ok e ->
     edge_decode (edge_encode e) = Some e /\ node_decode (edge_encode e) = None) /\
  (forall b, bytes_ok b -> length b = EDGE_SIZE ->
     exists e, edge_decode b = Some e /\ edge_ok e /\ edge_encode e = b) /\
  (forall h ent, vh_ok h -> split_versioned (encode_versioned h ent) = Some (h, ent)) /\
  (forall b h ent, bytes_ok b -> split_versioned b = Some (h, ent) ->
     vh_ok h /\ encode_versioned h ent = b) /\
  (forall h, ph_ok h -> ph_decode (ph_encode h) = Some h) /\
  (forall b h, bytes_ok b -> ph_decode b = Some h -> ph_ok h /\ ph_encode h = b) /\
  (forall h, oh_ok h -> oh_decode (oh_encode h) = Some h) /\
  (forall b h, bytes_ok b -> oh_decode b = Some h -> oh_ok h /\ oh_encode h = b) /\
  (forall p rest, prop_ok p -> Z.of_nat (prop_total_len p) <= U16_MAX ->
     prop_decode (prop_encode p ++ rest)
     = Some (mkProp (stored_header p) (next_property p) (property_name p) (payload p))) /\
  (forall b p, bytes_ok b -> prop_decode b = Some p ->
     prop_ok p /\ prop_encode p = take (on_disk_size p) b /\ stored_header p = header p).
Proof.
  split_and!.
  - intros n Hn. split; [by apply node_roundtrip|].
    unfold edge_decode. by rewrite length_node_encode.
  - intros b Hb Hl. destruct (node_decode b) as [n|] eqn:E.
    + exists n. split; [done|]. by apply node_decode_inv.
    + unfold node_decode in E. rewrite Hl in E. pose proof (length_unpack_le NODE_WIDTHS b).
      by destruct (unpack_le NODE_WIDTHS b) as [|? [|? [|? [|? [|? [|? [|? [|? []]]]]]]]].
  - intros e He. split; [by apply edge_roundtrip|].
    unfold node_decode. by rewrite length_edge_encode.
  - intros b Hb Hl. destruct (edge_decode b) as [e|] eqn:E.
    + exists e. split; [done|]. by apply edge_decode_inv.
    + unfold edge_decode in E. rewrite Hl in E. pose proof (length_unpack_le EDGE_WIDTHS b).
      by destruct (unpack_le EDGE_WIDTHS b)
        as [|? [|? [|? [|? [|? [|? [|? [|? [|? [|? [|? [|? [|? [|? []]]]]]]]]]]]]]].
  - intros h ent Hh. unfold split_versioned, encode_versioned.
    rewrite vh_roundtrip by done. cbn [mbind option_bind].
    by rewrite drop_app_length' by (by rewrite length_vh_encode).
  - intros b h ent Hb. unfold split_versioned, encode_versioned.
    destruct (vh_decode b) as [h'|] eqn:E; [|done]. intros [= <- <-].
    apply vh_decode_inv in E as [Hh ->]; [|done]. split; [done|]. apply take_drop.
  - apply ph_roundtrip.
  - apply ph_decode_inv.
  - apply oh_roundtrip.
  - apply oh_decode_inv.
  - intros. by apply prop_roundtrip.
  - intros. by apply prop_decode_inv.
Qed.

(** C19: A slot reference identifies its record.  The engine's [slot_ref] packs
    every page number of up to 24 bits with every slot index of up to 8 bits
    and refuses all others with [SlotOverflow]; what it packs unpacks to the
    same page and slot, survives its 4-byte index encoding, and is null only
    for slot 0 of page 0 (the superblock, never a record); two places share a
    reference only when they are the same place. *)
Theorem slot_ref_sound p s :
  0 <= p -> is_u16 s ->
  (slot_ref p s = Err SeSlotOverflow <-> MAX_PAGE_ID < p \/ MAX_SLOT_INDEX < s) /\
  (forall r, slot_ref p s = Ok r ->
     slot_page_id r = p /\ slot_index r = s /\ slot_ok r /\
     (slot_is_null r = true <-> p = 0 /\ s = 0) /\
     (forall rest, decode_slot_ref (encode_slot_ref r ++ rest) = Some r) /\
     (forall p' s', 0 <= p' -> is_u16 s' -> slot_ref p' s' = Ok r -> p' = p /\ s' = s)).
Proof.
  intros Hp Hs. split.
  - unfold slot_ref. destruct (_ || _) eqn:E.
    + split; [|done]. intros _. apply orb_true_iff in E as [E|E]; rg_bool; lia.
    + split; [done|]. rg_bool. lia.
  - intros r Hr. apply slot_ref_ok_inv in Hr as (Hp' & Hs' & ->); [|done..].
    destruct (slot_new_parts p s Hp' Hs') as (E1 & E2 & E3 & E4).
    split_and!; try done; [..|intros p' s' Hp'' Hs'' H].
    + intros rest. unfold decode_slot_ref, encode_slot_ref.
      rewrite length_app, length_to_be. simpl (_ <? _)%nat. cbv iota.
      rewrite take_app_length' by (by rewrite length_to_be). rewrite from_to_be_id by done.
      by destruct (slot_new p s).
    + apply slot_ref_ok_inv in H as (H1 & H2 & H3); [|done..].
      destruct (slot_new_parts p' s' H1 H2) as (F1 & F2 & _). rewrite <- H3 in F1, F2. by split; congruence.
Qed.

(** The reference of slot 3 of page 9; slot 256 is refused. *)
Lemma slot_ref_sound_witness :
  slot_ref 9 3 = Ok (mkSlotRef 2307) /\ slot_ref 9 256 = Err SeSlotOverflow /\
  slot_page_id (mkSlotRef 2307) = 9.
Proof.
  split; [reflexivity|]. split; [reflexivity|].
  apply (slot_ref_sound 9 3); [lia|unfold uint; lia|reflexivity].
Defined.
