(* ===== verification/Adjacency.v ===== *)
(** * Doubly-linked adjacency lists ([src/graph/adjacency.rs])

    The operations on the [prev]/[next] slots of edge records, written against
    the [EdgeRecordView] trait.  A list of slots describes the nodes of a
    well-linked chain ([dll]); the operations refine list consing, removal and
    enumeration.  The outgoing and the incoming list of a node are two sides of
    the same record: the source writes each operation twice, the proofs treat
    both as one, over the four accessors that differ. *)

From stdpp Require Import prelude list gmap.
From Stdlib Require Import ZArith Lia.
From S2P Require Import Prelude GraphRecord.

Inductive AdjacencyError := AlreadyLinked | InvalidSlot | NullNode.

(** ** The trait *)

Class EdgeRecordView (V : Type) := {
  view_read : V -> SlotRef -> option EdgeRecord;
  view_write : V -> SlotRef -> EdgeRecord -> V
}.

(** What the operations rely on: a write to a slot that holds a record is read
    back, and leaves every other slot alone. *)
Class EdgeRecordViewLaws (V : Type) `{EdgeRecordView V} : Prop := {
  read_write_eq v s r r' : view_read v s = Some r' -> view_read (view_write v s r) s = Some r;
  read_write_ne v s s' r : s ≠ s' -> view_read (view_write v s r) s' = view_read v s'
}.

(** ** Field updates of an edge record *)

Definition with_source_links (e : EdgeRecord) (prev next : SlotRef) : EdgeRecord :=
  mkEdge (edge_id e) (source_id e) (target_id e) (type_id e) (source_node e) (target_node e)
    prev next (prev_target_edge e) (next_target_edge e) (er_first_property e) (er_flags e)
    (er_generation e) (er_pad e).

Definition with_target_links (e : EdgeRecord) (prev next : SlotRef) : EdgeRecord :=
  mkEdge (edge_id e) (source_id e) (target_id e) (type_id e) (source_node e) (target_node e)
    (prev_source_edge e) (next_source_edge e) prev next (er_first_property e) (er_flags e)
    (er_generation e) (er_pad e).

Definition set_next_source (e : EdgeRecord) (s : SlotRef) := with_source_links e (prev_source_edge e) s.
Definition set_prev_source (e : EdgeRecord) (s : SlotRef) := with_source_links e s (next_source_edge e).
Definition set_next_target (e : EdgeRecord) (s : SlotRef) := with_target_links e (prev_target_edge e) s.
Definition set_prev_target (e : EdgeRecord) (s : SlotRef) := with_target_links e s (next_target_edge e).

Section Operations.
Context {V : Type} `{EdgeRecordView V}.

(** ** Linking at the head

    The view is returned with the outcome: an error after the first write
    leaves that write in place. *)

Definition link_source_head (v : V) (new_edge head : SlotRef) : result SlotRef AdjacencyError * V :=
  match view_read v new_edge with
  | None => (Err InvalidSlot, v)
  | Some rec =>
      if slot_is_null (source_node rec) then (Err NullNode, v)
      else if negb (slot_is_null (next_source_edge rec)) || negb (slot_is_null (prev_source_edge rec))
      then (Err AlreadyLinked, v)
      else
        let v1 := view_write v new_edge (set_prev_source (set_next_source rec head) SLOT_NULL) in
        if slot_is_null head then (Ok new_edge, v1) else
        match view_read v1 head with
        | None => (Err InvalidSlot, v1)
        | Some head_rec => (Ok new_edge, view_write v1 head (set_prev_source head_rec new_edge))
        end
  end.

Definition link_target_head (v : V) (new_edge head : SlotRef) : result SlotRef AdjacencyError * V :=
  match view_read v new_edge with
  | None => (Err InvalidSlot, v)
  | Some rec =>
      if slot_is_null (target_node rec) then (Err NullNode, v)
      else if negb (slot_is_null (next_target_edge rec)) || negb (slot_is_null (prev_target_edge rec))
      then (Err AlreadyLinked, v)
      else
        let v1 := view_write v new_edge (set_prev_target (set_next_target rec head) SLOT_NULL) in
        if slot_is_null head then (Ok new_edge, v1) else
        match view_read v1 head with
        | None => (Err InvalidSlot, v1)
        | Some head_rec => (Ok new_edge, view_write v1 head (set_prev_target head_rec new_edge))
        end
  end.

(** ** Unlinking *)

Definition unlink_source (v : V) (edge : SlotRef) : result (option SlotRef) AdjacencyError * V :=
  match view_read v edge with
  | None => (Err InvalidSlot, v)
  | Some rec =>
      let prev := prev_source_edge rec in
      let next := next_source_edge rec in
      match
        (if slot_is_null prev then Some v else
         match view_read v prev with
         | None => None
         | Some prev_rec => Some (view_write v prev (set_next_source prev_rec next))
         end)
      with
      | None => (Err InvalidSlot, v)
      | Some v1 =>
          match
            (if slot_is_null next then Some v1 else
             match view_read v1 next with
             | None => None
             | Some next_rec => Some (view_write v1 next (set_prev_source next_rec prev))
             end)
          with
          | None => (Err InvalidSlot, v1)
          | Some v2 =>
              let v3 := view_write v2 edge (set_next_source (set_prev_source rec SLOT_NULL) SLOT_NULL) in
              (Ok (if slot_is_null prev then Some next else None), v3)
          end
      end
  end.

Definition unlink_target (v : V) (edge : SlotRef) : result (option SlotRef) AdjacencyError * V :=
  match view_read v edge with
  | None => (Err InvalidSlot, v)
  | Some rec =>
      let prev := prev_target_edge rec in
      let next := next_target_edge rec in
      match
        (if slot_is_null prev then Some v else
         match view_read v prev with
         | None => None
         | Some prev_rec => Some (view_write v prev (set_next_target prev_rec next))
         end)
      with
      | None => (Err InvalidSlot, v)
      | Some v1 =>
          match
            (if slot_is_null next then Some v1 else
             match view_read v1 next with
             | None => None
             | Some next_rec => Some (view_write v1 next (set_prev_target next_rec prev))
             end)
          with
          | None => (Err InvalidSlot, v1)
          | Some v2 =>
              let v3 := view_write v2 edge (set_next_target (set_prev_target rec SLOT_NULL) SLOT_NULL) in
              (Ok (if slot_is_null prev then Some next else None), v3)
          end
      end
  end.

(** ** Enumeration

    The [while] loops; [None] when the fuel runs out before the null slot. *)

Fixpoint collect_outgoing (fuel : nat) (v : V) (current : SlotRef) : option (list SlotRef) :=
  match fuel with
  | O => None
  | S fuel =>
      if slot_is_null current then Some [] else
      match view_read v current with
      | Some rec => (cons current) <$> collect_outgoing fuel v (next_source_edge rec)
      | None => Some [current]
      end
  end.

Fixpoint collect_incoming (fuel : nat) (v : V) (current : SlotRef) : option (list SlotRef) :=
  match fuel with
  | O => None
  | S fuel =>
      if slot_is_null current then Some [] else
      match view_read v current with
      | Some rec => (cons current) <$> collect_incoming fuel v (next_target_edge rec)
      | None => Some [current]
      end
  end.

End Operations.

(** ** One side of the record *)

Record Side := mkSide {
  side_node : EdgeRecord -> SlotRef;
  side_prev : EdgeRecord -> SlotRef;
  side_next : EdgeRecord -> SlotRef;
  side_links : EdgeRecord -> SlotRef -> SlotRef -> EdgeRecord
}.

Definition outgoing : Side := mkSide source_node prev_source_edge next_source_edge with_source_links.
Definition incoming : Side := mkSide target_node prev_target_edge next_target_edge with_target_links.

Class SideLaws (sd : Side) : Prop := {
  side_prev_links e p n : side_prev sd (side_links sd e p n) = p;
  side_next_links e p n : side_next sd (side_links sd e p n) = n;
  side_node_links e p n : side_node sd (side_links sd e p n) = side_node sd e;
  side_links_links e p n p' n' : side_links sd (side_links sd e p n) p' n' = side_links sd e p' n';
  side_links_same e : side_links sd e (side_prev sd e) (side_next sd e) = e
}.
#[global] Instance outgoing_laws : SideLaws outgoing.
Proof. split; intros; try done. by destruct e. Qed.
#[global] Instance incoming_laws : SideLaws incoming.
Proof. split; intros; try done. by destruct e. Qed.

(** The record without one side's links: what the operations on that side
    preserve.  It still has the other side's links. *)
Definition unlinked (sd : Side) (e : EdgeRecord) : EdgeRecord := side_links sd e SLOT_NULL SLOT_NULL.

Definition other (sd sd' : Side) : Prop := forall e,
  side_prev sd' (unlinked sd e) = side_prev sd' e /\ side_next sd' (unlinked sd e) = side_next sd' e.

Lemma outgoing_other : other outgoing incoming.
Proof. done. Qed.
Lemma incoming_other : other incoming outgoing.
Proof. done. Qed.

(** ** Both sides at once *)

Section Generic.
Context {V : Type} `{EdgeRecordViewLaws V} (sd : Side) `{!SideLaws sd}.
Implicit Types (v : V) (s : SlotRef) (l : list SlotRef).

Definition link_head v new_edge head : result SlotRef AdjacencyError * V :=
  match view_read v new_edge with
  | None => (Err InvalidSlot, v)
  | Some rec =>
      if slot_is_null (side_node sd rec) then (Err NullNode, v)
      else if negb (slot_is_null (side_next sd rec)) || negb (slot_is_null (side_prev sd rec))
      then (Err AlreadyLinked, v)
      else
        let v1 := view_write v new_edge (side_links sd rec SLOT_NULL head) in
        if slot_is_null head then (Ok new_edge, v1) else
        match view_read v1 head with
        | None => (Err InvalidSlot, v1)
        | Some r => (Ok new_edge, view_write v1 head (side_links sd r new_edge (side_next sd r)))
        end
  end.

(** Rewriting one neighbour; nothing to do for the null slot. *)
Definition patch v s (g : EdgeRecord -> EdgeRecord) : option V :=
  if slot_is_null s then Some v else
  match view_read v s with None => None | Some r => Some (view_write v s (g r)) end.

Definition unlink v edge : result (option SlotRef) AdjacencyError * V :=
  match view_read v edge with
  | None => (Err InvalidSlot, v)
  | Some rec =>
      let prev := side_prev sd rec in
      let next := side_next sd rec in
      match patch v prev (fun r => side_links sd r (side_prev sd r) next) with
      | None => (Err InvalidSlot, v)
      | Some v1 =>
          match patch v1 next (fun r => side_links sd r prev (side_next sd r)) with
          | None => (Err InvalidSlot, v1)
          | Some v2 =>
              (Ok (if slot_is_null prev then Some next else None),
               view_write v2 edge (unlinked sd rec))
          end
      end
  end.

Fixpoint collect (fuel : nat) v current : option (list SlotRef) :=
  match fuel with
  | O => None
  | S fuel =>
      if slot_is_null current then Some [] else
      match view_read v current with
      | Some rec => (cons current) <$> collect fuel v (side_next sd rec)
      | None => Some [current]
      end
  end.

(** A chain: the slots of [l] are linked in order, the first one back to
    [p], the last one on to [q]. *)
Fixpoint seg v (p : SlotRef) l (q : SlotRef) : Prop :=
  match l with
  | [] => True
  | s :: l' =>
      slot_is_null s = false /\
      (exists r, view_read v s = Some r /\ side_prev sd r = p /\ side_next sd r = hd q l') /\
      seg v s l' q
  end.

Definition dll v l : Prop := seg v SLOT_NULL l SLOT_NULL /\ NoDup l.

(** The list's head, as the owning node stores it. *)
Definition head_of l : SlotRef := hd SLOT_NULL l.

Lemma is_null_eq s : slot_is_null s = true <-> s = SLOT_NULL.
Proof. destruct s as [r]. unfold slot_is_null, SLOT_NULL. simpl. rewrite Z.eqb_eq. split; congruence. Qed.

Lemma null_is_null : slot_is_null SLOT_NULL = true.
Proof. done. Qed.

Lemma seg_app v p l1 l2 q :
  seg v p (l1 ++ l2) q <-> seg v p l1 (hd q l2) /\ seg v (List.last l1 p) l2 q.
Proof.
  revert p. induction l1 as [|s l1 IH]; intros p; simpl; [tauto|].
  rewrite IH. assert (hd q (l1 ++ l2) = hd (hd q l2) l1) as -> by (by destruct l1).
  assert (List.last (s :: l1) p = List.last l1 s) as Hl.
  { clear. revert p s. induction l1 as [|x l1 IH]; intros; [done|].
    change (List.last (x :: l1) p = List.last (x :: l1) s). by rewrite !IH. }
  simpl in Hl. rewrite Hl. tauto.
Qed.

(** A chain only looks at its own slots. *)
Lemma seg_frame v v' p l q :
  (forall s, s ∈ l -> view_read v' s = view_read v s) -> seg v p l q -> seg v' p l q.
Proof.
  revert p. induction l as [|s l IH]; intros p Hf; simpl; [done|].
  intros (Hs & Hr & Hl). split; [done|]. rewrite Hf by set_solver. split; [done|].
  apply IH; [|done]. intros. apply Hf. set_solver.
Qed.

Lemma seg_in v p l q s : seg v p l q -> s ∈ l -> exists r, view_read v s = Some r.
Proof.
  revert p. induction l as [|x l IH]; intros p; simpl; [intros _ Hn; set_solver|].
  intros (_ & (r & Hr & _) & Hl). rewrite elem_of_cons. intros [->|Hs]; eauto.
Qed.

Lemma seg_null v p l q : seg v p l q -> SLOT_NULL ∉ l.
Proof.
  revert p. induction l as [|x l IH]; intros p; simpl; [intros _; set_solver|].
  intros (Hx & _ & Hl). rewrite elem_of_cons. intros [<-|Hs]; [done|]. by apply (IH x).
Qed.

(** Enumerating a chain gives its slots, with one unit of fuel per slot and
    one for the null slot. *)
Lemma collect_seg v p l fuel :
  seg v p l SLOT_NULL -> (length l < fuel)%nat -> collect fuel v (head_of l) = Some l.
Proof.
  revert p fuel. induction l as [|s l IH]; intros p [|fuel]; simpl; try lia; [done|].
  intros (Hs & (r & Hr & _ & Hn) & Hl) Hf. rewrite Hs, Hr, Hn.
  change (hd SLOT_NULL l) with (head_of l). rewrite (IH s) by (done || lia). done.
Qed.

(** The rewrites change nothing but this side's links. *)
Definition same_data v v' : Prop :=
  forall s, unlinked sd <$> view_read v' s = unlinked sd <$> view_read v s.

Lemma same_data_refl v : same_data v v.
Proof. done. Qed.

Lemma same_data_trans v1 v2 v3 : same_data v1 v2 -> same_data v2 v3 -> same_data v1 v3.
Proof. intros E1 E2 s. by rewrite E2, E1. Qed.

Lemma unlinked_links e p n : unlinked sd (side_links sd e p n) = unlinked sd e.
Proof. apply side_links_links. Qed.

Lemma write_same_data v s r p n :
  view_read v s = Some r -> same_data v (view_write v s (side_links sd r p n)).
Proof.
  intros Hr x. destruct (decide (s = x)) as [<-|Hx].
  - erewrite read_write_eq by done. rewrite Hr. simpl. by rewrite unlinked_links.
  - by rewrite read_write_ne.
Qed.

(** Outside [l], nothing moved. *)
Definition frame_out v v' l : Prop := forall s, s ∉ l -> view_read v' s = view_read v s.

Lemma patch_next v p l n :
  seg v p l SLOT_NULL -> NoDup l ->
  exists v', patch v (head_of l) (fun r => side_links sd r n (side_next sd r)) = Some v' /\
    seg v' n l SLOT_NULL /\ frame_out v v' l /\ same_data v v'.
Proof.
  destruct l as [|s l]; simpl.
  { intros _ _. by exists v. }
  intros (Hs & (r & Hr & Hp & Hn) & Hl) Hnd. apply NoDup_cons in Hnd as [Hin Hnd].
  unfold patch. rewrite Hs, Hr. eexists. split; [reflexivity|]. split; [|split].
  - split; [done|]. split.
    + eexists. rewrite (read_write_eq v s _ r) by done. split; [reflexivity|].
      by rewrite side_prev_links, side_next_links.
    + eapply seg_frame; [|done]. intros x Hx. apply read_write_ne. by intros ->.
  - intros x Hx. apply read_write_ne. intros ->. set_solver.
  - by apply write_same_data.
Qed.

Lemma patch_prev v l q n :
  seg v SLOT_NULL l q -> NoDup l ->
  exists v', patch v (List.last l SLOT_NULL) (fun r => side_links sd r (side_prev sd r) n) = Some v' /\
    seg v' SLOT_NULL l n /\ frame_out v v' l /\ same_data v v'.
Proof.
  destruct l as [|s l _] using rev_ind.
  { intros _ _. by exists v. }
  rewrite List.last_last. intros (Hl & Hs & (r & Hr & Hp & Hn) & _)%seg_app Hnd.
  unfold patch. rewrite Hs, Hr. eexists. split; [reflexivity|].
  apply NoDup_app in Hnd as (_ & Hin & _). split; [|split].
  - apply seg_app. split.
    + eapply seg_frame; [|exact Hl]. intros x Hx. apply read_write_ne. intros ->. set_solver.
    + split; [done|]. split; [|done]. eexists. rewrite (read_write_eq v s _ r) by done.
      split; [reflexivity|]. by rewrite side_prev_links, side_next_links.
  - intros x Hx. apply read_write_ne. intros ->. set_solver.
  - by apply write_same_data.
Qed.

(** An edge that is in no list of this side. *)
Definition detached (r : EdgeRecord) : Prop :=
  slot_is_null (side_node sd r) = false /\ side_prev sd r = SLOT_NULL /\ side_next sd r = SLOT_NULL.

Lemma link_spec v l s r :
  dll v l -> s ∉ l -> slot_is_null s = false -> view_read v s = Some r -> detached r ->
  exists v', link_head v s (head_of l) = (Ok s, v') /\ dll v' (s :: l) /\ same_data v v' /\
    frame_out v v' (s :: l).
Proof.
  intros [Hl Hnd] Hin Hs Hr (Hnode & Hprev & Hnext). unfold link_head.
  rewrite Hr, Hnode, Hprev, Hnext, null_is_null. simpl negb. simpl orb. cbv iota zeta.
  set (v1 := view_write v s (side_links sd r SLOT_NULL (head_of l))).
  assert (view_read v1 s = Some (side_links sd r SLOT_NULL (head_of l))) as H1
    by (by apply (read_write_eq v s _ r)).
  assert (seg v1 SLOT_NULL l SLOT_NULL) as Hl1.
  { eapply seg_frame; [|exact Hl]. intros x Hx. apply read_write_ne. by intros ->. }
  assert (same_data v v1) as Hd1 by (by apply write_same_data).
  assert (frame_out v v1 [s]) as Hf1.
  { intros x Hx. apply read_write_ne. intros ->. set_solver. }
  assert (exists v2, patch v1 (head_of l) (fun r => side_links sd r s (side_next sd r)) = Some v2 /\
    seg v2 s l SLOT_NULL /\ frame_out v1 v2 l /\ same_data v1 v2) as (v2 & Hp & Hs2 & Hf2 & Hd2)
    by (by apply (patch_next v1 SLOT_NULL l s)).
  exists v2. split_and!.
  - unfold patch in Hp. destruct (slot_is_null (head_of l)); [congruence|].
    destruct (view_read v1 (head_of l)); congruence.
  - split; [|by constructor]. split; [done|]. split; [|done].
    exists (side_links sd r SLOT_NULL (head_of l)). rewrite Hf2, H1 by done.
    by rewrite side_prev_links, side_next_links.
  - by eapply same_data_trans.
  - intros x Hx. apply not_elem_of_cons in Hx as [Hx1 Hx2]. rewrite Hf2 by done.
    apply Hf1. set_solver.
Qed.

Lemma unlink_spec v l1 s l2 :
  dll v (l1 ++ s :: l2) ->
  exists v' r, view_read v s = Some r /\
    unlink v s = (Ok (if slot_is_null (List.last l1 SLOT_NULL) then Some (head_of l2) else None), v') /\
    dll v' (l1 ++ l2) /\ same_data v v' /\ frame_out v v' (l1 ++ s :: l2) /\
    view_read v' s = Some (unlinked sd r).
Proof.
  intros [Hl Hnd]. apply seg_app in Hl as (H1 & Hs & (r & Hr & Hp & Hn) & H2).
  apply NoDup_app in Hnd as (Hnd1 & Hd & Hnd2). apply NoDup_cons in Hnd2 as [Hin Hnd2].
  unfold unlink. rewrite Hr, Hp, Hn. simpl in H1.
  destruct (patch_prev v l1 s (hd SLOT_NULL l2)) as (v1 & -> & S1 & F1 & D1); [done..|].
  destruct (patch_next v1 s l2 (List.last l1 SLOT_NULL)) as (v2 & E2 & S2 & F2 & D2); [|done|].
  { eapply seg_frame; [|exact H2]. intros x Hx. apply F1. set_solver. }
  unfold head_of in E2. rewrite E2.
  assert (view_read v2 s = Some r) as Hr2.
  { rewrite F2, F1 by set_solver. done. }
  set (v3 := view_write v2 s (unlinked sd r)). exists v3, r. split_and!; try done.
  - split.
    + apply seg_app. split.
      * eapply seg_frame; [|exact S1]. intros x Hx.
        transitivity (view_read v2 x); [apply read_write_ne; intros ->; set_solver|].
        apply F2. set_solver.
      * eapply seg_frame; [|exact S2]. intros x Hx. apply read_write_ne. by intros ->.
    + apply NoDup_app. split_and!; [done| |done]. intros x Hx. set_solver.
  - eapply same_data_trans; [exact D1|]. eapply same_data_trans; [exact D2|].
    by apply write_same_data.
  - intros x Hx. transitivity (view_read v2 x); [apply read_write_ne; intros ->; set_solver|].
    rewrite F2 by set_solver. apply F1. set_solver.
  - by apply (read_write_eq v2 s _ r).
Qed.

End Generic.

(** The other side's lists depend only on what this side preserves. *)
Lemma seg_same_data {V} `{EdgeRecordView V} sd sd' (v v' : V) p l q :
  other sd sd' -> same_data sd v v' -> seg sd' v p l q -> seg sd' v' p l q.
Proof.
  intros Ho Hd. revert p. induction l as [|s l IH]; intros p; simpl; [done|].
  intros (Hs & (r & Hr & Hp & Hn) & Hl). split; [done|]. split; [|by apply IH].
  specialize (Hd s). rewrite Hr in Hd. destruct (view_read v' s) as [r'|] eqn:E'; [|done].
  simpl in Hd. injection Hd as Hd. exists r'. split; [done|].
  destruct (Ho r) as [P1 P2], (Ho r') as [Q1 Q2].
  rewrite <- Q1, <- Q2, Hd, P1, P2. done.
Qed.

(** ** The source's operations are the two sides *)

Section Sides.
Context {V : Type} `{EdgeRecordView V}.

Lemma link_source_head_side (v : V) n h : link_source_head v n h = link_head outgoing v n h.
Proof. done. Qed.
Lemma link_target_head_side (v : V) n h : link_target_head v n h = link_head incoming v n h.
Proof. done. Qed.
Lemma unlink_source_side (v : V) e : unlink_source v e = unlink outgoing v e.
Proof. done. Qed.
Lemma unlink_target_side (v : V) e : unlink_target v e = unlink incoming v e.
Proof. done. Qed.
Lemma collect_outgoing_side fuel (v : V) h : collect_outgoing fuel v h = collect outgoing fuel v h.
Proof. revert h. induction fuel; intros; simpl; [done|]. repeat case_match; auto. Qed.
Lemma collect_incoming_side fuel (v : V) h : collect_incoming fuel v h = collect incoming fuel v h.
Proof. revert h. induction fuel; intros; simpl; [done|]. repeat case_match; auto. Qed.

End Sides.

(** ** The lists of many nodes under a sequence of operations

    The owner keeps the head slot of each list and replaces it as the operations tell it
    to: a link returns the new head, an unlink returns one when the removed
    edge was the head. *)

Inductive Direction := Out | In.

#[global] Instance direction_eq_dec : EqDecision Direction.
Proof. solve_decision. Defined.

Definition side_of (d : Direction) : Side := match d with Out => outgoing | In => incoming end.
Definition opposite (d : Direction) : Direction := match d with Out => In | In => Out end.

Inductive adj_op := Link (e : SlotRef) | Unlink (e : SlotRef).

Section Runs.
Context {V : Type} `{EdgeRecordView V}.

Definition do_link (d : Direction) : V -> SlotRef -> SlotRef -> result SlotRef AdjacencyError * V :=
  match d with Out => link_source_head | In => link_target_head end.
Definition do_unlink (d : Direction) : V -> SlotRef -> result (option SlotRef) AdjacencyError * V :=
  match d with Out => unlink_source | In => unlink_target end.
Definition do_collect (d : Direction) : nat -> V -> SlotRef -> option (list SlotRef) :=
  match d with Out => collect_outgoing | In => collect_incoming end.

Definition apply_op (d : Direction) (v : V) (head : SlotRef) (op : adj_op) :
    result (V * SlotRef) AdjacencyError :=
  match op with
  | Link e => match do_link d v e head with (Ok h, v') => Ok (v', h) | (Err x, _) => Err x end
  | Unlink e =>
      match do_unlink d v e with
      | (Ok (Some h), v') => Ok (v', h)
      | (Ok None, v') => Ok (v', head)
      | (Err x, _) => Err x
      end
  end.

(** A history over several lists: each call names the list it works on, whose
    head slot is replaced as the call says. *)
Fixpoint run_lists (dirs : list Direction) (v : V) (heads : list SlotRef) (ops : list (nat * adj_op)) :
    option (result (V * list SlotRef) AdjacencyError) :=
  match ops with
  | [] => Some (Ok (v, heads))
  | (i, op) :: ops =>
      d ← dirs !! i; head ← heads !! i;
      match apply_op d v head op with
      | Ok (v', h) => run_lists dirs v' (<[i := h]> heads) ops
      | Err x => Some (Err x)
      end
  end.

End Runs.

(** The abstract list. *)
Definition list_op (l : list SlotRef) (op : adj_op) : list SlotRef :=
  match op with Link e => e :: l | Unlink e => filter (fun x => x ≠ e) l end.

(** An adjacency list: its side, the edges that may be in it, and those that
    are. *)
Record AdjList := mkAdj { a_dir : Direction; a_pool : list SlotRef; a_list : list SlotRef }.

Definition adj_step (a : AdjList) (op : adj_op) : AdjList := mkAdj (a_dir a) (a_pool a) (list_op (a_list a) op).
Definition lists_op (fam : list AdjList) (op : nat * adj_op) : list AdjList := alter (fun a => adj_step a op.2) op.1 fam.

(** The callers' obligation: link an edge of the list's pool that is not in the
    list, unlink one that is. *)
Definition op_valid (a : AdjList) (op : adj_op) : Prop :=
  match op with Link e => e ∈ a_pool a /\ e ∉ a_list a | Unlink e => e ∈ a_list a end.

#[global] Instance op_valid_dec a op : Decision (op_valid a op).
Proof. destruct op; simpl; apply _. Defined.

Fixpoint ops_valid (fam : list AdjList) (ops : list (nat * adj_op)) : Prop :=
  match ops with
  | [] => True
  | (i, op) :: ops =>
      match fam !! i with Some a => op_valid a op | None => False end /\ ops_valid (lists_op fam (i, op)) ops
  end.

#[global] Instance side_of_laws d : SideLaws (side_of d).
Proof. destruct d; apply _. Qed.

#[global] Instance ops_valid_dec fam ops : Decision (ops_valid fam ops).
Proof.
  revert fam. induction ops as [|[i op] ops IH]; intros fam; simpl; [apply _|].
  destruct (fam !! i); apply _.
Defined.

Section RunsSpec.
Context {V : Type} `{EdgeRecordViewLaws V} (d : Direction) (U : list SlotRef).

(** The edges of [U] exist, have an endpoint on this side, and are detached
    unless they are in the list. *)
Definition owns (v : V) (l : list SlotRef) : Prop :=
  dll (side_of d) v l /\ l ⊆ U /\
  forall s, s ∈ U -> slot_is_null s = false /\ exists r, view_read v s = Some r /\
    slot_is_null (side_node (side_of d) r) = false /\ (s ∉ l -> detached (side_of d) r).

Lemma do_link_side (v : V) n h : do_link d v n h = link_head (side_of d) v n h.
Proof. by destruct d. Qed.
Lemma do_unlink_side (v : V) e : do_unlink d v e = unlink (side_of d) v e.
Proof. by destruct d. Qed.
Lemma do_collect_side fuel (v : V) h : do_collect d fuel v h = collect (side_of d) fuel v h.
Proof. destruct d; [apply collect_outgoing_side|apply collect_incoming_side]. Qed.

Lemma unlinked_node r : side_node (side_of d) (unlinked (side_of d) r) = side_node (side_of d) r.
Proof. apply side_node_links. Qed.

Lemma same_data_read sd (v v' : V) s r :
  same_data sd v v' -> view_read v s = Some r ->
  exists r', view_read v' s = Some r' /\ unlinked sd r' = unlinked sd r.
Proof.
  intros Hd Hr. specialize (Hd s). rewrite Hr in Hd.
  destruct (view_read v' s) as [r'|]; simplify_eq/=. eauto.
Qed.

Lemma same_node (v v' : V) s r :
  same_data (side_of d) v v' -> view_read v s = Some r ->
  exists r', view_read v' s = Some r' /\
    side_node (side_of d) r' = side_node (side_of d) r.
Proof.
  intros Hd Hr. destruct (same_data_read _ _ _ _ _ Hd Hr) as (r' & Hr' & E).
  exists r'. split; [done|]. by rewrite <- unlinked_node, E, unlinked_node.
Qed.

Lemma filter_absent (l : list SlotRef) e : e ∉ l -> filter (fun x => x ≠ e) l = l.
Proof.
  induction l as [|x l IH]; [done|]. intros [Hx Hl]%not_elem_of_cons.
  rewrite filter_cons_True by done. by rewrite IH.
Qed.

Lemma filter_middle (l1 l2 : list SlotRef) e :
  NoDup (l1 ++ e :: l2) -> filter (fun x => x ≠ e) (l1 ++ e :: l2) = l1 ++ l2.
Proof.
  intros (_ & Hd & [Hin _]%NoDup_cons)%NoDup_app. rewrite filter_app, filter_cons_False by naive_solver.
  by rewrite !filter_absent by set_solver.
Qed.

Lemma last_null (v : V) p l : seg (side_of d) v SLOT_NULL l p ->
  slot_is_null (List.last l SLOT_NULL) = bool_decide (l = []).
Proof.
  destruct l as [|s l _] using rev_ind; [done|]. rewrite List.last_last.
  intros (_ & -> & _)%seg_app. symmetry. apply bool_decide_eq_false. by destruct l.
Qed.

Lemma apply_op_spec v l op :
  owns v l -> op_valid (mkAdj d U l) op ->
  exists v', apply_op d v (head_of l) op = Ok (v', head_of (list_op l op)) /\
    owns v' (list_op l op) /\ same_data (side_of d) v v' /\ frame_out v v' U.
Proof.
  intros (Hl & HU & Hr) Hv. destruct op as [e|e]; simpl in *.
  - destruct Hv as [He Hin]. destruct (Hr e He) as (Hn & r & Hre & _ & Hdet).
    destruct (link_spec (side_of d) v l e r) as (v' & E & Hl' & Hd & Hf); auto.
    rewrite do_link_side, E. exists v'. split_and!; [done| |done|].
    + split; [done|]. split; [set_solver|]. intros s Hs. destruct (Hr s Hs) as (Hns & rs & Hrs & Hnode & Hds).
      split; [done|]. destruct (same_node v v' s rs Hd Hrs) as (r' & Hr' & En).
      exists r'. rewrite En. split_and!; try done. intros Hsl. rewrite Hf in Hr' by done.
      replace r' with rs by congruence. apply Hds. set_solver.
    + intros s Hs. apply Hf. set_solver.
  - apply list_elem_of_split in Hv as (l1 & l2 & ->). destruct Hl as [Hseg Hnd].
    destruct (unlink_spec (side_of d) v l1 e l2) as (v' & r & Hre & E & Hl' & Hd & Hf & He); [by split|].
    rewrite filter_middle by done. rewrite do_unlink_side, E. apply seg_app in Hseg as [Hseg _].
    rewrite (last_null v _ l1 Hseg). exists v'. split_and!; [| |done|].
    + case_bool_decide as Hnil; [by subst l1|]. by destruct l1.
    + split; [done|]. split; [set_solver|]. intros s Hs. destruct (Hr s Hs) as (Hns & rs & Hrs & Hnode & Hds).
      split; [done|]. destruct (same_node v v' s rs Hd Hrs) as (r' & Hr' & En).
      exists r'. rewrite En. split_and!; try done. intros Hsl. destruct (decide (s = e)) as [->|Hse].
      * rewrite He in Hr'. injection Hr' as <-. split; [by rewrite En|].
        unfold unlinked. by rewrite side_prev_links, side_next_links.
      * rewrite Hf in Hr' by set_solver. replace r' with rs by congruence. apply Hds. set_solver.
    + intros s Hs. apply Hf. set_solver.
Qed.

End RunsSpec.

(** ** Many lists at once *)

Section Lists.
Context {V : Type} `{EdgeRecordViewLaws V}.
Implicit Types (v : V) (fam : list AdjList).

(** Every list of the family is in the store, and lists of one side have
    disjoint pools.  (An edge is in one list of each side.) *)
Record lists_ok v fam : Prop := {
  lo_owns : forall i a, fam !! i = Some a -> owns (a_dir a) (a_pool a) v (a_list a);
  lo_apart : forall i j a b, fam !! i = Some a -> fam !! j = Some b -> i ≠ j -> a_dir a = a_dir b ->
    forall s, s ∈ a_pool a -> s ∉ a_pool b
}.

(** The links of both sides removed: what no operation changes. *)
Definition bare (e : EdgeRecord) : EdgeRecord := unlinked outgoing (unlinked incoming e).

Lemma same_data_bare d v v' : same_data (side_of d) v v' -> forall s, bare <$> view_read v' s = bare <$> view_read v s.
Proof.
  intros Hd s. specialize (Hd s). destruct (view_read v s) as [r|], (view_read v' s) as [r'|]; simplify_eq/=; [|done].
  f_equal. assert (unlinked (side_of d) r' = unlinked (side_of d) r) as E by done. unfold bare.
  destruct d; cbn [side_of] in E; [|by rewrite E].
  assert (forall e, unlinked outgoing (unlinked incoming e) = unlinked incoming (unlinked outgoing e)) as Hc by done.
  by rewrite !Hc, E.
Qed.

Lemma dll_frame d v v' l : (forall s, s ∈ l -> view_read v' s = view_read v s) ->
  dll (side_of d) v l -> dll (side_of d) v' l.
Proof. intros Hf [Hl Hnd]. split; [|done]. by apply (seg_frame (side_of d) v v'). Qed.

Lemma dll_other d v v' l : same_data (side_of (opposite d)) v v' -> dll (side_of d) v l -> dll (side_of d) v' l.
Proof. intros Hd [Hl Hnd]. split; [|done]. eapply seg_same_data; [|exact Hd|exact Hl]. by destruct d. Qed.

(** An operation on one list keeps the others: those of the same side by
    disjointness, those of the opposite side because their links are kept. *)
Lemma owns_frame d U v v' l : (forall s, s ∈ U -> view_read v' s = view_read v s) -> owns d U v l -> owns d U v' l.
Proof.
  intros Hf (Hl & HU & Hr). split; [apply (dll_frame d v v'); [|done]; intros s Hs; apply Hf; set_solver|].
  split; [done|]. intros s Hs. rewrite Hf by done. by apply Hr.
Qed.

Lemma owns_other d U v v' l : same_data (side_of (opposite d)) v v' -> owns d U v l -> owns d U v' l.
Proof.
  intros Hd (Hl & HU & Hr). split; [by apply (dll_other d v v')|]. split; [done|]. intros s Hs.
  destruct (Hr s Hs) as (Hn & r & Er & Hnode & Hdet). split; [done|].
  destruct (same_data_read (side_of (opposite d)) v v' s r Hd Er) as (r' & Er' & E). exists r'. split; [done|].
  assert (side_node (side_of d) r' = side_node (side_of d) r /\ side_prev (side_of d) r' = side_prev (side_of d) r /\
    side_next (side_of d) r' = side_next (side_of d) r) as (E1 & E2 & E3).
  { destruct d, r, r'; simpl in *; unfold unlinked in E; simpl in *; injection E; intros; subst; done. }
  rewrite E1. split; [done|]. intros Hs'. unfold detached. rewrite E1, E2, E3. by apply Hdet.
Qed.

Lemma owns_after d U v v' (d' : Direction) U' l : frame_out v v' U -> same_data (side_of d) v v' ->
  (d' = d -> forall s, s ∈ U' -> s ∉ U) -> owns d' U' v l -> owns d' U' v' l.
Proof.
  intros Hf Hd Hap Ho. destruct (decide (d' = d)) as [->|Hne].
  - apply (owns_frame d U' v v'); [|done]. intros s Hs. apply Hf. by apply Hap.
  - apply (owns_other d' U' v v'); [|done]. by destruct d, d'.
Qed.

Definition heads_of fam : list SlotRef := (fun a => head_of (a_list a)) <$> fam.

Lemma lists_step v fam i op a : lists_ok v fam -> fam !! i = Some a -> op_valid a op ->
  exists v', apply_op (a_dir a) v (head_of (a_list a)) op = Ok (v', head_of (a_list (adj_step a op))) /\
    lists_ok v' (lists_op fam (i, op)) /\ same_data (side_of (a_dir a)) v v' /\ frame_out v v' (a_pool a).
Proof.
  intros [Ho Hap] Ha Hv. destruct a as [d U l]. cbn [a_dir a_list a_pool] in *.
  destruct (apply_op_spec d U v l op (Ho i _ Ha) Hv) as (v' & E & Ho' & Hd & Hf). exists v'. split; [done|].
  split; [|done]. unfold lists_op. cbn [fst snd]. split.
  - intros j b. destruct (decide (j = i)) as [->|Hne].
    + rewrite list_lookup_alter_eq, Ha. intros [= <-]. exact Ho'.
    + rewrite list_lookup_alter_ne by done. intros Hb. apply (owns_after d U v v'); [done|done| |by apply (Ho j)].
      intros Ed s Hs. by apply (Hap j i b (mkAdj d U l)).
  - assert (forall j b, alter (fun a => adj_step a op) i fam !! j = Some b ->
      exists b0, fam !! j = Some b0 /\ a_dir b0 = a_dir b /\ a_pool b0 = a_pool b) as Hsame.
    { intros j b. destruct (decide (j = i)) as [->|Hne].
      - rewrite list_lookup_alter_eq, Ha. intros [= <-]. by eexists.
      - rewrite list_lookup_alter_ne by done. eauto. }
    intros j k b c (b0 & Hb & Db & Pb)%Hsame (c0 & Hc & Dc & Pc)%Hsame Hjk. rewrite <- Db, <- Dc, <- Pb, <- Pc.
    by apply (Hap j k).
Qed.

Lemma heads_step fam i op a : fam !! i = Some a ->
  <[i := head_of (a_list (adj_step a op))]> (heads_of fam) = heads_of (lists_op fam (i, op)).
Proof.
  intros Ha. apply list_eq. intros j. unfold heads_of, lists_op. cbn [fst snd]. rewrite list_lookup_fmap.
  destruct (decide (j = i)) as [->|Hne].
  - rewrite list_lookup_insert_eq by (rewrite length_fmap; by eapply lookup_lt_Some).
    by rewrite list_lookup_alter_eq, Ha.
  - by rewrite list_lookup_insert_ne, list_lookup_alter_ne, list_lookup_fmap.
Qed.

Lemma dirs_step fam i op : a_dir <$> lists_op fam (i, op) = a_dir <$> fam.
Proof.
  apply list_eq. intros j. unfold lists_op. cbn [fst snd]. rewrite !list_lookup_fmap.
  destruct (decide (j = i)) as [->|Hne]; [rewrite list_lookup_alter_eq|by rewrite list_lookup_alter_ne].
  by destruct (fam !! i).
Qed.

(** The slots the lists of side [d] may touch. *)
Definition pool_of fam (d : Direction) (s : SlotRef) : Prop :=
  exists i a, fam !! i = Some a /\ a_dir a = d /\ s ∈ a_pool a.

Lemma pool_step fam i op d s : pool_of (lists_op fam (i, op)) d s -> pool_of fam d s.
Proof.
  intros (j & b & Hb & Hd & Hs). unfold lists_op in Hb. cbn [fst snd] in Hb. destruct (decide (j = i)) as [->|Hne].
  - rewrite list_lookup_alter_eq in Hb. destruct (fam !! i) as [a|] eqn:Ha; simplify_eq/=. by exists i, a.
  - rewrite list_lookup_alter_ne in Hb by done. by exists j, b.
Qed.

Lemma run_lists_spec ops : forall v fam, lists_ok v fam -> ops_valid fam ops ->
  exists v', run_lists (a_dir <$> fam) v (heads_of fam) ops = Some (Ok (v', heads_of (foldl lists_op fam ops))) /\
    lists_ok v' (foldl lists_op fam ops) /\
    (forall d l', (forall s, s ∈ l' -> ~ pool_of fam d s) -> dll (side_of d) v l' -> dll (side_of d) v' l') /\
    (forall s, bare <$> view_read v' s = bare <$> view_read v s).
Proof.
  induction ops as [|[i op] ops IH]; intros v fam Hok Hv; simpl.
  { exists v. split_and!; done. }
  destruct Hv as [Hv Hvs]. destruct (fam !! i) as [a|] eqn:Ha; [|done].
  destruct (lists_step v fam i op a Hok Ha Hv) as (v1 & E1 & Hok1 & Hd1 & Hf1).
  destruct (IH v1 (lists_op fam (i, op)) Hok1 Hvs) as (v2 & E2 & Hok2 & Hl2 & Hb2).
  exists v2. rewrite list_lookup_fmap, Ha. cbn [fmap option_fmap option_map mbind option_bind].
  assert (heads_of fam !! i = Some (head_of (a_list a))) as -> by (unfold heads_of; by rewrite list_lookup_fmap, Ha).
  cbn [mbind option_bind].
  rewrite E1. rewrite (heads_step fam i op a Ha), <- (dirs_step fam i op). split; [exact E2|]. split; [done|]. split.
  - intros d l' Hdis Hl. apply Hl2; [intros s Hs Hp; by apply (Hdis s Hs), (pool_step fam i op)|].
    destruct (decide (d = a_dir a)) as [->|Hne].
    + apply (dll_frame _ v v1); [|done]. intros s Hs. apply Hf1. intros Hp. apply (Hdis s Hs). by exists i, a.
    + apply (dll_other _ v v1); [|done]. by destruct d, (a_dir a).
  - intros s. by rewrite Hb2, (same_data_bare _ _ _ Hd1).
Qed.
End Lists.

(** C11: The adjacency operations refine lists.  The outgoing and incoming lists
    of any number of nodes, driven through any interleaving of links of detached
    edges and unlinks of listed ones (the same edge any number of times), never
    err; the heads the callers end up with start correctly doubly-linked chains;
    enumerating each of them terminates and gives exactly its abstract list (new
    edges first, removed ones gone, order kept).  The edges of different lists
    of one side must be distinct.  Every list outside the family, and every
    field of every record other than its four links, is untouched. *)
Theorem adjacency_refines_lists {V} `{EdgeRecordViewLaws V} (fam : list AdjList) (v : V) ops :
  lists_ok v fam -> ops_valid fam ops ->
  let fam' := foldl lists_op fam ops in
  exists v', run_lists (a_dir <$> fam) v (heads_of fam) ops = Some (Ok (v', heads_of fam')) /\
    (forall i a, fam' !! i = Some a ->
       dll (side_of (a_dir a)) v' (a_list a) /\
       forall fuel, (length (a_list a) < fuel)%nat ->
         do_collect (a_dir a) fuel v' (head_of (a_list a)) = Some (a_list a)) /\
    (forall d l', (forall s, s ∈ l' -> ~ pool_of fam d s) -> dll (side_of d) v l' -> dll (side_of d) v' l') /\
    (forall s, bare <$> view_read v' s = bare <$> view_read v s).
Proof.
  intros Hok Hv fam'. destruct (run_lists_spec ops v fam Hok Hv) as (v' & E & Hok' & Hl & Hb).
  exists v'. split; [exact E|]. split; [|done]. intros i a Ha. destruct (lo_owns _ _ Hok' i a Ha) as (Hd & _).
  split; [done|]. intros fuel Hfuel. rewrite do_collect_side. destruct Hd as [Hd _].
  by apply (collect_seg _ _ SLOT_NULL).
Qed.

(** ** A map of edge records *)

#[global] Instance map_view : EdgeRecordView (gmap SlotRef EdgeRecord) := {|
  view_read v s := v !! s;
  view_write v s r := <[s := r]> v
|}.
#[global] Instance map_view_laws : EdgeRecordViewLaws (gmap SlotRef EdgeRecord).
Proof.
  split; intros; simpl; [by rewrite lookup_insert_eq|by rewrite lookup_insert_ne].
Qed.

Module AdjacencyDemo.

Definition node1 : SlotRef := mkSlotRef 2560.
Definition e1 : SlotRef := mkSlotRef 257.
Definition e2 : SlotRef := mkSlotRef 258.
Definition e3 : SlotRef := mkSlotRef 259.
Definition U : list SlotRef := [e1; e2; e3].
Definition store : gmap SlotRef EdgeRecord :=
  <[e1 := edge_new 101 1 7 8 node1 node1]>
  (<[e2 := edge_new 102 1 7 8 node1 node1]> (<[e3 := edge_new 103 1 7 8 node1 node1]> ∅)).
(** The outgoing list of one node and the incoming lists of two. *)
Definition fam : list AdjList := [mkAdj Out U []; mkAdj In [e1; e3] []; mkAdj In [e2] []].
Definition ops : list (nat * adj_op) :=
  [(0, Link e1); (1, Link e1); (0, Link e2); (2, Link e2); (0, Link e3); (1, Link e3); (0, Unlink e2); (2, Unlink e2);
   (0, Link e2); (0, Unlink e1)]%nat.

Lemma store_owns d l : l ⊆ U -> owns d l store [].
Proof.
  intros Hl. split; [split; [done|constructor]|]. split; [set_solver|].
  intros s Hs%Hl. unfold U in Hs. rewrite !elem_of_cons in Hs.
  destruct Hs as [->|[->|[->|Hs]]]; [..|set_solver];
    (split; [done|]; eexists; split; [reflexivity|]; by destruct d).
Qed.

Lemma store_lists_ok : lists_ok store fam.
Proof.
  split.
  - intros i a Ha. assert (a_list a = [] /\ a_pool a ⊆ U) as [-> Hu].
    { destruct i as [|[|[|]]]; simplify_eq/=; (split; [done|]); unfold U; set_solver. }
    by apply store_owns.
  - intros i j a b Ha Hb Hij Hd s Hs Hs'. destruct i as [|[|[|]]], j as [|[|[|]]]; simplify_eq/=;
      set_unfold; destruct_or?; subst; done.
Qed.

Lemma adjacency_refines_lists_witness :
  a_list <$> foldl lists_op fam ops = [[e2; e3]; [e3; e1]; []] /\
  exists v', run_lists [Out; In; In] store [SLOT_NULL; SLOT_NULL; SLOT_NULL] ops = Some (Ok (v', [e2; e3; SLOT_NULL])) /\
    collect_outgoing 3 v' e2 = Some [e2; e3] /\ collect_incoming 3 v' e3 = Some [e3; e1].
Proof.
  split; [reflexivity|].
  destruct (adjacency_refines_lists fam store ops store_lists_ok) as (v' & E & C & _).
  - apply (bool_decide_unpack _). vm_compute. exact I.
  - exists v'. split; [exact E|]. split.
    + destruct (C 0%nat (mkAdj Out U [e2; e3]) eq_refl) as [_ H]. apply (H 3%nat). simpl. lia.
    + destruct (C 1%nat (mkAdj In [e1; e3] [e3; e1]) eq_refl) as [_ H]. apply (H 3%nat). simpl. lia.
Defined.

(** Unlinking an edge that is in no list reports the null slot as the new
    head, as if the edge had been the only one: a caller that unlinks the same
    edge twice replaces its head and loses the list. *)
Lemma unlink_twice_loses_list :
  exists v', run_lists [Out] store [SLOT_NULL] ((fun o => (0%nat, o)) <$> [Link e1; Link e2; Unlink e1; Unlink e1]) =
      Some (Ok (v', [SLOT_NULL])) /\
    collect_outgoing 3 v' SLOT_NULL = Some [] /\ collect_outgoing 3 v' e2 = Some [e2].
Proof. eexists. split; [vm_compute; reflexivity|]. split; vm_compute; reflexivity. Qed.

End AdjacencyDemo.
