(* ===== verification/Csr.v ===== *)
(** * Compressed sparse row adjacency ([src/graph/csr.rs])

    The builder that turns a flat list of live edges into the row-pointer and
    column arrays, the readers over the arrays, and the holder that publishes a
    snapshot.  Vectors are lists, an index out of range is a panic ([None]);
    counters are 32-bit and wrap.  [sort_unstable_by_key] leaves edges with
    equal keys in any order, so the rest of [build] takes the sorted list as an
    argument and the theorems hold for each order it may have. *)

From stdpp Require Import prelude list sorting.
From Stdlib Require Import ZArith Lia.
From S2P Require Import Prelude GraphRecord.

(** ** Data *)

Record CsrAdjacency := mkCsr {
  row_ptr : list Z;
  col_idx : list Z;
  edge_ids : list Z;
  edge_types : list Z;
  csr_max_node_id : Z
}.

Record CsrEdge := mkCsrEdge { ce_target : Z; ce_edge : Z; ce_type : Z }.

(** A pending edge: source, target, edge and type id. *)
Record Pending := mkPending { pe_src : Z; pe_dst : Z; pe_id : Z; pe_type : Z }.

#[global] Instance Pending_eq_dec : EqDecision Pending.
Proof. solve_decision. Defined.
#[global] Instance CsrEdge_eq_dec : EqDecision CsrEdge.
Proof. solve_decision. Defined.

Record CsrBuilder := mkCb { cb_edges : list Pending; cb_max_node_id : Z }.

Definition cb_new : CsrBuilder := mkCb [] 0.

Definition add_edge (b : CsrBuilder) (rec : EdgeRecord) : CsrBuilder :=
  if negb (Z.land (er_flags rec) EDGE_DELETED =? 0) then b else
  mkCb (cb_edges b ++ [mkPending (source_id rec) (target_id rec) (edge_id rec) (type_id rec)])
    (Z.max (Z.max (cb_max_node_id b) (source_id rec)) (target_id rec)).

Definition add_node (b : CsrBuilder) (rec : NodeRecord) : CsrBuilder :=
  mkCb (cb_edges b) (Z.max (cb_max_node_id b) (node_id rec)).

(** ** Building *)

(** The sort key [(src, dst, edge_id)], compared as a tuple. *)
Definition key_le (a b : Pending) : Prop :=
  pe_src a < pe_src b \/
  pe_src a = pe_src b /\ (pe_dst a < pe_dst b \/ pe_dst a = pe_dst b /\ pe_id a <= pe_id b).
#[global] Instance key_le_dec : RelDecision key_le.
Proof. intros a b. unfold key_le. apply _. Defined.

Definition row_count (max_node_id : Z) : nat := Z.to_nat (saturating_add 64 max_node_id 2).

(** [row_ptr[i] += 1]. *)
Definition bump (row : list Z) (i : nat) : list Z := alter (fun x => wrap 32 (x + 1)) i row.

Fixpoint count_degrees (n : nat) (es : list Pending) (row : list Z) : list Z :=
  match es with
  | [] => row
  | e :: es =>
      count_degrees n es
        (if (Z.to_nat (pe_src e) + 1 <? n)%nat then bump row (Z.to_nat (pe_src e) + 1) else row)
  end.

(** [for i in 1..n { row_ptr[i] += row_ptr[i - 1] }], from [i] with [k] steps left. *)
Fixpoint prefix_sum (k i : nat) (row : list Z) : option (list Z) :=
  match k with
  | O => Some row
  | S k =>
      x ← row !! (i - 1)%nat;
      y ← row !! i;
      prefix_sum k (S i) (<[i := wrap 32 (y + x)]> row)
  end.

(** [v[i] = x], which panics out of range. *)
Definition store_at (l : list Z) (i : nat) (x : Z) : option (list Z) :=
  if (i <? length l)%nat then Some (<[i := x]> l) else None.

Record Columns := mkColumns { c_dst : list Z; c_id : list Z; c_type : list Z }.

Fixpoint fill (es : list Pending) (cursor : list Z) (c : Columns) : option Columns :=
  match es with
  | [] => Some c
  | e :: es =>
      p ← cursor !! Z.to_nat (pe_src e);
      d ← store_at (c_dst c) (Z.to_nat p) (pe_dst e);
      i ← store_at (c_id c) (Z.to_nat p) (pe_id e);
      t ← store_at (c_type c) (Z.to_nat p) (pe_type e);
      fill es (bump cursor (Z.to_nat (pe_src e))) (mkColumns d i t)
  end.

(** [build] after the sort. *)
Definition build_sorted (es : list Pending) (max_node_id : Z) : option CsrAdjacency :=
  let n := row_count max_node_id in
  row ← prefix_sum (n - 1) 1 (count_degrees n es (replicate n 0));
  let m := length es in
  c ← fill es row (mkColumns (replicate m 0) (replicate m 0) (replicate m 0));
  Some (mkCsr row (c_dst c) (c_id c) (c_type c) max_node_id).

(** One result of [build]: equal keys keep their order. *)
Definition build (b : CsrBuilder) : option CsrAdjacency :=
  build_sorted (merge_sort key_le (cb_edges b)) (cb_max_node_id b).

(** ** Reading *)

Definition edge_count (c : CsrAdjacency) : nat := length (edge_ids c).
Definition node_count (c : CsrAdjacency) : Z := csr_max_node_id c.

Definition row_range (c : CsrAdjacency) (src : Z) : option (nat * nat) :=
  let idx := Z.to_nat src in
  if (idx + 1 <? length (row_ptr c))%nat
  then a ← row_ptr c !! idx; b ← row_ptr c !! (idx + 1)%nat; Some (Z.to_nat a, Z.to_nat b)
  else Some (0, 0)%nat.

Definition csr_edge_at (c : CsrAdjacency) (i : nat) : option CsrEdge :=
  t ← col_idx c !! i; e ← edge_ids c !! i; ty ← edge_types c !! i; Some (mkCsrEdge t e ty).

Definition outgoing_edges (c : CsrAdjacency) (src : Z) : option (list CsrEdge) :=
  '(a, b) ← row_range c src; mapM (csr_edge_at c) (seq a (b - a)).

Definition out_degree (c : CsrAdjacency) (src : Z) : option Z :=
  let idx := Z.to_nat src in
  if (idx + 1 <? length (row_ptr c))%nat
  then a ← row_ptr c !! idx; b ← row_ptr c !! (idx + 1)%nat; Some (wrap 32 (b - a))
  else Some 0.

(** ** The holder: the published snapshot, if any *)

Record CsrHolder := mkHolder { h_snapshot : option CsrAdjacency }.

Definition holder_new : CsrHolder := mkHolder None.
Definition freeze (h : CsrHolder) (c : CsrAdjacency) : CsrHolder := mkHolder (Some c).
Definition thaw (h : CsrHolder) : CsrHolder := mkHolder None.
Definition snapshot (h : CsrHolder) : option CsrAdjacency := h_snapshot h.
Definition is_frozen (h : CsrHolder) : bool := bool_decide (is_Some (h_snapshot h)).

(** ** Reference: the edges of a node, read off the list *)

Definition csr_edge (e : Pending) : CsrEdge := mkCsrEdge (pe_dst e) (pe_id e) (pe_type e).
Definition edges_from (v : Z) (es : list Pending) : list CsrEdge :=
  csr_edge <$> filter (fun e => pe_src e = v) es.

(** Number of edges whose source is below [i]. *)
Definition below (i : Z) (es : list Pending) : nat := length (filter (fun e => pe_src e < i) es).
Definition degree (i : Z) (es : list Pending) : nat := length (filter (fun e => pe_src e = i) es).

Definition sources_ok (n : nat) (es : list Pending) : Prop :=
  Forall (fun e => 0 <= pe_src e /\ (Z.to_nat (pe_src e) + 1 < n)%nat) es.

Lemma below_cons i e es :
  below i (e :: es) = ((if decide (pe_src e < i)%Z then 1 else 0) + below i es)%nat.
Proof. unfold below. rewrite filter_cons. by case_decide. Qed.

Lemma degree_cons i e es :
  degree i (e :: es) = ((if decide (pe_src e = i) then 1 else 0) + degree i es)%nat.
Proof. unfold degree. rewrite filter_cons. by case_decide. Qed.

Lemma below_S i es : below (i + 1) es = (below i es + degree i es)%nat.
Proof.
  induction es as [|e es IH]; [done|]. rewrite !below_cons, degree_cons, IH.
  repeat case_decide; lia.
Qed.

Lemma below_le i es : (below i es <= length es)%nat.
Proof. apply length_filter. Qed.

Lemma length_count_degrees n es row : length (count_degrees n es row) = length row.
Proof.
  revert row. induction es as [|e es IH]; intros row; simpl; [done|].
  rewrite IH. case_match; [|done]. apply length_alter.
Qed.

Lemma csr_lookup_bump row i j :
  bump row i !! j = if decide (i = j) then (fun x => wrap 32 (x + 1)) <$> row !! j else row !! j.
Proof. unfold bump. rewrite list_lookup_alter. by case_decide; subst. Qed.

(** After counting, entry [i] has grown by the degree of node [i - 1]. *)
Lemma count_degrees_spec n es row i x :
  sources_ok n es -> row !! i = Some x -> 0 <= x -> x + Z.of_nat (length es) < 2 ^ 32 ->
  count_degrees n es row !! i = Some (x + Z.of_nat (degree (Z.of_nat i - 1) es)).
Proof.
  revert row x. induction es as [|e es IH]; intros row x Hs Hx H0 Hb; simpl.
  { rewrite Hx. f_equal. unfold degree. simpl. lia. }
  inv Hs. rewrite degree_cons. simpl length in Hb.
  destruct (_ <? _)%nat eqn:E; [|rg_bool; lia].
  rewrite (IH _ (if decide (Z.to_nat (pe_src e) + 1 = i)%nat then x + 1 else x)).
  - f_equal. repeat case_decide; lia.
  - done.
  - rewrite csr_lookup_bump. case_decide; [|done]. rewrite Hx. simpl. rewrite wrap_id; [done|].
    unfold uint. lia.
  - case_decide; lia.
  - case_decide; lia.
Qed.

(** The prefix sums: given that entries up to [i - 1] are final. *)
Lemma prefix_sum_spec k i row f g :
  (0 < i)%nat -> length row = (i + k)%nat ->
  (forall j, (j < i)%nat -> row !! j = Some (f j)) ->
  (forall j, (i <= j < i + k)%nat -> row !! j = Some (g j)) ->
  (forall j, (i <= j < i + k)%nat -> f j = f (j - 1)%nat + g j) ->
  (forall j, (j < i + k)%nat -> is_u32 (f j)) ->
  exists row', prefix_sum k i row = Some row' /\ length row' = (i + k)%nat /\
    forall j, (j < i + k)%nat -> row' !! j = Some (f j).
Proof.
  revert i row. induction k as [|k IH]; intros i row Hi Hl Hf Hg Hr Hu; simpl.
  { exists row. split_and!; try done. intros. apply Hf. lia. }
  rewrite (Hf (i - 1)%nat), (Hg i) by lia. cbn [mbind option_bind].
  destruct (IH (S i) (<[i:=wrap 32 (g i + f (i - 1)%nat)]> row)) as (row' & -> & Hl' & Hr').
  - lia.
  - rewrite length_insert. lia.
  - intros j Hj. destruct (decide (j = i)) as [->|].
    + rewrite list_lookup_insert_eq by lia. f_equal.
      rewrite Z.add_comm, <- (Hr i) by lia. apply wrap_id, Hu. lia.
    + rewrite list_lookup_insert_ne by done. apply Hf. lia.
  - intros j Hj. rewrite list_lookup_insert_ne by lia. apply Hg. lia.
  - intros j Hj. apply Hr. lia.
  - intros j Hj. apply Hu. lia.
  - exists row'. split; [done|]. split; [lia|]. intros j Hj. apply Hr'. lia.
Qed.

(** The row pointers are the numbers of edges from lower sources. *)
Lemma rows_spec n es :
  sources_ok n es -> (1 <= n)%nat -> Z.of_nat (length es) < 2 ^ 32 ->
  exists row, prefix_sum (n - 1) 1 (count_degrees n es (replicate n 0)) = Some row /\
    length row = n /\ forall j, (j < n)%nat -> row !! j = Some (Z.of_nat (below (Z.of_nat j) es)).
Proof.
  intros Hs Hn Hb.
  assert (forall i, (i < n)%nat -> count_degrees n es (replicate n 0) !! i
            = Some (Z.of_nat (degree (Z.of_nat i - 1) es))) as Hc.
  { intros i Hi. rewrite (count_degrees_spec n es _ i 0); [f_equal; lia|done| |lia|lia].
    by apply lookup_replicate. }
  destruct (prefix_sum_spec (n - 1) 1 (count_degrees n es (replicate n 0))
     (fun j => Z.of_nat (below (Z.of_nat j) es)) (fun j => Z.of_nat (degree (Z.of_nat j - 1) es)))
    as (row & E & Hl & Hr).
  - lia.
  - rewrite length_count_degrees, length_replicate. lia.
  - intros [|j] Hj; [|lia]. rewrite Hc by lia. do 2 f_equal. clear -Hs.
    assert (forall i, i <= 0 -> below i es = 0%nat /\ degree (i - 1) es = 0%nat) as H.
    { intros i Hi. induction Hs as [|e es [He _] Hes IH]; [done|].
      rewrite below_cons, degree_cons. destruct IH as [-> ->]. repeat case_decide; lia. }
    change (degree (0 - 1) es = below 0 es). by destruct (H 0 ltac:(lia)) as [-> ->].
  - intros j Hj. apply Hc. lia.
  - intros j Hj. replace (Z.of_nat j) with (Z.of_nat (j - 1) + 1) by lia.
    rewrite below_S. rewrite Z.add_simpl_r. lia.
  - intros j Hj. pose proof (below_le (Z.of_nat j) es). unfold uint. lia.
  - exists row. split; [done|]. split; [lia|]. intros j Hj. apply Hr. lia.
Qed.

(** ** Filling the columns *)

Definition src_sorted (es : list Pending) : Prop := StronglySorted (fun a b => pe_src a <= pe_src b) es.

Lemma below_app i a b : below i (a ++ b) = (below i a + below i b)%nat.
Proof. unfold below. by rewrite filter_app, length_app. Qed.

Lemma degree_app i a b : degree i (a ++ b) = (degree i a + degree i b)%nat.
Proof. unfold degree. by rewrite filter_app, length_app. Qed.

Lemma below_ge i es : Forall (fun e => i <= pe_src e) es -> below i es = 0%nat.
Proof.
  induction 1 as [|e es He _ IH]; [done|]. rewrite below_cons, IH. case_decide; lia.
Qed.

Lemma below_degree_le i es :
  Forall (fun e => pe_src e <= i) es -> (below i es + degree i es = length es)%nat.
Proof.
  induction 1 as [|e es He _ IH]; [done|]. rewrite below_cons, degree_cons.
  simpl. repeat case_decide; lia.
Qed.

(** In source order, the cursor points at the edge's own position. *)
Lemma cursor_position es1 e es2 :
  src_sorted (es1 ++ e :: es2) ->
  (below (pe_src e) (es1 ++ e :: es2) + degree (pe_src e) es1 = length es1)%nat.
Proof.
  intros Hs. unfold src_sorted in Hs. rewrite StronglySorted_app in Hs.
  destruct Hs as (Hle & _ & Hs). inv Hs.
  rewrite below_app, (below_ge _ (e :: es2)) by (constructor; [lia|done]).
  rewrite <- (below_degree_le (pe_src e) es1); [lia|].
  apply Forall_forall. intros x Hx. apply Hle; [done|]. left.
Qed.

Lemma store_at_end (a : list Z) k i x :
  i = length a -> store_at (a ++ 0 :: replicate k 0) i x = Some ((a ++ [x]) ++ replicate k 0).
Proof.
  intros ->. unfold store_at. rewrite length_app. simpl length.
  destruct (_ <? _)%nat eqn:E; [|rg_bool; lia].
  rewrite insert_app_r_alt by lia. rewrite Nat.sub_diag, <- app_assoc. done.
Qed.

Definition columns_of (es : list Pending) (k : nat) : Columns :=
  mkColumns ((pe_dst <$> es) ++ replicate k 0) ((pe_id <$> es) ++ replicate k 0)
    ((pe_type <$> es) ++ replicate k 0).

Lemma fill_spec n es es1 es2 cursor :
  es = es1 ++ es2 -> src_sorted es -> sources_ok n es -> Z.of_nat (length es) < 2 ^ 32 ->
  (forall v, (v < n)%nat ->
     cursor !! v = Some (Z.of_nat (below (Z.of_nat v) es + degree (Z.of_nat v) es1))) ->
  fill es2 cursor (columns_of es1 (length es2)) = Some (columns_of es 0).
Proof.
  revert es1 cursor. induction es2 as [|e es2 IH]; intros es1 cursor -> Hs Hok Hb Hc.
  { by rewrite app_nil_r. }
  assert (Forall (fun e => 0 <= pe_src e /\ (Z.to_nat (pe_src e) + 1 < n)%nat) (e :: es2)) as Hok2
    by (by apply Forall_app in Hok as [_ ?]).
  inv Hok2. destruct H1 as [H0 Hn]. simpl fill. rewrite Hc by lia. cbn [mbind option_bind].
  rewrite Z2Nat.id by lia. rewrite cursor_position, Nat2Z.id by done.
  simpl c_dst. simpl c_id. simpl c_type.
  rewrite store_at_end by (by rewrite length_fmap). cbn [mbind option_bind].
  rewrite store_at_end by (by rewrite length_fmap). cbn [mbind option_bind].
  rewrite store_at_end by (by rewrite length_fmap). cbn [mbind option_bind].
  assert (es1 ++ e :: es2 = (es1 ++ [e]) ++ es2) as Ha by (by rewrite <- app_assoc).
  rewrite <- (IH (es1 ++ [e]) (bump cursor (Z.to_nat (pe_src e)))); [|done..|].
  - unfold columns_of. by rewrite !fmap_app.
  - intros v Hv. rewrite csr_lookup_bump, Hc by done.
    rewrite degree_app, degree_cons.
    pose proof (below_S (Z.of_nat v) (es1 ++ e :: es2)) as HS.
    pose proof (below_le (Z.of_nat v + 1) (es1 ++ e :: es2)) as HL.
    rewrite degree_app, degree_cons in HS. change (degree (Z.of_nat v) []) with 0%nat in *.
    destruct (decide (Z.to_nat (pe_src e) = v)) as [Hv'|Hv'].
    + rewrite decide_True in HS |- * by lia. simpl. f_equal. rewrite wrap_id; [lia|].
      unfold uint. lia.
    + rewrite decide_False by lia. f_equal. lia.
Qed.

(** ** Reading the arrays back *)

Lemma degree_gt i es : Forall (fun e => i < pe_src e) es -> degree i es = 0%nat.
Proof.
  induction 1 as [|e es He _ IH]; [done|]. rewrite degree_cons, IH. case_decide; lia.
Qed.

Lemma sorted_run v es :
  src_sorted es ->
  filter (fun e => pe_src e = v) es = take (degree v es) (drop (below v es) es).
Proof.
  induction 1 as [|e es Hs IH Hle]; [done|].
  rewrite filter_cons, below_cons, degree_cons. destruct (decide (pe_src e < v)).
  - rewrite decide_False, decide_False by lia. exact IH.
  - destruct (decide (pe_src e = v)) as [E|].
    + rewrite below_ge in IH |- * by (eapply Forall_impl; [exact Hle|]; simpl; lia).
      simpl. f_equal. exact IH.
    + rewrite degree_gt in IH |- * by (eapply Forall_impl; [exact Hle|]; simpl; lia). exact IH.
Qed.

Lemma csr_edge_at_columns row es mx i e :
  es !! i = Some e ->
  csr_edge_at (mkCsr row (c_dst (columns_of es 0)) (c_id (columns_of es 0))
    (c_type (columns_of es 0)) mx) i = Some (csr_edge e).
Proof.
  intros He. unfold csr_edge_at, columns_of. cbn [col_idx edge_ids edge_types c_dst c_id c_type].
  simpl replicate. rewrite !app_nil_r, !list_lookup_fmap, He. done.
Qed.

Lemma mapM_run {A B} (f : nat -> option B) (g : A -> B) (l : list A) a k :
  (forall i x, l !! i = Some x -> f i = Some (g x)) -> (a + k <= length l)%nat ->
  mapM f (seq a k) = Some (g <$> take k (drop a l)).
Proof.
  intros Hf. revert a. induction k as [|k IH]; intros a Hk; [done|].
  destruct (lookup_lt_is_Some_2 l a) as [x Hx]; [lia|]. simpl. rewrite (Hf a x Hx).
  cbn [mbind option_bind]. rewrite IH by lia. simpl. by rewrite (drop_S l x a Hx).
Qed.

Lemma build_sorted_spec es mx :
  src_sorted es -> sources_ok (row_count mx) es -> (1 <= row_count mx)%nat ->
  Z.of_nat (length es) < 2 ^ 32 ->
  exists c, build_sorted es mx = Some c /\ edge_count c = length es /\
    forall v, 0 <= v ->
      outgoing_edges c v = Some (edges_from v es) /\ out_degree c v = Some (Z.of_nat (degree v es)).
Proof.
  intros Hs Hok Hn Hb. unfold build_sorted.
  destruct (rows_spec _ es Hok Hn Hb) as (row & -> & Hl & Hr). cbn [mbind option_bind].
  change (mkColumns _ _ _) with (columns_of [] (length es)).
  rewrite (fill_spec (row_count mx) es [] es row); [|done..|].
  2:{ intros v Hv. rewrite Hr by done. do 2 f_equal. unfold degree. simpl. lia. }
  cbn [mbind option_bind]. eexists. split; [reflexivity|]. split.
  { unfold edge_count, columns_of. cbn. by rewrite app_nil_r, length_fmap. }
  intros v Hv. unfold outgoing_edges, row_range, out_degree. cbn [row_ptr]. rewrite Hl.
  destruct (_ <? _)%nat eqn:E; rg_bool.
  - rewrite !Hr by lia. cbn [mbind option_bind]. rewrite !Nat2Z.id.
    replace (Z.of_nat (Z.to_nat v + 1)) with (v + 1) by lia. rewrite Z2Nat.id by lia.
    rewrite below_S. pose proof (below_le (v + 1) es) as Hle. rewrite below_S in Hle.
    replace (below v es + degree v es - below v es)%nat with (degree v es) by lia. split.
    + rewrite (mapM_run _ csr_edge es).
      * unfold edges_from. by rewrite sorted_run.
      * intros i x Hx. by apply csr_edge_at_columns.
      * lia.
    + f_equal. rewrite wrap_id; [lia|]. unfold uint. lia.
  - assert (filter (fun e => pe_src e = v) es = []) as Hnil.
    { clear -Hok E. induction Hok as [|e es He Hes IH]; [done|]. rewrite filter_cons_False by lia. exact IH. }
    cbn [mbind option_bind]. split; [|unfold degree; by rewrite Hnil].
    unfold edges_from. by rewrite Hnil.
Qed.

(** ** What the builder collects *)

Definition live_edge (r : EdgeRecord) : bool := Z.land (er_flags r) EDGE_DELETED =? 0.
Definition pending_of (r : EdgeRecord) : Pending :=
  mkPending (source_id r) (target_id r) (edge_id r) (type_id r).

(** Node ids small enough for the row vector to have a length at all. *)
Definition csr_id (id : Z) : Prop := 0 <= id /\ id + 2 < 2 ^ 64.

Lemma add_edges_spec recs b :
  let b' := foldl add_edge b recs in
  cb_edges b' = cb_edges b ++ (pending_of <$> filter live_edge recs) /\
  cb_max_node_id b <= cb_max_node_id b' /\
  (csr_id (cb_max_node_id b) -> Forall (fun r => csr_id (source_id r) /\ csr_id (target_id r)) recs ->
   csr_id (cb_max_node_id b')) /\
  Forall (fun r => source_id r <= cb_max_node_id b') (filter live_edge recs).
Proof.
  revert b. induction recs as [|r recs IH]; intros b; simpl.
  { rewrite app_nil_r. split_and!; try done; try lia. }
  destruct (IH (add_edge b r)) as (E1 & E2 & E3 & E4). cbv zeta in *. rewrite filter_cons.
  assert (add_edge b r = if live_edge r
    then mkCb (cb_edges b ++ [pending_of r])
           (Z.max (Z.max (cb_max_node_id b) (source_id r)) (target_id r)) else b) as Hb
    by (unfold add_edge; fold (live_edge r); by destruct (live_edge r)).
  destruct (live_edge r) eqn:El.
  - assert (cb_edges (add_edge b r) = cb_edges b ++ [pending_of r]) as He by (by rewrite Hb).
    assert (cb_max_node_id (add_edge b r)
      = Z.max (Z.max (cb_max_node_id b) (source_id r)) (target_id r)) as Hm by (by rewrite Hb).
    rewrite decide_True by done. split_and!.
    + by rewrite E1, He, <- app_assoc.
    + lia.
    + intros Hm' Hf. inv Hf. apply E3; [|done]. unfold csr_id in *. lia.
    + constructor; [lia|done].
  - rewrite decide_False by naive_solver. rewrite Hb in *. split_and!; try done.
    intros Hm Hf. inv Hf. by apply E3.
Qed.

Lemma add_nodes_spec ns b :
  let b' := foldl add_node b ns in
  cb_edges b' = cb_edges b /\ cb_max_node_id b <= cb_max_node_id b' /\
  (csr_id (cb_max_node_id b) -> Forall (fun n => csr_id (node_id n)) ns -> csr_id (cb_max_node_id b')).
Proof.
  revert b. induction ns as [|n ns IH]; intros b; simpl; [split_and!; try done; lia|].
  destruct (IH (add_node b n)) as (E1 & E2 & E3). cbv zeta in *.
  assert (cb_max_node_id (add_node b n) = Z.max (cb_max_node_id b) (node_id n)) as Hm by done.
  split_and!; [done|lia|]. intros Hm' Hf. inv Hf. apply E3; [|done]. unfold csr_id in *. lia.
Qed.

(** [merge_sort] is one of the sorts the theorem covers. *)
#[global] Instance key_le_total : Total key_le.
Proof. intros a b. unfold key_le. lia. Qed.
#[global] Instance key_le_trans : Transitive key_le.
Proof. intros a b c. unfold key_le. lia. Qed.

Lemma build_sorts l : merge_sort key_le l ≡ₚ l /\ StronglySorted key_le (merge_sort key_le l).
Proof. split; [apply merge_sort_Permutation|apply StronglySorted_merge_sort; apply _]. Qed.

(** Outgoing edges come in order of target, then edge id. *)
Definition out_le (a b : CsrEdge) : Prop :=
  ce_target a < ce_target b \/ ce_target a = ce_target b /\ ce_edge a <= ce_edge b.

Lemma edges_from_sorted v es : StronglySorted key_le es -> StronglySorted out_le (edges_from v es).
Proof.
  unfold edges_from. induction 1 as [|e es Hs IH Hle]; [constructor|]. rewrite filter_cons.
  case_decide as Hv; [|done]. simpl. constructor; [done|]. rewrite Forall_fmap.
  apply Forall_forall. intros x [Hx Hin]%list_elem_of_filter.
  rewrite Forall_forall in Hle. specialize (Hle x Hin). unfold key_le in Hle.
  unfold compose, out_le, csr_edge. simpl. lia.
Qed.

Lemma key_src_sorted es : StronglySorted key_le es -> src_sorted es.
Proof.
  induction 1 as [|e es Hs IH Hle]; constructor; [done|].
  eapply Forall_impl; [exact Hle|]. intros x. unfold key_le. lia.
Qed.

Lemma filter_pending v (recs : list EdgeRecord) :
  filter (fun e => pe_src e = v) (pending_of <$> filter live_edge recs)
  = pending_of <$> filter (fun r => live_edge r = true /\ source_id r = v) recs.
Proof.
  induction recs as [|r recs IH]; [done|]. rewrite !filter_cons.
  destruct (live_edge r) eqn:El.
  - rewrite decide_True by done. rewrite fmap_cons, filter_cons, IH.
    destruct (decide (source_id r = v)) as [E|E].
    + rewrite !decide_True by (simpl; auto). done.
    + rewrite !decide_False by (simpl; naive_solver). done.
  - rewrite decide_False by naive_solver. rewrite decide_False by naive_solver. exact IH.
Qed.

(** C12: The CSR snapshot is equivalent to the edge list.  Built from any edge
    and node records (ids below 2^64 - 2, fewer than 2^32 edges), whatever order
    the unstable sort leaves equal keys in, construction never indexes out of
    range; for every node id, known or not, the snapshot yields exactly the
    live edges with that source (each with its target, id and type), sorted by
    target and edge id, [out_degree] counts them, and deleted edges are
    gone. *)
Theorem csr_equivalence recs ns es :
  Forall (fun r => csr_id (source_id r) /\ csr_id (target_id r)) recs ->
  Forall (fun n => csr_id (node_id n)) ns ->
  Z.of_nat (length recs) < 2 ^ 32 ->
  es ≡ₚ cb_edges (foldl add_node (foldl add_edge cb_new recs) ns) ->
  StronglySorted key_le es ->
  exists c, build_sorted es (cb_max_node_id (foldl add_node (foldl add_edge cb_new recs) ns)) = Some c /\
    edge_count c = length (filter live_edge recs) /\
    forall v, is_u64 v -> exists out, outgoing_edges c v = Some out /\
      out ≡ₚ (fun r => mkCsrEdge (target_id r) (edge_id r) (type_id r)) <$>
               filter (fun r => live_edge r = true /\ source_id r = v) recs /\
      StronglySorted out_le out /\ out_degree c v = Some (Z.of_nat (length out)).
Proof.
  intros Hrecs Hns Hlen Hperm Hsort.
  destruct (add_edges_spec recs cb_new) as (E1 & M1 & I1 & S1).
  destruct (add_nodes_spec ns (foldl add_edge cb_new recs)) as (E2 & M2 & I2). cbv zeta in *.
  assert (csr_id (cb_max_node_id (foldl add_node (foldl add_edge cb_new recs) ns))) as Hmax.
  { apply I2; [|done]. apply I1; [|done]. unfold csr_id. simpl. lia. }
  set (mx := cb_max_node_id (foldl add_node (foldl add_edge cb_new recs) ns)) in *.
  rewrite E2, E1 in Hperm. simpl app in Hperm.
  assert (length es = length (filter live_edge recs)) as Hl
    by (by rewrite Hperm, length_fmap).
  pose proof (length_filter live_edge recs) as Hlf.
  assert (sources_ok (row_count mx) es) as Hok.
  { unfold sources_ok. rewrite Hperm, Forall_fmap. apply Forall_forall. intros r Hr.
    rewrite Forall_forall in S1. specialize (S1 r Hr). apply list_elem_of_filter in Hr as [_ Hr].
    rewrite Forall_forall in Hrecs. specialize (Hrecs r Hr) as [Hr1 _].
    unfold compose, pending_of, row_count, saturating_add, csr_id in *. simpl. lia. }
  assert (src_sorted es) as Hss.
  { by apply key_src_sorted. }
  destruct (build_sorted_spec es mx Hss Hok) as (c & E & Hc & Hv).
  - unfold row_count, saturating_add, csr_id in *. lia.
  - lia.
  - exists c. split; [done|]. split; [congruence|]. intros v Hv64.
    destruct (Hv v) as [Ho Hd]; [unfold uint in Hv64; lia|].
    exists (edges_from v es). split; [done|]. split; [|split].
    + unfold edges_from. rewrite Hperm, filter_pending, <- list_fmap_compose. done.
    + by apply edges_from_sorted.
    + rewrite Hd. unfold degree, edges_from. by rewrite length_fmap.
Qed.

Definition demo_edges : list EdgeRecord :=
  [edge_new 12 1 3 2 SLOT_NULL SLOT_NULL; edge_new 11 1 1 4 SLOT_NULL SLOT_NULL;
   edge_new 13 2 3 0 SLOT_NULL SLOT_NULL;
   mkEdge 14 3 1 1 SLOT_NULL SLOT_NULL SLOT_NULL SLOT_NULL SLOT_NULL SLOT_NULL SLOT_NULL EDGE_DELETED 0 0].

(** Node 3 has two live edges, to 0 and to 2; its deleted edge is not listed,
    node 5 exists without edges and node 9 does not exist. *)
Lemma csr_equivalence_witness :
  exists c, build (foldl add_node (foldl add_edge cb_new demo_edges) [node_new 5 1]) = Some c /\
    (exists out, outgoing_edges c 3 = Some out /\ out_degree c 3 = Some (Z.of_nat (length out))) /\
    outgoing_edges c 3 = Some [mkCsrEdge 0 13 2; mkCsrEdge 2 12 1] /\
    outgoing_edges c 5 = Some [] /\ outgoing_edges c 9 = Some [].
Proof.
  destruct (csr_equivalence demo_edges [node_new 5 1]
    (merge_sort key_le (cb_edges (foldl add_node (foldl add_edge cb_new demo_edges) [node_new 5 1]))))
    as (c & E & _ & Hv).
  - repeat constructor; unfold csr_id; simpl; lia.
  - repeat constructor; unfold csr_id; simpl; lia.
  - simpl. lia.
  - apply build_sorts.
  - apply build_sorts.
  - exists c. split; [exact E|]. split.
    { destruct (Hv 3) as (out & H1 & _ & _ & H2); [unfold uint; lia|]. eauto. }
    injection E as <-. split_and!; vm_compute; reflexivity.
Defined.
