(* ===== verification/Catalog.v ===== *)
(** * The schema catalog ([src/catalog/mod.rs])

    Labels, relationship types and property keys are registered under dense
    32-bit ids.  The catalog keeps, three times over, a forward map, a reverse
    map and the next id; the model groups each triple in an [IdSpace].  A name is
    the byte list of a Rust string.  Iterating a [HashMap] gives its entries in
    an arbitrary order: [encode] takes the order as an argument, and the
    theorems hold for each.  The sidecar file is written through the I/O
    model, under any placement of faults. *)

From stdpp Require Import prelude list gmap.
From Stdlib Require Import ZArith Lia.
From S2P Require Import Prelude Bytes Checksum Io PageFile GraphRecord.

Definition Name : Type := list Z.

Record IdSpace := mkSpace {
  ids : gmap Name Z;
  names : gmap Z Name;
  next_id : Z
}.

Record Catalog := mkCatalog { labels : IdSpace; rel_types : IdSpace; property_keys : IdSpace }.

Definition space_new : IdSpace := mkSpace ∅ ∅ 1.
Definition catalog_new : Catalog := mkCatalog space_new space_new space_new.

(** ** Registering and looking up names *)

Definition get_or_create (s : IdSpace) (name : Name) : Z * IdSpace :=
  match ids s !! name with
  | Some id => (id, s)
  | None =>
      let id := next_id s in
      (id, mkSpace (<[name := id]> (ids s)) (<[id := name]> (names s)) (wrap 32 (next_id s + 1)))
  end.

Definition get_or_create_label (c : Catalog) (label : Name) : Z * Catalog :=
  let '(id, s) := get_or_create (labels c) label in (id, mkCatalog s (rel_types c) (property_keys c)).
Definition get_or_create_rel_type (c : Catalog) (rel_type : Name) : Z * Catalog :=
  let '(id, s) := get_or_create (rel_types c) rel_type in (id, mkCatalog (labels c) s (property_keys c)).
Definition get_or_create_property_key (c : Catalog) (key : Name) : Z * Catalog :=
  let '(id, s) := get_or_create (property_keys c) key in (id, mkCatalog (labels c) (rel_types c) s).

Definition label_id (c : Catalog) (label : Name) : option Z := ids (labels c) !! label.
Definition label_name (c : Catalog) (id : Z) : option Name := names (labels c) !! id.
Definition rel_type_id (c : Catalog) (rel_type : Name) : option Z := ids (rel_types c) !! rel_type.
Definition rel_type_name (c : Catalog) (id : Z) : option Name := names (rel_types c) !! id.
Definition property_key_id (c : Catalog) (key : Name) : option Z := ids (property_keys c) !! key.
Definition property_key_name (c : Catalog) (id : Z) : option Name := names (property_keys c) !! id.

(** ** Serialisation *)

(** The entries of a map in some iteration order. *)
Definition Entries : Type := list (Name * Z).
Definition iterates (m : gmap Name Z) (es : Entries) : Prop := es ≡ₚ map_to_list m.

Definition encode_entry (e : Name * Z) : list Z :=
  to_le 4 e.2 ++ to_le 2 (wrap 16 (Z.of_nat (length e.1))) ++ e.1.

Definition encode_section (es : Entries) : list Z :=
  to_le 4 (wrap 32 (Z.of_nat (length es))) ++ mjoin (encode_entry <$> es).

Definition encode (l r p : Entries) : list Z := encode_section l ++ encode_section r ++ encode_section p.

Definition read_u32_le (bytes : list Z) (pos : nat) : option (Z * nat) :=
  if (length bytes <? pos + 4)%nat then None
  else Some (from_le (slice bytes pos (pos + 4)), (pos + 4)%nat).

Definition read_u16_le (bytes : list Z) (pos : nat) : option (Z * nat) :=
  if (length bytes <? pos + 2)%nat then None
  else Some (from_le (slice bytes pos (pos + 2)), (pos + 2)%nat).

Record DecodedSection := mkSection { se_map : gmap Name Z; se_rev : gmap Z Name; se_max : Z }.

Fixpoint decode_entries (count : nat) (bytes : list Z) (pos : nat) (s : DecodedSection) :
    option (DecodedSection * nat) :=
  match count with
  | O => Some (s, pos)
  | S count =>
      '(id, pos) ← read_u32_le bytes pos;
      '(len, pos) ← read_u16_le bytes pos;
      let name_len := Z.to_nat len in
      if (length bytes <? pos + name_len)%nat then None else
      name ← from_utf8 (slice bytes pos (pos + name_len));
      decode_entries count bytes (pos + name_len)
        (mkSection (<[name := id]> (se_map s)) (<[id := name]> (se_rev s))
           (if se_max s <? id then id else se_max s))
  end.

Definition decode_section (bytes : list Z) (pos : nat) : option (IdSpace * nat) :=
  '(count, pos) ← read_u32_le bytes pos;
  '(s, pos) ← decode_entries (Z.to_nat count) bytes pos (mkSection ∅ ∅ 0);
  Some (mkSpace (se_map s) (se_rev s) (wrap 32 (se_max s + 1)), pos).

Definition decode (bytes : list Z) : option Catalog :=
  '(l, pos) ← decode_section bytes 0;
  '(r, pos) ← decode_section bytes pos;
  '(p, _) ← decode_section bytes pos;
  Some (mkCatalog l r p).

(** ** The sidecar *)

Definition CATALOG_MAGIC : Z := 0x52474341544C4700.
Definition CATALOG_HEADER_LEN : nat := 16.

Section Sidecar.
Context `{CS : Checksums}.

Definition frame (body : list Z) : list Z :=
  to_le 8 CATALOG_MAGIC ++ to_le 4 (crc32c body) ++ to_le 4 (wrap 32 (Z.of_nat (length body))) ++ body.

Definition unframe (bytes : list Z) : option Catalog :=
  if (length bytes <? CATALOG_HEADER_LEN)%nat then None else
  if negb (from_le (slice bytes 0 8) =? CATALOG_MAGIC) then None else
  let crc := from_le (slice bytes 8 12) in
  let body_len := Z.to_nat (from_le (slice bytes 12 16)) in
  if (length bytes <? CATALOG_HEADER_LEN + body_len)%nat then None else
  let body := slice bytes CATALOG_HEADER_LEN (CATALOG_HEADER_LEN + body_len) in
  if negb (crc32c body =? crc) then None else decode body.

Definition andThen {A B} (m : IO A) (k : A -> IO B) : IO B := fun w =>
  match m w with (Ok a, w1) => k a w1 | (Err e, w1) => (Err e, w1) end.

(** [persist] with the body's entry orders fixed; [tmp] is the unique
    temporary name in the sidecar's directory. *)
Definition persist (body : list Z) (tmp path : Path) : IO unit :=
  andThen (fs_open tmp true) (fun _ =>
  andThen (h_set_len tmp 0) (fun _ =>
  andThen (h_write_at tmp (frame body) 0) (fun _ =>
  andThen (h_sync tmp) (fun _ =>
  andThen (fs_rename tmp path) (fun _ =>
  fs_sync_dir path.1))))).

Definition load (path : Path) : IO (option Catalog) := fun w =>
  if negb (exists_path w path) then (Ok None, w) else
  andThen (fs_open path false) (fun _ =>
  andThen (h_len path) (fun len =>
  if (len =? 0)%nat then (fun w => (Ok None, w)) else
  andThen (h_read_at path len 0) (fun buf w => (Ok (unframe buf), w)))) w.

End Sidecar.

(** ** The id-space invariant *)

Record space_ok (s : IdSpace) : Prop := {
  so_inv n i : ids s !! n = Some i <-> names s !! i = Some n;
  so_range n i : ids s !! n = Some i -> 1 <= i < next_id s;
  so_dense i : 1 <= i < next_id s -> is_Some (names s !! i);
  so_next : 1 <= next_id s <= U32_MAX
}.

Lemma space_new_ok : space_ok space_new.
Proof.
  split; simpl; intros; try done; unfold U32_MAX; lia.
Qed.

Lemma get_or_create_spec s name :
  space_ok s -> next_id s < U32_MAX ->
  let '(id, s') := get_or_create s name in
  space_ok s' /\ ids s' !! name = Some id /\ names s' !! id = Some name /\
  (forall n, n ≠ name -> ids s' !! n = ids s !! n) /\
  (forall n i, ids s !! n = Some i -> ids s' !! n = Some i) /\
  next_id s' = next_id s + (if decide (is_Some (ids s !! name)) then 0 else 1).
Proof.
  intros Hs Hn. unfold get_or_create. destruct (ids s !! name) as [id|] eqn:E.
  - split_and!; try done; [by apply so_inv|]. rewrite decide_True by eauto. lia.
  - assert (names s !! next_id s = None) as Hfree.
    { destruct (names s !! next_id s) as [n|] eqn:En; [|done].
      apply so_inv in En; [|done]. apply so_range in En; [lia|done]. }
    destruct Hs as [Hinv Hr Hd Hnx]. cbn [ids names next_id].
    rewrite wrap_id by (unfold uint, U32_MAX in *; lia). split_and!.
    + split; cbn [ids names next_id].
      * intros n i. destruct (decide (n = name)) as [->|Hne].
        -- rewrite lookup_insert_eq. destruct (decide (i = next_id s)) as [->|Hi].
           ++ by rewrite lookup_insert_eq.
           ++ rewrite lookup_insert_ne by done. split; [congruence|]. rewrite <- Hinv. congruence.
        -- rewrite lookup_insert_ne by done. destruct (decide (i = next_id s)) as [->|Hi].
           ++ rewrite lookup_insert_eq. split; [|congruence]. intros H%Hr. lia.
           ++ by rewrite lookup_insert_ne.
      * intros n i. destruct (decide (n = name)) as [->|Hne].
        -- rewrite lookup_insert_eq. intros [= <-]. lia.
        -- rewrite lookup_insert_ne by done. intros H%Hr. lia.
      * intros i Hi. destruct (decide (i = next_id s)) as [->|Hne].
        -- rewrite lookup_insert_eq. eauto.
        -- rewrite lookup_insert_ne by done. apply Hd. lia.
      * lia.
    + by rewrite lookup_insert_eq.
    + by rewrite lookup_insert_eq.
    + intros n Hne. by rewrite lookup_insert_ne.
    + intros n i Hi. rewrite lookup_insert_ne; [done|]. congruence.
    + rewrite decide_False by (intros [? ?]; done). lia.
Qed.

(** ** Decoding what was encoded *)

Lemma catalog_slice_mid {A} (pre x rest : list A) b :
  b = (length pre + length x)%nat -> slice (pre ++ x ++ rest) (length pre) b = x.
Proof.
  intros ->. rewrite slice_skip by lia. rewrite Nat.sub_diag. apply slice_here. lia.
Qed.

Lemma read_u32_at pre z rest :
  is_u32 z -> read_u32_le (pre ++ to_le 4 z ++ rest) (length pre) = Some (z, (length pre + 4)%nat).
Proof.
  intros Hz. unfold read_u32_le. rewrite !length_app, length_to_le.
  destruct (_ <? _)%nat eqn:E; [rg_bool; lia|].
  rewrite catalog_slice_mid by (by rewrite length_to_le). by rewrite from_to_le_id.
Qed.

Lemma read_u16_at pre z rest :
  is_u16 z -> read_u16_le (pre ++ to_le 2 z ++ rest) (length pre) = Some (z, (length pre + 2)%nat).
Proof.
  intros Hz. unfold read_u16_le. rewrite !length_app, length_to_le.
  destruct (_ <? _)%nat eqn:E; [rg_bool; lia|].
  rewrite catalog_slice_mid by (by rewrite length_to_le). by rewrite from_to_le_id.
Qed.

Definition add_entry (s : DecodedSection) (e : Name * Z) : DecodedSection :=
  mkSection (<[e.1 := e.2]> (se_map s)) (<[e.2 := e.1]> (se_rev s))
    (if se_max s <? e.2 then e.2 else se_max s).

Definition entry_ok (e : Name * Z) : Prop :=
  is_string e.1 /\ Z.of_nat (length e.1) <= U16_MAX /\ is_u32 e.2.

Lemma catalog_entries_spec es : forall pre rest acc,
  Forall entry_ok es ->
  decode_entries (length es) (pre ++ mjoin (encode_entry <$> es) ++ rest) (length pre) acc
  = Some (foldl add_entry acc es, (length pre + length (mjoin (encode_entry <$> es)))%nat).
Proof.
  induction es as [|[n i] es IH]; intros pre rest acc Hok.
  { simpl. do 2 f_equal. lia. }
  inv Hok. destruct H1 as (Hs & Hl & Hi). simpl in Hs, Hl, Hi. unfold U16_MAX in Hl.
  assert (is_u16 (Z.of_nat (length n))) as Hn16 by (unfold uint; lia).
  cbn [length decode_entries]. rewrite fmap_cons. cbn [mjoin list_join].
  change (encode_entry (n, i)) with
    (to_le 4 i ++ to_le 2 (wrap 16 (Z.of_nat (length n))) ++ n).
  rewrite wrap_id by done. fold (mjoin (encode_entry <$> es)).
  set (J := mjoin (encode_entry <$> es)) in *. rewrite <- !app_assoc.
  rewrite read_u32_at by done. cbn [mbind option_bind].
  rewrite (app_assoc pre). replace (length pre + 4)%nat with (length (pre ++ to_le 4 i))
    by (by rewrite length_app, length_to_le).
  rewrite read_u16_at by done. cbn [mbind option_bind]. rewrite Nat2Z.id.
  rewrite (app_assoc (pre ++ _)).
  replace (length (pre ++ to_le 4 i) + 2)%nat
    with (length ((pre ++ to_le 4 i) ++ to_le 2 (Z.of_nat (length n))))
    by (by rewrite length_app, length_to_le).
  set (pre2 := (pre ++ to_le 4 i) ++ to_le 2 (Z.of_nat (length n))).
  replace (_ <? _)%nat with false by (symmetry; apply Nat.ltb_ge; rewrite !length_app; lia).
  rewrite catalog_slice_mid, from_utf8_string by done. cbn [mbind option_bind].
  rewrite (app_assoc pre2), <- length_app, IH by done. do 2 f_equal.
  unfold pre2. rewrite !length_app, !length_to_le. lia.
Qed.

Lemma decode_section_spec es pre rest :
  Forall entry_ok es -> Z.of_nat (length es) <= U32_MAX ->
  decode_section (pre ++ encode_section es ++ rest) (length pre)
  = Some (mkSpace (se_map (foldl add_entry (mkSection ∅ ∅ 0) es))
            (se_rev (foldl add_entry (mkSection ∅ ∅ 0) es))
            (wrap 32 (se_max (foldl add_entry (mkSection ∅ ∅ 0) es) + 1)),
          (length pre + length (encode_section es))%nat).
Proof.
  intros Hok Hl. unfold decode_section, encode_section, U32_MAX in *.
  assert (is_u32 (Z.of_nat (length es))) as H32 by (unfold uint; lia).
  rewrite wrap_id by done. rewrite <- app_assoc, read_u32_at by done.
  cbn [mbind option_bind]. rewrite Nat2Z.id, (app_assoc pre).
  replace (length pre + 4)%nat with (length (pre ++ to_le 4 (Z.of_nat (length es))))
    by (by rewrite length_app, length_to_le).
  rewrite catalog_entries_spec by done. cbn [mbind option_bind]. do 2 f_equal.
  rewrite !length_app, !length_to_le. lia.
Qed.

(** The accumulated maps and the largest id. *)
Lemma foldl_se_map es acc :
  NoDup es.*1 -> se_map (foldl add_entry acc es) = list_to_map es ∪ se_map acc.
Proof.
  revert acc. induction es as [|[n i] es IH]; intros acc Hnd; simpl.
  { by rewrite (left_id_L ∅ (∪)). }
  apply NoDup_cons in Hnd as [Hin Hnd]. rewrite IH by done. simpl.
  rewrite <- insert_union_l. rewrite insert_union_r; [done|].
  by apply not_elem_of_list_to_map.
Qed.

Lemma foldl_se_rev es acc :
  NoDup es.*2 -> se_rev (foldl add_entry acc es) = list_to_map (prod_swap <$> es) ∪ se_rev acc.
Proof.
  revert acc. induction es as [|[n i] es IH]; intros acc Hnd; simpl.
  { by rewrite (left_id_L ∅ (∪)). }
  apply NoDup_cons in Hnd as [Hin Hnd]. rewrite IH by done. simpl.
  rewrite <- insert_union_l. rewrite insert_union_r; [done|].
  apply not_elem_of_list_to_map. rewrite <- list_fmap_compose. done.
Qed.

Lemma foldl_se_max es acc m :
  se_max acc <= m -> Forall (fun e => e.2 <= m) es ->
  (se_max acc = m \/ exists n, (n, m) ∈ es) -> se_max (foldl add_entry acc es) = m.
Proof.
  revert acc. induction es as [|[n i] es IH]; intros acc Ha Hf Hm; simpl.
  { destruct Hm as [|[? Hin]]; [done|]. set_solver. }
  inv Hf. simpl in *. apply IH; [|done|]; simpl.
  - case_match; lia.
  - destruct Hm as [Hm|[n' Hin]].
    + left. case_match; rg_bool; lia.
    + apply elem_of_cons in Hin as [[= <- <-]|Hin]; [|eauto]. left. case_match; rg_bool; lia.
Qed.

(** Every name fits its 16-bit length field. *)
Definition encodable (s : IdSpace) : Prop :=
  forall n i, ids s !! n = Some i -> is_string n /\ Z.of_nat (length n) <= U16_MAX.

Section IterationOrder.
Context (s : IdSpace) (es : Entries) (Hs : space_ok s) (Hit : iterates (ids s) es).

Lemma entries_elem n i : (n, i) ∈ es <-> ids s !! n = Some i.
Proof using Hit. unfold iterates in Hit. rewrite Hit. apply elem_of_map_to_list. Qed.

Lemma entries_nodup : NoDup es.
Proof using Hit. unfold iterates in Hit. rewrite Hit. apply NoDup_map_to_list. Qed.

Lemma entries_nodup_names : NoDup es.*1.
Proof using Hit. unfold iterates in Hit. rewrite Hit. apply NoDup_fst_map_to_list. Qed.

Lemma entries_nodup_ids : NoDup es.*2.
Proof using Hs Hit.
  apply NoDup_fmap_2_strong; [|apply entries_nodup]. intros [n i] [n' i'] H1 H2. simpl. intros ->.
  apply entries_elem in H1, H2. apply so_inv in H1, H2; [|done..]. congruence.
Qed.

Lemma entries_count : Z.of_nat (length es) <= next_id s - 1.
Proof using Hs Hit.
  pose proof (so_next s Hs). pose proof entries_nodup_ids as Hnd.
  assert (es.*2 ⊆+ seqZ 1 (next_id s - 1)) as H1%submseteq_length.
  { apply NoDup_submseteq; [done|]. intros i ([n i'] & -> & He)%list_elem_of_fmap.
    apply entries_elem, so_range in He; [|done]. apply elem_of_seqZ. simpl. lia. }
  rewrite length_fmap, length_seqZ in H1. lia.
Qed.

Lemma entries_map : list_to_map es = ids s.
Proof using Hit.
  apply map_eq. intros n. destruct (ids s !! n) as [i|] eqn:E.
  - apply elem_of_list_to_map; [apply entries_nodup_names|]. by apply entries_elem.
  - apply not_elem_of_list_to_map. intros ([n' i] & -> & He)%list_elem_of_fmap.
    apply entries_elem in He. simpl in E. congruence.
Qed.

Lemma entries_rev : list_to_map (prod_swap <$> es) = names s.
Proof using Hs Hit.
  assert ((prod_swap <$> es).*1 = es.*2) as Hsw by (by rewrite <- list_fmap_compose).
  apply map_eq. intros i. destruct (names s !! i) as [n|] eqn:E.
  - apply elem_of_list_to_map; [rewrite Hsw; apply entries_nodup_ids|].
    apply list_elem_of_fmap. exists (n, i). split; [done|]. apply entries_elem. by apply so_inv.
  - apply not_elem_of_list_to_map. rewrite Hsw. intros ([n i'] & -> & He)%list_elem_of_fmap.
    apply entries_elem, so_inv in He; [|done]. simpl in E. congruence.
Qed.

Lemma section_roundtrip pre rest :
  encodable s ->
  decode_section (pre ++ encode_section es ++ rest) (length pre)
  = Some (s, (length pre + length (encode_section es))%nat).
Proof using Hs Hit.
  intros He. pose proof (so_next s Hs) as Hn. pose proof entries_count as Hc.
  rewrite decode_section_spec; [|apply Forall_forall|unfold U32_MAX in *; lia].
  - rewrite foldl_se_map, foldl_se_rev by (apply entries_nodup_names || apply entries_nodup_ids).
    rewrite entries_map, entries_rev. cbn [se_map se_rev]. rewrite !(right_id_L ∅ (∪)).
    rewrite (foldl_se_max es _ (next_id s - 1)).
    + rewrite Z.sub_add, wrap_id by (unfold uint, U32_MAX in *; lia). by destruct s.
    + simpl. lia.
    + apply Forall_forall. intros [n i] Hin%entries_elem%so_range; [|done]. simpl. lia.
    + destruct (decide (next_id s = 1)) as [->|Hne]; [left; simpl; lia|right].
      destruct (so_dense s Hs (next_id s - 1)) as [n Hn']; [lia|]. exists n.
      apply entries_elem. by apply so_inv.
  - intros [n i] Hin%entries_elem. destruct (He _ _ Hin). apply so_range in Hin; [|done].
    split; [done|]. split; [done|]. simpl. unfold uint, U32_MAX in *. lia.
Qed.

End IterationOrder.

(** ** The whole catalog *)

Record catalog_ok (c : Catalog) : Prop := {
  co_labels : space_ok (labels c);
  co_rel_types : space_ok (rel_types c);
  co_property_keys : space_ok (property_keys c)
}.

Definition catalog_encodable (c : Catalog) : Prop :=
  encodable (labels c) /\ encodable (rel_types c) /\ encodable (property_keys c).

(** [body] is what [encode] may produce for [c]. *)
Definition encodes (c : Catalog) (body : list Z) : Prop :=
  exists l r p, iterates (ids (labels c)) l /\ iterates (ids (rel_types c)) r /\
    iterates (ids (property_keys c)) p /\ body = encode l r p.

Lemma catalog_roundtrip c body :
  catalog_ok c -> catalog_encodable c -> encodes c body -> decode body = Some c.
Proof.
  intros [H1 H2 H3] (E1 & E2 & E3) (l & r & p & I1 & I2 & I3 & ->). unfold decode, encode.
  pose proof (section_roundtrip _ l H1 I1 [] (encode_section r ++ encode_section p) E1) as R1.
  cbn [app length Nat.add] in R1. rewrite R1. cbn [mbind option_bind].
  rewrite (section_roundtrip _ r H2 I2 (encode_section l) (encode_section p) E2). cbn [mbind option_bind].
  pose proof (section_roundtrip _ p H3 I3 (encode_section l ++ encode_section r) [] E3) as R3.
  rewrite app_nil_r, <- app_assoc, length_app in R3. rewrite R3. cbn [mbind option_bind]. by destruct c.
Qed.

(** ** The sidecar survives faults *)

Section SidecarSpec.
Context `{CS : Checksums}.

Lemma length_frame body : length (frame body) = (16 + length body)%nat.
Proof. unfold frame. rewrite !length_app, !length_to_le. lia. Qed.

Lemma unframe_frame body :
  Z.of_nat (length body) <= U32_MAX -> unframe (frame body) = decode body.
Proof.
  intros Hl. unfold U32_MAX in Hl.
  assert (is_u32 (Z.of_nat (length body))) as H32 by (unfold uint; lia).
  pose proof (length_frame body) as HL. unfold unframe, CATALOG_HEADER_LEN. rewrite HL.
  replace (_ <? 16)%nat with false by (symmetry; apply Nat.ltb_ge; lia).
  assert (slice (frame body) 0 8 = to_le 8 CATALOG_MAGIC) as -> by (unfold frame; field_slice; done).
  assert (slice (frame body) 8 12 = to_le 4 (crc32c body)) as -> by (unfold frame; field_slice; done).
  assert (slice (frame body) 12 16 = to_le 4 (wrap 32 (Z.of_nat (length body)))) as ->
    by (unfold frame; field_slice; done).
  rewrite !from_to_le_id by (apply crc32c_range || (apply wrap_range; lia) || done).
  rewrite Z.eqb_refl, wrap_id, Nat2Z.id by done. cbn [negb].
  replace (_ <? _)%nat with false by (symmetry; apply Nat.ltb_ge; lia).
  assert (slice (frame body) 16 (16 + length body) = body) as ->.
  { unfold frame. rewrite !app_assoc, slice_skip by (rewrite !length_app, !length_to_le; lia).
    rewrite !length_app, !length_to_le. replace (16 + length body - _)%nat with (length body) by lia.
    apply slice_full. }
  by rewrite Z.eqb_refl.
Qed.

(** The same entry of path [q], with the same unsynced replacements. *)
Definition same_at (q : Path) (w w1 : World) : Prop :=
  files w1 !! q = files w !! q /\ forall o, (q, o) ∈ unsynced_entries w1 <-> (q, o) ∈ unsynced_entries w.

Lemma same_at_trans q w w1 w2 : same_at q w w1 -> same_at q w1 w2 -> same_at q w w2.
Proof. intros [H1 H2] [H3 H4]. split; [congruence|]. intros o. by rewrite H4. Qed.

Lemma same_at_set_file q w p f : q <> p -> same_at q w (set_file w p f).
Proof. intros Hq. split; [by apply set_file_other|done]. Qed.

Lemma same_at_dir_change q w p : q <> p -> same_at q w (dir_change w p).
Proof. intros Hq. split; [done|]. intros o. cbn [dir_change unsynced_entries]. set_solver. Qed.

Lemma next_outcome_keeps w o w1 : next_outcome w = (o, w1) ->
  files w1 = files w /\ unsynced_entries w1 = unsynced_entries w.
Proof. unfold next_outcome. by destruct (script w); intros [= _ <-]. Qed.

Lemma next_outcome_same q w o w1 : next_outcome w = (o, w1) -> same_at q w w1.
Proof. intros [E1 E2]%next_outcome_keeps. split; [by rewrite E1|by rewrite E2]. Qed.

(** A call on the temporary file: what it does to that file on success, and
    that it leaves every other path alone. *)
Definition touches (tmp : Path) (m : IO unit) (upd : option File -> File) : Prop :=
  forall w r w1, m w = (r, w1) ->
    (forall q, q <> tmp -> same_at q w w1) /\
    (r = Ok tt -> files w1 !! tmp = Some (upd (files w !! tmp))).

Lemma touches_open tmp : touches tmp (fs_open tmp true) (default (mkFile [] [])).
Proof.
  intros w r w1. unfold fs_open. destruct (next_outcome w) as [[|k] w2] eqn:E.
  2:{ intros [= <- <-]. split; [|done]. intros q _. by eapply next_outcome_same. }
  pose proof (next_outcome_keeps _ _ _ E) as [Ef _].
  destruct (files w2 !! tmp) as [f|] eqn:Et; intros [= <- <-]; rewrite <- Ef, Et;
    (split; [intros q Hq; apply (same_at_trans _ _ w2); [by eapply next_outcome_same|]|intros _]).
  - by split.
  - done.
  - apply (same_at_trans _ _ (dir_change w2 tmp)); [by apply same_at_dir_change|by apply same_at_set_file].
  - by rewrite set_file_files.
Qed.

(** A call through the handle, given by its effect on the file. *)
Lemma touches_handle tmp (m : IO unit) (g : File -> File) (part : nat -> File -> option File) :
  (forall w f, files w !! tmp = Some f ->
     m w = match next_outcome w with
           | (Done, w1) => (Ok tt, set_file w1 tmp (g f))
           | (Failed k, w1) => (Err EIO, match part k f with Some f' => set_file w1 tmp f' | None => w1 end)
           end) ->
  (forall w, files w !! tmp = None -> m w = (Err NotFound, w)) ->
  touches tmp m (fun o => g (default (mkFile [] []) o)).
Proof.
  intros Hs Hn w r w1 H. destruct (files w !! tmp) as [f|] eqn:Ef.
  - rewrite (Hs w f Ef) in H. destruct (next_outcome w) as [[|k] w2] eqn:E; injection H as <- <-.
    + split; [|intros _; by rewrite set_file_files]. intros q Hq.
      apply (same_at_trans _ _ w2); [by eapply next_outcome_same|by apply same_at_set_file].
    + split; [|done]. intros q Hq. apply (same_at_trans _ _ w2); [by eapply next_outcome_same|].
      destruct (part k f); [by apply same_at_set_file|by split].
  - rewrite Hn in H by done. by injection H as <- <-.
Qed.

Lemma touches_set_len tmp :
  touches tmp (h_set_len tmp 0) (fun o => mkFile [] (durable (default (mkFile [] []) o))).
Proof.
  apply (touches_handle tmp _ (fun f => mkFile [] (durable f)) (fun _ _ => None)).
  - intros w f Hf. unfold h_set_len, with_file. rewrite Hf.
    by destruct (next_outcome w) as [[|k] w1].
  - intros w Hf. unfold h_set_len, with_file. by rewrite Hf.
Qed.

Lemma touches_write tmp bs :
  touches tmp (h_write_at tmp bs 0)
    (fun o => let f := default (mkFile [] []) o in mkFile (write_ext (cached f) 0 bs) (durable f)).
Proof.
  apply (touches_handle tmp _ (fun f => mkFile (write_ext (cached f) 0 bs) (durable f))
    (fun k f => if (min k (length bs) =? 0)%nat then None
       else Some (mkFile (write_ext (cached f) 0 (take (min k (length bs)) bs)) (durable f)))).
  - intros w f Hf. unfold h_write_at, with_file. rewrite Hf.
    destruct (next_outcome w) as [[|k] w1]; [done|]. by destruct (_ =? _)%nat.
  - intros w Hf. unfold h_write_at, with_file. by rewrite Hf.
Qed.

Lemma touches_sync tmp :
  touches tmp (h_sync tmp) (fun o => let f := default (mkFile [] []) o in mkFile (cached f) (cached f)).
Proof.
  apply (touches_handle tmp _ (fun f => mkFile (cached f) (cached f)) (fun _ _ => None)).
  - intros w f Hf. unfold h_sync, with_file. rewrite Hf. by destruct (next_outcome w) as [[|k] w1].
  - intros w Hf. unfold h_sync, with_file. by rewrite Hf.
Qed.

Lemma andThen_inv {A B} (m : IO A) (k : A -> IO B) w r w1 :
  andThen m k w = (r, w1) ->
  (exists e, m w = (Err e, w1) /\ r = Err e) \/ exists a w2, m w = (Ok a, w2) /\ k a w2 = (r, w1).
Proof.
  unfold andThen. destruct (m w) as [[a|e] w2] eqn:E; [eauto|]. intros [= <- <-]. eauto.
Qed.

(** A step on the temporary file, then the rest. *)
Lemma touches_step tmp m upd k w (r : result unit IoError) w1 :
  touches tmp m upd -> andThen m (fun _ => k) w = (r, w1) ->
  (r <> Ok tt /\ (forall q, q <> tmp -> same_at q w w1)) \/
  exists w2, k w2 = (r, w1) /\ (forall q, q <> tmp -> same_at q w w2) /\
    files w2 !! tmp = Some (upd (files w !! tmp)).
Proof.
  intros Ht [(e & Hm & ->)|([] & w2 & Hm & Hk)]%andThen_inv.
  - left. split; [done|]. apply (Ht _ _ _ Hm).
  - right. exists w2. destruct (Ht _ _ _ Hm) as [H1 H2]. auto.
Qed.

(** The temporary file is written and synced, or the call has failed and every
    other path is as before. *)
Lemma persist_staged body tmp path w r w1 :
  persist body tmp path w = (r, w1) ->
  (r <> Ok tt /\ forall q, q <> tmp -> same_at q w w1) \/
  exists w2, andThen (fs_rename tmp path) (fun _ => fs_sync_dir path.1) w2 = (r, w1) /\
    (forall q, q <> tmp -> same_at q w w2) /\
    files w2 !! tmp = Some (mkFile (frame body) (frame body)).
Proof.
  intros H. unfold persist in H.
  destruct (touches_step _ _ _ _ _ _ _ (touches_open tmp) H) as [|(w2 & H2 & F2 & _)]; [by left|].
  destruct (touches_step _ _ _ _ _ _ _ (touches_set_len tmp) H2) as [[? F]|(w3 & H3 & F3 & T3)].
  { left. split; [done|]. intros q Hq. apply (same_at_trans _ _ w2); auto. }
  assert (forall q, q <> tmp -> same_at q w w3) as G3 by (intros q Hq; apply (same_at_trans _ _ w2); auto).
  destruct (touches_step _ _ _ _ _ _ _ (touches_write tmp (frame body)) H3) as [[? F]|(w4 & H4 & F4 & T4)].
  { left. split; [done|]. intros q Hq. apply (same_at_trans _ _ w3); auto. }
  assert (forall q, q <> tmp -> same_at q w w4) as G4 by (intros q Hq; apply (same_at_trans _ _ w3); auto).
  destruct (touches_step _ _ _ _ _ _ _ (touches_sync tmp) H4) as [[? F]|(w5 & H5 & F5 & T5)].
  { left. split; [done|]. intros q Hq. apply (same_at_trans _ _ w4); auto. }
  right. exists w5. split; [done|]. split; [intros q Hq; apply (same_at_trans _ _ w4); auto|].
  rewrite T5, T4, T3. cbn [default id cached durable]. by rewrite (write_ext_end [] (frame body)).
Qed.

(** The rename and the directory sync: the new entry is in force after the
    rename, and no replacement of it is unsynced once the directory is synced. *)
Lemma rename_synced tmp path w f r w1 :
  tmp <> path -> files w !! tmp = Some f ->
  andThen (fs_rename tmp path) (fun _ => fs_sync_dir path.1) w = (r, w1) ->
  (forall q, q <> tmp -> q <> path -> files w1 !! q = files w !! q) /\
  (r <> Ok tt /\ same_at path w w1 \/
   files w1 !! path = Some f /\
   (r = Ok tt -> forall o, (path, o) ∉ unsynced_entries w1) /\
   forall o, (path, o) ∈ unsynced_entries w1 -> o = files w !! path \/ (path, o) ∈ unsynced_entries w).
Proof.
  intros Hne Hf [(e & Hr & ->)|([] & w2 & Hr & Hd)]%andThen_inv;
    unfold fs_rename in Hr; destruct (next_outcome w) as [[|k] w3] eqn:E;
    pose proof (next_outcome_keeps _ _ _ E) as [F U]; rewrite ?F, ?Hf in Hr; try discriminate.
  - injection Hr as _ ->. rewrite F. split; [done|]. left. split; [done|by eapply next_outcome_same].
  - injection Hr as Hr. set (u := unsynced_entries (dir_change (dir_change w3 tmp) path)) in *.
    assert (files w1 = <[path := f]> (delete tmp (files w)) /\
      ((r = Ok tt /\ unsynced_entries w1 = filter (fun e => e.1.1 <> path.1) u) \/
       (r <> Ok tt /\ unsynced_entries w1 = u))) as [Hfs Hu].
    { unfold fs_sync_dir in Hd. destruct (next_outcome w2) as [[|k] w4] eqn:E4;
        pose proof (next_outcome_keeps _ _ _ E4) as [F4 U4]; injection Hd as <- <-; cbn [files unsynced_entries];
        rewrite F4, ?U4, <- Hr; cbn [files unsynced_entries]; (split; [done|]); [left|right]; done. }
    rewrite Hfs. split; [intros q H1 H2; by rewrite lookup_insert_ne, lookup_delete_ne|]. right.
    rewrite lookup_insert_eq. split; [done|]. split.
    + intros -> o Ho. destruct Hu as [[_ Hu]|[? _]]; [|done]. rewrite Hu in Ho.
      apply list_elem_of_filter in Ho as [Ho _]. done.
    + intros o Ho. assert ((path, o) ∈ u) as Hin.
      { destruct Hu as [[_ Hu]|[_ Hu]]; rewrite Hu in Ho; [by apply list_elem_of_filter in Ho as [_ ?]|done]. }
      unfold u in Hin. cbn [dir_change unsynced_entries files] in Hin. rewrite F, U in Hin.
      apply elem_of_cons in Hin as [[= ->]|Hin]; [by left|].
      apply elem_of_cons in Hin as [[= -> _]|Hin]; [done|by right].
Qed.

(** What a power loss may leave at one path. *)
Lemma power_loss_choose w p o :
  o = files w !! p \/ (p, o) ∈ unsynced_entries w ->
  exists w', power_loss w w' /\ files w' !! p = (fun f => mkFile (durable f) (durable f)) <$> o.
Proof.
  set (crash := fun f => mkFile (durable f) (durable f)). intros Ho.
  exists (mkWorld (partial_alter (fun _ => crash <$> o) p (crash <$> files w)) []). split; [|cbn [files]; by rewrite lookup_partial_alter_eq].
  split; [done|]. split; [done|]. intros q. cbn [files]. destruct (decide (q = p)) as [->|].
  - exists o. split; [done|]. by rewrite lookup_partial_alter_eq.
  - exists (files w !! q). split; [by left|]. by rewrite lookup_partial_alter_ne, lookup_fmap.
Qed.

(** [load] without faults. *)
Lemma load_quiet path w :
  script w = [] ->
  (load path w).1 = Ok (f ← files w !! path;
                        if (length (cached f) =? 0)%nat then None else unframe (cached f)).
Proof.
  intros Hs. unfold load, exists_path. destruct (files w !! path) as [f|] eqn:Ef; [|done].
  rewrite bool_decide_true by eauto. cbn [negb mbind option_bind]. unfold andThen.
  rewrite (quiet_open path w f Hs Ef), (quiet_len path w f Hs Ef).
  destruct (_ =? _)%nat eqn:E; [done|].
  rewrite (quiet_read path w f Hs Ef) by lia. simpl. by rewrite slice_full.
Qed.

Lemma load_frame path w c body d :
  script w = [] -> files w !! path = Some (mkFile (frame body) d) ->
  catalog_ok c -> catalog_encodable c -> encodes c body -> Z.of_nat (length body) <= U32_MAX ->
  (load path w).1 = Ok (Some c).
Proof.
  intros Hs Hf Hc He Hb Hl. rewrite load_quiet, Hf by done. cbn [mbind option_bind cached].
  rewrite length_frame, unframe_frame by done. simpl. f_equal. by eapply catalog_roundtrip.
Qed.

End SidecarSpec.

(** ** Sequences of registrations *)

Inductive cat_op := RegLabel (n : Name) | RegRelType (n : Name) | RegPropertyKey (n : Name).

Definition cat_apply (c : Catalog) (op : cat_op) : Z * Catalog :=
  match op with
  | RegLabel n => get_or_create_label c n
  | RegRelType n => get_or_create_rel_type c n
  | RegPropertyKey n => get_or_create_property_key c n
  end.
Definition cat_run (c : Catalog) (ops : list cat_op) : Catalog := foldl (fun c op => (cat_apply c op).2) c ops.

(** The lookups that concern an operation's name. *)
Definition cat_id (c : Catalog) (op : cat_op) : option Z :=
  match op with RegLabel n => label_id c n | RegRelType n => rel_type_id c n | RegPropertyKey n => property_key_id c n end.
Definition cat_name (c : Catalog) (op : cat_op) (id : Z) : option Name :=
  match op with
  | RegLabel _ => label_name c id | RegRelType _ => rel_type_name c id | RegPropertyKey _ => property_key_name c id
  end.
Definition op_name (op : cat_op) : Name :=
  match op with RegLabel n | RegRelType n | RegPropertyKey n => n end.

(** All three spaces have room for [k] more names. *)
Definition roomy (c : Catalog) (k : Z) : Prop :=
  next_id (labels c) + k <= U32_MAX /\ next_id (rel_types c) + k <= U32_MAX /\
  next_id (property_keys c) + k <= U32_MAX.

Lemma cat_apply_spec c op k :
  catalog_ok c -> 0 <= k -> roomy c (k + 1) ->
  let '(id, c') := cat_apply c op in
  catalog_ok c' /\ roomy c' k /\ cat_id c' op = Some id /\
  (forall op' i, cat_id c op' = Some i -> cat_id c' op' = Some i).
Proof.
  intros [H1 H2 H3] Hk (R1 & R2 & R3).
  destruct op as [n|n|n]; simpl;
    [unfold get_or_create_label|unfold get_or_create_rel_type|unfold get_or_create_property_key];
    match goal with |- context [get_or_create ?s n] =>
      pose proof (get_or_create_spec s n ltac:(done) ltac:(lia)) as H; destruct (get_or_create s n) as [id s']
    end; destruct H as (Ho & Hi & _ & _ & Hm & Hn);
    (split; [by split|]; split;
      [unfold roomy; simpl; rewrite Hn; case_decide; lia|]; split; [done|]);
    intros [n'|n'|n'] i; unfold cat_id, label_id, rel_type_id, property_key_id; simpl; auto.
Qed.

Lemma cat_run_spec ops : forall c k,
  catalog_ok c -> 0 <= k -> roomy c (k + Z.of_nat (length ops)) ->
  catalog_ok (cat_run c ops) /\ roomy (cat_run c ops) k /\
  (forall op i, cat_id c op = Some i -> cat_id (cat_run c ops) op = Some i).
Proof.
  induction ops as [|op ops IH]; intros c k Hc Hk Hr; simpl in *.
  { by rewrite Z.add_0_r in Hr. }
  pose proof (cat_apply_spec c op (k + Z.of_nat (length ops)) Hc ltac:(lia)) as H.
  destruct (cat_apply c op) as [id c1]. destruct H as (Hc1 & Hr1 & _ & Hm1).
  { unfold roomy in *. lia. }
  destruct (IH c1 k Hc1 Hk Hr1) as (Hc2 & Hr2 & Hm2). auto.
Qed.

Lemma cat_name_id c op i : catalog_ok c -> cat_id c op = Some i -> cat_name c op i = Some (op_name op) /\ 1 <= i.
Proof.
  intros [H1 H2 H3] Hi.
  destruct op; simpl in *; unfold label_id, rel_type_id, property_key_id in Hi;
    (split; [by apply so_inv|by eapply so_range in Hi as [? _]]).
Qed.

(** C14: Catalog ids are stable and unambiguous.  From the empty catalog,
    through any sequence of fewer than 2^32 - 3 registrations of labels,
    relationship types and property keys, the id a registration returns is at
    least 1, is what every later lookup of that name returns, and is mapped
    back to that name; registering a name again returns the same id and changes
    nothing; two names of one kind never share an id; the forward maps, reverse
    maps and counters stay mutually consistent and dense; and when every name is
    a string of at most 65535 bytes, any encoding of the catalog, whatever the
    iteration order of its maps, decodes to the same catalog. *)
Theorem catalog_ids_stable ops1 op ops2 :
  Z.of_nat (length ops1 + length ops2) + 2 < U32_MAX ->
  catalog_ok (cat_run (cat_apply (cat_run catalog_new ops1) op).2 ops2) /\
  1 <= (cat_apply (cat_run catalog_new ops1) op).1 /\
  (let id := (cat_apply (cat_run catalog_new ops1) op).1 in
   let c := cat_run (cat_apply (cat_run catalog_new ops1) op).2 ops2 in
   cat_id c op = Some id /\ cat_name c op id = Some (op_name op) /\
   (cat_apply c op) = (id, c) /\
   (forall op' i, cat_id c op' = Some i -> cat_name c op' i = Some (op_name op')) /\
   (forall body, catalog_encodable c -> encodes c body -> decode body = Some c)).
Proof.
  intros Hl.
  destruct (cat_run_spec ops1 catalog_new (1 + Z.of_nat (length ops2))) as (H1 & R1 & _).
  { split; apply space_new_ok. }
  { lia. }
  { unfold roomy. simpl. lia. }
  pose proof (cat_apply_spec (cat_run catalog_new ops1) op (Z.of_nat (length ops2)) H1) as H2.
  destruct (cat_apply (cat_run catalog_new ops1) op) as [id c1]. simpl.
  destruct H2 as (H2 & R2 & I2 & _); [lia|unfold roomy in *; lia|].
  destruct (cat_run_spec ops2 c1 0) as (H3 & _ & M3); [done|lia|unfold roomy in *; lia|].
  pose proof (M3 op id I2) as I3. destruct (cat_name_id _ _ _ H3 I3) as [N3 P3].
  split_and!; try done.
  - destruct op as [n|n|n]; simpl in *;
      unfold get_or_create_label, get_or_create_rel_type, get_or_create_property_key,
        label_id, rel_type_id, property_key_id, get_or_create in *;
      rewrite I3; by destruct (cat_run c1 ops2).
  - intros op' i Hi. by apply cat_name_id.
  - intros body He Hb. by apply catalog_roundtrip.
Qed.

(** C13: The catalog sidecar is replaced atomically and read back exactly, for
    a catalog whose names are strings of at most 65535 bytes and whose encoding
    fits a 32-bit length.  Under any placement of I/O errors in [persist],
    whatever iteration order the hash maps had, a power loss afterwards - which
    may undo a rename whose directory was not synced - finds a sidecar that
    loads as exactly the persisted catalog (all three name spaces, both
    directions, and the next ids) or as one that a power loss before the call
    could have left; it is the persisted one whenever [persist] reported
    success; and no file other than the sidecar and the temporary one has
    changed. *)
Theorem catalog_persist_atomic `{CS : Checksums} c body tmp path w r w1 :
  catalog_ok c -> catalog_encodable c -> encodes c body -> Z.of_nat (length body) <= U32_MAX ->
  tmp <> path -> persist body tmp path w = (r, w1) ->
  (r = Ok tt -> forall w', power_loss w1 w' -> (load path w').1 = Ok (Some c)) /\
  (forall w', power_loss w1 w' -> (load path w').1 = Ok (Some c) \/
     exists w0, power_loss w w0 /\ (load path w').1 = (load path w0).1) /\
  (forall q, q <> tmp -> q <> path -> files w1 !! q = files w !! q).
Proof.
  intros Hc He Hb Hl Hne Hp.
  assert (forall w' o, script w' = [] -> files w' !! path = (fun f => mkFile (durable f) (durable f)) <$> o ->
    o = files w !! path \/ (path, o) ∈ unsynced_entries w ->
    exists w0, power_loss w w0 /\ (load path w').1 = (load path w0).1) as Hold.
  { intros w' o Hs Hf Ho. destruct (power_loss_choose w path o Ho) as (w0 & H0 & F0). exists w0. split; [done|].
    rewrite !load_quiet by (done || apply H0). by rewrite Hf, F0. }
  assert (forall w', script w' = [] -> files w' !! path = Some (mkFile (frame body) (frame body)) ->
    (load path w').1 = Ok (Some c)) as Hnew by (intros; by eapply load_frame).
  assert (forall w2, same_at path w w2 -> forall w', power_loss w2 w' ->
    exists w0, power_loss w w0 /\ (load path w').1 = (load path w0).1) as Hsame.
  { intros w2 [F U] w' (Hs & _ & Hw). destruct (Hw path) as (o & Ho & Hf). apply (Hold w' o Hs Hf).
    by rewrite F, U in Ho. }
  destruct (persist_staged _ _ _ _ _ _ Hp) as [[Hr F]|(w2 & H2 & F2 & T2)].
  { split; [done|]. split; [intros w' Hw; right; by apply (Hsame w1 (F path (not_eq_sym Hne)))|]. intros q H1 _. by apply F. }
  destruct (F2 path (not_eq_sym Hne)) as [Fp Up].
  destruct (rename_synced _ _ _ _ _ _ Hne T2 H2) as [F3 [[Hr Fs]|(F4 & U4 & V4)]].
  - split; [done|]. split; [|intros q H1 H3; rewrite F3 by done; by apply F2]. intros w' Hw. right.
    apply (Hsame w1); [|done]. apply (same_at_trans _ _ w2); [by split|done].
  - split; [|split; [|intros q H1 H3; rewrite F3 by done; by apply F2]].
    + intros Hr w' (Hs & _ & Hw). destruct (Hw path) as (o & [->|Ho] & Hf); [|by apply U4 in Ho].
      apply Hnew; [done|]. by rewrite Hf, F4.
    + intros w' (Hs & _ & Hw). destruct (Hw path) as (o & [->|Ho] & Hf).
      * left. apply Hnew; [done|]. by rewrite Hf, F4.
      * right. apply (Hold w' o Hs Hf). rewrite <- Fp, <- Up. by apply V4.
Qed.

Module CatalogDemo.

Definition person : Name := [80; 101].
Definition knows : Name := [75].
Definition ops : list cat_op := [RegLabel person; RegRelType knows; RegLabel knows].
Definition cat : Catalog := cat_run catalog_new ops.
Definition l_entries : Entries := [(knows, 2); (person, 1)].
Definition body : list Z := encode l_entries [(knows, 1)] [].
Definition tmp : Path := (8, 1).
Definition path : Path := (8, 0).

Lemma catalog_ids_stable_witness :
  (cat_apply (cat_run catalog_new [RegLabel person]) (RegLabel knows)).1 = 2 /\
  cat_id (cat_run catalog_new [RegLabel person; RegLabel knows; RegLabel person]) (RegLabel knows) = Some 2.
Proof.
  split; [vm_compute; reflexivity|].
  apply (catalog_ids_stable [RegLabel person] (RegLabel knows) [RegLabel person]).
  vm_compute. reflexivity.
Defined.

Lemma cat_encodes : encodes cat body.
Proof.
  exists l_entries, [(knows, 1)], []. split_and!; [..|reflexivity].
  - unfold iterates. vm_compute (map_to_list _). apply perm_swap || reflexivity.
  - unfold iterates. vm_compute (map_to_list _). reflexivity.
  - unfold iterates. vm_compute (map_to_list _). reflexivity.
Qed.

Lemma cat_encodable : catalog_encodable cat.
Proof.
  split_and!; intros n i H%elem_of_map_to_list; vm_compute in H; set_unfold in H;
    repeat match goal with H : _ \/ _ |- _ => destruct H as [H|H] end; simplify_eq;
    (split; [split; [repeat constructor; done|reflexivity]|vm_compute; done]) || done.
Qed.

Lemma cat_ok : catalog_ok cat.
Proof. apply (cat_run_spec ops catalog_new 0); [split; apply space_new_ok|lia|vm_compute; done]. Qed.

#[local] Existing Instance additive_checksums.

(** Saving into an empty directory, without faults. *)
Lemma catalog_persist_atomic_witness :
  exists w1, persist body tmp path (mkWorld ∅ []) = (Ok tt, w1) /\
    forall w', power_loss w1 w' -> (load path w').1 = Ok (Some cat).
Proof.
  destruct (persist body tmp path (mkWorld ∅ [])) as [r w1] eqn:E.
  assert (r = Ok tt) as -> by (vm_compute in E; congruence).
  exists w1. split; [reflexivity|].
  apply (catalog_persist_atomic cat body tmp path (mkWorld ∅ []) (Ok tt) w1);
    [apply cat_ok|apply cat_encodable|apply cat_encodes|vm_compute; congruence|done|done|reflexivity].
Defined.

(** When the directory sync fails the new sidecar is in place for the process,
    and a power loss may still find none. *)
Lemma unsynced_rename_is_undone :
  let w := (persist body tmp path (mkWorld ∅ [Done; Done; Done; Done; Done; Failed 0])).2 in
  (load path w).1 = Ok (Some cat) /\ (path, None) ∈ unsynced_entries w.
Proof. vm_compute. split; [reflexivity|repeat constructor]. Qed.

(** The 16-bit length field of a name of 65536 bytes is zero: the catalog
    that is read back maps the id to the empty name. *)
Lemma long_name_is_lost :
  decode (encode [(replicate (Z.to_nat 65536) 0, 1)] [] [])
  = Some (mkCatalog (mkSpace {[ [] := 1 ]} {[ 1 := [] ]} 2) space_new space_new).
Proof. vm_compute. reflexivity. Qed.

End CatalogDemo.
