(* ===== verification/HeapPage.v ===== *)
(** * Data pages of a heap file

    The graph engine only ever appends records to its data pages and
    overwrites them in place ([insert_record], [overwrite_record] of
    [src/graph/engine.rs]); it never deletes a slot.  Such a page is [packed]:
    its records lie one after another, so that an in-place overwrite touches
    one record only, and an insertion that does not fit changes nothing. *)

From stdpp Require Import prelude list.
From Stdlib Require Import ZArith Lia.
From S2P Require Import Prelude Bytes Checksum SlottedPage.

(** Offset of record [i] of a page whose records have lengths [lens]. *)
Definition record_off (lens : list nat) (i : nat) : nat := sum_list (take i lens).

Record packed (p : Page) (lens : list nat) : Prop := {
  pk_base : page_base p;
  pk_count : slot_count p = length lens;
  pk_free : free_space_offset p = sum_list lens;
  pk_entry : forall i n, lens !! i = Some n ->
    entry p i = mkSlot (Z.of_nat (record_off lens i)) (Z.of_nat n)
}.

Lemma record_off_le lens i n : lens !! i = Some n -> (record_off lens i + n <= sum_list lens)%nat.
Proof.
  unfold record_off. revert i. induction lens as [|x lens IH]; intros [|i]; simpl; intros H; simplify_eq.
  - lia.
  - specialize (IH i H). lia.
Qed.

Lemma record_off_S lens i n : lens !! i = Some n -> record_off lens (S i) = (record_off lens i + n)%nat.
Proof.
  unfold record_off. revert i. induction lens as [|x lens IH]; intros [|i]; simpl; intros H; simplify_eq.
  - lia.
  - specialize (IH i H). simpl in IH. destruct lens; [done|]. lia.
Qed.

(** Records do not overlap. *)
Lemma record_off_disjoint lens i j n m :
  lens !! i = Some n -> lens !! j = Some m -> i ≠ j ->
  (record_off lens i + n <= record_off lens j \/ record_off lens j + m <= record_off lens i)%nat.
Proof.
  assert (forall k i j n, (i + k = j)%nat -> (0 < k)%nat -> lens !! i = Some n -> (j <= length lens)%nat ->
    (record_off lens i + n <= record_off lens j)%nat) as Hlt.
  { intros k. induction k as [|k IH]; [lia|]. intros i' j' n' <- _ Hn Hj. destruct k as [|k].
    - replace (i' + 1)%nat with (S i') by lia. by rewrite (record_off_S _ _ _ Hn).
    - destruct (lookup_lt_is_Some_2 lens (i' + S k)) as [m' Hm']; [lia|].
      pose proof (IH i' (i' + S k)%nat n' eq_refl ltac:(lia) Hn ltac:(lia)).
      replace (i' + S (S k))%nat with (S (i' + S k)) by lia. rewrite (record_off_S _ _ _ Hm'). lia. }
  intros Hi Hj Hne. pose proof (lookup_lt_Some _ _ _ Hi). pose proof (lookup_lt_Some _ _ _ Hj).
  destruct (Nat.lt_total i j) as [H'|[?|H']]; [left|done|right].
  - apply (Hlt (j - i)%nat); try done; lia.
  - apply (Hlt (i - j)%nat); try done; lia.
Qed.

Section Packed.
Context (p : Page) (lens : list nat) (Hp : packed p lens).

Lemma packed_space : (HEADER_SIZE + sum_list lens + length lens * SLOT_SIZE <= PAGE_SIZE)%nat.
Proof using Hp. rewrite <- (pk_free _ _ Hp), <- (pk_count _ _ Hp). apply Hp. Qed.

Lemma packed_slot i :
  slot p i = (fun n => mkSlot (Z.of_nat (record_off lens i)) (Z.of_nat n)) <$> lens !! i.
Proof using Hp.
  pose proof packed_space. rewrite slot_entry by (rewrite (pk_count _ _ Hp); lia).
  rewrite (pk_count _ _ Hp). destruct (Nat.ltb_spec i (length lens)) as [H1|H1].
  - destruct (lookup_lt_is_Some_2 lens i H1) as [n Hn]. rewrite Hn. simpl. f_equal. by apply (pk_entry _ _ Hp).
  - by rewrite (lookup_ge_None_2 lens i) by lia.
Qed.

Lemma packed_live i n : lens !! i = Some n ->
  is_deleted (mkSlot (Z.of_nat (record_off lens i)) (Z.of_nat n)) = false.
Proof using Hp.
  intros Hn. apply record_off_le in Hn. pose proof packed_space. unfold is_deleted, U16_MAX.
  cbn [s_offset]. apply Z.eqb_neq. page_lia.
Qed.

Lemma packed_read i :
  read p i = (fun n => slice p (HEADER_SIZE + record_off lens i) (HEADER_SIZE + record_off lens i + n))
             <$> lens !! i.
Proof using Hp.
  unfold read. rewrite packed_slot. destruct (lens !! i) as [n|] eqn:E; [|done]. cbn [fmap option_fmap option_map].
  rewrite packed_live by done. cbn [s_offset s_length]. by rewrite !Nat2Z.id.
Qed.

Lemma packed_read_length i bs : read p i = Some bs -> lens !! i = Some (length bs).
Proof using Hp.
  rewrite packed_read. destruct (lens !! i) as [n|] eqn:E; [|done]. intros [= <-]. f_equal.
  apply record_off_le in E. pose proof packed_space. destruct (pk_base _ _ Hp) as [Hl _ _].
  rewrite length_slice; page_lia.
Qed.

Lemma packed_best_fit len n i : best_fit p len n i None None = None.
Proof using Hp.
  revert i. induction n as [|n IH]; intros i; [done|]. cbn [best_fit]. rewrite packed_slot.
  destruct (lens !! i) as [m|] eqn:E; cbn [fmap option_fmap option_map]; [|apply IH].
  rewrite packed_live by done. apply IH.
Qed.

Lemma packed_page_ok : page_ok p.
Proof using Hp.
  destruct (pk_base _ _ Hp) as [Hl Hb Hs]. split; try done. intros i Hi.
  rewrite (pk_count _ _ Hp) in Hi. destruct (lookup_lt_is_Some_2 lens i Hi) as [n Hn].
  rewrite (pk_entry _ _ Hp i n Hn), (pk_free _ _ Hp). right. apply record_off_le in Hn. simpl. lia.
Qed.

Lemma packed_available : available p = (PAGE_SIZE - (HEADER_SIZE + sum_list lens + length lens * SLOT_SIZE))%nat.
Proof using Hp. unfold available. by rewrite (pk_free _ _ Hp), (pk_count _ _ Hp). Qed.

(** A page changed outside its slot directory and counters stays packed. *)
Lemma packed_wrote o bs q :
  wrote p o bs q -> bytes_ok bs -> (o + length bs <= FREE_OFF \/ FLAGS_OFF <= o)%nat ->
  (o + length bs <= PAGE_SIZE - length lens * SLOT_SIZE)%nat -> packed q lens.
Proof using Hp.
  intros W Hbs Ho Hd. destruct (pk_base _ _ Hp) as [Hl Hb Hs].
  assert (slot_count q = slot_count p) as Ec.
  { unfold slot_count. rewrite (wrote_u16_other _ _ _ _ COUNT_OFF W) by page_lia. done. }
  assert (free_space_offset q = free_space_offset p) as Ef.
  { unfold free_space_offset. rewrite (wrote_u16_other _ _ _ _ FREE_OFF W) by page_lia. done. }
  split.
  - split; [by rewrite (wr_length _ _ _ _ W)|by apply (wr_ok _ _ _ _ W)|by rewrite Ec, Ef].
  - by rewrite Ec, (pk_count _ _ Hp).
  - by rewrite Ef, (pk_free _ _ Hp).
  - intros i n Hn. rewrite <- (pk_entry _ _ Hp i n Hn). apply lookup_lt_Some in Hn.
    apply (wrote_slot_other _ _ _ _ _ W). unfold entry_pos. page_lia.
Qed.

End Packed.

(** ** Overwriting a record in place *)

Lemma packed_overwrite p lens i bs :
  packed p lens -> bytes_ok bs -> lens !! i = Some (length bs) ->
  let q := write_at p (HEADER_SIZE + record_off lens i) bs in
  checked_write p (HEADER_SIZE + record_off lens i) bs = Some q /\ packed q lens /\
  read q i = Some bs /\ (forall j, j ≠ i -> read q j = read p j).
Proof.
  intros Hp Hbs Hi q. pose proof (record_off_le _ _ _ Hi) as Ho. pose proof (packed_space _ _ Hp) as Hs.
  destruct (pk_base _ _ Hp) as [Hl _ _].
  assert (wrote p (HEADER_SIZE + record_off lens i) bs q) as W by (apply wrote_write_at; page_lia).
  assert (packed q lens) as Hq by (eapply packed_wrote; [exact Hp|exact W|done|page_lia|page_lia]).
  split; [|split; [done|split]].
  - unfold checked_write. by destruct (Nat.leb_spec (HEADER_SIZE + record_off lens i + length bs) (length p));
      [|page_lia].
  - rewrite (packed_read q lens Hq), Hi. cbn [fmap option_fmap option_map]. f_equal. apply (wr_here _ _ _ _ W).
  - intros j Hj. rewrite (packed_read q lens Hq), (packed_read p lens Hp).
    destruct (lens !! j) as [m|] eqn:Ej; [|done]. cbn [fmap option_fmap option_map]. f_equal.
    apply (wr_frame _ _ _ _ W).
    destruct (record_off_disjoint lens i j (length bs) m Hi Ej ltac:(done)); lia.
Qed.

(** Writing in the first bytes of the header, as the checksum update and the
    stamping of the page LSN do, leaves the records alone. *)
Lemma packed_header p lens o bs :
  packed p lens -> bytes_ok bs -> (o + length bs <= FREE_OFF)%nat ->
  packed (write_at p o bs) lens /\ forall i, read (write_at p o bs) i = read p i.
Proof.
  intros Hp Hbs Ho. destruct (pk_base _ _ Hp) as [Hl _ _]. pose proof (packed_space _ _ Hp) as Hs.
  assert (wrote p o bs (write_at p o bs)) as W by (apply wrote_write_at; page_lia).
  assert (packed (write_at p o bs) lens) as Hq
    by (eapply packed_wrote; [exact Hp|exact W|done|page_lia|page_lia]).
  split; [done|]. intros i. rewrite (packed_read _ lens Hq), (packed_read p lens Hp).
  destruct (lens !! i); [|done]. cbn [fmap option_fmap option_map]. f_equal.
  apply (wr_frame _ _ _ _ W). page_lia.
Qed.

Lemma packed_checksum `{CS : Checksums} p lens :
  packed p lens -> packed (update_checksum_bytes p) lens /\
    forall i, read (update_checksum_bytes p) i = read p i.
Proof.
  intros Hp. apply packed_header; [done|apply to_le_ok|]. rewrite length_to_le. unfold FREE_OFF. lia.
Qed.

Lemma packed_init page_id t : packed (init page_id t) [].
Proof.
  destruct (init_ok page_id t) as [Ho Hc]. pose proof (length_contents (init page_id t)) as Hl.
  rewrite Hc in Hl. split; [by apply page_ok_base|by rewrite <- Hl| |done].
  unfold free_space_offset, get_u16, init, write_at. rewrite take_0. cbn [app].
  rewrite slice_app_l by (rewrite length_header_new; page_lia).
  by destruct (header_new_fields page_id t) as [_ ->].
Qed.

(** ** Inserting *)

Lemma sum_list_snoc lens n : sum_list (lens ++ [n]) = (sum_list lens + n)%nat.
Proof. induction lens; simpl; lia. Qed.

Lemma packed_insert p lens bs :
  packed p lens -> bytes_ok bs -> (length bs <= MAX_INLINE_RECORD_LEN)%nat ->
  (length bs + SLOT_SIZE <= available p)%nat ->
  exists q, insert p bs = Some (Some (length lens), q) /\ packed q (lens ++ [length bs]) /\
    read q (length lens) = Some bs /\ (forall j, j ≠ length lens -> read q j = read p j).
Proof.
  intros Hp Hb Hmax Hn. pose proof (packed_page_ok _ _ Hp) as Ho. pose proof (pk_base _ _ Hp) as Hpb.
  destruct (grow p bs Hpb Hb Hn) as (p1 & E1 & C1 & G). pose proof (available_room p _ Hpb Hn) as Hroom.
  destruct (count_bounds p Hpb) as (Hc & Hfb & _ & _).
  unfold insert. destruct (Nat.ltb_spec MAX_INLINE_RECORD_LEN (length bs)); [lia|].
  destruct (Nat.ltb_spec (available p) (length bs + SLOT_SIZE)); [lia|]. unfold place.
  rewrite (packed_best_fit p lens Hp), E1, Some_bind. revert G. rewrite C1.
  rewrite (wrap_id 16 (Z.of_nat (slot_count p) + 1)) by (unfold uint; lia). fold (new_slot p bs).
  generalize (set_u16 (set_u16 p1 COUNT_OFF (Z.of_nat (slot_count p) + 1))
    FREE_OFF (wrap 16 (Z.of_nat (free_space_offset p + length bs)))). intros q G.
  assert (new_slot p bs = mkSlot (Z.of_nat (sum_list lens)) (Z.of_nat (length bs))) as Hns.
  { unfold new_slot. rewrite (pk_free _ _ Hp), !wrap_id; [done|..]; rewrite ?(pk_free _ _ Hp) in *;
      unfold uint; page_lia. }
  destruct (put_entry q (slot_count p) (new_slot p bs) (gr_base _ _ _ G)) as [Ew R];
    [rewrite (gr_count _ _ _ G); lia|rewrite Hns; split; unfold uint; simpl; rewrite ?(pk_free _ _ Hp) in *; page_lia|].
  replace (PAGE_SIZE - Z.to_nat (Z.of_nat (slot_count p) + 1) * SLOT_SIZE)%nat
    with (entry_pos (slot_count p)) by (unfold entry_pos; page_lia).
  rewrite Ew, Some_bind. replace (Z.to_nat (Z.of_nat (slot_count p) + 1 - 1)) with (length lens)
    by (rewrite (pk_count _ _ Hp); lia).
  set (r := write_slot q (entry_pos (slot_count p)) (new_slot p bs)) in *.
  assert (packed r (lens ++ [length bs])) as Hr.
  { destruct R as [L B C F E A]. split.
    - split; [done|done|]. rewrite F, C. apply (gr_base _ _ _ G).
    - rewrite C, (gr_count _ _ _ G), (pk_count _ _ Hp), length_app. simpl. lia.
    - rewrite F, (gr_free _ _ _ G), (pk_free _ _ Hp), sum_list_snoc. done.
    - intros i n Hi. rewrite E; [|apply lookup_lt_Some in Hi; rewrite length_app in Hi; simpl in Hi;
        rewrite (gr_count _ _ _ G), (pk_count _ _ Hp); lia].
      rewrite (pk_count _ _ Hp). case_decide as Ei.
      + subst i. rewrite lookup_app_r, Nat.sub_diag in Hi by lia. injection Hi as <-.
        rewrite Hns. f_equal. unfold record_off. by rewrite take_app_length.
      + rewrite lookup_app_l in Hi by (apply lookup_lt_Some in Hi; rewrite length_app in Hi; simpl in Hi; lia).
        rewrite (gr_entry _ _ _ G) by (rewrite (pk_count _ _ Hp); by eapply lookup_lt_Some).
        rewrite (pk_entry _ _ Hp i n Hi). f_equal. unfold record_off.
        rewrite take_app_le; [done|]. apply lookup_lt_Some in Hi. lia. }
  exists r. split; [done|]. split; [done|].
  assert (slot_data r (new_slot p bs) = Some bs) as Hd.
  { rewrite <- (gr_record _ _ _ G). eapply slot_data_frame; [apply (rw_agree _ _ _ _ R)|].
    rewrite Hns. right. simpl. rewrite (gr_count _ _ _ G). rewrite (pk_free _ _ Hp) in *. page_lia. }
  split.
  - rewrite (packed_read r _ Hr), lookup_app_r, Nat.sub_diag by lia. cbn [fmap option_fmap option_map lookup].
    rewrite Hns in Hd. unfold slot_data in Hd.
    destruct (is_deleted _) eqn:Ed; [done|]. cbn [s_offset s_length] in Hd. rewrite !Nat2Z.id in Hd.
    unfold record_off. rewrite take_app_length. exact Hd.
  - intros j Hj. rewrite (packed_read r _ Hr), (packed_read p _ Hp).
    destruct (decide (j < length lens)%nat) as [Hlt|Hge].
    + rewrite lookup_app_l by done. destruct (lens !! j) as [n|] eqn:En; [|done].
      cbn [fmap option_fmap option_map]. f_equal. pose proof (record_off_le _ _ _ En).
      unfold record_off. rewrite take_app_le by lia. fold (record_off lens j).
      rewrite (rw_agree _ _ _ _ R); [|lia|rewrite (gr_count _ _ _ G); rewrite (pk_free _ _ Hp) in *; page_lia].
      apply (gr_agree _ _ _ G); [lia|]. rewrite (pk_free _ _ Hp). lia.
    + rewrite !lookup_ge_None_2 by (rewrite ?length_app; simpl; lia). done.
Qed.

(** ** A full page

    With no deleted slot, compaction finds nothing to reclaim: the insertion
    is refused. *)

Definition packed_slots (lens : list nat) (i : nat) : list Slot :=
  (fun j => mkSlot (Z.of_nat (record_off lens j)) (Z.of_nat (default 0%nat (lens !! j))))
    <$> seq i (length lens - i).

Lemma packed_compact_plan p lens :
  packed p lens -> forall n i, (i + n = length lens)%nat ->
  compact_plan p n i (Z.of_nat (record_off lens i))
  = ([], packed_slots lens i, Z.of_nat (sum_list lens)).
Proof.
  intros Hp. pose proof (packed_space _ _ Hp) as Hs.
  induction n as [|n IH]; intros i Hi.
  - unfold packed_slots. replace (length lens - i)%nat with 0%nat by lia. simpl.
    unfold record_off. by rewrite take_ge by lia.
  - cbn [compact_plan]. rewrite (packed_slot p lens Hp).
    destruct (lookup_lt_is_Some_2 lens i) as [m Hm]; [lia|]. rewrite Hm. cbn [fmap option_fmap option_map].
    rewrite (packed_live p lens Hp i m Hm). cbn [s_offset s_length]. rewrite Nat.eqb_refl.
    pose proof (record_off_le _ _ _ Hm).
    rewrite wrap_id by (unfold uint; page_lia).
    replace (Z.of_nat (record_off lens i) + Z.of_nat m) with (Z.of_nat (record_off lens (S i)))
      by (rewrite (record_off_S _ _ _ Hm); lia).
    rewrite IH by lia. unfold packed_slots. replace (length lens - i)%nat with (S (length lens - S i)) by lia.
    cbn [seq fmap list_fmap]. by rewrite Hm.
Qed.

Lemma length_concat_slots ss : length (concat (slot_bytes <$> ss)) = (length ss * SLOT_SIZE)%nat.
Proof.
  induction ss as [|s ss IH]; [done|]. cbn [fmap list_fmap concat length]. rewrite length_app, length_slot_bytes, IH. lia.
Qed.

Lemma packed_insert_full p lens bs :
  packed p lens -> (available p < length bs + SLOT_SIZE)%nat ->
  exists p', insert p bs = Some (None, p').
Proof.
  intros Hp Hn. pose proof (packed_space _ _ Hp) as Hs. destruct (pk_base _ _ Hp) as [Hl Hb _].
  unfold insert. destruct (Nat.ltb_spec MAX_INLINE_RECORD_LEN (length bs)); [eauto|].
  destruct (Nat.ltb_spec (available p) (length bs + SLOT_SIZE)) as [_|]; [|lia].
  unfold compact. rewrite (pk_count _ _ Hp).
  pose proof (packed_compact_plan p lens Hp (length lens) 0 ltac:(lia)) as Hplan.
  change (Z.of_nat (record_off lens 0)) with 0 in Hplan. rewrite Hplan. cbn [apply_moves].
  rewrite Some_bind. set (ss := packed_slots lens 0).
  assert (length ss = length lens) as Hss by (unfold ss, packed_slots; rewrite length_fmap, length_seq; lia).
  rewrite Hss, (wrap_id 16) by (unfold uint; page_lia).
  set (q1 := set_u16 p FREE_OFF (Z.of_nat (sum_list lens))).
  assert (wrote p FREE_OFF (to_le 2 (Z.of_nat (sum_list lens))) q1) as W1 by (apply set_u16_wrote; page_lia).
  set (q2 := set_u16 q1 COUNT_OFF (Z.of_nat (length lens))).
  pose proof (wr_length _ _ _ _ W1) as L1.
  assert (wrote q1 COUNT_OFF (to_le 2 (Z.of_nat (length lens))) q2) as W2 by (apply set_u16_wrote; page_lia).
  set (f := Z.land (get_u16 q2 FLAGS_OFF) (Z.lxor PAGE_FLAG_FULL U16_MAX)).
  set (q3 := set_u16 q2 FLAGS_OFF f). pose proof (wr_length _ _ _ _ W2) as L2.
  assert (wrote q2 FLAGS_OFF (to_le 2 f) q3) as W3 by (apply set_u16_wrote; page_lia).
  pose proof (wr_length _ _ _ _ W3) as L3.
  destruct (checked_write_ok q3 (PAGE_SIZE - length lens * SLOT_SIZE) (concat (slot_bytes <$> ss)))
    as (q & Eq & W); [rewrite length_concat_slots, Hss; page_lia|]. rewrite Eq, Some_bind.
  assert (available q = available p) as Ha.
  { unfold available. f_equal. rewrite (pk_free _ _ Hp), (pk_count _ _ Hp). f_equal; [f_equal|f_equal].
    - unfold free_space_offset. rewrite (wrote_u16_other _ _ _ _ FREE_OFF W) by page_lia.
      rewrite (wrote_u16_other _ _ _ _ FREE_OFF W3) by (rewrite ?length_to_le; page_lia).
      rewrite (wrote_u16_other _ _ _ _ FREE_OFF W2) by (rewrite ?length_to_le; page_lia).
      rewrite (wrote_u16_same _ _ _ _ W1) by (unfold uint; page_lia). lia.
    - unfold slot_count. rewrite (wrote_u16_other _ _ _ _ COUNT_OFF W) by page_lia.
      rewrite (wrote_u16_other _ _ _ _ COUNT_OFF W3) by (rewrite ?length_to_le; page_lia).
      rewrite (wrote_u16_same _ _ _ _ W2) by (unfold uint; page_lia). lia. }
  rewrite Ha. destruct (Nat.ltb_spec (available p) (length bs + SLOT_SIZE)); [eauto|lia].
Qed.

(** Records of at least [m] bytes bound the number of slots. *)
Lemma packed_count_bound p lens m :
  packed p lens -> Forall (fun n => m <= n)%nat lens -> (length lens * (m + SLOT_SIZE) <= PAGE_SIZE - HEADER_SIZE)%nat.
Proof.
  intros Hp Hf. pose proof (packed_space _ _ Hp) as Hs.
  assert (length lens * m <= sum_list lens)%nat.
  { clear -Hf. induction Hf; simpl; [lia|]. lia. }
  page_lia.
Qed.
