(* ===== verification/GraphHeap.v ===== *)
(** * The record heap of the graph engine ([src/graph/engine.rs])

    Node, edge and property records live on slotted pages and are named by
    slot references.  The engine reaches pages through the page manager; the
    model states what it needs of it as the interface [PageStore], with the laws
    a healthy store obeys ([PageStoreLaws]).  The transaction-local [pending]
    map of the no-steal paths is itself such a store, layered over another one:
    the [_pending] variants of the source's helpers are the plain ones run on
    that layer.

    An operation returns [None] for a panic, and otherwise its [Result] and the
    state it leaves, errors included. *)

From stdpp Require Import prelude list gmap.
From Stdlib Require Import ZArith Lia.
From S2P Require Import Prelude Bytes Checksum SlottedPage HeapPage GraphRecord Adjacency.

(** ** Sequencing *)

Definition H (S A : Type) : Type := S -> option (result A StorageError * S).

Definition hret {S A} (a : A) : H S A := fun s => Some (Ok a, s).
Definition hfail {S A} (e : StorageError) : H S A := fun s => Some (Err e, s).
Definition hpanic {S A} : H S A := fun _ => None.
Definition hbind {S A B} (m : H S A) (k : A -> H S B) : H S B := fun s =>
  match m s with
  | Some (Ok a, s1) => k a s1
  | Some (Err e, s1) => Some (Err e, s1)
  | None => None
  end.
(** [.ok_or(e)?] *)
Definition hget {S A} (o : option A) (e : StorageError) : H S A :=
  match o with Some a => hret a | None => hfail e end.
Definition hres {S A} (r : result A StorageError) : H S A := fun s => Some (r, s).

Declare Scope heap_scope.
Delimit Scope heap_scope with heap.
Notation "'try' x '<-' m ';' k" := (hbind m (fun x => k))
  (at level 200, x binder, m at level 100, k at level 200) : heap_scope.
#[local] Open Scope heap_scope.

(** ** Page stores *)

Class PageStore (S : Type) := {
  ps_read : Z -> H S Page;
  ps_write : Z -> Page -> H S unit;
  ps_alloc : H S Z
}.

(** The [pending] page images of a transaction, over a store. *)
Record Overlay (S : Type) := mkOverlay { pending : gmap Z Page; base : S }.
Arguments mkOverlay {S} pending base.
Arguments pending {S} o.
Arguments base {S} o.

#[global] Instance overlay_store {S} `{PageStore S} : PageStore (Overlay S) := {|
  ps_read p := fun o =>
    match pending o !! p with
    | Some b => Some (Ok b, o)
    | None => match ps_read p (base o) with
              | Some (r, s1) => Some (r, mkOverlay (pending o) s1)
              | None => None
              end
    end;
  ps_write p b := fun o => Some (Ok tt, mkOverlay (<[p := b]> (pending o)) (base o));
  ps_alloc := fun o =>
    match ps_alloc (base o) with
    | Some (r, s1) => Some (r, mkOverlay (pending o) s1)
    | None => None
    end
|}.

Section Heap.
Context {S : Type} `{PageStore S} `{CS : Checksums}.

(** ** Records by slot reference *)

Definition read_record (slot : SlotRef) : H S (option (list Z)) :=
  try page <- ps_read (slot_page_id slot);
  hret (read page (Z.to_nat (slot_index slot))).

Definition overwrite_record (sl : SlotRef) (record : list Z) : H S unit :=
  try page <- ps_read (slot_page_id sl);
  try existing <- hget (slot page (Z.to_nat (slot_index sl))) SeNotFound;
  if is_deleted existing then hfail SeNotFound
  else if (length record <=? Z.to_nat (s_length existing))%nat then
    match checked_write page (HEADER_SIZE + Z.to_nat (s_offset existing)) record with
    | Some page1 => ps_write (slot_page_id sl) (update_checksum_bytes page1)
    | None => hpanic
    end
  else hfail SePageFull.

(** ** Inserting: the store together with the caller's page list *)

Definition on_store {A} (m : H S A) : H (S * list Z) A := fun s =>
  match m s.1 with Some (r, s1) => Some (r, (s1, s.2)) | None => None end.
Definition push_page (p : Z) : H (S * list Z) unit := fun s => Some (Ok tt, (s.1, s.2 ++ [p])).
Definition page_list : H (S * list Z) (list Z) := fun s => Some (Ok s.2, s).

(** The loop over the existing pages of [insert_record]: the page is written
    before the slot reference is checked. *)
Fixpoint insert_existing (pages : list Z) (record : list Z) : H (S * list Z) (option SlotRef) :=
  match pages with
  | [] => hret None
  | p :: ps =>
      try page <- on_store (ps_read p);
      match insert page record with
      | Some (Some i, page1) =>
          try _ <- on_store (ps_write p (update_checksum_bytes page1));
          try r <- hres (slot_ref p (Z.of_nat i));
          hret (Some r)
      | Some (None, _) => insert_existing ps record
      | None => hpanic
      end
  end.

Definition insert_record (record : list Z) (t : PageType) : H (S * list Z) SlotRef :=
  try pages <- page_list;
  try found <- insert_existing (rev pages) record;
  match found with
  | Some r => hret r
  | None =>
      try p <- on_store ps_alloc;
      match insert (init p t) record with
      | Some (Some i, page1) =>
          try _ <- on_store (ps_write p (update_checksum_bytes page1));
          try _ <- push_page p;
          hres (slot_ref p (Z.of_nat i))
      | Some (None, _) => hfail SePageFull
      | None => hpanic
      end
  end.

(** [prepare_record]: as [insert_record], but the page image is returned and
    not written, and the reference is checked first. *)
Fixpoint prepare_existing (pages : list Z) (record : list Z) :
    H (S * list Z) (option (SlotRef * Z * Page)) :=
  match pages with
  | [] => hret None
  | p :: ps =>
      try page <- on_store (ps_read p);
      match insert page record with
      | Some (Some i, page1) =>
          try r <- hres (slot_ref p (Z.of_nat i));
          hret (Some (r, p, update_checksum_bytes page1))
      | Some (None, _) => prepare_existing ps record
      | None => hpanic
      end
  end.

Definition prepare_record (record : list Z) (t : PageType) : H (S * list Z) (SlotRef * Z * Page) :=
  try pages <- page_list;
  try found <- prepare_existing (rev pages) record;
  match found with
  | Some x => hret x
  | None =>
      try p <- on_store ps_alloc;
      match insert (init p t) record with
      | Some (Some i, page1) =>
          try _ <- push_page p;
          try r <- hres (slot_ref p (Z.of_nat i));
          hret (r, p, update_checksum_bytes page1)
      | Some (None, _) => hfail SePageFull
      | None => hpanic
      end
  end.

(** ** Endpoint and link updates of node records *)

Definition set_first_outgoing (n : NodeRecord) (s : SlotRef) : NodeRecord :=
  mkNode (node_id n) (label_id n) s (first_incoming_edge n) (nr_first_property n) (nr_flags n)
    (wrap 16 (nr_generation n + 1)) (nr_pad n).
Definition set_first_incoming (n : NodeRecord) (s : SlotRef) : NodeRecord :=
  mkNode (node_id n) (label_id n) (first_outgoing_edge n) s (nr_first_property n) (nr_flags n)
    (wrap 16 (nr_generation n + 1)) (nr_pad n).

(** [read_record(..)?.ok_or(NotFound)?] and [decode(..).ok_or(NotFound)?]. *)
Definition get_node_at (s : SlotRef) : H S NodeRecord :=
  try bytes <- read_record s;
  try bytes <- hget bytes SeNotFound;
  hget (node_decode bytes) SeNotFound.
Definition get_edge_at (s : SlotRef) : H S EdgeRecord :=
  try bytes <- read_record s;
  try bytes <- hget bytes SeNotFound;
  hget (edge_decode bytes) SeNotFound.

(** ** Adjacency wiring on the heap *)

Definition wire_source_adjacency (edge_slot node_slot : SlotRef) : H S unit :=
  try node <- get_node_at node_slot;
  let old_head := first_outgoing_edge node in
  try edge <- get_edge_at edge_slot;
  try _ <- overwrite_record edge_slot
    (edge_encode (set_prev_source (set_next_source edge old_head) SLOT_NULL));
  try _ <- (if slot_is_null old_head then hret tt else
            try head_edge <- get_edge_at old_head;
            overwrite_record old_head (edge_encode (set_prev_source head_edge edge_slot)));
  overwrite_record node_slot (node_encode (set_first_outgoing node edge_slot)).

Definition wire_target_adjacency (edge_slot node_slot : SlotRef) : H S unit :=
  try node <- get_node_at node_slot;
  let old_head := first_incoming_edge node in
  try edge <- get_edge_at edge_slot;
  try _ <- overwrite_record edge_slot
    (edge_encode (set_prev_target (set_next_target edge old_head) SLOT_NULL));
  try _ <- (if slot_is_null old_head then hret tt else
            try head_edge <- get_edge_at old_head;
            overwrite_record old_head (edge_encode (set_prev_target head_edge edge_slot)));
  overwrite_record node_slot (node_encode (set_first_incoming node edge_slot)).

Definition unwire_source_adjacency (edge_slot node_slot : SlotRef) : H S (option SlotRef) :=
  try edge <- get_edge_at edge_slot;
  let prev := prev_source_edge edge in
  let next := next_source_edge edge in
  try _ <- (if slot_is_null prev then hret tt else
            try p <- get_edge_at prev;
            overwrite_record prev (edge_encode (set_next_source p next)));
  try _ <- (if slot_is_null next then hret tt else
            try n <- get_edge_at next;
            overwrite_record next (edge_encode (set_prev_source n prev)));
  try edge2 <- get_edge_at edge_slot;
  try _ <- overwrite_record edge_slot
    (edge_encode (set_next_source (set_prev_source edge2 SLOT_NULL) SLOT_NULL));
  if slot_is_null prev then
    try node <- get_node_at node_slot;
    try _ <- overwrite_record node_slot (node_encode (set_first_outgoing node next));
    hret (Some next)
  else hret None.

Definition unwire_target_adjacency (edge_slot node_slot : SlotRef) : H S (option SlotRef) :=
  try edge <- get_edge_at edge_slot;
  let prev := prev_target_edge edge in
  let next := next_target_edge edge in
  try _ <- (if slot_is_null prev then hret tt else
            try p <- get_edge_at prev;
            overwrite_record prev (edge_encode (set_next_target p next)));
  try _ <- (if slot_is_null next then hret tt else
            try n <- get_edge_at next;
            overwrite_record next (edge_encode (set_prev_target n prev)));
  try edge2 <- get_edge_at edge_slot;
  try _ <- overwrite_record edge_slot
    (edge_encode (set_next_target (set_prev_target edge2 SLOT_NULL) SLOT_NULL));
  if slot_is_null prev then
    try node <- get_node_at node_slot;
    try _ <- overwrite_record node_slot (node_encode (set_first_incoming node next));
    hret (Some next)
  else hret None.

(** ** Traversal

    The loops of [scan_outgoing_edges], [scan_incoming_edges] and
    [scan_adjacency], which stop at the hop limit. *)

Definition MAX_HOPS : nat := Z.to_nat 65536.

Definition type_matches (type_ids : list Z) (e : EdgeRecord) : bool :=
  (length type_ids =? 0)%nat || bool_decide (type_id e ∈ type_ids).

Fixpoint walk (d : Direction) (hops : nat) (cursor : SlotRef) (type_ids : list Z) : H S (list EdgeRecord) :=
  match hops with
  | O => hret []
  | Datatypes.S hops =>
      if slot_is_null cursor then hret [] else
      try bytes <- read_record cursor;
      match bytes with
      | None => hret []
      | Some b =>
          match edge_decode b with
          | None => hret []
          | Some e =>
              try rest <- walk d hops (match d with Out => next_source_edge e | In => next_target_edge e end) type_ids;
              hret (if (Z.land (er_flags e) EDGE_DELETED =? 0) && type_matches type_ids e
                    then e :: rest else rest)
          end
      end
  end.

End Heap.

(** The no-steal variants: the same code on the pending layer. *)
Section Pending.
Context {S : Type} `{PageStore S} `{CS : Checksums}.

Definition read_record_pending : SlotRef -> H (Overlay S) (option (list Z)) := read_record.
Definition overwrite_into_pending : SlotRef -> list Z -> H (Overlay S) unit := overwrite_record.
Definition wire_source_adjacency_pending : SlotRef -> SlotRef -> H (Overlay S) unit := wire_source_adjacency.
Definition wire_target_adjacency_pending : SlotRef -> SlotRef -> H (Overlay S) unit := wire_target_adjacency.

(** [prepare_into_pending] is [prepare_record] on the layer, with the image
    entered into it. *)
Definition prepare_into_pending (record : list Z) (t : PageType) : H (Overlay S * list Z) SlotRef :=
  try x <- prepare_record record t;
  try _ <- on_store (ps_write x.1.2 x.2);
  hret x.1.1.

End Pending.
