(* ===== verification/GraphHeapSpec.v ===== *)
(** * What the record heap guarantees

    The laws of a healthy page store, the record map a store represents
    ([hrec]), and the effect of the heap operations on it; then the adjacency
    wiring as list operations on the edge records, through the theory of
    [Adjacency]. *)

From stdpp Require Import prelude list gmap.
From Stdlib Require Import ZArith Lia.
From S2P Require Import Prelude Bytes Checksum SlottedPage HeapPage GraphRecord Adjacency GraphHeap.

(** [b'] stores the same records as [b], wherever [b] is packed. *)
Definition like (b b' : Page) : Prop :=
  forall lens, packed b lens -> packed b' lens /\ forall i, read b' i = read b i.

Lemma like_refl b : like b b.
Proof. by intros lens Hb. Qed.
Lemma like_trans a b c : like a b -> like b c -> like a c.
Proof.
  intros H1 H2 lens Ha. destruct (H1 lens Ha) as [Hb E1]. destruct (H2 lens Hb) as [Hc E2].
  split; [done|]. intros i. by rewrite E2, E1.
Qed.
Lemma like_checksum `{CS : Checksums} b : like b (update_checksum_bytes b).
Proof. intros lens Hb. by apply packed_checksum. Qed.

(** A page as the heap writes it: packed with at least one record. *)
Definition stored (b : Page) : Prop := exists lens, packed b lens /\ lens ≠ [].

(** A store in good health: reads and writes of allocated pages succeed, and
    [n] more pages can be allocated, past the superblocks and the first bitmap
    page and with numbers a slot reference can hold. *)
Class PageStoreLaws (S : Type) `{PageStore S} := {
  ps_calm : nat -> S -> Prop;
  ps_image : S -> Z -> option Page;
  ps_used : S -> Z -> Prop;
  ps_calm_S n s : ps_calm (Datatypes.S n) s -> ps_calm n s;
  ps_image_used n s p b : ps_calm n s -> ps_image s p = Some b -> ps_used s p;
  ps_read_ok n s p b : ps_calm n s -> ps_image s p = Some b ->
    exists s', ps_read p s = Some (Ok b, s') /\ ps_calm n s' /\
      (forall q, ps_image s' q = ps_image s q) /\ (forall q, ps_used s' q <-> ps_used s q);
  ps_write_ok n s p b : ps_calm n s -> ps_used s p -> stored b ->
    exists s' b', ps_write p b s = Some (Ok tt, s') /\ ps_calm n s' /\
      ps_image s' p = Some b' /\ like b b' /\
      (forall q, q ≠ p -> ps_image s' q = ps_image s q) /\ (forall q, ps_used s' q <-> ps_used s q);
  ps_alloc_ok n s : ps_calm (Datatypes.S n) s ->
    exists p s', ps_alloc s = Some (Ok p, s') /\ ps_calm n s' /\ 3 <= p <= MAX_PAGE_ID /\
      ~ ps_used s p /\
      (forall q, ps_image s' q = ps_image s q) /\ (forall q, ps_used s' q <-> ps_used s q \/ q = p)
}.

Definition overlay_image {S} `{PageStoreLaws S} (o : Overlay S) (p : Z) : option Page :=
  match pending o !! p with Some b => Some b | None => ps_image (base o) p end.

(** The pending layer over a healthy store is one; the images in it are packed
    pages of the store. *)
#[global] Program Instance overlay_laws {S} `{PageStoreLaws S} : PageStoreLaws (Overlay S) := {|
  ps_calm n o := ps_calm n (base o) /\
    forall p b, pending o !! p = Some b -> ps_used (base o) p /\ stored b;
  ps_image := overlay_image;
  ps_used o p := ps_used (base o) p
|}.
Next Obligation.
  intros S HS HL n [m s] [Hc Hm]. split; [by apply ps_calm_S|done].
Qed.
Next Obligation.
  intros S HS HL n [m s] p b [Hc Hm] Hi. unfold overlay_image in *. simpl in *. destruct (m !! p) eqn:Em; [by eapply Hm|].
  by eapply ps_image_used.
Qed.
Next Obligation.
  intros S HS HL n [m s] p b [Hc Hm] Hi. unfold overlay_image in *. simpl in *. destruct (m !! p) as [b'|] eqn:Em.
  - injection Hi as ->. by exists (mkOverlay m s).
  - destruct (ps_read_ok n s p b Hc Hi) as (s' & -> & Hc' & Hq & Hu).
    exists (mkOverlay m s'). split_and!; try done; simpl.
    + intros q b' Hq'. rewrite Hu. by apply Hm.
    + intros q. by rewrite Hq.
Qed.
Next Obligation.
  intros S HS HL n [m s] p b [Hc Hm] Hp Hb. exists (mkOverlay (<[p:=b]> m) s), b.
  unfold overlay_image in *. simpl in *. rewrite lookup_insert_eq. split_and!; try done.
  - intros q b' Hq. destruct (decide (q = p)) as [->|Hne].
    + rewrite lookup_insert_eq in Hq. by injection Hq as <-.
    + rewrite lookup_insert_ne in Hq by done. eauto.
  - intros q Hq. by rewrite lookup_insert_ne.
Qed.
Next Obligation.
  intros S HS HL n [m s] [Hc Hm]. unfold overlay_image in *. simpl in *.
  destruct (ps_alloc_ok n s Hc) as (p & s' & -> & Hc' & Hp & Hn & Hq & Hu).
  exists p, (mkOverlay m s'). split_and!; try done; simpl; try lia.
  - intros q b' Hq'. rewrite Hu. destruct (Hm q b' Hq'). by split; [left|].
  - intros q. by rewrite Hq.
Qed.

(** ** The record map *)

Section Records.
Context {S : Type} `{HL : PageStoreLaws S} `{CS : Checksums}.
Implicit Types (D : gset Z) (s : S).

(** The record at a slot of the data pages [D]; a reference is 32 bits wide. *)
Definition hrec D s (sl : SlotRef) : option (list Z) :=
  if decide (is_u32 (raw sl) /\ slot_page_id sl ∈ D)
  then b ← ps_image s (slot_page_id sl); read b (Z.to_nat (slot_index sl))
  else None.

(** Every data page is allocated, can be named by a reference, and is packed
    with records of at least [m] bytes. *)
Definition heap_ok (m : nat) D s : Prop :=
  forall p, p ∈ D -> 3 <= p <= MAX_PAGE_ID /\ exists b lens,
    ps_image s p = Some b /\ packed b lens /\ Forall (fun n => m <= n)%nat lens.

(** Nothing but the internal state of the store moved. *)
Definition quiet s s' : Prop :=
  (forall q, ps_image s' q = ps_image s q) /\ (forall q, ps_used s' q <-> ps_used s q).

Lemma quiet_hrec D s s' : quiet s s' -> forall sl, hrec D s' sl = hrec D s sl.
Proof. intros [Hq _] sl. unfold hrec. by rewrite Hq. Qed.

Lemma quiet_heap m D s s' : quiet s s' -> heap_ok m D s -> heap_ok m D s'.
Proof. intros [Hq _] Hh p Hp. rewrite Hq. by apply Hh. Qed.

Lemma hrec_inv D s sl bs : hrec D s sl = Some bs ->
  is_u32 (raw sl) /\ slot_page_id sl ∈ D /\
  exists b, ps_image s (slot_page_id sl) = Some b /\ read b (Z.to_nat (slot_index sl)) = Some bs.
Proof.
  unfold hrec. case_decide as Hd; [|done]. destruct Hd as [H32 HD].
  destruct (ps_image s (slot_page_id sl)) as [b|] eqn:E; [|done]. simpl. eauto.
Qed.

Lemma read_record_spec n m D s sl bs :
  ps_calm n s -> heap_ok m D s -> hrec D s sl = Some bs ->
  exists s', read_record sl s = Some (Ok (Some bs), s') /\ ps_calm n s' /\ quiet s s'.
Proof.
  intros Hc Hh (H32 & HD & b & Hb & Hr)%hrec_inv.
  destruct (ps_read_ok n s _ b Hc Hb) as (s' & E & Hc' & Hq).
  exists s'. split; [|split; [done|exact Hq]]. unfold read_record, hbind. rewrite E, Hr. done.
Qed.

(** Different references name different places. *)
Lemma slot_ne sl sl' :
  is_u32 (raw sl) -> is_u32 (raw sl') -> sl ≠ sl' ->
  slot_page_id sl = slot_page_id sl' -> Z.to_nat (slot_index sl) ≠ Z.to_nat (slot_index sl').
Proof.
  intros Hs Hs' Hne Hp Hi. apply Hne.
  destruct (slot_of_parts sl Hs) as (E1 & _ & R1), (slot_of_parts sl' Hs') as (E2 & _ & R2).
  unfold uint in *. rewrite <- E1, <- E2, Hp. f_equal. lia.
Qed.

Lemma overwrite_record_spec n m D s sl old bs :
  ps_calm n s -> heap_ok m D s -> hrec D s sl = Some old -> bytes_ok bs -> length bs = length old ->
  exists s', overwrite_record sl bs s = Some (Ok tt, s') /\ ps_calm n s' /\ heap_ok m D s' /\
    hrec D s' sl = Some bs /\ (forall sl', sl' ≠ sl -> hrec D s' sl' = hrec D s sl') /\
    (forall q, ps_used s' q <-> ps_used s q) /\ (forall q, is_Some (ps_image s' q) -> is_Some (ps_image s q)).
Proof.
  intros Hc Hh Hr Hbs Hl. apply hrec_inv in Hr as (H32 & HD & b & Hb & Hr).
  destruct (Hh _ HD) as (Hp & b0 & lens & Hb0 & Hpk & Hm). rewrite Hb in Hb0. injection Hb0 as <-.
  destruct (ps_read_ok n s _ b Hc Hb) as (s1 & E1 & Hc1 & Hq1 & Hu1).
  set (i := Z.to_nat (slot_index sl)) in *.
  pose proof (packed_read_length b lens Hpk i old Hr) as Hi. rewrite <- Hl in Hi.
  destruct (packed_overwrite b lens i bs Hpk Hbs Hi) as (Ew & Hpk' & Rq & Ro).
  set (b1 := write_at b (HEADER_SIZE + record_off lens i) bs) in *.
  destruct (packed_checksum b1 lens Hpk') as [Hpk2 Rc].
  destruct (ps_write_ok n s1 (slot_page_id sl) (update_checksum_bytes b1) Hc1)
    as (s2 & b2 & E2 & Hc2 & Hb2 & Hlk & Hq2 & Hu2).
  { apply Hu1. by eapply ps_image_used. }
  { exists lens. split; [done|]. by intros ->. }
  destruct (Hlk lens Hpk2) as [Hpk3 Rl].
  exists s2. split_and!; try done.
  - unfold overwrite_record, hbind. rewrite E1. fold i.
    rewrite (packed_slot b lens Hpk), Hi. cbn [fmap option_fmap option_map hget hret].
    rewrite (packed_live b lens Hpk i _ Hi). cbn [s_length s_offset]. rewrite !Nat2Z.id, Nat.leb_refl, Ew.
    exact E2.
  - intros p HpD. destruct (decide (p = slot_page_id sl)) as [->|Hne].
    + split; [done|]. eauto.
    + rewrite Hq2, Hq1 by done. by apply Hh.
  - unfold hrec. rewrite decide_True by done. rewrite Hb2. simpl. fold i. by rewrite Rl, Rc.
  - intros sl' Hne. unfold hrec. case_decide as Hd; [|done]. destruct Hd as [H32' HD'].
    destruct (decide (slot_page_id sl' = slot_page_id sl)) as [Ep|Ep].
    + rewrite Ep, Hb2, Hb. simpl. rewrite Rl, Rc. apply Ro. fold i.
      intros Ei. by eapply (slot_ne sl' sl).
    + by rewrite Hq2, Hq1.
  - intros q. by rewrite Hu2, Hu1.
  - intros q. destruct (decide (q = slot_page_id sl)) as [->|Hne]; [by rewrite Hb|by rewrite Hq2, Hq1].
Qed.

(** ** Inserting a record *)

(** Fixed-size records are at least this long; a page then holds at most 225
    of them, so their slot indexes fit a reference. *)
Definition MIN_RECORD : nat := 32.

(** [r] is a fresh reference that now names [bs]; all others are as before.
    The data pages may have grown to [D']. *)
Record inserted n D D' s s' (r : SlotRef) (bs : list Z) : Prop := {
  ins_calm : ps_calm n s';
  ins_heap : heap_ok MIN_RECORD D' s';
  ins_grow : D ⊆ D';
  ins_range : is_u32 (raw r);
  ins_nonnull : slot_is_null r = false;
  ins_fresh : hrec D s r = None;
  ins_here : hrec D' s' r = Some bs;
  ins_other : forall sl, sl ≠ r -> hrec D' s' sl = hrec D s sl;
  ins_page : slot_page_id r ∈ D';
  ins_images q : is_Some (ps_image s' q) -> is_Some (ps_image s q) \/ q ∈ D'
}.

Lemma commit_insert D s p b lens q bs s2 b2 :
  heap_ok MIN_RECORD D s -> 3 <= p <= MAX_PAGE_ID ->
  (p ∈ D /\ ps_image s p = Some b \/ p ∉ D /\ lens = []) ->
  packed b lens -> Forall (fun n => MIN_RECORD <= n)%nat lens -> (MIN_RECORD <= length bs)%nat ->
  packed q (lens ++ [length bs]) -> read q (length lens) = Some bs ->
  (forall j, j ≠ length lens -> read q j = read b j) ->
  ps_image s2 p = Some b2 -> like q b2 -> (forall q, q ≠ p -> ps_image s2 q = ps_image s q) ->
  slot_ref p (Z.of_nat (length lens)) = Ok (slot_new p (Z.of_nat (length lens))) /\
  heap_ok MIN_RECORD ({[p]} ∪ D) s2 /\ is_u32 (raw (slot_new p (Z.of_nat (length lens)))) /\
  slot_is_null (slot_new p (Z.of_nat (length lens))) = false /\
  hrec D s (slot_new p (Z.of_nat (length lens))) = None /\
  hrec ({[p]} ∪ D) s2 (slot_new p (Z.of_nat (length lens))) = Some bs /\
  (forall sl, sl ≠ slot_new p (Z.of_nat (length lens)) -> hrec ({[p]} ∪ D) s2 sl = hrec D s sl) /\
  slot_page_id (slot_new p (Z.of_nat (length lens))) = p.
Proof.
  intros Hh Hp Hold Hpk Hm Hbs Hq Rq Ro Hi2 Hlk Ho. set (i := Z.of_nat (length lens)).
  assert (Z.of_nat (length lens) <= 225) as Hcount.
  { pose proof (packed_count_bound b lens MIN_RECORD Hpk Hm). unfold MIN_RECORD in *. page_lia. }
  destruct (slot_new_parts p i) as (P1 & P2 & P3 & P4); [lia|unfold uint; lia|].
  destruct (Hlk _ Hq) as [Hq2 Rl].
  assert (forall j, read b j = None \/ p ∈ D /\ ps_image s p = Some b) as Hb0.
  { intros j. destruct Hold as [Hold|[_ ->]]; [by right|left]. by rewrite (packed_read b [] Hpk). }
  assert (read b (length lens) = None) as Hnone.
  { rewrite (packed_read b lens Hpk), lookup_ge_None_2 by lia. done. }
  assert (p ∈ D -> ps_image s p = Some b) as HpD by (destruct Hold as [[??]|[??]]; done).
  split_and!.
  - unfold slot_ref, MAX_PAGE_ID, MAX_SLOT_INDEX in *. fold i.
    destruct (_ || _) eqn:E; [apply orb_true_iff in E as [E|E]; rg_bool; lia|].
    rewrite !wrap_id by (unfold uint; lia). done.
  - intros p' Hp'. destruct (decide (p' = p)) as [->|Hne].
    + split; [done|]. exists b2, (lens ++ [length bs]). split_and!; try done.
      apply Forall_app. split; [done|by constructor].
    + rewrite Ho by done. apply Hh. set_solver.
  - done.
  - destruct (slot_is_null _) eqn:E; [|done]. lia.
  - unfold hrec. rewrite P1, P2. case_decide as Hd; [|done]. rewrite HpD by (by destruct Hd). simpl.
    unfold i. by rewrite Nat2Z.id.
  - unfold hrec. rewrite P1, P2. rewrite decide_True by set_solver. rewrite Hi2. simpl. unfold i.
    rewrite Nat2Z.id. by rewrite Rl.
  - intros sl Hne. unfold hrec. destruct (decide (slot_page_id sl = p)) as [Ep|Ep].
    + rewrite Ep. case_decide as Hd; [|destruct (decide _) as [[??]|]; [set_solver|done]].
      rewrite Hi2. simpl. rewrite Rl. destruct Hd as [H32 _].
      assert (Z.to_nat (slot_index sl) ≠ length lens) as Hni.
      { intros E. apply Hne. destruct (slot_of_parts sl H32) as (E1 & _ & R1).
        rewrite <- E1, Ep. f_equal. unfold uint, i in *. lia. }
      rewrite Ro by done. destruct (decide (p ∈ D)) as [HD|HD].
      * rewrite decide_True by done. by rewrite HpD.
      * rewrite decide_False by naive_solver.
        destruct (Hb0 (Z.to_nat (slot_index sl))) as [?|[? _]]; done.
    + rewrite Ho by done. destruct (decide (is_u32 (raw sl) /\ slot_page_id sl ∈ D)).
      * rewrite decide_True by set_solver. done.
      * rewrite decide_False by set_solver. done.
  - done.
Qed.

Lemma insert_existing_spec n D ps bs : forall s L,
  ps_calm n s -> heap_ok MIN_RECORD D s -> (forall p, p ∈ ps -> p ∈ D) ->
  bytes_ok bs -> (MIN_RECORD <= length bs <= MAX_INLINE_RECORD_LEN)%nat ->
  (exists s', insert_existing ps bs (s, L) = Some (Ok None, (s', L)) /\ ps_calm n s' /\ quiet s s') \/
  (exists r s', insert_existing ps bs (s, L) = Some (Ok (Some r), (s', L)) /\ inserted n D D s s' r bs).
Proof.
  induction ps as [|p ps IH]; intros s L Hc Hh Hps Hb Hl; simpl.
  { left. exists s. split_and!; try done. }
  destruct (Hh p) as (Hp & b & lens & Hi & Hpk & Hm); [set_solver|].
  destruct (ps_read_ok n s p b Hc Hi) as (s1 & E1 & Hc1 & Hq1 & Hu1).
  unfold hbind, on_store. cbn [fst snd]. rewrite E1.
  destruct (decide (length bs + SLOT_SIZE <= available b)%nat) as [Hfit|Hfull].
  - right. destruct (packed_insert b lens bs Hpk Hb ltac:(lia) Hfit) as (q & Eq & Hq & Rq & Ro). rewrite Eq.
    destruct (packed_checksum q _ Hq) as [Hq' Rc].
    destruct (ps_write_ok n s1 p (update_checksum_bytes q) Hc1) as (s2 & b2 & E2 & Hc2 & Hb2 & Hlk & Ho2 & Hu2);
      [apply Hu1; by eapply ps_image_used|eexists; split; [exact Hq'|by destruct lens]|]. cbn [fst snd]. rewrite E2.
    destruct (commit_insert D s p b lens q bs s2 b2)
      as (Es & Hh2 & H32 & Hnn & Hf & Hhere & Hoth & Hpg); try done; [left; split; [set_solver|done]|lia| | |].
    { eapply like_trans; [apply like_checksum|exact Hlk]. }
    { intros x Hx. by rewrite Ho2, Hq1. }
    unfold hres. rewrite Es. cbn [fst snd]. eexists _, s2. split; [reflexivity|].
    assert ({[p]} ∪ D = D) as HD by set_solver. rewrite HD in *. split; try done; [by rewrite Hpg; set_solver|].
    intros x. destruct (decide (x = p)) as [->|Hx]; [right; set_solver|rewrite Ho2, Hq1 by done; by left].
  - destruct (packed_insert_full b lens bs Hpk ltac:(lia)) as [p' ->].
    assert (quiet s s1) as Hqu by (by split).
    destruct (IH s1 L Hc1 (quiet_heap _ _ _ _ Hqu Hh) ltac:(set_solver) Hb Hl)
      as [(s' & E & Hc' & Hq')|(r & s' & E & Hins)].
    + left. exists s'. split; [exact E|]. split; [done|]. split; intros x.
      * by rewrite (proj1 Hq'), Hq1.
      * by rewrite (proj2 Hq'), Hu1.
    + right. exists r, s'. split; [exact E|]. destruct Hins. split; try done.
      * by rewrite <- (quiet_hrec D s s1 Hqu).
      * intros sl Hsl. by rewrite <- (quiet_hrec D s s1 Hqu), ins_other0.
      * intros q Hq. rewrite <- Hq1. by apply ins_images0.
Qed.

(** A prepared insertion: once any page that reads like [img] is at [p], [r]
    names [bs]. *)
Record prepared n D s s1 (r : SlotRef) (p : Z) (img : Page) (bs : list Z) : Prop := {
  pr_calm : ps_calm n s1;
  pr_same : forall q, ps_image s1 q = ps_image s q;
  pr_used : ps_used s1 p;
  pr_packed : stored img;
  pr_done k s2 b2 : ps_calm k s2 -> ps_image s2 p = Some b2 -> like img b2 ->
    (forall q, q ≠ p -> ps_image s2 q = ps_image s1 q) -> inserted k D ({[p]} ∪ D) s s2 r bs
}.

Lemma prepared_quiet n D s s0 s1 r p img bs :
  quiet s s0 -> prepared n D s0 s1 r p img bs -> prepared n D s s1 r p img bs.
Proof.
  intros Hq [H1 H2 H3 H4 H5]. split; try done.
  - intros q. by rewrite H2, (proj1 Hq).
  - intros k s2 b2 Hc Hi Hl Ho. destruct (H5 k s2 b2 Hc Hi Hl Ho). split; try done.
    + by rewrite <- (quiet_hrec D s s0 Hq).
    + intros sl Hsl. by rewrite <- (quiet_hrec D s s0 Hq), ins_other0.
    + intros q Hq'. rewrite <- (proj1 Hq). by apply ins_images0.
Qed.

(** Inserting into page [b] of the store, or into a fresh one. *)
Lemma prepare_page n D s s1 p b lens q bs :
  heap_ok MIN_RECORD D s -> 3 <= p <= MAX_PAGE_ID ->
  (p ∈ D /\ ps_image s p = Some b \/ p ∉ D /\ lens = []) ->
  packed b lens -> Forall (fun n => MIN_RECORD <= n)%nat lens -> (MIN_RECORD <= length bs)%nat ->
  packed q (lens ++ [length bs]) -> read q (length lens) = Some bs ->
  (forall j, j ≠ length lens -> read q j = read b j) ->
  ps_calm n s1 -> (forall q, ps_image s1 q = ps_image s q) -> ps_used s1 p ->
  slot_ref p (Z.of_nat (length lens)) = Ok (slot_new p (Z.of_nat (length lens))) /\
  prepared n D s s1 (slot_new p (Z.of_nat (length lens))) p (update_checksum_bytes q) bs.
Proof.
  intros Hh Hp Hold Hpk Hm Hbs Hq Rq Ro Hc1 Hsame Hused.
  assert (forall s2 b2, ps_image s2 p = Some b2 -> like (update_checksum_bytes q) b2 ->
    (forall q, q ≠ p -> ps_image s2 q = ps_image s1 q) -> _) as Hins
    by (intros s2 b2 Hi Hlk Ho; exact (commit_insert D s p b lens q bs s2 b2 Hh Hp Hold Hpk Hm Hbs Hq Rq Ro Hi
          (like_trans _ _ _ (like_checksum q) Hlk) (fun x Hx => eq_trans (Ho x Hx) (Hsame x)))).
  split.
  - assert (Z.of_nat (length lens) <= 225) as Hcount.
    { pose proof (packed_count_bound b lens MIN_RECORD Hpk Hm). unfold MIN_RECORD in *. page_lia. }
    unfold slot_ref, MAX_PAGE_ID, MAX_SLOT_INDEX in *.
    destruct (_ || _) eqn:E; [apply orb_true_iff in E as [E|E]; rg_bool; lia|].
    by rewrite !wrap_id by (unfold uint; lia).
  - split; try done.
    + exists (lens ++ [length bs]). split; [by apply packed_checksum|by destruct lens].
    + intros k s2 b2 Hc2 Hi Hlk Ho. destruct (Hins s2 b2 Hi Hlk Ho) as (_ & ? & ? & ? & ? & ? & ? & Hpg).
      split; try done; [set_solver|rewrite Hpg; set_solver|].
      intros x. destruct (decide (x = p)) as [->|Hx]; [right; set_solver|rewrite Ho, Hsame by done; by left].
Qed.

Lemma prepare_existing_spec n D ps bs : forall s L,
  ps_calm n s -> heap_ok MIN_RECORD D s -> (forall p, p ∈ ps -> p ∈ D) ->
  bytes_ok bs -> (MIN_RECORD <= length bs <= MAX_INLINE_RECORD_LEN)%nat ->
  (exists s', prepare_existing ps bs (s, L) = Some (Ok None, (s', L)) /\ ps_calm n s' /\ quiet s s') \/
  (exists r p img s1, prepare_existing ps bs (s, L) = Some (Ok (Some (r, p, img)), (s1, L)) /\
     p ∈ D /\ prepared n D s s1 r p img bs).
Proof.
  induction ps as [|p ps IH]; intros s L Hc Hh Hps Hb Hl; simpl.
  { left. exists s. split_and!; try done. }
  destruct (Hh p) as (Hp & b & lens & Hi & Hpk & Hm); [set_solver|].
  destruct (ps_read_ok n s p b Hc Hi) as (s1 & E1 & Hc1 & Hq1 & Hu1).
  unfold hbind, on_store. cbn [fst snd]. rewrite E1.
  destruct (decide (length bs + SLOT_SIZE <= available b)%nat) as [Hfit|Hfull].
  - right. destruct (packed_insert b lens bs Hpk Hb ltac:(lia) Hfit) as (q & Eq & Hq & Rq & Ro). rewrite Eq.
    destruct (prepare_page n D s s1 p b lens q bs) as [Es Hpr]; try done;
      [left; split; [set_solver|done]|lia|apply Hu1; by eapply ps_image_used|].
    unfold hres. rewrite Es. cbn [fst snd]. eexists _, p, _, s1. split; [reflexivity|].
    split; [set_solver|done].
  - destruct (packed_insert_full b lens bs Hpk ltac:(lia)) as [p' ->].
    assert (quiet s s1) as Hqu by (by split).
    destruct (IH s1 L Hc1 (quiet_heap _ _ _ _ Hqu Hh) ltac:(set_solver) Hb Hl)
      as [(s' & E & Hc' & Hq')|(r & p0 & img & s' & E & HpD & Hpr)].
    + left. exists s'. split; [exact E|]. split; [done|]. split; intros x.
      * by rewrite (proj1 Hq'), Hq1.
      * by rewrite (proj2 Hq'), Hu1.
    + right. exists r, p0, img, s'. split; [exact E|]. split; [done|]. by eapply prepared_quiet.
Qed.

(** Room for a record on a fresh page. *)
Lemma fresh_room p t (bs : list Z) : (length bs <= MAX_INLINE_RECORD_LEN)%nat ->
  (length bs + SLOT_SIZE <= available (init p t))%nat.
Proof. rewrite (packed_available _ _ (packed_init p t)). simpl. page_lia. Qed.

Lemma heap_used n D s p : ps_calm n s -> heap_ok MIN_RECORD D s -> p ∈ D -> ps_used s p.
Proof. intros Hc Hh Hp. destruct (Hh p Hp) as (_ & b & lens & Hi & _). by eapply ps_image_used. Qed.

Lemma elem_of_rev (x : Z) l : x ∈ rev l <-> x ∈ l.
Proof. by rewrite !list_elem_of_In, <- in_rev. Qed.

Lemma prepare_record_spec n D s L bs t :
  ps_calm (Datatypes.S n) s -> heap_ok MIN_RECORD D s -> (forall p, p ∈ L -> p ∈ D) ->
  bytes_ok bs -> (MIN_RECORD <= length bs <= MAX_INLINE_RECORD_LEN)%nat ->
  exists r p img s1 L', prepare_record bs t (s, L) = Some (Ok (r, p, img), (s1, L')) /\
    prepared n D s s1 r p img bs /\ (L' = L /\ p ∈ D \/ L' = L ++ [p]) /\ (forall x, x ∈ L' -> x ∈ ({[p]} ∪ D : gset Z)).
Proof.
  intros Hc Hh HL' Hb Hl. unfold prepare_record, hbind, page_list. cbn [fst snd].
  destruct (prepare_existing_spec (Datatypes.S n) D (rev L) bs s L Hc Hh)
    as [(s' & E & Hc' & Hq)|(r & p & img & s1 & E & HpD & Hpr)]; try done.
  { intros p Hp. apply HL'. by apply elem_of_rev. }
  - rewrite E. destruct (ps_alloc_ok n s' Hc') as (p & s1 & Ea & Hc1 & Hp & Hnu & Hi1 & Hu1).
    unfold on_store. cbn [fst snd]. rewrite Ea.
    destruct (packed_insert (init p t) [] bs (packed_init p t) Hb ltac:(lia) (fresh_room p t bs ltac:(lia)))
      as (q & Eq & Hq' & Rq & Ro). rewrite Eq.
    destruct (prepare_page n D s s1 p (init p t) [] q bs) as [Es Hpr]; try done.
    + right. split; [|done]. intros HpD. apply Hnu. eapply heap_used; [exact Hc'|by eapply quiet_heap|done].
    + apply packed_init.
    + lia.
    + intros x. by rewrite Hi1, (proj1 Hq).
    + apply Hu1. by right.
    + unfold push_page, hres. cbn [fst snd]. simpl length. simpl length in Es. rewrite Es.
      eexists _, p, _, s1, (L ++ [p]). split; [reflexivity|]. split; [done|]. split; [by right|]. set_solver.
  - rewrite E. exists r, p, img, s1, L. split; [done|]. split; [|split; [by left|set_solver]].
    destruct Hpr as [H1 H2 H3 H4 H5]. split; try done. by apply ps_calm_S.
Qed.

Lemma insert_record_spec n D s L bs t :
  ps_calm (Datatypes.S n) s -> heap_ok MIN_RECORD D s -> (forall p, p ∈ L -> p ∈ D) ->
  bytes_ok bs -> (MIN_RECORD <= length bs <= MAX_INLINE_RECORD_LEN)%nat ->
  exists r s' L' D', insert_record bs t (s, L) = Some (Ok r, (s', L')) /\
    inserted n D D' s s' r bs /\ (forall x, x ∈ L' -> x ∈ D') /\ (forall x, x ∈ L -> x ∈ L').
Proof.
  intros Hc Hh HL' Hb Hl. unfold insert_record, hbind, page_list. cbn [fst snd].
  destruct (insert_existing_spec (Datatypes.S n) D (rev L) bs s L Hc Hh)
    as [(s' & E & Hc' & Hq)|(r & s' & E & Hins)]; try done.
  { intros p Hp. apply HL'. by apply elem_of_rev. }
  - rewrite E. destruct (ps_alloc_ok n s' Hc') as (p & s1 & Ea & Hc1 & Hp & Hnu & Hi1 & Hu1).
    unfold on_store. cbn [fst snd]. rewrite Ea.
    destruct (packed_insert (init p t) [] bs (packed_init p t) Hb ltac:(lia) (fresh_room p t bs ltac:(lia)))
      as (q & Eq & Hq' & Rq & Ro). rewrite Eq.
    destruct (prepare_page n D s s1 p (init p t) [] q bs) as [Es Hpr]; try done.
    + right. split; [|done]. intros HpD. apply Hnu. eapply heap_used; [exact Hc'|by eapply quiet_heap|done].
    + apply packed_init.
    + lia.
    + intros x. by rewrite Hi1, (proj1 Hq).
    + apply Hu1. by right.
    + destruct (ps_write_ok n s1 p (update_checksum_bytes q) Hc1)
        as (s2 & b2 & E2 & Hc2 & Hb2 & Hlk & Ho2 & Hu2); [apply Hpr|apply Hpr|]. cbn [fst snd]. rewrite E2.
      unfold push_page, hres. cbn [fst snd]. simpl length in Es |- *. rewrite Es.
      eexists _, s2, (L ++ [p]), ({[p]} ∪ D). split; [reflexivity|].
      split; [by eapply (pr_done _ _ _ _ _ _ _ _ Hpr n)|]. set_solver.
  - rewrite E. exists r, s', L, D. split; [done|]. split; [|done].
    destruct Hins. split; try done. by apply ps_calm_S.
Qed.

End Records.

(** The same references are in use, and no other page holds records. *)
Definition same_slots {S S'} `{HL : PageStoreLaws S} `{HL' : PageStoreLaws S'} D (s : S) (s' : S') : Prop :=
  (forall x, is_Some (hrec D s' x) <-> is_Some (hrec D s x)) /\ (forall p, is_Some (ps_image s' p) -> is_Some (ps_image s p)).

Lemma same_slots_trans {S1 S2 S3} `{HL1 : PageStoreLaws S1} `{HL2 : PageStoreLaws S2} `{HL3 : PageStoreLaws S3} D (s1 : S1) (s2 : S2) (s3 : S3) :
  same_slots D s1 s2 -> same_slots D s2 s3 -> same_slots D s1 s3.
Proof. intros [A1 B1] [A2 B2]. split; [intros x; by rewrite (A2 x)|auto]. Qed.

Lemma prepare_into_pending_spec {S} `{HL : PageStoreLaws S} `{CS : Checksums} n D (o : Overlay S) L bs t :
  ps_calm (Datatypes.S n) o -> heap_ok MIN_RECORD D o -> (forall p, p ∈ L -> p ∈ D) ->
  bytes_ok bs -> (MIN_RECORD <= length bs <= MAX_INLINE_RECORD_LEN)%nat ->
  exists r o' L' D', prepare_into_pending bs t (o, L) = Some (Ok r, (o', L')) /\
    inserted n D D' o o' r bs /\ (forall x, x ∈ L' -> x ∈ D') /\ (forall x, x ∈ L -> x ∈ L') /\
    (forall x, x ∈ D' -> x ∈ D \/ x ∈ L').
Proof.
  intros Hc Hh HL' Hb Hl. unfold prepare_into_pending, hbind.
  destruct (prepare_record_spec n D o L bs t Hc Hh HL' Hb Hl) as (r & p & img & o1 & L' & E & Hpr & HLL & HLD).
  rewrite E. cbn [fst snd].
  destruct (ps_write_ok n o1 p img (pr_calm _ _ _ _ _ _ _ _ Hpr))
    as (o2 & b2 & E2 & Hc2 & Hb2 & Hlk & Ho2 & Hu2); [apply Hpr|apply Hpr|].
  unfold on_store. cbn [fst snd]. rewrite E2. exists r, o2, L', ({[p]} ∪ D). split; [done|].
  split; [by eapply (pr_done _ _ _ _ _ _ _ _ Hpr n)|]. split; [done|]. destruct HLL as [[-> HpD]| ->]; set_solver.
Qed.

(** ** Node and edge records *)

(** A map of edge records as an [EdgeRecordView]. *)
Record EView := mkEView { ev : SlotRef -> option EdgeRecord }.
#[global] Instance eview_view : EdgeRecordView EView := {|
  view_read v s := ev v s;
  view_write v s r := mkEView (fun x => if decide (x = s) then Some r else ev v x)
|}.
#[global] Instance eview_laws : EdgeRecordViewLaws EView.
Proof.
  split; intros; simpl; [by rewrite decide_True|by rewrite decide_False].
Qed.

Lemma fields_ok_cons w ws z zs :
  fields_ok (w :: ws) (z :: zs) <-> uint (8 * Z.of_nat w) z /\ fields_ok ws zs.
Proof. split; [by intros ?%Forall2_cons_1|intros [??]; by constructor]. Qed.

Lemma edge_ok_links d e p n : edge_ok e -> slot_ok p -> slot_ok n -> edge_ok (side_links (side_of d) e p n).
Proof.
  unfold edge_ok, edge_fields, EDGE_WIDTHS, slot_ok. intros He Hp Hn.
  rewrite !fields_ok_cons in He. destruct d; simpl side_links;
    unfold with_source_links, with_target_links; simpl; rewrite !fields_ok_cons; naive_solver.
Qed.

Lemma edge_ok_slots d e : edge_ok e -> slot_ok (side_prev (side_of d) e) /\ slot_ok (side_next (side_of d) e).
Proof.
  unfold edge_ok, edge_fields, EDGE_WIDTHS, slot_ok. intros He. rewrite !fields_ok_cons in He.
  destruct d; simpl; naive_solver.
Qed.

Definition first_of (d : Direction) (n : NodeRecord) : SlotRef :=
  match d with Out => first_outgoing_edge n | In => first_incoming_edge n end.
Definition set_first (d : Direction) (n : NodeRecord) (s : SlotRef) : NodeRecord :=
  match d with Out => set_first_outgoing n s | In => set_first_incoming n s end.

Lemma node_ok_first d n s : node_ok n -> slot_ok s -> node_ok (set_first d n s).
Proof.
  unfold node_ok, node_fields, NODE_WIDTHS, slot_ok. intros Hn Hs. rewrite !fields_ok_cons in Hn.
  pose proof (wrap_range 16 (nr_generation n + 1) ltac:(lia)) as Hw.
  destruct d; simpl; rewrite !fields_ok_cons; naive_solver.
Qed.

Lemma node_ok_slot d n : node_ok n -> slot_ok (first_of d n).
Proof.
  unfold node_ok, node_fields, NODE_WIDTHS, slot_ok. intros Hn. rewrite !fields_ok_cons in Hn.
  destruct d; simpl; naive_solver.
Qed.

Section Graph.
Context {S : Type} `{HL : PageStoreLaws S} `{CS : Checksums}.
Implicit Types (D : gset Z) (s : S).

Definition node_at D s sl : option NodeRecord := bs ← hrec D s sl; node_decode bs.
Definition edge_at D s sl : option EdgeRecord := bs ← hrec D s sl; edge_decode bs.
Definition edges D s : EView := mkEView (edge_at D s).

Definition good n D s : Prop := ps_calm n s /\ heap_ok MIN_RECORD D s.

Lemma quiet_good n D s s' : ps_calm n s' -> quiet s s' -> good n D s -> good n D s'.
Proof. intros Hc Hq [_ Hh]. split; [done|]. by eapply quiet_heap. Qed.

Lemma hrec_bytes n D s sl bs : good n D s -> hrec D s sl = Some bs -> bytes_ok bs.
Proof.
  intros [_ Hh] (_ & HD & b & Hb & Hr)%hrec_inv. destruct (Hh _ HD) as (_ & b' & lens & Hb' & Hpk & _).
  rewrite Hb in Hb'. injection Hb' as <-. rewrite (packed_read b lens Hpk) in Hr.
  destruct (lens !! _); [|done]. injection Hr as <-. apply bytes_ok_slice. apply (pk_base _ _ Hpk).
Qed.

Lemma edge_at_inv n D s sl e : good n D s -> edge_at D s sl = Some e ->
  hrec D s sl = Some (edge_encode e) /\ edge_ok e /\ slot_ok sl.
Proof.
  intros Hg. unfold edge_at. destruct (hrec D s sl) as [bs|] eqn:E; [|done]. simpl. intros Hd.
  pose proof (hrec_bytes _ _ _ _ _ Hg E) as Hb. destruct (edge_decode_inv bs e Hb Hd) as [Ho <-].
  apply hrec_inv in E as (H32 & _). done.
Qed.

Lemma node_at_inv n D s sl nd : good n D s -> node_at D s sl = Some nd ->
  hrec D s sl = Some (node_encode nd) /\ node_ok nd /\ slot_ok sl.
Proof.
  intros Hg. unfold node_at. destruct (hrec D s sl) as [bs|] eqn:E; [|done]. simpl. intros Hd.
  pose proof (hrec_bytes _ _ _ _ _ Hg E) as Hb. destruct (node_decode_inv bs nd Hb Hd) as [Ho <-].
  apply hrec_inv in E as (H32 & _). done.
Qed.

Lemma node_edge_disjoint n D s sl nd : good n D s -> node_at D s sl = Some nd -> edge_at D s sl = None.
Proof.
  intros Hg (Hr & _ & _)%(node_at_inv n); [|done]. unfold edge_at. rewrite Hr. cbn [mbind option_bind].
  unfold edge_decode. by rewrite length_node_encode.
Qed.

Lemma get_edge_at_spec n D s sl e : good n D s -> edge_at D s sl = Some e ->
  exists s', get_edge_at sl s = Some (Ok e, s') /\ good n D s' /\ quiet s s'.
Proof.
  intros Hg He. destruct (edge_at_inv n D s sl e Hg He) as (Hr & Ho & _). destruct Hg as [Hc Hh].
  destruct (read_record_spec n _ D s sl _ Hc Hh Hr) as (s' & E & Hc' & Hq).
  exists s'. split; [|split; [by eapply quiet_good|done]]. unfold get_edge_at, hbind, hget, hret.
  by rewrite E, edge_roundtrip.
Qed.

Lemma get_node_at_spec n D s sl nd : good n D s -> node_at D s sl = Some nd ->
  exists s', get_node_at sl s = Some (Ok nd, s') /\ good n D s' /\ quiet s s'.
Proof.
  intros Hg He. destruct (node_at_inv n D s sl nd Hg He) as (Hr & Ho & _). destruct Hg as [Hc Hh].
  destruct (read_record_spec n _ D s sl _ Hc Hh Hr) as (s' & E & Hc' & Hq).
  exists s'. split; [|split; [by eapply quiet_good|done]]. unfold get_node_at, hbind, hget, hret.
  by rewrite E, node_roundtrip.
Qed.

Lemma quiet_edge_at D s s' : quiet s s' -> forall sl, edge_at D s' sl = edge_at D s sl.
Proof. intros Hq sl. unfold edge_at. by rewrite (quiet_hrec D s s' Hq). Qed.
Lemma quiet_node_at D s s' : quiet s s' -> forall sl, node_at D s' sl = node_at D s sl.
Proof. intros Hq sl. unfold node_at. by rewrite (quiet_hrec D s s' Hq). Qed.

Lemma quiet_slots D s s' : quiet s s' -> same_slots D s s'.
Proof. intros Hq. split; [intros x; by rewrite (quiet_hrec D s s' Hq)|]. intros p. by rewrite (proj1 Hq). Qed.

Lemma edge_at_slot D s x e : edge_at D s x = Some e -> is_Some (hrec D s x).
Proof. unfold edge_at. destruct (hrec D s x); [eauto|done]. Qed.
Lemma node_at_slot D s x nd : node_at D s x = Some nd -> is_Some (hrec D s x).
Proof. unfold node_at. destruct (hrec D s x); [eauto|done]. Qed.

Lemma put_slots D s s' sl : is_Some (hrec D s sl) -> is_Some (hrec D s' sl) ->
  (forall x, x ≠ sl -> hrec D s' x = hrec D s x) ->
  (forall q, is_Some (ps_image s' q) -> is_Some (ps_image s q)) -> same_slots D s s'.
Proof. intros H1 H2 Ho Hi. split; [|done]. intros x. destruct (decide (x = sl)) as [->|Hne]; [done|by rewrite Ho]. Qed.

(** Overwriting an edge record with another edge record. *)
Lemma put_edge_spec n D s sl e0 e : good n D s -> edge_at D s sl = Some e0 -> edge_ok e ->
  exists s', overwrite_record sl (edge_encode e) s = Some (Ok tt, s') /\ good n D s' /\
    (forall x, edge_at D s' x = if decide (x = sl) then Some e else edge_at D s x) /\
    (forall x, node_at D s' x = node_at D s x) /\ same_slots D s s'.
Proof.
  intros Hg He Ho. destruct (edge_at_inv n D s sl e0 Hg He) as (Hr & _ & _). destruct Hg as [Hc Hh].
  destruct (overwrite_record_spec n _ D s sl _ (edge_encode e) Hc Hh Hr) as (s' & E & Hc' & Hh' & H1 & H2 & _ & H3).
  { apply pack_le_ok. }
  { by rewrite !length_edge_encode. }
  exists s'. split; [done|]. split; [done|]. split_and!; [..|by eapply put_slots; [rewrite Hr|rewrite H1|done|done]].
  - intros x. unfold edge_at. case_decide as Ex; [subst x; rewrite H1; cbn [mbind option_bind]; by rewrite edge_roundtrip|].
    by rewrite H2.
  - intros x. unfold node_at. destruct (decide (x = sl)) as [->|]; [|by rewrite H2].
    rewrite H1, Hr. cbn [mbind option_bind]. unfold node_decode. by rewrite !length_edge_encode.
Qed.

Lemma put_node_spec n D s sl n0 nd : good n D s -> node_at D s sl = Some n0 -> node_ok nd ->
  exists s', overwrite_record sl (node_encode nd) s = Some (Ok tt, s') /\ good n D s' /\
    (forall x, node_at D s' x = if decide (x = sl) then Some nd else node_at D s x) /\
    (forall x, edge_at D s' x = edge_at D s x) /\ same_slots D s s'.
Proof.
  intros Hg He Ho. destruct (node_at_inv n D s sl n0 Hg He) as (Hr & _ & _). destruct Hg as [Hc Hh].
  destruct (overwrite_record_spec n _ D s sl _ (node_encode nd) Hc Hh Hr) as (s' & E & Hc' & Hh' & H1 & H2 & _ & H3).
  { apply pack_le_ok. }
  { by rewrite !length_node_encode. }
  exists s'. split; [done|]. split; [done|]. split_and!; [..|by eapply put_slots; [rewrite Hr|rewrite H1|done|done]].
  - intros x. unfold node_at. case_decide as Ex; [subst x; rewrite H1; cbn [mbind option_bind]; by rewrite node_roundtrip|].
    by rewrite H2.
  - intros x. unfold edge_at. destruct (decide (x = sl)) as [->|]; [|by rewrite H2].
    rewrite H1, Hr. cbn [mbind option_bind]. unfold edge_decode. by rewrite !length_node_encode.
Qed.

End Graph.
