(* ===== verification/GraphWire.v ===== *)
(** * Adjacency wiring on the heap

    [wire_source_adjacency], [unwire_source_adjacency] and their target
    counterparts of [src/graph/engine.rs] keep the doubly-linked lists of edge
    records and the list heads in the node records.  Both sides are one generic
    routine; its effect on the edge records is that of [link_head] and [unlink]
    of [Adjacency]. *)

From stdpp Require Import prelude list gmap.
From Stdlib Require Import ZArith Lia.
From S2P Require Import Prelude Bytes Checksum SlottedPage HeapPage GraphRecord Adjacency GraphHeap GraphHeapSpec.

#[local] Open Scope heap_scope.

Section Wire.
Context {S : Type} `{HL : PageStoreLaws S} `{CS : Checksums}.
Implicit Types (D : gset Z) (s : S) (d : Direction).

(** ** Both sides at once *)

Definition wire d (edge_slot node_slot : SlotRef) : H S unit :=
  try node <- get_node_at node_slot;
  try edge <- get_edge_at edge_slot;
  try _ <- overwrite_record edge_slot (edge_encode (side_links (side_of d) edge SLOT_NULL (first_of d node)));
  try _ <- (if slot_is_null (first_of d node) then hret tt else
            try h <- get_edge_at (first_of d node);
            overwrite_record (first_of d node)
              (edge_encode (side_links (side_of d) h edge_slot (side_next (side_of d) h))));
  overwrite_record node_slot (node_encode (set_first d node edge_slot)).

Definition unwire d (edge_slot node_slot : SlotRef) : H S (option SlotRef) :=
  try edge <- get_edge_at edge_slot;
  try _ <- (if slot_is_null (side_prev (side_of d) edge) then hret tt else
            try p <- get_edge_at (side_prev (side_of d) edge);
            overwrite_record (side_prev (side_of d) edge)
              (edge_encode (side_links (side_of d) p (side_prev (side_of d) p) (side_next (side_of d) edge))));
  try _ <- (if slot_is_null (side_next (side_of d) edge) then hret tt else
            try n <- get_edge_at (side_next (side_of d) edge);
            overwrite_record (side_next (side_of d) edge)
              (edge_encode (side_links (side_of d) n (side_prev (side_of d) edge) (side_next (side_of d) n))));
  try edge2 <- get_edge_at edge_slot;
  try _ <- overwrite_record edge_slot (edge_encode (unlinked (side_of d) edge2));
  if slot_is_null (side_prev (side_of d) edge) then
    try node <- get_node_at node_slot;
    try _ <- overwrite_record node_slot (node_encode (set_first d node (side_next (side_of d) edge)));
    hret (Some (side_next (side_of d) edge))
  else hret None.

Lemma wire_source_side e n : wire_source_adjacency e n = wire Out e n :> H S unit.
Proof. done. Qed.
Lemma wire_target_side e n : wire_target_adjacency e n = wire In e n :> H S unit.
Proof. done. Qed.
Lemma unwire_source_side e n : unwire_source_adjacency e n = unwire Out e n :> H S (option SlotRef).
Proof. done. Qed.
Lemma unwire_target_side e n : unwire_target_adjacency e n = unwire In e n :> H S (option SlotRef).
Proof. done. Qed.

(** ** Patching a neighbour *)

(** [s'] has the edge records [v'] and otherwise the records of [s]. *)
Definition rewired D s s' (v' : EView) : Prop :=
  (forall x, edge_at D s' x = ev v' x) /\ (forall x, node_at D s' x = node_at D s x) /\ same_slots D s s'.

Lemma patch_edge n D s s0 (v v' : EView) sl (g : EdgeRecord -> EdgeRecord) :
  good n D s -> rewired D s0 s v -> patch v sl g = Some v' ->
  (forall e, edge_ok e -> edge_ok (g e)) ->
  exists s', (if slot_is_null sl then hret tt else
              try h <- get_edge_at sl; overwrite_record sl (edge_encode (g h))) s = Some (Ok tt, s') /\
    good n D s' /\ rewired D s0 s' v'.
Proof.
  intros Hg (Hv & Hn & Hsl) Hp Hgk. unfold patch in Hp. destruct (slot_is_null sl) eqn:En.
  { injection Hp as <-. by exists s. }
  simpl in Hp. destruct (ev v sl) as [r|] eqn:Er; [|done]. injection Hp as <-.
  rewrite <- Hv in Er. destruct (get_edge_at_spec n D s sl r Hg Er) as (s1 & E1 & Hg1 & Hq1).
  destruct (edge_at_inv n D s sl r Hg Er) as (_ & Hro & _).
  destruct (put_edge_spec n D s1 sl r (g r) Hg1) as (s2 & E2 & Hg2 & He2 & Hn2 & Hs2).
  { by rewrite (quiet_edge_at D s s1 Hq1). }
  { by apply Hgk. }
  exists s2. split; [unfold hbind; by rewrite E1|]. split; [done|]. split_and!.
  - intros x. rewrite He2. simpl. case_decide; [done|]. by rewrite (quiet_edge_at D s s1 Hq1), Hv.
  - intros x. by rewrite Hn2, (quiet_node_at D s s1 Hq1), Hn.
  - eapply same_slots_trans; [exact Hsl|]. eapply same_slots_trans; [by apply quiet_slots|exact Hs2].
Qed.

(** Writing one edge. *)
Lemma write_edge n D s s0 (v : EView) sl r0 r :
  good n D s -> rewired D s0 s v -> view_read v sl = Some r0 -> edge_ok r ->
  exists s', overwrite_record sl (edge_encode r) s = Some (Ok tt, s') /\ good n D s' /\
    rewired D s0 s' (view_write v sl r).
Proof.
  intros Hg (Hv & Hn & Hsl) Hr Hro. simpl in Hr. rewrite <- Hv in Hr.
  destruct (put_edge_spec n D s sl r0 r Hg Hr Hro) as (s2 & E2 & Hg2 & He2 & Hn2 & Hs2).
  exists s2. split; [done|]. split; [done|]. split_and!.
  - intros x. rewrite He2. simpl. case_decide; [done|]. apply Hv.
  - intros x. by rewrite Hn2, Hn.
  - by eapply same_slots_trans.
Qed.

Lemma rewired_refl D s : rewired D s s (edges D s).
Proof. done. Qed.

Lemma rewired_quiet D s s1 s2 v : quiet s1 s2 -> rewired D s s1 v -> rewired D s s2 v.
Proof.
  intros Hq (H1 & H2 & H3). split_and!.
  - intros x. by rewrite (quiet_edge_at D s1 s2 Hq).
  - intros x. by rewrite (quiet_node_at D s1 s2 Hq).
  - eapply same_slots_trans; [exact H3|by apply quiet_slots].
Qed.

(** Views that agree everywhere have the same chains. *)
Lemma dll_ext sd (v v' : EView) l :
  (forall x, view_read v' x = view_read v x) -> dll sd v l -> dll sd v' l.
Proof.
  intros Hx [Hl Hnd]. split; [|done]. revert Hl. generalize SLOT_NULL at 1 3.
  induction l as [|y l IH]; intros p; simpl; [done|]. intros (H1 & (r & Hr & H2) & H3).
  split; [done|]. split; [|apply IH; [by apply NoDup_cons in Hnd as [_ ?]|done]].
  exists r. split; [|done]. change (view_read v' y = Some r). by rewrite Hx.
Qed.

Lemma rewired_chain sd D s s' v l : rewired D s s' v -> dll sd v l -> dll sd (edges D s') l.
Proof. intros (Hv & _). apply dll_ext. intros x. apply Hv. Qed.

(** ** Wiring a new edge *)

Lemma slot_ok_null : slot_ok SLOT_NULL.
Proof. unfold slot_ok, uint. simpl. lia. Qed.

Lemma wire_spec n D s d es ns nd e l :
  good n D s -> node_at D s ns = Some nd -> first_of d nd = head_of l ->
  dll (side_of d) (edges D s) l -> es ∉ l -> slot_is_null es = false ->
  edge_at D s es = Some e -> detached (side_of d) e ->
  exists s' v', wire d es ns s = Some (Ok tt, s') /\ good n D s' /\
    link_head (side_of d) (edges D s) es (head_of l) = (Ok es, v') /\
    (forall x, edge_at D s' x = ev v' x) /\
    (forall x, node_at D s' x = if decide (x = ns) then Some (set_first d nd es) else node_at D s x) /\ same_slots D s s'.
Proof.
  intros Hg Hnd Hf Hl Hin Hnn He Hdet.
  destruct (link_spec (side_of d) (edges D s) l es e Hl Hin Hnn He Hdet) as (v' & E & _).
  destruct (node_at_inv n D s ns nd Hg Hnd) as (_ & Hno & _).
  destruct (edge_at_inv n D s es e Hg He) as (_ & Heo & Heso).
  pose proof (node_ok_slot d nd Hno) as Hfo.
  destruct (get_node_at_spec n D s ns nd Hg Hnd) as (s1 & E1 & Hg1 & Hq1).
  destruct (get_edge_at_spec n D s1 es e Hg1) as (s2 & E2 & Hg2 & Hq2).
  { by rewrite (quiet_edge_at D s s1 Hq1). }
  pose proof (rewired_quiet _ _ _ _ _ Hq2 (rewired_quiet _ _ _ _ _ Hq1 (rewired_refl D s))) as Hw2.
  destruct (write_edge n D s2 s (edges D s) es e (side_links (side_of d) e SLOT_NULL (first_of d nd)) Hg2 Hw2)
    as (s3 & E3 & Hg3 & Hw3).
  { done. }
  { apply edge_ok_links; [done|apply slot_ok_null|done]. }
  set (v1 := view_write (edges D s) es (side_links (side_of d) e SLOT_NULL (first_of d nd))) in *.
  assert (patch v1 (first_of d nd) (fun h => side_links (side_of d) h es (side_next (side_of d) h)) = Some v') as Hp.
  { unfold link_head in E. change (view_read (edges D s) es) with (edge_at D s es) in E. rewrite He in E.
    destruct Hdet as (Hd1 & Hd2 & Hd3). rewrite Hd1, Hd2, Hd3, null_is_null in E. cbn [negb orb] in E.
    unfold patch. rewrite Hf. unfold v1. rewrite Hf.
    destruct (slot_is_null (head_of l)); [congruence|]. destruct (view_read _ (head_of l)); congruence. }
  destruct (patch_edge n D s3 s v1 v' (first_of d nd)
    (fun h => side_links (side_of d) h es (side_next (side_of d) h)) Hg3 Hw3 Hp) as (s4 & E4 & Hg4 & Hw4).
  { intros h Hh. apply edge_ok_links; [done|done|by apply edge_ok_slots]. }
  destruct (put_node_spec n D s4 ns nd (set_first d nd es) Hg4) as (s5 & E5 & Hg5 & Hn5 & He5 & Hs5).
  { by rewrite (proj1 (proj2 Hw4)). }
  { by apply node_ok_first. }
  exists s5, v'. split_and!; try done.
  - unfold wire, hbind at 1. rewrite E1. unfold hbind at 1. rewrite E2. unfold hbind at 1. rewrite E3.
    unfold hbind at 1. rewrite E4. exact E5.
  - intros x. by rewrite He5, (proj1 Hw4).
  - intros x. rewrite Hn5. case_decide; [done|]. by rewrite (proj1 (proj2 Hw4)).
  - eapply same_slots_trans; [apply Hw4|exact Hs5].
Qed.

(** ** Unwiring an edge *)

Lemma unwire_spec n D s d es ns nd l1 l2 :
  good n D s -> node_at D s ns = Some nd ->
  dll (side_of d) (edges D s) (l1 ++ es :: l2) ->
  exists s' v', unwire d es ns s
      = Some (Ok (if slot_is_null (List.last l1 SLOT_NULL) then Some (head_of l2) else None), s') /\
    good n D s' /\
    unlink (side_of d) (edges D s) es
      = (Ok (if slot_is_null (List.last l1 SLOT_NULL) then Some (head_of l2) else None), v') /\
    (forall x, edge_at D s' x = ev v' x) /\
    (forall x, node_at D s' x =
       if decide (x = ns) then Some (if slot_is_null (List.last l1 SLOT_NULL) then set_first d nd (head_of l2) else nd)
       else node_at D s x) /\ same_slots D s s'.
Proof.
  intros Hg Hnd Hl.
  destruct (unlink_spec (side_of d) (edges D s) l1 es l2 Hl) as (v' & r & Hr & E & _ & _ & _ & _).
  assert (edge_at D s es = Some r) as He by done.
  destruct (edge_at_inv n D s es r Hg He) as (_ & Hro & Heso).
  destruct (edge_ok_slots d r Hro) as [Hpo Hno].
  destruct (get_edge_at_spec n D s es r Hg He) as (s1 & E1 & Hg1 & Hq1).
  pose proof (rewired_quiet _ _ _ _ _ Hq1 (rewired_refl D s)) as Hw1.
  destruct Hl as [Hseg Hnodup]. apply seg_app in Hseg as (_ & Hnn & (r' & Hr' & Hp & Hn) & _).
  assert (r' = r) as -> by congruence.
  set (pv := side_prev (side_of d) r) in *. set (nx := side_next (side_of d) r) in *.
  unfold unlink in E. rewrite Hr in E. fold pv nx in E.
  destruct (patch (edges D s) pv _) as [v1|] eqn:Ep1; [|done].
  destruct (patch v1 nx _) as [v2|] eqn:Ep2; [|done]. injection E as Eres Ev.
  destruct (patch_edge n D s1 s (edges D s) v1 pv
    (fun p => side_links (side_of d) p (side_prev (side_of d) p) nx) Hg1 Hw1 Ep1) as (s2 & E2 & Hg2 & Hw2).
  { intros p Hpk. apply edge_ok_links; [done|by apply edge_ok_slots|done]. }
  destruct (patch_edge n D s2 s v1 v2 nx
    (fun q => side_links (side_of d) q pv (side_next (side_of d) q)) Hg2 Hw2 Ep2) as (s3 & E3 & Hg3 & Hw3).
  { intros p Hpk. apply edge_ok_links; [done|done|by apply edge_ok_slots]. }
  assert (pv ≠ es /\ nx ≠ es) as [Hpe Hne].
  { apply NoDup_app in Hnodup as (_ & Hd & Hd2). apply NoDup_cons in Hd2 as [Hd2 _]. split.
    - rewrite Hp. destruct l1 as [|y l1 _] using rev_ind.
      + intros E0. rewrite <- E0 in Hnn. done.
      + rewrite List.last_last. intros ->. specialize (Hd es). set_solver.
    - rewrite Hn. destruct l2 as [|y l2]; simpl.
      + intros E0. rewrite <- E0 in Hnn. done.
      + set_solver. }
  assert (view_read v2 es = Some r) as Hr2.
  { unfold patch in Ep1, Ep2. destruct (slot_is_null pv); simplify_eq;
      repeat case_match; simplify_eq; simpl; rewrite ?decide_False by done; done. }
  destruct (get_edge_at_spec n D s3 es r Hg3) as (s4 & E4 & Hg4 & Hq4).
  { by rewrite (proj1 Hw3). }
  destruct (write_edge n D s4 s v2 es r (unlinked (side_of d) r) Hg4 (rewired_quiet _ _ _ _ _ Hq4 Hw3) Hr2)
    as (s5 & E5 & Hg5 & Hw5).
  { apply edge_ok_links; [done|apply slot_ok_null|apply slot_ok_null]. }
  assert (exists s6, (if slot_is_null pv then
      try node <- get_node_at ns;
      try _ <- overwrite_record ns (node_encode (set_first d node nx)); hret (Some nx)
    else hret None) s5 = Some (Ok (if slot_is_null pv then Some nx else None), s6) /\ good n D s6 /\
    (forall x, edge_at D s6 x = edge_at D s5 x) /\
    (forall x, node_at D s6 x =
       if decide (x = ns) then Some (if slot_is_null pv then set_first d nd nx else nd)
       else node_at D s x) /\ same_slots D s5 s6) as (s6 & E6 & Hg6 & He6 & Hn6 & Hs6).
  { destruct (slot_is_null pv).
    - destruct (get_node_at_spec n D s5 ns nd Hg5) as (s5' & E5' & Hg5' & Hq5').
      { by rewrite (proj1 (proj2 Hw5)). }
      destruct (node_at_inv n D s ns nd Hg Hnd) as (_ & Hndo & _).
      destruct (put_node_spec n D s5' ns nd (set_first d nd nx) Hg5') as (s6 & E6 & Hg6 & Hn6 & He6 & Hs6).
      { by rewrite (quiet_node_at D s5 s5' Hq5'), (proj1 (proj2 Hw5)). }
      { by apply node_ok_first. }
      exists s6. split; [unfold hbind at 1; rewrite E5'; unfold hbind; by rewrite E6|]. split; [done|]. split_and!.
      + intros x. by rewrite He6, (quiet_edge_at D s5 s5' Hq5').
      + intros x. rewrite Hn6. case_decide; [done|]. by rewrite (quiet_node_at D s5 s5' Hq5'), (proj1 (proj2 Hw5)).
      + eapply same_slots_trans; [by apply quiet_slots|exact Hs6].
    - exists s5. split_and!; try done. intros x. rewrite (proj1 (proj2 Hw5)). case_decide as Ex; [by subst x|done]. }
  exists s6, v'. fold pv in Hp. rewrite <- Hp. unfold head_of. fold nx in Hn. rewrite <- Hn. split_and!; try done.
  - unfold unwire, hbind at 1. rewrite E1. fold pv nx. unfold hbind at 1. rewrite E2. unfold hbind at 1. rewrite E3.
    unfold hbind at 1. rewrite E4. unfold hbind at 1. rewrite E5. exact E6.
  - unfold unlink. rewrite Hr. fold pv nx. rewrite Ep1, Ep2, <- Ev. done.
  - intros x. rewrite He6, (proj1 Hw5), <- Ev. done.
  - eapply same_slots_trans; [apply Hw5|exact Hs6].
Qed.

End Wire.
