(* ===== verification/GraphEngine.v ===== *)
(** * The graph storage engine ([src/graph/engine.rs])

    [GraphStorageEngine] composes the record heap of [GraphHeap], the B+ trees
    of [BTree], the transaction manager of [TxManager] and the log behind the
    [WalLog] interface.  The page manager is any [PageStore]; the last log
    position it keeps in its superblock is a field of the engine.

    Each mutating operation runs as one transaction: begin, exclusive lock,
    heap and index changes, log records, commit; most error exits roll the
    transaction back first, as the source does, and those that do not are
    modelled without it.  What other threads do while a lock request waits is
    the argument [turns] (one [Turn] per iteration of the waiting loop); [now]
    gives the clock at the operation's successive readings.  [None] is a panic,
    or a lock request still waiting when the turns run out. *)

From stdpp Require Import prelude list gmap sorting.
From Stdlib Require Import ZArith Lia.
From S2P Require Import Prelude Bytes Checksum Mvcc LockTable WalRecord WalLog TxManager ValueCodec Key.
From S2P Require Import SlottedPage PageAlloc BTreePage BTree HeapPage GraphRecord Adjacency Csr GraphHeap.

#[local] Open Scope heap_scope.

(** ** Node and edge ids *)

Record IdAllocator := mkIds { next_id : Z }.

Definition ids_new (start : Z) : IdAllocator := mkIds (Z.max start 1).
Definition ids_allocate (a : IdAllocator) : Z * IdAllocator := (next_id a, mkIds (wrap 64 (next_id a + 1))).
(** The compare-and-swap loop; [observed + 1] wraps in a release build. *)
Definition observe (a : IdAllocator) (observed : Z) : IdAllocator :=
  if observed <? next_id a then a else mkIds (wrap 64 (observed + 1)).
Definition ids_peek (a : IdAllocator) : Z := next_id a.

(** ** Errors *)

Definition from_tx_error (e : TxError) : StorageError :=
  match e with
  | WoundWaitErr _ => SeTxAborted
  | PhantomConflict _ | WriteConflict _ _ => SeTxConflict
  | WalFlush _ => SeIoError
  | NotActive _ _ | AlreadyFinalised _ => SeTxAborted
  | IndexMutationErr => SeIndexError
  end.

(** ** State *)

Record Engine (S W : Type) := mkEngine {
  page_manager : S;
  current_wal_lsn : Z;
  wal_writer : W;
  txn_manager : TransactionManager;
  node_index : BPlusTree;
  edge_index : BPlusTree;
  label_index : BPlusTree;
  type_index : BPlusTree;
  property_index : BPlusTree;
  node_pages : list Z;
  edge_pages : list Z;
  property_pages : list Z;
  id_allocator : IdAllocator;
  node_free_list : list SlotRef;
  edge_free_list : list SlotRef;
  csr : CsrHolder
}.
Arguments mkEngine {S W}.
Arguments page_manager {S W}.
Arguments current_wal_lsn {S W}.
Arguments wal_writer {S W}.
Arguments txn_manager {S W}.
Arguments node_index {S W}.
Arguments edge_index {S W}.
Arguments label_index {S W}.
Arguments type_index {S W}.
Arguments property_index {S W}.
Arguments node_pages {S W}.
Arguments edge_pages {S W}.
Arguments property_pages {S W}.
Arguments id_allocator {S W}.
Arguments node_free_list {S W}.
Arguments edge_free_list {S W}.
Arguments csr {S W}.

(** The record families, each with its list of pages. *)
Inductive PageList := NodePages | EdgePages | PropertyPages.
(** The trees the operations write. *)
Inductive IndexName := NodeIndex | EdgeIndex | LabelIndex | TypeIndex | PropIndex.

Section State.
Context {S W : Type}.
Implicit Types (e : Engine S W).

Definition set_pages e (s : S) : Engine S W :=
  mkEngine s (current_wal_lsn e) (wal_writer e) (txn_manager e) (node_index e) (edge_index e) (label_index e)
    (type_index e) (property_index e) (node_pages e) (edge_pages e) (property_pages e) (id_allocator e)
    (node_free_list e) (edge_free_list e) (csr e).
Definition set_journal e (m : TransactionManager) (w : W) : Engine S W :=
  mkEngine (page_manager e) (current_wal_lsn e) w m (node_index e) (edge_index e) (label_index e)
    (type_index e) (property_index e) (node_pages e) (edge_pages e) (property_pages e) (id_allocator e)
    (node_free_list e) (edge_free_list e) (csr e).
Definition set_wal e (l : Z) (w : W) : Engine S W :=
  mkEngine (page_manager e) l w (txn_manager e) (node_index e) (edge_index e) (label_index e)
    (type_index e) (property_index e) (node_pages e) (edge_pages e) (property_pages e) (id_allocator e)
    (node_free_list e) (edge_free_list e) (csr e).

Definition index_of (x : IndexName) e : BPlusTree :=
  match x with
  | NodeIndex => node_index e | EdgeIndex => edge_index e | LabelIndex => label_index e
  | TypeIndex => type_index e | PropIndex => property_index e
  end.
Definition set_index (x : IndexName) e (t : BPlusTree) : Engine S W :=
  let f (y : IndexName) := match y, x with
    | NodeIndex, NodeIndex | EdgeIndex, EdgeIndex | LabelIndex, LabelIndex | TypeIndex, TypeIndex
    | PropIndex, PropIndex => t | _, _ => index_of y e end in
  mkEngine (page_manager e) (current_wal_lsn e) (wal_writer e) (txn_manager e) (f NodeIndex) (f EdgeIndex)
    (f LabelIndex) (f TypeIndex) (f PropIndex) (node_pages e) (edge_pages e) (property_pages e) (id_allocator e)
    (node_free_list e) (edge_free_list e) (csr e).

Definition list_of (x : PageList) e : list Z :=
  match x with NodePages => node_pages e | EdgePages => edge_pages e | PropertyPages => property_pages e end.
Definition set_list (x : PageList) e (l : list Z) : Engine S W :=
  let f (y : PageList) := match y, x with
    | NodePages, NodePages | EdgePages, EdgePages | PropertyPages, PropertyPages => l | _, _ => list_of y e end in
  mkEngine (page_manager e) (current_wal_lsn e) (wal_writer e) (txn_manager e) (node_index e) (edge_index e)
    (label_index e) (type_index e) (property_index e) (f NodePages) (f EdgePages) (f PropertyPages) (id_allocator e)
    (node_free_list e) (edge_free_list e) (csr e).

Definition set_free e (nf ef : list SlotRef) : Engine S W :=
  mkEngine (page_manager e) (current_wal_lsn e) (wal_writer e) (txn_manager e) (node_index e) (edge_index e)
    (label_index e) (type_index e) (property_index e) (node_pages e) (edge_pages e) (property_pages e) (id_allocator e)
    nf ef (csr e).
Definition set_ids e (a : IdAllocator) : Engine S W :=
  mkEngine (page_manager e) (current_wal_lsn e) (wal_writer e) (txn_manager e) (node_index e) (edge_index e)
    (label_index e) (type_index e) (property_index e) (node_pages e) (edge_pages e) (property_pages e) a
    (node_free_list e) (edge_free_list e) (csr e).
Definition set_csr e (h : CsrHolder) : Engine S W :=
  mkEngine (page_manager e) (current_wal_lsn e) (wal_writer e) (txn_manager e) (node_index e) (edge_index e)
    (label_index e) (type_index e) (property_index e) (node_pages e) (edge_pages e) (property_pages e) (id_allocator e)
    (node_free_list e) (edge_free_list e) h.
End State.

Section Engine.
Context {S : Type} `{PS : PageStore S} `{CS : Checksums} {W : Type} `{WL : WalLog W}.
Notation E := (H (Engine S W)).
Notation Tx := (Transaction unit).

(** ** Running the parts on the engine *)

Definition gets {A} (f : Engine S W -> A) : E A := fun e => Some (Ok (f e), e).
Definition modify (f : Engine S W -> Engine S W) : E unit := fun e => Some (Ok tt, f e).

Definition on_pages {A} (m : H S A) : E A := fun e =>
  match m (page_manager e) with Some (r, s) => Some (r, set_pages e s) | None => None end.

(** The heap's insertions, on one family's page list. *)
Definition on_list {A} (x : PageList) (m : H (S * list Z) A) : E A := fun e =>
  match m (page_manager e, list_of x e) with
  | Some (r, (s, l)) => Some (r, set_list x (set_pages e s) l)
  | None => None
  end.

(** [tree.insert(..).map_err(StorageError::from)], and deletion. *)
Definition on_index {A} (x : IndexName) (m : BT A) : E A := fun e =>
  match m (index_of x e) with
  | Some (Ok a, t) => Some (Ok a, set_index x e t)
  | Some (Err _, t) => Some (Err SeIndexError, set_index x e t)
  | None => None
  end.

Definition search_index (x : IndexName) (k : CompositeKey) : E (option (Z * nat)) := fun e =>
  match search (index_of x e) k with Some r => Some (Ok r, e) | None => None end.

(** The slot stored for a key: [search], [get_page], [page.key], the record's
    key length, [decode_slot_ref].  The caller decides about an absent key. *)
Definition lookup_slot (x : IndexName) (k : CompositeKey) : E (option SlotRef) := fun e =>
  let t := index_of x e in
  match search t k with
  | None => None
  | Some None => Some (Ok None, e)
  | Some (Some (page_id, slot)) =>
      match pages t !! page_id with
      | None => Some (Err SeIndexError, e)
      | Some page =>
          match key page slot with
          | None => Some (Err SeIndexError, e)
          | Some kv =>
              if (length kv <? 2)%nat then None else
              let key_len := Z.to_nat (from_be (take 2 kv)) in
              if (length kv <? 2 + key_len)%nat then None else
              match decode_slot_ref (drop (2 + key_len) kv) with
              | Some s => Some (Ok (Some s), e)
              | None => Some (Err SeIndexError, e)
              end
          end
      end
  end.

Definition range (x : IndexName) (start stop : CompositeKey) : E (list (list Z * list Z)) := fun e =>
  match range_search (index_of x e) start stop with Some l => Some (Ok l, e) | None => None end.

(** ** Log and transactions *)

Definition log (now : Z) (t : RecordType) (txid : Z) (payload : list Z) : E Z := fun e =>
  match wal_append (record_new t txid 0 (current_wal_lsn e) payload now) (wal_writer e) with
  | (Ok lsn, w) => Some (Ok lsn, set_wal e lsn w)
  | (Err _, w) => Some (Err SeIoError, set_wal e (current_wal_lsn e) w)
  end.

Definition begin_transaction : E Tx := fun e =>
  let '(tx, m) := begin (txn_manager e) in Some (Ok tx, set_journal e m (wal_writer e)).

Definition rollback_tx (now : Z) (tx : Tx) : E unit := fun e =>
  let '(_, (m, _, w)) := rollback (txn_manager e) tx (wal_writer e) now in
  Some (Ok tt, set_journal e m w).

(** [if let Err(e) = .. { let _ = rollback(..); return Err(e) }]. *)
Definition or_rollback {A} (now : Z) (tx : Tx) (m : E A) : E A := fun e =>
  match m e with
  | Some (Err x, e1) => (try _ <- rollback_tx now tx; hfail x) e1
  | r => r
  end.

(** The exclusive lock; on failure the transaction, as the lock manager left
    it, is rolled back. *)
Definition lock_exclusive (turns : list Turn) (now : Z) (tx : Tx) (resource : Z) : E Tx := fun e =>
  match acquire_lock (txn_manager e) tx resource Exclusive turns with
  | (None, _) => None
  | (Some (Ok _), (m, tx)) => Some (Ok tx, set_journal e m (wal_writer e))
  | (Some (Err x), (m, tx)) =>
      (try _ <- rollback_tx now tx; hfail (from_tx_error x)) (set_journal e m (wal_writer e))
  end.

Definition commit_transaction (now : Z) (tx : Tx) : E unit := fun e =>
  match commit (txn_manager e) tx (wal_writer e) now with
  | (Ok _, (m, _, w)) => Some (Ok tt, set_journal e m w)
  | (Err x, (m, _, w)) => Some (Err (from_tx_error x), set_journal e m w)
  end.

(** The autocommit prologue. *)
Definition autocommit (turns : list Turn) (now : Z) (resource : Z) : E Tx :=
  try tx <- begin_transaction; lock_exclusive turns now tx resource.

Definition stamp_lsn (image : Page) (lsn : Z) : Page := write_at image 0 (to_be 8 lsn).

(** ** Nodes *)

Definition put_node (turns : list Turn) (now : nat -> Z) (node : NodeRecord) : E SlotRef :=
  if node_id node =? 0 then hfail SeInvalidId else
  let k := node_id_key (node_id node) in
  try found <- search_index NodeIndex k;
  match found with
  | Some _ => hfail SeAlreadyExists
  | None =>
      try tx <- autocommit turns (now 0%nat) (node_resource_id (node_id node));
      try x <- or_rollback (now 0%nat) tx (on_list NodePages (prepare_record (node_encode node) PtSlottedData));
      let '(slot, page_id, image) := x in
      let value := encode_slot_ref slot in
      try _ <- or_rollback (now 0%nat) tx (on_index NodeIndex (BTree.insert k value));
      try _ <- or_rollback (now 0%nat) tx
        (on_index LabelIndex (BTree.insert (label_index_key (label_id node) (node_id node)) value));
      try lsn <- or_rollback (now 1%nat) tx
        (log (now 0%nat) PageInsert (tx_id tx) (to_be 8 page_id ++ image));
      try _ <- commit_transaction (now 1%nat) tx;
      try _ <- on_pages (ps_write page_id (stamp_lsn image lsn));
      hret slot
  end.

Definition lookup_node_slot (id : Z) : E (option SlotRef) := lookup_slot NodeIndex (node_id_key id).

Definition get_node (id : Z) : E (option NodeRecord) :=
  try found <- lookup_slot NodeIndex (node_id_key id);
  match found with
  | None => hret None
  | Some s =>
      try record <- on_pages (read_record s);
      hret (match record with Some bytes => node_decode bytes | None => None end)
  end.

Definition mark_node_deleted (n : NodeRecord) : NodeRecord :=
  mkNode (node_id n) (label_id n) (first_outgoing_edge n) (first_incoming_edge n) (nr_first_property n)
    (Z.lor (nr_flags n) NODE_DELETED) (wrap 16 (nr_generation n + 1)) (nr_pad n).

(** The payload of the logical delete records. *)
Definition delete_payload (id : Z) (s : SlotRef) (txid : Z) (buf : list Z) : list Z :=
  to_be 8 id ++ to_be 4 (raw s) ++ Mvcc.encode (mark_deleted (new_insert 0 0) txid) ++ buf.

Definition delete_node (turns : list Turn) (now : nat -> Z) (id : Z) : E unit :=
  try found <- lookup_slot NodeIndex (node_id_key id);
  try s <- hget found SeNotFound;
  try tx <- autocommit turns (now 0%nat) (node_resource_id id);
  try node <- on_pages (get_node_at s);
  let node := mark_node_deleted node in
  let buf := node_encode node in
  try _ <- or_rollback (now 0%nat) tx (on_pages (overwrite_record s buf));
  try _ <- or_rollback (now 0%nat) tx
    (on_index LabelIndex (tree_delete config_default (label_index_key (label_id node) id)));
  try _ <- or_rollback (now 1%nat) tx
    (log (now 0%nat) NodeDelete (tx_id tx) (delete_payload id s (tx_id tx) buf));
  try _ <- commit_transaction (now 1%nat) tx;
  modify (fun e => set_free e (node_free_list e ++ [s]) (edge_free_list e)).

(** ** Edges *)

Definition put_edge (turns : list Turn) (now : nat -> Z) (edge : EdgeRecord) : E SlotRef :=
  if edge_id edge =? 0 then hfail SeInvalidId else
  let k := edge_id_key (edge_id edge) in
  try found <- search_index EdgeIndex k;
  match found with
  | Some _ => hfail SeAlreadyExists
  | None =>
      try tx <- autocommit turns (now 0%nat) (edge_resource_id (edge_id edge));
      try s <- or_rollback (now 0%nat) tx (on_list EdgePages (insert_record (edge_encode edge) PtSlottedData));
      let value := encode_slot_ref s in
      try _ <- or_rollback (now 0%nat) tx (on_index EdgeIndex (BTree.insert k value));
      try _ <- or_rollback (now 0%nat) tx
        (on_index TypeIndex (BTree.insert (type_index_key (type_id edge) (edge_id edge)) value));
      try _ <- (if slot_is_null (source_node edge) then hret tt else
                or_rollback (now 0%nat) tx (on_pages (wire_source_adjacency s (source_node edge))));
      try _ <- (if slot_is_null (target_node edge) then hret tt else
                or_rollback (now 0%nat) tx (on_pages (wire_target_adjacency s (target_node edge))));
      try final <- or_rollback (now 0%nat) tx
        (try r <- on_pages (read_record s); hget r SeNotFound);
      try _ <- or_rollback (now 1%nat) tx
        (log (now 0%nat) EdgeInsert (tx_id tx)
           (to_be 8 (edge_id edge) ++ to_be 4 (raw s) ++ Mvcc.encode (new_insert (tx_id tx) 0) ++ final));
      try _ <- commit_transaction (now 1%nat) tx;
      hret s
  end.

Definition get_edge (id : Z) : E (option EdgeRecord) :=
  try found <- lookup_slot EdgeIndex (edge_id_key id);
  match found with
  | None => hret None
  | Some s =>
      try record <- on_pages (read_record s);
      hret (match record with Some bytes => edge_decode bytes | None => None end)
  end.

Definition mark_edge_deleted (e : EdgeRecord) : EdgeRecord :=
  mkEdge (edge_id e) (source_id e) (target_id e) (type_id e) (source_node e) (target_node e)
    (prev_source_edge e) (next_source_edge e) (prev_target_edge e) (next_target_edge e) (er_first_property e)
    (Z.lor (er_flags e) EDGE_DELETED) (wrap 16 (er_generation e + 1)) (er_pad e).

Definition delete_edge (turns : list Turn) (now : nat -> Z) (id : Z) : E unit :=
  try found <- lookup_slot EdgeIndex (edge_id_key id);
  try s <- hget found SeNotFound;
  try tx <- autocommit turns (now 0%nat) (edge_resource_id id);
  try edge <- on_pages (get_edge_at s);
  try _ <- (if slot_is_null (source_node edge) then hret None else
            or_rollback (now 0%nat) tx (on_pages (unwire_source_adjacency s (source_node edge))));
  try _ <- (if slot_is_null (target_node edge) then hret None else
            or_rollback (now 0%nat) tx (on_pages (unwire_target_adjacency s (target_node edge))));
  try edge <- on_pages (get_edge_at s);
  let edge := mark_edge_deleted edge in
  let buf := edge_encode edge in
  try _ <- or_rollback (now 0%nat) tx (on_pages (overwrite_record s buf));
  try _ <- or_rollback (now 0%nat) tx
    (on_index TypeIndex (tree_delete config_default (type_index_key (type_id edge) id)));
  try _ <- or_rollback (now 1%nat) tx
    (log (now 0%nat) EdgeDelete (tx_id tx) (delete_payload id s (tx_id tx) buf));
  try _ <- commit_transaction (now 1%nat) tx;
  modify (fun e => set_free e (node_free_list e) (edge_free_list e ++ [s])).

(** ** Properties *)

Definition put_property (now : Z) (prop : PropertyRecord) : E SlotRef :=
  let bytes := prop_encode prop in
  try s <- on_list PropertyPages (insert_record bytes PtSlottedData);
  try _ <- log now PropertyInsert 1 (to_be 4 (raw s) ++ bytes);
  hret s.

Definition get_property (s : SlotRef) : E (option PropertyRecord) :=
  try record <- on_pages (read_record s);
  hret (match record with Some bytes => prop_decode bytes | None => None end).

Definition set_node_property (n : NodeRecord) (p : SlotRef) : NodeRecord :=
  mkNode (node_id n) (label_id n) (first_outgoing_edge n) (first_incoming_edge n) p (nr_flags n)
    (wrap 16 (nr_generation n + 1)) (nr_pad n).
Definition set_edge_property (e : EdgeRecord) (p : SlotRef) : EdgeRecord :=
  mkEdge (edge_id e) (source_id e) (target_id e) (type_id e) (source_node e) (target_node e)
    (prev_source_edge e) (next_source_edge e) (prev_target_edge e) (next_target_edge e) p
    (er_flags e) (wrap 16 (er_generation e + 1)) (er_pad e).

Definition attach_property_to_node (now : Z) (id : Z) (prop_slot : SlotRef) : E unit :=
  try found <- lookup_slot NodeIndex (node_id_key id);
  try s <- hget found SeNotFound;
  try node <- on_pages (get_node_at s);
  let buf := node_encode (set_node_property node prop_slot) in
  try _ <- on_pages (overwrite_record s buf);
  try _ <- log now NodeInsert 1 (to_be 8 id ++ to_be 4 (raw s) ++ buf);
  hret tt.

Definition attach_property_to_edge (now : Z) (id : Z) (prop_slot : SlotRef) : E unit :=
  try found <- lookup_slot EdgeIndex (edge_id_key id);
  try s <- hget found SeNotFound;
  try edge <- on_pages (get_edge_at s);
  let buf := edge_encode (set_edge_property edge prop_slot) in
  try _ <- on_pages (overwrite_record s buf);
  try _ <- log now EdgeInsert 1 (to_be 8 id ++ to_be 4 (raw s) ++ buf);
  hret tt.

(** The property index ([src/index/property.rs]) stores under the encoded
    value, or the encoded null when the value does not encode. *)
Definition serialized (t : ValueType) (payload : list Z) : list Z := default [0] (encode_property_value t payload).
Definition insert_property_index (entity_id property_id : Z) (t : ValueType) (payload : list Z) (s : SlotRef) : E unit :=
  on_index PropIndex (BTree.insert (property_index_key property_id (serialized t payload) entity_id) (encode_slot_ref s)).

Definition U128_MAX : Z := 2 ^ 128 - 1.

Definition scan_property_index (property_id : Z) (t : ValueType) (payload : list Z) : E (list (Z * SlotRef)) :=
  try entries <- range PropIndex (property_index_key property_id (serialized t payload) 0)
                   (property_index_key property_id (serialized t payload) U128_MAX);
  hret (omap (fun '(k, v) =>
    if (length k <? 16)%nat then None
    else (fun s => (from_be (drop (length k - 16) k), s)) <$> decode_slot_ref v) entries).

(** ** Scans *)

Definition live_node (n : NodeRecord) : bool := Z.land (nr_flags n) NODE_DELETED =? 0.
Definition live_edge_rec (e : EdgeRecord) : bool := Z.land (er_flags e) EDGE_DELETED =? 0.

(** One record per index entry: decoded, filtered. *)
Fixpoint resolve {A} (decode : list Z -> option A) (keep : A -> bool) (entries : list (list Z * list Z)) : E (list A) :=
  match entries with
  | [] => hret []
  | (_, value) :: rest =>
      try s <- hget (decode_slot_ref value) SeIndexError;
      try record <- on_pages (read_record s);
      try more <- resolve decode keep rest;
      hret (match record ≫= decode with
            | Some a => if keep a then a :: more else more
            | None => more
            end)
  end.

Definition scan_nodes_by_label (label : Z) : E (list NodeRecord) :=
  try entries <- range LabelIndex (label_index_key label 0) (label_index_key label U128_MAX);
  resolve node_decode live_node entries.

Definition scan_edges_by_type (ty : Z) : E (list EdgeRecord) :=
  try entries <- range TypeIndex (type_index_key ty 0) (type_index_key ty U128_MAX);
  resolve edge_decode live_edge_rec entries.

Definition scan_all_nodes : E (list NodeRecord) :=
  try entries <- range NodeIndex (node_id_key 0) (node_id_key U128_MAX);
  resolve node_decode (fun n => negb (node_id n =? 0) && live_node n) entries.

Definition scan_all_edges : E (list EdgeRecord) :=
  try entries <- range EdgeIndex (edge_id_key 0) (edge_id_key U128_MAX);
  resolve edge_decode (fun e => negb (edge_id e =? 0) && live_edge_rec e) entries.

Definition scan_outgoing_edges (id : Z) (type_ids : list Z) : E (list (EdgeRecord * Z)) :=
  try found <- get_node id;
  match found with
  | None => hret []
  | Some node =>
      try l <- on_pages (walk Out MAX_HOPS (first_outgoing_edge node) type_ids);
      hret ((fun e => (e, target_id e)) <$> l)
  end.

Definition scan_incoming_edges (id : Z) (type_ids : list Z) : E (list (EdgeRecord * Z)) :=
  try found <- get_node id;
  match found with
  | None => hret []
  | Some node =>
      try l <- on_pages (walk In MAX_HOPS (first_incoming_edge node) type_ids);
      hret ((fun e => (e, source_id e)) <$> l)
  end.

(** The frozen snapshot when there is one, else the linked list. *)
Definition scan_adjacency (id : Z) : E (list (Z * Z * Z)) :=
  try h <- gets csr;
  match snapshot h with
  | Some snap =>
      match outgoing_edges snap id with
      | Some l => hret ((fun c => (ce_target c, ce_edge c, ce_type c)) <$> l)
      | None => hpanic
      end
  | None =>
      try found <- lookup_slot NodeIndex (node_id_key id);
      match found with
      | None => hret []
      | Some s =>
          try node <- on_pages (get_node_at s);
          try l <- on_pages (walk Out MAX_HOPS (first_outgoing_edge node) []);
          hret ((fun e => (target_id e, edge_id e, type_id e)) <$> l)
      end
  end.

(** ** Atomic creation

    The no-steal path: all page images are built in the pending layer, logged,
    committed, and only then written. *)

(** An insertion on the pending layer over the engine's pages. *)
Definition on_pending_list {A} (x : PageList) (m : H (Overlay S * list Z) A) (pend : gmap Z Page) :
    E (A * gmap Z Page) := fun e =>
  match m (mkOverlay pend (page_manager e), list_of x e) with
  | Some (Ok a, (o, l)) => Some (Ok (a, pending o), set_list x (set_pages e (base o)) l)
  | Some (Err er, (o, l)) => Some (Err er, set_list x (set_pages e (base o)) l)
  | None => None
  end.
Definition on_pending {A} (m : H (Overlay S) A) (pend : gmap Z Page) : E (A * gmap Z Page) := fun e =>
  match m (mkOverlay pend (page_manager e)) with
  | Some (Ok a, o) => Some (Ok (a, pending o), set_pages e (base o))
  | Some (Err er, o) => Some (Err er, set_pages e (base o))
  | None => None
  end.

Definition set_next_property (p : PropertyRecord) (next : SlotRef) : PropertyRecord :=
  mkProp (header p) next (property_name p) (GraphRecord.payload p).

(** The property chain, last record first: the slots of the records, linked
    each to its successor, and what the property index will be told. *)
Fixpoint prepare_properties (now : Z) (tx : Tx) (rev_props : list PropertyRecord) (next_slot : SlotRef)
    (pend : gmap Z Page) : E (SlotRef * list (ValueType * list Z * SlotRef) * gmap Z Page) :=
  match rev_props with
  | [] => hret (next_slot, [], pend)
  | prop :: rest =>
      let p := set_next_property prop next_slot in
      try x <- or_rollback now tx
        (on_pending_list PropertyPages (prepare_into_pending (prop_encode p) PtSlottedData) pend);
      try y <- prepare_properties now tx rest x.1 x.2;
      hret (y.1.1,
            match value_type_from_u8 (value_type (header p)) with
            | Some t => [(t, GraphRecord.payload p, x.1)]
            | None => []
            end ++ y.1.2, y.2)
  end.

Definition page_le (a b : Z * Page) : Prop := a.1 <= b.1.
#[local] Instance page_le_dec : RelDecision page_le.
Proof. intros a b. unfold page_le. apply _. Defined.
Definition sorted_pages (pend : gmap Z Page) : list (Z * Page) := merge_sort page_le (map_to_list pend).

(** Phase 2: one [PageInsert] per page, in page order. *)
Fixpoint log_pages (now : nat -> Z) (i : nat) (tx : Tx) (images : list (Z * Page)) : E (list (Z * Page * Z)) :=
  match images with
  | [] => hret []
  | (p, image) :: rest =>
      try lsn <- or_rollback (now (i + 1)%nat) tx (log (now i) PageInsert (tx_id tx) (to_be 8 p ++ image));
      try more <- log_pages now (i + 1) tx rest;
      hret ((p, image, lsn) :: more)
  end.

(** Phase 4: the committed images, stamped. *)
Fixpoint write_pages (images : list (Z * Page * Z)) : E unit :=
  match images with
  | [] => hret tt
  | (p, image, lsn) :: rest =>
      try _ <- on_pages (ps_write p (stamp_lsn image lsn));
      write_pages rest
  end.

(** Phases 2 to 4. *)
Definition commit_pages (now : nat -> Z) (tx : Tx) (pend : gmap Z Page) : E unit :=
  try logged <- log_pages now 0 tx (sorted_pages pend);
  try _ <- commit_transaction (now (length logged)) tx;
  write_pages logged.

(** [let _ = ..]. *)
Definition ignore {A} (m : E A) : E unit := fun e =>
  match m e with Some (_, e1) => Some (Ok tt, e1) | None => None end.

Fixpoint index_properties (entity : Z) (l : list (ValueType * list Z * SlotRef)) : E unit :=
  match l with
  | [] => hret tt
  | (t, payload, s) :: rest =>
      try _ <- ignore (insert_property_index entity 0 t payload s);
      index_properties entity rest
  end.

Definition set_node_first (n : NodeRecord) (p : SlotRef) : NodeRecord :=
  mkNode (node_id n) (label_id n) (first_outgoing_edge n) (first_incoming_edge n) p (nr_flags n)
    (nr_generation n) (nr_pad n).
Definition set_edge_first (e : EdgeRecord) (p : SlotRef) : EdgeRecord :=
  mkEdge (edge_id e) (source_id e) (target_id e) (type_id e) (source_node e) (target_node e)
    (prev_source_edge e) (next_source_edge e) (prev_target_edge e) (next_target_edge e) p
    (er_flags e) (er_generation e) (er_pad e).

Definition create_node_atomic (turns : list Turn) (now : nat -> Z) (node : NodeRecord)
    (properties : list PropertyRecord) : E SlotRef :=
  if node_id node =? 0 then hfail SeInvalidId else
  let k := node_id_key (node_id node) in
  try found <- search_index NodeIndex k;
  match found with
  | Some _ => hfail SeAlreadyExists
  | None =>
      try tx <- autocommit turns (now 0%nat) (node_resource_id (node_id node));
      try y <- prepare_properties (now 0%nat) tx (rev properties) SLOT_NULL ∅;
      try x <- or_rollback (now 0%nat) tx
        (on_pending_list NodePages
           (prepare_into_pending (node_encode (set_node_first node y.1.1)) PtSlottedData) y.2);
      try _ <- commit_pages now tx x.2;
      let value := encode_slot_ref x.1 in
      try _ <- on_index NodeIndex (BTree.insert k value);
      try _ <- on_index LabelIndex (BTree.insert (label_index_key (label_id node) (node_id node)) value);
      try _ <- index_properties (node_id node) y.1.2;
      hret x.1
  end.

Definition create_edge_atomic (turns : list Turn) (now : nat -> Z) (edge : EdgeRecord)
    (properties : list PropertyRecord) : E SlotRef :=
  if edge_id edge =? 0 then hfail SeInvalidId else
  let k := edge_id_key (edge_id edge) in
  try found <- search_index EdgeIndex k;
  match found with
  | Some _ => hfail SeAlreadyExists
  | None =>
      try tx <- autocommit turns (now 0%nat) (edge_resource_id (edge_id edge));
      try y <- prepare_properties (now 0%nat) tx (rev properties) SLOT_NULL ∅;
      try x <- or_rollback (now 0%nat) tx
        (on_pending_list EdgePages
           (prepare_into_pending (edge_encode (set_edge_first edge y.1.1)) PtSlottedData) y.2);
      try p1 <- (if slot_is_null (source_node edge) then hret (tt, x.2) else
        or_rollback (now 0%nat) tx (on_pending (wire_source_adjacency_pending x.1 (source_node edge)) x.2));
      try p2 <- (if slot_is_null (target_node edge) then hret (tt, p1.2) else
        or_rollback (now 0%nat) tx (on_pending (wire_target_adjacency_pending x.1 (target_node edge)) p1.2));
      try _ <- commit_pages now tx p2.2;
      let value := encode_slot_ref x.1 in
      try _ <- on_index EdgeIndex (BTree.insert k value);
      try _ <- on_index TypeIndex (BTree.insert (type_index_key (type_id edge) (edge_id edge)) value);
      try _ <- index_properties (edge_id edge) y.1.2;
      hret x.1
  end.

(** ** Whole-page passes *)

(** What a record is taken for: its length tells, and an id of 0 is refused. *)
Definition entity {A} (size : nat) (decode : list Z -> option A) (ident : A -> Z) (bytes : list Z) : option A :=
  if (length bytes =? size)%nat
  then a ← decode bytes; if ident a =? 0 then None else Some a
  else None.
Definition node_entity : list Z -> option NodeRecord := entity NODE_SIZE node_decode node_id.
Definition edge_entity : list Z -> option EdgeRecord := entity EDGE_SIZE edge_decode edge_id.

Definition entities {A} (f : list Z -> option A) (page : Page) : list A :=
  omap (fun i => read page i ≫= f) (seq 0 (slot_count page)).

(** A page whose read fails is passed over. *)
Definition read_or_skip (p : Z) : E (option Page) := fun e =>
  match ps_read p (page_manager e) with
  | Some (Ok b, s) => Some (Ok (Some b), set_pages e s)
  | Some (Err _, s) => Some (Ok None, set_pages e s)
  | None => None
  end.

(** The pages with a live record, and the number of tombstones seen. *)
Fixpoint compact_pages {A} (f : list Z -> option A) (live : A -> bool) (ids : list Z) : E (list Z * Z) :=
  match ids with
  | [] => hret ([], 0)
  | p :: rest =>
      try page <- read_or_skip p;
      try more <- compact_pages f live rest;
      hret (match page with
            | None => more
            | Some b =>
                let l := entities f b in
                ((if existsb live l then p :: more.1 else more.1),
                 more.2 + Z.of_nat (length (filter (fun a => live a = false) l)))
            end)
  end.

Definition retain (ids : list Z) (free : list SlotRef) : list SlotRef :=
  filter (fun s => slot_page_id s ∈ ids) free.

Definition compact (now : nat -> Z) : E Z :=
  try _ <- log (now 0%nat) CompactionBegin 0 [];
  try ids <- gets node_pages;
  try n <- compact_pages node_entity live_node ids;
  try _ <- modify (fun e => set_free (set_list NodePages e n.1) (retain n.1 (node_free_list e)) (edge_free_list e));
  try ids <- gets edge_pages;
  try m <- compact_pages edge_entity live_edge_rec ids;
  try _ <- modify (fun e => set_free (set_list EdgePages e m.1) (node_free_list e) (retain m.1 (edge_free_list e)));
  try _ <- log (now 1%nat) CompactionEnd 0 (to_be 8 (n.2 + m.2));
  hret (n.2 + m.2).

Fixpoint collect_entities {A} (f : list Z -> option A) (ids : list Z) : E (list A) :=
  match ids with
  | [] => hret []
  | p :: rest =>
      try page <- read_or_skip p;
      try more <- collect_entities f rest;
      hret ((match page with Some b => entities f b | None => [] end) ++ more)
  end.

Definition freeze_adjacency : E CsrAdjacency :=
  try ids <- gets edge_pages;
  try es <- collect_entities edge_entity ids;
  try ids <- gets node_pages;
  try ns <- collect_entities node_entity ids;
  match build (foldl add_node (foldl add_edge cb_new es) ns) with
  | None => hpanic
  | Some c =>
      try _ <- modify (fun e => set_csr e (freeze (csr e) c));
      hret c
  end.

Definition thaw_adjacency : E unit := modify (fun e => set_csr e (thaw (csr e))).

(** Rebuilding the indexes on open; [allocated] is the page manager's list of
    allocated pages. *)
Definition index_node (s : SlotRef) (n : NodeRecord) : E unit :=
  try _ <- modify (fun e => set_ids e (observe (id_allocator e) (node_id n)));
  if live_node n then
    try _ <- ignore (on_index NodeIndex (BTree.insert (node_id_key (node_id n)) (encode_slot_ref s)));
    ignore (on_index LabelIndex (BTree.insert (label_index_key (label_id n) (node_id n)) (encode_slot_ref s)))
  else hret tt.
Definition index_edge (s : SlotRef) (r : EdgeRecord) : E unit :=
  try _ <- modify (fun e => set_ids e (observe (id_allocator e) (edge_id r)));
  if live_edge_rec r then
    try _ <- ignore (on_index EdgeIndex (BTree.insert (edge_id_key (edge_id r)) (encode_slot_ref s)));
    ignore (on_index TypeIndex (BTree.insert (type_index_key (type_id r) (edge_id r)) (encode_slot_ref s)))
  else hret tt.

(** The slots of a page from [i], [n] of them; whether nodes and edges were seen. *)
Fixpoint index_slots (p : Z) (page : Page) (n i : nat) (seen : bool * bool) : E (bool * bool) :=
  match n with
  | O => hret seen
  | Datatypes.S n =>
      match read page i with
      | None => index_slots p page n (i + 1) seen
      | Some bytes =>
          let s := slot_new (wrap 32 p) (wrap 8 (Z.of_nat i)) in
          try _ <- match node_entity bytes with Some r => index_node s r | None => hret tt end;
          try _ <- match edge_entity bytes with Some r => index_edge s r | None => hret tt end;
          index_slots p page n (i + 1)
            (seen.1 || bool_decide (is_Some (node_entity bytes)), seen.2 || bool_decide (is_Some (edge_entity bytes)))
      end
  end.

Definition push_new (p : Z) (l : list Z) : list Z := if bool_decide (p ∈ l) then l else l ++ [p].

Fixpoint rebuild_indexes (allocated : list Z) : E unit :=
  match allocated with
  | [] => hret tt
  | p :: rest =>
      if (p <? FIRST_DATA_PAGE_ID) || is_bitmap_page p then rebuild_indexes rest else
      try page <- (fun e => match on_pages (ps_read p) e with
                            | Some (Err _, e1) => Some (Err SeIoError, e1) | r => r end);
      try seen <- index_slots p page (slot_count page) 0 (false, false);
      try _ <- modify (fun e => if seen.1 then set_list NodePages e (push_new p (node_pages e)) else e);
      try _ <- modify (fun e => if seen.2 then set_list EdgePages e (push_new p (edge_pages e)) else e);
      rebuild_indexes rest
  end.

End Engine.
