(* ===== verification/GraphEngineSpec.v ===== *)
(** * The parts of the graph engine under calm conditions

    One transaction of the engine on an idle transaction manager, the B+ trees
    as maps from encoded keys to slots, and the pending layer written back:
    what each step of an engine operation does when no fault intervenes. *)

From stdpp Require Import prelude list gmap sorting.
From Stdlib Require Import ZArith Lia.
From S2P Require Import Prelude Bytes Checksum Mvcc TxState LockTable WalRecord WalLog TxManager ValueCodec Key.
From S2P Require Import SlottedPage BTreePage BTree BTreeNode BTreeSpec BTreeInsert BTreeRange BTreeDelete BTreeMap.
From S2P Require Import HeapPage GraphRecord Adjacency Csr GraphHeap GraphHeapSpec GraphWire GraphEngine.

(** ** The journal *)

Section Journal.
Context {W : Type} `{WL : WalLog W}.

(** The longest payload the engine logs is a page image with its page id. *)
Definition LOG_ROOM : nat := 8 + PAGE_SIZE.

(** The next [n] appends (of records with room in the log's buffer) and flushes
    of the log succeed. *)
Fixpoint wal_calm (n : nat) (w : W) : Prop :=
  match n with
  | O => True
  | Datatypes.S n =>
      (forall r, (length (WalRecord.payload r) <= LOG_ROOM)%nat -> exists l w', wal_append r w = (Ok l, w') /\ wal_calm n w') /\
      (exists w', wal_flush w = (Ok tt, w') /\ wal_calm n w')
  end.

(** The log never fails. *)
Definition wal_steady (w : W) : Prop := forall n, wal_calm n w.

Lemma steady_append w r : wal_steady w -> (length (WalRecord.payload r) <= LOG_ROOM)%nat -> exists l w', wal_append r w = (Ok l, w') /\ wal_steady w'.
Proof.
  intros Hw Hr. destruct (Hw 1%nat) as [Ha _]. destruct (Ha r Hr) as (l & w' & E & _). exists l, w'. split; [done|].
  intros n. destruct (Hw (Datatypes.S n)) as [Hn _]. destruct (Hn r Hr) as (l1 & w1 & E1 & Hc). rewrite E in E1. by injection E1 as <- <-.
Qed.

Lemma steady_flush w : wal_steady w -> exists w', wal_flush w = (Ok tt, w') /\ wal_steady w'.
Proof.
  intros Hw. destruct (Hw 1%nat) as [_ (w' & E & _)]. exists w'. split; [done|].
  intros n. destruct (Hw (Datatypes.S n)) as [_ (w1 & E1 & Hc)]. rewrite E in E1. by injection E1 as <-.
Qed.
End Journal.

(** No transaction holds or waits for anything. *)
Record tm_idle (m : TransactionManager) : Prop := {
  idle_table : length (shards (lock_table m)) = N_SHARDS;
  idle_entry : forall r, entry_of (lock_table m) r = None;
  idle_registry : abort_registry m = ∅;
  idle_isolation : default_isolation m ≠ Serializable
}.

Lemma tm_new_idle : tm_idle tm_new.
Proof. split; [apply length_replicate|apply entry_of_new|done|done]. Qed.

(** One transaction, holding the exclusive lock on [r] and nothing else. *)
Record tm_busy (m : TransactionManager) (tx : Transaction unit) (r : Z) : Prop := {
  busy_status : tx_status tx = Active;
  busy_isolation : tx_isolation tx ≠ Serializable;
  busy_held : held_locks tx = [r];
  busy_ranges : read_ranges tx = [];
  busy_table : length (shards (lock_table m)) = N_SHARDS;
  busy_entry : forall r', entry_of (lock_table m) r' =
    if decide (r = r') then Some (mkEntry [LockTable.mkHolder (tx_id tx) Exclusive] []) else None;
  busy_registry : abort_registry m = ∅;
  busy_default : default_isolation m ≠ Serializable
}.

Lemma begin_idle m : tm_idle m ->
  exists (tx : Transaction unit) m1, begin m = (tx, m1) /\ tm_idle m1 /\ tx_status tx = Active /\
    tx_isolation tx ≠ Serializable /\ held_locks tx = [] /\ read_ranges tx = [].
Proof.
  intros [Ht He Hr Hi]. unfold begin, begin_with_isolation. destruct (begin_tx (global_state m)) as [[x sn] g].
  by eexists _, _.
Qed.

Lemma acquire_idle m (tx : Transaction unit) r turns : tm_idle m -> turns ≠ [] ->
  tx_status tx = Active -> tx_isolation tx ≠ Serializable -> held_locks tx = [] -> read_ranges tx = [] ->
  exists m' tx', acquire_lock m tx r Exclusive turns = (Some (Ok tt), (m', tx')) /\ tm_busy m' tx' r.
Proof.
  intros [Ht He Hr Hi] Hn Ha Hs Hh Hrr. destruct turns as [|t ts]; [done|]. unfold acquire_lock, tx_is_active.
  rewrite bool_decide_true by done. unfold registry_is_aborted. rewrite Hr, bool_decide_false by set_solver. simpl.
  pose proof (try_acquire_res (lock_table m) r (tx_id tx) Exclusive) as Eres.
  pose proof (fun r' => try_acquire_entry (lock_table m) r (tx_id tx) Exclusive r' Ht) as Eent.
  pose proof (try_acquire_length (lock_table m) r (tx_id tx) Exclusive) as Elen.
  destruct (try_acquire (lock_table m) r (tx_id tx) Exclusive) as [[res rx] lt]. rewrite He in Eres, Eent. simpl in *.
  injection Eres as -> ->. eexists _, _. split; [done|]. split; simpl; try done.
  - by rewrite Hh.
  - by rewrite Elen.
  - intros r'. rewrite Eent. by case_decide; [|apply He].
Qed.

Lemma release_busy t r x : length (shards t) = N_SHARDS ->
  (forall r', entry_of t r' = if decide (r = r') then Some (mkEntry [LockTable.mkHolder x Exclusive] []) else None) ->
  length (shards (release t r x).1) = N_SHARDS /\ forall r', entry_of (release t r x).1 r' = None.
Proof.
  intros Hl He. split; [by rewrite release_length|]. intros r'. rewrite release_entry by done. rewrite !He.
  case_decide; [subst|done]. rewrite decide_True by done. cbn [mbind option_bind]. unfold entry_release, remove_holder. cbn. by rewrite ?Z.eqb_refl.
Qed.

Section Steps.
Context {S : Type} `{PS : PageStore S} `{CS : Checksums} {W : Type} `{WL : WalLog W}.
Implicit Types (e : Engine S W).

Lemma autocommit_spec e turns now r : tm_idle (txn_manager e) -> turns ≠ [] ->
  exists tx m, autocommit turns now r e = Some (Ok tx, set_journal e m (wal_writer e)) /\ tm_busy m tx r.
Proof.
  intros Hi Ht. destruct (begin_idle _ Hi) as (tx & m1 & E & Hi1 & Ha & Hs & Hh & Hr).
  destruct (acquire_idle m1 tx r turns Hi1 Ht Ha Hs Hh Hr) as (m2 & tx2 & E2 & Hb).
  exists tx2, m2. split; [|done]. unfold autocommit, hbind, begin_transaction. rewrite E.
  unfold lock_exclusive. cbn. by rewrite E2.
Qed.

(** Committing the transaction succeeds on a log that does not fail, and leaves
    the manager idle. *)
Definition commit_ready (m : TransactionManager) (tx : Transaction unit) : Prop :=
  forall w now, wal_steady w -> exists m' tx' w', commit m tx w now = (Ok tt, (m', tx', w')) /\ tm_idle m' /\ wal_steady w'.

Lemma busy_ready m tx r : tm_busy m tx r -> commit_ready m tx.
Proof.
  intros [Ha Hs Hh Hr Ht He Hg Hd] w now Hw. unfold commit, tx_is_active. rewrite bool_decide_true by done. rewrite bool_decide_false by done.
  cbn [negb andb]. destruct (steady_append _ (record_new RtCommit (tx_id tx) 0 0 [] now) Hw) as (l & w1 & -> & Hw1); [simpl; lia|].
  destruct (steady_flush _ Hw1) as (w2 & -> & Hc).
  unfold release_held. rewrite Hh, Hr. cbn [LockTable.release_all].
  destruct (release_busy _ _ _ Ht He) as [Hl Hn].
  destruct (release (lock_table m) r (tx_id tx)) as [lt sent]. simpl in *.
  eexists _, _, _. split; [done|]. split; [|done]. split; simpl; done.
Qed.

(** A transaction that took no lock. *)
Lemma begun_ready m : tm_idle m -> exists (tx : Transaction unit) m1, begin m = (tx, m1) /\ commit_ready m1 tx.
Proof.
  intros Hi. destruct (begin_idle m Hi) as (tx & m1 & E & [Ht He Hg Hd] & Ha & Hs & Hh & Hr). exists tx, m1. split; [done|].
  intros w now Hw. unfold commit, tx_is_active. rewrite bool_decide_true by done. rewrite bool_decide_false by done.
  cbn [negb andb]. destruct (steady_append _ (record_new RtCommit (tx_id tx) 0 0 [] now) Hw) as (l & w1 & -> & Hw1); [simpl; lia|].
  destruct (steady_flush _ Hw1) as (w2 & -> & Hc). unfold release_held. rewrite Hh, Hr. cbn [LockTable.release_all].
  eexists _, _, _. split; [done|]. split; [|done]. split; simpl; done.
Qed.

Lemma commit_ready_spec e tx now : commit_ready (txn_manager e) tx -> wal_steady (wal_writer e) ->
  exists m w, commit_transaction now tx e = Some (Ok tt, set_journal e m w) /\ tm_idle m /\ wal_steady w.
Proof.
  intros Hr Hw. destruct (Hr (wal_writer e) now Hw) as (m & tx' & w & E & Hi & Hw'). exists m, w.
  unfold commit_transaction. by rewrite E.
Qed.

Lemma commit_spec e tx r now : tm_busy (txn_manager e) tx r -> wal_steady (wal_writer e) ->
  exists m w, commit_transaction now tx e = Some (Ok tt, set_journal e m w) /\ tm_idle m /\ wal_steady w.
Proof. intros Hb. by apply commit_ready_spec, (busy_ready _ _ r). Qed.

Lemma log_spec e now t x payload : wal_steady (wal_writer e) -> (length payload <= LOG_ROOM)%nat ->
  exists lsn w, log now t x payload e = Some (Ok lsn, set_wal e lsn w) /\ wal_steady w.
Proof.
  intros Hw Hp. unfold log. destruct (steady_append _ (record_new t x 0 (current_wal_lsn e) payload now) Hw Hp) as (l & w & -> & Hc). eauto.
Qed.

Lemma or_rollback_ok {A} now tx (m : H (Engine S W) A) e a e1 :
  m e = Some (Ok a, e1) -> or_rollback now tx m e = Some (Ok a, e1).
Proof. intros E. unfold or_rollback. by rewrite E. Qed.

End Steps.

(** ** The indexes as maps *)

Definition SLOT_BYTES : nat := 4.

(** A tree with [K]-byte keys and slots as values that stores [m] and has room
    for [n] more operations. *)
Definition index_is (K n : nat) (t : BPlusTree) (m : gmap (list Z) (list Z)) : Prop :=
  exists kvs, btree_inv K SLOT_BYTES t kvs /\ m = to_map kvs /\ roomy K (length kvs + n) /\
    next_page_id t + 65 * Z.of_nat n < 2 ^ 63.

Section Index.
Context (K : nat) (HK : widths_ok K SLOT_BYTES).

Lemma index_is_le n n' t m : (n' <= n)%nat -> index_is K n t m -> index_is K n' t m.
Proof.
  intros Hn (kvs & Hi & Hm & Hr & Hb). exists kvs. split_and!; try done; [|lia].
  eapply (roomy_mono K SLOT_BYTES HK); [exact Hr|lia].
Qed.

Lemma index_insert n t m k v : index_is K (S n) t m -> key_ok K k -> val_ok SLOT_BYTES v ->
  exists t', BTree.insert k v t = Some (Ok tt, t') /\ index_is K n t' (<[k := v]> m).
Proof.
  intros (kvs & Hi & -> & Hr & Hb) Hk Hv.
  destruct (run_op_spec K SLOT_BYTES HK t kvs (OpInsert k v) Hi) as (x & t' & kvs' & E & Hi' & Hs & Hl & Hn);
    [done|eapply (roomy_mono K SLOT_BYTES HK); [exact Hr|lia]|lia|].
  simpl in E. destruct (BTree.insert k v t) as [[[[]|] t1]|]; simplify_eq. simpl in Hs. exists t'. split; [done|].
  exists kvs'. split_and!; try done; [|lia]. eapply (roomy_mono K SLOT_BYTES HK); [exact Hr|lia].
Qed.

Lemma index_delete n t m k : index_is K (S n) t m ->
  exists f t', tree_delete config_default k t = Some (Ok f, t') /\ index_is K n t' (base.delete k m).
Proof.
  intros (kvs & Hi & -> & Hr & Hb).
  destruct (run_op_spec K SLOT_BYTES HK t kvs (OpDelete k) Hi) as (x & t' & kvs' & E & Hi' & Hs & Hl & Hn);
    [done|eapply (roomy_mono K SLOT_BYTES HK); [exact Hr|lia]|lia|].
  simpl in E. destruct (tree_delete config_default k t) as [[[f|] t1]|]; simplify_eq. simpl in Hs. exists f, t'.
  split; [done|]. exists kvs'. destruct Hs as [_ Hs]. split_and!; try done; [|lia].
  eapply (roomy_mono K SLOT_BYTES HK); [exact Hr|lia].
Qed.

Lemma index_search n t m k : index_is K n t m ->
  exists r, search t k = Some r /\ (r = None <-> m !! k = None) /\
    forall v, m !! k = Some v -> exists id slot page kv, r = Some (id, slot) /\ pages t !! id = Some page /\
      key page slot = Some kv /\ decode_kv kv = Some (k, v).
Proof.
  intros (kvs & Hi & -> & _ & _). destruct (search_spec K SLOT_BYTES HK t kvs k Hi) as (r & E & Ha & Hn).
  exists r. rewrite to_map_lookup. split_and!; [done|done|]. intros v Hv. rewrite Hv in Ha.
  unfold search_answer in Ha. destruct r as [[id slot]|]; [|done]. cbn [mbind option_bind] in Ha.
  destruct (pages t !! id) as [page|] eqn:Ep; [|done]. cbn [mbind option_bind] in Ha. unfold leaf_entry in Ha.
  destruct (key page slot) as [kv|] eqn:Ek; [|done]. cbn [mbind option_bind] in Ha.
  destruct (decode_kv kv) as [[k' v']|] eqn:Ed; [|done]. cbn in Ha.
  destruct (bytes_eqbP k' k) as [->|]; [|done]. injection Ha as ->. by exists id, slot, page, kv.
Qed.

Lemma index_range n t m a b : index_is K n t m -> exists l, range_search t a b = Some l /\ range_of m a b l.
Proof.
  intros (kvs & Hi & -> & _ & _). rewrite (range_search_spec K SLOT_BYTES HK t kvs a b Hi). eexists. split; [done|].
  eapply range_of_map; [exact HK|]. eapply inv_sorted; [exact HK|exact Hi].
Qed.
End Index.

Lemma encode_slot_val s : slot_ok s -> val_ok SLOT_BYTES (encode_slot_ref s).
Proof. intros Hs. split; [apply length_to_be|]. apply to_be_ok. Qed.

Lemma decode_encode_slot s : slot_ok s -> decode_slot_ref (encode_slot_ref s) = Some s.
Proof.
  intros Hs. unfold decode_slot_ref, encode_slot_ref. rewrite length_to_be. change (4 <? 4)%nat with false. cbn iota.
  rewrite take_ge by (by rewrite length_to_be). rewrite from_to_be_id by exact Hs. by destruct s.
Qed.

Section EngineIndex.
Context {S : Type} `{PS : PageStore S} `{CS : Checksums} {W : Type} `{WL : WalLog W}.
Context (K : nat) (HK : widths_ok K SLOT_BYTES).
Implicit Types (e : Engine S W).

Lemma on_index_insert e x n m k s : index_is K (Datatypes.S n) (index_of x e) m -> key_ok K k -> slot_ok s ->
  exists t, on_index x (BTree.insert k (encode_slot_ref s)) e = Some (Ok tt, set_index x e t) /\
    index_is K n t (<[k := encode_slot_ref s]> m).
Proof.
  intros Hi Hk Hs. destruct (index_insert K HK n _ m k (encode_slot_ref s) Hi Hk (encode_slot_val s Hs)) as (t & E & Ht).
  exists t. unfold on_index. by rewrite E.
Qed.

Lemma on_index_delete e x n m k : index_is K (Datatypes.S n) (index_of x e) m ->
  exists f t, on_index x (tree_delete config_default k) e = Some (Ok f, set_index x e t) /\
    index_is K n t (base.delete k m).
Proof.
  intros Hi. destruct (index_delete K HK n _ m k Hi) as (f & t & E & Ht). exists f, t. unfold on_index. by rewrite E.
Qed.

(** The slot stored under a key, when the map holds encoded slots. *)
Lemma lookup_slot_spec e x n m k (o : option SlotRef) :
  index_is K n (index_of x e) m -> m !! k = encode_slot_ref <$> o -> (forall s, o = Some s -> slot_ok s) ->
  lookup_slot x k e = Some (Ok o, e).
Proof.
  intros Hi Hm Ho. destruct (index_search K HK n _ m k Hi) as (r & E & Hn & Hv). unfold lookup_slot. rewrite E.
  destruct o as [s|]; simpl in Hm.
  - destruct (Hv _ Hm) as (id & slot & page & kv & -> & -> & -> & Hd). unfold decode_kv in Hd.
    destruct (_ <? 2)%nat; [done|]. cbv zeta in *. destruct (_ <? _)%nat; [done|]. apply (inj Some), pair_equal_spec in Hd as [_ ->].
    by rewrite decode_encode_slot by (by apply Ho).
  - apply Hn in Hm as ->. done.
Qed.

Lemma search_absent t n m k : index_is K n t m -> m !! k = None -> search t k = Some None.
Proof. intros Hi Hm. destruct (index_search K HK n _ m k Hi) as (r & E & Hn & _). by apply Hn in Hm as <-. Qed.

Lemma search_present t n m k v : index_is K n t m -> m !! k = Some v -> exists r, search t k = Some (Some r).
Proof.
  intros Hi Hm. destruct (index_search K HK n _ m k Hi) as (r & E & _ & Hv).
  destruct (Hv _ Hm) as (id & slot & ? & ? & -> & _). eauto.
Qed.
End EngineIndex.

(** ** Writing the pending pages back *)

Lemma like_stamp b lsn : like b (stamp_lsn b lsn).
Proof.
  intros lens Hp. apply packed_header; [done|apply to_be_ok|]. rewrite length_to_be. unfold FREE_OFF. lia.
Qed.

Section Commit.
Context {S : Type} `{HL : PageStoreLaws S} `{CS : Checksums} {W : Type} `{WL : WalLog W}.
Implicit Types (e : Engine S W) (s : S) (D : gset Z).

Lemma write_pages_spec n images : forall e,
  ps_calm n (page_manager e) -> NoDup (images.*1.*1) ->
  (forall p b lsn, (p, b, lsn) ∈ images -> ps_used (page_manager e) p /\ stored b) ->
  exists s, write_pages images e = Some (Ok tt, set_pages e s) /\ ps_calm n s /\
    (forall p b lsn, (p, b, lsn) ∈ images -> exists b', ps_image s p = Some b' /\ like b b') /\
    (forall p, p ∉ images.*1.*1 -> ps_image s p = ps_image (page_manager e) p).
Proof.
  induction images as [|[[p b] lsn] images IH]; intros e Hc Hnd Hall.
  - exists (page_manager e). split_and!; try done; [by destruct e|]. intros ??? H%elem_of_nil. done.
  - inversion_clear Hnd as [|? ? Hni Hnd'].
    destruct (Hall p b lsn ltac:(left)) as [Hu [lens [Hp Hne]]].
    destruct (like_stamp b lsn lens Hp) as [Hps _].
    destruct (ps_write_ok n (page_manager e) p (stamp_lsn b lsn) Hc Hu ltac:(by exists lens)) as (s1 & b1 & E & Hc1 & Hi1 & Hl1 & Ho1 & Hu1).
    destruct (IH (set_pages e s1)) as (s2 & E2 & Hc2 & Hin2 & Hout2); [done|done| |].
    { intros q b' l' Hin. simpl. rewrite Hu1. apply (Hall q b' l'). by right. }
    exists s2. cbn [write_pages]. unfold hbind, on_pages. rewrite E, E2. simpl in *. split_and!; try done.
    + intros q b' l' [Heq|Hin]%elem_of_cons; [|by eapply Hin2]. injection Heq as -> -> ->.
      rewrite Hout2, Hi1 by done. exists b1. split; [done|]. eapply like_trans; [apply like_stamp|done].
    + intros q Hq. rewrite Hout2, Ho1; [done| |]; set_solver.
Qed.

Lemma log_pages_spec now tx images : (forall p b, (p, b) ∈ images -> length b = PAGE_SIZE) -> forall i e, wal_steady (wal_writer e) ->
  exists logged l w, log_pages now i tx images e = Some (Ok logged, set_wal e l w) /\ wal_steady w /\
    logged.*1 = images.
Proof.
  intros Hlen. induction images as [|[p b] images IH]; intros i e Hw.
  - exists [], (current_wal_lsn e), (wal_writer e). split_and!; try done. by destruct e.
  - destruct (log_spec e (now i) PageInsert (tx_id tx) (to_be 8 p ++ b) Hw) as (lsn & w1 & E & Hw1).
    { rewrite length_app, length_to_be, (Hlen p b) by left. unfold LOG_ROOM. lia. }
    destruct (IH ltac:(intros q c Hq; apply (Hlen q c); by right) (i + 1)%nat (set_wal e lsn w1) Hw1) as (logged & l & w & E2 & Hw2 & Hl).
    exists ((p, b, lsn) :: logged), l, w. cbn [log_pages]. unfold hbind.
    rewrite (or_rollback_ok _ _ _ _ _ _ E), E2. split_and!; try done. by rewrite fmap_cons, Hl.
Qed.
Lemma sorted_pages_elem (pend : gmap Z Page) p b : (p, b) ∈ sorted_pages pend <-> pend !! p = Some b.
Proof. unfold sorted_pages. rewrite merge_sort_Permutation. apply elem_of_map_to_list. Qed.

Lemma sorted_pages_nodup (pend : gmap Z Page) : NoDup (sorted_pages pend).*1.
Proof. unfold sorted_pages. rewrite merge_sort_Permutation. apply NoDup_fst_map_to_list. Qed.

(** A store whose pages read like those of the layer holds the same records. *)
Lemma like_records (o : Overlay S) s D :
  (forall p b, ps_image o p = Some b -> exists b', ps_image s p = Some b' /\ like b b') ->
  heap_ok MIN_RECORD D o -> heap_ok MIN_RECORD D s /\ forall x, hrec D s x = hrec D o x.
Proof.
  intros Hl Hh. split.
  - intros p Hp. destruct (Hh p Hp) as [Hr (b & lens & Hb & Hpk & Hmin)]. split; [done|].
    destruct (Hl p b Hb) as (b' & Hb' & Hlk). exists b', lens. by destruct (Hlk lens Hpk).
  - intros x. unfold hrec. case_decide as Hx; [|done]. destruct Hx as [_ Hx].
    destruct (Hh _ Hx) as [_ (b & lens & Hb & Hpk & _)]. destruct (Hl _ b Hb) as (b' & Hb' & Hlk).
    rewrite Hb, Hb'. cbn. by destruct (Hlk lens Hpk) as [_ ->].
Qed.

(** Committing the pending layer: the store reads as the layer did. *)
Lemma commit_pages_spec n D e now tx pend :
  good n D (mkOverlay pend (page_manager e)) -> commit_ready (txn_manager e) tx ->
  wal_steady (wal_writer e) ->
  exists s l m w, commit_pages now tx pend e = Some (Ok tt, set_pages (set_journal (set_wal e l w) m w) s) /\
    good n D s /\ (forall x, hrec D s x = hrec D (mkOverlay pend (page_manager e)) x) /\ tm_idle m /\ wal_steady w /\
    same_slots D (mkOverlay pend (page_manager e)) s.
Proof.
  intros [[Hc Hpend] Hh] Hb Hw. simpl in Hc, Hpend.
  destruct (log_pages_spec now tx (sorted_pages pend)) with (i := 0%nat) (e := e) as (logged & l & w1 & E1 & Hw1 & Hl); [|done|].
  { intros p b Hin%sorted_pages_elem. destruct (Hpend p b Hin) as (_ & lens & Hpk & _). apply (pk_base _ _ Hpk). }
  destruct (commit_ready_spec (set_wal e l w1) tx (now (length logged)) Hb Hw1) as (m & w & E2 & Hi & Hw2).
  destruct (write_pages_spec n logged (set_journal (set_wal e l w1) m w)) as (s & E3 & Hc3 & Hin & Hout).
  - done.
  - rewrite Hl. apply sorted_pages_nodup.
  - intros p b lsn Hin. simpl. apply Hpend, sorted_pages_elem. rewrite <- Hl. by apply (list_elem_of_fmap_2 fst) in Hin.
  - destruct (like_records (mkOverlay pend (page_manager e)) s D) as [Hh' Hrec]; [|done|].
    { intros p b. simpl. unfold overlay_image. simpl. destruct (pend !! p) as [b0|] eqn:Ep.
      - intros [= ->]. apply sorted_pages_elem in Ep. rewrite <- Hl in Ep.
        apply list_elem_of_fmap in Ep as ([[q b0] lsn] & [= -> ->] & Hel). by eapply Hin.
      - intros Hb'. rewrite Hout; [exists b; split; [done|apply like_refl]|]. rewrite Hl.
        intros ([q b0] & -> & Hel)%list_elem_of_fmap. apply sorted_pages_elem in Hel. simpl in Ep. congruence. }
    exists s, l, m, w. unfold commit_pages, hbind. rewrite E1, E2, E3. split_and!; try done.
    split; [intros x; by rewrite Hrec|]. intros p Hp. simpl. unfold overlay_image. simpl. destruct (pend !! p) eqn:Ep; [done|].
    rewrite Hout in Hp; [done|]. rewrite Hl. intros ([q b0] & -> & Hel)%list_elem_of_fmap. apply sorted_pages_elem in Hel. simpl in Ep. congruence.
Qed.
End Commit.
