(* ===== verification/GraphHeapRep.v ===== *)
(** * Graphs on the record heap

    The abstract graph - nodes, edges, and per node and direction the list of
    its edges, newest first - and what it means for a record heap to hold it.
    Inserting records, wiring and unwiring edges, and marking records deleted
    keep that relation. *)

From stdpp Require Import prelude list gmap.
From Stdlib Require Import ZArith Lia.
From S2P Require Import Prelude Bytes Checksum SlottedPage HeapPage GraphRecord Adjacency.
From S2P Require Import GraphHeap GraphHeapSpec GraphWire GraphEngine.

#[global] Instance Direction_eq_dec : EqDecision Direction.
Proof. solve_decision. Defined.

(** ** The abstract graph *)

Record ANode := mkAN { an_slot : SlotRef; an_label : Z; an_deleted : bool }.
Record AEdge := mkAE { ae_slot : SlotRef; ae_type : Z; ae_src : Z; ae_dst : Z; ae_deleted : bool }.

Record Graph := mkGraph {
  g_nodes : gmap Z ANode;
  g_edges : gmap Z AEdge;
  g_adj : Direction -> Z -> list Z
}.

Definition graph_empty : Graph := mkGraph ∅ ∅ (fun _ _ => []).

Definition ae_end (d : Direction) (b : AEdge) : Z := match d with Out => ae_src b | In => ae_dst b end.

Definition set_adj (G : Graph) (d : Direction) (n : Z) (l : list Z) : Graph :=
  mkGraph (g_nodes G) (g_edges G)
    (fun d' n' => if decide (d' = d /\ n' = n) then l else g_adj G d' n').
Definition put_anode (G : Graph) (id : Z) (a : ANode) : Graph :=
  mkGraph (<[id := a]> (g_nodes G)) (g_edges G) (g_adj G).
Definition put_aedge (G : Graph) (id : Z) (b : AEdge) : Graph :=
  mkGraph (g_nodes G) (<[id := b]> (g_edges G)) (g_adj G).

Definition slot_of (G : Graph) (e : Z) : SlotRef := default SLOT_NULL (ae_slot <$> g_edges G !! e).
Definition adj_slots (G : Graph) (d : Direction) (n : Z) : list SlotRef := slot_of G <$> g_adj G d n.

(** ** Representation *)

Definition node_rep (G : Graph) (id : Z) (a : ANode) (nd : NodeRecord) : Prop :=
  node_id nd = id /\ label_id nd = an_label a /\ live_node nd = negb (an_deleted a) /\
  nr_first_property nd = SLOT_NULL /\ forall d, first_of d nd = head_of (adj_slots G d id).

Definition edge_rep (G : Graph) (id : Z) (b : AEdge) (ed : EdgeRecord) : Prop :=
  edge_id ed = id /\ type_id ed = ae_type b /\ source_id ed = ae_src b /\ target_id ed = ae_dst b /\
  live_edge_rec ed = negb (ae_deleted b) /\ er_first_property ed = SLOT_NULL /\
  forall d, exists a, g_nodes G !! ae_end d b = Some a /\ side_node (side_of d) ed = an_slot a.

Section Rep.
Context {S : Type} `{HL : PageStoreLaws S} `{CS : Checksums}.
Implicit Types (D : gset Z) (s : S) (G : Graph) (d : Direction).

Record heap_rep G D s : Prop := {
  hr_node : forall id a, g_nodes G !! id = Some a ->
    slot_is_null (an_slot a) = false /\ exists nd, node_at D s (an_slot a) = Some nd /\ node_rep G id a nd;
  hr_edge : forall id b, g_edges G !! id = Some b ->
    slot_is_null (ae_slot b) = false /\ exists ed, edge_at D s (ae_slot b) = Some ed /\ edge_rep G id b ed;
  hr_adj : forall d n e, e ∈ g_adj G d n -> exists b, g_edges G !! e = Some b /\ ae_end d b = n;
  hr_chain : forall d n, dll (side_of d) (edges D s) (adj_slots G d n);
  (* an edge that is not in its list has no links on that side *)
  hr_free : forall d id b ed, g_edges G !! id = Some b -> edge_at D s (ae_slot b) = Some ed ->
    id ∉ g_adj G d (ae_end d b) -> side_prev (side_of d) ed = SLOT_NULL /\ side_next (side_of d) ed = SLOT_NULL
}.

(** Slots identify entities: the record carries the id. *)
Lemma edge_slot_inj G D s i j b c : heap_rep G D s ->
  g_edges G !! i = Some b -> g_edges G !! j = Some c -> ae_slot b = ae_slot c -> i = j.
Proof.
  intros Hr Hi Hj E. destruct (hr_edge _ _ _ Hr i b Hi) as (_ & e1 & H1 & <- & _).
  destruct (hr_edge _ _ _ Hr j c Hj) as (_ & e2 & H2 & <- & _). rewrite E in H1. congruence.
Qed.

Lemma node_slot_inj G D s i j a c : heap_rep G D s ->
  g_nodes G !! i = Some a -> g_nodes G !! j = Some c -> an_slot a = an_slot c -> i = j.
Proof.
  intros Hr Hi Hj E. destruct (hr_node _ _ _ Hr i a Hi) as (_ & n1 & H1 & <- & _).
  destruct (hr_node _ _ _ Hr j c Hj) as (_ & n2 & H2 & <- & _). rewrite E in H1. congruence.
Qed.

Lemma adj_slot_in G D s d n x : heap_rep G D s -> x ∈ adj_slots G d n ->
  exists e b, e ∈ g_adj G d n /\ g_edges G !! e = Some b /\ ae_end d b = n /\ x = ae_slot b.
Proof.
  intros Hr (e & -> & He)%list_elem_of_fmap. destruct (hr_adj _ _ _ Hr d n e He) as (b & Hb & Hn).
  exists e, b. unfold slot_of. by rewrite Hb.
Qed.

Lemma adj_slot_elem G D s d n e b : heap_rep G D s -> g_edges G !! e = Some b ->
  ae_slot b ∈ adj_slots G d n <-> e ∈ g_adj G d n.
Proof.
  intros Hr Hb. split.
  - intros (e' & b' & He' & Hb' & _ & E)%(adj_slot_in _ _ _ _ _ _ Hr).
    by rewrite (edge_slot_inj _ _ _ _ _ _ _ Hr Hb Hb' E).
  - intros He. apply list_elem_of_fmap. exists e. unfold slot_of. by rewrite Hb.
Qed.

(** Lists of different nodes share no slot. *)
Lemma adj_slots_disjoint G D s d n m x : heap_rep G D s -> n ≠ m ->
  x ∈ adj_slots G d n -> x ∉ adj_slots G d m.
Proof.
  intros Hr Hne (e & b & He & Hb & Hn & ->)%(adj_slot_in _ _ _ _ _ _ Hr) (e' & b' & He' & Hb' & Hm & E)%(adj_slot_in _ _ _ _ _ _ Hr).
  assert (e = e') as <- by (by eapply edge_slot_inj). congruence.
Qed.

(** ** Growing the heap *)

(** A fresh record disturbs nothing. *)
Lemma inserted_mono n D D' s s' r bs : inserted n D D' s s' r bs ->
  (forall x y, node_at D s x = Some y -> node_at D' s' x = Some y) /\
  (forall x y, edge_at D s x = Some y -> edge_at D' s' x = Some y).
Proof.
  intros Hi. unfold node_at, edge_at. split; intros x y Hx;
    (destruct (decide (x = r)) as [->|Hne]; [by rewrite (ins_fresh _ _ _ _ _ _ _ Hi) in Hx|];
     by rewrite (ins_other _ _ _ _ _ _ _ Hi x Hne)).
Qed.

Lemma adj_absent_node G D s d id : heap_rep G D s -> g_nodes G !! id = None -> g_adj G d id = [].
Proof.
  intros Hr Hid. destruct (g_adj G d id) as [|e l] eqn:E; [done|].
  destruct (hr_adj _ _ _ Hr d id e ltac:(rewrite E; left)) as (b & Hb & He).
  destruct (hr_edge _ _ _ Hr e b Hb) as (_ & ed & _ & _ & _ & _ & _ & _ & _ & Hd). destruct (Hd d) as (a & Ha & _). congruence.
Qed.

Lemma adj_absent_edge G D s d n e : heap_rep G D s -> g_edges G !! e = None -> e ∉ g_adj G d n.
Proof. intros Hr He Hin. destruct (hr_adj _ _ _ Hr d n e Hin) as (b & Hb & _). congruence. Qed.

Lemma put_anode_rep G D s id a nd : heap_rep G D s -> g_nodes G !! id = None ->
  node_at D s (an_slot a) = Some nd -> slot_is_null (an_slot a) = false ->
  node_id nd = id -> label_id nd = an_label a -> live_node nd = negb (an_deleted a) ->
  nr_first_property nd = SLOT_NULL -> (forall d, first_of d nd = SLOT_NULL) -> heap_rep (put_anode G id a) D s.
Proof.
  intros Hr Hid Hnd Hnull E1 E2 E3 E5 E4. split.
  - intros id' a'. simpl. destruct (decide (id' = id)) as [->|Hne].
    + rewrite lookup_insert_eq. intros [= <-]. split; [done|]. exists nd. split; [done|]. split_and!; try done.
      intros d. rewrite E4. unfold adj_slots. simpl. by rewrite (adj_absent_node _ _ _ _ _ Hr Hid).
    + rewrite lookup_insert_ne by done. apply Hr.
  - intros e b Hb. destruct (hr_edge _ _ _ Hr e b Hb) as (? & ed & ? & ? & ? & ? & ? & ? & ? & Hd). split; [done|].
    exists ed. split; [done|]. unfold edge_rep. split_and!; try done. intros d. destruct (Hd d) as (a' & Ha' & ?). exists a'. simpl.
    rewrite lookup_insert_ne by congruence. done.
  - apply Hr.
  - apply Hr.
  - apply Hr.
Qed.

Lemma slot_of_put_aedge G e b e' : e' ≠ e -> slot_of (put_aedge G e b) e' = slot_of G e'.
Proof. intros Hne. unfold slot_of. simpl. by rewrite lookup_insert_ne by done. Qed.

Lemma adj_slots_put_aedge G e b d n : e ∉ g_adj G d n -> adj_slots (put_aedge G e b) d n = adj_slots G d n.
Proof.
  intros He. unfold adj_slots. simpl. apply list_fmap_ext. intros i x Hx. apply slot_of_put_aedge.
  intros ->. apply He. by eapply list_elem_of_lookup_2.
Qed.

Lemma put_aedge_rep G D s e b ed : heap_rep G D s -> g_edges G !! e = None ->
  edge_at D s (ae_slot b) = Some ed -> slot_is_null (ae_slot b) = false -> edge_rep G e b ed ->
  (forall d, side_prev (side_of d) ed = SLOT_NULL /\ side_next (side_of d) ed = SLOT_NULL) ->
  heap_rep (put_aedge G e b) D s.
Proof.
  intros Hr He Hed Hnull Hrep Hfree.
  assert (forall d n, adj_slots (put_aedge G e b) d n = adj_slots G d n) as Hadj.
  { intros d n. by eapply adj_slots_put_aedge, adj_absent_edge. }
  split.
  - intros id a Ha. destruct (hr_node _ _ _ Hr id a Ha) as (? & nd & ? & ? & ? & ? & ? & Hf). split; [done|]. exists nd.
    split; [done|]. split_and!; try done. intros d. by rewrite Hadj, Hf.
  - intros e' b'. simpl. destruct (decide (e' = e)) as [->|Hne].
    + rewrite lookup_insert_eq. intros [= <-]. split; [done|]. by exists ed.
    + rewrite lookup_insert_ne by done. apply Hr.
  - intros d n e' He'. destruct (hr_adj _ _ _ Hr d n e' He') as (b' & Hb' & ?). exists b'. simpl.
    by rewrite lookup_insert_ne by congruence.
  - intros d n. rewrite Hadj. apply Hr.
  - intros d e' b' ed'. simpl. destruct (decide (e' = e)) as [->|Hne].
    + rewrite lookup_insert_eq. intros [= <-] Hed'. assert (ed' = ed) as -> by congruence. intros _. apply Hfree.
    + rewrite lookup_insert_ne by done. apply Hr.
Qed.

(** ** Relinking one list *)

Lemma side_of_other d d' : d' ≠ d -> other (side_of d) (side_of d').
Proof. by destruct d, d'. Qed.

(** The links of one side are no part of what an edge says. *)
Lemma edge_rep_unlinked G d id b ed ed' :
  unlinked (side_of d) ed' = unlinked (side_of d) ed -> edge_rep G id b ed -> edge_rep G id b ed'.
Proof.
  intros E (H1 & H2 & H3 & H4 & H5 & H6 & Hd). unfold edge_rep. rewrite <- H1, <- H2, <- H3, <- H4, <- H5, <- H6 at 1.
  assert (forall A (f : EdgeRecord -> A), (forall x p n, f (side_links (side_of d) x p n) = f x) -> f ed' = f ed) as Hf.
  { intros A f Hf. apply (f_equal f) in E. unfold unlinked in E. by rewrite !Hf in E. }
  split_and!; [apply (Hf _ edge_id)|apply (Hf _ type_id)|apply (Hf _ source_id)|apply (Hf _ target_id)|apply (Hf _ live_edge_rec)|apply (Hf _ er_first_property)|];
    try (intros x p n; by destruct d).
  intros d'. destruct (Hd d') as (a & Ha & Hs). exists a. split; [done|]. rewrite <- Hs. apply (Hf _ (side_node (side_of d'))).
  intros x p n. by destruct d, d'.
Qed.

Lemma relink_rep G D s s' d n a nd nd' newl (touched : list SlotRef) (v' : EView) :
  heap_rep G D s -> g_nodes G !! n = Some a -> node_at D s (an_slot a) = Some nd ->
  (forall x, edge_at D s' x = ev v' x) ->
  (forall x, node_at D s' x = if decide (x = an_slot a) then Some nd' else node_at D s x) ->
  node_id nd' = node_id nd -> label_id nd' = label_id nd -> live_node nd' = live_node nd -> nr_first_property nd' = nr_first_property nd ->
  first_of d nd' = head_of (slot_of G <$> newl) -> (forall d', d' ≠ d -> first_of d' nd' = first_of d' nd) ->
  (forall e, e ∈ newl -> exists b, g_edges G !! e = Some b /\ ae_end d b = n) ->
  dll (side_of d) v' (slot_of G <$> newl) -> same_data (side_of d) (edges D s) v' ->
  (forall x, x ∈ touched -> exists e b, g_edges G !! e = Some b /\ ae_end d b = n /\ x = ae_slot b) ->
  frame_out (edges D s) v' touched ->
  (forall e b ed, g_edges G !! e = Some b -> ae_end d b = n -> e ∉ newl -> view_read v' (ae_slot b) = Some ed ->
     side_prev (side_of d) ed = SLOT_NULL /\ side_next (side_of d) ed = SLOT_NULL) ->
  heap_rep (set_adj G d n newl) D s'.
Proof.
  intros Hr Ha Hnd He Hn E1 E2 E3 E6 E4 E5 Hnew Hdll Hsame Ht Hframe Hfree.
  assert (forall x, view_read (edges D s') x = view_read v' x) as Hv by exact He.
  assert (forall d' m, adj_slots (set_adj G d n newl) d' m =
    if decide (d' = d /\ m = n) then slot_of G <$> newl else adj_slots G d' m) as Hadj.
  { intros d' m. unfold adj_slots. simpl. by case_decide. }
  assert (forall x, view_read v' x = None <-> edge_at D s x = None) as Hnone.
  { intros x. specialize (Hsame x). simpl in *. destruct (ev v' x), (edge_at D s x); simpl in *; done. }
  split.
  - intros id a'. simpl. intros Ha'. destruct (hr_node _ _ _ Hr id a' Ha') as (Hnull & nd0 & Hnd0 & F1 & F2 & F3 & F5 & F4).
    split; [done|]. rewrite Hn. case_decide as Hs.
    + assert (id = n) as -> by (by eapply node_slot_inj). assert (nd0 = nd) as -> by congruence.
      exists nd'. split; [done|]. split_and!; try congruence. intros d'. rewrite Hadj.
      case_decide as Hd; [destruct Hd as [-> _]; done|]. rewrite E5; [apply F4|]. intros ->. by apply Hd.
    + exists nd0. split; [done|]. split_and!; try done. intros d'. rewrite Hadj, F4. case_decide as Hd; [|done].
      destruct Hd as [_ ->]. assert (a' = a) as -> by congruence. done.
  - intros id b Hb. destruct (hr_edge _ _ _ Hr id b Hb) as (Hnull & ed & Hed & Hrep). split; [done|].
    destruct (same_data_read _ _ _ _ _ Hsame Hed) as (ed' & Hed' & Hu). exists ed'. split; [by rewrite He|].
    by eapply edge_rep_unlinked.
  - intros d' m e. simpl. case_decide as Hd; [destruct Hd as [-> ->]; apply Hnew|apply Hr].
  - intros d' m. rewrite Hadj. case_decide as Hd.
    + destruct Hd as [-> ->]. by eapply dll_ext.
    + apply (dll_ext _ v'); [exact Hv|]. destruct (hr_chain _ _ _ Hr d' m) as [Hs Hnd']. split; [|done].
      destruct (decide (d' = d)) as [->|Hne]; [|eapply seg_same_data; [by apply side_of_other|exact Hsame|exact Hs]].
      apply (seg_frame (side_of d) (edges D s)); [|exact Hs]. intros x Hx. apply Hframe.
      intros (e & b & Hb & Hend & ->)%Ht. apply (adj_slot_in _ _ _ _ _ _ Hr) in Hx as (e' & b' & _ & Hb' & Hend' & E).
      assert (e = e') as <- by (by eapply edge_slot_inj). apply Hd. split; [done|congruence].
  - intros d' id b ed. simpl. intros Hb Hed. rewrite He in Hed. case_decide as Hd.
    + destruct Hd as [-> Hend]. intros Hni. by eapply Hfree.
    + intros Hni. destruct (hr_edge _ _ _ Hr id b Hb) as (_ & ed0 & Hed0 & _).
      destruct (decide (d' = d)) as [->|Hne].
      * assert (edge_at D s (ae_slot b) = Some ed) as Hed'.
        { change (view_read (edges D s) (ae_slot b) = Some ed). rewrite <- (Hframe (ae_slot b)); [done|].
          intros (e & b' & Hb' & Hend & E)%Ht. assert (e = id) as -> by (by eapply edge_slot_inj).
          apply Hd. split; [done|congruence]. }
        by eapply hr_free.
      * destruct (hr_free _ _ _ Hr d' id b ed0 Hb Hed0 Hni) as [Hp Hx].
        destruct (same_data_read _ _ _ _ _ Hsame Hed0) as (ed' & Hed' & Hu). assert (ed' = ed) as -> by (simpl in *; congruence).
        destruct (side_of_other d d' Hne ed) as [P1 P2], (side_of_other d d' Hne ed0) as [Q1 Q2].
        rewrite Hu in P1, P2. split; congruence.
Qed.

Lemma set_first_data d nd x :
  node_id (set_first d nd x) = node_id nd /\ label_id (set_first d nd x) = label_id nd /\
  live_node (set_first d nd x) = live_node nd /\ nr_first_property (set_first d nd x) = nr_first_property nd /\ first_of d (set_first d nd x) = x /\
  forall d', d' ≠ d -> first_of d' (set_first d nd x) = first_of d' nd.
Proof. destruct d; split_and!; try done; by intros []. Qed.

Lemma slot_of_lookup G e b : g_edges G !! e = Some b -> slot_of G e = ae_slot b.
Proof. intros Hb. unfold slot_of. by rewrite Hb. Qed.

(** Wiring one side of an edge puts it at the head of its list. *)
Lemma wire_rep n G D s d e b a :
  good n D s -> heap_rep G D s -> g_edges G !! e = Some b -> e ∉ g_adj G d (ae_end d b) ->
  g_nodes G !! ae_end d b = Some a ->
  exists s', wire d (ae_slot b) (an_slot a) s = Some (Ok tt, s') /\ good n D s' /\
    heap_rep (set_adj G d (ae_end d b) (e :: g_adj G d (ae_end d b))) D s' /\ same_slots D s s'.
Proof.
  intros Hg Hr Hb Hni Ha. destruct (hr_node _ _ _ Hr _ _ Ha) as (Hnull & nd & Hnd & F1 & F2 & F3 & F5 & F4).
  destruct (hr_edge _ _ _ Hr e b Hb) as (Henull & ed & Hed & Hrep).
  assert (ae_slot b ∉ adj_slots G d (ae_end d b)) as Hns by (by rewrite (adj_slot_elem _ _ _ _ _ _ _ Hr Hb)).
  assert (detached (side_of d) ed) as Hdet.
  { split; [|by eapply hr_free]. destruct Hrep as (_ & _ & _ & _ & _ & _ & Hd). destruct (Hd d) as (a' & Ha' & ->).
    rewrite Ha in Ha'. by injection Ha' as <-. }
  destruct (wire_spec n D s d (ae_slot b) (an_slot a) nd ed (adj_slots G d (ae_end d b)) Hg Hnd (F4 d)
              (hr_chain _ _ _ Hr _ _) Hns Henull Hed Hdet) as (s' & v' & E & Hg' & El & He' & Hn' & Hsl).
  destruct (link_spec (side_of d) (edges D s) (adj_slots G d (ae_end d b)) (ae_slot b) ed (hr_chain _ _ _ Hr _ _) Hns Henull Hed Hdet)
    as (v1 & El1 & Hdll & Hsame & Hframe).
  rewrite El in El1. injection El1 as <-.
  exists s'. split_and!; try done. destruct (set_first_data d nd (ae_slot b)) as (P1 & P2 & P3 & P6 & P4 & P5).
  assert (slot_of G <$> (e :: g_adj G d (ae_end d b)) = ae_slot b :: adj_slots G d (ae_end d b)) as Els.
  { rewrite fmap_cons, (slot_of_lookup _ _ _ Hb). done. }
  eapply (relink_rep G D s s' d (ae_end d b) a nd (set_first d nd (ae_slot b)) _ (ae_slot b :: adj_slots G d (ae_end d b)) v');
    rewrite ?Els; try done.
  - intros e' [->|Hin]%elem_of_cons; [eauto|]. by eapply hr_adj.
  - intros x [->|Hx]%elem_of_cons; [eauto|]. apply (adj_slot_in _ _ _ _ _ _ Hr) in Hx as (e' & b' & _ & Hb' & Hend & ->). eauto.
  - intros e' b' ed' Hb' Hend [Hne Hni']%not_elem_of_cons Hed'. rewrite <- Hend in Hni'.
    eapply (hr_free _ _ _ Hr d e' b' ed' Hb'); [|done]. change (view_read (edges D s) (ae_slot b') = Some ed').
    rewrite <- (Hframe (ae_slot b')); [done|]. intros [Es|Hx]%elem_of_cons.
    + by apply Hne, (edge_slot_inj G D s e' e b' b).
    + rewrite <- Hend, (adj_slot_elem _ _ _ _ _ _ _ Hr Hb') in Hx. done.
Qed.

(** Unwiring an edge takes it out of its list. *)
Lemma unwire_rep n G D s d e b a :
  good n D s -> heap_rep G D s -> g_edges G !! e = Some b -> e ∈ g_adj G d (ae_end d b) ->
  g_nodes G !! ae_end d b = Some a ->
  exists r s', unwire d (ae_slot b) (an_slot a) s = Some (Ok r, s') /\ good n D s' /\
    heap_rep (set_adj G d (ae_end d b) (filter (fun x => x ≠ e) (g_adj G d (ae_end d b)))) D s' /\ same_slots D s s'.
Proof.
  intros Hg Hr Hb Hin Ha. destruct (hr_node _ _ _ Hr _ _ Ha) as (Hnull & nd & Hnd & F1 & F2 & F3 & F5 & F4).
  pose proof (hr_chain _ _ _ Hr d (ae_end d b)) as Hch. specialize (F4 d) as F4d.
  apply list_elem_of_split in Hin as (k1 & k2 & Ek). set (l1 := slot_of G <$> k1). set (l2 := slot_of G <$> k2).
  assert (adj_slots G d (ae_end d b) = l1 ++ ae_slot b :: l2) as Es.
  { unfold adj_slots. by rewrite Ek, fmap_app, fmap_cons, (slot_of_lookup _ _ _ Hb). }
  assert (NoDup (k1 ++ e :: k2)) as Hnd'. { rewrite <- Ek. destruct Hch as [_ Hn]. by eapply NoDup_fmap_1. }
  rewrite Es in Hch, F4d.
  destruct (unwire_spec n D s d (ae_slot b) (an_slot a) nd l1 l2 Hg Hnd Hch) as (s' & v' & E & Hg' & El & He' & Hn' & Hsl).
  destruct (unlink_spec (side_of d) (edges D s) l1 (ae_slot b) l2 Hch) as (v1 & r & Hrd & El1 & Hdll & Hsame & Hframe & Hlast).
  rewrite El in El1. injection El1 as <-.
  eexists _, s'. split; [exact E|]. split; [done|]. split; [|done]. rewrite Ek.
  assert (filter (fun x => x ≠ e) (k1 ++ e :: k2) = k1 ++ k2) as ->.
  { clear -Hnd'. apply NoDup_app in Hnd' as (H1 & H2 & H3). inversion_clear H3 as [|? ? H4 H5].
    rewrite filter_app, filter_cons_False by (by intros []). f_equal; apply LockTable.filter_id_all; intros x Hx ->; [|done].
    apply (H2 e Hx). left. }
  assert (slot_of G <$> (k1 ++ k2) = l1 ++ l2) as Els by (by rewrite fmap_app).
  set (nd' := if slot_is_null (List.last l1 SLOT_NULL) then set_first d nd (head_of l2) else nd).
  destruct (set_first_data d nd (head_of l2)) as (P1 & P2 & P3 & P6 & P4 & P5).
  assert (slot_is_null (List.last l1 SLOT_NULL) = bool_decide (l1 = [])) as Hln.
  { destruct Hch as [Hseg _]. apply seg_app in Hseg as [Hseg _]. by eapply last_null. }
  eapply (relink_rep G D s s' d (ae_end d b) a nd nd' _ (l1 ++ ae_slot b :: l2) v'); rewrite ?Els; try done;
    try (by unfold nd'; destruct (slot_is_null (List.last l1 SLOT_NULL))).
  - unfold nd'. rewrite Hln. case_bool_decide as Hl; [by rewrite Hl|]. rewrite F4d. by destruct l1.
  - intros e' Hx. apply (hr_adj _ _ _ Hr). rewrite Ek. set_solver.
  - intros x Hx. rewrite <- Es in Hx. apply (adj_slot_in _ _ _ _ _ _ Hr) in Hx as (e' & b' & _ & Hb' & Hend & ->). eauto.
  - intros e' b' ed' Hb' Hend Hni' Hed'. destruct (decide (e' = e)) as [->|Hne].
    + assert (b' = b) as -> by congruence. rewrite Hlast in Hed'. injection Hed' as <-.
      split; [apply side_prev_links|apply side_next_links].
    + assert (e' ∉ g_adj G d (ae_end d b')) as Hni by (rewrite Hend, Ek; set_solver).
      eapply (hr_free _ _ _ Hr d e' b' ed' Hb'); [|done]. change (view_read (edges D s) (ae_slot b') = Some ed').
      rewrite <- (Hframe (ae_slot b')); [done|]. rewrite <- Es, <- Hend. by rewrite (adj_slot_elem _ _ _ _ _ _ _ Hr Hb').
Qed.

(** ** Tombstones *)

Lemma mark_edge_data ed : edge_ok ed ->
  edge_ok (mark_edge_deleted ed) /\ live_edge_rec (mark_edge_deleted ed) = false.
Proof.
  intros He. split.
  - unfold edge_ok, edge_fields, EDGE_WIDTHS in *. rewrite !fields_ok_cons in He.
    pose proof (wrap_range 16 (er_generation ed + 1) ltac:(lia)) as Hw.
    assert (uint 16 (Z.lor (er_flags ed) EDGE_DELETED)) as Hf by (apply uint_lor; [lia|naive_solver|done]).
    simpl. rewrite !fields_ok_cons. naive_solver.
  - unfold live_edge_rec. simpl. apply Z.eqb_neq. rewrite Z.land_lor_distr_l. change (Z.land EDGE_DELETED EDGE_DELETED) with 1.
    intros [_ ?]%Z.lor_eq_0_iff. done.
Qed.

Lemma mark_node_data nd : node_ok nd ->
  node_ok (mark_node_deleted nd) /\ live_node (mark_node_deleted nd) = false.
Proof.
  intros Hn. split.
  - unfold node_ok, node_fields, NODE_WIDTHS in *. rewrite !fields_ok_cons in Hn.
    pose proof (wrap_range 16 (nr_generation nd + 1) ltac:(lia)) as Hw.
    assert (uint 16 (Z.lor (nr_flags nd) NODE_DELETED)) as Hf by (apply uint_lor; [lia|naive_solver|done]).
    simpl. rewrite !fields_ok_cons. naive_solver.
  - unfold live_node. simpl. apply Z.eqb_neq. rewrite Z.land_lor_distr_l. change (Z.land NODE_DELETED NODE_DELETED) with 1.
    intros [_ ?]%Z.lor_eq_0_iff. done.
Qed.

(** A chain only looks at the links. *)
Lemma seg_links (v v' : EView) sd p l q :
  (forall x r, view_read v x = Some r ->
     exists r', view_read v' x = Some r' /\ side_prev sd r' = side_prev sd r /\ side_next sd r' = side_next sd r) ->
  seg sd v p l q -> seg sd v' p l q.
Proof.
  intros Hv. revert p. induction l as [|x l IH]; intros p; [done|]. intros (Hx & (r & Hr & E1 & E2) & Hs). split; [done|].
  split; [|by apply IH]. destruct (Hv x r Hr) as (r' & Hr' & F1 & F2). exists r'. by rewrite F1, F2.
Qed.

Definition tombstone_edge (b : AEdge) : AEdge := mkAE (ae_slot b) (ae_type b) (ae_src b) (ae_dst b) true.
Definition tombstone_node (a : ANode) : ANode := mkAN (an_slot a) (an_label a) true.

Lemma mark_edge_rep G D s s' e b ed : heap_rep G D s -> g_edges G !! e = Some b ->
  edge_at D s (ae_slot b) = Some ed -> edge_ok ed ->
  (forall x, edge_at D s' x = if decide (x = ae_slot b) then Some (mark_edge_deleted ed) else edge_at D s x) ->
  (forall x, node_at D s' x = node_at D s x) -> heap_rep (put_aedge G e (tombstone_edge b)) D s'.
Proof.
  intros Hr Hb Hed Hok He Hn. destruct (mark_edge_data ed Hok) as [_ Hlive].
  assert (forall i, slot_of (put_aedge G e (tombstone_edge b)) i = slot_of G i) as Hsl.
  { intros i. destruct (decide (i = e)) as [->|Hne]; [|by apply slot_of_put_aedge].
    unfold slot_of. simpl. by rewrite lookup_insert_eq, Hb. }
  assert (forall d n, adj_slots (put_aedge G e (tombstone_edge b)) d n = adj_slots G d n) as Hadj.
  { intros d n. unfold adj_slots. apply list_fmap_ext. intros i x _. apply Hsl. }
  assert (forall x r, view_read (edges D s) x = Some r -> exists r', view_read (edges D s') x = Some r' /\
    forall d, side_prev (side_of d) r' = side_prev (side_of d) r /\ side_next (side_of d) r' = side_next (side_of d) r) as Hlk.
  { simpl. intros x r Hx. rewrite He. case_decide as Ex; [|by exists r]. subst x. rewrite Hed in Hx. injection Hx as <-.
    eexists. split; [done|]. by intros []. }
  split.
  - intros id a Ha. destruct (hr_node _ _ _ Hr id a Ha) as (? & nd & ? & ? & ? & ? & ? & Hf). split; [done|]. exists nd.
    rewrite Hn. split; [done|]. unfold node_rep. split_and!; try done. intros d. by rewrite Hadj, Hf.
  - intros i b'. simpl. destruct (decide (i = e)) as [->|Hne].
    + rewrite lookup_insert_eq. intros [= <-]. destruct (hr_edge _ _ _ Hr e b Hb) as (? & ed0 & Hed0 & H1 & H2 & H3 & H4 & H5 & H7 & H6).
      assert (ed0 = ed) as -> by congruence. split; [done|]. simpl. rewrite He, decide_True by done.
      eexists. split; [done|]. unfold edge_rep. rewrite Hlive. split_and!; try done.
      intros d. destruct (H6 d) as (a & Ha & Hsd). exists a. by destruct d.
    + rewrite lookup_insert_ne by done. intros Hb'. destruct (hr_edge _ _ _ Hr i b' Hb') as (? & ed' & Hed' & ?). split; [done|].
      exists ed'. rewrite He, decide_False; [done|]. intros E. by apply Hne, (edge_slot_inj G D s i e b' b).
  - intros d n i Hi. destruct (hr_adj _ _ _ Hr d n i Hi) as (b' & Hb' & Hend). simpl.
    destruct (decide (i = e)) as [->|Hne]; [|rewrite lookup_insert_ne by done; eauto].
    rewrite lookup_insert_eq. assert (b' = b) as -> by congruence. eexists. split; [done|]. by destruct d.
  - intros d n. rewrite Hadj. destruct (hr_chain _ _ _ Hr d n) as [Hs Hnd]. split; [|done].
    eapply seg_links; [|exact Hs]. intros x r Hx. destruct (Hlk x r Hx) as (r' & ? & Hd). exists r'. by destruct (Hd d).
  - intros d i b' ed'. simpl. destruct (decide (i = e)) as [->|Hne].
    + rewrite lookup_insert_eq. intros [= <-]. simpl. rewrite He, decide_True by done. intros [= <-].
      replace (ae_end d (tombstone_edge b)) with (ae_end d b) by (by destruct d). intros Hni.
      destruct (hr_free _ _ _ Hr d e b ed Hb Hed Hni). by destruct d.
    + rewrite lookup_insert_ne by done. intros Hb'. rewrite He, decide_False; [by eapply hr_free|].
      intros E. by apply Hne, (edge_slot_inj G D s i e b' b).
Qed.

Lemma mark_node_rep G D s s' id a nd : heap_rep G D s -> g_nodes G !! id = Some a ->
  node_at D s (an_slot a) = Some nd -> node_ok nd ->
  (forall x, node_at D s' x = if decide (x = an_slot a) then Some (mark_node_deleted nd) else node_at D s x) ->
  (forall x, edge_at D s' x = edge_at D s x) -> heap_rep (put_anode G id (tombstone_node a)) D s'.
Proof.
  intros Hr Ha Hnd Hok Hn He. destruct (mark_node_data nd Hok) as [_ Hlive]. split.
  - intros i a'. simpl. destruct (decide (i = id)) as [->|Hne].
    + rewrite lookup_insert_eq. intros [= <-]. destruct (hr_node _ _ _ Hr id a Ha) as (? & nd0 & Hnd0 & H1 & H2 & H3 & H5 & H4).
      assert (nd0 = nd) as -> by congruence. split; [done|]. simpl. rewrite Hn, decide_True by done.
      eexists. split; [done|]. unfold node_rep. rewrite Hlive. split_and!; done.
    + rewrite lookup_insert_ne by done. intros Ha'. destruct (hr_node _ _ _ Hr i a' Ha') as (? & nd' & Hnd' & ?). split; [done|].
      exists nd'. rewrite Hn, decide_False; [done|]. intros E. by apply Hne, (node_slot_inj G D s i id a' a).
  - intros e b Hb. destruct (hr_edge _ _ _ Hr e b Hb) as (? & ed & ? & ? & ? & ? & ? & ? & ? & Hd). split; [done|].
    exists ed. rewrite He. split; [done|]. unfold edge_rep. split_and!; try done. intros d. destruct (Hd d) as (a' & Ha' & Hs). simpl.
    destruct (decide (ae_end d b = id)) as [E|Hne]; [|rewrite lookup_insert_ne by done; eauto].
    rewrite E in *. rewrite lookup_insert_eq. assert (a' = a) as -> by congruence. by eexists.
  - apply Hr.
  - intros d n. apply (dll_ext _ (edges D s)); [exact He|]. apply Hr.
  - intros d i b ed Hb. rewrite He. by apply (hr_free _ _ _ Hr).
Qed.

(** ** Traversal *)

Lemma walk_seg n D s d p l types : good n D s -> forall hops,
  seg (side_of d) (edges D s) p l SLOT_NULL -> (length l <= hops)%nat ->
  exists recs s', walk d hops (head_of l) types s
      = Some (Ok (filter (fun r => live_edge_rec r && type_matches types r = true) recs), s') /\
    good n D s' /\ quiet s s' /\ Forall2 (fun x r => edge_at D s x = Some r) l recs.
Proof.
  intros Hg. revert p s Hg. induction l as [|x l IH]; intros p s Hg hops Hs Hh.
  - exists [], s. split_and!; try done. by destruct hops.
  - destruct hops as [|hops]; [simpl in Hh; lia|]. destruct Hs as (Hx & (r & Hr & _ & Hnext) & Hs).
    cbn [walk head_of hd]. rewrite Hx. unfold hbind at 1.
    destruct (edge_at_inv n D s x r Hg Hr) as (Hb & Hok & _).
    destruct Hg as [Hc Hh0]. destruct (read_record_spec n MIN_RECORD D s x _ Hc Hh0 Hb) as (s1 & -> & Hc1 & Hq1).
    assert (edge_decode (edge_encode r) = Some r) as ->.
    { unfold edge_at in Hr. simpl in Hr. unfold edge_at in Hr. rewrite Hb in Hr. done. }
    assert (good n D s1) as Hg1 by (by eapply quiet_good; [|done|split]).
    destruct (IH x s1 Hg1 hops) as (recs & s2 & E & Hg2 & Hq2 & Hf); [|simpl in Hh; lia|].
    { eapply seg_links; [|exact Hs]. intros y ry Hy. exists ry. split; [|done]. simpl in *. by rewrite (quiet_edge_at _ _ _ Hq1). }
    assert (match d with Out => next_source_edge r | In => next_target_edge r end = head_of l) as ->.
    { unfold head_of. rewrite <- Hnext. by destruct d. }
    unfold hbind. rewrite E. exists (r :: recs), s2. split_and!.
    + change (Z.land (er_flags r) EDGE_DELETED =? 0) with (live_edge_rec r). rewrite filter_cons.
      by destruct (live_edge_rec r && type_matches types r).
    + done.
    + destruct Hq1 as [A1 B1], Hq2 as [A2 B2]. split; [intros q; by rewrite A2|intros q; by rewrite B2].
    + constructor; [done|]. eapply Forall2_impl; [exact Hf|]. intros y ry. simpl. by rewrite (quiet_edge_at _ _ _ Hq1).
Qed.

End Rep.

(** The representation only looks at the records: a heap, on whatever store,
    that has them all represents the same graph. *)
Lemma heap_rep_mono {S S'} `{HL : PageStoreLaws S} `{HL' : PageStoreLaws S'} G D D' (s : S) (s' : S') :
  (forall x y, node_at D s x = Some y -> node_at D' s' x = Some y) ->
  (forall x y, edge_at D s x = Some y -> edge_at D' s' x = Some y) ->
  heap_rep G D s -> heap_rep G D' s'.
Proof.
  intros Hn He Hr. split.
  - intros id a Ha. destruct (hr_node _ _ _ Hr id a Ha) as (? & nd & ? & ?). split; [done|]. exists nd. auto.
  - intros id b Hb. destruct (hr_edge _ _ _ Hr id b Hb) as (? & ed & ? & ?). split; [done|]. exists ed. auto.
  - apply Hr.
  - intros d n. destruct (hr_chain _ _ _ Hr d n) as [Hs Hnd]. split; [|done]. apply (seg_frame (side_of d) (edges D s)); [|exact Hs].
    intros x Hx. destruct (seg_in _ _ _ _ _ _ Hs Hx) as [r Hx']. simpl in *. rewrite Hx'. by apply He.
  - intros d id b ed Hb Hed. destruct (hr_edge _ _ _ Hr id b Hb) as (_ & ed0 & Hed0 & _).
    assert (ed = ed0) as -> by (apply He in Hed0; congruence). by apply (hr_free _ _ _ Hr).
Qed.

(** ** Nothing but the graph *)

(** [x] is the place of a node or of an edge. *)
Definition named (G : Graph) (x : SlotRef) : Prop :=
  (exists i a, g_nodes G !! i = Some a /\ an_slot a = x) \/ (exists i b, g_edges G !! i = Some b /\ ae_slot b = x).

(** Every record of the heap is one of the graph's; unless the store has
    [foreign] pages, no other page holds records. *)
Definition heap_only {S} `{HL : PageStoreLaws S} (foreign : bool) G D (s : S) : Prop :=
  (forall x, is_Some (hrec D s x) -> named G x) /\ (foreign = false -> forall p, is_Some (ps_image s p) -> p ∈ D).

(** The entities stay where they are. *)
Definition keeps_slots (G G' : Graph) : Prop :=
  (forall i a, g_nodes G !! i = Some a -> exists a', g_nodes G' !! i = Some a' /\ an_slot a' = an_slot a) /\
  (forall i b, g_edges G !! i = Some b -> exists b', g_edges G' !! i = Some b' /\ ae_slot b' = ae_slot b).

Lemma keeps_slots_node G id a : (forall a0, g_nodes G !! id = Some a0 -> an_slot a = an_slot a0) -> keeps_slots G (put_anode G id a).
Proof.
  intros Ha. split; [|intros i b Hb; by exists b]. intros i a0 Hi. simpl. destruct (decide (i = id)) as [->|Hne].
  - rewrite lookup_insert_eq. eauto.
  - rewrite lookup_insert_ne by done. eauto.
Qed.

Lemma keeps_slots_edge G G' id b : (forall b0, g_edges G !! id = Some b0 -> ae_slot b = ae_slot b0) ->
  g_nodes G' = g_nodes G -> g_edges G' = <[id := b]> (g_edges G) -> keeps_slots G G'.
Proof.
  intros Hb En Ee. split; [intros i a Hi; rewrite En; by exists a|]. intros i b0 Hi. rewrite Ee. destruct (decide (i = id)) as [->|Hne].
  - rewrite lookup_insert_eq. eauto.
  - rewrite lookup_insert_ne by done. eauto.
Qed.

Lemma heap_only_mono {S S'} `{HL : PageStoreLaws S} `{HL' : PageStoreLaws S'} foreign G G' D D' (s : S) (s' : S') r :
  keeps_slots G G' -> (forall x, is_Some (hrec D' s' x) -> is_Some (hrec D s x) \/ x = r /\ named G' r) ->
  (forall p, is_Some (ps_image s' p) -> is_Some (ps_image s p) \/ p ∈ D') -> D ⊆ D' -> heap_only foreign G D s -> heap_only foreign G' D' s'.
Proof.
  intros [Hn He] Hx Himg HD [Ho Hp]. split; [|intros Hf p [Hip|]%Himg; [apply HD; by apply Hp|done]]. intros x Hin. destruct (Hx x Hin) as [Hin'|[-> ?]]; [|done]. destruct (Ho x Hin') as [(i & a & Hi & <-)|(i & b & Hi & <-)].
  - left. destruct (Hn i a Hi) as (a' & ? & ?). eauto.
  - right. destruct (He i b Hi) as (b' & ? & ?). eauto.
Qed.

(** A record joins the heap together with its entity. *)
Lemma inserted_only {S} `{HL : PageStoreLaws S} `{CS : Checksums} foreign G G' n D D' (s s' : S) r bs :
  inserted n D D' s s' r bs -> keeps_slots G G' -> named G' r -> heap_only foreign G D s -> heap_only foreign G' D' s'.
Proof.
  intros Hins Hk Hr. apply (heap_only_mono _ _ _ _ _ _ _ r); [done| |apply Hins|apply Hins]. intros x Hx. destruct (decide (x = r)) as [->|Hne]; [by right|].
  left. by rewrite <- (ins_other _ _ _ _ _ _ _ Hins x Hne).
Qed.

Lemma slots_only {S S'} `{HL : PageStoreLaws S} `{HL' : PageStoreLaws S'} foreign G G' D (s : S) (s' : S') :
  same_slots D s s' -> keeps_slots G G' -> heap_only foreign G D s -> heap_only foreign G' D s'.
Proof.
  intros [Hs Hi] Hk. apply (heap_only_mono _ _ _ _ _ _ _ SLOT_NULL); [done| | |done]; [intros x Hx|intros p Hp]; left; auto.
  by apply Hs.
Qed.

Lemma keeps_slots_refl G : keeps_slots G G.
Proof. split; eauto. Qed.
