(* ===== verification/GraphApi.v ===== *)
(** * The graph API ([src/graph/graph.rs], [src/graph/builder.rs], [src/graph/property.rs])

    Property values and their stored form, the builders, and the operations of
    [Graph]: creating nodes and relationships under ids the engine allocates,
    reading them back with their property chains, scans and property rewrites.
    A string-keyed [HashMap] is a finite map from byte strings; a float is its
    bit pattern. *)

From stdpp Require Import prelude list gmap sorting.
From Stdlib Require Import ZArith Lia.
From S2P Require Import Prelude Bytes Checksum WalLog TxManager ValueCodec.
From S2P Require Import GraphRecord Adjacency GraphHeap GraphEngine.

#[local] Open Scope heap_scope.

(** ** Property values *)

Inductive Property :=
| PNull
| PInteger (v : Z)
| PFloat (bits : Z)
| PString (s : list Z)
| PBoolean (b : bool)
| PDate (v : Z)
| PDuration (v : Z)
| PPoint (srid : Z) (x y : Z) (z : option Z)
| PList (l : list Property)
| PMap (m : list (list Z * Property)).

Definition NameMap : Type := gmap (list Z) Property.

(** Composite and temporal values have no stored form. *)
Definition to_value_type_payload (p : Property) : option (ValueType * list Z) :=
  match p with
  | PNull => Some (VtNull, [])
  | PBoolean b => Some (VtBool, [if b then 1 else 0])
  | PInteger v => Some (VtInt64, to_be 8 (i64_as_u64 v))
  | PFloat bits => Some (VtFloat64, to_be 8 (if is_nan_bits bits then 0x7FF8000000000000 else bits))
  | PString s => Some (VtString, s)
  | _ => None
  end.

Definition decode_property_value (t : ValueType) (payload : list Z) : Property :=
  match t with
  | VtNull => PNull
  | VtBool => PBoolean (negb (default 0 (head payload) =? 0))
  | VtInt64 => if (8 <=? length payload)%nat then PInteger (u64_as_i64 (from_be (take 8 payload))) else PNull
  | VtFloat64 => if (8 <=? length payload)%nat then PFloat (from_be (take 8 payload)) else PNull
  | VtString => match from_utf8 payload with Some s => PString s | None => PNull end
  | VtList | VtMap => PNull
  end.

Definition is_null (p : Property) : bool := match p with PNull => true | _ => false end.
Definition is_scalar (p : Property) : bool :=
  match p with PInteger _ | PFloat _ | PString _ | PBoolean _ | PDate _ | PDuration _ | PPoint _ _ _ _ => true | _ => false end.
Definition is_composite (p : Property) : bool := match p with PList _ | PMap _ => true | _ => false end.

(** [unwrap_or((ValueType::Null, Vec::new()))]. *)
Definition stored_value (p : Property) : ValueType * list Z := default (VtNull, []) (to_value_type_payload p).

Definition name_le (a b : list Z * Property) : Prop := bytes_le a.1 b.1 = true.
#[global] Instance name_le_dec : RelDecision name_le.
Proof. intros a b. unfold name_le. apply _. Defined.

(** The entries in name order. *)
Definition sorted_entries (props : NameMap) : list (list Z * Property) := merge_sort name_le (map_to_list props).

(** [None] is the panic of [PropertyRecord::inline] on a long payload. *)
Definition build_property_records (props : NameMap) : option (list PropertyRecord) :=
  mapM (fun '(name, value) => prop_inline name 0 (stored_value value).1 (stored_value value).2) (sorted_entries props).

(** ** Builders *)

Record NodeBuilder := mkNb { nb_label_id : Z; nb_properties : NameMap }.
Record RelationshipBuilder := mkRb {
  rb_type_id : Z; rb_source_id : option Z; rb_target_id : option Z; rb_properties : NameMap
}.
Inductive BuilderError := MissingSource | MissingTarget | MissingType.

Definition nb_new : NodeBuilder := mkNb 0 ∅.
Definition nb_label (b : NodeBuilder) (l : Z) : NodeBuilder := mkNb l (nb_properties b).
Definition nb_property (b : NodeBuilder) (k : list Z) (v : Property) : NodeBuilder :=
  mkNb (nb_label_id b) (<[k := v]> (nb_properties b)).
Definition nb_into_parts (b : NodeBuilder) : NodeRecord * NameMap := (node_new 0 (nb_label_id b), nb_properties b).

Definition rb_new : RelationshipBuilder := mkRb 0 None None ∅.
Definition rb_from (b : RelationshipBuilder) (id : Z) : RelationshipBuilder :=
  mkRb (rb_type_id b) (Some id) (rb_target_id b) (rb_properties b).
Definition rb_to (b : RelationshipBuilder) (id : Z) : RelationshipBuilder :=
  mkRb (rb_type_id b) (rb_source_id b) (Some id) (rb_properties b).
Definition rb_type (b : RelationshipBuilder) (t : Z) : RelationshipBuilder :=
  mkRb t (rb_source_id b) (rb_target_id b) (rb_properties b).
Definition rb_property (b : RelationshipBuilder) (k : list Z) (v : Property) : RelationshipBuilder :=
  mkRb (rb_type_id b) (rb_source_id b) (rb_target_id b) (<[k := v]> (rb_properties b)).
Definition rb_build (b : RelationshipBuilder) : result EdgeRecord BuilderError :=
  match rb_source_id b, rb_target_id b with
  | None, _ => Err MissingSource
  | Some _, None => Err MissingTarget
  | Some s, Some t => if rb_type_id b =? 0 then Err MissingType else Ok (edge_new 0 (rb_type_id b) s t SLOT_NULL SLOT_NULL)
  end.
Definition rb_into_parts (b : RelationshipBuilder) : result (EdgeRecord * NameMap) BuilderError :=
  match rb_build b with Ok r => Ok (r, rb_properties b) | Err e => Err e end.

(** ** Views *)

Record Node := mkNodeView { n_id : Z; n_label : Z; n_properties : NameMap }.
Record Relationship := mkRelView {
  r_id : Z; r_type : Z; r_source : Z; r_target : Z; r_properties : NameMap
}.

Section Api.
Context {S : Type} `{PS : PageStore S} `{CS : Checksums} {W : Type} `{WL : WalLog W}.
Notation E := (H (Engine S W)).

Definition allocate_id : E Z := fun e =>
  let '(id, a) := ids_allocate (id_allocator e) in Some (Ok id, set_ids e a).

(** A pure panic. *)
Definition unwrap {A} (o : option A) : E A := match o with Some a => hret a | None => hpanic end.

Definition with_node_id (n : NodeRecord) (id : Z) : NodeRecord :=
  mkNode id (label_id n) (first_outgoing_edge n) (first_incoming_edge n) (nr_first_property n) (nr_flags n)
    (nr_generation n) (nr_pad n).
Definition with_edge_ends (e : EdgeRecord) (id : Z) (src dst : SlotRef) : EdgeRecord :=
  mkEdge id (source_id e) (target_id e) (type_id e) src dst (prev_source_edge e) (next_source_edge e)
    (prev_target_edge e) (next_target_edge e) (er_first_property e) (er_flags e) (er_generation e) (er_pad e).

Definition create_node (turns : list Turn) (now : nat -> Z) (b : NodeBuilder) : E (SlotRef * Z) :=
  let '(record, properties) := nb_into_parts b in
  try id <- allocate_id;
  try props <- unwrap (build_property_records properties);
  try s <- create_node_atomic turns now (with_node_id record id) props;
  hret (s, id).

Definition create_relationship (turns : list Turn) (now : nat -> Z) (b : RelationshipBuilder) : E (SlotRef * Z) :=
  match rb_into_parts b with
  | Err _ => hfail SeIoError
  | Ok (record, properties) =>
      try id <- allocate_id;
      try source <- lookup_node_slot (source_id record);
      try source <- hget source SeNotFound;
      try target <- lookup_node_slot (target_id record);
      try target <- hget target SeNotFound;
      try props <- unwrap (build_property_records properties);
      try s <- create_edge_atomic turns now (with_edge_ends record id source target) props;
      hret (s, id)
  end.

Definition MAX_CHAIN_DEPTH : nat := Z.to_nat 4096.

Fixpoint read_chain (depth : nat) (current : SlotRef) (acc : NameMap) : E NameMap :=
  match depth with
  | O => hret acc
  | Datatypes.S depth =>
      if slot_is_null current then hret acc else
      try prop <- get_property current;
      match prop with
      | None => hret acc
      | Some p =>
          read_chain depth (next_property p)
            (match value_type_from_u8 (value_type (header p)) with
             | Some t => <[property_name p := decode_property_value t (payload p)]> acc
             | None => acc
             end)
      end
  end.
Definition read_property_chain (head : SlotRef) : E NameMap := read_chain MAX_CHAIN_DEPTH head ∅.

Definition node_view (r : NodeRecord) : E Node :=
  try props <- read_property_chain (nr_first_property r);
  hret (mkNodeView (node_id r) (label_id r) props).
Definition rel_view (r : EdgeRecord) : E Relationship :=
  try props <- read_property_chain (er_first_property r);
  hret (mkRelView (edge_id r) (type_id r) (source_id r) (target_id r) props).

Definition graph_get_node (id : Z) : E (option Node) :=
  try record <- get_node id;
  match record with
  | Some r => if live_node r then try v <- node_view r; hret (Some v) else hret None
  | None => hret None
  end.
Definition get_relationship (id : Z) : E (option Relationship) :=
  try record <- get_edge id;
  match record with
  | Some r => if live_edge_rec r then try v <- rel_view r; hret (Some v) else hret None
  | None => hret None
  end.

Fixpoint views {A B} (view : A -> E B) (l : list A) : E (list B) :=
  match l with
  | [] => hret []
  | a :: rest => try v <- view a; try vs <- views view rest; hret (v :: vs)
  end.

Definition scan_by_label (label : Z) : E (list Node) :=
  try records <- scan_nodes_by_label label; views node_view records.
Definition scan_by_type (ty : Z) : E (list Relationship) :=
  try records <- scan_edges_by_type ty; views rel_view records.
Definition graph_scan_all_nodes : E (list Node) := try records <- scan_all_nodes; views node_view records.
Definition scan_all_relationships : E (list Relationship) := try records <- scan_all_edges; views rel_view records.

(** [entity_id as u64] truncates the 128-bit id of the index. *)
Fixpoint nodes_of (entries : list (Z * SlotRef)) : E (list Node) :=
  match entries with
  | [] => hret []
  | (entity, _) :: rest =>
      try n <- graph_get_node (wrap 64 entity);
      try more <- nodes_of rest;
      hret (match n with Some v => v :: more | None => more end)
  end.
Definition scan_nodes_by_property (property_id : Z) (t : ValueType) (payload : list Z) : E (list Node) :=
  try entries <- scan_property_index property_id t payload; nodes_of entries.

(** Rewriting an entity's properties: a fresh chain, last entry first. *)
Fixpoint write_chain (now : nat -> Z) (i : nat) (entity : Z) (rev_entries : list (list Z * Property)) (next_slot : SlotRef) :
    E SlotRef :=
  match rev_entries with
  | [] => hret next_slot
  | (name, value) :: rest =>
      let '(t, payload) := stored_value value in
      try prop <- unwrap (prop_inline name 0 t payload);
      try s <- put_property (now i) (set_next_property prop next_slot);
      try _ <- ignore (insert_property_index entity 0 t payload s);
      write_chain now (i + 1) entity rest s
  end.
Definition write_property_chain (now : nat -> Z) (entity : Z) (props : NameMap) : E SlotRef :=
  write_chain now 0 entity (rev (sorted_entries props)) SLOT_NULL.

Definition rewrite_node_properties_engine (now : nat -> Z) (id : Z) (props : NameMap) : E unit :=
  try head <- write_property_chain now id props;
  attach_property_to_node (now (size props)) id head.
Definition rewrite_edge_properties_engine (now : nat -> Z) (id : Z) (props : NameMap) : E unit :=
  try head <- write_property_chain now id props;
  attach_property_to_edge (now (size props)) id head.

End Api.
