(* ===== verification/GraphRefine.v ===== *)
(** * The graph engine refines abstract graphs

    Histories of graph operations on an engine whose store, log and trees have
    room: every operation returns, and answers as the abstract graph does. *)

From stdpp Require Import prelude list gmap sorting.
From Stdlib Require Import ZArith Lia.
From S2P Require Import Prelude Bytes Checksum LockTable WalRecord WalLog TxManager ValueCodec Key.
From S2P Require Import SlottedPage BTree BTreeNode BTreeInsert BTreeMap HeapPage GraphRecord Adjacency Csr.
From S2P Require Import GraphHeap GraphHeapSpec GraphWire GraphEngine GraphEngineSpec GraphHeapRep GraphApi.

Lemma hbind_ok {S A B} (m : H S A) (k : A -> H S B) s a s1 : m s = Some (Ok a, s1) -> hbind m k s = k a s1.
Proof. intros E. unfold hbind. by rewrite E. Qed.
Lemma hbind_err {S A B} (m : H S A) (k : A -> H S B) s x s1 : m s = Some (Err x, s1) -> hbind m k s = Some (Err x, s1).
Proof. intros E. unfold hbind. by rewrite E. Qed.

Lemma delete_payload_room id s x buf : (length buf <= 64)%nat -> (length (delete_payload id s x buf) <= LOG_ROOM)%nat.
Proof.
  intros Hb. unfold delete_payload, LOG_ROOM. rewrite !length_app, !length_to_be, Mvcc.length_header. unfold Mvcc.SIZE. page_lia.
Qed.

(** ** Keys of the indexes *)

Lemma node_key_ok id : key_ok 16 (node_id_key id).
Proof. split; [apply length_to_be|apply to_be_ok]. Qed.

Lemma node_key_inj i j : is_u64 i -> is_u64 j -> node_id_key i = node_id_key j -> i = j.
Proof.
  intros Hi Hj E. apply (f_equal from_be) in E. unfold node_id_key, push_u128_be, empty in E. cbn [app] in E.
  assert (forall z, is_u64 z -> uint (8 * Z.of_nat 16) z) as Hw by (unfold uint; lia).
  by rewrite !from_to_be_id in E by auto.
Qed.

Lemma label_key_ok l id : key_ok 24 (label_index_key l id).
Proof.
  split; [by unfold label_index_key, push_u128_be, push_u64_be, empty; rewrite !length_app, !length_to_be|].
  unfold label_index_key, push_u128_be, push_u64_be, empty. apply Forall_app. split; [|apply to_be_ok].
  apply Forall_app. split; [done|apply to_be_ok].
Qed.

Lemma label_key_inj l i l' j : is_u64 i -> is_u64 j -> label_index_key l i = label_index_key l' j -> i = j.
Proof.
  intros Hi Hj E. apply node_key_inj; [done..|]. unfold label_index_key, push_u128_be in E.
  apply (f_equal (drop 8)) in E.
  rewrite !drop_app_length' in E by (unfold push_u64_be, empty; by rewrite length_app, length_to_be). exact E.
Qed.

Lemma widths_16 : widths_ok 16 SLOT_BYTES.
Proof. unfold SLOT_BYTES. split; lia. Qed.
Lemma widths_24 : widths_ok 24 SLOT_BYTES.
Proof. unfold SLOT_BYTES. split; lia. Qed.

(** ** What an index holds *)

Section Indexed.
Context {A : Type} (kf : Z -> A -> list Z) (sf : A -> SlotRef) (live : A -> bool).

Definition indexed (g : gmap Z A) (m : gmap (list Z) (list Z)) : Prop :=
  forall k v, m !! k = Some v <->
    exists id a, g !! id = Some a /\ live a = true /\ k = kf id a /\ v = encode_slot_ref (sf a).

Context (Hinj : forall i j a b, is_u64 i -> is_u64 j -> kf i a = kf j b -> i = j).

Lemma indexed_put g m id a : (forall i b, g !! i = Some b -> is_u64 i) -> is_u64 id -> g !! id = None -> live a = true ->
  indexed g m -> indexed (<[id := a]> g) (<[kf id a := encode_slot_ref (sf a)]> m).
Proof.
  intros Hu Hid Hn Hl Hi k v. destruct (decide (k = kf id a)) as [->|Hk].
  - rewrite lookup_insert_eq. split.
    + intros [= <-]. exists id, a. by rewrite lookup_insert_eq.
    + intros (i & b & Hb & _ & E & ->). destruct (decide (i = id)) as [->|Hne].
      * rewrite lookup_insert_eq in Hb. by injection Hb as <-.
      * rewrite lookup_insert_ne in Hb by done. by apply Hinj in E; [|by eauto..].
  - rewrite lookup_insert_ne by done. rewrite (Hi k v). split; intros (i & b & Hb & Hlb & E & ->); exists i, b.
    + rewrite lookup_insert_ne by congruence. done.
    + destruct (decide (i = id)) as [->|Hne]; [rewrite lookup_insert_eq in Hb; by injection Hb as <-|].
      by rewrite lookup_insert_ne in Hb.
Qed.

Lemma indexed_kill g m id a a' : (forall i b, g !! i = Some b -> is_u64 i) -> g !! id = Some a -> live a' = false ->
  indexed g m -> indexed (<[id := a']> g) (base.delete (kf id a) m).
Proof.
  intros Hu Ha Hl Hi k v. destruct (decide (k = kf id a)) as [->|Hk].
  - rewrite lookup_delete_eq. split; [done|]. intros (i & b & Hb & Hlb & E & _).
    destruct (decide (i = id)) as [->|Hne]; [rewrite lookup_insert_eq in Hb; congruence|].
    rewrite lookup_insert_ne in Hb by done. apply Hinj in E; [done|by eauto..].
  - rewrite lookup_delete_ne by done. rewrite (Hi k v). split; intros (i & b & Hb & Hlb & E & ->); exists i, b.
    + destruct (decide (i = id)) as [->|Hne]; [congruence|]. by rewrite lookup_insert_ne.
    + destruct (decide (i = id)) as [->|Hne]; [rewrite lookup_insert_eq in Hb; congruence|]. by rewrite lookup_insert_ne in Hb.
Qed.

Lemma indexed_same g m id a a' : g !! id = Some a -> live a' = live a -> kf id a' = kf id a -> sf a' = sf a ->
  indexed g m -> indexed (<[id := a']> g) m.
Proof.
  intros Ha El Ek Es Hi k v. rewrite (Hi k v). split; intros (i & b & Hb & Hlb & -> & ->).
  - destruct (decide (i = id)) as [->|Hne]; [|exists i, b; by rewrite lookup_insert_ne].
    exists id, a'. rewrite lookup_insert_eq. rewrite Ha in Hb. injection Hb as <-. split_and!; congruence.
  - destruct (decide (i = id)) as [->|Hne].
    + rewrite lookup_insert_eq in Hb. injection Hb as <-. exists id, a. split_and!; congruence.
    + rewrite lookup_insert_ne in Hb by done. by exists i, b.
Qed.
End Indexed.

(** The primary indexes answer with the entity's slot. *)
Lemma indexed_lookup {A} (sf : A -> SlotRef) g m id :
  (forall i b, g !! i = Some b -> is_u64 i) -> is_u64 id ->
  indexed (fun i _ => node_id_key i) sf (fun _ => true) g m -> m !! node_id_key id = encode_slot_ref <$> (sf <$> g !! id).
Proof.
  intros Hu Hid Hi. destruct (g !! id) as [a|] eqn:Ea; simpl.
  - apply Hi. by exists id, a.
  - destruct (m !! node_id_key id) as [v|] eqn:Em; [|done]. apply Hi in Em as (i & b & Hb & _ & E & _).
    apply node_key_inj in E; [congruence|done|by eauto].
Qed.

(** ** Representation *)

Definition node_kf (i : Z) (_ : ANode) : list Z := node_id_key i.
Definition edge_kf (i : Z) (_ : AEdge) : list Z := edge_id_key i.
Definition label_kf (i : Z) (a : ANode) : list Z := label_index_key (an_label a) i.
Definition type_kf (i : Z) (b : AEdge) : list Z := type_index_key (ae_type b) i.

(** A tree that holds the slots of the entities of [g]. *)
Definition tree_of {A} (K k : nat) (kf : Z -> A -> list Z) (sf : A -> SlotRef) (live : A -> bool) (g : gmap Z A)
    (t : BPlusTree) : Prop := exists m, index_is K k t m /\ indexed kf sf live g m.

Lemma node_new_ok id label : is_u64 id -> is_u32 label -> node_ok (node_new id label).
Proof. intros Hi Hl. unfold node_ok, node_fields, NODE_WIDTHS, node_new. cbn. rewrite !fields_ok_cons. split_and!; try done; try (unfold uint; simpl; lia); constructor. Qed.

Lemma edge_new_ok id ty src dst ss ts : is_u64 id -> is_u32 ty -> is_u64 src -> is_u64 dst -> slot_ok ss -> slot_ok ts ->
  edge_ok (edge_new id ty src dst ss ts).
Proof. intros. unfold edge_ok, edge_fields, EDGE_WIDTHS, edge_new. cbn. rewrite !fields_ok_cons. split_and!; try done; try (unfold uint; simpl; lia); constructor. Qed.

(** The fresh node record joins the heap. *)
Lemma node_inserted_rep {S} `{HL : PageStoreLaws S} `{CS : Checksums} n G D D' (s s' : S) r id label : heap_rep G D s -> g_nodes G !! id = None ->
  is_u64 id -> is_u32 label -> inserted n D D' s s' r (node_encode (node_new id label)) ->
  heap_rep (put_anode G id (mkAN r label false)) D' s'.
Proof.
  intros Hh Hid Hu Hl Hins. destruct (inserted_mono _ _ _ _ _ _ _ Hins) as [Hn He].
  apply (put_anode_rep G D' s' id (mkAN r label false) (node_new id label)); try done.
  - by eapply heap_rep_mono.
  - unfold node_at. simpl. rewrite (ins_here _ _ _ _ _ _ _ Hins). cbn [mbind option_bind]. by apply node_roundtrip, node_new_ok.
  - apply Hins.
  - by intros [].
Qed.

(** The fresh edge record too, with no links yet. *)
Lemma edge_inserted_rep {S} `{HL : PageStoreLaws S} `{CS : Checksums} n G D D' (s s' : S) r id ty src dst a1 a2 :
  heap_rep G D s -> g_edges G !! id = None -> g_nodes G !! src = Some a1 -> g_nodes G !! dst = Some a2 ->
  edge_ok (edge_new id ty src dst (an_slot a1) (an_slot a2)) ->
  inserted n D D' s s' r (edge_encode (edge_new id ty src dst (an_slot a1) (an_slot a2))) ->
  heap_rep (put_aedge G id (mkAE r ty src dst false)) D' s'.
Proof.
  intros Hh Hid H1 H2 Hok Hins. destruct (inserted_mono _ _ _ _ _ _ _ Hins) as [Hn He].
  apply (put_aedge_rep G D' s' id (mkAE r ty src dst false) (edge_new id ty src dst (an_slot a1) (an_slot a2))); try done.
  - by eapply heap_rep_mono.
  - unfold edge_at. simpl. rewrite (ins_here _ _ _ _ _ _ _ Hins). cbn [mbind option_bind]. by apply edge_roundtrip.
  - apply Hins.
  - unfold edge_rep. split_and!; try done. intros []; [by exists a1|by exists a2].
  - by intros [].
Qed.

Section Refine.
Context {S : Type} `{HL : PageStoreLaws S} `{CS : Checksums} {W : Type} `{WL : WalLog W}.
Implicit Types (e : Engine S W) (G : Graph) (D : gset Z).

(** Whether the data pages are known to hold nothing but the graph. *)
Context {tidy : option bool}.

Definition tidy_heap G D e : Prop :=
  forall foreign, tidy = Some foreign ->
    (forall p, p ∈ D -> p ∈ node_pages e \/ p ∈ edge_pages e) /\ heap_only foreign G D (page_manager e).

(** The engine holds the graph, with room for [k] more operations and [j] more ids. *)
Record rep (k j : nat) G e : Prop := {
  rp_heap : exists D, good k D (page_manager e) /\ heap_rep G D (page_manager e) /\
    (forall p, p ∈ node_pages e -> p ∈ D) /\ (forall p, p ∈ edge_pages e -> p ∈ D) /\ tidy_heap G D e;
  rp_idle : tm_idle (txn_manager e);
  rp_wal : wal_steady (wal_writer e);
  rp_node_index : tree_of 16 k node_kf an_slot (fun _ => true) (g_nodes G) (node_index e);
  rp_edge_index : tree_of 16 k edge_kf ae_slot (fun _ => true) (g_edges G) (edge_index e);
  rp_label_index : tree_of 24 k label_kf an_slot (negb ∘ an_deleted) (g_nodes G) (label_index e);
  rp_type_index : tree_of 24 k type_kf ae_slot (negb ∘ ae_deleted) (g_edges G) (type_index e);
  rp_ids : 0 < next_id (id_allocator e) /\ next_id (id_allocator e) + Z.of_nat j < 2 ^ 64;
  rp_node_ids : forall i a, g_nodes G !! i = Some a -> 0 < i < next_id (id_allocator e);
  rp_edge_ids : forall i b, g_edges G !! i = Some b -> 0 < i < next_id (id_allocator e);
  rp_adj : forall d n i, i ∈ g_adj G d n <-> exists b, g_edges G !! i = Some b /\ ae_deleted b = false /\ ae_end d b = n;
  rp_size : (size (g_edges G) + k <= MAX_HOPS)%nat;
  rp_labels : forall i a, g_nodes G !! i = Some a -> is_u32 (an_label a);
  rp_types : forall i b, g_edges G !! i = Some b -> is_u32 (ae_type b)
}.

Lemma tree_of_le {A} K k k' kf sf live (g : gmap Z A) t : widths_ok K SLOT_BYTES -> (k' <= k)%nat ->
  tree_of K k kf sf live g t -> tree_of K k' kf sf live g t.
Proof. intros HK Hk (m & Hi & Hx). exists m. split; [|done]. by eapply index_is_le. Qed.

Lemma good_S n D (s : S) : good (Datatypes.S n) D s -> good n D s.
Proof. intros [Hc Hh]. split; [by apply ps_calm_S|done]. Qed.

Lemma rep_le_l k j G e : rep (Datatypes.S k) j G e -> rep k j G e.
Proof.
  intros [(D & H1 & H2 & H3 & H4 & H5)]. split; try done.
  - exists D. split; [by apply good_S|done].
  - eapply tree_of_le; [apply widths_16| |done]; lia.
  - eapply tree_of_le; [apply widths_16| |done]; lia.
  - eapply tree_of_le; [apply widths_24| |done]; lia.
  - eapply tree_of_le; [apply widths_24| |done]; lia.
  - lia.
Qed.
Lemma rep_le_r k j G e : rep k (Datatypes.S j) G e -> rep k j G e.
Proof. intros []. split; try done. lia. Qed.
Lemma rep_S k j G e : rep (Datatypes.S k) (Datatypes.S j) G e -> rep k j G e.
Proof. intros Hr. by apply rep_le_l, rep_le_r. Qed.

Lemma rep_node_u64 k j G e i a : rep k j G e -> g_nodes G !! i = Some a -> is_u64 i.
Proof. intros Hr Hi. pose proof (rp_ids _ _ _ _ Hr). pose proof (rp_node_ids _ _ _ _ Hr i a Hi). unfold uint. lia. Qed.
Lemma rep_edge_u64 k j G e i b : rep k j G e -> g_edges G !! i = Some b -> is_u64 i.
Proof. intros Hr Hi. pose proof (rp_ids _ _ _ _ Hr). pose proof (rp_edge_ids _ _ _ _ Hr i b Hi). unfold uint. lia. Qed.

Lemma rep_node_slot_ok k j G e i a : rep k j G e -> g_nodes G !! i = Some a -> slot_ok (an_slot a).
Proof.
  intros Hr Hi. destruct (rp_heap _ _ _ _ Hr) as (D & Hg & Hh & _). destruct (hr_node _ _ _ Hh i a Hi) as (_ & nd & Hnd & _).
  by eapply node_at_inv.
Qed.
Lemma rep_edge_slot_ok k j G e i b : rep k j G e -> g_edges G !! i = Some b -> slot_ok (ae_slot b).
Proof.
  intros Hr Hi. destruct (rp_heap _ _ _ _ Hr) as (D & Hg & Hh & _). destruct (hr_edge _ _ _ Hh i b Hi) as (_ & ed & Hed & _).
  by eapply edge_at_inv.
Qed.

(** ** Lookups *)

Lemma lookup_node k j G e id : rep k j G e -> is_u64 id ->
  lookup_slot NodeIndex (node_id_key id) e = Some (Ok (an_slot <$> g_nodes G !! id), e).
Proof.
  intros Hr Hid. destruct (rp_node_index _ _ _ _ Hr) as (m & Hi & Hx).
  eapply (lookup_slot_spec 16 widths_16 e NodeIndex _ m); [exact Hi| |].
  - apply indexed_lookup; [|done|exact Hx]. intros i b. by eapply rep_node_u64.
  - intros s. rewrite fmap_Some. intros (a & Ha & ->). by eapply rep_node_slot_ok.
Qed.

Lemma lookup_edge k j G e id : rep k j G e -> is_u64 id ->
  lookup_slot EdgeIndex (edge_id_key id) e = Some (Ok (ae_slot <$> g_edges G !! id), e).
Proof.
  intros Hr Hid. destruct (rp_edge_index _ _ _ _ Hr) as (m & Hi & Hx).
  eapply (lookup_slot_spec 16 widths_16 e EdgeIndex _ m); [exact Hi| |].
  - apply (indexed_lookup ae_slot (g_edges G)); [|done|exact Hx]. intros i b. by eapply rep_edge_u64.
  - intros s. rewrite fmap_Some. intros (a & Ha & ->). by eapply rep_edge_slot_ok.
Qed.

(** Reading changes nothing the representation sees. *)
Lemma rep_quiet k j G e s : rep k j G e -> ps_calm k s -> quiet (page_manager e) s -> rep k j G (set_pages e s).
Proof.
  intros Hr Hc Hq. destruct Hr as [(D & H1 & H2 & H3 & H4 & H5)]. split; try done. simpl. exists D.
  split; [by eapply quiet_good|]. split; [|split_and!; [done..|]].
  2:{ intros foreign Ht. destruct (H5 foreign Ht) as [H6 H7]. split; [done|]. eapply slots_only; [|apply keeps_slots_refl|exact H7].
      by apply (quiet_slots D). }
  eapply heap_rep_mono; [| |exact H2].
  - intros x y. by rewrite (quiet_node_at _ _ _ Hq).
  - intros x y. by rewrite (quiet_edge_at _ _ _ Hq).
Qed.

Lemma get_node_rep k j G e id : rep k j G e -> is_u64 id ->
  exists e', rep k j G e' /\ id_allocator e' = id_allocator e /\
    match g_nodes G !! id with
    | Some a => exists nd, get_node id e = Some (Ok (Some nd), e') /\ node_rep G id a nd
    | None => get_node id e = Some (Ok None, e')
    end.
Proof.
  intros Hr Hid. pose proof (lookup_node k j G e id Hr Hid) as El. unfold get_node. rewrite (hbind_ok _ _ _ _ _ El).
  destruct (g_nodes G !! id) as [a|] eqn:Ea; [|by exists e]. simpl.
  destruct (rp_heap _ _ _ _ Hr) as (D & Hg & Hh & _). destruct (hr_node _ _ _ Hh id a Ea) as (_ & nd & Hnd & Hrep).
  destruct (node_at_inv _ _ _ _ _ Hg Hnd) as (Hb & _ & _). destruct Hg as [Hc Hok].
  destruct (read_record_spec k MIN_RECORD D _ _ _ Hc Hok Hb) as (s1 & Er & Hc1 & Hq).
  exists (set_pages e s1). split; [by apply rep_quiet|]. split; [done|]. exists nd. split; [|done].
  unfold hbind, on_pages. rewrite Er. unfold node_at in Hnd. rewrite Hb in Hnd. cbn [mbind option_bind] in Hnd. by rewrite Hnd.
Qed.

Lemma get_edge_rep k j G e id : rep k j G e -> is_u64 id ->
  exists e', rep k j G e' /\ id_allocator e' = id_allocator e /\
    match g_edges G !! id with
    | Some b => exists ed, get_edge id e = Some (Ok (Some ed), e') /\ edge_rep G id b ed
    | None => get_edge id e = Some (Ok None, e')
    end.
Proof.
  intros Hr Hid. pose proof (lookup_edge k j G e id Hr Hid) as El. unfold get_edge. rewrite (hbind_ok _ _ _ _ _ El).
  destruct (g_edges G !! id) as [b|] eqn:Eb; [|by exists e]. simpl.
  destruct (rp_heap _ _ _ _ Hr) as (D & Hg & Hh & _). destruct (hr_edge _ _ _ Hh id b Eb) as (_ & ed & Hed & Hrep).
  destruct (edge_at_inv _ _ _ _ _ Hg Hed) as (Hb & _ & _). destruct Hg as [Hc Hok].
  destruct (read_record_spec k MIN_RECORD D _ _ _ Hc Hok Hb) as (s1 & Er & Hc1 & Hq).
  exists (set_pages e s1). split; [by apply rep_quiet|]. split; [done|]. exists ed. split; [|done].
  unfold hbind, on_pages. rewrite Er. unfold edge_at in Hed. rewrite Hb in Hed. cbn [mbind option_bind] in Hed. by rewrite Hed.
Qed.
(** ** Creating a node *)

Lemma overlay_good n D (s : S) : good n D s -> good n D (mkOverlay ∅ s).
Proof. intros [Hc Hh]. split; [split; [done|]; intros p b; simpl; by rewrite lookup_empty|exact Hh]. Qed.

Lemma overlay_rep G D (s : S) : heap_rep G D s -> heap_rep G D (mkOverlay ∅ s).
Proof. by apply heap_rep_mono. Qed.

Lemma no_properties : build_property_records ∅ = Some [].
Proof. done. Qed.

(** Entering an entity into a tree, and taking it out. *)
Lemma tree_put {A} K k kf sf live (g : gmap Z A) e x id a : widths_ok K SLOT_BYTES ->
  (forall i j a b, is_u64 i -> is_u64 j -> kf i a = kf j b -> i = j) ->
  (forall i b, g !! i = Some b -> is_u64 i) -> is_u64 id -> g !! id = None -> live a = true ->
  key_ok K (kf id a) -> slot_ok (sf a) -> tree_of K (Datatypes.S k) kf sf live g (index_of x e) ->
  exists t, on_index x (BTree.insert (kf id a) (encode_slot_ref (sf a))) e = Some (Ok tt, set_index x e t) /\
    tree_of K k kf sf live (<[id := a]> g) t.
Proof.
  intros HK Hinj Hu Hid Hn Hl Hk Hs (m & Hi & Hx). destruct (on_index_insert K HK e x k m _ _ Hi Hk Hs) as (t & E & Ht).
  exists t. split; [done|]. eexists. split; [exact Ht|]. by apply indexed_put.
Qed.

Lemma tree_kill {A} K k kf sf live (g : gmap Z A) e x id a a' : widths_ok K SLOT_BYTES ->
  (forall i j a b, is_u64 i -> is_u64 j -> kf i a = kf j b -> i = j) ->
  (forall i b, g !! i = Some b -> is_u64 i) -> g !! id = Some a -> live a' = false ->
  tree_of K (Datatypes.S k) kf sf live g (index_of x e) ->
  exists f t, on_index x (tree_delete config_default (kf id a)) e = Some (Ok f, set_index x e t) /\
    tree_of K k kf sf live (<[id := a']> g) t.
Proof.
  intros HK Hinj Hu Ha Hl (m & Hi & Hx). destruct (on_index_delete K HK e x k m (kf id a) Hi) as (f & t & E & Ht).
  exists f, t. split; [done|]. eexists. split; [exact Ht|]. by apply indexed_kill.
Qed.

Lemma tree_same {A} K k kf sf live (g : gmap Z A) t id a a' :
  g !! id = Some a -> live a' = live a -> kf id a' = kf id a -> sf a' = sf a ->
  tree_of K k kf sf live g t -> tree_of K k kf sf live (<[id := a']> g) t.
Proof. intros Ha E1 E2 E3 (m & Hi & Hx). exists m. split; [done|]. by eapply indexed_same. Qed.

Lemma node_kf_inj i j (a b : ANode) : is_u64 i -> is_u64 j -> node_kf i a = node_kf j b -> i = j.
Proof. apply node_key_inj. Qed.
Lemma edge_kf_inj i j (a b : AEdge) : is_u64 i -> is_u64 j -> edge_kf i a = edge_kf j b -> i = j.
Proof. apply node_key_inj. Qed.
Lemma label_kf_inj i j a b : is_u64 i -> is_u64 j -> label_kf i a = label_kf j b -> i = j.
Proof. apply label_key_inj. Qed.
Lemma type_kf_inj i j a b : is_u64 i -> is_u64 j -> type_kf i a = type_kf j b -> i = j.
Proof. apply label_key_inj. Qed.

(** An absent id is found neither in the map nor in the tree. *)
Lemma search_fresh {A} K k kf sf live (g : gmap Z A) t id a : widths_ok K SLOT_BYTES ->
  (forall i j a b, is_u64 i -> is_u64 j -> kf i a = kf j b -> i = j) ->
  (forall i b, g !! i = Some b -> is_u64 i) -> is_u64 id -> g !! id = None -> tree_of K k kf sf live g t ->
  search t (kf id a) = Some None.
Proof.
  intros HK Hinj Hu Hid Hn (m & Hi & Hx). eapply search_absent; [exact HK|exact Hi|].
  destruct (m !! kf id a) as [v|] eqn:Em; [|done]. apply Hx in Em as (i & b & Hb & _ & E & _).
  apply Hinj in E; [congruence|done|by eauto].
Qed.

Lemma fresh_id k j G e : rep k (Datatypes.S j) G e ->
  is_u64 (next_id (id_allocator e)) /\ g_nodes G !! next_id (id_allocator e) = None /\
  g_edges G !! next_id (id_allocator e) = None /\
  wrap 64 (next_id (id_allocator e) + 1) = next_id (id_allocator e) + 1.
Proof.
  intros Hr. pose proof (rp_ids _ _ _ _ Hr). split_and!.
  - unfold uint. lia.
  - destruct (g_nodes G !! _) eqn:E; [|done]. apply (rp_node_ids _ _ _ _ Hr) in E. lia.
  - destruct (g_edges G !! _) eqn:E; [|done]. apply (rp_edge_ids _ _ _ _ Hr) in E. lia.
  - apply wrap_id. unfold uint. lia.
Qed.

Lemma create_node_rep k j G e turns now label :
  rep (Datatypes.S k) (Datatypes.S j) G e -> turns ≠ [] -> is_u32 label ->
  exists s e', create_node turns now (mkNb label ∅) e = Some (Ok (s, next_id (id_allocator e)), e') /\
    rep k j (put_anode G (next_id (id_allocator e)) (mkAN s label false)) e' /\
    next_id (id_allocator e') = next_id (id_allocator e) + 1.
Proof.
  intros Hr Ht Hl. destruct (fresh_id _ _ _ _ Hr) as (Hid & Hfn & _ & Hw). set (id := next_id (id_allocator e)) in *.
  pose proof (fun i a => rep_node_u64 _ _ _ _ i a Hr) as Hu.
  set (e1 := set_ids e (mkIds (wrap 64 (id + 1)))). set (nd := node_new id label).
  assert (search_index NodeIndex (node_id_key id) e1 = Some (Ok None, e1)) as Esr.
  { unfold search_index. change (node_id_key id) with (node_kf id (mkAN SLOT_NULL label false)).
    change (index_of NodeIndex e1) with (node_index e).
    by rewrite (search_fresh 16 _ node_kf an_slot (fun _ => true) (g_nodes G) _ id (mkAN SLOT_NULL label false)
                 widths_16 node_kf_inj Hu Hid Hfn (rp_node_index _ _ _ _ Hr)). }
  destruct (autocommit_spec e1 turns (now 0%nat) (node_resource_id id) (rp_idle _ _ _ _ Hr) Ht) as (tx & m & E1 & Hb).
  set (e2 := set_journal e1 m (wal_writer e1)) in *.
  destruct (rp_heap _ _ _ _ Hr) as (D & Hg & Hh & Hnp & Hep & Htidy).
  destruct (prepare_into_pending_spec k D (mkOverlay ∅ (page_manager e)) (node_pages e) (node_encode nd) PtSlottedData)
    as (r & o & L & D' & E2 & Hins & HL' & HLs & Hcv);
    [apply (overlay_good _ _ _ Hg)|apply (overlay_good _ _ _ Hg)|done|apply pack_le_ok|rewrite length_node_encode; vm_compute; split; lia|].
  assert (on_pending_list NodePages (prepare_into_pending (node_encode nd) PtSlottedData) ∅ e2
    = Some (Ok (r, pending o), set_list NodePages (set_pages e2 (base o)) L)) as E2'.
  { unfold on_pending_list. simpl. by rewrite E2. }
  set (e3 := set_list NodePages (set_pages e2 (base o)) L) in *.
  assert (mkOverlay (pending o) (page_manager e3) = o) as Eo by (by destruct o).
  assert (good k D' (mkOverlay (pending o) (page_manager e3))) as Hgo by (rewrite Eo; split; apply Hins).
  destruct (commit_pages_spec k D' e3 now tx (pending o) Hgo (busy_ready _ _ _ Hb) (rp_wal _ _ _ _ Hr))
    as (s4 & l4 & m4 & w4 & E4 & Hg4 & Hrec4 & Hi4 & Hw4 & Hs4). rewrite Eo in Hrec4, Hs4.
  set (e4 := set_pages (set_journal (set_wal e3 l4 w4) m4 w4) s4) in *.
  set (a := mkAN r label false).
  destruct (tree_put 16 k node_kf an_slot (fun _ => true) (g_nodes G) e4 NodeIndex id a widths_16 node_kf_inj Hu Hid Hfn eq_refl
    (node_key_ok id) (ins_range _ _ _ _ _ _ _ Hins) (rp_node_index _ _ _ _ Hr)) as (t5 & E5 & Ht5).
  set (e5 := set_index NodeIndex e4 t5) in *.
  destruct (tree_put 24 k label_kf an_slot (negb ∘ an_deleted) (g_nodes G) e5 LabelIndex id a widths_24 label_kf_inj Hu Hid Hfn eq_refl
    (label_key_ok _ id) (ins_range _ _ _ _ _ _ _ Hins) (rp_label_index _ _ _ _ Hr)) as (t6 & E6 & Ht6).
  set (e6 := set_index LabelIndex e5 t6) in *.
  assert (create_node_atomic turns now nd [] e1 = Some (Ok r, e6)) as Eall.
  { unfold create_node_atomic. change (node_id nd) with id.
    destruct (Z.eqb_spec id 0) as [E|_]; [pose proof (rp_ids _ _ _ _ Hr); lia|]. cbv zeta.
    rewrite (hbind_ok _ _ _ _ _ Esr), (hbind_ok _ _ _ _ _ E1). cbn [rev prepare_properties].
    rewrite (hbind_ok _ _ _ _ _ (eq_refl : hret (SLOT_NULL, [], ∅) e2 = _)). cbn [fst snd].
    change (set_node_first nd SLOT_NULL) with nd.
    rewrite (hbind_ok _ _ _ _ _ (or_rollback_ok _ _ _ _ _ _ E2')). cbn [fst snd].
    rewrite (hbind_ok _ _ _ _ _ E4), (hbind_ok _ _ _ _ _ E5). by rewrite (hbind_ok _ _ _ _ _ E6). }
  exists r, e6. split; [|split].
  - unfold create_node, nb_into_parts. cbn [nb_label_id nb_properties].
    rewrite (hbind_ok _ _ _ _ _ (eq_refl : allocate_id e = Some (Ok id, e1))), no_properties.
    rewrite (hbind_ok _ _ _ _ _ (eq_refl : unwrap (Some []) e1 = _)). change (with_node_id (node_new 0 label) id) with nd.
    by rewrite (hbind_ok _ _ _ _ _ Eall).
  - pose proof (node_inserted_rep k G D D' _ _ r id label (overlay_rep _ _ _ Hh) Hfn Hid Hl Hins) as Hh'.
    split.
    + exists D'. split; [exact Hg4|]. split; [|split_and!].
      * apply (heap_rep_mono (S := Overlay S) _ D' D' o); [| |exact Hh']; intros x y; unfold node_at, edge_at; by rewrite <- Hrec4.
      * exact HL'.
      * intros p Hp. apply (ins_grow _ _ _ _ _ _ _ Hins). by apply Hep.
      * intros foreign Hti. destruct (Htidy foreign Hti) as [Hcov Honly]. split.
        -- intros p Hp. destruct (Hcv p Hp) as [Hp'|Hp']; [|by left]. destruct (Hcov p Hp') as [Hp''|?]; [left; by apply HLs|by right].
        -- apply (slots_only (S := Overlay S) foreign (put_anode G id a) _ D' o); [exact Hs4|apply keeps_slots_refl|].
           eapply inserted_only; [exact Hins|apply keeps_slots_node; congruence| |exact Honly].
           left. exists id, a. simpl. by rewrite lookup_insert_eq.
    + exact Hi4.
    + exact Hw4.
    + exact Ht5.
    + eapply tree_of_le; [apply widths_16| |exact (rp_edge_index _ _ _ _ Hr)]. lia.
    + exact Ht6.
    + eapply tree_of_le; [apply widths_24| |exact (rp_type_index _ _ _ _ Hr)]. lia.
    + simpl. rewrite Hw. pose proof (rp_ids _ _ _ _ Hr). fold id. lia.
    + simpl. rewrite Hw. intros i a'. destruct (decide (i = id)) as [->|Hne].
      * pose proof (rp_ids _ _ _ _ Hr). fold id in H. lia.
      * rewrite lookup_insert_ne by done. intros Hi. apply (rp_node_ids _ _ _ _ Hr) in Hi. fold id in Hi. lia.
    + simpl. rewrite Hw. intros i b Hi. apply (rp_edge_ids _ _ _ _ Hr) in Hi. fold id in Hi. lia.
    + exact (rp_adj _ _ _ _ Hr).
    + pose proof (rp_size _ _ _ _ Hr). simpl. lia.
    + simpl. intros i a'. rewrite lookup_insert_Some. intros [[_ <-]|[_ Hi]]; [done|by eapply rp_labels].
    + exact (rp_types _ _ _ _ Hr).
  - simpl. exact Hw.
Qed.
(** ** Creating a relationship *)

Definition link_edge G (id : Z) (b : AEdge) : Graph :=
  set_adj (set_adj (put_aedge G id b) Out (ae_src b) (id :: g_adj G Out (ae_src b)))
    In (ae_dst b) (id :: g_adj G In (ae_dst b)).

Lemma link_edge_adj G id b d n : g_adj (link_edge G id b) d n = if decide (n = ae_end d b) then id :: g_adj G d n else g_adj G d n.
Proof.
  simpl. destruct d; repeat case_decide; try done; try (destruct_and!; subst; done); exfalso; naive_solver.
Qed.

(** One side wired on the pending layer. *)
Lemma on_pending_wire n G D e d i b a pend :
  good n D (mkOverlay pend (page_manager e)) -> heap_rep G D (mkOverlay pend (page_manager e)) ->
  g_edges G !! i = Some b -> i ∉ g_adj G d (ae_end d b) -> g_nodes G !! ae_end d b = Some a ->
  exists o, on_pending (wire d (ae_slot b) (an_slot a)) pend e = Some (Ok (tt, pending o), set_pages e (base o)) /\
    good n D o /\ heap_rep (set_adj G d (ae_end d b) (i :: g_adj G d (ae_end d b))) D o /\
    same_slots D (mkOverlay pend (page_manager e)) o.
Proof.
  intros Hg Hh Hb Hni Ha. destruct (wire_rep n G D _ d i b a Hg Hh Hb Hni Ha) as (o & E & Hg' & Hh' & Hsl').
  exists o. unfold on_pending. by rewrite E.
Qed.

Lemma adj_fresh k j G e d n id : rep k j G e -> g_edges G !! id = None -> id ∉ g_adj G d n.
Proof. intros Hr Hid (b & Hb & _)%(rp_adj _ _ _ _ Hr). congruence. Qed.

Lemma create_edge_rep k j G e turns now ty src dst a1 a2 id :
  rep (Datatypes.S k) j G e -> turns ≠ [] -> is_u32 ty -> is_u64 src -> is_u64 dst ->
  0 < id < next_id (id_allocator e) -> is_u64 id -> g_edges G !! id = None ->
  g_nodes G !! src = Some a1 -> g_nodes G !! dst = Some a2 ->
  exists s e', create_edge_atomic turns now (edge_new id ty src dst (an_slot a1) (an_slot a2)) [] e = Some (Ok s, e') /\
    rep k j (link_edge G id (mkAE s ty src dst false)) e' /\ id_allocator e' = id_allocator e.
Proof.
  intros Hr Ht Hty Hsrc Hdst Hrange Hid Hfe Ha1 Ha2. pose proof (fun i b => rep_edge_u64 _ _ _ _ i b Hr) as Hu.
  set (ed := edge_new id ty src dst (an_slot a1) (an_slot a2)).
  assert (search_index EdgeIndex (edge_id_key id) e = Some (Ok None, e)) as Esr.
  { unfold search_index. change (edge_id_key id) with (edge_kf id (mkAE SLOT_NULL ty src dst false)).
    change (index_of EdgeIndex e) with (edge_index e).
    by rewrite (search_fresh 16 _ edge_kf ae_slot (fun _ => true) (g_edges G) _ id (mkAE SLOT_NULL ty src dst false)
                 widths_16 edge_kf_inj Hu Hid Hfe (rp_edge_index _ _ _ _ Hr)). }
  destruct (autocommit_spec e turns (now 0%nat) (edge_resource_id id) (rp_idle _ _ _ _ Hr) Ht) as (tx & m & E1 & Hb).
  set (e2 := set_journal e m (wal_writer e)) in *.
  destruct (rp_heap _ _ _ _ Hr) as (D & Hg & Hh & Hnp & Hep & Htidy).
  assert (edge_ok ed) as Hok.
  { apply edge_new_ok; try done; by eapply rep_node_slot_ok. }
  destruct (prepare_into_pending_spec k D (mkOverlay ∅ (page_manager e)) (edge_pages e) (edge_encode ed) PtSlottedData)
    as (r & o & L & D' & E2 & Hins & HL' & HLs & Hcv);
    [apply (overlay_good _ _ _ Hg)|apply (overlay_good _ _ _ Hg)|done|apply pack_le_ok|rewrite length_edge_encode; vm_compute; split; lia|].
  assert (on_pending_list EdgePages (prepare_into_pending (edge_encode ed) PtSlottedData) ∅ e2
    = Some (Ok (r, pending o), set_list EdgePages (set_pages e2 (base o)) L)) as E2'.
  { unfold on_pending_list. simpl. by rewrite E2. }
  set (e3 := set_list EdgePages (set_pages e2 (base o)) L) in *. set (b := mkAE r ty src dst false).
  assert (mkOverlay (pending o) (page_manager e3) = o) as Eo by (by destruct o).
  pose proof (edge_inserted_rep k G D D' _ _ r id ty src dst a1 a2 (overlay_rep _ _ _ Hh) Hfe Ha1 Ha2 Hok Hins) as Hh3.
  assert (forall d n, id ∉ g_adj G d n) as Hnot by (intros d n; by eapply adj_fresh).
  destruct (on_pending_wire k (put_aedge G id b) D' e3 Out id b a1 (pending o)) as (o1 & W1 & Hg1 & Hh1 & Hs1);
    [rewrite Eo; split; apply Hins|by rewrite Eo|apply lookup_insert_eq|apply Hnot|done|].
  set (e3a := set_pages e3 (base o1)) in *.
  assert (mkOverlay (pending o1) (page_manager e3a) = o1) as Eo1 by (by destruct o1).
  destruct (on_pending_wire k (set_adj (put_aedge G id b) Out src (id :: g_adj G Out src)) D' e3a In id b a2 (pending o1))
    as (o2 & W2 & Hg2 & Hh2 & Hs2); [by rewrite Eo1|by rewrite Eo1|apply lookup_insert_eq| |done|].
  { simpl. apply Hnot. }
  set (e3b := set_pages e3a (base o2)) in *.
  assert (mkOverlay (pending o2) (page_manager e3b) = o2) as Eo2 by (by destruct o2).
  assert (good k D' (mkOverlay (pending o2) (page_manager e3b))) as Hgo by (by rewrite Eo2).
  destruct (commit_pages_spec k D' e3b now tx (pending o2) Hgo (busy_ready _ _ _ Hb) (rp_wal _ _ _ _ Hr))
    as (s4 & l4 & m4 & w4 & E4 & Hg4 & Hrec4 & Hi4 & Hw4 & Hs4). rewrite Eo2 in Hrec4, Hs4.
  set (e4 := set_pages (set_journal (set_wal e3b l4 w4) m4 w4) s4) in *.
  destruct (tree_put 16 k edge_kf ae_slot (fun _ => true) (g_edges G) e4 EdgeIndex id b widths_16 edge_kf_inj Hu Hid Hfe eq_refl
    (node_key_ok id) (ins_range _ _ _ _ _ _ _ Hins) (rp_edge_index _ _ _ _ Hr)) as (t5 & E5 & Ht5).
  set (e5 := set_index EdgeIndex e4 t5) in *.
  destruct (tree_put 24 k type_kf ae_slot (negb ∘ ae_deleted) (g_edges G) e5 TypeIndex id b widths_24 type_kf_inj Hu Hid Hfe eq_refl
    (label_key_ok _ id) (ins_range _ _ _ _ _ _ _ Hins) (rp_type_index _ _ _ _ Hr)) as (t6 & E6 & Ht6).
  set (e6 := set_index TypeIndex e5 t6) in *.
  exists r, e6. split; [|split; [|done]].
  - unfold create_edge_atomic. change (edge_id ed) with id. destruct (Z.eqb_spec id 0) as [E|_]; [lia|]. cbv zeta.
    rewrite (hbind_ok _ _ _ _ _ Esr), (hbind_ok _ _ _ _ _ E1). cbn [rev prepare_properties].
    rewrite (hbind_ok _ _ _ _ _ (eq_refl : hret (SLOT_NULL, [], ∅) e2 = _)). cbn [fst snd].
    change (set_edge_first ed SLOT_NULL) with ed.
    rewrite (hbind_ok _ _ _ _ _ (or_rollback_ok _ _ _ _ _ _ E2')). cbn [fst snd].
    change (source_node ed) with (an_slot a1). change (target_node ed) with (an_slot a2).
    destruct (hr_node _ _ _ Hh _ _ Ha1) as (-> & _). destruct (hr_node _ _ _ Hh _ _ Ha2) as (-> & _).
    unfold wire_source_adjacency_pending, wire_target_adjacency_pending. rewrite wire_source_side, wire_target_side.
    rewrite (hbind_ok _ _ _ _ _ (or_rollback_ok _ _ _ _ _ _ W1)). cbn [fst snd].
    rewrite (hbind_ok _ _ _ _ _ (or_rollback_ok _ _ _ _ _ _ W2)). cbn [fst snd].
    rewrite (hbind_ok _ _ _ _ _ E4), (hbind_ok _ _ _ _ _ E5). by rewrite (hbind_ok _ _ _ _ _ E6).
  - split.
    + exists D'. split; [exact Hg4|]. split; [|split_and!].
      * apply (heap_rep_mono (S := Overlay S) _ D' D' o2); [| |exact Hh2]; intros x y; unfold node_at, edge_at; by rewrite <- Hrec4.
      * intros p Hp. apply (ins_grow _ _ _ _ _ _ _ Hins). by apply Hnp.
      * exact HL'.
      * intros foreign Hti. destruct (Htidy foreign Hti) as [Hcov Honly]. split.
        -- intros p Hp. destruct (Hcv p Hp) as [Hp'|Hp']; [|by right]. destruct (Hcov p Hp') as [?|Hp'']; [by left|right; by apply HLs].
        -- rewrite Eo in Hs1. rewrite Eo1 in Hs2. pose proof (same_slots_trans _ _ _ _ Hs1 Hs2) as Hs12.
           apply (slots_only (S := Overlay S) foreign (link_edge G id b) _ D' o); [exact (same_slots_trans _ _ _ _ Hs12 Hs4)|apply keeps_slots_refl|].
           eapply inserted_only; [exact Hins|by apply (keeps_slots_edge G _ id b); [congruence|..]| |exact Honly].
           right. exists id, b. simpl. by rewrite lookup_insert_eq.
    + exact Hi4.
    + exact Hw4.
    + eapply tree_of_le; [apply widths_16| |exact (rp_node_index _ _ _ _ Hr)]. lia.
    + exact Ht5.
    + eapply tree_of_le; [apply widths_24| |exact (rp_label_index _ _ _ _ Hr)]. lia.
    + exact Ht6.
    + exact (rp_ids _ _ _ _ Hr).
    + exact (rp_node_ids _ _ _ _ Hr).
    + simpl. intros i b'. destruct (decide (i = id)) as [->|Hne]; [done|].
      rewrite lookup_insert_ne by done. apply (rp_edge_ids _ _ _ _ Hr).
    + intros d n i. rewrite link_edge_adj. cbn [g_edges link_edge set_adj put_aedge].
      destruct (decide (i = id)) as [->|Hne].
      * split.
        -- case_decide as Hn; [intros _; exists b; rewrite lookup_insert_eq; by rewrite Hn|]. by intros ?%Hnot.
        -- intros (b' & Hb' & _ & <-). rewrite lookup_insert_eq in Hb'. injection Hb' as <-. rewrite decide_True by done. left.
      * setoid_rewrite lookup_insert_ne; [|done]. rewrite <- (rp_adj _ _ _ _ Hr). case_decide; [|done]. set_solver.
    + pose proof (rp_size _ _ _ _ Hr). simpl. rewrite map_size_insert_None by done. lia.
    + exact (rp_labels _ _ _ _ Hr).
    + simpl. intros i b'. rewrite lookup_insert_Some. intros [[_ <-]|[_ Hi]]; [done|by eapply rp_types].
Qed.

Lemma create_rel_rep k j G e turns now ty src dst :
  rep (Datatypes.S k) (Datatypes.S j) G e -> turns ≠ [] -> is_u32 ty -> ty ≠ 0 -> is_u64 src -> is_u64 dst ->
  exists e', match g_nodes G !! src, g_nodes G !! dst with
    | Some _, Some _ =>
        exists s, create_relationship turns now (mkRb ty (Some src) (Some dst) ∅) e
            = Some (Ok (s, next_id (id_allocator e)), e') /\
          rep k j (link_edge G (next_id (id_allocator e)) (mkAE s ty src dst false)) e'
    | _, _ =>
        create_relationship turns now (mkRb ty (Some src) (Some dst) ∅) e = Some (Err SeNotFound, e') /\
        rep (Datatypes.S k) j G e'
    end /\ next_id (id_allocator e') = next_id (id_allocator e) + 1.
Proof.
  intros Hr Ht Hty Hnz Hsrc Hdst. destruct (fresh_id _ _ _ _ Hr) as (Hid & _ & Hfe & Hw).
  set (id := next_id (id_allocator e)) in *. set (e1 := set_ids e (mkIds (wrap 64 (id + 1)))).
  assert (rep (Datatypes.S k) j G e1) as Hr1.
  { destruct Hr as [H1 H2 H3 H4 H5 H6 H7 H8 H9 H10 H11 H12 H13 H14]. fold id in H8, H9, H10. split; try done; simpl; rewrite Hw.
    - lia.
    - intros i a Hi. apply H9 in Hi. lia.
    - intros i b Hi. apply H10 in Hi. lia. }
  unfold create_relationship, rb_into_parts, rb_build. cbn [rb_source_id rb_target_id rb_type_id rb_properties].
  destruct (Z.eqb_spec ty 0) as [?|_]; [done|].
  rewrite (hbind_ok _ _ _ _ _ (eq_refl : allocate_id e = Some (Ok id, e1))). unfold lookup_node_slot.
  cbn [source_id target_id edge_new].
  rewrite (hbind_ok _ _ _ _ _ (lookup_node _ _ _ _ src Hr1 Hsrc)).
  destruct (g_nodes G !! src) as [a1|] eqn:Ea1; cbn [fmap option_fmap option_map hget];
    [|exists e1; split; [by split|done]].
  rewrite (hbind_ok _ _ _ _ _ (eq_refl : hret (an_slot a1) e1 = _)).
  rewrite (hbind_ok _ _ _ _ _ (lookup_node _ _ _ _ dst Hr1 Hdst)).
  destruct (g_nodes G !! dst) as [a2|] eqn:Ea2; cbn [fmap option_fmap option_map hget];
    [|exists e1; split; [by split|done]].
  rewrite (hbind_ok _ _ _ _ _ (eq_refl : hret (an_slot a2) e1 = _)). rewrite no_properties.
  rewrite (hbind_ok _ _ _ _ _ (eq_refl : unwrap (Some []) e1 = _)).
  change (with_edge_ends _ id (an_slot a1) (an_slot a2)) with (edge_new id ty src dst (an_slot a1) (an_slot a2)).
  destruct (create_edge_rep k j G e1 turns now ty src dst a1 a2 id Hr1 Ht Hty Hsrc Hdst) as (s & e' & E & Hr' & Hids); try done.
  { pose proof (rp_ids _ _ _ _ Hr). fold id in H. simpl. rewrite Hw. lia. }
  exists e'. split; [|by rewrite Hids]. exists s. by rewrite (hbind_ok _ _ _ _ _ E).
Qed.
(** ** Deleting *)

Definition without (id : Z) (l : list Z) : list Z := filter (fun x => x ≠ id) l.

Definition unlink_edge G (id : Z) (b : AEdge) : Graph :=
  put_aedge
    (set_adj (set_adj G Out (ae_src b) (without id (g_adj G Out (ae_src b))))
       In (ae_dst b) (without id (g_adj G In (ae_dst b)))) id (tombstone_edge b).

Lemma unlink_edge_adj G id b d n :
  g_adj (unlink_edge G id b) d n = if decide (n = ae_end d b) then without id (g_adj G d n) else g_adj G d n.
Proof.
  simpl. destruct d; repeat case_decide; try done; try (destruct_and!; subst; done); exfalso; naive_solver.
Qed.

Lemma on_pages_ok {A} (m : H S A) e a s : m (page_manager e) = Some (Ok a, s) -> on_pages m e = Some (Ok a, set_pages e s).
Proof. intros E. unfold on_pages. by rewrite E. Qed.

Lemma quiet_heap_rep G D (s s' : S) : quiet s s' -> heap_rep G D s -> heap_rep G D s'.
Proof.
  intros Hq. apply heap_rep_mono; intros x y; [by rewrite (quiet_node_at _ _ _ Hq)|by rewrite (quiet_edge_at _ _ _ Hq)].
Qed.

Lemma delete_edge_rep k j G e turns now id b :
  rep (Datatypes.S k) j G e -> turns ≠ [] -> is_u64 id -> g_edges G !! id = Some b -> ae_deleted b = false ->
  exists e', delete_edge turns now id e = Some (Ok tt, e') /\ rep k j (unlink_edge G id b) e' /\
    id_allocator e' = id_allocator e.
Proof.
  intros Hr Ht Hid Hb Hlive. pose proof (fun i b => rep_edge_u64 _ _ _ _ i b Hr) as Hu.
  pose proof (lookup_edge _ _ _ _ _ Hr Hid) as El. rewrite Hb in El. cbn [fmap option_fmap option_map] in El.
  destruct (autocommit_spec e turns (now 0%nat) (edge_resource_id id) (rp_idle _ _ _ _ Hr) Ht) as (tx & m & E1 & Hbusy).
  set (e1 := set_journal e m (wal_writer e)) in *.
  destruct (rp_heap _ _ _ _ Hr) as (D & Hg & Hh & Hnp & Hep & Htidy).
  destruct (hr_edge _ _ _ Hh id b Hb) as (Hnull & ed & Hed & Hrep).
  destruct (get_edge_at_spec _ D (page_manager e1) _ ed Hg Hed) as (s2 & E2 & Hg2 & Hq2).
  apply on_pages_ok in E2. set (e2 := set_pages e1 s2) in *. pose proof (quiet_heap_rep _ _ _ _ Hq2 Hh) as Hh2.
  destruct Hrep as (R1 & R2 & R3 & R4 & R5 & R6 & R7).
  destruct (R7 Out) as (a1 & Ha1 & Hsn), (R7 In) as (a2 & Ha2 & Htn). simpl in Ha1, Ha2, Hsn, Htn.
  assert (forall d, id ∈ g_adj G d (ae_end d b)) as Hin by (intros d; apply (rp_adj _ _ _ _ Hr); eauto).
  destruct (unwire_rep _ G D s2 Out id b a1 Hg2 Hh2 Hb (Hin Out) Ha1) as (r3 & s3 & E3 & Hg3 & Hh3 & Hs3).
  apply (on_pages_ok (unwire Out (ae_slot b) (an_slot a1)) e2) in E3. set (e3 := set_pages e2 s3) in *.
  destruct (unwire_rep _ _ D s3 In id b a2 Hg3 Hh3 Hb) as (r4 & s4 & E4 & Hg4 & Hh4 & Hs4); [apply (Hin In)|done|].
  apply (on_pages_ok (unwire In (ae_slot b) (an_slot a2)) e3) in E4. set (e4 := set_pages e3 s4) in *.
  destruct (hr_edge _ _ _ Hh4 id b Hb) as (_ & ed4 & Hed4 & Hrep4).
  destruct (get_edge_at_spec _ D s4 _ ed4 Hg4 Hed4) as (s5 & E5 & Hg5 & Hq5).
  apply (on_pages_ok (get_edge_at (ae_slot b)) e4) in E5. set (e5 := set_pages e4 s5) in *.
  pose proof (quiet_heap_rep _ _ _ _ Hq5 Hh4) as Hh5. rewrite <- (quiet_edge_at _ _ _ Hq5) in Hed4.
  destruct (edge_at_inv _ _ _ _ _ Hg5 Hed4) as (_ & Hok & _). destruct (mark_edge_data _ Hok) as [Hok' _].
  destruct (put_edge_spec _ D s5 _ _ _ Hg5 Hed4 Hok') as (s6 & E6 & Hg6 & He6 & Hn6 & Hs6).
  apply (on_pages_ok (overwrite_record (ae_slot b) _) e5) in E6. set (e6 := set_pages e5 s6) in *.
  pose proof (mark_edge_rep _ D s5 s6 id b ed4 Hh5 Hb Hed4 Hok He6 Hn6) as Hh6.
  destruct (tree_kill 24 k type_kf ae_slot (negb ∘ ae_deleted) (g_edges G) e6 TypeIndex id b (tombstone_edge b)
    widths_24 type_kf_inj Hu Hb eq_refl (rp_type_index _ _ _ _ Hr)) as (f & t7 & E7 & Ht7).
  set (e7 := set_index TypeIndex e6 t7) in *.
  destruct (log_spec e7 (now 0%nat) EdgeDelete (tx_id tx) (delete_payload id (ae_slot b) (tx_id tx) (edge_encode (mark_edge_deleted ed4))))
    as (l8 & w8 & E8 & Hw8);
    [exact (rp_wal _ _ _ _ Hr)|apply delete_payload_room; by rewrite length_edge_encode|]. set (e8 := set_wal e7 l8 w8) in *.
  destruct (commit_spec e8 tx (edge_resource_id id) (now 1%nat) Hbusy Hw8) as (m9 & w9 & E9 & Hi9 & Hw9).
  eexists. split; [|split].
  - unfold delete_edge. rewrite (hbind_ok _ _ _ _ _ El). cbn [hget].
    rewrite (hbind_ok _ _ _ _ _ (eq_refl : hret (ae_slot b) e = _)).
    rewrite (hbind_ok _ _ _ _ _ E1), (hbind_ok _ _ _ _ _ E2). rewrite Hsn, Htn.
    destruct (hr_node _ _ _ Hh _ _ Ha1) as (-> & _). destruct (hr_node _ _ _ Hh _ _ Ha2) as (-> & _).
    rewrite unwire_source_side, unwire_target_side.
    rewrite (hbind_ok _ _ _ _ _ (or_rollback_ok _ _ _ _ _ _ E3)), (hbind_ok _ _ _ _ _ (or_rollback_ok _ _ _ _ _ _ E4)).
    rewrite (hbind_ok _ _ _ _ _ E5). cbv zeta. rewrite (hbind_ok _ _ _ _ _ (or_rollback_ok _ _ _ _ _ _ E6)).
    assert (type_index_key (type_id (mark_edge_deleted ed4)) id = type_kf id b) as ->.
    { destruct Hrep4 as (_ & Hty & _). simpl. by rewrite Hty. }
    rewrite (hbind_ok _ _ _ _ _ (or_rollback_ok _ _ _ _ _ _ E7)), (hbind_ok _ _ _ _ _ (or_rollback_ok _ _ _ _ _ _ E8)).
    rewrite (hbind_ok _ _ _ _ _ E9). reflexivity.
  - split.
    + exists D. split; [by apply good_S|]. split; [exact Hh6|]. split_and!; [done..|].
      intros foreign Hti. destruct (Htidy foreign Hti) as [Hcov Honly]. split; [exact Hcov|].
      eapply slots_only; [|by apply (keeps_slots_edge G _ id (tombstone_edge b)); [intros b0; rewrite Hb; by intros [= ->]|..]|exact Honly].
      eapply same_slots_trans; [|exact Hs6]. eapply same_slots_trans; [|apply (quiet_slots D _ _ Hq5)].
      eapply same_slots_trans; [|exact Hs4]. eapply same_slots_trans; [|exact Hs3]. apply (quiet_slots D _ _ Hq2).
    + exact Hi9.
    + exact Hw9.
    + eapply tree_of_le; [apply widths_16| |exact (rp_node_index _ _ _ _ Hr)]. lia.
    + eapply tree_same; [exact Hb|done..|]. eapply tree_of_le; [apply widths_16| |exact (rp_edge_index _ _ _ _ Hr)]. lia.
    + eapply tree_of_le; [apply widths_24| |exact (rp_label_index _ _ _ _ Hr)]. lia.
    + exact Ht7.
    + exact (rp_ids _ _ _ _ Hr).
    + exact (rp_node_ids _ _ _ _ Hr).
    + simpl. intros i b'. destruct (decide (i = id)) as [->|Hne]; [intros _; by eapply rp_edge_ids|].
      rewrite lookup_insert_ne by done. apply (rp_edge_ids _ _ _ _ Hr).
    + intros d n i. rewrite unlink_edge_adj. cbn [g_edges unlink_edge set_adj put_aedge].
      assert (i ∈ (if decide (n = ae_end d b) then without id (g_adj G d n) else g_adj G d n) <-> i ≠ id /\ i ∈ g_adj G d n) as ->.
      { unfold without. case_decide as Hn; [by rewrite list_elem_of_filter|]. split; [|naive_solver]. intros Hi. split; [|done].
        intros ->. apply (rp_adj _ _ _ _ Hr) in Hi as (b' & Hb' & _ & <-). congruence. }
      rewrite (rp_adj _ _ _ _ Hr). split.
      * intros (Hne & b' & Hb' & ?). exists b'. by rewrite lookup_insert_ne.
      * intros (b' & Hb' & Hl' & Hend). destruct (decide (i = id)) as [->|Hne].
        -- rewrite lookup_insert_eq in Hb'. by injection Hb' as <-.
        -- rewrite lookup_insert_ne in Hb' by done. split; [done|]. eauto.
    + pose proof (rp_size _ _ _ _ Hr). simpl. rewrite map_size_insert_Some by done. lia.
    + exact (rp_labels _ _ _ _ Hr).
    + simpl. intros i b'. rewrite lookup_insert_Some. intros [[_ <-]|[_ Hi]]; [exact (rp_types _ _ _ _ Hr id b Hb)|by eapply rp_types].
  - done.
Qed.

Lemma delete_node_rep k j G e turns now id a :
  rep (Datatypes.S k) j G e -> turns ≠ [] -> is_u64 id -> g_nodes G !! id = Some a ->
  exists e', delete_node turns now id e = Some (Ok tt, e') /\ rep k j (put_anode G id (tombstone_node a)) e' /\
    id_allocator e' = id_allocator e.
Proof.
  intros Hr Ht Hid Ha. pose proof (fun i b => rep_node_u64 _ _ _ _ i b Hr) as Hu.
  pose proof (lookup_node _ _ _ _ _ Hr Hid) as El. rewrite Ha in El. cbn [fmap option_fmap option_map] in El.
  destruct (autocommit_spec e turns (now 0%nat) (node_resource_id id) (rp_idle _ _ _ _ Hr) Ht) as (tx & m & E1 & Hbusy).
  set (e1 := set_journal e m (wal_writer e)) in *.
  destruct (rp_heap _ _ _ _ Hr) as (D & Hg & Hh & Hnp & Hep & Htidy).
  destruct (hr_node _ _ _ Hh id a Ha) as (Hnull & nd & Hnd & Hrep).
  destruct (get_node_at_spec _ D (page_manager e1) _ nd Hg Hnd) as (s2 & E2 & Hg2 & Hq2).
  apply on_pages_ok in E2. set (e2 := set_pages e1 s2) in *. pose proof (quiet_heap_rep _ _ _ _ Hq2 Hh) as Hh2.
  assert (node_at D s2 (an_slot a) = Some nd) as Hnd2 by (by rewrite (quiet_node_at _ _ _ Hq2)).
  destruct (node_at_inv _ _ _ _ _ Hg2 Hnd2) as (_ & Hok & _). destruct (mark_node_data _ Hok) as [Hok' _].
  destruct (put_node_spec _ D s2 _ _ _ Hg2 Hnd2 Hok') as (s3 & E3 & Hg3 & Hn3 & He3 & Hs3).
  apply (on_pages_ok (overwrite_record (an_slot a) _) e2) in E3. set (e3 := set_pages e2 s3) in *.
  pose proof (mark_node_rep _ D s2 s3 id a nd Hh2 Ha Hnd2 Hok Hn3 He3) as Hh3.
  destruct (tree_kill 24 k label_kf an_slot (negb ∘ an_deleted) (g_nodes G) e3 LabelIndex id a (tombstone_node a)
    widths_24 label_kf_inj Hu Ha eq_refl (rp_label_index _ _ _ _ Hr)) as (f & t4 & E4 & Ht4).
  set (e4 := set_index LabelIndex e3 t4) in *.
  destruct (log_spec e4 (now 0%nat) NodeDelete (tx_id tx) (delete_payload id (an_slot a) (tx_id tx) (node_encode (mark_node_deleted nd))))
    as (l5 & w5 & E5 & Hw5);
    [exact (rp_wal _ _ _ _ Hr)|apply delete_payload_room; rewrite length_node_encode; unfold NODE_SIZE; lia|]. set (e5 := set_wal e4 l5 w5) in *.
  destruct (commit_spec e5 tx (node_resource_id id) (now 1%nat) Hbusy Hw5) as (m6 & w6 & E6 & Hi6 & Hw6).
  eexists. split; [|split].
  - unfold delete_node. rewrite (hbind_ok _ _ _ _ _ El). cbn [hget].
    rewrite (hbind_ok _ _ _ _ _ (eq_refl : hret (an_slot a) e = _)).
    rewrite (hbind_ok _ _ _ _ _ E1), (hbind_ok _ _ _ _ _ E2). cbv zeta.
    rewrite (hbind_ok _ _ _ _ _ (or_rollback_ok _ _ _ _ _ _ E3)).
    assert (label_index_key (label_id (mark_node_deleted nd)) id = label_kf id a) as ->.
    { destruct Hrep as (_ & Hlb & _). simpl. by rewrite Hlb. }
    rewrite (hbind_ok _ _ _ _ _ (or_rollback_ok _ _ _ _ _ _ E4)), (hbind_ok _ _ _ _ _ (or_rollback_ok _ _ _ _ _ _ E5)).
    rewrite (hbind_ok _ _ _ _ _ E6). reflexivity.
  - split.
    + exists D. split; [by apply good_S|]. split; [exact Hh3|]. split_and!; [done..|].
      intros foreign Hti. destruct (Htidy foreign Hti) as [Hcov Honly]. split; [exact Hcov|].
      eapply slots_only; [|apply (keeps_slots_node G id (tombstone_node a)); intros a0; rewrite Ha; by intros [= ->]|exact Honly].
      eapply same_slots_trans; [|exact Hs3]. apply (quiet_slots D _ _ Hq2).
    + exact Hi6.
    + exact Hw6.
    + eapply tree_same; [exact Ha|done..|]. eapply tree_of_le; [apply widths_16| |exact (rp_node_index _ _ _ _ Hr)]. lia.
    + eapply tree_of_le; [apply widths_16| |exact (rp_edge_index _ _ _ _ Hr)]. lia.
    + exact Ht4.
    + eapply tree_of_le; [apply widths_24| |exact (rp_type_index _ _ _ _ Hr)]. lia.
    + exact (rp_ids _ _ _ _ Hr).
    + simpl. intros i b'. destruct (decide (i = id)) as [->|Hne]; [intros _; by eapply rp_node_ids|].
      rewrite lookup_insert_ne by done. apply (rp_node_ids _ _ _ _ Hr).
    + exact (rp_edge_ids _ _ _ _ Hr).
    + exact (rp_adj _ _ _ _ Hr).
    + pose proof (rp_size _ _ _ _ Hr). simpl. lia.
    + simpl. intros i b'. rewrite lookup_insert_Some. intros [[_ <-]|[_ Hi]]; [exact (rp_labels _ _ _ _ Hr id a Ha)|by eapply rp_labels].
    + exact (rp_types _ _ _ _ Hr).
  - done.
Qed.

(** ** Scanning *)

Lemma adj_nodup k j G e d n : rep k j G e -> NoDup (g_adj G d n).
Proof.
  intros Hr. destruct (rp_heap _ _ _ _ Hr) as (D & _ & Hh & _). destruct (hr_chain _ _ _ Hh d n) as [_ Hn].
  by eapply NoDup_fmap_1.
Qed.

Lemma adj_length k j G e d n : rep k j G e -> (length (g_adj G d n) <= MAX_HOPS)%nat.
Proof.
  intros Hr. pose proof (rp_size _ _ _ _ Hr). enough (length (g_adj G d n) <= size (g_edges G))%nat by lia.
  rewrite <- (size_list_to_set (C := gset Z)) by (by eapply adj_nodup). rewrite <- size_dom.
  apply subseteq_size. intros i Hi%elem_of_list_to_set. apply (rp_adj _ _ _ _ Hr) in Hi as (b & Hb & _).
  by eapply elem_of_dom_2.
Qed.

(** What a scan reports of an edge, seen from one end. *)
Definition report (d : Direction) (r : EdgeRecord) : Z * Z * Z :=
  (edge_id r, type_id r, match d with Out => target_id r | In => source_id r end).
Definition type_ok (types : list Z) (ty : Z) : bool := (length types =? 0)%nat || bool_decide (ty ∈ types).
Definition areport G (d : Direction) (types : list Z) (i : Z) : option (Z * Z * Z) :=
  b ← g_edges G !! i; if type_ok types (ae_type b) then Some (i, ae_type b, ae_end (opposite d) b) else None.

Lemma report_chain G D (s : S) d types l recs : heap_rep G D s ->
  (forall i, i ∈ l -> exists b, g_edges G !! i = Some b /\ ae_deleted b = false) ->
  Forall2 (fun x r => edge_at D s x = Some r) (slot_of G <$> l) recs ->
  report d <$> filter (fun r => live_edge_rec r && type_matches types r = true) recs = omap (areport G d types) l.
Proof.
  intros Hh. revert recs. induction l as [|i l IH]; intros recs Hl Hf.
  - by apply Forall2_nil_inv_l in Hf as ->.
  - rewrite fmap_cons in Hf. apply Forall2_cons_inv_l in Hf as (r & recs' & Hr & Hf & ->).
    destruct (Hl i ltac:(left)) as (b & Hb & Hlive). rewrite (slot_of_lookup _ _ _ Hb) in Hr.
    destruct (hr_edge _ _ _ Hh i b Hb) as (_ & ed & Hed & R1 & R2 & R3 & R4 & R5 & _).
    assert (ed = r) as -> by congruence. rewrite Hlive in R5.
    assert (type_matches types r = type_ok types (ae_type b)) as Ety by (unfold type_matches; by rewrite R2).
    assert (areport G d types i = if type_ok types (ae_type b) then Some (report d r) else None) as Ea.
    { unfold areport. rewrite Hb. cbn. destruct (type_ok _ _); [|done]. unfold report. rewrite R1, R2, R3, R4. by destruct d. }
    cbn [omap list_omap]. rewrite Ea, <- (IH recs'); [|intros x Hx; apply Hl; by right|done].
    rewrite filter_cons, R5, Ety. cbn [negb andb]. by destruct (type_ok types (ae_type b)).
Qed.

Lemma walk_rep k j G e d id nd a types : rep k j G e -> g_nodes G !! id = Some a -> node_rep G id a nd ->
  exists recs s, walk d MAX_HOPS (first_of d nd) types (page_manager e) = Some (Ok recs, s) /\
    rep k j G (set_pages e s) /\ report d <$> recs = omap (areport G d types) (g_adj G d id).
Proof.
  intros Hr Ha Hnd. destruct (rp_heap _ _ _ _ Hr) as (D & Hg & Hh & _). destruct Hnd as (_ & _ & _ & _ & ->).
  destruct (hr_chain _ _ _ Hh d id) as [Hs _].
  destruct (walk_seg k D (page_manager e) d _ _ types Hg MAX_HOPS Hs) as (recs & s & E & Hg' & Hq & Hf).
  { unfold adj_slots. rewrite length_fmap. by eapply adj_length. }
  eexists _, s. split; [exact E|]. split; [apply rep_quiet; [done|apply Hg'|done]|].
  eapply report_chain; [exact Hh| |exact Hf]. intros i Hi. apply (rp_adj _ _ _ _ Hr) in Hi as (b & Hb & Hl & _). eauto.
Qed.

Lemma scan_rep k j G e d id types : rep k j G e -> is_u64 id ->
  exists l e', (match d with Out => scan_outgoing_edges | In => scan_incoming_edges end) id types e = Some (Ok l, e') /\
    rep k j G e' /\ id_allocator e' = id_allocator e /\
    (fun p => (edge_id p.1, type_id p.1, p.2)) <$> l
    = match g_nodes G !! id with Some _ => omap (areport G d types) (g_adj G d id) | None => [] end.
Proof.
  intros Hr Hid. destruct (get_node_rep k j G e id Hr Hid) as (e1 & Hr1 & Hids & Hget).
  destruct (g_nodes G !! id) as [a|] eqn:Ea.
  2:{ exists [], e1. split; [|done]. destruct d; unfold scan_outgoing_edges, scan_incoming_edges; by rewrite (hbind_ok _ _ _ _ _ Hget). }
  destruct Hget as (nd & Hget & Hnd). destruct (walk_rep k j G e1 d id nd a types Hr1 Ea Hnd) as (recs & s & E & Hr2 & Hrep).
  apply on_pages_ok in E. destruct d; cbn [first_of] in E.
  - exists ((fun r => (r, target_id r)) <$> recs), (set_pages e1 s). split; [|split_and!; [done|done|]].
    + unfold scan_outgoing_edges. by rewrite (hbind_ok _ _ _ _ _ Hget), (hbind_ok _ _ _ _ _ E).
    + rewrite <- Hrep, <- list_fmap_compose. done.
  - exists ((fun r => (r, source_id r)) <$> recs), (set_pages e1 s). split; [|split_and!; [done|done|]].
    + unfold scan_incoming_edges. by rewrite (hbind_ok _ _ _ _ _ Hget), (hbind_ok _ _ _ _ _ E).
    + rewrite <- Hrep, <- list_fmap_compose. done.
Qed.

(** ** Reading entities *)

Lemma read_null_chain depth acc e : read_chain depth SLOT_NULL acc e = Some (Ok acc, e).
Proof. by destruct depth. Qed.

Lemma read_null_property_chain e : read_property_chain SLOT_NULL e = Some (Ok ∅, e).
Proof. unfold read_property_chain. generalize MAX_CHAIN_DEPTH. intros n. apply read_null_chain. Qed.

Lemma graph_get_node_rep k j G e id : rep k j G e -> is_u64 id ->
  exists e', graph_get_node id e
      = Some (Ok (a ← g_nodes G !! id; if an_deleted a then None else Some (mkNodeView id (an_label a) ∅)), e') /\
    rep k j G e' /\ id_allocator e' = id_allocator e.
Proof.
  intros Hr Hid. destruct (get_node_rep k j G e id Hr Hid) as (e1 & Hr1 & Hids & Hget). unfold graph_get_node. exists e1.
  split; [|done]. destruct (g_nodes G !! id) as [a|]; [|by rewrite (hbind_ok _ _ _ _ _ Hget)].
  destruct Hget as (nd & Hget & R1 & R2 & R3 & R4 & _). rewrite (hbind_ok _ _ _ _ _ Hget), R3. cbn [mbind option_bind].
  destruct (an_deleted a); [done|]. cbn [negb]. unfold node_view. rewrite R4.
  rewrite (hbind_ok _ _ _ _ _ (hbind_ok _ _ _ _ _ (read_null_property_chain e1))). unfold hret. by rewrite R1, R2.
Qed.

Lemma get_relationship_rep k j G e id : rep k j G e -> is_u64 id ->
  exists e', get_relationship id e
      = Some (Ok (b ← g_edges G !! id;
                  if ae_deleted b then None else Some (mkRelView id (ae_type b) (ae_src b) (ae_dst b) ∅)), e') /\
    rep k j G e' /\ id_allocator e' = id_allocator e.
Proof.
  intros Hr Hid. destruct (get_edge_rep k j G e id Hr Hid) as (e1 & Hr1 & Hids & Hget). unfold get_relationship. exists e1.
  split; [|done]. destruct (g_edges G !! id) as [b|]; [|by rewrite (hbind_ok _ _ _ _ _ Hget)].
  destruct Hget as (ed & Hget & R1 & R2 & R3 & R4 & R5 & R6 & _). rewrite (hbind_ok _ _ _ _ _ Hget), R5. cbn [mbind option_bind].
  destruct (ae_deleted b); [done|]. cbn [negb]. unfold rel_view. rewrite R6.
  rewrite (hbind_ok _ _ _ _ _ (hbind_ok _ _ _ _ _ (read_null_property_chain e1))). unfold hret. by rewrite R1, R2, R3, R4.
Qed.

(** ** Scans over a secondary index *)

Lemma label_key_cmp l i l' j : is_u64 l -> is_u64 l' -> uint 128 i -> uint 128 j ->
  bytes_cmp (label_index_key l i) (label_index_key l' j) = match l ?= l' with Eq => i ?= j | c => c end.
Proof.
  intros Hl Hl' Hi Hj. unfold label_index_key, push_u128_be, push_u64_be, empty. cbn [app].
  rewrite bytes_cmp_app by (by rewrite !length_to_be). by rewrite !bytes_cmp_to_be.
Qed.

(** The keys between the two ends of a label's range are the label's. *)
Lemma label_range l l' i : is_u64 l -> is_u64 l' -> is_u64 i ->
  bytes_le (label_index_key l 0) (label_index_key l' i) = true /\
  bytes_lt (label_index_key l' i) (label_index_key l U128_MAX) = true <-> l' = l.
Proof.
  intros Hl Hl' Hi. unfold bytes_le, bytes_lt. unfold uint in *.
  rewrite !label_key_cmp by (unfold uint, U128_MAX; lia).
  rewrite (Z.compare_antisym l l'). destruct (Z.compare_spec l l') as [E|E|E]; cbn [CompOpp]; try (split; [intros []; done|lia]).
  split; [done|intros _]. split.
  - by destruct (Z.compare_spec 0 i); try lia.
  - destruct (Z.compare_spec i U128_MAX) as [F|F|F]; unfold U128_MAX in F; [lia|done|lia].
Qed.

(** Resolving entries whose slots hold records that decode and are kept. *)
Lemma resolve_spec {A} n D (decode : list Z -> option A) (keep : A -> bool) (Q : list Z -> A -> Prop) entries : forall e,
  good n D (page_manager e) ->
  Forall (fun kv => exists sl bs a, kv.2 = encode_slot_ref sl /\ slot_ok sl /\ hrec D (page_manager e) sl = Some bs /\
    decode bs = Some a /\ keep a = true /\ Q kv.1 a) entries ->
  exists l s, resolve decode keep entries e = Some (Ok l, set_pages e s) /\ good n D s /\ quiet (page_manager e) s /\
    Forall2 (fun kv a => Q kv.1 a) entries l.
Proof.
  induction entries as [|[k v] entries IH]; intros e Hg Hall.
  - exists [], (page_manager e). split_and!; try done. by destruct e.
  - apply Forall_cons in Hall as [(sl & bs & a & Ev & Hsl & Hbs & Hd & Hk & HQ) Hall']. cbn [fst snd] in Ev, HQ. subst v.
    destruct Hg as [Hc Hh]. destruct (read_record_spec n MIN_RECORD D _ sl bs Hc Hh Hbs) as (s1 & E1 & Hc1 & Hq1).
    assert (good n D s1) as Hg1 by (by eapply quiet_good; [|done|split]).
    destruct (IH (set_pages e s1) Hg1) as (l & s2 & E2 & Hg2 & Hq2 & Hf).
    { eapply Forall_impl; [exact Hall'|]. intros kv (sl' & bs' & a' & ? & ? & Hb' & ? & ? & ?). exists sl', bs', a'.
      split_and!; try done. simpl. by rewrite (quiet_hrec _ _ _ Hq1). }
    exists (a :: l), s2. cbn [resolve]. rewrite decode_encode_slot by done. cbn [hget].
    rewrite (hbind_ok _ _ _ _ _ (eq_refl : hret sl e = _)), (hbind_ok _ _ _ _ _ (on_pages_ok _ _ _ _ E1)), (hbind_ok _ _ _ _ _ E2).
    cbn [mbind option_bind]. rewrite Hd, Hk. split_and!; try done; [|by constructor].
    destruct Hq1 as [A1 B1], Hq2 as [A2 B2]. split; intros q; [by rewrite A2|by rewrite B2].
Qed.

Lemma views_pure {A B} (view : A -> H (Engine S W) B) (f : A -> B) l e :
  (forall a, a ∈ l -> view a e = Some (Ok (f a), e)) -> views view l e = Some (Ok (f <$> l), e).
Proof.
  induction l as [|a l IH]; intros Hv; [done|]. cbn [views].
  rewrite (hbind_ok _ _ _ _ _ (Hv a ltac:(left))), (hbind_ok _ _ _ _ _ (IH (fun x Hx => Hv x ltac:(by right)))). done.
Qed.

Lemma node_view_pure r e : nr_first_property r = SLOT_NULL ->
  node_view r e = Some (Ok (mkNodeView (node_id r) (label_id r) ∅), e).
Proof. intros E. unfold node_view. rewrite E. by rewrite (hbind_ok _ _ _ _ _ (read_null_property_chain e)). Qed.
Lemma rel_view_pure r e : er_first_property r = SLOT_NULL ->
  rel_view r e = Some (Ok (mkRelView (edge_id r) (type_id r) (source_id r) (target_id r) ∅), e).
Proof. intros E. unfold rel_view. rewrite E. by rewrite (hbind_ok _ _ _ _ _ (read_null_property_chain e)). Qed.

(** Entries in key order, all of one label, list their ids in ascending order. *)
Lemma ids_sorted {A} (id : A -> Z) (entries : list (list Z * list Z)) (l : list A) lab : is_u64 lab ->
  sorted entries -> Forall2 (fun kv a => is_u64 (id a) /\ kv.1 = label_index_key lab (id a)) entries l ->
  StronglySorted Z.lt (id <$> l).
Proof.
  intros Hlab Hs Hf. unfold sorted in Hs. induction Hf as [|kv a entries l [Hu Hk] Hf IH]; [constructor|].
  rewrite fmap_cons in Hs. apply StronglySorted_inv in Hs as [Hs Hall]. rewrite fmap_cons. constructor; [by apply IH|].
  clear IH Hs. induction Hf as [|kv' a' entries l [Hu' Hk'] Hf IH]; [constructor|]. rewrite fmap_cons.
  apply Forall_cons in Hall as [H1 H2]. constructor; [|by apply IH]. unfold klt in H1. apply bytes_lt_spec in H1.
  assert (bytes_cmp (label_index_key lab (id a)) (label_index_key lab (id a')) = Lt) as H3 by (rewrite <- Hk, <- Hk'; exact H1).
  rewrite label_key_cmp, Z.compare_refl in H3 by (unfold uint in *; lia). by apply Z.compare_lt_iff.
Qed.

Lemma scan_label_rep k j G e label : rep k j G e -> is_u64 label ->
  exists l e', scan_by_label label e = Some (Ok l, e') /\ rep k j G e' /\ id_allocator e' = id_allocator e /\
    StronglySorted Z.lt (n_id <$> l) /\
    forall v, v ∈ l <-> exists id a, g_nodes G !! id = Some a /\ an_deleted a = false /\ an_label a = label /\
      v = mkNodeView id label ∅.
Proof.
  intros Hr Hlab. destruct (rp_label_index _ _ _ _ Hr) as (m & Hi & Hx).
  destruct (index_range 24 widths_24 k _ m (label_index_key label 0) (label_index_key label U128_MAX) Hi) as (entries & Er & Hs & Hel).
  destruct (rp_heap _ _ _ _ Hr) as (D & Hg & Hh & _).
  set (Q := fun (key : list Z) (nd : NodeRecord) => exists a, g_nodes G !! node_id nd = Some a /\ an_deleted a = false /\
    an_label a = label /\ key = label_index_key label (node_id nd) /\ node_rep G (node_id nd) a nd).
  assert (forall kv, kv ∈ entries <-> exists id a, g_nodes G !! id = Some a /\ an_deleted a = false /\ an_label a = label /\
    kv = (label_index_key label id, encode_slot_ref (an_slot a))) as Hent.
  { intros [key v]. rewrite (Hel key v), (Hx key v). split.
    - intros ((id & a & Ha & Hl & -> & ->) & H1 & H2). apply negb_true_iff in Hl.
      assert (an_label a = label) as El.
      { pose proof (rp_labels _ _ _ _ Hr id a Ha) as Hla. eapply (label_range label); [done| |by eapply rep_node_u64|done].
        unfold uint in *. lia. }
      exists id, a. unfold label_kf. rewrite El. done.
    - intros (id & a & Ha & Hl & El & [= -> ->]). split.
      + exists id, a. unfold label_kf. rewrite El. simpl. by rewrite Hl.
      + apply label_range; [done..|by eapply rep_node_u64|done]. }
  destruct (resolve_spec k D node_decode live_node Q entries e Hg) as (recs & s & E & Hg' & Hq & Hf).
  { apply Forall_forall. intros kv (id & a & Ha & Hl & El & ->)%Hent.
    destruct (hr_node _ _ _ Hh id a Ha) as (_ & nd & Hnd & Hrep). destruct (node_at_inv _ _ _ _ _ Hg Hnd) as (Hb & Hok & Hsl).
    exists (an_slot a), (node_encode nd), nd. split_and!; try done.
    - by apply node_roundtrip.
    - destruct Hrep as (_ & _ & -> & _). by rewrite Hl.
    - pose proof Hrep as (Eid & _). exists a. rewrite Eid. done. }
  assert (forall nd, nd ∈ recs -> exists key, Q key nd) as HQ.
  { intros nd Hin. apply list_elem_of_lookup in Hin as [i Hri]. destruct (Forall2_lookup_r _ _ _ _ _ Hf Hri) as (kv & _ & Hq'). eauto. }
  exists ((fun r => mkNodeView (node_id r) (label_id r) ∅) <$> recs), (set_pages e s). split; [|split_and!].
  - unfold scan_by_label, scan_nodes_by_label.
    rewrite (hbind_ok (hbind _ _) _ e recs (set_pages e s)).
    + apply views_pure. intros nd (key & a & _ & _ & _ & _ & Hrep)%HQ. apply node_view_pure. apply Hrep.
    + erewrite hbind_ok; [exact E|]. unfold range. simpl. by rewrite Er.
  - apply rep_quiet; [done|apply Hg'|done].
  - done.
  - rewrite <- list_fmap_compose. change (StronglySorted Z.lt (node_id <$> recs)).
    eapply (ids_sorted node_id entries recs label Hlab Hs). eapply Forall2_impl; [exact Hf|].
    intros kv nd (a & Ha & _ & _ & Ek & _). split; [by eapply rep_node_u64|done].
  - intros v. rewrite list_elem_of_fmap. split.
    + intros (nd & -> & (key & a & Ha & Hl & El & _ & (_ & E2 & _))%HQ). exists (node_id nd), a. by rewrite E2, El.
    + intros (id & a & Ha & Hl & El & ->).
      assert ((label_index_key label id, encode_slot_ref (an_slot a)) ∈ entries) as Hin by (apply Hent; by exists id, a).
      apply list_elem_of_lookup in Hin as [i Hin]. destruct (Forall2_lookup_l _ _ _ _ _ Hf Hin) as (nd & Hnd & (a' & Ha' & _ & El' & Ek & Hrep)).
      cbn [fst] in Ek. apply label_key_inj in Ek; [|by eapply rep_node_u64..]. subst id.
      exists nd. destruct Hrep as (_ & E2 & _). split; [by rewrite E2, El'|]. by eapply list_elem_of_lookup_2.
Qed.
End Refine.
