(* ===== verification/GraphHistory.v ===== *)
(** * Histories of the graph API

    Sequences of graph operations on a fresh engine: they all return, and answer
    as the abstract graph; the example runs them on a concrete store and log. *)

From stdpp Require Import prelude list gmap sorting.
From Stdlib Require Import ZArith Lia.
From S2P Require Import Prelude Bytes Checksum LockTable WalRecord WalLog TxManager ValueCodec Key.
From S2P Require Import SlottedPage BTree BTreeNode BTreeSpec BTreeInsert BTreeMap HeapPage GraphRecord Adjacency Csr.
From S2P Require Import GraphHeap GraphHeapSpec GraphEngine GraphEngineSpec GraphHeapRep GraphApi GraphRefine.

(** ** Operations and answers *)

Inductive graph_op :=
| CreateNode (label : Z)
| CreateRel (ty src dst : Z)
| DeleteNode (id : Z)
| DeleteRel (id : Z)
| GetNode (id : Z)
| GetRel (id : Z)
| ScanEdges (d : Direction) (id : Z) (types : list Z)
| ScanLabel (label : Z).

Inductive graph_out :=
| OutCreated (s : SlotRef) (id : Z)
| OutDone
| OutNode (n : option Node)
| OutRel (r : option Relationship)
| OutEdges (l : list (Z * Z * Z))      (* edge id, type, id of the other end *)
| OutNodes (l : list Node)
| OutError (e : StorageError).

(** What an operation meets outside the engine: the other threads' turns while
    it waits for its lock, and the clock. *)
Record Env := mkEnv { env_turns : list Turn; env_now : nat -> Z }.

Section Runs.
Context {S : Type} `{PS : PageStore S} `{CS : Checksums} {W : Type} `{WL : WalLog W}.

(** A fresh engine over a store and a log, as [init] leaves it. *)
Definition engine_new (s : S) (w : W) (lsn : Z) : Engine S W :=
  mkEngine s lsn w tm_new tree_new tree_new tree_new tree_new tree_new [] [] [] (ids_new 1) [] [] holder_new.

Definition answer {A} (f : A -> graph_out) (r : result A StorageError) : graph_out :=
  match r with Ok a => f a | Err x => OutError x end.

Definition run_graph_op (v : Env) (op : graph_op) (e : Engine S W) : option (graph_out * Engine S W) :=
  match op with
  | CreateNode label => prod_map (answer (fun x => OutCreated x.1 x.2)) id <$>
      create_node (env_turns v) (env_now v) (mkNb label ∅) e
  | CreateRel ty src dst => prod_map (answer (fun x => OutCreated x.1 x.2)) id <$>
      create_relationship (env_turns v) (env_now v) (mkRb ty (Some src) (Some dst) ∅) e
  | DeleteNode i => prod_map (answer (fun _ => OutDone)) id <$> delete_node (env_turns v) (env_now v) i e
  | DeleteRel i => prod_map (answer (fun _ => OutDone)) id <$> delete_edge (env_turns v) (env_now v) i e
  | GetNode i => prod_map (answer OutNode) id <$> graph_get_node i e
  | GetRel i => prod_map (answer OutRel) id <$> get_relationship i e
  | ScanEdges d i types => prod_map (answer (fun l => OutEdges ((fun p => (edge_id p.1, type_id p.1, p.2)) <$> l))) id <$>
      (match d with Out => scan_outgoing_edges | In => scan_incoming_edges end) i types e
  | ScanLabel label => prod_map (answer OutNodes) id <$> scan_by_label label e
  end.

Fixpoint run_graph_ops (env : nat -> Env) (i : nat) (ops : list graph_op) (e : Engine S W) :
    option (list graph_out * Engine S W) :=
  match ops with
  | [] => Some ([], e)
  | op :: ops => '(x, e1) ← run_graph_op (env i) op e; '(xs, e2) ← run_graph_ops env (i + 1) ops e1; Some (x :: xs, e2)
  end.
End Runs.

(** ** The abstract graph answers *)

Definition graph_spec_op (op : graph_op) (G : Graph) (next : Z) (x : graph_out) (G' : Graph) (next' : Z) : Prop :=
  match op with
  | CreateNode label =>
      exists s, x = OutCreated s next /\ G' = put_anode G next (mkAN s label false) /\ next' = next + 1
  | CreateRel ty src dst =>
      next' = next + 1 /\
      match g_nodes G !! src, g_nodes G !! dst with
      | Some _, Some _ => exists s, x = OutCreated s next /\ G' = link_edge G next (mkAE s ty src dst false)
      | _, _ => x = OutError SeNotFound /\ G' = G
      end
  | DeleteNode i =>
      next' = next /\
      match g_nodes G !! i with
      | Some a => x = OutDone /\ G' = put_anode G i (tombstone_node a)
      | None => x = OutError SeNotFound /\ G' = G
      end
  | DeleteRel i =>
      next' = next /\
      match g_edges G !! i with
      | Some b => x = OutDone /\ G' = unlink_edge G i b
      | None => x = OutError SeNotFound /\ G' = G
      end
  | GetNode i =>
      x = OutNode (a ← g_nodes G !! i; if an_deleted a then None else Some (mkNodeView i (an_label a) ∅)) /\
      G' = G /\ next' = next
  | GetRel i =>
      x = OutRel (b ← g_edges G !! i;
                  if ae_deleted b then None else Some (mkRelView i (ae_type b) (ae_src b) (ae_dst b) ∅)) /\
      G' = G /\ next' = next
  | ScanEdges d i types =>
      x = OutEdges (match g_nodes G !! i with Some _ => omap (areport G d types) (g_adj G d i) | None => [] end) /\
      G' = G /\ next' = next
  | ScanLabel label =>
      exists l, x = OutNodes l /\ StronglySorted Z.lt (n_id <$> l) /\
        (forall v, v ∈ l <-> exists i a, g_nodes G !! i = Some a /\ an_deleted a = false /\ an_label a = label /\
           v = mkNodeView i label ∅) /\ G' = G /\ next' = next
  end.

Fixpoint graph_spec_ops (ops : list graph_op) (G : Graph) (next : Z) (xs : list graph_out) (G' : Graph) : Prop :=
  match ops, xs with
  | [], [] => G' = G
  | op :: ops, x :: xs => exists G1 next1, graph_spec_op op G next x G1 next1 /\ graph_spec_ops ops G1 next1 xs G'
  | _, _ => False
  end.

(** Arguments in range; a relationship type is never 0. *)
Definition graph_op_ok (op : graph_op) : Prop :=
  match op with
  | CreateNode label => is_u32 label
  | CreateRel ty src dst => is_u32 ty /\ ty ≠ 0 /\ is_u64 src /\ is_u64 dst
  | DeleteNode i | DeleteRel i | GetNode i | GetRel i | ScanEdges _ i _ => is_u64 i
  | ScanLabel label => is_u32 label
  end.

Definition rel_deletes (ops : list graph_op) : list Z :=
  omap (fun op => match op with DeleteRel i => Some i | _ => None end) ops.

Section Histories.
Context {S : Type} `{HL : PageStoreLaws S} `{CS : Checksums} {W : Type} `{WL : WalLog W}.
Implicit Types (e : Engine S W).
Context {tidy : option bool}.
#[local] Notation rep := (rep (tidy := tidy)).

(** One step; a relationship is deleted only while it is live. *)
Lemma run_graph_op_spec k j v op G e : rep (Datatypes.S k) (Datatypes.S j) G e -> env_turns v ≠ [] -> graph_op_ok op ->
  (forall i b, op = DeleteRel i -> g_edges G !! i = Some b -> ae_deleted b = false) ->
  exists x e' G', run_graph_op v op e = Some (x, e') /\ rep k j G' e' /\
    graph_spec_op op G (next_id (id_allocator e)) x G' (next_id (id_allocator e')).
Proof.
  intros Hr Ht Hok Hdel. pose proof (rep_S _ _ _ _ Hr) as Hr'.
  destruct op as [label|ty src dst|i|i|i|i|d i types|label]; cbn [run_graph_op graph_spec_op graph_op_ok] in *.
  - destruct (create_node_rep k j G e _ (env_now v) label Hr Ht Hok) as (s & e' & -> & Hr1 & Hn). eexists _, e', _. rewrite Hn. split; [done|]. split; [done|]. eauto.
  - destruct Hok as (Hty & Hnz & Hs & Hd).
    destruct (create_rel_rep k j G e _ (env_now v) ty src dst Hr Ht Hty Hnz Hs Hd) as (e' & Hc & Hn).
    destruct (g_nodes G !! src), (g_nodes G !! dst).
    1:{ destruct Hc as (s & -> & Hr1). eexists _, e', _. rewrite Hn. split; [done|]. split; [done|]. eauto. }
    all: destruct Hc as (-> & Hr1); eexists _, e', G; rewrite Hn; split; [done|]; split; [|done]; by apply rep_le_l.
  - destruct (g_nodes G !! i) as [a|] eqn:Ea.
    + destruct (delete_node_rep k (Datatypes.S j) G e _ (env_now v) i a Hr Ht Hok Ea) as (e' & -> & Hr1 & Hn). eexists _, e', _.
      rewrite Hn. split; [done|]. split; [by apply rep_le_r|done].
    + exists (OutError SeNotFound), e, G. split; [|done]. unfold delete_node.
      rewrite (hbind_ok _ _ _ _ _ (lookup_node _ _ _ _ _ Hr Hok)), Ea. done.
  - destruct (g_edges G !! i) as [b|] eqn:Eb.
    + destruct (delete_edge_rep k (Datatypes.S j) G e _ (env_now v) i b Hr Ht Hok Eb) as (e' & -> & Hr1 & Hn); [by eapply Hdel|].
      eexists _, e', _. rewrite Hn. split; [done|]. split; [by apply rep_le_r|done].
    + exists (OutError SeNotFound), e, G. split; [|done]. unfold delete_edge.
      rewrite (hbind_ok _ _ _ _ _ (lookup_edge _ _ _ _ _ Hr Hok)), Eb. done.
  - destruct (graph_get_node_rep k j G e i Hr' Hok) as (e' & -> & Hr1 & Hn). eexists _, e', _. rewrite Hn. split; [done|]. split; [done|]. eauto.
  - destruct (get_relationship_rep k j G e i Hr' Hok) as (e' & -> & Hr1 & Hn). eexists _, e', _. rewrite Hn. split; [done|]. split; [done|]. eauto.
  - destruct (scan_rep k j G e d i types Hr' Hok) as (l & e' & E & Hr1 & Hn & El). rewrite E.
    exists (OutEdges ((fun p => (edge_id p.1, type_id p.1, p.2)) <$> l)), e', G. split; [done|]. split; [done|].
    by rewrite Hn, El.
  - destruct (scan_label_rep k j G e label Hr') as (l & e' & -> & Hr1 & Hn & Hs & Hel); [unfold uint in *; lia|].
    eexists _, e', _. split; [done|]. split; [done|]. rewrite Hn. eexists. eauto.
Qed.

(** A relationship deleted in the graph is never deleted again. *)
Definition deletes_fresh (ops : list graph_op) (G : Graph) : Prop :=
  forall i b, i ∈ rel_deletes ops -> g_edges G !! i = Some b -> ae_deleted b = false.

Lemma deletes_fresh_step op ops G n x G' n' : graph_spec_op op G n x G' n' -> NoDup (rel_deletes (op :: ops)) ->
  g_edges G !! n = None -> deletes_fresh (op :: ops) G -> deletes_fresh ops G'.
Proof.
  intros Hs Hnd Hfresh Hd i b Hi Hb.
  assert (g_edges G !! i = Some b -> ae_deleted b = false) as Hold.
  { intros Hb'. apply (Hd i b); [|done]. unfold rel_deletes in *. simpl. destruct op; try done. by right. }
  destruct op as [label|ty src dst|i'|i'|i'|i'|d i' types|label]; cbn [graph_spec_op] in Hs.
  - destruct Hs as (s & _ & -> & _). by apply Hold.
  - destruct Hs as (_ & Hs). destruct (g_nodes G !! src), (g_nodes G !! dst).
    1:{ destruct Hs as (s & _ & ->). simpl in Hb. apply lookup_insert_Some in Hb as [[_ <-]|[_ Hb]]; [done|by apply Hold]. }
    all: destruct Hs as (_ & ->); by apply Hold.
  - destruct Hs as (_ & Hs). destruct (g_nodes G !! i'); destruct Hs as (_ & ->); by apply Hold.
  - destruct Hs as (_ & Hs). destruct (g_edges G !! i') as [b'|]; destruct Hs as (_ & ->); [|by apply Hold].
    simpl in Hb. apply lookup_insert_Some in Hb as [[<- _]|[_ Hb]]; [|by apply Hold].
    unfold rel_deletes in Hnd. simpl in Hnd. by inversion_clear Hnd.
  - destruct Hs as (_ & -> & _). by apply Hold.
  - destruct Hs as (_ & -> & _). by apply Hold.
  - destruct Hs as (_ & -> & _). by apply Hold.
  - destruct Hs as (l & _ & _ & _ & -> & _). by apply Hold.
Qed.

Lemma spec_op_next op G n x G' n' : graph_spec_op op G n x G' n' -> n' <= n + 1.
Proof. destruct op; cbn [graph_spec_op]; naive_solver lia. Qed.

Lemma run_graph_ops_spec env ops k j : (forall i, env_turns (env i) ≠ []) -> forall i G e,
  rep (length ops + k) (length ops + j) G e -> Forall graph_op_ok ops -> NoDup (rel_deletes ops) -> deletes_fresh ops G ->
  exists xs e' G', run_graph_ops env i ops e = Some (xs, e') /\
    graph_spec_ops ops G (next_id (id_allocator e)) xs G' /\ rep k j G' e' /\
    next_id (id_allocator e') <= next_id (id_allocator e) + Z.of_nat (length ops).
Proof.
  intros Henv. induction ops as [|op ops IH]; intros i G e Hr Hok Hnd Hd.
  - exists [], e, G. split_and!; try done. simpl. lia.
  - apply Forall_cons in Hok as [Hok Hoks]. destruct (fresh_id _ _ _ _ Hr) as (_ & _ & Hfe & _).
    destruct (run_graph_op_spec _ _ (env i) op G e Hr (Henv i) Hok) as (x & e1 & G1 & E1 & Hr1 & Hs1).
    { intros i' b -> Hb. eapply Hd; [|exact Hb]. unfold rel_deletes. simpl. left. }
    destruct (IH (i + 1)%nat G1 e1 Hr1 Hoks) as (xs & e' & G' & E2 & Hs2 & Hr2 & Hn2).
    + unfold rel_deletes in *. simpl in Hnd. destruct op; try done. by inversion_clear Hnd.
    + by eapply deletes_fresh_step.
    + exists (x :: xs), e', G'. cbn [run_graph_ops]. rewrite E1. cbn [mbind option_bind]. rewrite E2. split_and!; [done| |done|].
      * by exists G1, (next_id (id_allocator e1)).
      * pose proof (spec_op_next _ _ _ _ _ _ Hs1). cbn [length]. lia.
Qed.

(** ** The fresh engine *)

(** The number of operations the theorem covers: beyond it a branch of a
    24-byte index may outgrow what [window_free] excludes. *)
Definition MAX_OPS : nat := 224.

Lemma tree_new_is K n : widths_ok K SLOT_BYTES -> (K <= 24)%nat -> (n <= MAX_OPS)%nat -> index_is K n tree_new ∅.
Proof.
  intros HK Hk Hn. exists []. split_and!; [by apply tree_new_inv|done| |].
  - right. unfold branch_size, MAX_OPS in *. simpl. nia.
  - unfold MAX_OPS in *. cbn [next_page_id tree_new]. lia.
Qed.

Lemma indexed_empty {A} kf sf live : indexed (A := A) kf sf live ∅ ∅.
Proof. intros k v. rewrite lookup_empty. split; [done|]. intros (i & a & Hi & _). by rewrite lookup_empty in Hi. Qed.

Lemma engine_new_rep n (s : S) (w : W) lsn : (n <= MAX_OPS)%nat -> ps_calm n s -> wal_steady w ->
  (tidy = Some false -> forall p, ps_image s p = None) -> rep n n graph_empty (engine_new s w lsn).
Proof.
  intros Hn Hs Hw Hblank. assert (forall K, widths_ok K SLOT_BYTES -> (K <= 24)%nat -> index_is K n tree_new ∅) as Ht by (intros; by apply tree_new_is).
  split; try done.
  - exists ∅. split; [split; [done|intros p; set_solver]|]. split; [|split; [intros p; set_solver|split; [intros p; set_solver|]]].
    2:{ intros foreign Hti. split; [intros p; set_solver|].
        split; [|intros -> p; simpl; rewrite (Hblank Hti); by intros [? ?]]. intros x [bs Hx]. unfold hrec in Hx. case_decide as Hd; [|done].
        destruct Hd as [_ Hd]. set_solver. }
    split; try (intros *; simpl; by rewrite lookup_empty); [set_solver|]. intros d m. split; [done|constructor].
  - apply tm_new_idle.
  - exists ∅. split; [apply Ht; [apply widths_16|lia]|apply indexed_empty].
  - exists ∅. split; [apply Ht; [apply widths_16|lia]|apply indexed_empty].
  - exists ∅. split; [apply Ht; [apply widths_24|lia]|apply indexed_empty].
  - exists ∅. split; [apply Ht; [apply widths_24|lia]|apply indexed_empty].
  - unfold MAX_OPS in Hn. simpl. lia.
  - intros d m i. simpl. rewrite elem_of_nil. split; [done|]. intros (b & Hb & _). by rewrite lookup_empty in Hb.
  - unfold MAX_OPS, MAX_HOPS in *. simpl. rewrite map_size_empty. lia.
Qed.
End Histories.

(** C6: A fresh graph engine runs any history of at most [MAX_OPS] creations of
    nodes and relationships without properties, deletions, lookups, adjacency
    scans and label scans to completion, and every answer is the one of the
    abstract graph: ids count up from 1, a relationship appears at the head of
    both lists, a scan lists exactly the live relationships of the requested
    types in list order, label scans list exactly the live nodes in id order,
    and ends that were never created answer [NotFound] (a deleted node still
    accepts relationships, and the abstract graph says so too).  The store must
    have room, the log must not fail and no relationship is deleted twice. *)
Theorem graph_engine_refines {S} `{HL : PageStoreLaws S} `{CS : Checksums} {W} `{WL : WalLog W} env ops (s : S) (w : W) lsn :
  ps_calm (length ops) s -> wal_steady w -> (forall i, env_turns (env i) ≠ []) ->
  Forall graph_op_ok ops -> NoDup (rel_deletes ops) -> (length ops <= MAX_OPS)%nat ->
  exists xs e' G', run_graph_ops env 0 ops (engine_new s w lsn) = Some (xs, e') /\
    graph_spec_ops ops graph_empty 1 xs G'.
Proof.
  intros Hs Hw Hv Hok Hnd Hn.
  destruct (run_graph_ops_spec (tidy := None) env ops 0 0 Hv 0 graph_empty (engine_new s w lsn)) as (xs & e' & G' & E & Hx & _); try done.
  - rewrite Nat.add_0_r. by apply engine_new_rep.
  - by exists xs, e', G'.
Qed.

(** ** A store and a log in memory *)
Module GraphDemo.
#[local] Existing Instance additive_checksums.

Record MemStore := mkMem { ms_pages : gmap Z Page; ms_next : Z }.

#[local] Instance mem_store : PageStore MemStore := {|
  ps_read p := fun s => Some (match ms_pages s !! p with Some b => Ok b | None => Err SeIoError end, s);
  ps_write p b := fun s => Some (Ok tt, mkMem (<[p := b]> (ms_pages s)) (ms_next s));
  ps_alloc := fun s => Some (Ok (ms_next s), mkMem (ms_pages s) (ms_next s + 1)) |}.

Definition mem_used (s : MemStore) (p : Z) : Prop := p < ms_next s.

#[local] Program Instance mem_laws : PageStoreLaws MemStore := {|
  ps_calm n s := 3 <= ms_next s /\ ms_next s + Z.of_nat n <= MAX_PAGE_ID + 1 /\
    forall p b, ms_pages s !! p = Some b -> mem_used s p;
  ps_image s p := ms_pages s !! p;
  ps_used := mem_used |}.
Next Obligation. intros n s (H1 & H2 & H3). split_and!; [done|lia|done]. Qed.
Next Obligation. intros n s p b (_ & _ & H) Hb. by eapply H. Qed.
Next Obligation. intros n s p b Hc Hb. exists s. simpl. rewrite Hb. repeat split; by try apply Hc. Qed.
Next Obligation.
  intros n s p b (H1 & H2 & H3) Hu Hp. eexists _, b. split; [done|]. simpl. split.
  { split_and!; [done|done|]. intros q b' Hq. apply lookup_insert_Some in Hq as [[<- _]|[_ Hq]]; [done|by eapply H3]. }
  split_and!; [by rewrite lookup_insert_eq|apply like_refl| |done]. intros q Hq. by rewrite lookup_insert_ne.
Qed.
Next Obligation.
  intros n s (H1 & H2 & H3). eexists _, _. split; [done|]. simpl. split.
  { split_and!; [lia|lia|]. intros p b Hb. specialize (H3 p b Hb). unfold mem_used in *. simpl. lia. }
  unfold mem_used. simpl. split_and!; [lia|lia|lia|done|lia].
Qed.

Record MemLog := mkLog { ml_records : list WalRecord }.

#[local] Program Instance mem_log : WalLog MemLog := {|
  wal_append r w := (Ok (Z.of_nat (length (ml_records w))),
                     mkLog (ml_records w ++ [set_lsn r (Z.of_nat (length (ml_records w)))]));
  wal_flush w := (Ok tt, w);
  wal_ok _ := True; wal_pending w r := r ∈ ml_records w; wal_durable w r := r ∈ ml_records w |}.
Next Obligation.
  intros w r res w' _ _ [= <- <-]. split_and!; [done|intros x Hx; simpl; apply elem_of_app; by left|].
  simpl. exists (set_lsn r (Z.of_nat (length (ml_records w)))). split; [|done].
  apply elem_of_app; right; by apply list_elem_of_singleton.
Qed.
Next Obligation. intros w res w' _ [= <- <-]. done. Qed.

Lemma mem_log_steady (w : MemLog) : wal_steady w.
Proof. intros n. revert w. induction n as [|n IH]; intros w; [done|]. split; [intros r|]; eauto. Qed.

Definition idle_env (i : nat) : Env := mkEnv [mkTurn id id None id] (fun _ => 0).

Definition history : list graph_op :=
  [CreateNode 1; CreateNode 1; CreateNode 2; CreateRel 5 1 2; CreateRel 6 1 3; CreateRel 5 3 1; CreateRel 5 1 9;
   ScanEdges Out 1 []; ScanEdges Out 1 [5]; DeleteRel 4; ScanEdges Out 1 []; ScanEdges In 1 [];
   DeleteNode 2; GetNode 2; GetRel 5; GetRel 4; DeleteRel 77; ScanLabel 1; ScanLabel 2].

Definition mem0 : MemStore := mkMem ∅ 3.

(** The answers of the engine, evaluated. *)
Example history_answers :
  (fun r => r.1) <$> run_graph_ops idle_env 0 history (engine_new mem0 (mkLog []) 0) =
  Some [OutCreated (mkSlotRef 768) 1; OutCreated (mkSlotRef 769) 2; OutCreated (mkSlotRef 770) 3; OutCreated (mkSlotRef 1024) 4; OutCreated (mkSlotRef 1025) 5;
        OutCreated (mkSlotRef 1026) 6; OutError SeNotFound; OutEdges [(5, 6, 3); (4, 5, 2)]; OutEdges [(4, 5, 2)]; OutDone;
        OutEdges [(5, 6, 3)]; OutEdges [(6, 5, 3)]; OutDone; OutNode None;
        OutRel (Some (mkRelView 5 6 1 3 ∅)); OutRel None; OutError SeNotFound;
        OutNodes [mkNodeView 1 1 ∅]; OutNodes [mkNodeView 3 2 ∅]].
Proof. vm_compute. reflexivity. Qed.

Lemma graph_engine_refines_witness : exists xs e' G',
  run_graph_ops idle_env 0 history (engine_new mem0 (mkLog []) 0) = Some (xs, e') /\
  graph_spec_ops history graph_empty 1 xs G'.
Proof.
  apply (graph_engine_refines idle_env history mem0 (mkLog []) 0).
  - split_and!; [reflexivity|vm_compute; discriminate|]. intros p b Hb. change (ms_pages mem0) with (∅ : gmap Z Page) in Hb. by rewrite lookup_empty in Hb.
  - apply mem_log_steady.
  - intros i H. discriminate H.
  - repeat (apply Forall_cons; split); try apply Forall_nil; vm_compute; auto; repeat split; try discriminate; lia.
  - vm_compute. repeat constructor; set_solver.
  - vm_compute. lia.
Defined.

(** Deleting a relationship twice: the second call also answers [Ok] and
    empties the adjacency list of the source node. *)
Lemma delete_edge_twice_loses_list :
  (fun r => r.1) <$> run_graph_ops idle_env 0
    [CreateNode 1; CreateNode 1; CreateRel 5 1 2; CreateRel 5 1 2; DeleteRel 3; ScanEdges Out 1 [];
     DeleteRel 3; ScanEdges Out 1 []; GetRel 4] (engine_new mem0 (mkLog []) 0) =
  Some [OutCreated (mkSlotRef 768) 1; OutCreated (mkSlotRef 769) 2; OutCreated (mkSlotRef 1024) 3; OutCreated (mkSlotRef 1025) 4; OutDone; OutEdges [(4, 5, 2)];
        OutDone; OutEdges []; OutRel (Some (mkRelView 4 5 1 2 ∅))].
Proof. vm_compute. reflexivity. Qed.

(** A deleted node keeps its index entry: a relationship to it is created, not
    refused with [NotFound], although looking the node up finds nothing. *)
Lemma tombstone_accepts_relationship :
  (fun r => r.1) <$> run_graph_ops idle_env 0
    [CreateNode 1; CreateNode 1; DeleteNode 2; GetNode 2; CreateRel 5 1 2; ScanEdges Out 1 []] (engine_new mem0 (mkLog []) 0) =
  Some [OutCreated (mkSlotRef 768) 1; OutCreated (mkSlotRef 769) 2; OutDone; OutNode None; OutCreated (mkSlotRef 1024) 3;
        OutEdges [(3, 5, 2)]].
Proof. vm_compute. reflexivity. Qed.
End GraphDemo.
