(* ===== verification/GraphRestart.v ===== *)
(** * The graph survives a restart

    After any history on a healthy store, rebuilding the indexes from the
    allocated pages yields an engine that holds the same graph, less its
    tombstones, and goes on answering as it. *)

From stdpp Require Import prelude list gmap.
From Stdlib Require Import ZArith Lia.
From S2P Require Import Prelude Bytes Checksum LockTable WalRecord WalLog TxManager Key SlottedPage HeapPage PageAlloc BTree.
From S2P Require Import BTreeNode BTreeInsert BTreeMap GraphRecord Adjacency GraphHeap GraphHeapSpec GraphWire GraphEngine.
From S2P Require Import GraphEngineSpec GraphHeapRep GraphApi GraphRefine GraphHistory.

#[local] Open Scope heap_scope.

(** ** The graph without tombstones *)

Definition purge (G : Graph) : Graph :=
  mkGraph (filter (fun x => an_deleted x.2 = false) (g_nodes G)) (filter (fun x => ae_deleted x.2 = false) (g_edges G)) (g_adj G).

(** No live relationship hangs on a deleted node. *)
Definition no_dangling (G : Graph) : Prop := forall i b d a,
  g_edges G !! i = Some b -> ae_deleted b = false -> g_nodes G !! ae_end d b = Some a -> an_deleted a = false.

Lemma purge_node G i a : g_nodes (purge G) !! i = Some a <-> g_nodes G !! i = Some a /\ an_deleted a = false.
Proof. apply map_lookup_filter_Some. Qed.
Lemma purge_edge G i b : g_edges (purge G) !! i = Some b <-> g_edges G !! i = Some b /\ ae_deleted b = false.
Proof. apply map_lookup_filter_Some. Qed.

Section Purge.
Context {S : Type} `{HL : PageStoreLaws S} `{CS : Checksums}.

Lemma purge_slots G d n : (forall i, i ∈ g_adj G d n -> exists b, g_edges G !! i = Some b /\ ae_deleted b = false) ->
  adj_slots (purge G) d n = adj_slots G d n.
Proof.
  intros Hl. unfold adj_slots. apply list_fmap_ext. intros k i Hi. apply list_elem_of_lookup_2 in Hi.
  destruct (Hl i Hi) as (b & Hb & Hd). rewrite (slot_of_lookup G i b Hb). apply slot_of_lookup. by apply purge_edge.
Qed.

Lemma purge_rep G D (s : S) : heap_rep G D s -> no_dangling G ->
  (forall d n i, i ∈ g_adj G d n <-> exists b, g_edges G !! i = Some b /\ ae_deleted b = false /\ ae_end d b = n) ->
  heap_rep (purge G) D s.
Proof.
  intros Hr Hnd Hadj. assert (forall d n, adj_slots (purge G) d n = adj_slots G d n) as Hs.
  { intros d n. apply purge_slots. intros i Hi. apply Hadj in Hi as (b & ? & ? & _). eauto. }
  split.
  - intros id a [Ha _]%purge_node. destruct (hr_node _ _ _ Hr id a Ha) as (? & nd & ? & F1 & F2 & F3 & F4 & F5).
    split; [done|]. exists nd. split; [done|]. split_and!; try done. intros d. by rewrite Hs.
  - intros id b [Hb Hl]%purge_edge. destruct (hr_edge _ _ _ Hr id b Hb) as (? & ed & ? & F1 & F2 & F3 & F4 & F5 & F6 & F7).
    split; [done|]. exists ed. split; [done|]. split_and!; try done. intros d. destruct (F7 d) as (a & Ha & Hsd).
    exists a. split; [|done]. apply purge_node. split; [done|]. by eapply Hnd.
  - intros d n i Hi. apply Hadj in Hi as (b & Hb & Hl & Hn). exists b. split; [|done]. by apply purge_edge.
  - intros d n. rewrite Hs. apply Hr.
  - intros d id b ed [Hb _]%purge_edge. by apply (hr_free _ _ _ Hr).
Qed.
End Purge.

(** ** One family of entities, partly indexed *)

Section Family.
Context {S : Type} `{HL : PageStoreLaws S} `{CS : Checksums} {W : Type} `{WL : WalLog W}.
Context {A : Type} (kf kf2 : Z -> A -> list Z) (sf : A -> SlotRef) (del : A -> bool) (x1 x2 : IndexName) (g : gmap Z A).
Context (Hk1 : forall i a, key_ok 16 (kf i a)) (Hk2 : forall i a, key_ok 24 (kf2 i a)).
Context (Hi1 : forall i j a b, is_u64 i -> is_u64 j -> kf i a = kf j b -> i = j).
Context (Hi2 : forall i j a b, is_u64 i -> is_u64 j -> kf2 i a = kf2 j b -> i = j).
Context (Hu : forall i a, g !! i = Some a -> is_u64 i) (Hsl : forall i a, g !! i = Some a -> slot_ok (sf a)).
Context (Hsize : (size g <= MAX_OPS)%nat) (Hx : x1 ≠ x2).
Implicit Types (e : Engine S W).

(** The live entities whose slot was [seen] are in both indexes. *)
Definition family (seen : SlotRef -> Prop) e : Prop := exists N : gmap Z A,
  (forall i a, N !! i = Some a <-> g !! i = Some a /\ del a = false /\ seen (sf a)) /\
  tree_of 16 (MAX_OPS - size N) kf sf (fun _ => true) N (index_of x1 e) /\
  tree_of 24 (MAX_OPS - size N) kf2 sf (negb ∘ del) N (index_of x2 e) /\
  (forall i a, N !! i = Some a -> i < next_id (id_allocator e)).

Lemma family_skip seen e x : (forall i a, g !! i = Some a -> del a = false -> sf a ≠ x) ->
  family seen e -> family (fun y => seen y \/ y = x) e.
Proof.
  intros Hno (N & HN & H). exists N. split; [|done]. intros i a. rewrite HN. naive_solver.
Qed.

Lemma family_ext seen seen' e : (forall i a, g !! i = Some a -> seen (sf a) <-> seen' (sf a)) -> family seen e -> family seen' e.
Proof. intros Hs (N & HN & H). exists N. split; [|done]. intros i a. rewrite HN. naive_solver. Qed.

(** Only the two indexes and the ids count. *)
Lemma family_same seen e e' : index_of x1 e' = index_of x1 e -> index_of x2 e' = index_of x2 e ->
  next_id (id_allocator e) <= next_id (id_allocator e') -> family seen e -> family seen e'.
Proof.
  intros E1 E2 Hn (N & HN & H1 & H2 & H3). exists N. rewrite E1, E2. split_and!; try done. intros i a Hi. apply H3 in Hi. lia.
Qed.

Lemma family_add seen e id a : family seen e -> g !! id = Some a -> del a = false -> ~ seen (sf a) ->
  (forall i b, g !! i = Some b -> sf b = sf a -> i = id) -> id < next_id (id_allocator e) ->
  exists e', (try _ <- ignore (on_index x1 (BTree.insert (kf id a) (encode_slot_ref (sf a))));
              ignore (on_index x2 (BTree.insert (kf2 id a) (encode_slot_ref (sf a))))) e = Some (Ok tt, e') /\
    family (fun y => seen y \/ y = sf a) e' /\ exists t1 t2, e' = set_index x2 (set_index x1 e t1) t2.
Proof using Hk1 Hk2 Hi1 Hi2 Hu Hsl Hsize Hx.
  intros (N & HN & H1 & H2 & H3) Hg Hd Hs Hinj Hid.
  assert (N !! id = None) as Hnone. { destruct (N !! id) as [b|] eqn:E; [|done]. apply HN in E as (Hb & _ & Hb'). congruence. }
  assert (forall i b, N !! i = Some b -> is_u64 i) as HuN by (intros i b (Hb & _)%HN; by eapply Hu).
  assert (size N < size g)%nat as Hlt.
  { assert (N ⊆ base.delete id g) as Hsub.
    { apply map_subseteq_spec. intros i b Hi. rewrite lookup_delete_ne; [by apply HN|congruence]. }
    apply map_subseteq_size in Hsub. rewrite map_size_delete_Some in Hsub by eauto. 
    assert (size g ≠ 0%nat); [|lia]. intros E%map_size_empty_inv. by rewrite E, lookup_empty in Hg. }
  destruct (MAX_OPS - size N)%nat as [|k] eqn:Ek; [lia|].
  destruct (tree_put 16 k kf sf (fun _ => true) N e x1 id a widths_16 Hi1 HuN (Hu _ _ Hg) Hnone eq_refl (Hk1 _ _) (Hsl _ _ Hg) H1) as (t1 & E1 & T1).
  set (e1 := set_index x1 e t1) in *.
  assert (index_of x2 e1 = index_of x2 e) as Ex2 by (by destruct x1, x2). rewrite <- Ex2 in H2.
  destruct (tree_put 24 k kf2 sf (negb ∘ del) N e1 x2 id a widths_24 Hi2 HuN (Hu _ _ Hg) Hnone) as (t2 & E2 & T2);
    [by simpl; rewrite Hd|apply Hk2|by eapply Hsl|exact H2|].
  exists (set_index x2 e1 t2). split; [|split; [|by exists t1, t2]].
  - unfold hbind, ignore. rewrite E1. by rewrite E2.
  - exists (<[id := a]> N). rewrite map_size_insert_None by done. replace (MAX_OPS - Datatypes.S (size N))%nat with k by lia.
    assert (index_of x1 (set_index x2 e1 t2) = t1 /\ index_of x2 (set_index x2 e1 t2) = t2 /\
            id_allocator (set_index x2 e1 t2) = id_allocator e) as (-> & -> & ->) by (by destruct x1, x2).
    split_and!; [|done|done|].
    + intros i b. destruct (decide (i = id)) as [->|Hne].
      * rewrite lookup_insert_eq. split; [intros [= <-]; auto|]. intros (Hb & _). congruence.
      * rewrite lookup_insert_ne, HN by done. split; [naive_solver|]. intros (Hb & ? & [?|E]); [done|]. by rewrite (Hinj i b Hb E) in Hne.
    + intros i b. destruct (decide (i = id)) as [->|Hne]; [done|]. rewrite lookup_insert_ne by done. apply H3.
Qed.
End Family.

(** ** The scan *)

Section Scan.
Context {S : Type} `{HL : PageStoreLaws S} `{CS : Checksums} {W : Type} `{WL : WalLog W}.
Implicit Types (e : Engine S W).
Context (G : Graph) (D : gset Z) (n : nat) (top : Z).
Context (Hnid : forall i a, g_nodes G !! i = Some a -> 0 < i < top) (Heid : forall i b, g_edges G !! i = Some b -> 0 < i < top).
Context (Htop : top < 2 ^ 64) (Hns : (size (g_nodes G) <= MAX_OPS)%nat) (Hes : (size (g_edges G) <= MAX_OPS)%nat).

#[local] Notation node_family := (family node_kf label_kf an_slot an_deleted NodeIndex LabelIndex (g_nodes G)).
#[local] Notation edge_family := (family edge_kf type_kf ae_slot ae_deleted EdgeIndex TypeIndex (g_edges G)).

Record scanned (seen : SlotRef -> Prop) e : Prop := {
  sc_good : good n D (page_manager e);
  sc_heap : heap_rep G D (page_manager e);
  sc_only : heap_only true G D (page_manager e);
  sc_idle : tm_idle (txn_manager e);
  sc_wal : wal_steady (wal_writer e);
  sc_nodes : node_family seen e;
  sc_edges : edge_family seen e;
  sc_ids : 0 < next_id (id_allocator e) <= top;
  sc_node_pages : forall p, p ∈ node_pages e -> p ∈ D;
  sc_edge_pages : forall p, p ∈ edge_pages e -> p ∈ D
}.

Lemma observed e i : 0 < i < top -> 0 < next_id (id_allocator e) <= top ->
  let a := observe (id_allocator e) i in 0 < next_id a <= top /\ next_id (id_allocator e) <= next_id a /\ i < next_id a.
Proof using Htop.
  intros Hi Hn. clear -Hi Hn Htop. unfold observe. destruct (Z.ltb_spec i (next_id (id_allocator e))); simpl; [lia|]. rewrite wrap_id by (unfold uint; lia). lia.
Qed.

Lemma node_u64 i a : g_nodes G !! i = Some a -> is_u64 i.
Proof using Hnid Htop. intros H%Hnid. clear -H Htop. unfold uint. lia. Qed.
Lemma edge_u64 i b : g_edges G !! i = Some b -> is_u64 i.
Proof using Heid Htop. intros H%Heid. clear -H Htop. unfold uint. lia. Qed.

Lemma heap_node_slot (s : S) i a : good n D s -> heap_rep G D s -> g_nodes G !! i = Some a -> slot_ok (an_slot a).
Proof. intros Hg Hh Hi. destruct (hr_node _ _ _ Hh i a Hi) as (_ & nd & Hnd & _). by eapply node_at_inv. Qed.
Lemma heap_edge_slot (s : S) i b : good n D s -> heap_rep G D s -> g_edges G !! i = Some b -> slot_ok (ae_slot b).
Proof. intros Hg Hh Hi. destruct (hr_edge _ _ _ Hh i b Hi) as (_ & ed & Hed & _). by eapply edge_at_inv. Qed.

(** What the record of an entity is taken for. *)
Lemma node_record (s : S) i a : good n D s -> heap_rep G D s -> g_nodes G !! i = Some a ->
  exists nd, hrec D s (an_slot a) = Some (node_encode nd) /\ node_id nd = i /\ label_id nd = an_label a /\
    live_node nd = negb (an_deleted a) /\ node_entity (node_encode nd) = Some nd /\ edge_entity (node_encode nd) = None.
Proof using Hnid.
  intros Hg Hh Hi. destruct (hr_node _ _ _ Hh i a Hi) as (_ & nd & Hnd & F1 & F2 & F3 & _).
  destruct (node_at_inv _ _ _ _ _ Hg Hnd) as (Hr & Hok & _). exists nd. split_and!; try done.
  unfold node_entity, entity. rewrite length_node_encode, Nat.eqb_refl, node_roundtrip by done. cbn [mbind option_bind].
  destruct (Z.eqb_spec (node_id nd) 0); [|done]. apply Hnid in Hi. clear -Hi F1 e. lia.
Qed.

Lemma edge_record (s : S) i b : good n D s -> heap_rep G D s -> g_edges G !! i = Some b ->
  exists ed, hrec D s (ae_slot b) = Some (edge_encode ed) /\ edge_id ed = i /\ type_id ed = ae_type b /\
    live_edge_rec ed = negb (ae_deleted b) /\ edge_entity (edge_encode ed) = Some ed /\ node_entity (edge_encode ed) = None.
Proof using Heid.
  intros Hg Hh Hi. destruct (hr_edge _ _ _ Hh i b Hi) as (_ & ed & Hed & F1 & F2 & F3 & F4 & F5 & _).
  destruct (edge_at_inv _ _ _ _ _ Hg Hed) as (Hr & Hok & _). exists ed. split_and!; try done.
  unfold edge_entity, entity. rewrite length_edge_encode, Nat.eqb_refl, edge_roundtrip by done. cbn [mbind option_bind].
  destruct (Z.eqb_spec (edge_id ed) 0); [|done]. apply Heid in Hi. clear -Hi F1 e. lia.
Qed.

(** Nodes and edges never share a slot. *)
Lemma slots_apart (s : S) i a j b : good n D s -> heap_rep G D s -> g_nodes G !! i = Some a -> g_edges G !! j = Some b -> an_slot a ≠ ae_slot b.
Proof using Hnid Heid.
  intros Hg Hh Hi Hj E. destruct (node_record s i a Hg Hh Hi) as (nd & H1 & _). destruct (edge_record s j b Hg Hh Hj) as (ed & H2 & _).
  assert (length (edge_encode ed) = length (node_encode nd)) as Hl by (rewrite E in H1; congruence).
  by rewrite length_node_encode, length_edge_encode in Hl.
Qed.

(** One record. *)
Lemma index_node_scanned seen e i a nd : scanned seen e -> g_nodes G !! i = Some a -> ~ seen (an_slot a) ->
  node_id nd = i -> label_id nd = an_label a -> live_node nd = negb (an_deleted a) ->
  exists e', index_node (an_slot a) nd e = Some (Ok tt, e') /\ scanned (fun y => seen y \/ y = an_slot a) e' /\
    page_manager e' = page_manager e.
Proof.
  intros Hsc Hi Hns' Eid Elb Elv. destruct Hsc as [Hg Hh Ho Hid Hw Hn He Hids Hnp Hep].
  destruct (observed e i (Hnid _ _ Hi) Hids) as (O1 & O2 & O3).
  set (e1 := set_ids e (observe (id_allocator e) i)).
  assert (edge_family (fun y => seen y \/ y = an_slot a) e1) as He1.
  { apply family_skip; [intros j b Hj _ E; by eapply (slots_apart (page_manager e) i a j b)|]. by (eapply family_same; cycle -1; [eassumption|done..]). }
  assert (node_family seen e1) as Hn1 by (by (eapply family_same; cycle -1; [eassumption|done..])).
  unfold index_node. rewrite Eid. unfold modify. rewrite (hbind_ok _ _ e tt e1) by done. rewrite Elv. destruct (an_deleted a) eqn:Ed; cbn [negb].
  - exists e1. split; [done|]. split; [|done]. split; try done. apply family_skip; [|done]. intros j a' Hj Hd' E.
    assert (j = i) as -> by (by eapply node_slot_inj). congruence.
  - destruct (family_add node_kf label_kf an_slot an_deleted NodeIndex LabelIndex (g_nodes G) (fun i _ => node_key_ok i)
      (fun i a => label_key_ok _ i) node_kf_inj label_kf_inj node_u64 (fun j a' Hj => heap_node_slot _ j a' Hg Hh Hj) Hns
      ltac:(done) seen e1 i a Hn1 Hi Ed Hns') as (e2 & E2 & Hf & t1 & t2 & ->); [|done|].
    { intros j a' Hj E. by eapply node_slot_inj. }
    rewrite Elb. exists (set_index LabelIndex (set_index NodeIndex e1 t1) t2). split; [exact E2|]. split; [|done]. split; try done.
Qed.

Lemma index_edge_scanned seen e i b ed : scanned seen e -> g_edges G !! i = Some b -> ~ seen (ae_slot b) ->
  edge_id ed = i -> type_id ed = ae_type b -> live_edge_rec ed = negb (ae_deleted b) ->
  exists e', index_edge (ae_slot b) ed e = Some (Ok tt, e') /\ scanned (fun y => seen y \/ y = ae_slot b) e' /\
    page_manager e' = page_manager e.
Proof.
  intros Hsc Hi Hns' Eid Elb Elv. destruct Hsc as [Hg Hh Ho Hid Hw Hn He Hids Hnp Hep].
  destruct (observed e i (Heid _ _ Hi) Hids) as (O1 & O2 & O3).
  set (e1 := set_ids e (observe (id_allocator e) i)).
  assert (node_family (fun y => seen y \/ y = ae_slot b) e1) as Hn1.
  { apply family_skip; [intros j a Hj _ E; by eapply (slots_apart (page_manager e) j a i b)|]. by (eapply family_same; cycle -1; [eassumption|done..]). }
  assert (edge_family seen e1) as He1 by (by (eapply family_same; cycle -1; [eassumption|done..])).
  unfold index_edge. rewrite Eid. unfold modify. rewrite (hbind_ok _ _ e tt e1) by done. rewrite Elv. destruct (ae_deleted b) eqn:Ed; cbn [negb].
  - exists e1. split; [done|]. split; [|done]. split; try done. apply family_skip; [|done]. intros j a' Hj Hd' E.
    assert (j = i) as -> by (by eapply edge_slot_inj). congruence.
  - destruct (family_add edge_kf type_kf ae_slot ae_deleted EdgeIndex TypeIndex (g_edges G) (fun i _ => node_key_ok i)
      (fun i a => label_key_ok _ i) edge_kf_inj type_kf_inj edge_u64 (fun j a' Hj => heap_edge_slot _ j a' Hg Hh Hj) Hes
      ltac:(done) seen e1 i b He1 Hi Ed Hns') as (e2 & E2 & Hf & t1 & t2 & ->); [|done|].
    { intros j a' Hj E. by eapply edge_slot_inj. }
    rewrite Elb. exists (set_index TypeIndex (set_index EdgeIndex e1 t1) t2). split; [exact E2|]. split; [|done]. split; try done.
Qed.

(** A record of the heap, whatever it is. *)
Lemma index_record seen e x bs : scanned seen e -> ~ seen x -> hrec D (page_manager e) x = Some bs ->
  exists e', (try _ <- match node_entity bs with Some r => index_node x r | None => hret tt end;
              match edge_entity bs with Some r => index_edge x r | None => hret tt end) e = Some (Ok tt, e') /\
    scanned (fun y => seen y \/ y = x) e' /\ page_manager e' = page_manager e.
Proof.
  intros Hsc Hx Hb. destruct (proj1 (sc_only _ _ Hsc) x) as [(i & a & Hi & <-)|(i & b & Hi & <-)]; [eauto|..].
  - destruct (node_record _ i a (sc_good _ _ Hsc) (sc_heap _ _ Hsc) Hi) as (nd & H1 & H2 & H3 & H4 & H5 & H6).
    rewrite Hb in H1. injection H1 as ->. rewrite H5, H6.
    destruct (index_node_scanned seen e i a nd Hsc Hi Hx H2 H3 H4) as (e' & E & Hsc'). exists e'. by rewrite (hbind_ok _ _ _ _ _ E).
  - destruct (edge_record _ i b (sc_good _ _ Hsc) (sc_heap _ _ Hsc) Hi) as (ed & H1 & H2 & H3 & H4 & H5 & H6).
    rewrite Hb in H1. injection H1 as ->. rewrite H5, H6. by apply (index_edge_scanned seen e i b ed).
Qed.

Lemma hbind_assoc {T A B C} (m : H T A) (k : A -> H T B) (l : B -> H T C) s :
  hbind (hbind m k) l s = hbind m (fun a => hbind (k a) l) s.
Proof. unfold hbind. by destruct (m s) as [[[a|x] s1]|]. Qed.

(** One page. *)
Definition slots_of (p : Z) (i n : nat) (y : SlotRef) : Prop := exists j, (i <= j < i + n)%nat /\ y = slot_new p (Z.of_nat j).

Lemma scanned_ext seen seen' e : (forall y, is_Some (hrec D (page_manager e) y) -> seen y <-> seen' y) -> scanned seen e -> scanned seen' e.
Proof.
  intros Hs [Hg Hh Ho Hid Hw Hn He Hids Hnp Hep]. split; try done.
  - eapply family_ext; [|exact Hn]. intros i a Hi. apply Hs. destruct (hr_node _ _ _ Hh i a Hi) as (_ & nd & Hnd & _). by eapply node_at_slot.
  - eapply family_ext; [|exact He]. intros i b Hi. apply Hs. destruct (hr_edge _ _ _ Hh i b Hi) as (_ & ed & Hed & _). by eapply edge_at_slot.
Qed.

Lemma index_slots_scanned p b : p ∈ D -> 0 <= p <= MAX_PAGE_ID -> forall c i f seen e, (i + c <= 256)%nat ->
  scanned seen e -> (forall y, slots_of p i c y -> ~ seen y) ->
  (forall j, (i <= j < i + c)%nat -> hrec D (page_manager e) (slot_new p (Z.of_nat j)) = read b j) ->
  exists f' e', index_slots p b c i f e = Some (Ok f', e') /\ scanned (fun y => seen y \/ slots_of p i c y) e' /\
    page_manager e' = page_manager e.
Proof.
  intros HpD Hp c. induction c as [|c IH]; intros i f seen e Hi Hsc Hfresh Hread; cbn [index_slots].
  { exists f, e. split; [done|]. split; [|done]. eapply scanned_ext; [|exact Hsc]. intros y _. split; [by left|].
    intros [?|(j & Hj & _)]; [done|lia]. }
  set (x := slot_new p (Z.of_nat i)).
  assert (~ seen x) as Hx by (apply Hfresh; exists i; split; [lia|done]).
  assert (forall j, (Datatypes.S i <= j < 256)%nat -> slot_new p (Z.of_nat j) ≠ x) as Hne.
  { intros j Hj E. apply (f_equal slot_index) in E. unfold x in E.
    destruct (slot_new_parts p (Z.of_nat j)) as (_ & -> & _) in E; [done|unfold uint; lia|].
    destruct (slot_new_parts p (Z.of_nat i)) as (_ & -> & _) in E; [done|unfold uint; lia|]. lia. }
  assert (exists e1, scanned (fun y => seen y \/ y = x) e1 /\ page_manager e1 = page_manager e /\
    exists f1, index_slots p b (Datatypes.S c) i f e = index_slots p b c (i + 1) f1 e1) as (e1 & Hsc1 & Epm & f1 & E1).
  { cbn [index_slots]. rewrite !wrap_id by (unfold uint, MAX_PAGE_ID in *; lia). fold x.
    pose proof (Hread i ltac:(lia)) as Hr. fold x in Hr. destruct (read b i) as [bs|] eqn:Eb.
    - destruct (index_record seen e x bs Hsc Hx Hr) as (e1 & E & Hsc1 & Epm). exists e1. split_and!; [done|done|].
      eexists. rewrite <- hbind_assoc. by rewrite (hbind_ok _ _ _ _ _ E).
    - exists e. split; [|split; [done|by exists f]]. eapply scanned_ext; [|exact Hsc]. intros y Hy. split; [by left|].
      intros [?| ->]; [done|]. rewrite Hr in Hy. by destruct Hy. }
  cbn [index_slots] in E1. rewrite E1.
  destruct (IH (i + 1)%nat f1 (fun y => seen y \/ y = x) e1) as (f' & e' & E' & Hsc' & Epm'); [lia|done| | |].
  - intros y (j & Hj & ->) [Hs| E]; [apply (Hfresh (slot_new p (Z.of_nat j))); [exists j; split; [lia|done]|done]|].
    by apply (Hne j) in E; [|lia].
  - intros j Hj. rewrite Epm. apply Hread. lia.
  - exists f', e'. split; [done|]. split; [|congruence]. eapply scanned_ext; [|exact Hsc']. intros y _. unfold slots_of. split.
    + intros [[?| ->]|(j & Hj & ->)]; [by left|right; exists i; split; [lia|done]|right; exists j; split; [lia|done]].
    + intros [?|(j & Hj & ->)]; [by left; left|]. destruct (decide (j = i)) as [->|]; [by left; right|]. right. exists j. split; [lia|done].
Qed.

(** All pages. *)
Lemma scanned_quiet seen e s1 : scanned seen e -> ps_calm n s1 -> quiet (page_manager e) s1 -> scanned seen (set_pages e s1).
Proof.
  intros [Hg Hh Ho Hid Hw Hn He Hids Hnp Hep] Hc Hq. split; try done.
  - by eapply quiet_good.
  - by eapply quiet_heap_rep.
  - eapply slots_only; [apply (quiet_slots D _ _ Hq)|apply keeps_slots_refl|done].
Qed.

Lemma push_new_in p q (l : list Z) : q ∈ push_new p l -> q ∈ l \/ q = p.
Proof. unfold push_new. case_bool_decide; [by left|]. rewrite elem_of_app, list_elem_of_singleton. done. Qed.

Lemma scanned_push seen e p x (f : bool) : scanned seen e -> p ∈ D -> x = NodePages \/ x = EdgePages ->
  scanned seen (if f then set_list x e (push_new p (match x with NodePages => node_pages e | _ => edge_pages e end)) else e).
Proof.
  intros Hsc HpD Hx. destruct f; [|done]. destruct Hsc as [Hg Hh Ho Hid Hw Hn He Hids Hnp Hep].
  destruct Hx as [-> | ->]; split; try done; intros q; simpl; intros [?| ->]%push_new_in; auto.
Qed.

Definition skipped (p : Z) : bool := (p <? FIRST_DATA_PAGE_ID) || is_bitmap_page p.

Lemma rebuild_scanned allocated : forall seen e, NoDup allocated -> scanned seen e ->
  (forall p, p ∈ allocated -> skipped p = true \/ p ∈ D) -> (forall y, slot_page_id y ∈ allocated -> ~ seen y) ->
  exists e', rebuild_indexes allocated e = Some (Ok tt, e') /\
    scanned (fun y => seen y \/ (slot_page_id y ∈ allocated /\ skipped (slot_page_id y) = false)) e'.
Proof.
  induction allocated as [|p ps IH]; intros seen e Hnd Hsc Hall Hfresh; cbn [rebuild_indexes].
  { exists e. split; [done|]. eapply scanned_ext; [|exact Hsc]. intros y _. set_solver. }
  apply NoDup_cons in Hnd as [Hni Hnd]. fold (skipped p). destruct (skipped p) eqn:Esk.
  { destruct (IH seen e Hnd Hsc) as (e' & E & Hsc'); [set_solver|set_solver|]. exists e'. split; [done|].
    eapply scanned_ext; [|exact Hsc']. intros y _. split; [set_solver|]. intros [?|[[Hy|Hy]%elem_of_cons Hs]]; [by left|congruence|by right]. }
  destruct (Hall p ltac:(left)) as [?|HpD]; [congruence|].
  destruct (sc_good _ _ Hsc) as [Hc Hok]. destruct (Hok p HpD) as (Hp & b & lens & Hb & Hpk & Hmin).
  destruct (ps_read_ok n (page_manager e) p b Hc Hb) as (s1 & Er & Hc1 & Hq).
  set (e1 := set_pages e s1). pose proof (scanned_quiet seen e s1 Hsc Hc1 Hq) as Hsc1. fold e1 in Hsc1.
  pose proof (packed_count_bound b lens MIN_RECORD Hpk Hmin) as Hcount.
  assert (length lens < 256)%nat as Hl by (unfold MIN_RECORD in Hcount; page_lia).
  assert (forall j, (j < 256)%nat -> hrec D s1 (slot_new p (Z.of_nat j)) = read b j) as Hread.
  { intros j Hj. destruct (slot_new_parts p (Z.of_nat j)) as (P1 & P2 & P3 & _); [lia|unfold uint; lia|].
    unfold hrec. rewrite P1, P2, decide_True by done. rewrite (proj1 Hq), Hb, Nat2Z.id. done. }
  destruct (index_slots_scanned p b HpD ltac:(lia) (slot_count b) 0 (false, false) seen e1) as (f & e2 & E2 & Hsc2 & Epm); try done.
  { rewrite (pk_count _ _ Hpk). lia. }
  { intros y (j & Hj & ->). apply Hfresh. rewrite (pk_count _ _ Hpk) in Hj.
    destruct (slot_new_parts p (Z.of_nat j)) as (-> & _); [lia|unfold uint; lia|]. left. }
  { intros j Hj. apply Hread. rewrite (pk_count _ _ Hpk) in Hj. lia. }
  assert (scanned (fun y => seen y \/ slot_page_id y = p) e2) as Hsc3.
  { eapply scanned_ext; [|exact Hsc2]. intros y [bs Hy]. split; [|intros [?| <-]; [by left|right]].
    - intros [?|(j & Hj & ->)]; [by left|right]. rewrite (pk_count _ _ Hpk) in Hj. destruct (slot_new_parts p (Z.of_nat j)) as (-> & _); [lia|unfold uint; lia|done].
    - rewrite Epm in Hy. apply hrec_inv in Hy as (H32 & _ & b' & Hb' & Hr). unfold e1 in Hb'. simpl in Hb'. rewrite (proj1 Hq), Hb in Hb'. injection Hb' as <-.
      destruct (slot_of_parts y H32) as (Ey & _ & Hy8). exists (Z.to_nat (slot_index y)). split.
      + rewrite (packed_read b lens Hpk) in Hr. apply fmap_Some in Hr as (m & Hm & _). apply lookup_lt_Some in Hm. rewrite (pk_count _ _ Hpk). lia.
      + rewrite Z2Nat.id by (unfold uint in Hy8; lia). done. }
  pose proof (scanned_push _ _ p NodePages f.1 Hsc3 HpD ltac:(by left)) as Hsc4.
  pose proof (scanned_push _ _ p EdgePages f.2 Hsc4 HpD ltac:(by right)) as Hsc5.
  destruct (IH _ _ Hnd Hsc5) as (e' & E' & Hsc'); [set_solver|set_solver|]. exists e'. split.
  - erewrite hbind_ok by (unfold on_pages; rewrite Er; reflexivity). fold e1. rewrite (hbind_ok _ _ _ _ _ E2). exact E'.
  - eapply scanned_ext; [|exact Hsc']. intros y _. rewrite elem_of_cons. naive_solver.
Qed.

(** Everything seen: the live entities are indexed. *)
Lemma family_all {A} kf kf2 sf del x1 x2 (g : gmap Z A) e k : (size g + k <= MAX_OPS)%nat ->
  family kf kf2 sf del x1 x2 g (fun _ => True) e ->
  let N := filter (fun x => del x.2 = false) g in
  tree_of 16 k kf sf (fun _ => true) N (index_of x1 e) /\ tree_of 24 k kf2 sf (negb ∘ del) N (index_of x2 e) /\
  forall i a, N !! i = Some a -> i < next_id (id_allocator e).
Proof.
  intros Hk (N & HN & H1 & H2 & H3). assert (N = filter (fun x => del x.2 = false) g) as E.
  { apply map_eq. intros i. apply option_eq. intros a. rewrite HN, map_lookup_filter_Some. naive_solver. }
  assert (size N <= size g)%nat. { apply map_subseteq_size. rewrite E. apply map_filter_subseteq. }
  cbv zeta. rewrite <- E. split_and!; [eapply tree_of_le; [apply widths_16| |exact H1]|eapply tree_of_le; [apply widths_24| |exact H2]|done]; lia.
Qed.

Lemma scanned_all_rep e : scanned (fun _ => True) e -> no_dangling G -> (size (g_nodes G) + n <= MAX_OPS)%nat ->
  (size (g_edges G) + n <= MAX_OPS)%nat -> top + Z.of_nat n < 2 ^ 64 ->
  (forall d m i, i ∈ g_adj G d m <-> exists b, g_edges G !! i = Some b /\ ae_deleted b = false /\ ae_end d b = m) ->
  (forall i a, g_nodes G !! i = Some a -> is_u32 (an_label a)) -> (forall i b, g_edges G !! i = Some b -> is_u32 (ae_type b)) ->
  rep (tidy := None) n n (purge G) e.
Proof.
  intros [Hg Hh Ho Hid Hw Hn He Hids Hnp Hep] Hdang Hn1 He1 Ht Hadj Hlab Hty.
  destruct (family_all _ _ _ _ _ _ _ e n Hn1 Hn) as (N1 & N2 & N3). destruct (family_all _ _ _ _ _ _ _ e n He1 He) as (E1 & E2 & E3).
  split; try done.
  - exists D. split; [done|]. split; [by apply purge_rep|]. split_and!; done.
  - lia.
  - intros i a Ha. split; [|by eapply N3]. apply purge_node in Ha as [Ha _]. apply Hnid in Ha. lia.
  - intros i b Hb. split; [|by eapply E3]. apply purge_edge in Hb as [Hb _]. apply Heid in Hb. lia.
  - intros d m i. cbn [purge g_adj]. rewrite Hadj. setoid_rewrite purge_edge. naive_solver.
  - assert (size (g_edges (purge G)) <= size (g_edges G))%nat by (apply map_subseteq_size, map_filter_subseteq).
    unfold MAX_OPS, MAX_HOPS in *. lia.
  - intros i a [Ha _]%purge_node. by eapply Hlab.
  - intros i b [Hb _]%purge_edge. by eapply Hty.
Qed.
End Scan.

Lemma ids_few {A} (g : gmap Z A) (m : nat) : (forall i a, g !! i = Some a -> 0 < i < 1 + Z.of_nat m) -> (size g <= m)%nat.
Proof.
  intros Hg. rewrite <- size_dom. transitivity (size (list_to_set (seqZ 1 (Z.of_nat m)) : gset Z)).
  - apply subseteq_size. intros i Hi. apply elem_of_dom in Hi as [a Ha]. apply elem_of_list_to_set, elem_of_seqZ. apply Hg in Ha. lia.
  - rewrite size_list_to_set by apply NoDup_seqZ. rewrite length_seqZ. lia.
Qed.

Section Restart.
Context {S : Type} `{HL : PageStoreLaws S} `{CS : Checksums} {W : Type} `{WL : WalLog W}.

(** The pages the page manager lists: the data pages of the engine, and pages
    the scan skips. *)
Definition allocated_for (allocated : list Z) (e : Engine S W) : Prop :=
  NoDup allocated /\ (forall p, p ∈ node_pages e ++ edge_pages e -> p ∈ allocated /\ skipped p = false) /\
  (forall p, p ∈ allocated -> skipped p = true \/ p ∈ node_pages e ++ edge_pages e).

Lemma rebuild_rep foreign n m G (e : Engine S W) allocated w lsn : rep (tidy := Some foreign) n n G e -> wal_steady w -> no_dangling G ->
  next_id (id_allocator e) <= 1 + Z.of_nat m -> (m + n <= MAX_OPS)%nat -> allocated_for allocated e ->
  exists e', rebuild_indexes allocated (engine_new (page_manager e) w lsn) = Some (Ok tt, e') /\ rep (tidy := None) n n (purge G) e' /\
    next_id (id_allocator e') <= next_id (id_allocator e).
Proof.
  intros Hr Hw Hdang Hnext Hmn (Hnd & Hin & Hout). pose proof Hr as [(D & Hg & Hh & Hnp & Hep & Ht) _ _ _ _ _ _ Hids Hni Hei Hadj _ Hlab Hty].
  destruct (Ht foreign eq_refl) as [Hcov [Honly _]]. set (top := next_id (id_allocator e)) in *.
  assert (size (g_nodes G) <= m)%nat as Hsn by (apply ids_few; intros i a Hi; apply Hni in Hi; lia).
  assert (size (g_edges G) <= m)%nat as Hse by (apply ids_few; intros i a Hi; apply Hei in Hi; lia).
  assert (forall K, widths_ok K SLOT_BYTES -> (K <= 24)%nat -> index_is K MAX_OPS tree_new ∅) as Htr by (intros; by apply tree_new_is).
  set (e0 := engine_new (page_manager e) w lsn).
  assert (scanned G D n top (fun _ => False) e0) as Hsc.
  { split; try done; try apply tm_new_idle; try (intros p; simpl; set_solver); [..|simpl; lia].
    - exists ∅. rewrite map_size_empty, Nat.sub_0_r. split_and!.
      + intros i a. rewrite lookup_empty. naive_solver.
      + exists ∅. split; [apply Htr; [apply widths_16|lia]|apply indexed_empty].
      + exists ∅. split; [apply Htr; [apply widths_24|lia]|apply indexed_empty].
      + intros i a. by rewrite lookup_empty.
    - exists ∅. rewrite map_size_empty, Nat.sub_0_r. split_and!.
      + intros i a. rewrite lookup_empty. naive_solver.
      + exists ∅. split; [apply Htr; [apply widths_16|lia]|apply indexed_empty].
      + exists ∅. split; [apply Htr; [apply widths_24|lia]|apply indexed_empty].
      + intros i a. by rewrite lookup_empty. }
  destruct (rebuild_scanned G D n top Hni Hei ltac:(lia) ltac:(lia) ltac:(lia) allocated _ e0 Hnd Hsc) as (e' & E & Hsc'); [|by intros y _ []|].
  { intros p Hp. destruct (Hout p Hp) as [?|H]; [by left|right]. apply elem_of_app in H as [H|H]; auto. }
  exists e'. split; [done|]. split; [|apply (sc_ids _ _ _ _ _ _ Hsc')].
  eapply (scanned_all_rep G D n top Hni Hei); try done; try lia.
  eapply scanned_ext; [|exact Hsc']. intros y [bs Hy]. split; [done|]. intros _. right.
  apply hrec_inv in Hy as (_ & HyD & _). apply Hin, elem_of_app. by apply Hcov.
Qed.
End Restart.

(** C7: A restart keeps the graph.  Take a history of operations on nodes and
    relationships without properties, on a healthy store and log, that deletes
    no relationship twice and leaves no live relationship on a deleted node.
    Rebuilding the indexes from the allocated pages, which must be the engine's
    own besides the reserved ones, succeeds in whatever order they come, and the
    rebuilt engine answers a further such history as the abstract graph reached
    before the restart does, less its tombstones; new ids stay above those in
    use.  The two histories together have at most [MAX_OPS] operations. *)
Theorem graph_restart_refines {S} `{HL : PageStoreLaws S} `{CS : Checksums} {W} `{WL : WalLog W} env env2 ops ops2 (s : S) (w w2 : W) lsn lsn2 :
  ps_calm (length ops + length ops2) s -> wal_steady w -> wal_steady w2 ->
  (forall i, env_turns (env i) ≠ []) -> (forall i, env_turns (env2 i) ≠ []) ->
  Forall graph_op_ok ops -> Forall graph_op_ok ops2 -> NoDup (rel_deletes ops) -> NoDup (rel_deletes ops2) ->
  (length ops + length ops2 <= MAX_OPS)%nat ->
  exists xs e1 G1, run_graph_ops env 0 ops (engine_new s w lsn) = Some (xs, e1) /\ graph_spec_ops ops graph_empty 1 xs G1 /\
    forall allocated, allocated_for allocated e1 -> no_dangling G1 ->
      exists e2 xs2 e3 G3, rebuild_indexes allocated (engine_new (page_manager e1) w2 lsn2) = Some (Ok tt, e2) /\
        (forall i, is_Some (g_nodes (purge G1) !! i) \/ is_Some (g_edges (purge G1) !! i) -> i < next_id (id_allocator e2)) /\
        run_graph_ops env2 0 ops2 e2 = Some (xs2, e3) /\ graph_spec_ops ops2 (purge G1) (next_id (id_allocator e2)) xs2 G3.
Proof.
  intros Hs Hw Hw2 Hv Hv2 Hok Hok2 Hnd Hnd2 Hn.
  destruct (run_graph_ops_spec (tidy := Some true) env ops (length ops2) (length ops2) Hv 0 graph_empty (engine_new s w lsn))
    as (xs & e1 & G1 & E & Hx & Hr & Hnext); try done; [by apply engine_new_rep|].
  exists xs, e1, G1. split; [done|]. split; [done|]. intros allocated Hal Hdang.
  destruct (rebuild_rep true (length ops2) (length ops) G1 e1 allocated w2 lsn2 Hr Hw2 Hdang) as (e2 & E2 & Hr2 & _); [exact Hnext|lia|done|].
  destruct (run_graph_ops_spec (tidy := None) env2 ops2 0 0 Hv2 0 (purge G1) e2) as (xs2 & e3 & G3 & E3 & Hx3 & _); try done.
  - by rewrite Nat.add_0_r.
  - intros i b _ [_ Hb]%purge_edge. done.
  - exists e2, xs2, e3, G3. split_and!; try done. intros i [[a Ha]|[b Hb]]; [apply (rp_node_ids _ _ _ _ Hr2) in Ha|apply (rp_edge_ids _ _ _ _ Hr2) in Hb]; lia.
Qed.

(** ** A restart, evaluated *)

Module RestartDemo.
#[local] Existing Instance additive_checksums.
#[local] Existing Instance GraphDemo.mem_store.
#[local] Existing Instance GraphDemo.mem_laws.
#[local] Existing Instance GraphDemo.mem_log.

Definition first : list graph_op := [CreateNode 1; CreateNode 2; CreateRel 5 1 2].
Definition later : list graph_op := [ScanEdges Out 1 []; CreateNode 3; CreateRel 6 2 4; ScanEdges In 4 []; GetRel 3].

Definition run_first := run_graph_ops GraphDemo.idle_env 0 first (engine_new GraphDemo.mem0 (GraphDemo.mkLog []) 0).

Example first_pages : (fun r => (node_pages r.2, edge_pages r.2)) <$> run_first = Some ([3], [4]).
Proof. vm_compute. reflexivity. Qed.

Lemma first_no_dangling xs G : graph_spec_ops first graph_empty 1 xs G -> no_dangling G.
Proof.
  unfold first. destruct xs as [|x1 [|x2 [|x3 [|]]]]; cbn [graph_spec_ops]; try done; intros Hs.
  all: try (repeat (destruct Hs as (? & ? & _ & Hs)); done).
  destruct Hs as (G1 & n1 & (s1 & _ & -> & ->) & G2 & n2 & (s2 & _ & -> & ->) & G3 & n3 & (_ & H3) & ->).
  cbn in H3. destruct H3 as (s3 & _ & ->). intros i b d a Hi _. cbn [link_edge set_adj put_anode put_aedge g_nodes graph_empty].
  rewrite !lookup_insert_Some, lookup_empty. naive_solver.
Qed.

Lemma pages_listed {S W} (e : Engine S W) : node_pages e = [3] -> edge_pages e = [4] -> allocated_for [0; 1; 2; 3; 4] e.
Proof.
  intros E1 E2. unfold allocated_for. rewrite E1, E2. clear. cbn [app]. split_and!.
  - apply (bool_decide_unpack (NoDup [0; 1; 2; 3; 4])). vm_compute. exact I.
  - intros p. rewrite !elem_of_cons, elem_of_nil. intros [->|[->|[]]]; (split; [auto 6|vm_compute; reflexivity]).
  - intros p. rewrite !elem_of_cons, elem_of_nil. intros [->|[->|[->|?]]]; [left; reflexivity..|by right].
Qed.

Lemma graph_restart_refines_witness : exists e1 G1 e2 xs2 e3 G3,
  (fun r => r.2) <$> run_first = Some e1 /\
  rebuild_indexes [0; 1; 2; 3; 4] (engine_new (page_manager e1) (GraphDemo.mkLog []) 0) = Some (Ok tt, e2) /\
  run_graph_ops GraphDemo.idle_env 0 later e2 = Some (xs2, e3) /\
  graph_spec_ops later (purge G1) (next_id (id_allocator e2)) xs2 G3.
Proof.
  destruct (graph_restart_refines GraphDemo.idle_env GraphDemo.idle_env first later GraphDemo.mem0 (GraphDemo.mkLog []) (GraphDemo.mkLog []) 0 0)
    as (xs & e1 & G1 & E & Hx & Hres).
  - split_and!; [reflexivity|vm_compute; discriminate|]. intros p b Hb.
    change (GraphDemo.ms_pages GraphDemo.mem0) with (∅ : gmap Z Page) in Hb. by rewrite lookup_empty in Hb.
  - apply GraphDemo.mem_log_steady.
  - apply GraphDemo.mem_log_steady.
  - intros i H. discriminate H.
  - intros i H. discriminate H.
  - repeat (apply Forall_cons; split); try apply Forall_nil; vm_compute; auto; repeat split; try discriminate; lia.
  - repeat (apply Forall_cons; split); try apply Forall_nil; vm_compute; auto; repeat split; try discriminate; lia.
  - vm_compute. repeat constructor; set_solver.
  - vm_compute. repeat constructor; set_solver.
  - vm_compute. lia.
  - pose proof first_pages as Hp. fold run_first in E. rewrite E in Hp. injection Hp as Hp1 Hp2.
    destruct (Hres [0; 1; 2; 3; 4]) as (e2 & xs2 & e3 & G3 & H1 & _ & H2 & H3); [|by apply (first_no_dangling xs)|].
    + by apply pages_listed.
    + exists e1, G1, e2, xs2, e3, G3. rewrite E. split; [reflexivity|]. split; [exact H1|]. split; [exact H2|exact H3].
Defined.

(** The answers after the restart. *)
Example later_answers :
  (y ← run_first; z ← rebuild_indexes [0; 1; 2; 3; 4] (engine_new (page_manager y.2) (GraphDemo.mkLog []) 0);
   (fun r => r.1) <$> run_graph_ops GraphDemo.idle_env 0 later z.2) =
  Some [OutEdges [(3, 5, 2)]; OutCreated (mkSlotRef 770) 4; OutCreated (mkSlotRef 1025) 5; OutEdges [(5, 6, 2)];
        OutRel (Some (mkRelView 3 5 1 2 ∅))].
Proof. vm_compute. reflexivity. Qed.
End RestartDemo.
