(* ===== verification/PageIo.v ===== *)
(** * Page reads and writes of the page manager ([src/storage/manager.rs])

    [read_page] and [write_page] on both routes, through the buffer pool and
    straight to the data file, the persistence of the allocation bitmaps, the
    opening of a manager over its file, and the reconciliation of the allocator
    with the pages found on disk.  The data file's handle is opened by [init]
    and [open_multi] and stays open, so the error for a missing handle does not
    arise.  The theorems show that both routes read back what was written and
    leave the other pages alone, and that reconciliation marks exactly the pages
    that hold records. *)

From stdpp Require Import prelude list gmap sets.
From Stdlib Require Import ZArith Lia.
From S2P Require Import Prelude Bytes Checksum Io SlottedPage PageFile DoubleWrite Superblock BufferPool PageAlloc.

(** The manager with the pool it routes through, when one is attached. *)
Record DiskManager := mkDm { manager : PageManager; pool : option BufferPool }.

Definition set_manager (d : DiskManager) (m : PageManager) : DiskManager := mkDm m (pool d).
Definition set_pool (d : DiskManager) (p : BufferPool) : DiskManager := mkDm (manager d) (Some p).

Section Manager.
Context `{CS : Checksums} (data_path : Path) (doublewrite : option Path).

#[local] Open Scope act_scope.

(** A call on the attached pool [p]. *)
Definition on_pool {A} (p : BufferPool) (m : Act BufferPool A) : Act DiskManager A := fun s =>
  let '(r, (p1, w1)) := m (p, s.2) in (r, (set_pool s.1 p1, w1)).

Definition from_result {S A} (r : result A IoError) : Act S A := fun s => (r, s).

(** A guard on frame [fid]: its bytes, its write, its release. *)
Definition guard_buf (fid : nat) : Act BufferPool (list Z) :=
  do p <- self; ret (f_buf (frame p fid)).

Definition pooled_read (page_id : Z) : Act BufferPool (list Z) :=
  do fid <- fix_page data_path doublewrite page_id;
  do buf <- guard_buf fid;
  modify (fun p => unfix_page p fid) ;;;
  ret buf.

(** The checksum repair of a direct read, from the double-write buffer. *)
Definition staged_image {T} (page_id : Z) : Act T (option (list Z)) :=
  match doublewrite with Some dw => valid_image_for dw page_id | None => ret None end.

Definition repair {T} (page_id : Z) (offset : nat) (buf : list Z) : Act T (list Z) :=
  do image <- staged_image page_id;
  match image with
  | Some image =>
      let buf := write_at buf 0 (take (min (length image) PAGE_SIZE) image) in
      lift (h_write_at data_path buf offset) ;;;
      lift (h_sync data_path) ;;;
      ret buf
  | None => fail InvalidData
  end.

Definition direct_read {T} (page_id : Z) : Act T (list Z) :=
  do offset <- from_result (checked_page_offset page_id);
  do buf <- lift (h_read_at data_path PAGE_SIZE (Z.to_nat offset));
  if verify_checksum_bytes buf then ret buf else repair page_id (Z.to_nat offset) buf.

Definition read_page (page_id : Z) : Act DiskManager (list Z) :=
  do d <- self;
  match pool d with
  | Some p => on_pool p (pooled_read page_id)
  | None => direct_read page_id
  end.

(** [if current_len < required_len]: the file grows to the end of the page. *)
Definition grow_to {T} (required_len : nat) : Act T bool :=
  do current_len <- lift (h_len data_path);
  if (current_len <? required_len)%nat then
    lift (h_set_len data_path required_len) ;;;
    lift (h_sync data_path) ;;;
    ret true
  else ret false.

(** The pooled route makes sure that a page past the end can be loaded. *)
Definition placeholder {T} (page_id : Z) : Act T unit :=
  do grown <- grow_to (page_end page_id);
  if grown : bool then
    lift (h_write_at data_path (update_checksum_bytes (init page_id PtSlottedData)) (page_offset page_id)) ;;;
    lift (h_sync data_path)
  else ret tt.

Definition pooled_write (page_id : Z) (buf : list Z) : Act BufferPool unit :=
  placeholder page_id ;;;
  do fid <- fix_page data_path doublewrite page_id;
  let buf := update_checksum_bytes buf in
  modify (fun p => guard_write p fid buf (from_be (slice buf 0 8))) ;;;
  modify (fun p => unfix_page p fid).

Definition direct_write {T} (page_id : Z) (buf : list Z) : Act T unit :=
  let buf := update_checksum_bytes buf in
  do offset <- from_result (checked_page_offset page_id);
  grow_to (Z.to_nat offset + PAGE_SIZE) ;;;
  match doublewrite with Some dw => write_batch dw [(page_id, buf)] | None => ret tt end ;;;
  lift (h_write_at data_path buf (Z.to_nat offset)) ;;;
  lift (h_sync data_path) ;;;
  match doublewrite with Some dw => clear dw | None => ret tt end.

Definition write_page (page_id : Z) (buf : list Z) : Act DiskManager unit :=
  do d <- self;
  match pool d with
  | Some p => on_pool p (pooled_write page_id buf)
  | None => direct_write page_id buf
  end.

(** [free_page]: a resident frame of the page is dropped too.  [None] for a
    panic, or when the pool waits for I/O that never ends. *)
Definition dm_free_page (d : DiskManager) (page_id : Z) : option DiskManager :=
  r ← free_page (manager d) page_id;
  let d := set_manager d r.1 in
  match pool d with
  | Some p => if r.2 : bool then p1 ← invalidate p page_id; Some (set_pool d p1) else Some d
  | None => Some d
  end.

(** ** Opening and persisting *)

Definition dm_init (page_size : Z) : Act unit (option DiskManager) :=
  let m := pm_init page_size in
  lift (fs_open data_path true) ;;;
  do current_len <- attempt (lift (h_len data_path));
  let current_len := match current_len with Ok n => n | Err _ => 0%nat end in
  (if (current_len <? 3 * PAGE_SIZE)%nat
   then lift (h_set_len data_path (3 * PAGE_SIZE)) ;;; lift (h_sync data_path)
   else ret tt) ;;;
  ret (m ← m; Some (mkDm m None)).

Definition dm_open (sb : Superblock) (bitmap_bufs : list (list Z)) : Act unit (option DiskManager) :=
  lift (fs_open data_path false) ;;;
  ret (m ← open_multi sb bitmap_bufs; Some (mkDm m None)).

Definition dm_recover_torn_pages : Act DiskManager nat :=
  match doublewrite with Some dw => recover_torn_pages dw data_path | None => ret 0%nat end.

(** [page.header().page_id]. *)
Definition header_page_id (p : Page) : Z := from_le (slice p 8 16).

(** One bitmap page: the checksum is renewed in memory, then the page written. *)
Definition write_bitmap (i : nat) (b : BitmapPage) : Act PageManager unit :=
  let page_id := header_page_id (bm_page b) in
  let b := mkBitmap (update_checksum_bytes (bm_page b)) (bitmap_slot b) in
  modify (fun m => with_bitmaps m (<[i := b]> (bitmaps m))) ;;;
  do offset <- from_result (checked_page_offset page_id);
  grow_to (Z.to_nat offset + PAGE_SIZE) ;;;
  lift (h_write_at data_path (bm_page b) (Z.to_nat offset)).

Fixpoint write_bitmaps (i : nat) (bs : list BitmapPage) : Act PageManager unit :=
  match bs with
  | [] => ret tt
  | b :: bs => write_bitmap i b ;;; write_bitmaps (i + 1) bs
  end.

Definition sync_bitmaps : Act PageManager unit :=
  do m <- self;
  write_bitmaps 0 (bitmaps m) ;;; lift (h_sync data_path).

(** Only the first bitmap page; [None] is the panic when there is none. *)
Definition sync_bitmap : Act PageManager (option unit) :=
  do m <- self;
  match bitmaps m !! 0%nat with
  | None => ret None
  | Some b => write_bitmap 0 b ;;; lift (h_sync data_path) ;;; ret (Some tt)
  end.

(** ** Reconciliation *)

(** Marking a page found in use: [ensure_bitmap], then its bit; [None] is a panic. *)
Definition mark_page (m : PageManager) (pid : Z) : option PageManager :=
  m ← ensure_bitmap m (region pid);
  bs ← bitmaps_allocate (bitmaps m) (region pid) pid;
  Some (with_bitmaps m bs).

(** The scan over [n] pages from [pid]; [None] is a panic. *)
Fixpoint reconcile_loop (n : nat) (pid max_in_use : Z) : Act PageManager (option Z) :=
  match n with
  | O => ret (Some max_in_use)
  | S n =>
      if is_bitmap_page pid then reconcile_loop n (pid + 1) max_in_use else
      do buf <- attempt (lift (h_read_at data_path PAGE_SIZE (page_offset pid)));
      match buf with
      | Err _ => reconcile_loop n (pid + 1) max_in_use
      | Ok buf =>
          if negb (verify_checksum_bytes buf) then reconcile_loop n (pid + 1) max_in_use else
          if (0 <? slot_count buf)%nat then
            do m <- self;
            match mark_page m pid with
            | Some m1 => put m1 ;;; reconcile_loop n (pid + 1) (Z.max max_in_use pid)
            | None => ret None
            end
          else reconcile_loop n (pid + 1) max_in_use
      end
  end.

(** The superblock's counters after the scan. *)
Definition raise_counters (sb : Superblock) (high_water max_in_use : Z) : Superblock :=
  let reconciled := Z.min U64_MAX (max_in_use + 1) in
  set_sb_counts sb (Z.max (total_page_count sb) high_water) (free_page_count sb) (Z.max (next_free_page_id sb) reconciled).

Definition reconcile_from_disk : Act PageManager (option unit) :=
  lift (fs_open data_path false) ;;;
  do file_len <- lift (h_len data_path);
  let high_water := Z.of_nat file_len / 8192 in
  do m <- self;
  let max_in_use := Z.max 0 (next_free_page_id (superblock m) - 1) in
  do found <- reconcile_loop (Z.to_nat (high_water - FIRST_DATA_PAGE_ID)) FIRST_DATA_PAGE_ID max_in_use;
  match found with
  | None => ret None
  | Some max_in_use =>
      modify (fun m => with_sb m (raise_counters (superblock m) high_water max_in_use)) ;;;
      ret (Some tt)
  end.

End Manager.

(** ** What one page access can touch *)


Section Touch.
Context `{CS : Checksums} (data_path : Path).

#[local] Notation disk := (disk data_path).

(** The call leaves the struct, the data file in place, and every page but [q]. *)
Definition only_page {T A} (q : Z) (m : Act T A) : Prop := forall s w r s' w',
  is_Some (files w !! data_path) -> m (s, w) = (r, (s', w')) ->
  s' = s /\ is_Some (files w' !! data_path) /\ forall x, page_number x -> x <> q -> disk w' x = disk w x.

Lemma only_page_leaves {T A} q (m : Act T A) : leaves data_path m -> only_page q m.
Proof.
  intros H s w r s' w' Hf E. destruct (H _ _ _ _ _ E) as [-> Ef]. rewrite Ef. split; [done|]. split; [done|].
  intros x _ _. by apply same_file_disk.
Qed.

Lemma only_page_ret {T A} q (a : A) : only_page q (ret a : Act T A).
Proof. apply only_page_leaves, leaves_ret. Qed.

Lemma only_page_result {T A} q (r : result A IoError) : only_page q (from_result r : Act T A).
Proof. intros s w r' s' w' Hf [= <- <- <-]. by split_and!. Qed.

Lemma only_page_bind {T A B} q (m : Act T A) (k : A -> Act T B) :
  only_page q m -> (forall a, only_page q (k a)) -> only_page q (bind m k).
Proof.
  intros Hm Hk s w r s' w' Hf. unfold bind. destruct (m (s, w)) as [[a|e] [s1 w1]] eqn:E; intros H;
    destruct (Hm _ _ _ _ _ Hf E) as (-> & Hf1 & H1).
  - destruct (Hk a _ _ _ _ _ Hf1 H) as (-> & Hf2 & H2). split; [done|]. split; [done|]. intros x Hx Hn. by rewrite H2, H1.
  - injection H as <- <- <-. by split_and!.
Qed.

Lemma leaves_h_len {T} (s : T) w r s' w' : lift (h_len data_path) (s, w) = (r, (s', w')) ->
  s' = s /\ files w' !! data_path = files w !! data_path /\ (script w = [] -> script w' = []).
Proof.
  unfold lift, h_len, with_file. cbn [fst snd]. pose proof (next_outcome_files w) as E. pose proof (next_outcome_quiet w) as Eq.
  destruct (files w !! data_path) eqn:E0; [|by intros [= <- <- <-]].
  destruct (next_outcome w) as [[|k] w1]; cbn [snd] in *; intros [= <- <- <-]; (split; [done|split; [congruence|]]);
    intros Hs; specialize (Eq Hs); congruence.
Qed.

Lemma only_page_sync {T} q : only_page q (lift (h_sync data_path) : Act T unit).
Proof.
  intros s w r s' w' [f Hf]. unfold lift. cbn [fst snd]. destruct (h_sync data_path w) as [r1 w1] eqn:E. intros [= <- <- <-].
  destruct (h_sync_file data_path w f _ _ Hf E) as (f1 & Hf1 & Hc & _). split_and!; [done|by exists f1|].
  intros x _ _. unfold disk, data_file. by rewrite Hf, Hf1; simpl; rewrite Hc.
Qed.

Lemma only_page_write {T} q buf : page_number q -> length buf = PAGE_SIZE ->
  only_page q (lift (h_write_at data_path buf (page_offset q)) : Act T unit).
Proof.
  intros Hq Hl s w r s' w' [f Hf]. unfold lift. cbn [fst snd].
  destruct (h_write_at data_path buf (page_offset q) w) as [r1 w1] eqn:E. intros [= <- <- <-].
  destruct (write_in_place data_path w f q buf _ _ Hf Hq Hl E) as (f1 & Hf1 & _ & Hx & _). split_and!; [done|by exists f1|exact Hx].
Qed.

Lemma page_of_grow f n q : (length f <= n)%nat -> page_of (take n (f ++ replicate (n - length f) 0)) q = page_of f q.
Proof.
  intros Hn. rewrite take_ge by (rewrite length_app, length_replicate; lia). apply list_eq. intros i.
  rewrite !lookup_page_of. case_decide; [|done]. f_equal. destruct (decide (page_offset q + i < length f)%nat).
  - by rewrite lookup_app_l.
  - rewrite lookup_app_r, (lookup_ge_None_2 f) by lia. destruct (replicate _ _ !! _) eqn:E; [|done].
    by apply lookup_replicate in E as [-> _].
Qed.

(** Growing the file changes no page at all. *)
Lemma grow_to_spec {T} n (s : T) w r s' w' :
  is_Some (files w !! data_path) -> grow_to data_path n (s, w) = (r, (s', w')) ->
  s' = s /\ is_Some (files w' !! data_path) /\ forall x, disk w' x = disk w x.
Proof.
  intros [f Hf]. unfold grow_to, bind, lift. cbn [fst snd]. unfold h_len, with_file. rewrite Hf.
  pose proof (next_outcome_files w) as En. destruct (next_outcome w) as [[|k] w1]; cbn [fst snd] in *.
  2: { intros [= <- <- <-]. rewrite En. split_and!; [done|by exists f|]. intros x. apply same_file_disk. by rewrite En. }
  rewrite <- En in Hf. destruct (Nat.ltb_spec (length (cached f)) n) as [Hlt|_].
  2: { intros [= <- <- <-]. split_and!; [done|by exists f|]. intros x. apply same_file_disk. by rewrite En. }
  assert (forall x, disk w1 x = disk w x) as E1 by (intros x; apply same_file_disk; by rewrite En).
  cbn [fst snd]. destruct (h_set_len data_path n w1) as [r2 w2] eqn:E2.
  assert (is_Some (files w2 !! data_path) /\ forall x, disk w2 x = disk w x) as [[f2 Hf2] H2].
  { revert E2. unfold h_set_len, with_file. rewrite Hf. pose proof (next_outcome_files w1) as En1.
    destruct (next_outcome w1) as [[|k] w3]; cbn [snd] in *; intros [= <- <-].
    - rewrite set_file_files. split; [eauto|]. intros x. rewrite <- E1. unfold disk, data_file. rewrite set_file_files, Hf. simpl.
      apply page_of_grow. lia.
    - rewrite En1. split; [eauto|]. intros x. rewrite <- E1. apply same_file_disk. by rewrite En1. }
  destruct r2; [|by intros [= <- <- <-]; split_and!; eauto].
  cbn [fst snd]. destruct (h_sync data_path w2) as [r3 w3] eqn:E3.
  destruct (h_sync_file data_path w2 f2 _ _ Hf2 E3) as (f3 & Hf3 & Hc & _).
  assert (forall x, disk w3 x = disk w x) as H3.
  { intros x. rewrite <- H2. unfold disk, data_file. by rewrite Hf2, Hf3; simpl; rewrite Hc. }
  destruct r3; intros [= <- <- <-]; split_and!; eauto.
Qed.

Lemma only_page_grow {T} q n : only_page q (grow_to data_path n : Act T bool).
Proof. intros s w r s' w' Hf E. destruct (grow_to_spec n s w r s' w' Hf E) as (-> & Hf' & Hx). split; [done|]. by split; [|auto]. Qed.

End Touch.

(** ** Both routes *)

Section Routes.
Context `{CS : Checksums} (data_path : Path) (doublewrite : option Path).
Context (Hdw : match doublewrite with Some d => d <> data_path | None => True end).

#[local] Notation disk := (disk data_path).
#[local] Notation view := (view data_path).

(** Inverting a sequence that succeeded. *)
Lemma bind_Ok {T A B} (m : Act T A) (k : A -> Act T B) s b s' :
  bind m k s = (Ok b, s') -> exists a s1, m s = (Ok a, s1) /\ k a s1 = (Ok b, s').
Proof. unfold bind. destruct (m s) as [[a|e] s1]; [eauto|done]. Qed.

Lemma lift_Ok {T A} (m : IO A) (s : T) w a sw : lift m (s, w) = (Ok a, sw) -> exists w1, m w = (Ok a, w1) /\ sw = (s, w1).
Proof. unfold lift. cbn [fst snd]. destruct (m w) as [r w1]. intros [= -> <-]. eauto. Qed.

Lemma length_update buf : length buf = PAGE_SIZE -> length (update_checksum_bytes buf) = PAGE_SIZE.
Proof. intros H. unfold update_checksum_bytes. rewrite length_write_at; [done|]. rewrite length_to_le. page_lia. Qed.

Lemma length_blank q t : length (init q t) = PAGE_SIZE.
Proof.
  unfold init. rewrite length_write_at, length_replicate; [done|].
  rewrite length_header_new, length_replicate. unfold HEADER_SIZE. page_lia.
Qed.

(** The offset of an addressable page is not refused. *)
Lemma checked_offset q : addressable q -> checked_page_offset q = Ok (q * 8192) /\ Z.to_nat (q * 8192) = page_offset q.
Proof.
  intros Hq. split.
  - unfold addressable in Hq. unfold checked_page_offset, checked_mul, checked_add.
    destruct (Z.ltb_spec (q * 8192) (2 ^ 64)); [|lia]. destruct (Z.ltb_spec (q * 8192 + 8192) (2 ^ 64)); [done|lia].
  - pose proof (page_offset_eq q (addressable_number q Hq)). lia.
Qed.

(** A page written in place and synced: the page, and the durable file. *)
Lemma write_synced {T} q buf (s : T) w w1 w2 :
  is_Some (files w !! data_path) -> page_number q -> length buf = PAGE_SIZE ->
  h_write_at data_path buf (page_offset q) w = (Ok tt, w1) -> h_sync data_path w1 = (Ok tt, w2) ->
  is_Some (files w2 !! data_path) /\ (forall x, page_number x -> disk w2 x = if decide (x = q) then buf else disk w x) /\
  durable_file data_path w2 = data_file data_path w2.
Proof.
  intros [f Hf] Hq Hl E1 E2. destruct (write_in_place data_path w f q buf _ _ Hf Hq Hl E1) as (f1 & Hf1 & _ & Hx & Hok).
  destruct (h_sync_file data_path w1 f1 _ _ Hf1 E2) as (f2 & Hf2 & Hc & Hd).
  assert (forall x, disk w2 x = disk w1 x) as H2 by (intros x; unfold disk, data_file; by rewrite Hf1, Hf2; simpl; rewrite Hc).
  split_and!; [by exists f2| |].
  - intros x Hnum. rewrite H2. case_decide as E; [subst; by apply Hok|by apply Hx].
  - unfold durable_file, data_file. rewrite Hf2. simpl. congruence.
Qed.

Lemma bind_result {T A B} (a : A) (k : A -> Act T B) : bind (from_result (Ok a)) k = k a.
Proof. reflexivity. Qed.

Lemma only_page_stage {T} q pages :
  only_page data_path q (match doublewrite with Some dw => write_batch dw pages | None => ret tt end : Act T unit).
Proof using Hdw. apply only_page_leaves. by apply leaves_stage. Qed.

Lemma leaves_dw_clear {T} : leaves data_path (match doublewrite with Some dw => clear dw | None => ret tt end : Act T unit).
Proof using Hdw. destruct doublewrite; [by apply leaves_clear|apply leaves_ret]. Qed.

Lemma direct_write_only_page {T} q buf : addressable q -> length buf = PAGE_SIZE ->
  only_page data_path q (direct_write data_path doublewrite q buf : Act T unit).
Proof using Hdw.
  intros Hq Hl. destruct (checked_offset q Hq) as [E1 E2]. unfold direct_write. rewrite E1, bind_result, E2.
  apply only_page_bind; [apply only_page_grow|]. intros _.
  apply only_page_bind; [apply only_page_stage|]. intros _.
  apply only_page_bind; [apply only_page_write; [by apply addressable_number|by apply length_update]|]. intros _.
  apply only_page_bind; [apply only_page_sync|]. intros _. apply only_page_leaves, leaves_dw_clear.
Qed.

(** A direct write that succeeds has the page on disk, durably. *)
Lemma direct_write_Ok {T} q buf (s : T) w s' w' :
  is_Some (files w !! data_path) -> addressable q -> length buf = PAGE_SIZE ->
  direct_write data_path doublewrite q buf (s, w) = (Ok tt, (s', w')) ->
  disk w' q = update_checksum_bytes buf /\ page_of (durable_file data_path w') q = update_checksum_bytes buf.
Proof using Hdw.
  intros Hf Hq Hl. destruct (checked_offset q Hq) as [E1 E2]. unfold direct_write. rewrite E1, bind_result, E2.
  intros (b & [s1 w1] & G1 & H)%bind_Ok. destruct (only_page_grow data_path q _ _ _ _ _ _ Hf G1) as (-> & Hf1 & _).
  apply bind_Ok in H as (u & [s2 w2] & G2 & H). destruct (only_page_stage q _ _ _ _ _ _ Hf1 G2) as (-> & Hf2 & _).
  apply bind_Ok in H as (u2 & [s3 w3] & G3 & H). apply lift_Ok in G3 as (w4 & G3 & [= -> ->]).
  apply bind_Ok in H as (u3 & [s4 w5] & G4 & H). apply lift_Ok in G4 as (w6 & G4 & [= -> ->]).
  destruct u2, u3. destruct (write_synced (T := T) q _ s w2 w4 w6 Hf2 (addressable_number q Hq) (length_update buf Hl) G3 G4) as (_ & Hx & Hd).
  destruct (leaves_dw_clear _ _ _ _ _ H) as [_ Ef]. destruct (same_file_disk data_path w6 w' Ef) as [Ed Edu].
  rewrite Edu, Hd, Ed. fold (disk w6 q). by rewrite Hx, decide_True by (done || by apply addressable_number).
Qed.

Lemma read_Ok {T} n off (s : T) w b sw : lift (h_read_at data_path n off) (s, w) = (Ok b, sw) ->
  length b = n /\ b = slice (data_file data_path w) off (off + n) /\ (off + n <= length (data_file data_path w))%nat.
Proof.
  intros (w1 & E & _)%lift_Ok. revert E. unfold h_read_at, with_file, data_file. destruct (files w !! data_path) as [f|] eqn:Ef; [|done].
  pose proof (next_outcome_files w) as En. destruct (next_outcome w) as [[|k] w2]; [|done].
  destruct (Nat.leb_spec (off + n) (length (cached f))) as [Hle|]; [|done]. intros [= <- _].
  simpl. split; [|done]. unfold slice. rewrite length_take, length_drop. lia.
Qed.

Lemma leaves_valid_image {T} q :
  leaves data_path (staged_image doublewrite q : Act T (option (list Z))).
Proof using Hdw.
  unfold staged_image. destruct doublewrite as [dw|]; [|apply leaves_ret]. unfold valid_image_for, read_entries.
  apply leaves_bind; [|intros; apply leaves_ret]. apply leaves_bind; [by intros s w r s' w' [= <- <- <-]|]. intros w0.
  destruct (negb _); [apply leaves_ret|]. assert (forall A (k : File -> IO A),
    (forall f w, files (k f w).2 = files w) -> leaves data_path (lift (with_file dw k) : Act T A)) as Hk.
  { intros A k Hk. apply leaves_lift, other_with_file. intros f w. by rewrite Hk. }
  apply leaves_bind; [|intros _; apply leaves_bind; [|intros n; destruct (_ <? _)%nat; [apply leaves_ret|apply leaves_bind]]].
  - apply leaves_lift. intros w. unfold fs_open. pose proof (next_outcome_files w) as E.
    destruct (next_outcome w) as [[|k] w1]; cbn [snd] in *; [destruct (files w1 !! dw)|]; cbn [snd]; by rewrite E.
  - apply Hk. intros f w. pose proof (next_outcome_files w). by destruct (next_outcome w) as [[|k] w1].
  - apply Hk. intros f w. pose proof (next_outcome_files w). destruct (next_outcome w) as [[|k] w1]; [|done].
    by destruct (_ <=? _)%nat.
  - intros raw. apply leaves_ret.
Qed.

Lemma read_keeps_files {T} p n off (s : T) w r s' w' :
  lift (h_read_at p n off) (s, w) = (r, (s', w')) -> files w' = files w.
Proof.
  unfold lift, h_read_at, with_file. cbn [fst snd]. pose proof (next_outcome_files w) as En.
  destruct (files w !! p); [|by intros [= _ _ <-]]. destruct (next_outcome w) as [[|k] w2]; cbn [snd] in En; [|by intros [= _ _ <-]].
  destruct (_ <=? _)%nat; by intros [= _ _ <-].
Qed.

(** The image found for page [q] is an entry of the double-write file for that
    page, a whole page with a valid checksum. *)
Lemma valid_image_entry {T} dw q (s : T) w img sw :
  valid_image_for dw q (s, w) = (Ok (Some img), sw) ->
  exists f, files w !! dw = Some f /\ (q, img) ∈ parse_entries (cached f) /\
    verify_page_checksum img = true /\ (PAGE_SIZE <= length img)%nat.
Proof.
  unfold valid_image_for. intros (entries & sw1 & He & Hr)%bind_Ok. injection Hr as Hr _.
  destruct (List.find _ entries) as [[q' img']|] eqn:Ef; [|done]. cbn [fmap option_fmap option_map snd] in Hr.
  injection Hr as ->. apply List.find_some in Ef as [Hin Hv]. cbn [fst snd] in Hv. rg_bool.
  assert (exists f, files w !! dw = Some f /\ entries = parse_entries (cached f)) as (f & Hf & ->).
  { revert He. unfold read_entries. unfold bind at 1, world. cbn [fst snd]. unfold exists_path.
    destruct (files w !! dw) as [f|] eqn:E.
    2:{ rewrite bool_decide_false by (by apply is_Some_None). cbn [negb]. unfold ret. intros [= <- _]. done. }
    rewrite bool_decide_true by eauto. cbn [negb]. intros ([] & [s1 w1] & Ho & He)%bind_Ok.
    apply lift_Ok in Ho as (w2 & Ho & [= -> ->]). assert (files w2 = files w) as F2.
    { revert Ho. unfold fs_open. pose proof (next_outcome_files w) as En. destruct (next_outcome w) as [[|k] w3]; cbn [snd] in En; [|done].
      rewrite En, E. by intros [= <-]. }
    apply bind_Ok in He as (n & [s3 w3] & Hl & He). apply lift_Ok in Hl as (w4 & Hl & [= -> ->]).
    assert (n = length (cached f) /\ files w4 = files w) as [-> F4].
    { revert Hl. unfold h_len, with_file. rewrite F2, E. pose proof (next_outcome_files w2) as En.
      destruct (next_outcome w2) as [[|k] w5]; cbn [snd] in En; [|done]. intros [= <- <-]. by rewrite En. }
    destruct (_ <? 4)%nat; [unfold ret in He; injection He as <- _; done|].
    apply bind_Ok in He as (raw & [s5 w5] & Hr & He). apply lift_Ok in Hr as (w6 & Hr & [= -> ->]).
    unfold ret in He. injection He as <- _. exists f. split; [done|]. f_equal.
    revert Hr. unfold h_read_at, with_file. rewrite F4, E. destruct (next_outcome w4) as [[|k] w7]; [|done].
    rewrite Nat.add_0_l, Nat.leb_refl. intros [= <- _]. apply slice_full. }
  exists f. split; [done|]. apply list_elem_of_In in Hin. split; [congruence|]. split; [done|].
  unfold verify_page_checksum in *. destruct (Nat.ltb_spec (length img) PAGE_SIZE); [done|lia].
Qed.

Lemma decode_entries_length raw n : forall off e, e ∈ decode_entries raw n off -> (length e.2 <= PAGE_SIZE)%nat.
Proof.
  induction n as [|n IH]; intros off e; cbn [decode_entries]; [by intros ?%not_elem_of_nil|].
  intros [->|H]%elem_of_cons; [|by eapply IH]. cbn [snd]. unfold slice. rewrite length_take. lia.
Qed.

Lemma parse_entries_length raw e : e ∈ parse_entries raw -> (length e.2 <= PAGE_SIZE)%nat.
Proof.
  unfold parse_entries. destruct (_ <? _)%nat; [by intros ?%not_elem_of_nil|].
  destruct (_ <? _); [by intros ?%not_elem_of_nil|]. apply decode_entries_length.
Qed.

(** [b] is staged for page [q] in the double-write file. *)
Definition staged_for (w : World) (q : Z) (b : list Z) : Prop :=
  exists dw f, doublewrite = Some dw /\ files w !! dw = Some f /\ (q, b) ∈ parse_entries (cached f) /\
    verify_page_checksum b = true.

Lemma staged_image_for {T} q (s : T) w img sw :
  staged_image doublewrite q (s, w) = (Ok (Some img), sw) -> length img = PAGE_SIZE /\ staged_for w q img.
Proof.
  unfold staged_image. destruct doublewrite as [dw|] eqn:Edw; [|done].
  intros (f & Hf & Hin & Hv & Hl)%valid_image_entry. pose proof (parse_entries_length _ _ Hin) as Hl'. cbn [snd] in Hl'.
  split; [lia|]. exists dw, f. done.
Qed.

(** A direct read: the page as it is when its checksum holds, otherwise the
    staged image, put back in place. *)
Lemma direct_read_spec {T} q (s : T) w r s' w' :
  is_Some (files w !! data_path) -> addressable q ->
  direct_read data_path doublewrite q (s, w) = (r, (s', w')) ->
  s' = s /\ is_Some (files w' !! data_path) /\ (forall x, page_number x -> x <> q -> disk w' x = disk w x) /\
  (forall b, r = Ok b -> disk w' q = b /\
     if verify_checksum_bytes (disk w q) then b = disk w q else staged_for w q b).
Proof using Hdw.
  intros Hf Hq. destruct (checked_offset q Hq) as [E1 E2]. pose proof (addressable_number q Hq) as Hn.
  unfold direct_read. rewrite E1, bind_result, E2. unfold bind at 1.
  destruct (lift _ (s, w)) as [[buf|e] [s1 w1]] eqn:E.
  2: { intros [= <- <- <-]. destruct (only_page_leaves data_path q _ (leaves_read data_path _ _) _ _ _ _ _ Hf E) as (-> & H1 & H2).
       by split_and!. }
  destruct (read_Ok _ _ _ _ _ _ E) as (Hlen & Hb & Hle). rewrite slice_page in Hb by done. fold (disk w q) in Hb.
  destruct (leaves_read data_path _ _ _ _ _ _ _ E) as [-> Ef]. destruct (same_file_disk data_path w w1 Ef) as [Ed _].
  rewrite <- Ef in Hf. destruct (verify_checksum_bytes buf) eqn:Ev.
  { intros [= <- <- <-]. split; [done|]. split; [done|]. split; [intros x _ _; apply Ed|].
    intros b [= <-]. rewrite Ed, <- Hb, Ev. by split. }
  assert (verify_checksum_bytes (disk w q) = false) as Ev' by (by rewrite <- Hb). rewrite Ev'.
  unfold repair, bind at 1. destruct (staged_image doublewrite q (s, w1)) as [[img|e] [s2 w2]] eqn:Ei.
  2: { intros [= <- <- <-]. destruct (leaves_valid_image q _ _ _ _ _ Ei) as [-> Ef2].
       destruct (same_file_disk data_path w1 w2 Ef2) as [Ed2 _]. rewrite Ef2. split; [done|]. split; [done|]. split; [|done]. intros x _ _. by rewrite Ed2, Ed. }
  destruct (leaves_valid_image q _ _ _ _ _ Ei) as [-> Ef2]. destruct (same_file_disk data_path w1 w2 Ef2) as [Ed2 _].
  rewrite <- Ef2 in Hf. assert (forall x, disk w2 x = disk w x) as Ed' by (intros x; by rewrite Ed2, Ed).
  destruct img as [img|].
  2: { intros [= <- <- <-]. split; [done|]. split; [done|]. split; [intros x _ _; apply Ed'|done]. }
  destruct (staged_image_for q s w1 img _ Ei) as [Hli Hst].
  assert (staged_for w q img) as Hst' by (unfold staged_for in *; by rewrite <- (read_keeps_files _ _ _ _ _ _ _ _ E)).
  assert (write_at buf 0 (take (min (length img) PAGE_SIZE) img) = img) as ->.
  { unfold write_at. rewrite Hli, Nat.min_id, take_0, (take_ge img) by lia. cbn [app].
    rewrite drop_ge by (rewrite ?length_take, ?Hlen; lia). by rewrite app_nil_r. }
  rename img into b, Hli into Hlb. intros H.
  assert (only_page data_path q (bind (lift (h_write_at data_path b (page_offset q))) (fun _ =>
    bind (lift (h_sync data_path)) (fun _ => ret b)) : Act T (list Z))) as Ht.
  { apply only_page_bind; [by apply only_page_write|]. intros _. apply only_page_bind; [apply only_page_sync|]. intros _. apply only_page_ret. }
  destruct (Ht _ _ _ _ _ Hf H) as (-> & Hf' & Hx). split; [done|]. split; [done|].
  split; [intros x Hxn Hne; by rewrite Hx, Ed'|]. intros b' ->.
  apply bind_Ok in H as ([] & [s3 w3] & G3 & H). apply lift_Ok in G3 as (w4 & G3 & [= -> ->]).
  apply bind_Ok in H as ([] & [s4 w5] & G4 & H). apply lift_Ok in G4 as (w6 & G4 & [= -> ->]). injection H as <- <-.
  destruct (write_synced (T := T) q b s w2 w4 w6 Hf Hn Hlb G3 G4) as (_ & Hx' & _). split; [by rewrite Hx', decide_True|exact Hst'].
Qed.

(** The pool before and after the file has grown for a page that is not cached. *)
Definition past_end (w : World) (q : Z) : Prop := (length (data_file data_path w) < page_end q)%nat.

Lemma placeholder_only_page {T} q : page_number q -> only_page data_path q (placeholder data_path q : Act T unit).
Proof.
  intros Hq. unfold placeholder. apply only_page_bind; [apply only_page_grow|]. intros [|]; [|apply only_page_ret].
  apply only_page_bind; [apply only_page_write; [done|]|intros _; apply only_page_sync]. apply length_update, length_blank.
Qed.

Lemma pool_inv_synced p w w' q :
  pool_inv data_path p w -> pt_lookup p q = None -> (forall x, page_number x -> x <> q -> disk w' x = disk w x) ->
  durable_file data_path w' = data_file data_path w' -> pool_inv data_path p w'.
Proof.
  intros [Hh Hsh Hm Ho Hf Hc Hd] Hq Hx Hdur. split; [exact Hh|exact Hsh|exact Hm|exact Ho|exact Hf| |].
  - intros x fid H Hs. destruct (Hm _ _ H) as [Hn _]. rewrite Hx; [by apply Hc|done|]. intros ->. congruence.
  - intros x _ _. by rewrite Hdur.
Qed.

Lemma placeholder_Ok p w q p1 w1 :
  pool_inv data_path p w -> is_Some (files w !! data_path) -> page_number q -> (past_end w q -> pt_lookup p q = None) ->
  placeholder data_path q (p, w) = (Ok tt, (p1, w1)) -> pool_inv data_path p w1.
Proof.
  intros Hi Hf Hq Hpast E. destruct (placeholder_only_page q Hq _ _ _ _ _ Hf E) as (-> & Hf1 & Hx).
  unfold placeholder in E. apply bind_Ok in E as (g & [s2 w2] & G & E). pose proof G as G'.
  destruct (grow_to_spec data_path _ _ _ _ _ _ Hf G') as (-> & Hf2 & Hd2).
  unfold grow_to in G. apply bind_Ok in G as (n & [s3 w3] & Gl & G). apply lift_Ok in Gl as (w4 & Gl & [= -> ->]).
  assert (n = length (data_file data_path w) /\ files w4 = files w) as [-> E4].
  { revert Gl. unfold h_len, with_file, data_file. destruct Hf as [f ->]. pose proof (next_outcome_files w) as En.
    destruct (next_outcome w) as [[|k] w5]; [|done]. by intros [= <- <-]. }
  destruct (Nat.ltb_spec (length (data_file data_path w)) (page_end q)) as [Hlt|_].
  - apply bind_Ok in G as (u & [s5 w5] & G1 & G). apply bind_Ok in G as (u2 & [s6 w6] & G2 & G). injection G as <- <- <-.
    apply bind_Ok in E as ([] & [s7 w7] & E1 & E). apply lift_Ok in E1 as (w8 & E1 & [= -> ->]).
    apply lift_Ok in E as (w9 & E & [= ->]).
    destruct (write_synced (T := unit) q _ tt w6 w8 w9 Hf2 Hq (length_update _ (length_blank _ _)) E1 E) as (_ & _ & Hdur).
    by apply (pool_inv_synced _ w w9 q Hi (Hpast Hlt) Hx Hdur).
  - unfold ret in G, E. simplify_eq. apply (inv_world data_path _ w); [by rewrite E4|done].
Qed.

Lemma cacheable_addressable q : cacheable q -> addressable q.
Proof. unfold cacheable, addressable. lia. Qed.

(** Fixing a page, and releasing the guard: nothing is lost. *)
Lemma pooled_read_spec p w q r p' w' :
  pool_inv data_path p w -> ra_ok p -> cacheable q -> pin_room p q ->
  pooled_read data_path doublewrite q (p, w) = (r, (p', w')) ->
  pool_inv data_path p' w' /\ ra_ok p' /\ (forall x, page_number x -> norm (view p' w' x) = norm (view p w x)) /\
  (forall b, r = Ok b -> norm b = norm (view p w q)).
Proof using Hdw.
  intros Hi Hra Hq Hr. unfold pooled_read, bind at 1. destruct (fix_page data_path doublewrite q (p, w)) as [r1 [p1 w1]] eqn:E.
  destruct (fix_page_spec data_path doublewrite Hdw p w q _ p1 w1 Hi Hq Hra Hr E) as (Hi1 & K & Hfix).
  pose proof (k_ra _ _ _ _ _ K Hra) as Hra1. pose proof (k_view _ _ _ _ _ K) as Hv.
  destruct r1 as [fid|e].
  2: { intros [= <- <- <-]. by split_and!. }
  destruct (Hfix fid eq_refl) as [Hm Hpin]. destruct (pi_map _ _ _ Hi1 _ _ Hm) as (Hnum & x & [= <-] & Hlt & _).
  destruct (unfix_step data_path p1 w1 fid Hi1 Hlt Hpin) as (H1 & H2 & H3 & H4 & H5).
  unfold guard_buf, bind, self, ret, modify. cbn [fst snd]. intros [= <- <- <-].
  split; [done|]. split; [by apply H5|]. split.
  - intros x Hx. by rewrite H2, Hv.
  - intros b [= <-]. rewrite <- Hv by done. unfold BufferPool.view. by rewrite Hm.
Qed.

Lemma pooled_write_spec p w q buf r p' w' :
  pool_inv data_path p w -> ra_ok p -> cacheable q -> pin_room p q -> is_Some (files w !! data_path) ->
  (past_end w q -> pt_lookup p q = None) -> length buf = PAGE_SIZE ->
  pooled_write data_path doublewrite q buf (p, w) = (r, (p', w')) ->
  (forall x, page_number x -> x <> q -> norm (view p' w' x) = norm (view p w x)) /\
  (r = Ok tt -> pool_inv data_path p' w' /\ ra_ok p' /\ norm (view p' w' q) = norm buf).
Proof using Hdw.
  intros Hi Hra Hq Hr Hf Hpast Hl. pose proof (addressable_number q (cacheable_addressable q Hq)) as Hnum.
  unfold pooled_write, bind at 1. destruct (placeholder data_path q (p, w)) as [r1 [p1 w1]] eqn:E1.
  destruct (placeholder_only_page q Hnum _ _ _ _ _ Hf E1) as (-> & _ & Hx1).
  assert (forall x, page_number x -> x <> q -> view p w1 x = view p w x) as Hv1.
  { intros x Hx Hne. unfold BufferPool.view. destruct (pt_lookup p x) as [[|]|]; [by apply Hx1|done|by apply Hx1]. }
  destruct r1 as [[]|e].
  2: { intros [= <- <- <-]. split; [|done]. intros x Hx Hne. by rewrite Hv1. }
  pose proof (placeholder_Ok p w q p w1 Hi Hf Hnum Hpast E1) as Hi1.
  unfold bind at 1. destruct (fix_page data_path doublewrite q (p, w1)) as [r2 [p2 w2]] eqn:E2.
  destruct (fix_page_spec data_path doublewrite Hdw p w1 q _ p2 w2 Hi1 Hq Hra Hr E2) as (Hi2 & K & Hfix).
  pose proof (k_ra _ _ _ _ _ K Hra) as Hra2. pose proof (k_view _ _ _ _ _ K) as Hv2.
  destruct r2 as [fid|e].
  2: { intros [= <- <- <-]. split; [|done]. intros x Hx Hne. by rewrite Hv2, Hv1. }
  destruct (Hfix fid eq_refl) as [Hm Hpin]. destruct (pi_map _ _ _ Hi2 _ _ Hm) as (_ & x & [= <-] & Hlt & _).
  unfold bind, modify. cbn [fst snd]. set (b := update_checksum_bytes buf). set (l := from_be _).
  destruct (guard_write_step data_path p2 w2 q fid b l Hi2 Hm (length_update buf Hl)) as (H1 & H2 & H3 & H4 & H5).
  destruct (unfix_step data_path (guard_write p2 fid b l) w2 fid H1) as (U1 & U2 & U3 & U4 & U5);
    [unfold guard_write; by rewrite frame_count_upd|by rewrite H4|].
  intros [= <- <- <-]. split.
  - intros x Hx Hne. rewrite U2, H3, decide_False by done. by rewrite Hv2, Hv1.
  - intros _. split; [done|]. split; [auto|]. rewrite U2, H3, decide_True by done. unfold b. apply norm_update. page_lia.
Qed.

(** What the manager shows of page [q], up to the checksum field. *)
Definition content (d : DiskManager) (w : World) (q : Z) : list Z :=
  norm (match pool d with Some p => view p w q | None => disk w q end).

Definition pool_ok (d : DiskManager) (w : World) : Prop :=
  match pool d with Some p => pool_inv data_path p w /\ ra_ok p | None => True end.

(** The manager can serve page [q]: the data file is there; a pool has room for
    one more pin on [q], and does not cache it when it lies past the end. *)
Definition serves (d : DiskManager) (w : World) (q : Z) : Prop :=
  is_Some (files w !! data_path) /\ pool_ok d w /\
  match pool d with Some p => pin_room p q /\ (past_end w q -> pt_lookup p q = None) | None => True end.

(** C28: page access is transparent on both routes, through the pool and straight
    to the file, whatever I/O errors occur, for a page whose file exists, that
    the pool has room to pin, and that the pool does not cache past the end of
    the file.  A write that succeeds makes the page show the bytes written
    (durably, on the direct route); a read that succeeds returns what the page
    showed - or, on the direct route when the page on disk fails its checksum,
    an image that the double-write file has staged for this very page and whose
    checksum holds - and leaves the page showing what it returned; and no call,
    failed ones included, changes what another page shows. *)
Theorem page_io_transparent (d : DiskManager) (w : World) (q : Z) (buf : list Z) :
  serves d w q -> cacheable q -> length buf = PAGE_SIZE ->
  (forall r d' w', write_page data_path doublewrite q buf (d, w) = (r, (d', w')) ->
     manager d' = manager d /\ (forall x, page_number x -> x <> q -> content d' w' x = content d w x) /\
     (r = Ok tt -> pool_ok d' w' /\ content d' w' q = norm buf /\
        (pool d = None -> page_of (durable_file data_path w') q = update_checksum_bytes buf))) /\
  (forall r d' w', read_page data_path doublewrite q (d, w) = (r, (d', w')) ->
     manager d' = manager d /\ (forall x, page_number x -> x <> q -> content d' w' x = content d w x) /\
     (forall b, r = Ok b -> pool_ok d' w' /\ content d' w' q = norm b /\
        if bool_decide (is_Some (pool d)) || verify_checksum_bytes (disk w q)
        then norm b = content d w q else staged_for w q b)).
Proof using Hdw.
  destruct d as [m [p|]]; unfold serves, pool_ok, content; cbn [pool manager].
  - intros (Hf & [Hi Hra] & Hr & Hpast) Hq Hl. split; intros r d' w'.
    + unfold write_page, bind, self, on_pool. cbn [fst snd pool].
      destruct (pooled_write data_path doublewrite q buf (p, w)) as [r1 [p1 w1]] eqn:E. intros [= <- <- <-]. cbn [set_pool manager pool].
      destruct (pooled_write_spec p w q buf r1 p1 w1 Hi Hra Hq Hr Hf Hpast Hl E) as [Hx Hok].
      split; [done|]. split; [done|]. intros Er. by destruct (Hok Er) as (? & ? & ?).
    + unfold read_page, bind, self, on_pool. cbn [fst snd pool].
      destruct (pooled_read data_path doublewrite q (p, w)) as [r1 [p1 w1]] eqn:E. intros [= <- <- <-]. cbn [set_pool manager pool].
      destruct (pooled_read_spec p w q r1 p1 w1 Hi Hra Hq Hr E) as (Hi1 & Hra1 & Hx & Hok).
      split; [done|]. split; [auto|]. intros b Er. specialize (Hok b Er). split; [done|]. split; [|exact Hok].
      rewrite Hx; [done|]. apply addressable_number. by apply cacheable_addressable.
  - intros (Hf & _ & _) Hq%cacheable_addressable Hl. split; intros r d' w' E;
      unfold write_page, read_page, bind, self in E; cbn [fst snd pool] in E.
    + destruct (direct_write_only_page q buf Hq Hl _ _ _ _ _ Hf E) as (-> & _ & Hx). cbn [manager pool].
      split; [done|]. split; [intros x Hxn Hne; by rewrite Hx|]. intros ->.
      destruct (direct_write_Ok q buf _ _ _ _ Hf Hq Hl E) as [-> Hd]. split; [done|]. split; [|done].
      apply norm_update. page_lia.
    + destruct (direct_read_spec q _ _ _ _ _ Hf Hq E) as (-> & _ & Hx & Hok). cbn [manager pool].
      split; [done|]. split; [intros x Hxn Hne; by rewrite Hx|]. intros b ->. destruct (Hok b eq_refl) as [Hb Hv].
      split; [done|]. split; [by rewrite Hb|]. rewrite bool_decide_false by (by apply is_Some_None). cbn [orb].
      destruct (verify_checksum_bytes (disk w q)); [by rewrite Hv|exact Hv].
Qed.
End Routes.

(** ** Reconciliation marks the pages with records *)

Section Reconcile.
Context `{CS : Checksums} (data_path : Path).

#[local] Notation disk := (disk data_path).

(** Page [q] of the data file holds records. *)
Definition record_page (w : World) (q : Z) : Prop :=
  (page_offset q + PAGE_SIZE <= length (data_file data_path w))%nat /\
  verify_checksum_bytes (disk w q) = true /\ (0 < slot_count (disk w q))%nat.

#[global] Instance record_page_dec w q : Decision (record_page w q).
Proof. unfold record_page. apply _. Defined.

Lemma record_page_same w w' q : files w' !! data_path = files w !! data_path -> record_page w' q <-> record_page w q.
Proof. intros E. unfold record_page, BufferPool.disk, data_file. by rewrite E. Qed.

(** The bitmaps [bs'] are [bs] with the data pages of [F] marked, on as many
    new bitmap pages as that takes. *)
Record marked (F : gset Z) (bs bs' : list BitmapPage) : Prop := {
  mk_ok : bs_ok bs';
  mk_length : (length bs <= length bs')%nat;
  mk_data : forall id, 0 <= id -> reserved id = false -> mbit bs' id = mbit bs id || bool_decide (id ∈ F);
  mk_keep : forall id, 0 <= id -> mbit bs id = true -> mbit bs' id = true
}.

Lemma marked_nil bs : bs_ok bs -> marked ∅ bs bs.
Proof. intros H. split; try done. intros id _ _. rewrite bool_decide_false by set_solver. by rewrite orb_false_r. Qed.

Lemma marked_trans F1 F2 b0 b1 b2 : marked F1 b0 b1 -> marked F2 b1 b2 -> marked (F1 ∪ F2) b0 b2.
Proof.
  intros [H1 L1 D1 K1] [H2 L2 D2 K2]. split; [done|lia| |auto].
  intros id Hid Hr. rewrite D2, D1 by done. rewrite <- orb_assoc. f_equal.
  rewrite (bool_decide_ext (id ∈ F1 ∪ F2) (id ∈ F1 \/ id ∈ F2)) by apply elem_of_union. by rewrite bool_decide_or.
Qed.

Lemma mark_page_spec m pid : bs_ok (bitmaps m) -> 0 <= pid < 2 ^ 51 -> reserved pid = false ->
  exists bs', mark_page m pid = Some (with_bitmaps m bs') /\ marked {[pid]} (bitmaps m) bs' /\ covered bs' pid.
Proof.
  intros Hbs Hp Hr. pose proof (region_in pid ltac:(lia)) as Hreg.
  destruct (ensure_loop_spec (S (region pid) - length (bitmaps m)) (bitmaps m) (region pid)) as (bs1 & E1 & Hbs1 & Hl1 & Hm1);
    [done|unfold in_region, PAGES_PER_BITMAP in *; lia|lia|].
  destruct (bitmaps_allocate_spec bs1 pid) as (bs2 & E2 & Hbs2 & Hl2 & Hm2);
    [done|apply covered_region; lia|].
  exists bs2. unfold mark_page, ensure_bitmap. rewrite E1, !Some_bind. cbn [with_bitmaps bitmaps]. rewrite E2, Some_bind.
  split; [done|]. split; [|apply covered_region; lia].
  assert (forall id, 0 <= id -> mbit (bitmaps m) id = true -> mbit bs1 id = true) as Hkeep.
  { intros id Hid Hb. rewrite Hm1 by done. case_decide as Hc; [done|]. by rewrite mbit_uncovered in Hb. }
  split; [done|lia| |].
  - intros id Hid Hri. rewrite Hm2 by done. case_decide as E.
    + subst. by rewrite bool_decide_true, orb_true_r by set_solver.
    + rewrite bool_decide_false, orb_false_r by set_solver. rewrite Hm1 by done. case_decide as Hc; [done|].
      rewrite (mbit_uncovered (bitmaps m)) by done. by case_decide.
  - intros id Hid Hb. rewrite Hm2 by done. case_decide; [done|auto].
Qed.

(** The scan of [n] pages from [pid] marks the pages of [F]. *)
Record scanned_pages (pid : Z) (n : nat) (w : World) (mx mx' : Z) (F : gset Z) : Prop := {
  sp_sound : forall id, id ∈ F -> pid <= id < pid + Z.of_nat n /\ reserved id = false /\ record_page w id /\ id <= mx';
  sp_max : mx' = mx \/ mx <= mx' /\ mx' ∈ F;
  sp_all : script w = [] -> forall id, pid <= id < pid + Z.of_nat n -> reserved id = false -> record_page w id -> id ∈ F
}.

Lemma reconcile_loop_spec n : forall pid mx m w r m' w',
  bs_ok (bitmaps m) -> FIRST_DATA_PAGE_ID <= pid -> pid + Z.of_nat n <= 2 ^ 51 ->
  reconcile_loop data_path n pid mx (m, w) = (r, (m', w')) ->
  files w' !! data_path = files w !! data_path /\ (script w = [] -> script w' = []) /\
  exists F mx' bs', r = Ok (Some mx') /\ m' = with_bitmaps m bs' /\ marked F (bitmaps m) bs' /\ scanned_pages pid n w mx mx' F.
Proof.
  induction n as [|n IH]; intros pid mx m w r m' w' Hbs Hp Hn.
  { intros [= <- <- <-]. split; [done|]. split; [done|]. exists ∅, mx, (bitmaps m). split; [done|].
    split; [by destruct m|]. split; [by apply marked_nil|]. split; [set_solver|by left|lia]. }
  assert (forall w1, files w1 !! data_path = files w !! data_path -> (script w = [] -> script w1 = []) ->
    (script w = [] -> reserved pid = false -> ~ record_page w pid) ->
    reconcile_loop data_path n (pid + 1) mx (m, w1) = (r, (m', w')) ->
    files w' !! data_path = files w !! data_path /\ (script w = [] -> script w' = []) /\
    exists F mx' bs', r = Ok (Some mx') /\ m' = with_bitmaps m bs' /\ marked F (bitmaps m) bs' /\ scanned_pages pid (S n) w mx mx' F) as Hskip.
  { intros w1 Ef Hs Hno E. destruct (IH (pid + 1) mx m w1 r m' w' Hbs ltac:(lia) ltac:(lia) E) as (Ef1 & Hs1 & F & mx' & bs' & -> & -> & Hm & [S1 S2 S3]).
    split; [congruence|]. split; [auto|]. exists F, mx', bs'. split; [done|]. split; [done|]. split; [done|]. split; [|done|].
    - intros id Hid. destruct (S1 id Hid) as (H1 & H2 & H3 & H4). rewrite (record_page_same w w1) in H3 by done.
      split; [lia|]. split; [exact H2|]. split; [exact H3|lia].
    - intros Hw id Hid Hr Hrec. destruct (decide (id = pid)) as [->|]; [by destruct (Hno Hw Hr)|].
      apply S3; [auto|lia|done|]. by apply (record_page_same w). }
  cbn [reconcile_loop]. destruct (is_bitmap_page pid) eqn:Eb.
  { intros E. apply (Hskip w); [done|done| |exact E]. intros _ Hr. unfold reserved in Hr. by rewrite Eb, orb_true_r in Hr. }
  unfold bind at 1, attempt. destruct (lift _ (m, w)) as [r1 [s1 w1]] eqn:E1.
  destruct (leaves_read data_path _ _ _ _ _ _ _ E1) as [-> Ef1].
  assert (page_number pid) as Hnum by (unfold page_number, FIRST_DATA_PAGE_ID in *; lia).
  assert (script w = [] -> script w1 = []) as Hs1.
  { revert E1. unfold lift, h_read_at, with_file, next_outcome. cbn [fst snd]. intros E1 Hs. rewrite Hs in E1.
    destruct (files w !! data_path); [|by injection E1 as _ <-]. destruct (_ <=? _)%nat; by injection E1 as _ <-. }
  assert (script w = [] -> record_page w pid -> r1 = Ok (disk w pid)) as Hread.
  { intros Hs (Hle & _). revert E1. unfold lift. cbn [fst snd]. unfold BufferPool.disk, data_file in *.
    destruct (files w !! data_path) as [f|] eqn:Ef; [|simpl in Hle; pose proof PAGE_SIZE_eq; lia].
    cbn [fmap option_fmap option_map default] in *. unfold from_option, id in *.
    rewrite (quiet_read data_path w f Hs Ef) by lia. rewrite slice_page by done. by intros [= <- _]. }
  destruct r1 as [buf|e].
  2: { intros E. apply (Hskip w1 Ef1 Hs1); [|exact E]. intros Hs _ Hrec. by specialize (Hread Hs Hrec). }
  destruct (read_Ok data_path _ _ _ _ _ _ E1) as (_ & Hb & Hle). rewrite slice_page in Hb by done. fold (disk w pid) in Hb. subst buf.
  destruct (verify_checksum_bytes (disk w pid)) eqn:Ev; cbn [negb].
  2: { intros E. apply (Hskip w1 Ef1 Hs1); [|exact E]. intros _ _ (_ & Hv & _). congruence. }
  destruct (Nat.ltb_spec 0 (slot_count (disk w pid))) as [Hc|Hc].
  2: { intros E. apply (Hskip w1 Ef1 Hs1); [|exact E]. intros _ _ (_ & _ & Hv). lia. }
  assert (reserved pid = false) as Hres.
  { unfold reserved. rewrite Eb, orb_false_r. by apply Z.ltb_ge. }
  unfold bind at 1, self. cbn [fst snd].
  destruct (mark_page_spec m pid Hbs ltac:(unfold FIRST_DATA_PAGE_ID in *; lia) Hres) as (bs1 & -> & Hm1 & Hcov).
  unfold bind, put. cbn [fst snd]. intros E.
  destruct (IH (pid + 1) (Z.max mx pid) (with_bitmaps m bs1) w1 r m' w' (mk_ok _ _ _ Hm1) ltac:(lia) ltac:(lia) E)
    as (Ef2 & Hs2 & F & mx' & bs' & -> & -> & Hm2 & [S1 S2 S3]). cbn [with_bitmaps bitmaps] in Hm2.
  split; [congruence|]. split; [auto|]. exists ({[pid]} ∪ F), mx', bs'. split; [done|]. split; [done|].
  split; [by eapply marked_trans|]. assert (Z.max mx pid <= mx') as Hmx by (destruct S2 as [->|[? _]]; lia). split.
  - intros id [->%elem_of_singleton|Hid]%elem_of_union; [split; [lia|]; split; [done|]; split; [by split|lia]|].
    destruct (S1 id Hid) as (H1 & H2 & H3 & H4). rewrite (record_page_same w w1) in H3 by done.
      split; [lia|]. split; [exact H2|]. split; [exact H3|lia].
  - destruct S2 as [->|[? Hin]]; [|right; split; [lia|set_solver]].
    destruct (Z.max_spec mx pid) as [[? ->]|[? ->]]; [right; split; [lia|set_solver]|by left].
  - intros Hw id Hid Hr Hrec. destruct (decide (id = pid)) as [->|]; [set_solver|]. apply elem_of_union. right.
    apply S3; [auto|lia|done|]. by apply (record_page_same w).
Qed.

Lemma record_page_bound w id : reserved id = false -> page_number id -> record_page w id ->
  FIRST_DATA_PAGE_ID <= id < Z.of_nat (length (data_file data_path w)) / 8192.
Proof.
  intros Hr%not_reserved_ge Hn (Hle & _). split; [done|]. pose proof (page_offset_eq id Hn). pose proof PAGE_SIZE_eq.
  apply Z.le_succ_l, Z.div_le_lower_bound; lia.
Qed.

Lemma scanned_pages_same pid n w w1 mx mx' F :
  files w1 !! data_path = files w !! data_path -> (script w = [] -> script w1 = []) ->
  scanned_pages pid n w1 mx mx' F -> scanned_pages pid n w mx mx' F.
Proof.
  intros Ef Hs [S1 S2 S3]. split; [|done|].
  - intros id Hid. destruct (S1 id Hid) as (H1 & H2 & H3 & H4). by rewrite (record_page_same w w1) in H3.
  - intros Hw id Hid Hr Hrec. apply S3; [by apply Hs|exact Hid|exact Hr|]. by apply (record_page_same w).
Qed.

(** The two ends of a call: it stops at opening the file, or scans all of it. *)
Lemma reconcile_cases (m m' : PageManager) (w w' : World) (r : result (option unit) IoError) :
  bs_ok (bitmaps m) -> Z.of_nat (length (data_file data_path w)) <= 2 ^ 64 ->
  reconcile_from_disk data_path (m, w) = (r, (m', w')) ->
  let high_water := Z.of_nat (length (data_file data_path w)) / 8192 in
  files w' !! data_path = files w !! data_path /\ (script w = [] -> script w' = []) /\
  ((exists e, r = Err e /\ m' = m /\ ~ (script w = [] /\ is_Some (files w !! data_path))) \/
  (exists F mx bs', r = Ok (Some tt) /\ m' = with_sb (with_bitmaps m bs') (raise_counters (superblock m) high_water mx) /\
     marked F (bitmaps m) bs' /\
     scanned_pages FIRST_DATA_PAGE_ID (Z.to_nat (high_water - FIRST_DATA_PAGE_ID)) w (Z.max 0 (next_free_page_id (superblock m) - 1)) mx F)).
Proof.
  intros Hbs Hlen E high_water. unfold reconcile_from_disk in E.
  unfold bind at 1 in E. destruct (lift _ (m, w)) as [[[]|e] [m1 w1]] eqn:E1 in E;
    destruct (leaves_open data_path _ _ _ _ _ E1) as [-> Ef1];
    assert (script w = [] -> script w1 = []) as Hs1 by (intros Hs; revert E1; unfold lift, fs_open, next_outcome;
      cbn [fst snd]; rewrite Hs; destruct (files w !! data_path); intros ?; by simplify_eq).
  2: { injection E as <- <- <-. split; [done|]. split; [done|]. left. exists e. split_and!; [done|done|]. intros [Hs [f Hf]]. unfold lift in E1. cbn [fst snd] in E1.
       by rewrite (quiet_open data_path w f Hs Hf) in E1. }
  unfold bind at 1 in E. destruct (lift (h_len data_path) (m, w1)) as [[n|e] [m2 w2]] eqn:E2.
  2: { assert (script w1 = [] -> is_Some (files w1 !! data_path) -> False) as Hno.
       { intros Hs [f Hf]. unfold lift in E2. cbn [fst snd] in E2. by rewrite (quiet_len data_path w1 f Hs Hf) in E2. }
       destruct (leaves_h_len data_path _ _ _ _ _ E2) as (-> & Ef2 & Hs2).
       injection E as <- <- <-. split; [congruence|]. split; [auto|]. left. exists e. split_and!; [done|done|]. intros [Hs Hf]. apply Hno; [auto|by rewrite Ef1]. }
  apply lift_Ok in E2 as (w3 & E2 & [= -> ->]).
  assert (n = length (data_file data_path w) /\ files w3 !! data_path = files w !! data_path /\ (script w = [] -> script w3 = [])) as (-> & Ef3 & Hs3).
  { revert E2. unfold h_len, with_file, data_file. rewrite Ef1. destruct (files w !! data_path) as [f|]; [|done].
    pose proof (next_outcome_files w1) as En. destruct (next_outcome w1) as [[|k] w4] eqn:Eo; [|done]. intros [= <- <-]. cbn [snd] in En.
    split; [done|]. split; [congruence|]. intros Hs. rewrite next_outcome_quiet in Eo by auto. injection Eo as <-. auto. }
  unfold bind at 1, self in E. cbn [fst snd] in E. fold high_water in E.
  unfold bind at 1 in E. destruct (reconcile_loop _ _ _ _ (m, w3)) as [r4 [m4 w4]] eqn:E4.
  apply reconcile_loop_spec in E4 as (Ef4 & Hs4 & F & mx & bs' & -> & -> & Hm & Hsc); [|done|done|].
  - unfold bind, modify, ret in E. cbn [fst snd] in E. injection E as <- <- <-. split; [congruence|]. split; [auto|]. right. exists F, mx, bs'.
    split; [done|]. split; [done|]. split; [done|]. by apply (scanned_pages_same _ _ w w3).
  - unfold FIRST_DATA_PAGE_ID. assert (high_water <= 2 ^ 51); [|lia]. unfold high_water. apply Z.div_le_upper_bound; lia.
Qed.

(** C29: reconciling the allocator with the disk.  Whatever reads fail, it ends
    without panic, clears no bit, marks only data pages that hold records, and
    never lowers [next_free_page_id]; when it succeeds that counter is above
    every marked page.  Without read errors it does succeed, all data pages
    that hold records are marked, and the list of allocated pages that the
    index rebuild scans contains them. *)
Theorem reconcile_covers_disk (m m' : PageManager) (w w' : World) (r : result (option unit) IoError) :
  bs_ok (bitmaps m) -> 0 <= next_free_page_id (superblock m) < 2 ^ 51 -> Z.of_nat (length (data_file data_path w)) <= 2 ^ 64 ->
  reconcile_from_disk data_path (m, w) = (r, (m', w')) ->
  r <> Ok None /\ files w' !! data_path = files w !! data_path /\ free_cache m' = free_cache m /\
  next_free_page_id (superblock m) <= next_free_page_id (superblock m') /\
  exists F : gset Z, marked F (bitmaps m) (bitmaps m') /\
    (forall id, id ∈ F -> reserved id = false /\ record_page w id /\ (is_ok r = true -> id < next_free_page_id (superblock m'))) /\
    (script w = [] -> is_Some (files w !! data_path) ->
       r = Ok (Some tt) /\ (forall id, page_number id -> reserved id = false -> record_page w id -> id ∈ F) /\
       exists ids, allocated_pages m' = Some ids /\ forall id, id ∈ F -> id ∈ ids).
Proof.
  intros Hbs Hnext Hlen E.
  destruct (reconcile_cases m m' w w' r Hbs Hlen E) as (Ew & _ & [(e & -> & -> & Hno)|(F & mx & bs' & -> & -> & Hm & [S1 S2 S3])]).
  { split; [done|]. split; [done|]. split; [done|]. split; [lia|]. exists ∅. split; [by apply marked_nil|]. split; [set_solver|].
    intros Hs Hf. by destruct Hno. }
  cbn [with_sb with_bitmaps raise_counters set_sb_counts superblock next_free_page_id free_cache bitmaps].
  split; [done|]. split; [done|]. split; [done|]. split; [lia|]. exists F. split; [done|].
  assert (forall id, id ∈ F -> mx < 2 ^ 51) as Hmx.
  { intros id Hid. destruct S2 as [->|[_ Hin]]; [lia|]. destruct (S1 _ Hin) as (H & _). revert H. clear -Hlen.
    assert (Z.of_nat (length (data_file data_path w)) / 8192 <= 2 ^ 51) by (apply Z.div_le_upper_bound; lia).
    unfold FIRST_DATA_PAGE_ID. lia. }
  split.
  - intros id Hid. destruct (S1 id Hid) as (_ & H2 & H3 & H4). split; [done|]. split; [done|]. intros _.
    specialize (Hmx id Hid). unfold U64_MAX. lia.
  - intros Hs Hf. split; [done|]. split.
    + intros id Hn Hr Hrec. pose proof (record_page_bound w id Hr Hn Hrec). apply S3; [done|lia|done|done].
    + destruct (allocated_pages_spec (with_sb (with_bitmaps m bs') (superblock m)) (mk_ok _ _ _ Hm)) as (ids & Ei & Hids).
      exists ids. split; [exact Ei|]. intros id Hid. destruct (S1 id Hid) as (_ & Hr & _). apply Hids.
      cbn [with_sb with_bitmaps bitmaps]. pose proof (not_reserved_ge id Hr) as Hge. unfold FIRST_DATA_PAGE_ID in Hge.
      assert (mbit bs' id = true) as Hb by (rewrite (mk_data _ _ _ Hm) by (done || lia); by rewrite bool_decide_true, orb_true_r by done).
      split; [|done]. destruct (decide (covered bs' id)) as [|Hc]; [done|]. by rewrite mbit_uncovered in Hb by (done || lia).
Qed.
End Reconcile.

(** ** Concrete runs *)

Module PageIoDemo.
#[local] Existing Instance additive_checksums.

Definition db_path : Path := (9, 0).
Definition dw_path : Path := (9, 1).
Definition blank : list Z := replicate (3 * PAGE_SIZE) 0.
Definition fresh_db : World := mkWorld {[db_path := mkFile blank blank]} [].
Definition new_manager : PageManager := default (mkPm (sb_new 8192) [] (cache_new 0)) (pm_init 8192).

(** A page with one record. *)
Definition leaf : list Z := match insert (init 3 PtSlottedData) [1; 2; 3] with Some (_, p) => p | None => [] end.

Definition pooled : DiskManager := mkDm new_manager (Some (pool_new 2)).

Definition written : result unit IoError * (DiskManager * World) := write_page db_path (Some dw_path) 3 leaf (pooled, fresh_db).

Lemma pooled_serves : serves db_path pooled fresh_db 3.
Proof.
  split; [|split].
  - unfold fresh_db. cbn [files]. rewrite lookup_singleton_eq. eauto.
  - split; [|split; cbn; lia]. apply pool_new_inv; [lia|]. intros q _. unfold durable_file, disk, data_file, fresh_db. cbn [files].
    by rewrite lookup_singleton_eq.
  - split; [intros fid; by rewrite pt_lookup_new|]. intros _. apply pt_lookup_new.
Qed.

(** A page past the end of the file, written through the pool. *)
Lemma page_io_transparent_witness :
  exists d w, written = (Ok tt, (d, w)) /\ content db_path d w 3 = norm leaf /\ content db_path d w 5 = content db_path pooled fresh_db 5.
Proof.
  destruct (page_io_transparent db_path (Some dw_path) ltac:(discriminate) pooled fresh_db 3 leaf pooled_serves ltac:(split; lia)
    ltac:(vm_compute; reflexivity)) as [Hw _].
  assert (written.1 = Ok tt) as E by (vm_compute; reflexivity). unfold written in *.
  destruct (write_page _ _ _ _ _) as [r [d w]] eqn:Ew. cbn [fst] in E. subst r. exists d, w.
  destruct (Hw _ _ _ eq_refl) as (_ & Hx & Hok). destruct (Hok eq_refl) as (_ & Hc & _). split; [done|]. split; [exact Hc|].
  apply Hx; [split; lia|lia].
Defined.

(** A database that crashed before its allocation state was synced: page 3 holds
    a record, the superblock and the bitmap are those of a new database. *)
Definition crashed : World :=
  let bytes := blank ++ update_checksum_bytes leaf in mkWorld {[db_path := mkFile bytes bytes]} [].
Definition reopened : option PageManager := open_multi (superblock new_manager) (map bm_page (bitmaps new_manager)).
Definition reconciled : option PageManager :=
  m ← reopened; Some (reconcile_from_disk db_path (m, crashed)).2.1.

Lemma new_manager_ok : bs_ok (bitmaps new_manager).
Proof. unfold new_manager. destruct (pm_init_inv 8192) as (m & -> & Hi). exact (ai_bs _ _ Hi). Qed.

Lemma crashed_leaf : record_page db_path crashed 3.
Proof. apply (bool_decide_unpack _). vm_compute. exact I. Qed.

Lemma crashed_file : is_Some (files crashed !! db_path).
Proof. unfold crashed. cbn [files]. rewrite lookup_singleton_eq. eauto. Qed.

Lemma reconcile_covers_disk_witness :
  exists m' w', reconcile_from_disk db_path (new_manager, crashed) = (Ok (Some tt), (m', w')) /\
    mbit (bitmaps m') 3 = true /\ 3 < next_free_page_id (superblock m').
Proof.
  destruct (reconcile_from_disk db_path (new_manager, crashed)) as [r [m' w']] eqn:E.
  destruct (reconcile_covers_disk db_path new_manager m' crashed w' r) as (_ & _ & _ & _ & F & Hm & Hs & Hall).
  - apply new_manager_ok.
  - split; [vm_compute; discriminate|vm_compute; reflexivity].
  - vm_compute. discriminate.
  - exact E.
  - destruct Hall as (-> & HF & _); [reflexivity|apply crashed_file|].
    assert (3 ∈ F) as H3 by (apply HF; [split; lia|reflexivity|apply crashed_leaf]).
    exists m', w'. split; [done|]. split; [|by apply (Hs 3 H3)].
    rewrite (mk_data _ _ _ Hm) by (lia || reflexivity). by rewrite bool_decide_true, orb_true_r by done.
Defined.

(** On opening, the free-list cache is rebuilt from the stale bitmap before the
    reconciliation, which does not take the pages it marks out of the cache: the
    64th allocation after the crash hands out page 3, whose record is live. *)
Lemma reconciled_page_allocated_again :
  exists m ids, reconciled = Some m /\ mbit (bitmaps m) 3 = true /\ next_free_page_id (superblock m) = 4 /\
    allocate_many m 64 = Some ids /\ ids !! 63%nat = Some 3.
Proof.
  assert (match reconciled with
          | Some m => mbit (bitmaps m) 3 && (next_free_page_id (superblock m) =? 4) &&
              match allocate_many m 64 with Some ids => bool_decide (ids !! 63%nat = Some 3) | None => false end
          | None => false end = true) as H by (vm_compute; reflexivity).
  destruct reconciled as [m|]; [|done]. destruct (allocate_many m 64) as [ids|] eqn:E; [|by rewrite andb_false_r in H].
  apply andb_true_iff in H as [[H1 H2%Z.eqb_eq]%andb_true_iff H3%bool_decide_eq_true]. exists m, ids. by split_and!.
Qed.
End PageIoDemo.
