(* ===== verification/GraphDisk.v ===== *)
(** * The graph on its files

    The page store and the log of the graph engine instantiated by the page
    manager over its data file (on the direct route) and by the log writer over
    its segment: the interfaces the engine was verified against hold of them, so
    that histories of graph operations run on files as on the abstract graph,
    and what they wrote survives a power loss and is found again on opening. *)

From stdpp Require Import prelude list gmap sets infinite.
From Stdlib Require Import ZArith Lia.
From S2P Require Import Prelude Bytes Checksum Io SlottedPage PageFile Aries DoubleWrite Superblock BufferPool PageAlloc.
From S2P Require Import LockTable WalRecord WalWriter WalLog TxManager BTree HeapPage GraphRecord Adjacency GraphHeap GraphHeapSpec.
From S2P Require Import GraphWire GraphEngine GraphEngineSpec GraphHeapRep GraphApi GraphRefine GraphHistory GraphRestart PageIo.

(** ** The log writer never fails on a quiet disk *)

Section Log.
Context `{CS : Checksums}.

(** No fault ahead, and the open segment is there. *)
Definition log_ready (sw : WalWriter * World) : Prop :=
  script sw.2 = [] /\ is_Some (files sw.2 !! segment_handle sw.1).

Lemma log_room r : (length (WalRecord.payload r) <= LOG_ROOM)%nat -> Z.of_nat (WalRecord.on_disk_size r) <= WalWriter.BUFFER_SIZE.
Proof.
  unfold WalRecord.on_disk_size, LOG_ROOM, WalWriter.BUFFER_SIZE. pose proof PAGE_SIZE_eq. unfold WAL_RECORD_MIN_SIZE. lia.
Qed.

Lemma writer_steady sw : log_ready sw -> wal_steady sw.
Proof.
  destruct sw as [s w]. intros [Hs Hf]. cbn [fst snd] in *.
  set (p := base.fresh (dom (files w) ∪ {[segment_handle s]}) : Path).
  assert (p ∉ dom (files w) ∪ {[segment_handle s]}) as Hp by apply is_fresh.
  assert (steady p w) as Hst.
  { split; [done|]. exists 0%nat. unfold data_file. assert (files w !! p = None) as -> by (apply not_elem_of_dom; set_solver). done. }
  assert (wal_ready p s w) as Hr by (split; [set_solver|done]). clearbody p. clear Hp Hs Hf.
  intros n. revert s w Hst Hr. induction n as [|n IH]; intros s w Hst Hr; [done|]. split.
  - intros r Hl. destruct (append_quiet p s w r Hst Hr (log_room r Hl)) as (l & s' & w' & E & Hst' & Hr' & _).
    exists l, (s', w'). split; [exact E|by apply IH].
  - destruct (flush_quiet p s w Hst Hr) as (s' & w' & E & _ & Hst' & Hr' & _). exists (s', w'). split; [exact E|by apply IH].
Qed.
End Log.

(** ** Page access on a quiet disk *)

Section Quiet.
Context `{CS : Checksums} (data_path : Path) (doublewrite : option Path).
Context (Hdw : match doublewrite with Some d => d <> data_path | None => True end).

Lemma checksum_norm b : compute_checksum_bytes b = crc32c (norm b).
Proof. reflexivity. Qed.

Lemma verify_update b : length b = PAGE_SIZE -> verify_checksum_bytes (update_checksum_bytes b) = true.
Proof.
  intros Hl. unfold verify_checksum_bytes. rewrite (length_update b Hl), Nat.eqb_refl. cbn [negb].
  rewrite checksum_norm, norm_update by page_lia. apply Z.eqb_eq.
  assert (wrote b 28 (to_le 4 (compute_checksum_bytes b)) (update_checksum_bytes b)) as W
    by (apply wrote_write_at; rewrite length_to_le; page_lia).
  pose proof (wr_here _ _ _ _ W) as Hh. rewrite length_to_le in Hh. change (28 + 4)%nat with 32%nat in Hh. rewrite Hh.
  rewrite from_to_le_id; [apply checksum_norm|]. apply crc32c_range.
Qed.

(** A page with records lies inside a file of whole pages. *)
Lemma record_inside f q : whole_pages f -> page_number q -> (0 < slot_count (page_of f q))%nat ->
  (page_offset q + PAGE_SIZE <= length f)%nat.
Proof.
  intros [n Hn] Hq Hc. destruct (decide (page_offset q + PAGE_SIZE <= length f)%nat) as [|Hout]; [done|]. exfalso.
  pose proof (page_offset_eq q Hq). pose proof PAGE_SIZE_eq. unfold page_number in Hq.
  assert (length f <= page_offset q)%nat as Hle by nia.
  assert (page_of f q = replicate PAGE_SIZE 0) as E.
  { unfold page_of. rewrite drop_ge by done. cbn [app]. apply take_ge. by rewrite length_replicate. }
  rewrite E in Hc. vm_compute in Hc. lia.
Qed.

(** The data file: in place, made of whole pages, and durable. *)
Record disk_ready (w : World) (f : File) : Prop := {
  dr_script : script w = [];
  dr_file : files w !! data_path = Some f;
  dr_whole : whole_pages (cached f);
  dr_durable : durable f = cached f
}.

Lemma grow_to_quiet {T} (s : T) w f q : disk_ready w f -> addressable q ->
  exists w' f' b, grow_to data_path (page_offset q + PAGE_SIZE) (s, w) = (Ok b, (s, w')) /\ disk_ready w' f' /\
    length (cached f') = max (length (cached f)) (page_offset q + PAGE_SIZE) /\
    forall x, page_of (cached f') x = page_of (cached f) x.
Proof.
  intros [Hs Hf Hw Hd] Hq. unfold grow_to, bind, lift. cbn [fst snd]. rewrite (quiet_len data_path w f Hs Hf). cbn [fst snd].
  destruct (Nat.ltb_spec (length (cached f)) (page_offset q + PAGE_SIZE)) as [Hlt|Hge].
  2: { exists w, f, false. split; [done|]. split; [by split|]. split; [lia|done]. }
  rewrite (quiet_set_len data_path w f Hs Hf). cbn [fst snd].
  erewrite (quiet_sync data_path) by (done || apply set_file_files). cbn [fst snd cached durable]. rewrite set_file_twice.
  set (n := (page_offset q + PAGE_SIZE)%nat) in *. set (l := take n _).
  assert (length l = n) as Hl by (unfold l; rewrite length_take, length_app, length_replicate; lia).
  eexists _, (mkFile l l), true. split; [reflexivity|]. split; [split; [done|apply set_file_files| |done]|].
  - pose proof (page_offset_eq q (addressable_number q Hq)). pose proof PAGE_SIZE_eq. unfold addressable in Hq.
    exists (Z.to_nat q + 1)%nat. cbn [cached]. rewrite Hl. unfold n. lia.
  - cbn [cached]. split; [lia|]. intros x. apply page_of_grow. lia.
Qed.

Lemma direct_read_quiet {T} (s : T) w f q : disk_ready w f -> addressable q ->
  (page_offset q + PAGE_SIZE <= length (cached f))%nat -> verify_checksum_bytes (page_of (cached f) q) = true ->
  direct_read data_path doublewrite q (s, w) = (Ok (page_of (cached f) q), (s, w)).
Proof.
  intros [Hs Hf _ _] Hq Hle Hv. destruct (checked_offset q Hq) as [E1 E2]. unfold direct_read. rewrite E1, bind_result, E2.
  unfold bind, lift. cbn [fst snd]. rewrite (quiet_read data_path w f Hs Hf) by done. cbn [fst snd].
  rewrite slice_page by (done || by apply addressable_number). by rewrite Hv.
Qed.

Lemma clear_quiet_other {T} (s : T) d w : script w = [] -> d <> data_path ->
  exists w', clear d (s, w) = (Ok tt, (s, w')) /\ script w' = [] /\ files w' !! data_path = files w !! data_path.
Proof.
  intros Hs Hne. destruct (clear_quiet s d w Hs) as (w' & E & Hs'). exists w'. split; [done|]. split; [done|].
  by apply (leaves_clear data_path d Hne _ _ _ _ _ E).
Qed.

Lemma direct_write_quiet {T} (s : T) w f q buf : disk_ready w f -> addressable q -> length buf = PAGE_SIZE ->
  exists w' f', direct_write data_path doublewrite q buf (s, w) = (Ok tt, (s, w')) /\ disk_ready w' f' /\
    length (cached f') = max (length (cached f)) (page_offset q + PAGE_SIZE) /\
    forall x, page_number x -> page_of (cached f') x = if decide (x = q) then update_checksum_bytes buf else page_of (cached f) x.
Proof using Hdw.
  intros Hr Hq Hl. destruct (checked_offset q Hq) as [E1 E2]. pose proof (addressable_number q Hq) as Hn.
  unfold direct_write. rewrite E1, bind_result, E2. set (b := update_checksum_bytes buf).
  assert (length b = PAGE_SIZE) as Hlb by (by apply length_update). clearbody b.
  destruct (grow_to_quiet s w f q Hr Hq) as (w1 & f1 & g & G1 & [Hs1 Hf1 Hw1 _] & Hin & Hpg). unfold bind at 1. rewrite G1.
  assert (exists w2, match doublewrite with Some dw => write_batch dw [(q, b)] | None => ret tt end (s, w1) = (Ok tt, (s, w2)) /\
    script w2 = [] /\ files w2 !! data_path = Some f1) as (w2 & G2 & Hs2 & Hf2).
  { destruct doublewrite as [dw|]; [|by exists w1]. destruct (write_batch_quiet s dw [(q, b)] w1 Hs1) as (w2 & E & Hs2 & _ & Ho).
    exists w2. split; [exact E|]. split; [done|]. by rewrite Ho. }
  unfold bind at 1. rewrite G2. unfold bind at 1, lift at 1. cbn [fst snd]. rewrite (quiet_write data_path w2 f1 Hs2 Hf2).
  unfold bind at 1, lift at 1. cbn [fst snd].
  erewrite (quiet_sync data_path) by (done || apply set_file_files). cbn [fst snd cached durable]. rewrite set_file_twice.
  set (l := write_ext (cached f1) (page_offset q) b).
  set (w3 := set_file w2 data_path (mkFile l l)).
  assert (exists w4, match doublewrite with Some dw => clear dw | None => ret tt end (s, w3) = (Ok tt, (s, w4)) /\
    script w4 = [] /\ files w4 !! data_path = Some (mkFile l l)) as (w4 & G4 & Hs4 & Hf4).
  { assert (files w3 !! data_path = Some (mkFile l l)) as Hf3 by apply set_file_files.
    destruct doublewrite as [dw|]; [|by exists w3]. destruct (clear_quiet_other s dw w3 Hs2 Hdw) as (w4 & E & Hs4 & Ef).
    exists w4. split; [exact E|]. split; [done|]. by rewrite Ef. }
  rewrite G4. assert (length l = length (cached f1)) as Hll by (unfold l; rewrite length_write_ext; lia).
  exists w4, (mkFile l l). cbn [cached]. split; [done|]. split; [split; [done|done| |done]; by apply whole_pages_write|].
  split; [lia|]. intros x Hx. unfold l. rewrite page_of_write by done. case_decide; [done|apply Hpg].
Qed.
End Quiet.

(** ** An engine over another store with the same pages *)

Section Moved.
Context {S : Type} `{HL : PageStoreLaws S} `{CS : Checksums} {W : Type} `{WL : WalLog W} {tidy : option bool}.

Lemma rep_moved k j G (e : Engine S W) s : rep (tidy := tidy) k j G e -> ps_calm k s ->
  (forall p, ps_image s p = ps_image (page_manager e) p) -> rep (tidy := tidy) k j G (set_pages e s).
Proof.
  intros Hr Hc Hq. destruct Hr as [(D & [_ Hh] & H2 & H3 & H4 & H5)]. split; try done. simpl. exists D.
  assert (forall x, hrec D s x = hrec D (page_manager e) x) as Hrec by (intros x; unfold hrec; by rewrite Hq).
  split; [split; [done|intros p Hp; rewrite Hq; by apply Hh]|]. split; [|split_and!; [done..|]].
  - eapply heap_rep_mono; [| |exact H2]; intros x y; unfold node_at, edge_at; by rewrite Hrec.
  - intros foreign Ht. destruct (H5 foreign Ht) as [H6 H7]. split; [done|]. eapply slots_only; [|apply keeps_slots_refl|exact H7].
    split; [intros x; simpl; by rewrite Hrec|]. intros p. simpl. by rewrite Hq.
Qed.
End Moved.

(** ** The page manager as the engine's page store *)

Section Store.
Context `{CS : Checksums} (data_path : Path) (doublewrite : option Path).
Context (Hdw : match doublewrite with Some d => d <> data_path | None => True end).

(** Page access of the engine: an I/O error becomes [StorageError::Io]. *)
Definition store_io {A} (r : result A IoError * (DiskManager * World)) : option (result A StorageError * (DiskManager * World)) :=
  match r with
  | (Ok a, s) => Some (Ok a, s)
  | (Err _, s) => Some (Err SeIoError, s)
  end.

(** [allocate_page]: the allocation, which must not fail. *)
Definition store_alloc (s : DiskManager * World) : option (result Z StorageError * (DiskManager * World)) :=
  match try_allocate_page (manager s.1) with
  | Some (Ok id, m) => Some (Ok id, (set_manager s.1 m, s.2))
  | _ => None
  end.

#[local] Instance disk_store : PageStore (DiskManager * World) := {|
  ps_read p := fun s => store_io (read_page data_path doublewrite p s);
  ps_write p b := fun s => store_io (write_page data_path doublewrite p b s);
  ps_alloc := store_alloc
|}.

(** *** Allocation *)

Definition used (m : PageManager) (p : Z) : Prop := 0 <= p /\ reserved p = false /\ mbit (bitmaps m) p = true.

(** The next [n] allocations hand out unused pages a slot reference can name. *)
Fixpoint alloc_calm (n : nat) (m : PageManager) : Prop :=
  match n with
  | O => True
  | Datatypes.S n => exists id m', try_allocate_page m = Some (Ok id, m') /\ 3 <= id <= MAX_PAGE_ID /\ reserved id = false /\
      ~ used m id /\ (forall q, used m' q <-> used m q \/ q = id) /\ alloc_calm n m'
  end.

Lemma alloc_calm_S n m : alloc_calm (Datatypes.S n) m -> alloc_calm n m.
Proof.
  revert m. induction n as [|n IH]; [done|]. intros m (id & m' & E & H1 & H2 & H3 & H4 & H5). exists id, m'. split_and!; try done; auto; lia.
Qed.

Lemma inv_used live m p : alloc_inv live m -> used m p <-> p ∈ live.
Proof.
  intros Hi. split.
  - intros (H0 & Hr & Hb). destruct (decide (covered (bitmaps m) p)) as [Hc|Hc]; [|by rewrite mbit_uncovered in Hb].
    rewrite (ai_bits _ _ Hi p Hc), Hr in Hb. by apply bool_decide_eq_true in Hb.
  - intros Hp. destruct (ai_live _ _ Hi p Hp) as [Hr Hlt]. pose proof (not_reserved_ge p Hr) as Hge. unfold FIRST_DATA_PAGE_ID in Hge.
    pose proof (ai_cover _ _ Hi). split; [lia|]. split; [done|]. rewrite (ai_bits _ _ Hi) by (unfold covered; lia).
    by rewrite bool_decide_true, orb_true_r.
Qed.

(** An allocation moves the high-water mark by at most two pages. *)
Lemma allocate_next live m : alloc_inv live m -> next_free_page_id (superblock m) + 2 <= MAX_PAGE_ID + 1 ->
  exists id m', try_allocate_page m = Some (Ok id, m') /\ fresh_page live id /\ alloc_inv ({[id]} ∪ live) m' /\
    next_free_page_id (superblock m') <= next_free_page_id (superblock m) + 2.
Proof.
  intros Hi Hn. unfold MAX_PAGE_ID in Hn. destruct (try_allocate_spec live m Hi) as (r & m' & E & Hr).
  destruct r as [id|e]; [|destruct Hr as (_ & _ & _ & Hbad); rewrite max_addressable in Hbad; lia].
  destruct Hr as [Hf Hi']. exists id, m'. split_and!; try done. clear Hf Hi'. revert E. unfold try_allocate_page.
  destruct (cache_pop (free_cache m)) as [[pid|] c].
  - cbn [with_cache bitmaps]. match goal with |- context [if ?b then ?x else ?y] => destruct (if b then x else y) as [bs|] end; [|done].
    rewrite Some_bind. cbn [with_bitmaps with_sb superblock]. intros [= _ <-]. cbn. lia.
  - destruct (extend_spec live m 2 Hi ltac:(rewrite max_addressable; lia)) as (m1 & E1 & Hi1 & Hn1 & _). rewrite E1.
    destruct (is_bitmap_page (next_free_page_id (superblock m))) eqn:Eb; [|intros [= _ <-]; lia].
    destruct (extend_spec live m1 1 Hi1 ltac:(rewrite max_addressable, Hn1; lia)) as (m2 & E2 & _ & Hn2 & _). rewrite E2, Hn1.
    rewrite bitmap_pages_apart by (done || apply Hi). intros [= _ <-]. lia.
Qed.

Lemma inv_alloc_calm n : forall live m, alloc_inv live m ->
  next_free_page_id (superblock m) + 2 * Z.of_nat n <= MAX_PAGE_ID + 1 -> alloc_calm n m.
Proof.
  induction n as [|n IH]; intros live m Hi Hn; [done|].
  destruct (allocate_next live m Hi ltac:(lia)) as (id & m' & E & (Hnl & Hr & _) & Hi' & Hn'). exists id, m'.
  destruct (ai_live _ _ Hi' id ltac:(set_solver)) as [_ Hlt]. pose proof (not_reserved_ge id Hr) as Hge. unfold FIRST_DATA_PAGE_ID in Hge.
  split; [done|]. split; [lia|]. split; [done|]. split; [by rewrite (inv_used live)|]. split.
  - intros q. rewrite (inv_used _ m' q Hi'), (inv_used live m q Hi). set_solver.
  - apply (IH ({[id]} ∪ live)); [done|lia].
Qed.

(** *** The store's laws *)

Implicit Types s : DiskManager * World.

(** The pages with records are the images of the store. *)
Definition disk_image s (p : Z) : option Page :=
  if decide (page_number p /\ reserved p = false /\ record_page data_path s.2 p) then Some (disk data_path s.2 p) else None.

Definition disk_calm (n : nat) s : Prop :=
  pool s.1 = None /\ (exists f, disk_ready data_path s.2 f /\ Z.of_nat (length (cached f)) <= (MAX_PAGE_ID + 1) * 8192) /\ (forall p, used (manager s.1) p -> p <= MAX_PAGE_ID) /\
  (forall p, is_Some (disk_image s p) -> used (manager s.1) p) /\ alloc_calm n (manager s.1).

Lemma disk_image_inv s p b : disk_image s p = Some b ->
  page_number p /\ reserved p = false /\ record_page data_path s.2 p /\ b = disk data_path s.2 p.
Proof. unfold disk_image. case_decide as H; [|done]. intros [= <-]. by destruct H as (? & ? & ?). Qed.

Lemma disk_image_Some s p : page_number p -> reserved p = false -> record_page data_path s.2 p ->
  disk_image s p = Some (disk data_path s.2 p).
Proof. intros H1 H2 H3. unfold disk_image. case_decide as H; [done|tauto]. Qed.

Lemma disk_image_ext s s' q :
  (page_number q -> (record_page data_path s'.2 q <-> record_page data_path s.2 q) /\ disk data_path s'.2 q = disk data_path s.2 q) ->
  disk_image s' q = disk_image s q.
Proof.
  intros H. unfold disk_image. destruct (decide (page_number q)) as [Hq|Hq].
  - destruct (H Hq) as [H1 H2]. rewrite H2. apply decide_ext. by rewrite H1.
  - rewrite (decide_False (P := _ /\ _)) by (by intros [? _]). by rewrite (decide_False (P := _ /\ _)) by (by intros [? _]).
Qed.

Lemma slot_page_addressable p : 0 <= p <= MAX_PAGE_ID -> addressable p.
Proof. unfold MAX_PAGE_ID, addressable. lia. Qed.

Lemma ready_disk w f : disk_ready data_path w f -> data_file data_path w = cached f.
Proof. intros H. unfold data_file. by rewrite (dr_file _ _ _ H). Qed.

Lemma disk_read_ok n s p b : disk_calm n s -> disk_image s p = Some b -> ps_read p s = Some (Ok b, s).
Proof.
  destruct s as [d w]. intros (Hp & (f & Hr & _) & Hmax & Hall & _) Hi. pose proof (Hall p ltac:(by rewrite Hi)) as Hu.
  assert (0 <= p <= MAX_PAGE_ID) as Hb by (split; [apply Hu|by apply Hmax]).
  apply disk_image_inv in Hi as (_ & Hres & (Hle & Hv & _) & ->). cbn [fst snd] in *.
  cbn [ps_read disk_store]. unfold read_page, bind, self. cbn [fst snd]. rewrite Hp. rewrite (ready_disk w f Hr) in Hle.
  unfold disk in *. rewrite (ready_disk w f Hr) in *.
  rewrite (direct_read_quiet data_path doublewrite d w f p Hr (slot_page_addressable p Hb) Hle Hv). done.
Qed.

Lemma disk_write_ok n s p b : disk_calm n s -> used (manager s.1) p -> stored b ->
  exists w', ps_write p b s = Some (Ok tt, (s.1, w')) /\ disk_calm n (s.1, w') /\
    disk_image (s.1, w') p = Some (update_checksum_bytes b) /\ forall q, q <> p -> disk_image (s.1, w') q = disk_image s q.
Proof using Hdw.
  destruct s as [d w]. intros (Hp & (f & Hr & Hflen) & Hmax & Hall & Halloc) Hu (lens & Hpk & Hne). cbn [fst snd] in *.
  pose proof (pb_length _ (pk_base _ _ Hpk)) as Hl. pose proof Hu as (H0 & Hres & _). specialize (Hmax p Hu) as Hm.
  assert (addressable p) as Hadd by (apply slot_page_addressable; lia).
  destruct (direct_write_quiet data_path doublewrite Hdw d w f p b Hr Hadd Hl) as (w' & f' & E & Hr' & Hlen & Hpg).
  pose proof (ready_disk w f Hr) as Ed. pose proof (ready_disk w' f' Hr') as Ed'.
  assert (disk data_path w' p = update_checksum_bytes b) as Hdp.
  { unfold disk. rewrite Ed', Hpg by (by apply addressable_number). by destruct (decide (p = p)). }
  assert (disk_image (d, w') p = Some (update_checksum_bytes b)) as Him.
  { rewrite <- Hdp. apply disk_image_Some; cbn [snd]; [by apply addressable_number|done|]. unfold record_page. rewrite Ed', Hdp.
    split; [lia|]. split; [by apply verify_update|]. rewrite (pk_count _ lens) by (by apply packed_checksum).
    destruct lens; [done|simpl; lia]. }
  assert (forall q, q <> p -> disk_image (d, w') q = disk_image (d, w) q) as Hoth.
  { intros q Hq. apply disk_image_ext. cbn [snd]. intros Hqr.
    assert (disk data_path w' q = disk data_path w q) as Edq.
    { unfold disk. rewrite Ed, Ed', Hpg by done. by destruct (decide (q = p)). }
    split; [|done]. unfold record_page. rewrite Ed, Ed', Edq. split; [|intros (? & ? & ?); split; [lia|done]].
    intros (_ & Hv & Hc). split; [|done]. apply (record_inside (cached f) q); [apply Hr|done|].
    unfold disk in Hc. by rewrite Ed in Hc. }
  exists w'. cbn [ps_write disk_store]. unfold write_page, bind, self. cbn [fst snd]. rewrite Hp, E. split; [done|].
  split; [|done]. split; [done|]. split; [exists f'; split; [done|]|split; [done|split; [|done]]]; cbn [fst snd].
  { rewrite Hlen. pose proof (page_offset_eq p (addressable_number p Hadd)). pose proof PAGE_SIZE_eq. lia. }
  intros q Hq. destruct (decide (q = p)) as [->|Hqp]; [done|]. apply Hall. by rewrite <- Hoth.
Qed.

#[local] Program Instance disk_laws : PageStoreLaws (DiskManager * World) := {|
  ps_calm := disk_calm; ps_image := disk_image; ps_used s := used (manager s.1)
|}.
Next Obligation. intros n s (H1 & H2 & H3 & H4 & H5). split_and!; try done. by apply alloc_calm_S. Qed.
Next Obligation. intros n s p b (_ & _ & _ & H & _) Hb. apply H. by rewrite Hb. Qed.
Next Obligation. intros n s p b Hc Hb. exists s. split; [by apply (disk_read_ok n)|]. split_and!; try done. Qed.
Next Obligation.
  intros n s p b Hc Hu Hb. destruct (disk_write_ok n s p b Hc Hu Hb) as (w' & E & Hc' & Hi & Ho).
  exists (s.1, w'), (update_checksum_bytes b). split_and!; try done. apply like_checksum.
Qed.
Next Obligation.
  intros n [d w] (Hp & Hr & Hmax & Hall & (id & m' & E & Hid & Hres & Hnu & Hu & Halloc)). cbn [fst snd] in *.
  exists id, (set_manager d m', w). split; [unfold ps_alloc, disk_store, store_alloc; cbn [fst snd]; by rewrite E|].
  cbn [fst snd manager set_manager].
  split; [|split_and!; try done; lia]. split; [done|]. split; [done|]. cbn [fst snd manager set_manager]. split; [|split; [|done]].
  - intros p Hp'. apply Hu in Hp' as [Hup| ->]; [by apply Hmax|lia].
  - intros p Him. apply Hu. left. by apply Hall.
Qed.

(** ** A new database *)

Lemma page_of_zeros n p : page_of (replicate n 0) p = replicate PAGE_SIZE 0.
Proof.
  apply list_eq. intros i. rewrite lookup_page_of. case_decide as Hi; [|by rewrite lookup_ge_None_2 by (rewrite length_replicate; lia)].
  rewrite (lookup_replicate_2 PAGE_SIZE) by done. f_equal. destruct (replicate n 0 !! _) eqn:E; [|done]. by apply lookup_replicate in E as [-> _].
Qed.

Lemma dm_init_calm (w : World) n : script w = [] -> files w !! data_path = None ->
  3 + 2 * Z.of_nat n <= MAX_PAGE_ID + 1 ->
  exists d w', dm_init data_path 8192 (tt, w) = (Ok (Some d), (tt, w')) /\ disk_calm n (d, w') /\ forall p, disk_image (d, w') p = None.
Proof.
  intros Hs Hf Hn. destruct (pm_init_inv 8192) as (m & Em & Hi). unfold dm_init. rewrite Em.
  assert (fs_open data_path true w = (Ok tt, set_file (dir_change w data_path) data_path (mkFile [] []))) as E1
    by (unfold fs_open; by rewrite next_outcome_quiet, Hf).
  unfold bind, lift, attempt, ret. cbn [fst snd]. rewrite E1. cbn [fst snd]. set (w1 := set_file (dir_change w data_path) data_path (mkFile [] [])).
  assert (script w1 = []) as Hs1 by done. assert (files w1 !! data_path = Some (mkFile [] [])) as Hf1 by apply set_file_files.
  rewrite (quiet_len data_path w1 _ Hs1 Hf1). cbn [cached length fst snd].
  destruct (Nat.ltb_spec 0 (3 * PAGE_SIZE)) as [_|Hbad]; [|page_lia].
  rewrite (quiet_set_len data_path w1 _ Hs1 Hf1). cbn [fst snd cached durable length app].
  erewrite (quiet_sync data_path) by (done || apply set_file_files). cbn [fst snd cached durable]. rewrite set_file_twice.
  rewrite Nat.sub_0_r, take_ge by (by rewrite length_replicate).
  set (z := replicate (3 * PAGE_SIZE) 0). set (w2 := set_file w1 data_path (mkFile z z)).
  assert (forall p, disk_image (mkDm m None, w2) p = None) as Hnone.
  { intros p. destruct (disk_image (mkDm m None, w2) p) eqn:E; [|done]. apply disk_image_inv in E as (_ & _ & (_ & _ & Hc) & _).
    exfalso. revert Hc. cbn [snd]. unfold disk, data_file, w2. rewrite set_file_files. cbn [fmap option_fmap option_map default cached].
    unfold from_option, id, z. rewrite page_of_zeros. vm_compute. lia. }
  exists (mkDm m None), w2. split; [done|]. split; [|done].
  assert (forall p, ~ used m p) as Hun by (intros p; rewrite (inv_used ∅ m p Hi); set_solver).
  split; [done|]. split; [exists (mkFile z z); split; [split; [done|apply set_file_files| |done]|]|].
  { exists 3%nat. cbn [cached]. unfold z. by rewrite length_replicate. }
  { cbn [cached]. unfold z, MAX_PAGE_ID. rewrite length_replicate. pose proof PAGE_SIZE_eq. lia. }
  split; [intros p Hp; by destruct (Hun p)|]. split; [intros p; rewrite Hnone; by intros [? ?]|].
  apply (inv_alloc_calm n ∅); [done|]. cbn [fst manager]. assert (next_free_page_id (superblock m) = 3) as ->; [|lia].
  revert Em. clear. unfold pm_init. destruct (allocate _ _) as [b1|]; [|done]. rewrite Some_bind.
  destruct (allocate _ _) as [b2|]; [|done]. rewrite Some_bind. destruct (allocate _ _) as [b3|]; [|done]. rewrite Some_bind.
  by intros [= <-].
Qed.

(** ** After reopening *)

(** As long as the free-list cache holds unmarked pages, it serves allocations. *)
Lemma cache_calm n : forall m l l', bs_ok (bitmaps m) -> PageAlloc.pages (free_cache m) = l ++ l' -> (n <= length l')%nat -> NoDup l' ->
  (forall p, p ∈ l' -> 3 <= p <= MAX_PAGE_ID /\ reserved p = false /\ covered (bitmaps m) p /\ mbit (bitmaps m) p = false) ->
  alloc_calm n m.
Proof.
  induction n as [|n IH]; intros m l l' Hbs Hl Hn Hnd Hfree; [done|].
  destruct (exists_last (l := l')) as (l1 & p & ->); [intros ->; simpl in Hn; lia|]. rewrite length_app in Hn. simpl in Hn.
  apply NoDup_app in Hnd as (Hnd & Hdisj & _).
  destruct (Hfree p ltac:(set_solver)) as (Hp & Hr & Hc & Hb).
  unfold alloc_calm, try_allocate_page; fold alloc_calm. pose proof (cache_pop_spec (free_cache m)) as Hpop.
  destruct (cache_pop (free_cache m)) as [[pid|] c]; [|destruct Hpop as [E _]; rewrite E in Hl; by destruct l, l1].
  destruct Hpop as [E _]. rewrite Hl, app_assoc in E. apply app_inj_tail in E as [E <-].
  cbn [with_cache bitmaps]. destruct (Nat.ltb_spec (region p) (length (bitmaps m))) as [_|Hbad]; [|apply covered_region in Hc; lia].
  destruct (bitmaps_allocate_spec _ _ Hbs Hc) as (bs & -> & Hbs' & Hlen & Hm). rewrite Some_bind.
  eexists p, _. split; [reflexivity|]. split; [lia|]. split; [done|]. split; [intros (_ & _ & ?); congruence|].
  cbn [with_sb with_bitmaps with_cache bitmaps free_cache]. split.
  - intros q. unfold used. cbn [with_sb with_bitmaps with_cache bitmaps]. split.
    + intros (H0 & Hq & Hbit). rewrite Hm in Hbit by done. destruct (decide (q = p)); [by right|by left].
    + intros [(H0 & Hq & Hbit)| ->]; (split; [lia|split; [done|]]); rewrite Hm by lia; by case_decide.
  - apply (IH _ l l1); cbn [with_sb with_bitmaps with_cache bitmaps free_cache]; [done|by rewrite E|lia|done|].
    intros q Hq. destruct (Hfree q ltac:(set_solver)) as (H1 & H2 & H3 & H4). split; [done|]. split; [done|].
    split; [unfold covered in *; by rewrite Hlen|]. rewrite Hm by lia. rewrite decide_False; [done|]. intros ->. set_solver.
Qed.

(** The allocation state found on opening, [m], against the data pages in use:
    its bitmaps mark only such pages (they may miss any number of them), and the
    top [n] pages of its free-list cache are not among them. *)
Record stale (image : Z -> option Page) (n : nat) (m : PageManager) : Prop := {
  st_bitmaps : bs_ok (bitmaps m);
  st_next : 0 <= next_free_page_id (superblock m) < 2 ^ 51;
  st_marked : forall p, 0 <= p -> reserved p = false -> mbit (bitmaps m) p = true -> is_Some (image p);
  st_cache : exists l l', PageAlloc.pages (free_cache m) = l ++ l' /\ (n <= length l')%nat /\ NoDup l' /\
    forall p, p ∈ l' -> 3 <= p <= MAX_PAGE_ID /\ reserved p = false /\ covered (bitmaps m) p /\ image p = None
}.

(** Reconciling such a state over the same file: the pages in use are listed,
    and the store is as healthy as before. *)
Lemma reopened_calm k n s m w2 (Hc : disk_calm k s) : stale (disk_image s) n m ->
  script w2 = [] -> files w2 !! data_path = files s.2 !! data_path ->
  exists m2 w3 ids, reconcile_from_disk data_path (m, w2) = (Ok (Some tt), (m2, w3)) /\ allocated_pages m2 = Some ids /\ NoDup ids /\
    disk_calm n (mkDm m2 None, w3) /\ (forall p, disk_image (mkDm m2 None, w3) p = disk_image s p) /\
    (forall p, is_Some (disk_image s p) -> p ∈ ids) /\ (forall p, p ∈ ids -> reserved p = true \/ is_Some (disk_image s p)).
Proof.
  intros [Hbs Hnext Hmk (l & l' & Ecache & Hlen & Hnd & Hfree)] Hs Hf.
  destruct Hc as (_ & (f & Hr & Hfl) & Hmax & Hall & _).
  assert (data_file data_path w2 = cached f) as Ed by (unfold data_file; by rewrite Hf, (dr_file _ _ _ Hr)).
  assert (forall q, record_page data_path w2 q <-> record_page data_path s.2 q) as Hrec by (intros; by apply record_page_same).
  destruct (reconcile_from_disk data_path (m, w2)) as [r [m2 w3]] eqn:E.
  assert (Z.of_nat (length (data_file data_path w2)) <= 2 ^ 64) as Hl64 by (rewrite Ed; unfold MAX_PAGE_ID in Hfl; lia).
  destruct (reconcile_cases data_path m m2 w2 w3 r Hbs Hl64 E) as (Ef & Hs3 & [(e & _ & _ & Hno)|(F & mx & bs' & -> & -> & Hm & Hsc)]).
  { exfalso. apply Hno. split; [done|]. rewrite Hf, (dr_file _ _ _ Hr). eauto. }
  destruct Hsc as [S1 _ S3]. specialize (S3 Hs).
  assert (forall p, is_Some (disk_image s p) <-> p ∈ F) as HF.
  { intros p. split.
    - intros [b (Hn & Hres & Hp & _)%disk_image_inv]. apply Hrec in Hp. pose proof (record_page_bound data_path w2 p Hres Hn Hp).
      apply S3; [lia|done|done].
    - intros Hp. destruct (S1 p Hp) as (Hb & Hres & Hp' & _). rewrite disk_image_Some; [eauto| |done|by apply Hrec].
      revert Hb. clear -Hl64. assert (Z.of_nat (length (data_file data_path w2)) / 8192 <= 2 ^ 51) by (apply Z.div_le_upper_bound; lia).
      unfold page_number, FIRST_DATA_PAGE_ID. lia. }
  assert (forall p, 0 <= p -> reserved p = false -> mbit bs' p = true <-> is_Some (disk_image s p)) as Hbit.
  { intros p H0 Hres. rewrite (mk_data _ _ _ Hm) by done. rewrite orb_true_iff, bool_decide_eq_true, HF. split; [|by right].
    intros [Hb|]; [|done]. apply HF. by apply Hmk. }
  destruct (allocated_pages_spec (with_sb (with_bitmaps m bs') (superblock m)) (mk_ok _ _ _ Hm)) as (ids & Ei & Hids).
  cbn [with_sb with_bitmaps bitmaps] in Hids.
  assert (forall p, disk_image (mkDm (with_sb (with_bitmaps m bs') (raise_counters (superblock m)
    (Z.of_nat (length (data_file data_path w2)) / 8192) mx)) None, w3) p = disk_image s p) as Himg.
  { intros p. apply disk_image_ext. cbn [snd]. intros _. split; [apply record_page_same|apply same_file_disk]; congruence. }
  assert (forall p, mbit bs' p = true -> 0 <= p -> covered bs' p) as Hcov.
  { intros p Hb H0. destruct (decide (covered bs' p)) as [|Hc]; [done|]. by rewrite mbit_uncovered in Hb. }
  eexists _, w3, ids. split; [reflexivity|]. split; [exact Ei|]. split; [|split; [|split; [exact Himg|]]].
  - eapply (all_allocated_nodup bs' 0); [|exact Ei]. exact (mk_ok _ _ _ Hm).
  - split; [done|]. cbn [fst snd]. split; [exists f; split; [|done]|].
    { destruct Hr. split; [by apply Hs3|congruence|done|done]. }
    unfold used. cbn [manager with_sb with_bitmaps bitmaps]. split; [|split].
    + intros p (H0 & Hres & Hb). apply Hmax, Hall. by apply Hbit.
    + intros p. rewrite Himg. intros Hp. pose proof (Hall p Hp) as (H0 & Hres & _). split; [done|]. split; [done|]. by apply Hbit.
    + apply (cache_calm n _ l l'); cbn [with_sb with_bitmaps bitmaps free_cache]; [exact (mk_ok _ _ _ Hm)|exact Ecache|done|done|].
      intros p Hp. destruct (Hfree p Hp) as (H1 & H2 & H3 & H4). split; [done|]. split; [done|]. split.
      * pose proof (mk_length _ _ _ Hm). unfold covered, PAGES_PER_BITMAP in *. lia.
      * destruct (mbit bs' p) eqn:Eb; [|done]. apply Hbit in Eb; [|lia|done]. rewrite H4 in Eb. by destruct Eb.
  - split.
    + intros p Hp. pose proof (Hall p Hp) as (H0 & Hres & _). apply Hids. assert (mbit bs' p = true) as Hb by (by apply Hbit).
      split; [by apply Hcov|done].
    + intros p [Hc Hb]%Hids. destruct (reserved p) eqn:Eres; [by left|right]. apply Hbit; [|done|done]. unfold covered in Hc. lia.
Qed.

(** The pages an engine without foreign pages keeps its records on are those of
    its store. *)
Lemma listed_pages k j G (e : Engine (DiskManager * World) (WalWriter * World)) ids :
  rep (tidy := Some false) k j G e -> NoDup ids ->
  (forall p, is_Some (disk_image (page_manager e) p) -> p ∈ ids) ->
  (forall p, p ∈ ids -> reserved p = true \/ is_Some (disk_image (page_manager e) p)) -> allocated_for ids e.
Proof.
  intros Hr Hnd Hin Hout. destruct (rp_heap _ _ _ _ Hr) as (D & [Hc Hh] & _ & Hnp & Hep & Ht).
  destruct (Ht false eq_refl) as [Hcov [_ Honly]]. split; [done|]. split.
  - intros p Hp. assert (p ∈ D) as HpD by (apply elem_of_app in Hp as [Hp|Hp]; auto).
    destruct (Hh p HpD) as (_ & b & lens & Hb & _). change (disk_image (page_manager e) p = Some b) in Hb.
    split; [apply Hin; by rewrite Hb|]. by destruct (disk_image_inv _ _ _ Hb) as (_ & Hres & _).
  - intros p Hp. destruct (Hout p Hp) as [|Himg]; [by left|right]. apply elem_of_app. apply Hcov. by apply Honly.
Qed.

End Store.

(** ** A power loss, evaluated *)

Module DiskDemo.
#[local] Existing Instance additive_checksums.

Definition db_path : Path := (9, 0).
Definition dw_path : Path := (9, 1).
Definition no_files : World := mkWorld ∅ [].

#[local] Instance demo_store : PageStore (DiskManager * World) := disk_store db_path (Some dw_path).

(** A log writer opened on an empty directory. *)
Definition opened_log : option (WalWriter * World) :=
  match WalWriter.open (tt, no_files) with (Ok s, (_, w)) => Some (s, w) | _ => None end.

Lemma opened_log_ready : exists log, opened_log = Some log /\ log_ready log.
Proof.
  assert (match opened_log with
          | Some l => bool_decide (script l.2 = []) && bool_decide (is_Some (files l.2 !! segment_handle l.1))
          | None => false end = true) as H by (vm_compute; reflexivity).
  destruct opened_log as [l|]; [|done]. apply andb_true_iff in H as [H1%bool_decide_eq_true H2%bool_decide_eq_true]. by exists l.
Qed.

(** The pages the demonstration relies on being unused. *)
Definition spare : list Z := [62; 63; 64; 65; 66].

Definition first_run (log : WalWriter * World) : option (list graph_out * Engine (DiskManager * World) (WalWriter * World)) :=
  match dm_init db_path 8192 (tt, no_files) with
  | (Ok (Some d), (_, w)) => run_graph_ops GraphDemo.idle_env 0 RestartDemo.first (engine_new (d, w) log 0)
  | _ => None
  end.

Definition unused (e : Engine (DiskManager * World) (WalWriter * World)) : bool :=
  forallb (fun p => match disk_image db_path (page_manager e) p with Some _ => false | None => true end) spare.

Lemma spare_unused : (opened_log ≫= fun l => first_run l ≫= fun r => Some (unused r.2)) = Some true.
Proof. vm_compute. reflexivity. Qed.

Lemma bind_given {A B} (x : option A) (k : A -> option B) a y : x = Some a -> (x ≫= k) = y -> k a = y.
Proof. by intros -> <-. Qed.

Lemma unused_spare e p : unused e = true -> p ∈ spare -> disk_image db_path (page_manager e) p = None.
Proof.
  unfold unused. rewrite forallb_forall. intros H Hp. specialize (H p ltac:(by apply list_elem_of_In)).
  by destruct (disk_image db_path (page_manager e) p).
Qed.

Lemma spare_images log r p : opened_log = Some log -> first_run log = Some r -> p ∈ spare -> disk_image db_path (page_manager r.2) p = None.
Proof.
  intros El Er. apply unused_spare. apply (inj Some). exact (bind_given _ _ r _ Er (bind_given _ _ log _ El spare_unused)).
Qed.

(** The allocation state of the new database, as it was written at the start,
    opened again: its bitmap knows no data page, its cache holds pages 3 to 66. *)
Definition old_state : PageManager := default PageIoDemo.new_manager PageIoDemo.reopened.

Lemma old_state_parts :
  bitmaps old_state = bitmaps PageIoDemo.new_manager /\ next_free_page_id (superblock old_state) = 3 /\
  PageAlloc.pages (free_cache old_state) = seqZ 3 59 ++ spare.
Proof. vm_compute. repeat split. Qed.

Lemma empty_unused m : alloc_inv ∅ m -> forall p, ~ used m p.
Proof. intros Hi p. rewrite (inv_used ∅ m p Hi). set_solver. Qed.

Lemma new_manager_inv : exists m, alloc_inv ∅ m /\ PageIoDemo.new_manager = m.
Proof.
  destruct (pm_init_inv 8192) as (m & E & Hi). exists m. split; [exact Hi|]. unfold PageIoDemo.new_manager. rewrite E. reflexivity.
Qed.

Lemma old_state_stale image : (forall p, p ∈ spare -> image p = None) -> stale image 5 old_state.
Proof.
  intros Hsp. destruct old_state_parts as (Eb & En & Ec).
  destruct new_manager_inv as (m & Hi & Em).
  rewrite Em in Eb. clear Em. pose proof (empty_unused m Hi) as Hun. generalize dependent old_state. intros old Eb En Ec.
  split.
  - rewrite Eb. apply Hi.
  - rewrite En. lia.
  - intros p H0 Hres Hb. rewrite Eb in Hb. destruct (Hun p). split; [exact H0|]. split; [exact Hres|exact Hb].
  - exists (seqZ 3 59), spare. split; [exact Ec|]. split; [reflexivity|]. split; [apply (bool_decide_unpack _); vm_compute; exact I|].
    intros p Hp. assert (3 <= p <= MAX_PAGE_ID /\ reserved p = false /\ covered (bitmaps m) p) as (H1 & H2 & H3); [|rewrite Eb; auto].
    pose proof (ai_cover _ _ Hi). pose proof (ai_next _ _ Hi) as Hnx. unfold FIRST_DATA_PAGE_ID in Hnx.
    assert (1 <= Z.of_nat (length (bitmaps m))) as Hlen by (unfold PAGES_PER_BITMAP in *; lia).
    revert Hp. unfold spare. rewrite !elem_of_cons, elem_of_nil.
    intros [->|[->|[->|[->|[->|[]]]]]]; (split; [vm_compute; split; discriminate|split; [reflexivity|]]); unfold covered, PAGES_PER_BITMAP; lia.
Qed.

Lemma demo_dw : match Some dw_path with Some d => d <> db_path | None => True end.
Proof. discriminate. Qed.

End DiskDemo.
