(* ===== verification/Text.v ===== *)
(** * Text: characters and UTF-8

    A Rust [String] is modelled by the list of its [char]s (Unicode scalar
    values); [as_bytes] is [utf8_bytes] and [std::str::from_utf8] is
    [utf8_chars].  The tables of second bytes are those of [GraphRecord]. *)

From stdpp Require Import prelude list strings.
From Stdlib Require Import ZArith Lia.
From Stdlib Require Ascii String.
From S2P Require Import Prelude Bytes GraphRecord.

(** Scalar values: up to 0x10FFFF, no surrogates. *)
Definition is_char (c : Z) : bool := in_bytes 0 0xD7FF c || in_bytes 0xE000 0x10FFFF c.
(** [char::from_u32]. *)
Definition char_from_u32 (c : Z) : option Z := if is_char c then Some c else None.

Definition is_text (s : list Z) : Prop := Forall (fun c => is_char c = true) s.

Definition utf8_char (c : Z) : list Z :=
  if c <? 0x80 then [c]
  else if c <? 0x800 then [0xC0 + c / 64; 0x80 + c mod 64]
  else if c <? 0x10000 then [0xE0 + c / 4096; 0x80 + c / 64 mod 64; 0x80 + c mod 64]
  else [0xF0 + c / 262144; 0x80 + c / 4096 mod 64; 0x80 + c / 64 mod 64; 0x80 + c mod 64].

Definition utf8_bytes (s : list Z) : list Z := s ≫= utf8_char.

Fixpoint utf8_chars (l : list Z) : option (list Z) :=
  match l with
  | [] => Some []
  | b0 :: l1 =>
      if b0 <? 0x80 then cons b0 <$> utf8_chars l1 else
      match l1 with
      | [] => None
      | b1 :: l2 =>
          if in_bytes 0xC2 0xDF b0 then
            if in_bytes 0x80 0xBF b1 then cons (64 * (b0 - 0xC0) + (b1 - 0x80)) <$> utf8_chars l2 else None
          else
          match l2 with
          | [] => None
          | b2 :: l3 =>
              match second_of_three b0 with
              | Some (lo, hi) =>
                  if in_bytes lo hi b1 && in_bytes 0x80 0xBF b2
                  then cons (4096 * (b0 - 0xE0) + 64 * (b1 - 0x80) + (b2 - 0x80)) <$> utf8_chars l3 else None
              | None =>
                  match l3 with
                  | [] => None
                  | b3 :: l4 =>
                      match second_of_four b0 with
                      | Some (lo, hi) =>
                          if in_bytes lo hi b1 && in_bytes 0x80 0xBF b2 && in_bytes 0x80 0xBF b3
                          then cons (262144 * (b0 - 0xF0) + 4096 * (b1 - 0x80) + 64 * (b2 - 0x80) + (b3 - 0x80))
                                 <$> utf8_chars l4
                          else None
                      | None => None
                      end
                  end
              end
          end
      end
  end.

(** ** Character classes of the standard library *)

Definition is_ascii (c : Z) : bool := c <? 0x80.
Definition is_ascii_digit (c : Z) : bool := in_bytes 0x30 0x39 c.
Definition is_ascii_alphabetic (c : Z) : bool := in_bytes 0x41 0x5A c || in_bytes 0x61 0x7A c.
Definition is_ascii_alphanumeric (c : Z) : bool := is_ascii_alphabetic c || is_ascii_digit c.
Definition to_ascii_lower (c : Z) : Z := if in_bytes 0x41 0x5A c then c + 32 else c.
Definition to_ascii_lowercase (s : list Z) : list Z := to_ascii_lower <$> s.
(** The White_Space property. *)
Definition is_whitespace (c : Z) : bool :=
  in_bytes 9 13 c || (c =? 0x20) || (c =? 0x85) || (c =? 0xA0) || (c =? 0x1680) || in_bytes 0x2000 0x200A c ||
  (c =? 0x2028) || (c =? 0x2029) || (c =? 0x202F) || (c =? 0x205F) || (c =? 0x3000).
(** [char::to_digit(16)]. *)
Definition hex_digit (c : Z) : option Z :=
  if is_ascii_digit c then Some (c - 0x30)
  else if in_bytes 0x41 0x46 c then Some (c - 0x41 + 10)
  else if in_bytes 0x61 0x66 c then Some (c - 0x61 + 10)
  else None.

(** ** Round trips *)

Lemma in_bytes_spec lo hi b : in_bytes lo hi b = true <-> lo <= b <= hi.
Proof. unfold in_bytes. rewrite andb_true_iff, !Z.leb_le. done. Qed.
Lemma in_bytes_false lo hi b : in_bytes lo hi b = false <-> b < lo \/ hi < b.
Proof. unfold in_bytes. rewrite andb_false_iff, !Z.leb_gt. done. Qed.

Lemma is_char_spec c : is_char c = true <-> 0 <= c <= 0xD7FF \/ 0xE000 <= c <= 0x10FFFF.
Proof. unfold is_char. rewrite orb_true_iff, !in_bytes_spec. done. Qed.

(** Cuts a value into its six-bit groups, for [lia]. *)
Lemma six_bits c : c = 64 * (c / 64) + c mod 64 /\ 0 <= c mod 64 < 64.
Proof. pose proof (Z.div_mod c 64). pose proof (Z.mod_pos_bound c 64). lia. Qed.
Lemma six_bits_twice c : c / 4096 = c / 64 / 64 /\ c / 262144 = c / 64 / 64 / 64.
Proof. rewrite !Z.div_div by lia. done. Qed.

Ltac decide_bytes :=
  repeat match goal with
  | |- context [in_bytes ?lo ?hi ?b] =>
      first [rewrite (proj2 (in_bytes_spec lo hi b)) by lia | rewrite (proj2 (in_bytes_false lo hi b)) by lia]
  | |- context [?a <? ?b] =>
      first [rewrite (proj2 (Z.ltb_lt a b)) by lia | rewrite (proj2 (Z.ltb_ge a b)) by lia]
  | |- context [?a =? ?b] =>
      first [rewrite (proj2 (Z.eqb_eq a b)) by lia | rewrite (proj2 (Z.eqb_neq a b)) by lia]
  end.

Lemma utf8_chars_char c l : is_char c = true -> utf8_chars (utf8_char c ++ l) = cons c <$> utf8_chars l.
Proof.
  intros Hc%is_char_spec. unfold utf8_char.
  destruct (six_bits c) as [E0 R0], (six_bits (c / 64)) as [E1 R1], (six_bits (c / 64 / 64)) as [E2 R2].
  destruct (six_bits_twice c) as [-> ->].
  destruct (Z.ltb_spec c 0x80). { simpl. by decide_bytes. }
  destruct (Z.ltb_spec c 0x800).
  { simpl. decide_bytes. do 2 f_equal. lia. }
  destruct (Z.ltb_spec c 0x10000).
  { cbn [utf8_chars app]. unfold second_of_three. decide_bytes. cbn [andb].
    destruct (Z.eqb_spec (0xE0 + c / 64 / 64) 0xE0); [|destruct (Z.eqb_spec (0xE0 + c / 64 / 64) 0xED)];
      decide_bytes; cbn [andb]; do 2 f_equal; lia. }
  cbn [utf8_chars app]. unfold second_of_three, second_of_four. decide_bytes. cbn [andb].
  destruct (Z.eqb_spec (0xF0 + c / 64 / 64 / 64) 0xF0); [|destruct (Z.eqb_spec (0xF0 + c / 64 / 64 / 64) 0xF4)];
    decide_bytes; cbn [andb]; do 2 f_equal; lia.
Qed.

Lemma utf8_chars_bytes s : is_text s -> utf8_chars (utf8_bytes s) = Some s.
Proof.
  induction 1 as [|c s Hc _ IH]; [done|]. unfold utf8_bytes in *. cbn [mbind list_bind].
  rewrite utf8_chars_char, IH by done. done.
Qed.

Lemma utf8_char_ok c : is_char c = true -> bytes_ok (utf8_char c).
Proof.
  intros Hc%is_char_spec. unfold utf8_char.
  destruct (six_bits c) as [E0 R0], (six_bits (c / 64)) as [E1 R1], (six_bits (c / 64 / 64)) as [E2 R2].
  destruct (six_bits_twice c) as [-> ->].
  destruct (Z.ltb_spec c 0x80); [|destruct (Z.ltb_spec c 0x800); [|destruct (Z.ltb_spec c 0x10000)]];
    repeat (apply Forall_cons; split); try apply Forall_nil; unfold uint; lia.
Qed.

Lemma utf8_bytes_app s t : utf8_bytes (s ++ t) = utf8_bytes s ++ utf8_bytes t.
Proof. apply bind_app. Qed.

Lemma utf8_bytes_ok s : is_text s -> bytes_ok (utf8_bytes s).
Proof.
  induction 1 as [|c s Hc _ IH]; [constructor|]. unfold utf8_bytes in *. cbn [mbind list_bind].
  apply bytes_ok_app. split; [by apply utf8_char_ok|done].
Qed.

(** Two, three and four bytes in range are the encoding of one character. *)
Lemma utf8_two b0 b1 : 0xC2 <= b0 <= 0xDF -> 0x80 <= b1 <= 0xBF ->
  let c := 64 * (b0 - 0xC0) + (b1 - 0x80) in is_char c = true /\ utf8_char c = [b0; b1].
Proof.
  intros H0 H1 c. assert (c / 64 = b0 - 0xC0 /\ c mod 64 = b1 - 0x80) as [D M].
  { destruct (six_bits c) as [E R]. unfold c in *. lia. }
  split; [apply is_char_spec; lia|]. unfold utf8_char. rewrite D, M. decide_bytes. repeat f_equal; lia.
Qed.

Lemma utf8_three b0 b1 b2 lo hi : second_of_three b0 = Some (lo, hi) -> lo <= b1 <= hi -> 0x80 <= b2 <= 0xBF ->
  let c := 4096 * (b0 - 0xE0) + 64 * (b1 - 0x80) + (b2 - 0x80) in is_char c = true /\ utf8_char c = [b0; b1; b2].
Proof.
  intros Hs H1 H2 c.
  assert (0xE0 <= b0 <= 0xEF /\ 0x80 <= b1 <= 0xBF /\ is_char c = true /\ 0x800 <= c < 0x10000) as (H0 & H1' & Hc & Hr).
  { unfold second_of_three in Hs. rewrite is_char_spec. destruct (Z.eqb_spec b0 0xE0); [injection Hs as <- <-; lia|].
    destruct (Z.eqb_spec b0 0xED); [injection Hs as <- <-; lia|].
    destruct (in_bytes 0xE1 0xEF b0) eqn:E; [|done]. apply in_bytes_spec in E. injection Hs as <- <-. lia. }
  split; [done|]. assert (c / 64 / 64 = b0 - 0xE0 /\ c / 64 mod 64 = b1 - 0x80 /\ c mod 64 = b2 - 0x80) as (D & M1 & M0).
  { destruct (six_bits c) as [E R], (six_bits (c / 64)) as [E' R']. unfold c in *. lia. }
  unfold utf8_char. rewrite (proj1 (six_bits_twice c)), D, M1, M0. decide_bytes. repeat f_equal; lia.
Qed.

Lemma utf8_four b0 b1 b2 b3 lo hi : second_of_four b0 = Some (lo, hi) -> lo <= b1 <= hi ->
  0x80 <= b2 <= 0xBF -> 0x80 <= b3 <= 0xBF ->
  let c := 262144 * (b0 - 0xF0) + 4096 * (b1 - 0x80) + 64 * (b2 - 0x80) + (b3 - 0x80) in
  is_char c = true /\ utf8_char c = [b0; b1; b2; b3].
Proof.
  intros Hs H1 H2 H3 c.
  assert (0xF0 <= b0 <= 0xF4 /\ 0x80 <= b1 <= 0xBF /\ is_char c = true /\ 0x10000 <= c) as (H0 & H1' & Hc & Hr).
  { unfold second_of_four in Hs. rewrite is_char_spec. destruct (Z.eqb_spec b0 0xF0); [injection Hs as <- <-; lia|].
    destruct (Z.eqb_spec b0 0xF4); [injection Hs as <- <-; lia|].
    destruct (in_bytes 0xF1 0xF3 b0) eqn:E; [|done]. apply in_bytes_spec in E. injection Hs as <- <-. lia. }
  split; [done|].
  assert (c / 64 / 64 / 64 = b0 - 0xF0 /\ c / 64 / 64 mod 64 = b1 - 0x80 /\ c / 64 mod 64 = b2 - 0x80 /\ c mod 64 = b3 - 0x80)
    as (D & M2 & M1 & M0).
  { destruct (six_bits c) as [E R], (six_bits (c / 64)) as [E' R'], (six_bits (c / 64 / 64)) as [E'' R'']. unfold c in *. lia. }
  unfold utf8_char. destruct (six_bits_twice c) as [-> ->]. rewrite D, M2, M1, M0. decide_bytes. repeat f_equal; lia.
Qed.

Lemma utf8_chars_sound n : forall l s, (length l <= n)%nat -> bytes_ok l -> utf8_chars l = Some s ->
  is_text s /\ utf8_bytes s = l.
Proof.
  induction n as [|n IH]; intros l s Hn Hl H; (destruct l as [|b0 l1]; [injection H as <-; by split; [constructor|]|]);
    [simpl in Hn; lia|].
  assert (forall c l' s', is_char c = true -> utf8_char c ++ l' = b0 :: l1 -> (length l' <= n)%nat ->
    cons c <$> utf8_chars l' = Some s' -> is_text s' /\ utf8_bytes s' = b0 :: l1) as Hcons.
  { intros c l' s' Hc El Hl' Hs'. apply fmap_Some in Hs' as (s0 & E & ->).
    destruct (IH l' s0 Hl') as [Ht Hb]; [|done|].
    { rewrite <- El in Hl. by apply bytes_ok_app in Hl as [_ ?]. }
    split; [by constructor|]. unfold utf8_bytes in *. cbn [mbind list_bind]. by rewrite Hb. }
  assert (0 <= b0) as H0 by (apply Forall_cons in Hl as [Hl _]; unfold uint in Hl; lia).
  cbn [utf8_chars] in H. simpl in Hn. destruct (Z.ltb_spec b0 0x80) as [Hlt|Hge].
  { apply (Hcons b0 l1); [apply is_char_spec; lia| |lia|done]. unfold utf8_char. by decide_bytes. }
  destruct l1 as [|b1 l2]; [done|]. destruct (in_bytes 0xC2 0xDF b0) eqn:E0.
  { destruct (in_bytes 0x80 0xBF b1) eqn:E1; [|done]. apply in_bytes_spec in E0, E1.
    destruct (utf8_two b0 b1 E0 E1) as [Hc E]. apply (Hcons _ l2 _ Hc); [by rewrite E|simpl in Hn; lia|done]. }
  destruct l2 as [|b2 l3]; [done|]. destruct (second_of_three b0) as [[lo hi]|] eqn:E3.
  { destruct (in_bytes lo hi b1) eqn:E1, (in_bytes 0x80 0xBF b2) eqn:E2; try done. apply in_bytes_spec in E1, E2.
    destruct (utf8_three b0 b1 b2 lo hi E3 E1 E2) as [Hc E].
    apply (Hcons _ l3 _ Hc); [by rewrite E|simpl in Hn; lia|done]. }
  destruct l3 as [|b3 l4]; [done|]. destruct (second_of_four b0) as [[lo hi]|] eqn:E4; [|done].
  destruct (in_bytes lo hi b1) eqn:E1, (in_bytes 0x80 0xBF b2) eqn:E2, (in_bytes 0x80 0xBF b3) eqn:E5; try done.
  apply in_bytes_spec in E1, E2, E5. destruct (utf8_four b0 b1 b2 b3 lo hi E4 E1 E2 E5) as [Hc E].
  apply (Hcons _ l4 _ Hc); [by rewrite E|simpl in Hn; lia|done].
Qed.

Lemma utf8_chars_inv l s : bytes_ok l -> utf8_chars l = Some s -> is_text s /\ utf8_bytes s = l.
Proof. by apply (utf8_chars_sound (length l)). Qed.

Lemma utf8_bytes_inj s t : is_text s -> is_text t -> utf8_bytes s = utf8_bytes t -> s = t.
Proof. intros Hs Ht E. apply (inj Some). by rewrite <- !utf8_chars_bytes, E. Qed.

(** ** String constants *)

(** The characters of an ASCII string constant of the source. *)
Definition text (s : string) : list Z :=
  (fun a => Z.of_N (Ascii.N_of_ascii a)) <$> String.list_ascii_of_string s.
