(* ===== verification/RdfTerm.v ===== *)
(** * RDF terms, their codec and the term dictionary
    ([src/rdf/term.rs], [triple.rs], [dictionary.rs])

    Strings are lists of characters ([Text]); the canonical byte form of a term
    uses their UTF-8 bytes and 16-bit length prefixes, written with the
    truncation of the source.  [HashMap]s are finite maps. *)

From stdpp Require Import prelude list gmap countable strings.
From Stdlib Require Import ZArith Lia.
From S2P Require Import Prelude Bytes GraphRecord Text.

(** ** Terms *)

Definition XSD_STRING : list Z := text "http://www.w3.org/2001/XMLSchema#string".
Definition XSD_INTEGER : list Z := text "http://www.w3.org/2001/XMLSchema#integer".
Definition XSD_DECIMAL : list Z := text "http://www.w3.org/2001/XMLSchema#decimal".
Definition XSD_DOUBLE : list Z := text "http://www.w3.org/2001/XMLSchema#double".
Definition LANG_STRING : list Z := text "http://www.w3.org/1999/02/22-rdf-syntax-ns#langString".

Record RdfLiteral := mkLiteral { lexical : list Z; datatype : list Z; language : option (list Z) }.

Definition lit_string (lex : list Z) : RdfLiteral := mkLiteral lex XSD_STRING None.
Definition lit_typed (lex dt : list Z) : RdfLiteral := mkLiteral lex dt None.
Definition lit_lang (lex lang : list Z) : RdfLiteral := mkLiteral lex LANG_STRING (Some (to_ascii_lowercase lang)).

Inductive Term := Iri (s : list Z) | BlankNode (label : list Z) | Literal (l : RdfLiteral).

#[global] Instance RdfLiteral_eq_dec : EqDecision RdfLiteral.
Proof. solve_decision. Defined.
#[global] Instance Term_eq_dec : EqDecision Term.
Proof. solve_decision. Defined.

Definition term_sum (t : Term) : list Z + list Z + (list Z * list Z * option (list Z)) :=
  match t with
  | Iri s => inl (inl s)
  | BlankNode l => inl (inr l)
  | Literal l => inr (lexical l, datatype l, language l)
  end.
Definition sum_term (x : list Z + list Z + (list Z * list Z * option (list Z))) : Term :=
  match x with
  | inl (inl s) => Iri s
  | inl (inr l) => BlankNode l
  | inr (a, b, c) => Literal (mkLiteral a b c)
  end.
#[global] Instance Term_countable : Countable Term.
Proof. apply (inj_countable' term_sum sum_term). by intros [| |[]]. Defined.

(** ** The canonical encoding *)

Definition TAG_BLANK : Z := 1.
Definition TAG_IRI : Z := 2.
Definition TAG_LITERAL : Z := 3.

(** [(s.len() as u16).to_be_bytes()] followed by the bytes. *)
Definition put_str (b : list Z) : list Z := to_be 2 (wrap 16 (Z.of_nat (length b))) ++ b.

Definition term_encode (t : Term) : list Z :=
  match t with
  | BlankNode label => TAG_BLANK :: utf8_bytes label
  | Iri iri => TAG_IRI :: utf8_bytes iri
  | Literal lit =>
      TAG_LITERAL :: put_str (utf8_bytes (datatype lit)) ++
        put_str (utf8_bytes (default [] (language lit))) ++ utf8_bytes (lexical lit)
  end.

(** [buf.get(a..b)]. *)
Definition get_range (buf : list Z) (a b : nat) : option (list Z) :=
  if (b <=? length buf)%nat then Some (slice buf a b) else None.

Definition read_u16 (buf : list Z) (off : nat) : option (Z * nat) :=
  bytes ← get_range buf off (off + 2); Some (from_be bytes, (off + 2)%nat).
Definition read_str (buf : list Z) (off len : nat) : option (list Z * nat) :=
  bytes ← get_range buf off (off + len); s ← utf8_chars bytes; Some (s, (off + len)%nat).

Definition term_decode (bytes : list Z) : option Term :=
  match bytes with
  | [] => None
  | tag :: rest =>
      if tag =? TAG_BLANK then BlankNode <$> utf8_chars rest
      else if tag =? TAG_IRI then Iri <$> utf8_chars rest
      else if tag =? TAG_LITERAL then
        '(dt_len, off) ← read_u16 rest 0;
        '(dt, off) ← read_str rest off (Z.to_nat dt_len);
        '(lang_len, off) ← read_u16 rest off;
        '(lang, off) ← read_str rest off (Z.to_nat lang_len);
        lex ← utf8_chars (drop off rest);
        Some (Literal (mkLiteral lex dt (match lang with [] => None | _ => Some lang end)))
      else None
  end.

(** ** N-Triples rendering *)

Definition escape_char (c : Z) : list Z :=
  if c =? 0x5C then [0x5C; 0x5C]
  else if c =? 0x22 then [0x5C; 0x22]
  else if c =? 0x0A then [0x5C; 0x6E]
  else if c =? 0x0D then [0x5C; 0x72]
  else if c =? 0x09 then [0x5C; 0x74]
  else [c].
Definition escape_literal (s : list Z) : list Z := s ≫= escape_char.

Definition to_n_triples (t : Term) : list Z :=
  match t with
  | Iri iri => [0x3C] ++ iri ++ [0x3E]
  | BlankNode label => [0x5F; 0x3A] ++ label
  | Literal lit =>
      let escaped := [0x22] ++ escape_literal (lexical lit) ++ [0x22] in
      match language lit with
      | Some lang => escaped ++ [0x40] ++ lang
      | None =>
          if bool_decide (datatype lit = XSD_STRING) then escaped
          else escaped ++ [0x5E; 0x5E; 0x3C] ++ datatype lit ++ [0x3E]
      end
  end.

(** ** Triples, quads and the stored records *)

Record Triple := mkTriple { subject : Term; predicate : Term; object : Term }.
Record Quad := mkQuad { q_triple : Triple; q_graph : option Term }.
Definition quad_of (t : Triple) : Quad := mkQuad t None.

#[global] Instance Triple_eq_dec : EqDecision Triple.
Proof. solve_decision. Defined.
#[global] Instance Quad_eq_dec : EqDecision Quad.
Proof. solve_decision. Defined.
#[global] Instance Triple_countable : Countable Triple.
Proof. apply (inj_countable' (fun t => (subject t, predicate t, object t)) (fun '(a, b, c) => mkTriple a b c)). by intros []. Defined.
#[global] Instance Quad_countable : Countable Quad.
Proof. apply (inj_countable' (fun q => (q_triple q, q_graph q)) (fun '(a, b) => mkQuad a b)). by intros []. Defined.

Definition RDF_TERM_RECORD_MAGIC : Z := 0xD1.
Definition RDF_TRIPLE_RECORD_MAGIC : Z := 0xD2.

Record TermRecord := mkTermRecord { tr_id : Z; tr_term : Term }.

Definition term_record_encode (r : TermRecord) : list Z :=
  RDF_TERM_RECORD_MAGIC :: to_be 8 (tr_id r) ++ term_encode (tr_term r).

Definition term_record_decode (bytes : list Z) : option TermRecord :=
  match bytes with
  | [] => None
  | magic :: rest =>
      if negb (magic =? RDF_TERM_RECORD_MAGIC) then None else
      id_bytes ← get_range rest 0 8;
      t ← term_decode (drop 8 rest);
      Some (mkTermRecord (from_be id_bytes) t)
  end.

(** [(subject, predicate, object, graph)]; graph 0 is the default graph. *)
Definition QuadIds : Type := Z * Z * Z * Z.

Record TripleRecord := mkTripleRecord { tp_s : Z; tp_p : Z; tp_o : Z; tp_g : Z }.
Definition TRIPLE_SIZE : nat := 33.
Definition is_default_graph (r : TripleRecord) : bool := tp_g r =? 0.

Definition triple_record_encode (r : TripleRecord) : list Z :=
  RDF_TRIPLE_RECORD_MAGIC :: to_be 8 (tp_s r) ++ to_be 8 (tp_p r) ++ to_be 8 (tp_o r) ++ to_be 8 (tp_g r).

Definition triple_record_decode (bytes : list Z) : option TripleRecord :=
  if negb (length bytes =? TRIPLE_SIZE)%nat then None
  else if negb (default 0 (head bytes) =? RDF_TRIPLE_RECORD_MAGIC) then None
  else Some (mkTripleRecord (from_be (slice bytes 1 9)) (from_be (slice bytes 9 17))
               (from_be (slice bytes 17 25)) (from_be (slice bytes 25 33))).

(** ** The dictionary *)

Record TermDictionary := mkDict { term_to_id : gmap Term Z; id_to_term : gmap Z Term; d_next_id : Z }.

Definition dict_new : TermDictionary := mkDict ∅ ∅ 1.
Definition id_of (d : TermDictionary) (t : Term) : option Z := term_to_id d !! t.
Definition term_of (d : TermDictionary) (i : Z) : option Term := id_to_term d !! i.
Definition dict_len (d : TermDictionary) : nat := size (term_to_id d).

(** [next_id += 1] wraps in a release build. *)
Definition intern (d : TermDictionary) (t : Term) : (Z * bool) * TermDictionary :=
  match term_to_id d !! t with
  | Some id => ((id, false), d)
  | None =>
      let id := d_next_id d in
      ((id, true), mkDict (<[t := id]> (term_to_id d)) (<[id := t]> (id_to_term d)) (wrap 64 (id + 1)))
  end.

Definition reinsert (d : TermDictionary) (id : Z) (t : Term) : TermDictionary :=
  mkDict (<[t := id]> (term_to_id d)) (<[id := t]> (id_to_term d))
    (if d_next_id d <=? id then wrap 64 (id + 1) else d_next_id d).

(** ** The codec's round trips *)

(** A string whose length fits the 16-bit prefix. *)
Definition short_text (s : list Z) : Prop := is_text s /\ (length (utf8_bytes s) < Z.to_nat 65536)%nat.

(** Terms the encoding keeps apart: lengths that fit, and no empty tag. *)
Definition term_ok (t : Term) : Prop :=
  match t with
  | Iri s | BlankNode s => is_text s
  | Literal l =>
      is_text (lexical l) /\ short_text (datatype l) /\ short_text (default [] (language l)) /\ language l ≠ Some []
  end.

Lemma get_range_mid (pre x rest : list Z) a b : a = length pre -> b = (length pre + length x)%nat ->
  get_range (pre ++ x ++ rest) a b = Some x.
Proof.
  intros -> ->. unfold get_range. rewrite !length_app. rewrite (proj2 (Nat.leb_le _ _)) by lia.
  rewrite slice_skip by lia. rewrite Nat.sub_diag. rewrite slice_here by lia. done.
Qed.

Lemma put_str_read (pre rest s : list Z) : short_text s ->
  let buf := pre ++ put_str (utf8_bytes s) ++ rest in
  read_u16 buf (length pre) = Some (Z.of_nat (length (utf8_bytes s)), (length pre + 2)%nat) /\
  read_str buf (length pre + 2) (length (utf8_bytes s)) = Some (s, length (pre ++ put_str (utf8_bytes s))).
Proof.
  intros [Ht Hl] buf. unfold buf, put_str, read_u16, read_str.
  assert (wrap 16 (Z.of_nat (length (utf8_bytes s))) = Z.of_nat (length (utf8_bytes s))) as -> by (apply wrap_id; unfold uint; lia).
  rewrite <- app_assoc. split.
  - rewrite get_range_mid by (rewrite ?length_to_be; lia). cbn [mbind option_bind]. rewrite from_to_be_id; [done|unfold uint; lia].
  - rewrite (app_assoc pre). rewrite get_range_mid by (rewrite length_app, length_to_be; lia). cbn [mbind option_bind].
    rewrite utf8_chars_bytes by done. cbn [mbind option_bind]. do 2 f_equal. rewrite !length_app, length_to_be. lia.
Qed.

Lemma term_roundtrip t : term_ok t -> term_decode (term_encode t) = Some t.
Proof.
  destruct t as [s|s|[lex dt lang]]; intros Hok; cbn [term_encode term_decode].
  - change (TAG_IRI =? TAG_BLANK) with false. change (TAG_IRI =? TAG_IRI) with true. cbn iota. by rewrite utf8_chars_bytes.
  - change (TAG_BLANK =? TAG_BLANK) with true. cbn iota. by rewrite utf8_chars_bytes.
  - destruct Hok as (Hx & Hd & Hg & Hne). cbn [lexical datatype language] in *.
    change (TAG_LITERAL =? TAG_BLANK) with false. change (TAG_LITERAL =? TAG_IRI) with false. change (TAG_LITERAL =? TAG_LITERAL) with true.
    cbn iota. set (g := default [] lang) in *.
    destruct (put_str_read [] (put_str (utf8_bytes g) ++ utf8_bytes lex) dt Hd) as [E1 E2]. cbn [length app Nat.add] in E1, E2.
    rewrite E1. cbn [mbind option_bind]. rewrite Nat2Z.id. rewrite E2. cbn [mbind option_bind].
    destruct (put_str_read (put_str (utf8_bytes dt)) (utf8_bytes lex) g Hg) as [E3 E4].
    rewrite E3. cbn [mbind option_bind]. rewrite Nat2Z.id, E4. cbn [mbind option_bind].
    rewrite app_assoc, drop_app_length, utf8_chars_bytes by done. cbn [mbind option_bind]. do 3 f_equal.
    unfold g. destruct lang as [[|c l]|]; simpl; [by destruct Hne|done|done].
Qed.

Lemma get_range_inv buf a b x : get_range buf a b = Some x -> (b <= length buf)%nat /\ x = slice buf a b.
Proof. unfold get_range. destruct (Nat.leb_spec b (length buf)); [|done]. by intros [= <-]. Qed.

(** What was read as a string is where [put_str] would have put it. *)
Lemma read_put_str buf off n off1 s off2 : bytes_ok buf ->
  read_u16 buf off = Some (n, off1) -> read_str buf off1 (Z.to_nat n) = Some (s, off2) ->
  short_text s /\ slice buf off off2 = put_str (utf8_bytes s) /\ (off <= off2 <= length buf)%nat.
Proof.
  unfold read_u16, read_str. intros Hb H1 H2.
  destruct (get_range buf off (off + 2)) as [x|] eqn:E1; [|done]. injection H1 as <- <-.
  apply get_range_inv in E1 as [L1 ->]. set (lb := slice buf off (off + 2)) in *.
  destruct (get_range buf (off + 2) (off + 2 + Z.to_nat (from_be lb))) as [y|] eqn:E2; [|done]. cbn [mbind option_bind] in H2.
  apply get_range_inv in E2 as [L2 ->]. set (sb := slice buf (off + 2) _) in *.
  destruct (utf8_chars sb) as [s'|] eqn:E3; [|done]. injection H2 as <- <-.
  destruct (utf8_chars_inv sb s' (bytes_ok_slice _ _ _ Hb) E3) as [Ht Eb].
  assert (length lb = 2)%nat as Ll by (unfold lb; rewrite length_slice; lia).
  pose proof (from_be_range lb (bytes_ok_slice _ _ _ Hb)) as R. rewrite Ll in R. change (256 ^ Z.of_nat 2) with 65536 in R.
  assert (length sb = Z.to_nat (from_be lb)) as Ls by (unfold sb; rewrite length_slice; lia).
  split_and!; [| |lia..].
  - split; [done|]. rewrite Eb, Ls. lia.
  - rewrite Eb. unfold put_str. rewrite wrap_id by (unfold uint; lia). rewrite Ls, Z2Nat.id by lia.
    destruct (from_be_fixed 2 lb (bytes_ok_slice _ _ _ Hb) Ll) as [_ ->]. unfold lb, sb. rewrite slice_glue by lia. done.
Qed.

Lemma term_decode_inv b t : bytes_ok b -> term_decode b = Some t -> term_ok t /\ term_encode t = b.
Proof.
  intros Hb H. destruct b as [|tag rest]; [done|]. apply Forall_cons in Hb as [_ Hb]. cbn [term_decode] in H.
  destruct (Z.eqb_spec tag TAG_BLANK) as [->|_].
  { apply fmap_Some in H as (s & E & ->). destruct (utf8_chars_inv _ _ Hb E) as [Ht <-]. done. }
  destruct (Z.eqb_spec tag TAG_IRI) as [->|_].
  { apply fmap_Some in H as (s & E & ->). destruct (utf8_chars_inv _ _ Hb E) as [Ht <-]. done. }
  destruct (Z.eqb_spec tag TAG_LITERAL) as [->|_]; [|done].
  destruct (read_u16 rest 0) as [[n1 o1]|] eqn:E1; [|done]. cbn [mbind option_bind] in H.
  destruct (read_str rest o1 _) as [[dt o2]|] eqn:E2; [|done]. cbn [mbind option_bind] in H.
  destruct (read_u16 rest o2) as [[n3 o3]|] eqn:E3; [|done]. cbn [mbind option_bind] in H.
  destruct (read_str rest o3 _) as [[lang o4]|] eqn:E4; [|done]. cbn [mbind option_bind] in H.
  destruct (utf8_chars (drop o4 rest)) as [lex|] eqn:E5; [|done]. injection H as <-.
  destruct (read_put_str rest 0 n1 o1 dt o2 Hb E1 E2) as (Hd & S1 & R1).
  destruct (read_put_str rest o2 n3 o3 lang o4 Hb E3 E4) as (Hl & S2 & R2).
  destruct (utf8_chars_inv _ _ (bytes_ok_drop _ _ Hb) E5) as [Hx Ex].
  assert (default [] (match lang with [] => None | _ => Some lang end) = lang) as Eg by (by destruct lang).
  split.
  - cbn [term_ok lexical datatype language]. rewrite Eg. split_and!; try done. by destruct lang.
  - cbn [term_encode lexical datatype language]. rewrite Eg, <- S1, <- S2, Ex. f_equal.
    rewrite app_assoc, slice_glue by lia. unfold slice. rewrite Nat.sub_0_r, drop_0. apply take_drop.
Qed.

Definition term_record_ok (r : TermRecord) : Prop := is_u64 (tr_id r) /\ term_ok (tr_term r).
Definition triple_record_ok (r : TripleRecord) : Prop :=
  is_u64 (tp_s r) /\ is_u64 (tp_p r) /\ is_u64 (tp_o r) /\ is_u64 (tp_g r).

Lemma term_record_roundtrip r : term_record_ok r -> term_record_decode (term_record_encode r) = Some r.
Proof.
  destruct r as [i t]. intros [Hi Ht]. cbn [term_record_encode term_record_decode tr_id tr_term].
  change (negb (RDF_TERM_RECORD_MAGIC =? RDF_TERM_RECORD_MAGIC)) with false. cbn iota.
  rewrite (get_range_mid [] (to_be 8 i) (term_encode t)) by (rewrite ?length_to_be; done). cbn [mbind option_bind].
  rewrite drop_app_length' by (by rewrite length_to_be). rewrite term_roundtrip by done. cbn [mbind option_bind].
  by rewrite from_to_be_id.
Qed.

Lemma triple_record_roundtrip r : triple_record_ok r -> triple_record_decode (triple_record_encode r) = Some r.
Proof.
  destruct r as [s p o g]. intros (Hs & Hp & Ho & Hg). cbn [tp_s tp_p tp_o tp_g] in *. unfold triple_record_decode.
  assert (length (triple_record_encode (mkTripleRecord s p o g)) = TRIPLE_SIZE) as ->
    by (cbn [triple_record_encode length]; by rewrite !length_app, !length_to_be).
  rewrite Nat.eqb_refl. cbn [negb triple_record_encode head default]. rewrite Z.eqb_refl. cbn [negb tp_s tp_p tp_o tp_g].
  assert (triple_record_encode (mkTripleRecord s p o g) =
    [RDF_TRIPLE_RECORD_MAGIC] ++ to_be 8 s ++ to_be 8 p ++ to_be 8 o ++ to_be 8 g ++ []) as -> by (by rewrite app_nil_r).
  do 2 f_equal; field_slice; by rewrite from_to_be_id.
Qed.

Lemma term_record_inv b r : bytes_ok b -> term_record_decode b = Some r -> term_record_ok r /\ term_record_encode r = b.
Proof.
  intros Hb H. destruct b as [|magic rest]; [done|]. apply Forall_cons in Hb as [_ Hb]. cbn [term_record_decode] in H.
  destruct (Z.eqb_spec magic RDF_TERM_RECORD_MAGIC) as [->|]; [|done]. cbn [negb] in H.
  destruct (get_range rest 0 8) as [x|] eqn:E; [|done]. cbn [mbind option_bind] in H. apply get_range_inv in E as [L ->].
  destruct (term_decode (drop 8 rest)) as [t|] eqn:Et; [|done]. injection H as <-.
  destruct (term_decode_inv _ _ (bytes_ok_drop _ _ Hb) Et) as [Hok Ee].
  destruct (from_be_fixed 8 (slice rest 0 8)) as [H8 E8]; [by apply bytes_ok_slice|rewrite length_slice; lia|].
  split; [by split|]. unfold term_record_encode. cbn [tr_id tr_term]. rewrite E8, Ee. f_equal. unfold slice. rewrite drop_0. apply take_drop.
Qed.

Lemma triple_record_inv b r : bytes_ok b -> triple_record_decode b = Some r ->
  triple_record_ok r /\ triple_record_encode r = b.
Proof.
  unfold triple_record_decode. intros Hb H. destruct (Nat.eqb_spec (length b) TRIPLE_SIZE) as [L|]; [|done]. cbn [negb] in H.
  destruct b as [|m b]; [done|]. change (default 0 (head (m :: b))) with m in H. destruct (Z.eqb_spec m RDF_TRIPLE_RECORD_MAGIC) as [->|]; [|done].
  injection H as <-. unfold TRIPLE_SIZE in L.
  assert (forall i j, (i + 8 = j)%nat -> (j <= 33)%nat ->
    is_u64 (from_be (slice (RDF_TRIPLE_RECORD_MAGIC :: b) i j)) /\
    to_be 8 (from_be (slice (RDF_TRIPLE_RECORD_MAGIC :: b) i j)) = slice (RDF_TRIPLE_RECORD_MAGIC :: b) i j) as Hf.
  { intros i j Hij Hj. apply (from_be_fixed 8); [by apply bytes_ok_slice|rewrite length_slice; lia]. }
  destruct (Hf 1 9 eq_refl)%nat as [R1 E1]; [lia|]. destruct (Hf 9 17 eq_refl)%nat as [R2 E2]; [lia|].
  destruct (Hf 17 25 eq_refl)%nat as [R3 E3]; [lia|]. destruct (Hf 25 33 eq_refl)%nat as [R4 E4]; [lia|].
  split; [done|]. unfold triple_record_encode. cbn [tp_s tp_p tp_o tp_g].
  rewrite E1, E2, E3, E4, !slice_glue by lia. unfold slice. cbn [drop]. f_equal.
  rewrite drop_0, take_ge; [done|]. simpl in L. lia.
Qed.

(** C17: The RDF codecs are lossless: a term whose length prefixes fit and whose
    language tag is not empty decodes to itself, term and triple records read
    back as written, whatever bytes decode are the encoding of their result,
    and so two such terms have equal encodings only when they are equal. *)
Theorem rdf_codec_roundtrip :
  (forall t, term_ok t -> term_decode (term_encode t) = Some t) /\
  (forall b t, bytes_ok b -> term_decode b = Some t -> term_ok t /\ term_encode t = b) /\
  (forall t u, term_ok t -> term_ok u -> term_encode t = term_encode u -> t = u) /\
  (forall r, term_record_ok r -> term_record_decode (term_record_encode r) = Some r) /\
  (forall b r, bytes_ok b -> term_record_decode b = Some r -> term_record_ok r /\ term_record_encode r = b) /\
  (forall r, triple_record_ok r -> triple_record_decode (triple_record_encode r) = Some r) /\
  (forall b r, bytes_ok b -> triple_record_decode b = Some r -> triple_record_ok r /\ triple_record_encode r = b).
Proof.
  split_and!; [apply term_roundtrip|apply term_decode_inv| |apply term_record_roundtrip|apply term_record_inv
              |apply triple_record_roundtrip|apply triple_record_inv].
  intros t u Ht Hu E. apply (inj Some). by rewrite <- !term_roundtrip, E.
Qed.

(** The encoding is documented as injective; an empty language tag and no tag
    share it. *)
Lemma empty_tag_not_injective lex dt :
  Literal (mkLiteral lex dt (Some [])) ≠ Literal (mkLiteral lex dt None) /\
  term_encode (Literal (mkLiteral lex dt (Some []))) = term_encode (Literal (mkLiteral lex dt None)).
Proof. done. Qed.

(** ** The dictionary's invariant *)

Record dict_ok (d : TermDictionary) : Prop := {
  dk_inverse t i : id_of d t = Some i <-> term_of d i = Some t;
  dk_range t i : id_of d t = Some i -> 1 <= i < d_next_id d;
  dk_next : 1 <= d_next_id d
}.

Lemma dict_new_ok : dict_ok dict_new.
Proof. split; [intros t i; unfold id_of, term_of; simpl; by rewrite !lookup_empty|intros t i; unfold id_of; simpl; by rewrite lookup_empty|done]. Qed.

Lemma id_of_inj d t u i : dict_ok d -> id_of d t = Some i -> id_of d u = Some i -> t = u.
Proof. intros [Hi _ _] Ht%Hi Hu%Hi. congruence. Qed.

(** What interning does: the term gets an id that is its own and was nobody
    else's; all other terms keep theirs. *)
Record interned (d : TermDictionary) (t : Term) (i : Z) (fresh : bool) (d' : TermDictionary) : Prop := {
  in_ok : dict_ok d';
  in_id : id_of d' t = Some i;
  in_fresh : if fresh then id_of d t = None /\ i = d_next_id d else d' = d;
  in_next : d_next_id d' = if fresh then d_next_id d + 1 else d_next_id d;
  in_others u : u ≠ t -> id_of d' u = id_of d u
}.

Lemma intern_spec d t : dict_ok d -> d_next_id d < 2 ^ 64 - 1 ->
  exists i fresh d', intern d t = ((i, fresh), d') /\ interned d t i fresh d'.
Proof.
  intros [Hi Hr Hp] Hn. unfold intern. destruct (term_to_id d !! t) as [i|] eqn:E; eexists _, _, _; (split; [done|]).
  - by split.
  - assert (wrap 64 (d_next_id d + 1) = d_next_id d + 1) as Ew by (apply wrap_id; unfold uint; lia).
    assert (id_to_term d !! d_next_id d = None) as Ef.
    { destruct (id_to_term d !! d_next_id d) as [u|] eqn:Eu; [|done].
      pose proof (Hr u (d_next_id d) (proj2 (Hi _ _) Eu)). lia. }
    rewrite Ew. split; simpl.
    + split; unfold id_of, term_of in *; simpl.
      * intros u j. rewrite !lookup_insert_Some. split.
        -- intros [[-> ->]|[Hne Hj]]; [by left|]. right. split; [|by apply Hi]. intros <-. pose proof (Hr u (d_next_id d) Hj). lia.
        -- intros [[-> ->]|[Hne Hj]]; [by left|]. right. apply Hi in Hj. split; [congruence|done].
      * intros u j. rewrite lookup_insert_Some. intros [[-> <-]|[_ Hj]]; [lia|]. pose proof (Hr u j Hj). lia.
      * lia.
    + unfold id_of. simpl. by rewrite lookup_insert_eq.
    + done.
    + done.
    + intros u Hu. unfold id_of. simpl. by rewrite lookup_insert_ne.
Qed.

(** ** Replaying the entries of a dictionary *)

Definition reinsert_all (es : list (Z * Term)) (d : TermDictionary) : TermDictionary :=
  foldl (fun d e => reinsert d e.1 e.2) d es.

(** The part of a dictionary replayed so far. *)
Record replayed (full d : TermDictionary) (es : list (Z * Term)) : Prop := {
  rp_id t i : id_of d t = Some i <-> id_of full t = Some i /\ (i, t) ∈ es;
  rp_term t i : term_of d i = Some t <-> id_of full t = Some i /\ (i, t) ∈ es;
  rp_next : d_next_id d <= d_next_id full /\ 1 <= d_next_id d /\ forall i t, (i, t) ∈ es -> i < d_next_id d
}.

Lemma reinsert_replayed full d es i t : dict_ok full -> d_next_id full < 2 ^ 64 -> id_of full t = Some i ->
  replayed full d es -> replayed full (reinsert d i t) (es ++ [(i, t)]).
Proof.
  intros [Hi Hr Hp] Hn Ht [H1 H2 (H3 & H4 & H5)]. pose proof (Hr t i Ht) as Hti. split.
  - intros u j. unfold id_of at 1. simpl. rewrite lookup_insert_Some, elem_of_app, list_elem_of_singleton. split.
    + intros [[-> ->]|[Hne Hj]]; [by split; [|right]|]. apply H1 in Hj as [? ?]. by split; [|left].
    + intros [Hu [He|[= -> ->]]]; [|by left]. destruct (decide (t = u)) as [->|Hne]; [left; split; [done|]; congruence|].
      right. split; [done|]. by apply H1.
  - intros u j. unfold term_of. simpl. rewrite lookup_insert_Some, elem_of_app, list_elem_of_singleton. split.
    + intros [[-> ->]|[Hne Hj]]; [by split; [|right]|]. apply H2 in Hj as [? ?]. by split; [|left].
    + intros [Hu [He|[= -> ->]]]; [|by left]. destruct (decide (i = j)) as [->|Hne].
      * left. split; [done|]. apply Hi in Hu, Ht. congruence.
      * right. split; [done|]. by apply H2.
  - simpl. destruct (Z.leb_spec (d_next_id d) i).
    + rewrite wrap_id by (unfold uint; lia). split_and!; [lia|lia|]. intros j u [He|Heq]%elem_of_app.
      * specialize (H5 _ _ He). lia.
      * apply list_elem_of_singleton in Heq as [= -> ->]. lia.
    + split_and!; [lia|lia|]. intros j u [He|Heq]%elem_of_app; [by eapply H5|].
      apply list_elem_of_singleton in Heq as [= -> ->]. lia.
Qed.

Lemma reinsert_all_spec full es : dict_ok full -> d_next_id full < 2 ^ 64 ->
  Forall (fun e => id_of full e.2 = Some e.1) es -> replayed full (reinsert_all es dict_new) es.
Proof.
  intros Hf Hn. induction es as [|[i t] es IH] using rev_ind; intros Hes.
  - split; simpl.
    + intros u j. unfold id_of at 1. simpl. rewrite lookup_empty, elem_of_nil. naive_solver.
    + intros u j. unfold term_of. simpl. rewrite lookup_empty, elem_of_nil. naive_solver.
    + split_and!; [apply Hf|lia|]. intros ?? []%elem_of_nil.
  - apply Forall_app in Hes as [Hes Ht]. rewrite Forall_singleton in Ht. unfold reinsert_all. rewrite foldl_app. simpl.
    apply reinsert_replayed; [done|done|exact Ht|by apply IH].
Qed.

(** Replaying at least all entries, in any order and with repetitions, rebuilds
    the maps. *)
Lemma reinsert_all_restores full es : dict_ok full -> d_next_id full < 2 ^ 64 ->
  (forall i t, (i, t) ∈ es <-> id_of full t = Some i) ->
  term_to_id (reinsert_all es dict_new) = term_to_id full /\ id_to_term (reinsert_all es dict_new) = id_to_term full.
Proof.
  intros Hf Hn Hes. destruct (reinsert_all_spec full es Hf Hn) as [H1 H2 _].
  { apply Forall_forall. intros [i t] He. by apply Hes. }
  split; apply map_eq; intros x; apply option_eq; intros y.
  - specialize (H1 x y). unfold id_of in *. rewrite H1, Hes. unfold id_of. tauto.
  - specialize (H2 y x). unfold term_of in *. rewrite H2, Hes. destruct Hf as [Hi _ _]. unfold id_of, term_of in *. rewrite Hi. tauto.
Qed.
