(* ===== verification/Turtle.v ===== *)
(** * Turtle import and export ([src/cli/turtle.rs])

    The recursive-descent parser over the characters still to be read, with its
    prefix map and base, and the serialiser.  A parser returns its value and
    the state after it, or the error that ends the import; [None] is a loop
    that ran out of fuel, which [parse_turtle_total] excludes. *)

From stdpp Require Import prelude list gmap strings.
From Stdlib Require Import ZArith Lia.
From S2P Require Import Prelude Bytes GraphRecord Text RdfTerm.

(** ** State and errors *)

Record TurtleParser := mkParser { rest : list Z; prefixes : gmap (list Z) (list Z); base : option (list Z) }.

(** The messages of [CliError::Parse]. *)
Inductive ParseError :=
| UnknownDirective (word : list Z)
| ExpectedSeparator (found : option Z)
| NotSupported
| UnexpectedChar (found : option Z)
| MissingLabel
| UndefinedPrefix (prefix : list Z)
| EmptyLangTag
| UnterminatedIriEscape
| UnterminatedIri
| NewlineInString
| UnterminatedString
| UnterminatedLongString
| InvalidEscape (c : Z)
| UnterminatedEscape
| TruncatedUnicode
| InvalidHex (c : Z)
| InvalidCodePoint (code : Z)
| Expected (c : Z) (found : option Z).

Definition Parser (A : Type) : Type := TurtleParser -> option (result (A * TurtleParser) ParseError).

#[global] Instance Parser_ret : MRet Parser := fun A a p => Some (Ok (a, p)).
#[global] Instance Parser_bind : MBind Parser := fun A B k m p =>
  match m p with
  | Some (Ok (a, p1)) => k a p1
  | Some (Err e) => Some (Err e)
  | None => None
  end.
Definition fail {A} (e : ParseError) : Parser A := fun _ => Some (Err e).
Definition stuck {A} : Parser A := fun _ => None.
Definition or_fail {A} (o : option A) (e : ParseError) : Parser A := match o with Some a => mret a | None => fail e end.

(** ** Cursor *)

Definition set_rest (p : TurtleParser) (l : list Z) : TurtleParser := mkParser l (prefixes p) (base p).
Definition at_end : Parser bool := fun p => Some (Ok (match rest p with [] => true | _ => false end, p)).
Definition peek_at (n : nat) : Parser (option Z) := fun p => Some (Ok (rest p !! n, p)).
Definition peek : Parser (option Z) := peek_at 0.
Definition next_char : Parser (option Z) := fun p =>
  match rest p with [] => Some (Ok (None, p)) | c :: l => Some (Ok (Some c, set_rest p l)) end.
Definition advance (n : nat) : Parser unit := fun p => Some (Ok (tt, set_rest p (drop n (rest p)))).
Definition expect (c : Z) : Parser unit :=
  found ← next_char;
  if bool_decide (found = Some c) then mret tt else fail (Expected c found).

(** Reads the longest prefix that [f] accepts: [f] sees a character and what
    follows it. *)
Fixpoint span_with (f : Z -> list Z -> bool) (l : list Z) : list Z * list Z :=
  match l with
  | [] => ([], [])
  | c :: l1 => if f c l1 then let '(a, b) := span_with f l1 in (c :: a, b) else ([], l)
  end.
Definition read_while (f : Z -> list Z -> bool) : Parser (list Z) := fun p =>
  let '(a, b) := span_with f (rest p) in Some (Ok (a, set_rest p b)).

(** [skip_ws]; [comment] is inside a [#] comment. *)
Fixpoint skip_blank (comment : bool) (l : list Z) : list Z :=
  match l with
  | [] => []
  | c :: l1 =>
      if comment then skip_blank (negb (c =? 0x0A)) l1
      else if is_whitespace c then skip_blank false l1
      else if c =? 0x23 then skip_blank true l1
      else l
  end.
Definition skip_ws : Parser unit := fun p => Some (Ok (tt, set_rest p (skip_blank false (rest p)))).
Definition skip_inline_ws : Parser unit := _ ← read_while (fun c _ => (c =? 0x20) || (c =? 0x09)); mret tt.

(** ** Names *)

Definition is_pname_start (c : Z) : bool := is_ascii_alphabetic c || (c =? 0x5F) || negb (is_ascii c).
Definition is_pname_char (c : Z) : bool := is_ascii_alphanumeric c || (c =? 0x5F) || (c =? 0x2D) || negb (is_ascii c).

Definition pname_next (l : list Z) : bool := match l with c :: _ => is_pname_char c | [] => false end.

Definition read_lang_tag : Parser (list Z) :=
  tag ← read_while (fun c _ => is_ascii_alphanumeric c || (c =? 0x2D)); mret (to_ascii_lowercase tag).
Definition read_pname_prefix : Parser (list Z) :=
  read_while (fun c _ => negb ((c =? 0x3A) || is_whitespace c) && is_pname_char c).
Definition local_char (c : Z) (l : list Z) : bool :=
  (is_pname_char c || (c =? 0x2E)) && negb ((c =? 0x2E) && negb (pname_next l)).
Definition read_pname_local : Parser (list Z) := read_while local_char.
Definition read_bare_word : Parser (list Z) := read_while (fun c _ => is_ascii_alphabetic c).
Definition read_prefix_label : Parser (list Z) := prefix ← read_pname_prefix; _ ← expect 0x3A; mret prefix.

Definition looks_like_directive : Parser bool := fun p =>
  let word := to_ascii_lowercase (span_with (fun c _ => is_ascii_alphabetic c) (rest p)).1 in
  Some (Ok (bool_decide (word = text "prefix") || bool_decide (word = text "base"), p)).

(** ** Escapes and IRIs *)

Fixpoint read_hex (n : nat) (code : Z) : Parser Z :=
  match n with
  | O => mret code
  | S n =>
      c ← next_char;
      c ← or_fail c TruncatedUnicode;
      digit ← or_fail (hex_digit c) (InvalidHex c);
      read_hex n (wrap 32 (wrap 32 (code * 16) + digit))
  end.
Definition read_unicode_escape (n : nat) : Parser Z :=
  code ← read_hex n 0; or_fail (char_from_u32 code) (InvalidCodePoint code).

Definition is_absolute_iri (iri : list Z) : bool :=
  let '(before, after) := span_with (fun c _ => negb (c =? 0x3A)) iri in
  match after, before with
  | _ :: _, c :: _ =>
      forallb (fun c => is_ascii_alphanumeric c || (c =? 0x2B) || (c =? 0x2D) || (c =? 0x2E)) before &&
      is_ascii_alphabetic c
  | _, _ => false
  end.
Definition resolve_iri (iri : list Z) : Parser (list Z) := fun p =>
  Some (Ok (match base p with
            | Some b => if is_absolute_iri iri then iri else b ++ iri
            | None => iri
            end, p)).

Fixpoint iri_loop (fuel : nat) (iri : list Z) : Parser (list Z) :=
  match fuel with
  | O => stuck
  | S fuel =>
      c ← next_char;
      match c with
      | None => fail UnterminatedIri
      | Some c =>
          if c =? 0x3E then mret iri
          else if c =? 0x5C then
            e ← next_char;
            match e with
            | None => fail UnterminatedIriEscape
            | Some e =>
                x ← (if e =? 0x75 then read_unicode_escape 4
                     else if e =? 0x55 then read_unicode_escape 8 else mret e);
                iri_loop fuel (iri ++ [x])
            end
          else iri_loop fuel (iri ++ [c])
      end
  end.

(** Enough for one step per character left. *)
Definition with_fuel {A} (f : nat -> Parser A) : Parser A := fun p => f (S (length (rest p))) p.

Definition read_iri_ref : Parser (list Z) := _ ← expect 0x3C; iri ← with_fuel (fun n => iri_loop n []); resolve_iri iri.

(** ** Strings *)

Definition read_string_escape : Parser Z :=
  c ← next_char;
  match c with
  | None => fail UnterminatedEscape
  | Some c =>
      if c =? 0x74 then mret 0x09
      else if c =? 0x6E then mret 0x0A
      else if c =? 0x72 then mret 0x0D
      else if c =? 0x62 then mret 0x08
      else if c =? 0x66 then mret 0x0C
      else if c =? 0x22 then mret 0x22
      else if c =? 0x27 then mret 0x27
      else if c =? 0x5C then mret 0x5C
      else if c =? 0x75 then read_unicode_escape 4
      else if c =? 0x55 then read_unicode_escape 8
      else fail (InvalidEscape c)
  end.

Fixpoint string_loop (fuel : nat) (quote : Z) (out : list Z) : Parser (list Z) :=
  match fuel with
  | O => stuck
  | S fuel =>
      c ← next_char;
      match c with
      | None => fail UnterminatedString
      | Some c =>
          if c =? quote then mret out
          else if c =? 0x5C then x ← read_string_escape; string_loop fuel quote (out ++ [x])
          else if c =? 0x0A then fail NewlineInString
          else string_loop fuel quote (out ++ [c])
      end
  end.

Definition at_triple (quote : Z) : Parser bool := fun p =>
  Some (Ok (bool_decide (take 3 (rest p) = [quote; quote; quote]), p)).

Fixpoint long_string_loop (fuel : nat) (quote : Z) (out : list Z) : Parser (list Z) :=
  match fuel with
  | O => stuck
  | S fuel =>
      closing ← at_triple quote;
      if closing : bool then _ ← advance 3; mret out else
      c ← next_char;
      match c with
      | None => fail UnterminatedLongString
      | Some c =>
          if c =? 0x5C then x ← read_string_escape; long_string_loop fuel quote (out ++ [x])
          else long_string_loop fuel quote (out ++ [c])
      end
  end.

Definition read_long_string (quote : Z) : Parser (list Z) := with_fuel (fun n => long_string_loop n quote []).
Definition read_quoted_string (quote : Z) : Parser (list Z) :=
  triple ← at_triple quote;
  if triple : bool then _ ← advance 3; read_long_string quote
  else _ ← expect quote; with_fuel (fun n => string_loop n quote []).

(** ** Terms *)

Definition lookup_prefix (prefix : list Z) : Parser (list Z) := fun p =>
  match prefixes p !! prefix with
  | Some ns => Some (Ok (ns, p))
  | None => Some (Err (UndefinedPrefix prefix))
  end.

Definition expand_name : Parser (list Z) :=
  prefix ← read_pname_prefix;
  _ ← expect 0x3A;
  local ← read_pname_local;
  ns ← lookup_prefix prefix;
  mret (ns ++ local).
Definition parse_prefixed_name : Parser Term := iri ← expand_name; mret (Iri iri).

Definition parse_blank_node : Parser Term :=
  _ ← expect 0x5F; _ ← expect 0x3A;
  label ← read_pname_local;
  match label with [] => fail MissingLabel | _ => mret (BlankNode label) end.

Definition parse_literal (quote : Z) : Parser Term :=
  lex ← read_quoted_string quote;
  _ ← skip_inline_ws;
  c ← peek;
  if bool_decide (c = Some 0x40) then
    _ ← advance 1;
    lang ← read_lang_tag;
    match lang with [] => fail EmptyLangTag | _ => mret (Literal (lit_lang lex lang)) end
  else if bool_decide (c = Some 0x5E) then
    _ ← expect 0x5E; _ ← expect 0x5E;
    _ ← skip_inline_ws;
    d ← peek;
    dt ← (if bool_decide (d = Some 0x3C) then read_iri_ref else expand_name);
    mret (Literal (lit_typed lex dt))
  else mret (Literal (lit_string lex)).

Fixpoint number (seen_dot seen_exp : bool) (l : list Z) : list Z * list Z * bool * bool :=
  match l with
  | [] => ([], [], seen_dot, seen_exp)
  | c :: l1 =>
      if is_ascii_digit c then let '(a, b, d, e) := number seen_dot seen_exp l1 in (c :: a, b, d, e)
      else if (c =? 0x2E) && negb seen_dot && negb seen_exp then
        let '(a, b, d, e) := number true seen_exp l1 in (c :: a, b, d, e)
      else if ((c =? 0x65) || (c =? 0x45)) && negb seen_exp then
        match l1 with
        | s :: l2 =>
            if (s =? 0x2B) || (s =? 0x2D)
            then let '(a, b, d, e) := number seen_dot true l2 in (c :: s :: a, b, d, e)
            else let '(a, b, d, e) := number seen_dot true l1 in (c :: a, b, d, e)
        | [] => ([c], [], seen_dot, true)
        end
      else ([], l, seen_dot, seen_exp)
  end.

Definition parse_numeric_literal : Parser Term := fun p =>
  let '(sign, l) := match rest p with
    | c :: l => if (c =? 0x2B) || (c =? 0x2D) then ([c], l) else ([], rest p)
    | [] => ([], []) end in
  let '(a, b, d, e) := number false false l in
  let dt := if e : bool then XSD_DOUBLE else if d : bool then XSD_DECIMAL else XSD_INTEGER in
  Some (Ok (Literal (lit_typed (sign ++ a) dt), set_rest p b)).

Definition parse_term : Parser Term :=
  _ ← skip_ws;
  c ← peek;
  match c with
  | None => fail (UnexpectedChar None)
  | Some c =>
      if c =? 0x3C then iri ← read_iri_ref; mret (Iri iri)
      else if c =? 0x5F then parse_blank_node
      else if (c =? 0x22) || (c =? 0x27) then parse_literal c
      else if (c =? 0x3A) || is_pname_start c then parse_prefixed_name
      else if is_ascii_digit c || (c =? 0x2B) || (c =? 0x2D) then parse_numeric_literal
      else if (c =? 0x28) || (c =? 0x5B) then fail NotSupported
      else fail (UnexpectedChar (Some c))
  end.

Definition RDF_TYPE : list Z := text "http://www.w3.org/1999/02/22-rdf-syntax-ns#type".

Definition parse_predicate : Parser Term :=
  _ ← skip_ws;
  c ← peek;
  next ← peek_at 1;
  if bool_decide (c = Some 0x61) && match next with None => true | Some n => is_whitespace n end
  then _ ← advance 1; mret (Iri RDF_TYPE)
  else parse_term.

(** ** Statements and directives *)

Fixpoint object_loop (fuel : nat) (s p : Term) (out : list Triple) : Parser (list Triple) :=
  match fuel with
  | O => stuck
  | S fuel =>
      _ ← skip_ws;
      o ← parse_term;
      let out := out ++ [mkTriple s p o] in
      _ ← skip_ws;
      c ← peek;
      if bool_decide (c = Some 0x2C) then _ ← advance 1; object_loop fuel s p out else mret out
  end.

Fixpoint predicate_loop (fuel : nat) (s : Term) (out : list Triple) : Parser (list Triple) :=
  match fuel with
  | O => stuck
  | S fuel =>
      _ ← skip_ws;
      p ← parse_predicate;
      out ← with_fuel (fun n => object_loop n s p out);
      _ ← skip_ws;
      c ← peek;
      if bool_decide (c = Some 0x3B) then
        _ ← advance 1;
        _ ← skip_ws;
        d ← peek;
        if bool_decide (d = Some 0x2E) then mret out else predicate_loop fuel s out
      else if bool_decide (c = Some 0x2E) then mret out
      else fail (ExpectedSeparator c)
  end.

Definition parse_statement (out : list Triple) : Parser (list Triple) :=
  s ← parse_term;
  out ← with_fuel (fun n => predicate_loop n s out);
  _ ← expect 0x2E;
  mret out.

Definition set_prefix (prefix iri : list Z) : Parser unit := fun p =>
  Some (Ok (tt, mkParser (rest p) (<[prefix := iri]> (prefixes p)) (base p))).
Definition set_base (iri : list Z) : Parser unit := fun p =>
  Some (Ok (tt, mkParser (rest p) (prefixes p) (Some iri))).

Definition directive_body (keyword : list Z) : Parser unit :=
  if bool_decide (keyword = text "prefix") then
    prefix ← read_prefix_label; _ ← skip_ws; iri ← read_iri_ref; set_prefix prefix iri
  else if bool_decide (keyword = text "base") then iri ← read_iri_ref; set_base iri
  else fail (UnknownDirective keyword).

Definition parse_directive : Parser unit :=
  c ← peek;
  _ ← (if bool_decide (c = Some 0x40) then advance 1 else mret tt);
  word ← read_bare_word;
  let keyword := to_ascii_lowercase word in
  _ ← skip_ws;
  _ ← directive_body keyword;
  _ ← skip_ws;
  d ← peek;
  if bool_decide (d = Some 0x2E) then advance 1 else mret tt.

Fixpoint parse_loop (fuel : nat) (triples : list Triple) : Parser (list Triple) :=
  match fuel with
  | O => stuck
  | S fuel =>
      _ ← skip_ws;
      done ← at_end;
      if done : bool then mret triples else
      c ← peek;
      directive ← looks_like_directive;
      if bool_decide (c = Some 0x40) || directive then _ ← parse_directive; parse_loop fuel triples
      else triples ← parse_statement triples; parse_loop fuel triples
  end.

Definition parse_turtle_triples (content : list Z) : option (result (list Triple) ParseError) :=
  match with_fuel (fun n => parse_loop n []) (mkParser content ∅ None) with
  | Some (Ok (ts, _)) => Some (Ok ts)
  | Some (Err e) => Some (Err e)
  | None => None
  end.

(** ** Export *)

Definition export_triple (t : Triple) : list Z :=
  to_n_triples (subject t) ++ [0x20] ++ to_n_triples (predicate t) ++ [0x20] ++ to_n_triples (object t) ++
  [0x20; 0x2E; 0x0A].
Definition export_turtle (ts : list Triple) : list Z := ts ≫= export_triple.

Module TurtleDemo.
Definition doc : list Z :=
  text "@prefix ex: <http://e/> . # people
ex:a a ex:P ; ex:k ex:b, _:x.y ; ex:n 4.5e1 ;. <u> ex:l 'hi'@EN-us , 12 .".
Example parse_doc : parse_turtle_triples doc = Some (Ok
  [mkTriple (Iri (text "http://e/a")) (Iri RDF_TYPE) (Iri (text "http://e/P"));
   mkTriple (Iri (text "http://e/a")) (Iri (text "http://e/k")) (Iri (text "http://e/b"));
   mkTriple (Iri (text "http://e/a")) (Iri (text "http://e/k")) (BlankNode (text "x.y"));
   mkTriple (Iri (text "http://e/a")) (Iri (text "http://e/n")) (Literal (lit_typed (text "4.5e1") XSD_DOUBLE));
   mkTriple (Iri (text "u")) (Iri (text "http://e/l")) (Literal (mkLiteral (text "hi") LANG_STRING (Some (text "en-us"))));
   mkTriple (Iri (text "u")) (Iri (text "http://e/l")) (Literal (lit_typed (text "12") XSD_INTEGER))]).
Proof. vm_compute. reflexivity. Qed.

(** The documented native boolean form is refused: a bare word is taken for a
    prefixed name. *)
Lemma native_boolean_rejected : parse_turtle_triples (text "<s> <p> true .") = Some (Err (Expected 0x3A (Some 0x20))).
Proof. vm_compute. reflexivity. Qed.

(** A prefix called [base] or [prefix] cannot start a statement: it is taken
    for a directive. *)
Lemma prefix_named_base_rejected :
  parse_turtle_triples (text "@prefix base: <http://e/> . base:a <p> <o> .") = Some (Err (Expected 0x3C (Some 0x3A))).
Proof. vm_compute. reflexivity. Qed.
End TurtleDemo.

(** ** Every input is parsed to the end *)

(** From [p] the parser ends, and when it succeeds it has read at least [k]
    characters. *)
Definition eats {A} (k : nat) (m : Parser A) (p : TurtleParser) : Prop :=
  match m p with
  | None => False
  | Some (Err _) => True
  | Some (Ok (_, p1)) => (length (rest p1) + k <= length (rest p))%nat
  end.

Lemma eats_bind {A B} j k (m : Parser A) (f : A -> Parser B) p : eats j m p ->
  (forall a p1, (length (rest p1) + j <= length (rest p))%nat -> eats (k - j) (f a) p1) -> eats k (m ≫= f) p.
Proof.
  unfold eats. intros Hm Hf. unfold mbind, Parser_bind. destruct (m p) as [[[a p1]|e]|]; [|done|done].
  specialize (Hf a p1 Hm). destruct (f a p1) as [[[b p2]|e]|]; try done. lia.
Qed.

(** As [eats_bind], when the continuation depends on what was found. *)
Lemma eats_bind_eq {A B} k (m : Parser A) (f : A -> Parser B) p a p1 : m p = Some (Ok (a, p1)) ->
  (length (rest p1) <= length (rest p))%nat -> eats (k - (length (rest p) - length (rest p1))) (f a) p1 ->
  eats k (m ≫= f) p.
Proof.
  unfold eats, mbind, Parser_bind. intros -> Hl. destruct (f a p1) as [[[b p2]|e]|]; try done. lia.
Qed.

Lemma eats_le {A} j k (m : Parser A) p : (k <= j)%nat -> eats j m p -> eats k m p.
Proof. unfold eats. intros Hk. destruct (m p) as [[[a p1]|e]|]; try done. lia. Qed.

Lemma eats_ret {A} (a : A) p : eats 0 (mret a) p.
Proof. unfold eats, mret, Parser_ret. lia. Qed.
Lemma eats_fail {A} k e p : eats k (fail (A := A) e) p.
Proof. done. Qed.
Lemma eats_or_fail {A} (o : option A) e p : eats 0 (or_fail o e) p.
Proof. destruct o; [apply eats_ret|apply eats_fail]. Qed.
Lemma eats_peek_at n p : eats 0 (peek_at n) p.
Proof. unfold eats, peek_at. lia. Qed.
Lemma eats_next p : eats 0 next_char p.
Proof. unfold eats, next_char. destruct (rest p) eqn:E; simpl; rewrite ?E; simpl; lia. Qed.
Lemma eats_advance n p : eats 0 (advance n) p.
Proof. unfold eats, advance. simpl. rewrite length_drop. lia. Qed.
Lemma eats_expect c p : eats 1 (expect c) p.
Proof.
  unfold eats, expect, mbind, Parser_bind, next_char. destruct (rest p) as [|x l] eqn:E; simpl; [done|].
  case_bool_decide; simpl; [lia|done].
Qed.
Lemma span_length f l : (length (span_with f l).1 + length (span_with f l).2 = length l)%nat.
Proof.
  induction l as [|c l IH]; simpl; [done|]. destruct (f c l); [|done].
  destruct (span_with f l) as [a b]. simpl in *. lia.
Qed.
Lemma eats_while f p : eats 0 (read_while f) p.
Proof.
  unfold eats, read_while. pose proof (span_length f (rest p)). destruct (span_with f (rest p)) as [a b]. simpl in *. lia.
Qed.
Lemma skip_blank_length c l : (length (skip_blank c l) <= length l)%nat.
Proof.
  revert c. induction l as [|x l IH]; intros c; simpl; [lia|].
  destruct c; [specialize (IH (negb (x =? 10))); lia|]. destruct (is_whitespace x); [specialize (IH false); lia|].
  destruct (x =? 35); [specialize (IH true); lia|]. simpl. lia.
Qed.
Lemma eats_skip_ws p : eats 0 skip_ws p.
Proof. unfold eats, skip_ws. simpl. pose proof (skip_blank_length false (rest p)). lia. Qed.
Lemma eats_at_end p : eats 0 at_end p.
Proof. unfold eats, at_end. lia. Qed.
Lemma eats_directive_ahead p : eats 0 looks_like_directive p.
Proof. unfold eats, looks_like_directive. lia. Qed.
Lemma eats_triple q p : eats 0 (at_triple q) p.
Proof. unfold eats, at_triple. lia. Qed.
Lemma eats_resolve iri p : eats 0 (resolve_iri iri) p.
Proof. unfold eats, resolve_iri. lia. Qed.
Lemma eats_lookup x p : eats 0 (lookup_prefix x) p.
Proof. unfold eats, lookup_prefix. destruct (prefixes p !! x); simpl; [lia|done]. Qed.
Lemma eats_set_prefix x y p : eats 0 (set_prefix x y) p.
Proof. unfold eats, set_prefix. simpl. lia. Qed.
Lemma eats_set_base x p : eats 0 (set_base x) p.
Proof. unfold eats, set_base. simpl. lia. Qed.
Lemma eats_fuel {A} k (f : nat -> Parser A) p :
  (forall n, (length (rest p) < n)%nat -> eats k (f n) p) -> eats k (with_fuel f) p.
Proof. intros H. unfold eats, with_fuel. apply H. lia. Qed.

Create HintDb turtle.
#[export] Hint Resolve eats_ret eats_fail eats_or_fail eats_peek_at eats_next eats_advance eats_expect eats_while
  eats_skip_ws eats_at_end eats_directive_ahead eats_triple eats_resolve eats_lookup eats_set_prefix eats_set_base : turtle.

(** Runs through a sequence of parsers; each step is closed by a hint. *)
Ltac eat :=
  repeat match goal with
  | |- eats _ (mbind _ (if ?b then _ else _)) _ => destruct b
  | |- eats _ (mbind _ ?m) _ =>
      first [ eapply (eats_bind 1); [solve [auto with turtle]|]
            | eapply (eats_bind 0); [solve [auto with turtle]|] ];
      intros ? ? ?; cbn beta
  | |- eats _ (if ?b then _ else _) _ => destruct b
  | |- eats _ (match ?o with Some _ => _ | None => _ end) _ => destruct o
  | |- eats _ (match ?l with [] => _ | _ :: _ => _ end) _ => destruct l
  | |- eats _ (let _ := _ in _) _ => cbv zeta
  end;
  try solve [auto with turtle | eapply eats_le; [|solve [auto with turtle]]; lia].

Lemma eats_skip_inline p : eats 0 skip_inline_ws p.
Proof. unfold skip_inline_ws. eat. Qed.
Lemma eats_lang p : eats 0 read_lang_tag p.
Proof. unfold read_lang_tag. eat. Qed.
Lemma eats_prefix p : eats 0 read_pname_prefix p.
Proof. apply eats_while. Qed.
Lemma eats_local p : eats 0 read_pname_local p.
Proof. apply eats_while. Qed.
Lemma eats_bare p : eats 0 read_bare_word p.
Proof. apply eats_while. Qed.
Lemma eats_peek p : eats 0 peek p.
Proof. apply eats_peek_at. Qed.
#[export] Hint Resolve eats_skip_inline eats_lang eats_prefix eats_local eats_bare eats_peek : turtle.
Lemma eats_prefix_label p : eats 0 read_prefix_label p.
Proof. unfold read_prefix_label. eat. Qed.
Lemma eats_hex n : forall code p, eats 0 (read_hex n code) p.
Proof. induction n as [|n IH]; intros code p; simpl; [auto with turtle|]. eat. Qed.
#[export] Hint Resolve eats_prefix_label eats_hex : turtle.
Lemma eats_unicode n p : eats 0 (read_unicode_escape n) p.
Proof. unfold read_unicode_escape. eat. Qed.
#[export] Hint Resolve eats_unicode : turtle.
Lemma eats_escape p : eats 0 read_string_escape p.
Proof. unfold read_string_escape. eat. Qed.
#[export] Hint Resolve eats_escape : turtle.

(** One character is read, or the input is at its end. *)
Lemma eats_char {B} k (f : option Z -> Parser B) p :
  (rest p = [] -> eats k (f None) p) ->
  (forall c p1, (length (rest p1) + 1 = length (rest p))%nat -> eats (k - 1) (f (Some c)) p1) ->
  eats k (next_char ≫= f) p.
Proof.
  intros H0 H1. unfold eats, mbind, Parser_bind, next_char. destruct (rest p) as [|c l] eqn:E.
  - rewrite <- E. by apply H0.
  - specialize (H1 c (set_rest p l) ltac:(simpl; lia)). unfold eats in H1.
    destruct (f (Some c) (set_rest p l)) as [[[b p2]|e]|]; try done. simpl in *. lia.
Qed.

Lemma eats_iri_loop n : forall iri p, (length (rest p) < n)%nat -> eats 0 (iri_loop n iri) p.
Proof.
  induction n as [|n IH]; intros iri p Hn; [lia|]. cbn [iri_loop]. apply eats_char; [intros; apply eats_fail|].
  intros c p1 H1. eat; apply IH; lia.
Qed.
Lemma eats_string_loop q n : forall out p, (length (rest p) < n)%nat -> eats 0 (string_loop n q out) p.
Proof.
  induction n as [|n IH]; intros out p Hn; [lia|]. cbn [string_loop]. apply eats_char; [intros; apply eats_fail|].
  intros c p1 H1. eat; apply IH; lia.
Qed.
Lemma eats_long_loop q n : forall out p, (length (rest p) < n)%nat -> eats 0 (long_string_loop n q out) p.
Proof.
  induction n as [|n IH]; intros out p Hn; [lia|]. cbn [long_string_loop]. eapply (eats_bind 0); [auto with turtle|].
  intros closing p0 H0. destruct closing; [eat|]. apply eats_char; [intros; apply eats_fail|].
  intros c p1 H1. eat; apply IH; lia.
Qed.

Lemma eats_iri p : eats 1 read_iri_ref p.
Proof.
  unfold read_iri_ref. eapply (eats_bind 1); [apply eats_expect|]. intros _ p1 H1.
  eapply (eats_bind 0); [apply eats_fuel; intros n Hn; by apply eats_iri_loop|]. intros iri p2 H2. eat.
Qed.
#[export] Hint Resolve eats_iri : turtle.
Lemma eats_quoted q p : rest p !! 0%nat = Some q -> eats 1 (read_quoted_string q) p.
Proof.
  intros Hq. unfold read_quoted_string. eapply eats_bind_eq; [done|done|]. rewrite Nat.sub_diag. case_bool_decide as H3.
  - apply (eats_bind_eq _ _ _ _ tt (set_rest p (drop 3 (rest p)))); [done|simpl; rewrite length_drop; lia|].
    assert (length (drop 3 (rest p)) + 3 = length (rest p))%nat as L.
    { apply (f_equal length) in H3. rewrite length_take in H3. change (length [q; q; q]) with 3%nat in H3. rewrite length_drop. lia. }
    simpl. eapply eats_le; [|apply eats_fuel; intros n Hn; by apply eats_long_loop]. lia.
  - eapply (eats_bind 1); [apply eats_expect|]. intros _ p1 H1.
    eapply eats_le; [|apply eats_fuel; intros n Hn; by apply eats_string_loop]. lia.
Qed.
Lemma eats_expand p : eats 1 expand_name p.
Proof. unfold expand_name. eat. Qed.
#[export] Hint Resolve eats_expand : turtle.
Lemma eats_blank_node p : eats 1 parse_blank_node p.
Proof. unfold parse_blank_node. eat. Qed.
Lemma eats_prefixed p : eats 1 parse_prefixed_name p.
Proof. unfold parse_prefixed_name. eat. Qed.
Lemma eats_literal q p : rest p !! 0%nat = Some q -> eats 1 (parse_literal q) p.
Proof.
  intros Hq. unfold parse_literal. eapply (eats_bind 1); [by apply eats_quoted|]. intros lex p1 H1. eat.
Qed.
#[export] Hint Resolve eats_blank_node eats_prefixed eats_literal : turtle.

Lemma number_length m : forall d e l, (length l <= m)%nat -> let '(a, b, _, _) := number d e l in (length a + length b = length l)%nat.
Proof.
  induction m as [|m IH]; intros d e [|c l] Hl; simpl in *; try lia.
  destruct (is_ascii_digit c).
  { specialize (IH d e l ltac:(lia)). destruct (number d e l) as [[[a b] d1] e1]. simpl. lia. }
  destruct (_ && _ && _).
  { specialize (IH true e l ltac:(lia)). destruct (number true e l) as [[[a b] d1] e1]. simpl. lia. }
  destruct (_ && _); [|simpl; lia]. destruct l as [|s l2]; [simpl; lia|]. simpl in Hl. destruct ((s =? 43) || (s =? 45)).
  - specialize (IH d true l2 ltac:(lia)). destruct (number d true l2) as [[[a b] d1] e1]. simpl. lia.
  - specialize (IH d true (s :: l2) ltac:(simpl; lia)). destruct (number d true (s :: l2)) as [[[a b] d1] e1]. simpl in *. lia.
Qed.
Lemma eats_numeric c p : rest p !! 0%nat = Some c -> is_ascii_digit c || (c =? 0x2B) || (c =? 0x2D) = true ->
  eats 1 parse_numeric_literal p.
Proof.
  unfold eats, parse_numeric_literal. destruct (rest p) as [|x l] eqn:E; [done|]. simpl. intros [= ->] Hc.
  destruct ((c =? 43) || (c =? 45)) eqn:Es.
  - pose proof (number_length _ false false l (reflexivity _)) as H. destruct (number false false l) as [[[a b] d] e]. simpl in *. lia.
  - rewrite <- orb_assoc, Es, orb_false_r in Hc. cbn [number]. rewrite Hc.
    pose proof (number_length _ false false l (reflexivity _)) as H. destruct (number false false l) as [[[a b] d] e]. simpl in *. lia.
Qed.

Lemma eats_term p : eats 1 parse_term p.
Proof.
  unfold parse_term. eapply (eats_bind 0); [auto with turtle|]. intros _ p1 H1.
  eapply eats_bind_eq; [done|done|]. rewrite Nat.sub_diag, !Nat.sub_0_r. unfold peek, peek_at.
  destruct (rest p1 !! 0%nat) as [c|] eqn:Ec; [|apply eats_fail].
  destruct (c =? 0x3C); [eat|]. destruct (c =? 0x5F); [eat|]. destruct (_ || _); [eat|]. destruct (_ || _); [eat|].
  destruct (_ || _) eqn:En; [by eapply eats_numeric|]. eat.
Qed.
#[export] Hint Resolve eats_term : turtle.
Lemma eats_predicate p : eats 1 parse_predicate p.
Proof.
  unfold parse_predicate. eapply (eats_bind 0); [auto with turtle|]. intros _ p1 H1.
  eapply eats_bind_eq; [done|done|]. eapply eats_bind_eq; [done|done|]. rewrite !Nat.sub_diag, !Nat.sub_0_r.
  destruct (_ && _) eqn:E; [|eat]. apply andb_true_iff in E as [Ea%bool_decide_eq_true_1 _].
  apply (eats_bind_eq _ _ _ _ tt (set_rest p1 (drop 1 (rest p1)))); [done|simpl; rewrite length_drop; lia|].
  destruct (rest p1) as [|x l] eqn:El; [done|]. simpl. rewrite drop_0. eapply eats_le; [|apply eats_ret]. lia.
Qed.
#[export] Hint Resolve eats_predicate : turtle.
Lemma eats_object_loop s q n : forall out p, (length (rest p) < n)%nat -> eats 1 (object_loop n s q out) p.
Proof.
  induction n as [|n IH]; intros out p Hn; [lia|]. cbn [object_loop]. eat. eapply eats_le; [|apply IH]; lia.
Qed.
Lemma eats_predicate_loop s n : forall out p, (length (rest p) < n)%nat -> eats 1 (predicate_loop n s out) p.
Proof.
  induction n as [|n IH]; intros out p Hn; [lia|]. cbn [predicate_loop]. eapply (eats_bind 0); [auto with turtle|]. intros _ p0 H0.
  eapply (eats_bind 1); [auto with turtle|]. intros q p1 H1.
  eapply (eats_bind 1); [apply eats_fuel; intros m Hm; by apply eats_object_loop|]. intros out' p2 H2.
  eat. eapply eats_le; [|apply IH]; lia.
Qed.
Lemma eats_statement out p : eats 1 (parse_statement out) p.
Proof.
  unfold parse_statement. eapply (eats_bind 1); [auto with turtle|]. intros s p1 H1.
  eapply (eats_bind 1); [apply eats_fuel; intros m Hm; by apply eats_predicate_loop|]. intros out' p2 H2. eat.
Qed.

Lemma eats_directive_body w p : eats 0 (directive_body w) p.
Proof. unfold directive_body. eat. Qed.
#[export] Hint Resolve eats_directive_body : turtle.

(** A directive is announced by [@] or by its keyword, so it is not empty. *)
Lemma eats_directive p : rest p !! 0%nat = Some 0x40 \/ looks_like_directive p = Some (Ok (true, p)) ->
  eats 1 parse_directive p.
Proof.
  intros Hd. unfold parse_directive. eapply eats_bind_eq; [done|done|]. rewrite Nat.sub_diag. unfold peek, peek_at.
  case_bool_decide as Ea.
  - apply (eats_bind_eq _ _ _ _ tt (set_rest p (drop 1 (rest p)))); [done|simpl; rewrite length_drop; lia|].
    destruct (rest p) as [|x l] eqn:El; [done|]. simpl. rewrite drop_0. replace (1 - 0 - (S (length l) - length l))%nat with 0%nat by lia. eat.
  - destruct Hd as [Hd|Hd]; [done|]. eapply eats_bind_eq; [done|done|]. rewrite Nat.sub_diag.
    eapply (eats_bind 1).
    { unfold eats, read_bare_word, read_while. unfold looks_like_directive in Hd.
      pose proof (span_length (fun c _ => is_ascii_alphabetic c) (rest p)) as Hl.
      destruct (span_with _ (rest p)) as [a b]. simpl in *. destruct a as [|x a]; [|simpl in *; lia].
      exfalso. injection Hd as Hd. revert Hd. vm_compute. done. }
    intros w p1 H1. eat.
Qed.

Lemma eats_parse_loop n : forall ts p, (length (rest p) < n)%nat -> eats 0 (parse_loop n ts) p.
Proof.
  induction n as [|n IH]; intros ts p Hn; [lia|]. cbn [parse_loop]. eapply (eats_bind 0); [auto with turtle|]. intros _ p1 H1.
  eapply eats_bind_eq; [done|done|]. destruct (rest p1) as [|c0 l] eqn:El; [apply eats_ret|].
  eapply eats_bind_eq; [done|done|]. eapply eats_bind_eq; [done|done|]. unfold peek, peek_at.
  destruct (_ || _) eqn:E.
  - eapply (eats_bind 1); [apply eats_directive|intros _ p2 H2; eapply eats_le; [|apply IH]; [lia|]].
    + apply orb_true_iff in E as [E%bool_decide_eq_true_1|E]; [by left|right]. unfold looks_like_directive. by rewrite E.
    + rewrite El in H2. simpl in *. lia.
  - eapply (eats_bind 1); [apply eats_statement|]. intros ts' p2 H2. eapply eats_le; [|apply IH]; [lia|].
    rewrite El in H2. simpl in *. lia.
Qed.

(** C16: The Turtle parser ends on every input, with triples or with an error;
    no loop of it runs forever. *)
Theorem parse_turtle_total content : exists r, parse_turtle_triples content = Some r.
Proof.
  unfold parse_turtle_triples, with_fuel.
  pose proof (eats_parse_loop (S (length content)) [] (mkParser content ∅ None)) as H. unfold eats in H. simpl rest in *.
  destruct (parse_loop _ _ _) as [[[ts p]|e]|]; eauto. by specialize (H ltac:(lia)).
Qed.

(** ** What is exported is read back *)

(** An IRI without the characters that end or escape it. *)
Definition plain_iri (s : list Z) : Prop := Forall (fun c => c ≠ 0x3E /\ c ≠ 0x5C) s.

(** A label whose dots are inside it. *)
Fixpoint plain_label (l : list Z) : Prop :=
  match l with
  | [] => True
  | c :: l1 => (is_pname_char c = true \/ c = 0x2E /\ pname_next l1 = true) /\ plain_label l1
  end.

Definition plain_tag (l : list Z) : Prop :=
  l ≠ [] /\ to_ascii_lowercase l = l /\ Forall (fun c => is_ascii_alphanumeric c || (c =? 0x2D) = true) l.

(** The terms Turtle can express; any string is a lexical form. *)
Definition exportable (t : Term) : Prop :=
  match t with
  | Iri s => plain_iri s
  | BlankNode l => l ≠ [] /\ plain_label l
  | Literal l =>
      match language l with
      | Some lang => datatype l = LANG_STRING /\ plain_tag lang
      | None => plain_iri (datatype l)
      end
  end.

Definition exportable_triple (t : Triple) : Prop :=
  exportable (subject t) /\ exportable (predicate t) /\ exportable (object t).

#[global] Instance plain_label_dec l : Decision (plain_label l).
Proof. induction l; simpl; apply _. Defined.
#[global] Instance exportable_dec t : Decision (exportable t).
Proof. destruct t as [s|l|[lex dt [lang|]]]; simpl; unfold plain_iri, plain_tag; apply _. Defined.
#[global] Instance exportable_triple_dec t : Decision (exportable_triple t).
Proof. unfold exportable_triple. apply _. Defined.

Section Exporting.
Context (pf : gmap (list Z) (list Z)).
Notation on l := (mkParser l pf None).

Lemma parse_ok {A B} (m : Parser A) (f : A -> Parser B) p a p1 : m p = Some (Ok (a, p1)) -> (m ≫= f) p = f a p1.
Proof. intros E. unfold mbind, Parser_bind. by rewrite E. Qed.

Lemma iri_loop_plain s k : plain_iri s -> forall n iri, (length s < n)%nat ->
  iri_loop n iri (on (s ++ 0x3E :: k)) = Some (Ok (iri ++ s, on k)).
Proof.
  induction 1 as [|c s [H1 H2] _ IH]; intros n iri Hn; (destruct n as [|n]; [simpl in Hn; lia|]); cbn [iri_loop app].
  - rewrite (parse_ok _ _ _ (Some 0x3E) (on k)) by done. by rewrite app_nil_r.
  - rewrite (parse_ok _ _ _ (Some c) (on (s ++ 0x3E :: k))) by done.
    rewrite (proj2 (Z.eqb_neq _ _) H1), (proj2 (Z.eqb_neq _ _) H2), IH by (simpl in Hn; lia). by rewrite <- app_assoc.
Qed.

Lemma read_iri_plain s k : plain_iri s -> read_iri_ref (on (0x3C :: s ++ 0x3E :: k)) = Some (Ok (s, on k)).
Proof.
  intros Hs. unfold read_iri_ref. rewrite (parse_ok _ _ _ tt (on (s ++ 0x3E :: k))) by done.
  unfold with_fuel. rewrite (parse_ok _ _ _ s (on k)); [done|]. simpl rest. apply iri_loop_plain; [done|].
  rewrite length_app. simpl. lia.
Qed.

(** An escaped character is read back as itself. *)
Lemma string_loop_char n out c k : string_loop (S n) 0x22 out (on (escape_char c ++ k)) = string_loop n 0x22 (out ++ [c]) (on k).
Proof.
  unfold escape_char. cbn [string_loop].
  assert (forall e x, (e =? 0x22) = false \/ e = 0x22 -> read_string_escape (on (e :: k)) = Some (Ok (x, on k)) ->
    (c0 ← next_char; match c0 with None => fail UnterminatedString | Some c0 =>
      if c0 =? 0x22 then mret out
      else if c0 =? 0x5C then x ← read_string_escape; string_loop n 0x22 (out ++ [x])
      else if c0 =? 0x0A then fail NewlineInString else string_loop n 0x22 (out ++ [c0]) end)
    (on ([0x5C; e] ++ k)) = string_loop n 0x22 (out ++ [x]) (on k)) as Hesc.
  { intros e x _ He. rewrite (parse_ok _ _ _ (Some 0x5C) (on (e :: k))) by done. cbn [Z.eqb Pos.eqb].
    by rewrite (parse_ok _ _ _ x (on k)). }
  destruct (Z.eqb_spec c 0x5C) as [->|H1]; [by apply Hesc; [left|]|].
  destruct (Z.eqb_spec c 0x22) as [->|H2]; [by apply Hesc; [right|]|].
  destruct (Z.eqb_spec c 0x0A) as [->|H3]; [by apply Hesc; [left|]|].
  destruct (Z.eqb_spec c 0x0D) as [->|H4]; [by apply Hesc; [left|]|].
  destruct (Z.eqb_spec c 0x09) as [->|H5]; [by apply Hesc; [left|]|].
  rewrite (parse_ok _ _ _ (Some c) (on k)) by done.
  by rewrite (proj2 (Z.eqb_neq _ _) H2), (proj2 (Z.eqb_neq _ _) H1), (proj2 (Z.eqb_neq _ _) H3).
Qed.

Lemma string_loop_escaped s k : forall n out, (length (escape_literal s) < n)%nat ->
  string_loop n 0x22 out (on (escape_literal s ++ 0x22 :: k)) = Some (Ok (out ++ s, on k)).
Proof.
  induction s as [|c s IH]; intros n out Hn; (destruct n as [|n]; [simpl in Hn; lia|]).
  - cbn. by rewrite app_nil_r.
  - unfold escape_literal in *. cbn [mbind list_bind] in *. rewrite <- app_assoc, string_loop_char, IH, <- app_assoc; [done|].
    rewrite length_app in Hn. assert (1 <= length (escape_char c))%nat; [|lia].
    unfold escape_char. repeat case_match; simpl; lia.
Qed.

Lemma read_quoted_escaped s k : head k ≠ Some 0x22 ->
  read_quoted_string 0x22 (on (0x22 :: escape_literal s ++ 0x22 :: k)) = Some (Ok (s, on k)).
Proof.
  intros Hk. unfold read_quoted_string.
  rewrite (parse_ok _ _ _ false (on (0x22 :: escape_literal s ++ 0x22 :: k))).
  - rewrite (parse_ok _ _ _ tt (on (escape_literal s ++ 0x22 :: k))) by done. unfold with_fuel. rewrite string_loop_escaped; [done|].
    simpl rest. rewrite length_app. simpl. lia.
  - unfold at_triple. do 3 f_equal. apply bool_decide_eq_false. cbn [rest take]. intros [= H].
    destruct s as [|c s]; [cbn in H; destruct k as [|x k]; [done|]; injection H as ->; by apply Hk|].
    unfold escape_literal in H. cbn [mbind list_bind] in H. unfold escape_char in H.
    destruct (Z.eqb_spec c 0x5C); [done|]. destruct (Z.eqb_spec c 0x22); [done|]. destruct (Z.eqb_spec c 0x0A); [done|].
    destruct (Z.eqb_spec c 0x0D); [done|]. destruct (Z.eqb_spec c 0x09); [done|]. by injection H as ->.
Qed.

Lemma span_label l k : plain_label l -> (forall c k', k = c :: k' -> is_pname_char c = false /\ c ≠ 0x2E) ->
  span_with local_char (l ++ k) = (l, k).
Proof.
  intros Hl Hk. induction l as [|c l IH]; cbn [app span_with].
  - destruct k as [|c k]; [done|]. destruct (Hk c k eq_refl) as [H1 H2]. cbn [span_with]. unfold local_char.
    by rewrite H1, (proj2 (Z.eqb_neq _ _) H2).
  - destruct Hl as [Hc Hl]. assert (local_char c (l ++ k) = true) as ->.
    + unfold local_char. destruct Hc as [Hc|[-> Hc]].
      * rewrite Hc. cbn [orb andb]. destruct (Z.eqb_spec c 0x2E) as [->|]; [done|]. done.
      * cbn. destruct l as [|x l]; [done|]. simpl in *. by rewrite Hc.
    + by rewrite IH.
Qed.

Lemma span_all f l c k : Forall (fun x => forall y, f x y = true) l -> (forall y, f c y = false) -> span_with f (l ++ c :: k) = (l, c :: k).
Proof.
  intros Hl Hc. induction Hl as [|x l Hx _ IH]; cbn [app span_with]; [by rewrite Hc|]. by rewrite Hx, IH.
Qed.

(** What follows a term in the export: a blank, then the start of a term or
    the final dot. *)
Definition term_start (k : list Z) : Prop :=
  exists c l, k = c :: l /\ (c = 0x3C \/ c = 0x5F \/ c = 0x22 \/ c = 0x2E).

Lemma term_start_blank k : term_start k -> skip_blank false k = k /\ skip_blank false (0x20 :: k) = k.
Proof. intros (c & l & -> & Hc). by destruct Hc as [->|[->|[->| ->]]]. Qed.

Lemma n_triples_start t k : exportable t -> term_start (to_n_triples t ++ k).
Proof.
  intros _. destruct t as [s|s|[lex dt lang]]; simpl.
  - eexists _, _. split; [done|]. by left.
  - eexists _, _. split; [done|]. by right; left.
  - destruct lang; [|case_bool_decide]; rewrite <- ?app_assoc; eexists _, _; (split; [done|]); by right; right; left.
Qed.

Definition literal_suffix (dt : list Z) (lang : option (list Z)) (k : list Z) : list Z :=
  match lang with
  | Some lang => 0x40 :: lang ++ 0x20 :: k
  | None => if bool_decide (dt = XSD_STRING) then 0x20 :: k else 0x5E :: 0x5E :: 0x3C :: dt ++ 0x3E :: 0x20 :: k
  end.

Lemma n_triples_literal lex dt lang k :
  to_n_triples (Literal (mkLiteral lex dt lang)) ++ 0x20 :: k =
  0x22 :: escape_literal lex ++ 0x22 :: literal_suffix dt lang k.
Proof.
  unfold literal_suffix. cbn [to_n_triples lexical datatype language].
  destruct lang; [|case_bool_decide]; cbn; rewrite <- ?app_assoc; cbn; by rewrite <- ?app_assoc.
Qed.

Lemma skip_inline_stop c l : (c =? 0x20) || (c =? 0x09) = false -> skip_inline_ws (on (c :: l)) = Some (Ok (tt, on (c :: l))).
Proof. intros H. unfold skip_inline_ws, mbind, Parser_bind, read_while. simpl. by rewrite H. Qed.

Lemma parse_literal_export lex dt lang k : exportable (Literal (mkLiteral lex dt lang)) -> term_start k ->
  exists k1, parse_literal 0x22 (on (0x22 :: escape_literal lex ++ 0x22 :: literal_suffix dt lang k)) =
    Some (Ok (Literal (mkLiteral lex dt lang), on k1)) /\ skip_blank false k1 = k.
Proof.
  intros Ht Hk. destruct (term_start_blank k Hk) as [Hs1 Hs2]. simpl in Ht. unfold parse_literal.
  rewrite (parse_ok _ _ _ lex (on (literal_suffix dt lang k))).
  2:{ apply read_quoted_escaped. unfold literal_suffix. destruct lang; [done|]. by case_bool_decide. }
  unfold literal_suffix. destruct lang as [lang|].
  - destruct Ht as (-> & Hne & Hlow & Hall). exists (0x20 :: k). split; [|done].
    rewrite (parse_ok _ _ _ tt (on (0x40 :: lang ++ 0x20 :: k))) by (by apply skip_inline_stop).
    rewrite (parse_ok _ _ _ (Some 0x40) (on (0x40 :: lang ++ 0x20 :: k))) by done. rewrite bool_decide_true by done.
    rewrite (parse_ok _ _ _ tt (on (lang ++ 0x20 :: k))) by (unfold advance, set_rest; simpl; by rewrite drop_0).
    rewrite (parse_ok _ _ _ lang (on (0x20 :: k))).
    + destruct lang as [|c l]; [done|]. unfold lit_lang. by rewrite Hlow.
    + unfold read_lang_tag. unfold mbind, Parser_bind, read_while. simpl rest.
      rewrite span_all; [by rewrite Hlow| |done]. eapply Forall_impl; [exact Hall|]. done.
  - case_bool_decide as Ed.
    + subst dt. destruct Hk as (c & l & -> & Hc). exists (c :: l). split; [|done].
      assert ((c =? 0x20) || (c =? 0x09) = false) as Hb by (by destruct Hc as [->|[->|[->| ->]]]).
      rewrite (parse_ok _ _ _ tt (on (c :: l))).
      2:{ unfold skip_inline_ws, mbind, Parser_bind, read_while. simpl. by rewrite Hb. }
      rewrite (parse_ok _ _ _ (Some c) (on (c :: l))) by done.
      rewrite bool_decide_false by (intros [= ->]; lia). rewrite bool_decide_false by (intros [= ->]; lia). done.
    + exists (0x20 :: k). split; [|done].
      rewrite (parse_ok _ _ _ tt (on (0x5E :: 0x5E :: 0x3C :: dt ++ 0x3E :: 0x20 :: k))) by (by apply skip_inline_stop).
      rewrite (parse_ok _ _ _ (Some 0x5E) (on (0x5E :: 0x5E :: 0x3C :: dt ++ 0x3E :: 0x20 :: k))) by done.
      rewrite bool_decide_false, bool_decide_true by done.
      rewrite (parse_ok _ _ _ tt (on (0x5E :: 0x3C :: dt ++ 0x3E :: 0x20 :: k))) by done.
      rewrite (parse_ok _ _ _ tt (on (0x3C :: dt ++ 0x3E :: 0x20 :: k))) by done.
      rewrite (parse_ok _ _ _ tt (on (0x3C :: dt ++ 0x3E :: 0x20 :: k))) by (by apply skip_inline_stop).
      rewrite (parse_ok _ _ _ (Some 0x3C) (on (0x3C :: dt ++ 0x3E :: 0x20 :: k))) by done. rewrite bool_decide_true by done.
      by rewrite (parse_ok _ _ _ dt (on (0x20 :: k))) by (by apply read_iri_plain).
Qed.

(** The parser of a term reads exactly the rendering; a plain literal also
    takes the blank after it. *)
Lemma parse_term_export t k k0 : exportable t -> term_start k -> skip_blank false k0 = to_n_triples t ++ 0x20 :: k ->
  exists k1, parse_term (on k0) = Some (Ok (t, on k1)) /\ skip_blank false k1 = k.
Proof.
  intros Ht Hk Hk0. destruct (term_start_blank k Hk) as [Hs1 Hs2].
  unfold parse_term. rewrite (parse_ok _ _ _ tt (on (to_n_triples t ++ 0x20 :: k))) by (unfold skip_ws; simpl rest; by rewrite Hk0).
  destruct t as [s|l|[lex dt lang]].
  - exists (0x20 :: k). split; [|done]. cbn [to_n_triples app]. rewrite (parse_ok _ _ _ (Some 0x3C) (on (0x3C :: (s ++ [0x3E]) ++ 0x20 :: k))) by done.
    cbn [Z.eqb Pos.eqb]. rewrite <- app_assoc. by rewrite (parse_ok _ _ _ s (on (0x20 :: k))) by (by apply read_iri_plain).
  - exists (0x20 :: k). split; [|done]. destruct Ht as [Hne Hl]. cbn [to_n_triples app].
    rewrite (parse_ok _ _ _ (Some 0x5F) (on (0x5F :: 0x3A :: l ++ 0x20 :: k))) by done. cbn [Z.eqb Pos.eqb]. unfold parse_blank_node.
    rewrite (parse_ok _ _ _ tt (on (0x3A :: l ++ 0x20 :: k))), (parse_ok _ _ _ tt (on (l ++ 0x20 :: k))) by done.
    rewrite (parse_ok _ _ _ l (on (0x20 :: k))); [by destruct l|]. unfold read_pname_local, read_while. simpl rest.
    rewrite span_label; [done|done|]. by intros c k' [= <- _].
  - rewrite n_triples_literal. rewrite (parse_ok _ _ _ (Some 0x22) (on (0x22 :: escape_literal lex ++ 0x22 :: literal_suffix dt lang k))) by done.
    cbn [Z.eqb Pos.eqb orb]. by apply parse_literal_export.
Qed.

Lemma parse_predicate_export t k k0 : exportable t -> term_start k -> skip_blank false k0 = to_n_triples t ++ 0x20 :: k ->
  exists k1, parse_predicate (on k0) = Some (Ok (t, on k1)) /\ skip_blank false k1 = k.
Proof.
  intros Ht Hk Hk0. unfold parse_predicate. set (l := to_n_triples t ++ 0x20 :: k) in *.
  assert (term_start l) as Hl by (by apply n_triples_start). destruct (term_start_blank l Hl) as [Hb _].
  rewrite (parse_ok _ _ _ tt (on l)) by (unfold skip_ws; simpl rest; by rewrite Hk0).
  rewrite (parse_ok _ _ _ (l !! 0%nat) (on l)), (parse_ok _ _ _ (l !! 1%nat) (on l)) by done.
  rewrite bool_decide_false; [by apply (parse_term_export t k l)|].
  destruct Hl as (c & l' & -> & Hc). intros [= ->]. lia.
Qed.

Lemma parse_statement_export t out k k0 : exportable_triple t -> skip_blank false k0 = export_triple t ++ k ->
  parse_statement out (on k0) = Some (Ok (out ++ [t], on (0x0A :: k))).
Proof.
  intros (Hs & Hp & Ho) Hk0. destruct t as [s p o]. cbn [subject predicate object] in *.
  unfold export_triple in Hk0. cbn [subject predicate object] in Hk0. rewrite <- !app_assoc in Hk0. cbn [app] in Hk0.
  set (k3 := 0x2E :: 0x0A :: k) in *. set (k2 := to_n_triples o ++ 0x20 :: k3) in *. set (k1 := to_n_triples p ++ 0x20 :: k2) in *.
  assert (term_start k3) as H3 by (eexists _, _; split; [done|]; by right; right; right).
  assert (term_start k2) as H2 by (by apply n_triples_start). assert (term_start k1) as H1 by (by apply n_triples_start).
  destruct (parse_term_export s k1 k0 Hs H1 Hk0) as (l1 & E1 & B1).
  unfold parse_statement. rewrite (parse_ok _ _ _ _ _ E1). unfold with_fuel at 1. cbn [predicate_loop].
  destruct (parse_predicate_export p k2 k1 Hp H2) as (l2 & E2 & B2); [by apply term_start_blank|].
  destruct (parse_term_export o k3 k2 Ho H3) as (l3 & E3 & B3); [by apply term_start_blank|].
  assert (with_fuel (fun n => object_loop n s p out) (on l2) = Some (Ok (out ++ [mkTriple s p o], on k3))) as E4.
  { unfold with_fuel. cbn [object_loop]. rewrite (parse_ok _ _ _ tt (on k2)) by (unfold skip_ws; simpl rest; by rewrite B2).
    rewrite (parse_ok _ _ _ _ _ E3). cbv zeta. rewrite (parse_ok _ _ _ tt (on k3)) by (unfold skip_ws; simpl rest; by rewrite B3).
    by rewrite (parse_ok _ _ _ (Some 0x2E) (on k3)). }
  match goal with |- (?m ≫= ?f) ?q = _ => assert (m q = Some (Ok (out ++ [mkTriple s p o], on k3))) as E5 end.
  { unfold with_fuel at 1. cbn [predicate_loop]. rewrite (parse_ok _ _ _ tt (on k1)) by (unfold skip_ws; simpl rest; by rewrite B1).
    rewrite (parse_ok _ _ _ _ _ E2), (parse_ok _ _ _ _ _ E4).
    rewrite (parse_ok _ _ _ tt (on k3)) by done. rewrite (parse_ok _ _ _ (Some 0x2E) (on k3)) by done. done. }
  rewrite (parse_ok _ _ _ _ _ E5). by rewrite (parse_ok _ _ _ tt (on (0x0A :: k))).
Qed.

Lemma export_start t ts : exportable_triple t -> term_start (export_turtle (t :: ts)).
Proof.
  intros Ht. unfold export_turtle. cbn [mbind list_bind]. unfold export_triple. rewrite <- !app_assoc. apply n_triples_start. apply Ht.
Qed.

Lemma parse_loop_export ts : Forall exportable_triple ts -> forall n out k0, (length ts < n)%nat ->
  skip_blank false k0 = export_turtle ts -> exists p, parse_loop n out (on k0) = Some (Ok (out ++ ts, p)).
Proof.
  induction 1 as [|t ts Ht Hts IH]; intros n out k0 Hn Hk0; (destruct n as [|n]; [simpl in Hn; lia|]); cbn [parse_loop].
  - rewrite (parse_ok _ _ _ tt (on [])) by (unfold skip_ws; simpl rest; by rewrite Hk0).
    rewrite (parse_ok _ _ _ true (on [])) by done. rewrite app_nil_r. by exists (on []).
  - unfold export_turtle in Hk0. cbn [mbind list_bind] in Hk0. set (k := export_triple t ++ _) in Hk0.
    assert (term_start k) as Hk by (by apply (export_start t ts)).
    rewrite (parse_ok _ _ _ tt (on k)) by (unfold skip_ws; simpl rest; by rewrite Hk0).
    pose proof Hk as (c & l & Ek & Hc).
    rewrite (parse_ok _ _ _ false (on k)) by (unfold at_end; simpl rest; by rewrite Ek).
    rewrite (parse_ok _ _ _ (Some c) (on k)) by (unfold peek, peek_at; simpl rest; by rewrite Ek).
    rewrite (parse_ok _ _ _ false (on k)).
    2:{ unfold looks_like_directive. simpl rest. rewrite Ek. by destruct Hc as [->|[->|[->| ->]]]. }
    rewrite bool_decide_false by (intros [= ->]; lia). cbn [orb].
    rewrite (parse_ok _ _ _ (out ++ [t]) (on (0x0A :: export_turtle ts))).
    2:{ apply parse_statement_export; [done|]. by apply term_start_blank. }
    destruct (IH n (out ++ [t]) (0x0A :: export_turtle ts)) as [q E]; [simpl in Hn; lia| |].
    + destruct Hts as [|t' ts Ht' _]; [done|]. by apply (term_start_blank _ (export_start t' ts Ht')).
    + rewrite E, <- app_assoc. by exists q.
Qed.
End Exporting.

Lemma export_length ts : (length ts <= length (export_turtle ts))%nat.
Proof.
  induction ts as [|t ts IH]; [done|]. change (export_turtle (t :: ts)) with (export_triple t ++ export_turtle ts).
  rewrite length_app. assert (1 <= length (export_triple t))%nat; [|simpl length at 1; lia].
  unfold export_triple. rewrite !length_app. simpl length. lia.
Qed.

(** C15: Exported Turtle is read back: for triples of terms Turtle can express
    (IRIs without [>] and backslash, labels whose dots are inside, lower-case
    language tags, any lexical form), parsing the export returns exactly the
    triples, in order. *)
Theorem turtle_roundtrip ts : Forall exportable_triple ts -> parse_turtle_triples (export_turtle ts) = Some (Ok ts).
Proof.
  intros Hts. unfold parse_turtle_triples, with_fuel. simpl rest.
  destruct (parse_loop_export ∅ ts Hts (S (length (export_turtle ts))) [] (export_turtle ts)) as [p E].
  - pose proof (export_length ts). lia.
  - destruct Hts as [|t ts Ht _]; [done|]. by apply (term_start_blank _ (export_start t ts Ht)).
  - by rewrite E.
Qed.

Module ExportDemo.
Definition triples : list Triple :=
  [mkTriple (Iri (text "http://e/a")) (Iri (text "http://e/p")) (Literal (lit_string [0x22; 0x5C; 0x0A; 0x09; 0x1F600]));
   mkTriple (BlankNode (text "b.1")) (Iri (text "p")) (Literal (mkLiteral (text "hi") LANG_STRING (Some (text "en-us"))));
   mkTriple (Literal (lit_string [])) (Iri []) (Literal (lit_typed (text "7") XSD_INTEGER))].

Lemma turtle_roundtrip_witness : parse_turtle_triples (export_turtle triples) = Some (Ok triples).
Proof.
  apply (turtle_roundtrip triples). apply (bool_decide_unpack (Forall exportable_triple triples)). vm_compute. exact I.
Defined.

(** The export is documented to round trip; an IRI holding a closing bracket
    does not. *)
Lemma iri_with_bracket_does_not_roundtrip :
  parse_turtle_triples (export_turtle [mkTriple (Iri (text "a>b")) (Iri (text "p")) (Iri (text "o"))]) =
  Some (Err (Expected 0x3A (Some 0x3E))).
Proof. vm_compute. reflexivity. Qed.
End ExportDemo.
