(* ===== verification/RdfStore.v ===== *)
(** * The RDF quad store ([src/rdf/store.rs], [src/index/rdf_store.rs], and the
    RDF calls of [src/graph/engine.rs])

    Terms and quads are records on slotted pages, with the dictionary, the map
    of live quads and three permutation trees in memory.  [add_quad] builds its
    records in the pending layer, logs, commits and writes as node creation
    does; [delete_triple] tombstones the record at once.  [RdfError] has the
    values of [StorageError] of the same names, and the engine answers
    [IndexError] for each.  [HashMap] iteration order is the argument [iter]. *)

From stdpp Require Import prelude list gmap.
From Stdlib Require Import ZArith Lia.
From S2P Require Import Prelude Bytes Checksum WalRecord WalLog TxManager Key SlottedPage BTree.
From S2P Require Import GraphRecord GraphHeap GraphEngine Text RdfTerm.

#[local] Open Scope heap_scope.

(** ** The permutation indexes *)

Record RdfTriple := mkRdfTriple { rt_subject : Z; rt_predicate : Z; rt_object : Z }.
Record RdfIndex := mkRdfIndex { spo : BPlusTree; pos : BPlusTree; osp : BPlusTree }.

Definition rix_new : RdfIndex := mkRdfIndex tree_new tree_new tree_new.

Definition encode_value (slot : SlotRef) (graph : option Z) : list Z :=
  to_be 4 (raw slot) ++ match graph with Some g => to_be 8 g | None => [] end.

Definition spo_key (t : RdfTriple) : CompositeKey := rdf_spo_key (rt_subject t) (rt_predicate t) (rt_object t).
Definition pos_key (t : RdfTriple) : CompositeKey := rdf_pos_key (rt_predicate t) (rt_object t) (rt_subject t).
Definition osp_key (t : RdfTriple) : CompositeKey := rdf_osp_key (rt_object t) (rt_subject t) (rt_predicate t).

(** One tree after the other; the first error ends the call. *)
Definition then_tree {A} (x : option (result A BTreeError * BPlusTree)) (put : BPlusTree -> RdfIndex)
    (k : A -> RdfIndex -> option (result bool BTreeError * RdfIndex)) : option (result bool BTreeError * RdfIndex) :=
  match x with
  | Some (Ok a, t) => k a (put t)
  | Some (Err e, t) => Some (Err e, put t)
  | None => None
  end.

Definition rix_insert (t : RdfTriple) (slot : SlotRef) (graph : option Z) (x : RdfIndex) :
    option (result bool BTreeError * RdfIndex) :=
  let value := encode_value slot graph in
  then_tree (BTree.insert (spo_key t) value (spo x)) (fun s => mkRdfIndex s (pos x) (osp x)) (fun _ x =>
  then_tree (BTree.insert (pos_key t) value (pos x)) (fun s => mkRdfIndex (spo x) s (osp x)) (fun _ x =>
  then_tree (BTree.insert (osp_key t) value (osp x)) (fun s => mkRdfIndex (spo x) (pos x) s) (fun _ x =>
  Some (Ok true, x)))).

Definition rix_delete (t : RdfTriple) (x : RdfIndex) : option (result bool BTreeError * RdfIndex) :=
  then_tree (tree_delete config_default (spo_key t) (spo x)) (fun s => mkRdfIndex s (pos x) (osp x)) (fun found x =>
  then_tree (tree_delete config_default (pos_key t) (pos x)) (fun s => mkRdfIndex (spo x) s (osp x)) (fun _ x =>
  then_tree (tree_delete config_default (osp_key t) (osp x)) (fun s => mkRdfIndex (spo x) (pos x) s) (fun _ x =>
  Some (Ok found, x)))).

(** ** The store *)

Record RdfTripleStore := mkRdf {
  dictionary : TermDictionary;
  index : RdfIndex;
  rdf_pages : list Z;
  triples : gmap QuadIds SlotRef
}.

Definition rdf_new : RdfTripleStore := mkRdf dict_new rix_new [] ∅.
Definition triple_count (st : RdfTripleStore) : nat := size (triples st).
Definition term_count (st : RdfTripleStore) : nat := dict_len (dictionary st).

Definition set_dictionary (st : RdfTripleStore) (d : TermDictionary) : RdfTripleStore :=
  mkRdf d (index st) (rdf_pages st) (triples st).
Definition set_rdf_index (st : RdfTripleStore) (x : RdfIndex) : RdfTripleStore :=
  mkRdf (dictionary st) x (rdf_pages st) (triples st).
Definition set_rdf_pages (st : RdfTripleStore) (l : list Z) : RdfTripleStore :=
  mkRdf (dictionary st) (index st) l (triples st).
Definition set_triples (st : RdfTripleStore) (m : gmap QuadIds SlotRef) : RdfTripleStore :=
  mkRdf (dictionary st) (index st) (rdf_pages st) m.

Definition rdf_triple (q : QuadIds) : RdfTriple := let '(s, p, o, g) := q in mkRdfTriple s p o.
Definition graph_id (q : QuadIds) : option Z := let '(s, p, o, g) := q in if g =? 0 then None else Some g.

Definition index_insert (q : QuadIds) (slot : SlotRef) (st : RdfTripleStore) :
    option (result bool BTreeError * RdfTripleStore) :=
  match rix_insert (rdf_triple q) slot (graph_id q) (index st) with
  | Some (r, x) => Some (r, set_rdf_index st x)
  | None => None
  end.

(** ** Pattern matching *)

Section Match.
Context (iter : gmap QuadIds SlotRef -> list (QuadIds * SlotRef)).

(** [None] where a bound term is unknown. *)
Definition resolve_pos (st : RdfTripleStore) (t : option Term) : option (option Z) :=
  match t with
  | None => Some None
  | Some t => Some <$> id_of (dictionary st) t
  end.

Definition pos_matches (p : option Z) (v : Z) : bool := match p with None => true | Some x => x =? v end.

Definition match_ids (st : RdfTripleStore) (s p o g : option Z) : list QuadIds :=
  filter (fun q : QuadIds => let '(ts, tp, to, tg) := q in
            pos_matches s ts && pos_matches p tp && pos_matches o to && pos_matches g tg = true)
    (iter (triples st)).*1.

Definition triple_of (d : TermDictionary) (s p o : Z) : option Triple :=
  ts ← term_of d s; tp ← term_of d p; to ← term_of d o; Some (mkTriple ts tp to).

Definition materialise (d : TermDictionary) (q : QuadIds) : option Quad :=
  let '(s, p, o, g) := q in
  t ← triple_of d s p o;
  if g =? 0 then Some (mkQuad t None) else tg ← term_of d g; Some (mkQuad t (Some tg)).

Definition match_pattern (st : RdfTripleStore) (s p o g : option Term) : list Quad :=
  match resolve_pos st s, resolve_pos st p, resolve_pos st o, resolve_pos st g with
  | Some s, Some p, Some o, Some g => omap (materialise (dictionary st)) (match_ids st s p o g)
  | _, _, _, _ => []
  end.

(** The first quad of each triple, whatever its graph. *)
Fixpoint distinct_triples (seen : gset (Z * Z * Z)) (l : list QuadIds) : list (Z * Z * Z) :=
  match l with
  | [] => []
  | (s, p, o, g) :: l =>
      if decide ((s, p, o) ∈ seen) then distinct_triples seen l
      else (s, p, o) :: distinct_triples ({[(s, p, o)]} ∪ seen) l
  end.

Definition match_triples (st : RdfTripleStore) (s p o : option Term) : list Triple :=
  match resolve_pos st s, resolve_pos st p, resolve_pos st o with
  | Some s, Some p, Some o =>
      omap (fun '(s, p, o) => triple_of (dictionary st) s p o) (distinct_triples ∅ (match_ids st s p o None))
  | _, _, _ => []
  end.

Definition all_quads (st : RdfTripleStore) : list Quad := match_pattern st None None None None.

(** [reindex_spo]: every surviving quad of the triple, errors ignored. *)
Fixpoint reindex_loop (s p o : Z) (l : list (QuadIds * SlotRef)) (st : RdfTripleStore) : option RdfTripleStore :=
  match l with
  | [] => Some st
  | ((ts, tp, to, tg), slot) :: l =>
      if (ts =? s) && (tp =? p) && (to =? o)
      then '(_, st1) ← index_insert (ts, tp, to, tg) slot st; reindex_loop s p o l st1
      else reindex_loop s p o l st
  end.
Definition reindex_spo (s p o : Z) (st : RdfTripleStore) : option RdfTripleStore :=
  reindex_loop s p o (iter (triples st)) st.
End Match.

(** ** Preparing a quad in the pending layer *)

Section Store.
Context {S : Type} `{PS : PageStore S} `{CS : Checksums} {W : Type} `{WL : WalLog W}.

Definition rdf_error (e : StorageError) : StorageError :=
  match e with SeSlotOverflow => SePageFull | SePageFull => SePageFull | _ => SeIoError end.

Definition persist_into_pending (record : list Z) : H (Overlay S * RdfTripleStore) SlotRef := fun x =>
  match prepare_into_pending record PtSlottedData (x.1, rdf_pages x.2) with
  | Some (Ok r, (o, l)) => Some (Ok r, (o, set_rdf_pages x.2 l))
  | Some (Err e, (o, l)) => Some (Err (rdf_error e), (o, set_rdf_pages x.2 l))
  | None => None
  end.

Definition intern_term (t : Term) : H (Overlay S * RdfTripleStore) (Z * bool) := fun x =>
  let '(r, d) := intern (dictionary x.2) t in Some (Ok r, (x.1, set_dictionary x.2 d)).

Definition intern_pending (t : Term) : H (Overlay S * RdfTripleStore) Z :=
  try r <- intern_term t;
  if r.2 : bool
  then try _ <- persist_into_pending (term_record_encode (mkTermRecord r.1 t)); hret r.1
  else hret r.1.

Definition is_stored (q : QuadIds) : H (Overlay S * RdfTripleStore) bool := fun x =>
  Some (Ok (bool_decide (is_Some (triples x.2 !! q))), x).

Definition prepare_quad (q : Quad) : H (Overlay S * RdfTripleStore) (option (QuadIds * SlotRef)) :=
  try s <- intern_pending (subject (q_triple q));
  try p <- intern_pending (predicate (q_triple q));
  try o <- intern_pending (object (q_triple q));
  try g <- match q_graph q with Some g => intern_pending g | None => hret 0 end;
  try found <- is_stored (s, p, o, g);
  if found : bool then hret None else
  try slot <- persist_into_pending (triple_record_encode (mkTripleRecord s p o g));
  hret (Some ((s, p, o, g), slot)).

(** ** The engine's calls *)

Definition RdfEngine : Type := Engine S W * RdfTripleStore.

Definition on_engine {A} (m : H (Engine S W) A) : H RdfEngine A := fun x =>
  match m x.1 with Some (r, e) => Some (r, (e, x.2)) | None => None end.

(** [prepare_quad] on an empty layer over the engine's pages. *)
Definition prepare_on (q : Quad) : H RdfEngine (option (QuadIds * SlotRef) * gmap Z Page) := fun x =>
  match prepare_quad q (mkOverlay ∅ (page_manager x.1), x.2) with
  | Some (Ok r, (o, st)) => Some (Ok (r, pending o), (set_pages x.1 (GraphHeap.base o), st))
  | Some (Err _, (o, st)) => Some (Err SeIndexError, (set_pages x.1 (GraphHeap.base o), st))
  | None => None
  end.

Definition commit_prepared (q : QuadIds) (slot : SlotRef) : H RdfEngine unit := fun x =>
  match index_insert q slot x.2 with
  | Some (Ok _, st) => Some (Ok tt, (x.1, set_triples st (<[q := slot]> (triples st))))
  | Some (Err _, st) => Some (Err SeIndexError, (x.1, st))
  | None => None
  end.

Definition add_quad (now : nat -> Z) (q : Quad) : H RdfEngine bool :=
  try prepared <- prepare_on q;
  match prepared.1 with
  | None => hret false
  | Some (ids, slot) =>
      try tx <- on_engine begin_transaction;
      try _ <- on_engine (commit_pages now tx prepared.2);
      try _ <- commit_prepared ids slot;
      hret true
  end.
Definition add_triple (now : nat -> Z) (t : Triple) : H RdfEngine bool := add_quad now (quad_of t).

(** [page.delete]'s answer is ignored. *)
Definition tombstone_record (slot : SlotRef) : H S unit :=
  try page <- ps_read (slot_page_id slot);
  ps_write (slot_page_id slot) (update_checksum_bytes (SlottedPage.delete page (Z.to_nat (slot_index slot))).2).

Definition rdf_index_step (f : RdfTripleStore -> option (result bool BTreeError * RdfTripleStore)) : H RdfEngine unit := fun x =>
  match f x.2 with
  | Some (Ok _, st) => Some (Ok tt, (x.1, st))
  | Some (Err _, st) => Some (Err SeIndexError, (x.1, st))
  | None => None
  end.

Section Delete.
Context (iter : gmap QuadIds SlotRef -> list (QuadIds * SlotRef)).

Definition quad_ids (d : TermDictionary) (q : Quad) : option QuadIds :=
  s ← id_of d (subject (q_triple q)); p ← id_of d (predicate (q_triple q)); o ← id_of d (object (q_triple q));
  g ← match q_graph q with Some g => id_of d g | None => Some 0 end;
  Some (s, p, o, g).

Definition delete_quad (now : Z) (q : Quad) : H RdfEngine bool := fun x =>
  match quad_ids (dictionary x.2) q with
  | None => Some (Ok false, x)
  | Some ids =>
      match triples x.2 !! ids with
      | None => Some (Ok false, x)
      | Some slot =>
          let '(s, p, o, g) := ids in
          (try _ <- on_engine (on_pages (tombstone_record slot));
           try _ <- on_engine (log now RdfTripleDelete 0 (triple_record_encode (mkTripleRecord s p o g)));
           try _ <- rdf_index_step (fun st =>
             match rix_delete (mkRdfTriple s p o) (index st) with
             | Some (r, i) => Some (r, set_rdf_index st i)
             | None => None
             end);
           try _ <- rdf_index_step (fun st => match reindex_spo iter s p o st with Some st => Some (Ok true, st) | None => None end);
           hret true) (x.1, set_triples x.2 (base.delete ids (triples x.2)))
      end
  end.

(** The engine maps every error to [IndexError]. *)
Definition delete_triple (now : Z) (t : Triple) : H RdfEngine bool := fun x =>
  match delete_quad now (quad_of t) x with
  | Some (Err _, y) => Some (Err SeIndexError, y)
  | r => r
  end.
End Delete.

(** ** Rebuilding from the pages *)

Definition records_of (b : Page) : list (nat * list Z) :=
  omap (fun i => (i,.) <$> read b i) (seq 0 (slot_count b)).

Definition is_term_record (bytes : list Z) : bool := bool_decide (head bytes = Some RDF_TERM_RECORD_MAGIC).
Definition is_triple_record (bytes : list Z) : bool := bool_decide (head bytes = Some RDF_TRIPLE_RECORD_MAGIC).

(** Pass 1 on one page: the dictionary, and whether the page holds RDF. *)
Definition replay_term (x : TermDictionary * bool) (r : nat * list Z) : TermDictionary * bool :=
  if is_term_record r.2 then
    match term_record_decode r.2 with
    | Some t => (reinsert x.1 (tr_id t) (tr_term t), true)
    | None => x
    end
  else if is_triple_record r.2 then (x.1, true) else x.

Fixpoint rebuild_terms (allocated : list Z) (d : TermDictionary) : S -> option (TermDictionary * list Z * S) := fun s =>
  match allocated with
  | [] => Some (d, [], s)
  | p :: ps =>
      if p <? 3 then rebuild_terms ps d s else
      match ps_read p s with
      | None => None
      | Some (Err _, s1) => rebuild_terms ps d s1
      | Some (Ok b, s1) =>
          let '(d1, is_rdf) := foldl replay_term (d, false) (records_of b) in
          '(d2, l, s2) ← rebuild_terms ps d1 s1;
          Some (d2, (if is_rdf : bool then p :: l else l), s2)
      end
  end.

(** Pass 2: a quad already seen keeps its index entry and takes the new slot;
    [slot_idx as u8] truncates. *)
Definition replay_triple (p : Z) (st : RdfTripleStore) (r : nat * list Z) : option RdfTripleStore :=
  if negb (is_triple_record r.2) then Some st else
  match triple_record_decode r.2 with
  | None => Some st
  | Some t =>
      let slot := slot_new (wrap 32 p) (wrap 8 (Z.of_nat r.1)) in
      let ids := (tp_s t, tp_p t, tp_o t, tp_g t) in
      let fresh := bool_decide (triples st !! ids = None) in
      let st := set_triples st (<[ids := slot]> (triples st)) in
      if fresh then '(_, st) ← index_insert ids slot st; Some st else Some st
  end.

Fixpoint replay_triples (p : Z) (l : list (nat * list Z)) (st : RdfTripleStore) : option RdfTripleStore :=
  match l with
  | [] => Some st
  | r :: l => st1 ← replay_triple p st r; replay_triples p l st1
  end.

Fixpoint rebuild_triples (pages : list Z) (st : RdfTripleStore) : S -> option (RdfTripleStore * S) := fun s =>
  match pages with
  | [] => Some (st, s)
  | p :: ps =>
      match ps_read p s with
      | None => None
      | Some (Err _, s1) => rebuild_triples ps st s1
      | Some (Ok b, s1) => st1 ← replay_triples p (records_of b) st; rebuild_triples ps st1 s1
      end
  end.

Definition rebuild (allocated : list Z) (st : RdfTripleStore) (s : S) : option (RdfTripleStore * S) :=
  '(d, l, s1) ← rebuild_terms allocated (dictionary st) s;
  '(st2, s2) ← rebuild_triples l (set_dictionary st d) s1;
  Some (set_rdf_pages st2 l, s2).
End Store.
