(* ===== verification/RdfSpec.v ===== *)
(** * The RDF store as a set of quads

    Whatever the page store and the log do, the answers of the store are those
    of a set of quads ([rdf_answers]).  What a restart finds is the subject of
    RdfRebuild.v. *)

From stdpp Require Import prelude list gmap.
From Stdlib Require Import ZArith Lia.
From S2P Require Import Prelude Bytes Checksum LockTable WalRecord WalLog TxManager Key SlottedPage BTree.
From S2P Require Import GraphRecord GraphHeap GraphEngine Text RdfTerm RdfStore.

#[local] Open Scope heap_scope.

(** ** Ids of quads *)

Lemma quad_ids_inv d q s p o g : quad_ids d q = Some (s, p, o, g) ->
  id_of d (subject (q_triple q)) = Some s /\ id_of d (predicate (q_triple q)) = Some p /\
  id_of d (object (q_triple q)) = Some o /\ (match q_graph q with Some t => id_of d t | None => Some 0 end) = Some g.
Proof.
  unfold quad_ids. destruct (id_of d (subject _)); [|done]. cbn [mbind option_bind]. destruct (id_of d (predicate _)); [|done].
  cbn [mbind option_bind]. destruct (id_of d (object _)); [|done]. cbn [mbind option_bind].
  destruct (match q_graph q with Some _ => _ | None => _ end); [|done]. by intros [= -> -> -> ->].
Qed.

Lemma quad_ids_intro d q s p o g : id_of d (subject (q_triple q)) = Some s -> id_of d (predicate (q_triple q)) = Some p ->
  id_of d (object (q_triple q)) = Some o -> (match q_graph q with Some t => id_of d t | None => Some 0 end) = Some g ->
  quad_ids d q = Some (s, p, o, g).
Proof. unfold quad_ids. by intros -> -> -> ->. Qed.

(** Turning ids back into terms is the inverse. *)
Lemma materialise_ids d q ids : dict_ok d -> materialise d ids = Some q <-> quad_ids d q = Some ids.
Proof.
  intros [Hi Hr Hn]. destruct ids as [[[s p] o] g], q as [[ts tp to] tg]. unfold materialise, triple_of. split.
  - destruct (term_of d s) as [a|] eqn:Es; [|done]. cbn [mbind option_bind]. destruct (term_of d p) as [b|] eqn:Ep; [|done].
    cbn [mbind option_bind]. destruct (term_of d o) as [c|] eqn:Eo; [|done]. cbn [mbind option_bind].
    apply Hi in Es, Ep, Eo. destruct (Z.eqb_spec g 0) as [->|Hg].
    + intros [= <- <- <- <-]. by apply quad_ids_intro.
    + destruct (term_of d g) as [x|] eqn:Eg; [|done]. intros [= <- <- <- <-]. apply Hi in Eg. by apply quad_ids_intro.
  - intros (Hs & Hp & Ho & Hg)%quad_ids_inv. cbn [q_triple q_graph subject predicate object] in *.
    apply Hi in Hs, Hp, Ho. rewrite Hs. cbn [mbind option_bind]. rewrite Hp. cbn [mbind option_bind]. rewrite Ho. cbn [mbind option_bind].
    destruct tg as [x|].
    + pose proof (Hr x g Hg). destruct (Z.eqb_spec g 0); [lia|]. apply Hi in Hg. by rewrite Hg.
    + injection Hg as <-. done.
Qed.

Lemma quad_ids_inj d q q' ids : dict_ok d -> quad_ids d q = Some ids -> quad_ids d q' = Some ids -> q = q'.
Proof. intros Hd H1%(materialise_ids _ _ _ Hd) H2%(materialise_ids _ _ _ Hd). congruence. Qed.

Lemma quad_ids_grow d d' q ids : (forall t i, id_of d t = Some i -> id_of d' t = Some i) ->
  quad_ids d q = Some ids -> quad_ids d' q = Some ids.
Proof.
  intros Hg. destruct ids as [[[s p] o] g]. intros (Hs & Hp & Ho & Hgr)%quad_ids_inv.
  apply quad_ids_intro; try (by apply Hg). destruct (q_graph q); [by apply Hg|done].
Qed.

(** ** The invariant *)

(** The map of live quads is the set [Q], id for term. *)
Record rdf_inv (Q : gset Quad) (st : RdfTripleStore) : Prop := {
  ri_dict : dict_ok (dictionary st);
  ri_known q : q ∈ Q -> is_Some (quad_ids (dictionary st) q);
  ri_map ids : is_Some (triples st !! ids) <-> exists q, q ∈ Q /\ quad_ids (dictionary st) q = Some ids
}.

Lemma rdf_new_inv : rdf_inv ∅ rdf_new.
Proof.
  split; [apply dict_new_ok|set_solver|]. intros ids. simpl. rewrite lookup_empty. split; [by intros [? ?]|]. set_solver.
Qed.

(** The dictionary grew by at most [k] terms; the quads are the same. *)
Record grown (k : Z) (st st' : RdfTripleStore) : Prop := {
  gr_dict : dict_ok (dictionary st');
  gr_keep t i : id_of (dictionary st) t = Some i -> id_of (dictionary st') t = Some i;
  gr_next : d_next_id (dictionary st') <= d_next_id (dictionary st) + k;
  gr_triples : triples st' = triples st
}.

Lemma grown_trans j k a b c : grown j a b -> grown k b c -> grown (j + k) a c.
Proof. intros [A1 A2 A3 A4] [B1 B2 B3 B4]. split; [done|auto|lia|congruence]. Qed.

Lemma grown_inv Q k st st' : grown k st st' -> rdf_inv Q st -> rdf_inv Q st'.
Proof.
  intros [G1 G2 G3 G4] [R1 R2 R3]. split; [done| |].
  - intros q Hq. destruct (R2 q Hq) as [ids E]. exists ids. by eapply quad_ids_grow.
  - intros ids. rewrite G4, R3. split; intros (q & Hq & E); exists q; (split; [done|]); [by eapply quad_ids_grow|].
    destruct (R2 q Hq) as [ids' E']. pose proof (quad_ids_grow _ _ _ _ G2 E'). congruence.
Qed.

Section Steps.
Context {S : Type} `{PS : PageStore S} `{CS : Checksums} {W : Type} `{WL : WalLog W}.

Lemma persist_same bs (x : Overlay S * RdfTripleStore) r y : persist_into_pending bs x = Some (r, y) ->
  dictionary y.2 = dictionary x.2 /\ triples y.2 = triples x.2 /\ index y.2 = index x.2.
Proof.
  unfold persist_into_pending. destruct (prepare_into_pending _ _ _) as [[[r0|e] [o l]]|]; [| |done]; intros [= <- <-]; done.
Qed.

Lemma intern_pending_grown t (x : Overlay S * RdfTripleStore) r y : intern_pending t x = Some (r, y) ->
  dict_ok (dictionary x.2) -> d_next_id (dictionary x.2) < 2 ^ 64 - 1 ->
  grown 1 x.2 y.2 /\ forall i, r = Ok i -> id_of (dictionary y.2) t = Some i.
Proof.
  intros E Hd Hn. destruct (intern_spec _ t Hd Hn) as (i & fresh & d' & Ei & [I1 I2 I3 I4 I5]).
  unfold intern_pending, hbind, intern_term in E. rewrite Ei in E. cbn [fst snd] in E.
  assert (grown 1 x.2 (set_dictionary x.2 d')) as Hg.
  { split; simpl; [done| |destruct fresh; lia|done]. intros u j Hj. destruct (decide (u = t)) as [->|Hne]; [|by rewrite I5].
    destruct fresh; [by destruct I3 as [I3 _]; rewrite I3 in Hj|]. subst d'. congruence. }
  destruct fresh; [|injection E as <- <-; split; [done|by intros ? [= <-]]].
  destruct (persist_into_pending _ _) as [[[sl|e] z]|] eqn:Ep; [| |done]; injection E as <- <-;
    destruct (persist_same _ _ _ _ Ep) as (E1 & E2 & E3); cbn [snd] in *.
  - split; [|intros j [= <-]; by rewrite E1]. destruct Hg as [G1 G2 G3 G4]. split; rewrite ?E1, ?E2; done.
  - split; [|done]. destruct Hg as [G1 G2 G3 G4]. split; rewrite ?E1, ?E2; done.
Qed.

(** Preparing a quad: every way it can end. *)
Lemma prepare_quad_grown q (x : Overlay S * RdfTripleStore) r y : prepare_quad q x = Some (r, y) ->
  dict_ok (dictionary x.2) -> d_next_id (dictionary x.2) < 2 ^ 64 - 5 ->
  grown 4 x.2 y.2 /\
  match r with
  | Ok (Some (ids, _)) => quad_ids (dictionary y.2) q = Some ids /\ triples y.2 !! ids = None
  | Ok None => exists ids, quad_ids (dictionary y.2) q = Some ids /\ is_Some (triples y.2 !! ids)
  | Err _ => True
  end.
Proof.
  intros E Hd Hn. unfold prepare_quad, hbind in E.
  destruct (intern_pending (subject _) x) as [[[s|e] x1]|] eqn:E1; [| |done].
  2:{ injection E as <- <-. destruct (intern_pending_grown _ _ _ _ E1 Hd ltac:(lia)) as [[G1 G2 G3 G4] _]. split; [split; try done; lia|done]. }
  destruct (intern_pending_grown _ _ _ _ E1 Hd ltac:(lia)) as [G1 Hs]. pose proof (gr_next _ _ _ G1).
  destruct (intern_pending (predicate _) x1) as [[[p|e] x2]|] eqn:E2; [| |done];
    destruct (intern_pending_grown _ _ _ _ E2 (gr_dict _ _ _ G1) ltac:(lia)) as [G2 Hp];
    pose proof (grown_trans _ _ _ _ _ G1 G2) as G12; [|injection E as <- <-; split; [destruct G12; split; try done; lia|done]].
  pose proof (gr_next _ _ _ G12).
  destruct (intern_pending (object _) x2) as [[[o|e] x3]|] eqn:E3; [| |done];
    destruct (intern_pending_grown _ _ _ _ E3 (gr_dict _ _ _ G2) ltac:(lia)) as [G3 Ho];
    pose proof (grown_trans _ _ _ _ _ G12 G3) as G13; [|injection E as <- <-; split; [destruct G13; split; try done; lia|done]].
  pose proof (gr_next _ _ _ G13).
  assert (exists r4 x4, (match q_graph q with Some g => intern_pending g | None => hret 0 end) x3 = Some (r4, x4) /\
    grown 1 x3.2 x4.2 /\ (forall g, r4 = Ok g -> (match q_graph q with Some t => id_of (dictionary x4.2) t | None => Some 0 end) = Some g))
    as (r4 & x4 & E4 & G4 & Hg).
  { destruct (q_graph q) as [g|].
    - destruct (intern_pending g x3) as [[r4 x4]|] eqn:E4; [|done].
      destruct (intern_pending_grown _ _ _ _ E4 (gr_dict _ _ _ G3) ltac:(lia)) as [G4 Hg]. by exists r4, x4.
    - exists (Ok 0), x3. split; [done|]. split; [|by intros g [= <-]]. destruct G3. split; try done. lia. }
  rewrite E4 in E. pose proof (grown_trans _ _ _ _ _ G13 G4) as G14. replace (1 + 1 + 1 + 1) with 4 in G14 by done.
  destruct r4 as [g|e]; [|by injection E as <- <-].
  assert (quad_ids (dictionary x4.2) q = Some (s, p, o, g)) as Hq.
  { apply quad_ids_intro; [| | |by apply Hg].
    - apply (gr_keep _ _ _ G4), (gr_keep _ _ _ G3), (gr_keep _ _ _ G2), Hs. done.
    - apply (gr_keep _ _ _ G4), (gr_keep _ _ _ G3), Hp. done.
    - apply (gr_keep _ _ _ G4), Ho. done. }
  unfold is_stored in E. case_bool_decide as Hst.
  { injection E as <- <-. split; [done|]. by exists (s, p, o, g). }
  destruct (persist_into_pending _ x4) as [[[sl|e] x5]|] eqn:E5; [| |done]; injection E as <- <-;
    destruct (persist_same _ _ _ _ E5) as (D1 & D2 & D3).
  - split; [destruct G14; split; rewrite ?D1, ?D2; done|]. rewrite D1, D2. split; [done|]. by apply eq_None_not_Some.
  - split; [destruct G14; split; rewrite ?D1, ?D2; done|done].
Qed.

Lemma on_engine_same {A} (m : H (Engine S W) A) (x : RdfEngine) r y : on_engine m x = Some (r, y) -> y.2 = x.2.
Proof. unfold on_engine. destruct (m x.1) as [[r0 e]|]; [|done]. by intros [= <- <-]. Qed.

Lemma index_insert_same q slot st r st' : index_insert q slot st = Some (r, st') ->
  dictionary st' = dictionary st /\ triples st' = triples st.
Proof. unfold index_insert. destruct (rix_insert _ _ _ _) as [[r0 i]|]; [|done]. by intros [= <- <-]. Qed.

Lemma reindex_same iter s p o st st' : reindex_spo iter s p o st = Some st' ->
  dictionary st' = dictionary st /\ triples st' = triples st.
Proof.
  unfold reindex_spo. generalize (iter (triples st)) as l. intros l. revert st.
  induction l as [|[[[[ts tp] to] tg] slot] l IH]; intros st; simpl; [by intros [= ->]|].
  destruct (_ && _ && _); [|apply IH]. destruct (index_insert _ _ st) as [[r st1]|] eqn:E; [|done]. cbn [mbind option_bind].
  intros H. destruct (IH _ H) as [-> ->]. by eapply index_insert_same.
Qed.

(** ** Operations and their effect on the set *)

Inductive rdf_op := AddQuad (q : Quad) | DeleteTriple (t : Triple).

Definition run_rdf_op iter (now : nat -> Z) (op : rdf_op) : H RdfEngine bool :=
  match op with
  | AddQuad q => add_quad now q
  | DeleteTriple t => delete_triple iter (now 0%nat) t
  end.

Fixpoint run_rdf_ops iter (now : nat -> Z) (ops : list rdf_op) (x : RdfEngine) : option (list (result bool StorageError) * RdfEngine) :=
  match ops with
  | [] => Some ([], x)
  | op :: ops => '(r, x1) ← run_rdf_op iter now op x; '(rs, x2) ← run_rdf_ops iter now ops x1; Some (r :: rs, x2)
  end.

(** What an answer says of the set before and after: a failed deletion has
    removed the quad all the same, a failed insertion has added nothing. *)
Definition rdf_effect (op : rdf_op) (r : result bool StorageError) (Q Q' : gset Quad) : Prop :=
  match op, r with
  | AddQuad q, Ok true => q ∉ Q /\ Q' = {[q]} ∪ Q
  | AddQuad q, Ok false => q ∈ Q /\ Q' = Q
  | AddQuad q, Err _ => Q' = Q
  | DeleteTriple t, Ok false => quad_of t ∉ Q /\ Q' = Q
  | DeleteTriple t, _ => quad_of t ∈ Q /\ Q' = Q ∖ {[quad_of t]}
  end.

Fixpoint rdf_effects (ops : list rdf_op) (rs : list (result bool StorageError)) (Q Q' : gset Quad) : Prop :=
  match ops, rs with
  | [], [] => Q' = Q
  | op :: ops, r :: rs => exists Q1, rdf_effect op r Q Q1 /\ rdf_effects ops rs Q1 Q'
  | _, _ => False
  end.

(** The ids of a known quad are live exactly when the quad is in the set. *)
Lemma live_quad Q st q ids : rdf_inv Q st -> quad_ids (dictionary st) q = Some ids -> is_Some (triples st !! ids) <-> q ∈ Q.
Proof.
  intros [R1 R2 R3] E. rewrite R3. split; [|eauto]. intros (q' & Hq & E'). by rewrite (quad_ids_inj _ _ _ _ R1 E E').
Qed.

Lemma insert_inv Q st q ids slot : rdf_inv Q st -> quad_ids (dictionary st) q = Some ids ->
  rdf_inv ({[q]} ∪ Q) (set_triples st (<[ids := slot]> (triples st))).
Proof.
  intros [R1 R2 R3] E. split; simpl; [done| |].
  - intros q' [->%elem_of_singleton|Hq]%elem_of_union; [by exists ids|by apply R2].
  - intros i. destruct (decide (ids = i)) as [<-|Hne].
    + rewrite lookup_insert_eq. split; [|done]. intros _. exists q. split; [set_solver|done].
    + rewrite lookup_insert_ne, R3 by done. split; intros (q' & Hq & E'); exists q'; (split; [|done]); [set_solver|].
      apply elem_of_union in Hq as [->%elem_of_singleton|Hq]; [congruence|done].
Qed.

Lemma delete_inv Q st q ids : rdf_inv Q st -> quad_ids (dictionary st) q = Some ids ->
  rdf_inv (Q ∖ {[q]}) (set_triples st (base.delete ids (triples st))).
Proof.
  intros [R1 R2 R3] E. split; simpl; [done| |].
  - intros q' [Hq _]%elem_of_difference. by apply R2.
  - intros i. destruct (decide (ids = i)) as [<-|Hne].
    + rewrite lookup_delete_eq. split; [by intros [? ?]|]. intros (q' & [_ Hn]%elem_of_difference & E').
      by rewrite (quad_ids_inj _ _ _ _ R1 E E'), elem_of_singleton in Hn.
    + rewrite lookup_delete_ne, R3 by done. split; intros (q' & Hq & E'); exists q'; (split; [|done]); [|set_solver].
      apply elem_of_difference. split; [done|]. intros ->%elem_of_singleton. congruence.
Qed.

Lemma inv_same Q st st' : dictionary st' = dictionary st -> triples st' = triples st -> rdf_inv Q st -> rdf_inv Q st'.
Proof. intros E1 E2 [R1 R2 R3]. split; rewrite ?E1, ?E2; done. Qed.

Definition ids_left (n : Z) (st : RdfTripleStore) : Prop := d_next_id (dictionary st) + 4 * n < 2 ^ 64 - 1.

Lemma add_quad_effect now q Q (x : RdfEngine) r y n : add_quad now q x = Some (r, y) -> rdf_inv Q x.2 -> ids_left (n + 1) x.2 -> 0 <= n ->
  exists Q', rdf_effect (AddQuad q) r Q Q' /\ rdf_inv Q' y.2 /\ ids_left n y.2.
Proof.
  intros E Hr Hn Hn0. unfold ids_left in *. unfold add_quad, hbind at 1, prepare_on in E.
  destruct (prepare_quad q _) as [[r1 [o st]]|] eqn:Ep; [|done].
  destruct (prepare_quad_grown _ _ _ _ Ep (ri_dict _ _ Hr)) as [G Hres]; [cbn [snd]; lia|]. cbn [snd] in G, Hres.
  pose proof (grown_inv _ _ _ _ G Hr) as Hr1. pose proof (gr_next _ _ _ G) as Hn1.
  destruct r1 as [[[ids slot]|]|er]; cbn [fst snd] in E.
  - destruct Hres as [Hq Hfree]. unfold hbind in E.
    destruct (on_engine begin_transaction _) as [[[tx|er] x2]|] eqn:E2; [| |done]; apply on_engine_same in E2; cbn [snd] in E2.
    2:{ injection E as <- <-. exists Q. rewrite E2. split_and!; [done|done|lia]. }
    destruct (on_engine (commit_pages now tx (pending o)) x2) as [[[[]|er] x3]|] eqn:E3; [| |done]; apply on_engine_same in E3.
    2:{ injection E as <- <-. exists Q. rewrite E3, E2. split_and!; [done|done|lia]. }
    unfold commit_prepared in E. rewrite E3, E2 in E.
    destruct (index_insert ids slot st) as [[[b|er] st1]|] eqn:Ei; [| |done]; injection E as <- <-; cbn [snd];
      destruct (index_insert_same _ _ _ _ _ Ei) as [D1 D2].
    + exists ({[q]} ∪ Q). rewrite D2. cbn [dictionary]. split_and!.
      * split; [|done]. intros Hin. apply (live_quad _ _ _ _ Hr1 Hq) in Hin as [? ?]. congruence.
      * rewrite <- D2. apply insert_inv; [by apply (inv_same Q st)|]. by rewrite D1.
      * simpl. rewrite D1. lia.
    + exists Q. split_and!; [done|by apply (inv_same Q st)|]. rewrite D1. lia.
  - injection E as <- <-. exists Q. cbn [snd]. split_and!; [|done|lia]. destruct Hres as (ids & Hq & Hl). split; [|done].
    by apply (live_quad _ _ _ _ Hr1 Hq).
  - injection E as <- <-. exists Q. cbn [snd]. split_and!; [done|done|lia].
Qed.

Lemma delete_triple_effect iter now t Q (x : RdfEngine) r y n : delete_triple iter now t x = Some (r, y) -> rdf_inv Q x.2 -> ids_left n x.2 ->
  exists Q', rdf_effect (DeleteTriple t) r Q Q' /\ rdf_inv Q' y.2 /\ ids_left n y.2.
Proof.
  intros E Hr Hn. unfold delete_triple, delete_quad in E.
  destruct (quad_ids (dictionary x.2) (quad_of t)) as [ids|] eqn:Eq.
  2:{ injection E as <- <-. exists Q. split_and!; [|done|done]. split; [|done]. intros Hin. destruct (ri_known _ _ Hr _ Hin). congruence. }
  destruct (triples x.2 !! ids) as [slot|] eqn:Es.
  2:{ injection E as <- <-. exists Q. split_and!; [|done|done]. split; [|done]. intros Hin%(live_quad _ _ _ _ Hr Eq). by rewrite Es in Hin; destruct Hin. }
  assert (quad_of t ∈ Q) as Hin by (apply (live_quad _ _ _ _ Hr Eq); eauto).
  pose proof (delete_inv _ _ _ _ Hr Eq) as Hd. destruct ids as [[[s p] o] g].
  set (st0 := set_triples x.2 (base.delete (s, p, o, g) (triples x.2))) in *.
  assert (dictionary y.2 = dictionary st0 /\ triples y.2 = triples st0 /\ r ≠ Ok false) as (D1 & D2 & Hne).
  { unfold hbind in E.
    destruct (on_engine (on_pages _) _) as [[[[]|er] x1]|] eqn:E1; [| |done]; apply on_engine_same in E1; cbn [snd] in E1.
    2:{ injection E as <- <-. by rewrite E1. }
    destruct (on_engine (log _ _ _ _) x1) as [[[lsn|er] x2]|] eqn:E2; [| |done]; apply on_engine_same in E2.
    2:{ injection E as <- <-. by rewrite E2, E1. }
    unfold rdf_index_step in E. rewrite E2, E1 in E.
    destruct (rix_delete _ _) as [[[b|er] i]|]; [| |done]; [|by injection E as <- <-]. cbn [snd] in E.
    destruct (reindex_spo iter s p o _) as [st3|] eqn:E3; [|done]. injection E as <- <-. cbn [snd].
    destruct (reindex_same _ _ _ _ _ _ E3) as [-> ->]. done. }
  exists (Q ∖ {[quad_of t]}). split_and!.
  - destruct r as [[]|]; done.
  - by eapply inv_same.
  - unfold ids_left. by rewrite D1.
Qed.

Lemma run_rdf_ops_effect iter now ops : forall Q (x : RdfEngine) rs y, run_rdf_ops iter now ops x = Some (rs, y) ->
  rdf_inv Q x.2 -> ids_left (Z.of_nat (length ops)) x.2 -> exists Q', rdf_effects ops rs Q Q' /\ rdf_inv Q' y.2.
Proof.
  induction ops as [|op ops IH]; intros Q x rs y E Hr Hn; simpl in E.
  - injection E as <- <-. by exists Q.
  - destruct (run_rdf_op iter now op x) as [[r x1]|] eqn:E1; [|done]. cbn [mbind option_bind] in E.
    destruct (run_rdf_ops iter now ops x1) as [[rs1 x2]|] eqn:E2; [|done]. injection E as <- <-.
    assert (exists Q1, rdf_effect op r Q Q1 /\ rdf_inv Q1 x1.2 /\ ids_left (Z.of_nat (length ops)) x1.2) as (Q1 & He & Hr1 & Hn1).
    { destruct op as [q|t]; cbn [run_rdf_op] in E1.
      - eapply add_quad_effect; [exact E1|done| |lia]. revert Hn. unfold ids_left. simpl length. lia.
      - eapply delete_triple_effect; [exact E1|done|]. revert Hn. unfold ids_left. simpl length. lia. }
    destruct (IH Q1 x1 rs1 x2 E2 Hr1 Hn1) as (Q' & Hes & Hr'). exists Q'. split; [|done]. by exists Q1.
Qed.
End Steps.

(** ** What matching returns *)

Definition term_matches (pat : option Term) (t : Term) : Prop := match pat with None => True | Some u => u = t end.
Definition graph_matches (pat : option Term) (g : option Term) : Prop := match pat with None => True | Some u => g = Some u end.
Definition triple_matches (s p o : option Term) (t : Triple) : Prop :=
  term_matches s (subject t) /\ term_matches p (predicate t) /\ term_matches o (object t).

Section Matching.
Context (iter : gmap QuadIds SlotRef -> list (QuadIds * SlotRef)) (Hiter : forall m, iter m ≡ₚ map_to_list m).
Context (Q : gset Quad) (st : RdfTripleStore) (Hr : rdf_inv Q st).

Lemma match_ids_elem s p o g ids : ids ∈ match_ids iter st s p o g <->
  is_Some (triples st !! ids) /\ let '(ts, tp, to, tg) := ids in
    pos_matches s ts && pos_matches p tp && pos_matches o to && pos_matches g tg = true.
Proof using Hiter.
  unfold match_ids. rewrite list_elem_of_filter, Hiter. destruct ids as [[[ts tp] to] tg].
  assert ((ts, tp, to, tg) ∈ (map_to_list (triples st)).*1 <-> is_Some (triples st !! (ts, tp, to, tg))) as ->; [|tauto].
  rewrite list_elem_of_fmap. split.
  - intros ([ids sl] & -> & Hin%elem_of_map_to_list). eauto.
  - intros [sl E]. exists ((ts, tp, to, tg), sl). split; [done|]. by apply elem_of_map_to_list.
Qed.

Lemma match_ids_nodup s p o g : NoDup (match_ids iter st s p o g).
Proof using Hiter. apply NoDup_filter. rewrite Hiter. apply NoDup_fst_map_to_list. Qed.

Lemma pos_term pat pos t i : resolve_pos st pat = Some pos -> id_of (dictionary st) t = Some i ->
  pos_matches pos i = true <-> term_matches pat t.
Proof using Hr.
  intros Hp Hi. destruct pat as [u|]; simpl in Hp; [|by injection Hp as <-].
  destruct (id_of (dictionary st) u) as [j|] eqn:Eu; [|done]. injection Hp as <-. simpl. rewrite Z.eqb_eq. split; [|congruence].
  intros ->. by eapply id_of_inj; [apply Hr| |].
Qed.

Lemma pos_graph pat pos g i : resolve_pos st pat = Some pos ->
  (match g with Some t => id_of (dictionary st) t | None => Some 0 end) = Some i ->
  pos_matches pos i = true <-> graph_matches pat g.
Proof using Hr.
  intros Hp Hi. destruct pat as [u|]; simpl in Hp; [|by injection Hp as <-].
  destruct (id_of (dictionary st) u) as [j|] eqn:Eu; [|done]. injection Hp as <-. simpl. rewrite Z.eqb_eq.
  destruct g as [t|].
  - split; [|congruence]. intros ->. f_equal. by eapply id_of_inj; [apply Hr| |].
  - injection Hi as <-. pose proof (dk_range _ (ri_dict _ _ Hr) u j Eu). split; [lia|done].
Qed.

(** A bound term the dictionary does not know is in no quad. *)
Lemma unknown_pos pat t i : resolve_pos st pat = None -> id_of (dictionary st) t = Some i -> ~ term_matches pat t.
Proof. destruct pat as [u|]; simpl; [|done]. destruct (id_of (dictionary st) u) eqn:E; [done|]. intros _ Ht <-. congruence. Qed.

Lemma match_pattern_elem s p o g q :
  q ∈ match_pattern iter st s p o g <-> q ∈ Q /\ triple_matches s p o (q_triple q) /\ graph_matches g (q_graph q).
Proof using Hiter Hr.
  unfold match_pattern, triple_matches.
  assert (q ∈ Q -> exists ts tp to tg, quad_ids (dictionary st) q = Some (ts, tp, to, tg) /\
    id_of (dictionary st) (subject (q_triple q)) = Some ts /\ id_of (dictionary st) (predicate (q_triple q)) = Some tp /\
    id_of (dictionary st) (object (q_triple q)) = Some to /\
    (match q_graph q with Some t => id_of (dictionary st) t | None => Some 0 end) = Some tg) as Hq.
  { intros Hq. destruct (ri_known _ _ Hr q Hq) as [[[[ts tp] to] tg] E]. exists ts, tp, to, tg. split; [done|]. by apply quad_ids_inv. }
  destruct (resolve_pos st s) as [s'|] eqn:Es; [|split; [by intros ?%elem_of_nil|]; intros (Hin & (Hs & _) & _); destruct (Hq Hin) as (? & ? & ? & ? & _ & H1 & _); by destruct (unknown_pos _ _ _ Es H1)].
  destruct (resolve_pos st p) as [p'|] eqn:Ep; [|split; [by intros ?%elem_of_nil|]; intros (Hin & (_ & Hp & _) & _); destruct (Hq Hin) as (? & ? & ? & ? & _ & _ & H1 & _); by destruct (unknown_pos _ _ _ Ep H1)].
  destruct (resolve_pos st o) as [o'|] eqn:Eo; [|split; [by intros ?%elem_of_nil|]; intros (Hin & (_ & _ & Ho) & _); destruct (Hq Hin) as (? & ? & ? & ? & _ & _ & _ & H1 & _); by destruct (unknown_pos _ _ _ Eo H1)].
  destruct (resolve_pos st g) as [g'|] eqn:Eg.
  2:{ split; [by intros ?%elem_of_nil|]. intros (Hin & _ & Hg). destruct (Hq Hin) as (? & ? & ? & ? & _ & _ & _ & _ & H1).
      destruct g as [u|]; [|done]. simpl in Hg. rewrite Hg in H1. by destruct (unknown_pos _ _ _ Eg H1). }
  rewrite list_elem_of_omap. split.
  - intros (ids & Hids & Hm). apply match_ids_elem in Hids as [Hl Hpm]. apply (materialise_ids _ _ _ (ri_dict _ _ Hr)) in Hm.
    destruct ids as [[[ts tp] to] tg]. pose proof Hm as (H1 & H2 & H3 & H4)%quad_ids_inv.
    rewrite !andb_true_iff in Hpm. destruct Hpm as [[[P1 P2] P3] P4].
    split; [by apply (live_quad _ _ _ _ Hr Hm)|]. split; [split_and!|].
    + by apply (pos_term _ _ _ _ Es H1).
    + by apply (pos_term _ _ _ _ Ep H2).
    + by apply (pos_term _ _ _ _ Eo H3).
    + by apply (pos_graph _ _ _ _ Eg H4).
  - intros (Hin & (M1 & M2 & M3) & M4). destruct (Hq Hin) as (ts & tp & to & tg & E & H1 & H2 & H3 & H4).
    exists (ts, tp, to, tg). split; [|by apply (materialise_ids _ _ _ (ri_dict _ _ Hr))]. apply match_ids_elem.
    split; [by apply (live_quad _ _ _ _ Hr E)|]. rewrite !andb_true_iff. split_and!.
    + by apply (pos_term _ _ _ _ Es H1).
    + by apply (pos_term _ _ _ _ Ep H2).
    + by apply (pos_term _ _ _ _ Eo H3).
    + by apply (pos_graph _ _ _ _ Eg H4).
Qed.

Lemma NoDup_omap_inj {A B} (f : A -> option B) l : (forall x y z, x ∈ l -> y ∈ l -> f x = Some z -> f y = Some z -> x = y) -> NoDup l -> NoDup (omap f l).
Proof.
  intros Hf Hl. induction Hl as [|x l Hx Hl IH]; [constructor|]. assert (NoDup (omap f l)) as Hn.
  { apply IH. intros a b z Ha Hb. apply Hf; by right. }
  cbn. destruct (f x) as [z|] eqn:E; [|done]. constructor; [|done]. rewrite list_elem_of_omap. intros (y & Hy & Ey).
  rewrite (Hf x y z) in Hx; [done|left|by right|done|done].
Qed.

Lemma match_pattern_nodup s p o g : NoDup (match_pattern iter st s p o g).
Proof using Hiter Hr.
  unfold match_pattern. destruct (resolve_pos st s), (resolve_pos st p), (resolve_pos st o), (resolve_pos st g); try constructor.
  apply NoDup_omap_inj; [|apply match_ids_nodup]. intros x y z _ _ H1 H2.
  apply (materialise_ids _ _ _ (ri_dict _ _ Hr)) in H1, H2. congruence.
Qed.

Lemma distinct_triples_spec l : forall seen, NoDup (distinct_triples seen l) /\
  forall s p o, (s, p, o) ∈ distinct_triples seen l <-> (s, p, o) ∉ seen /\ exists g, (s, p, o, g) ∈ l.
Proof.
  induction l as [|[[[s p] o] g] l IH]; intros seen; simpl.
  - split; [constructor|]. intros a b c. rewrite elem_of_nil. split; [done|]. intros (_ & g & []%elem_of_nil).
  - case_decide as Hs.
    + destruct (IH seen) as [H1 H2]. split; [done|]. intros a b c. rewrite H2. split; intros [Hn [g' Hg]]; (split; [done|]).
      * exists g'. by right.
      * apply elem_of_cons in Hg as [[= -> -> -> ->]|Hg]; [done|]. by exists g'.
    + destruct (IH ({[(s, p, o)]} ∪ seen)) as [H1 H2]. split.
      * constructor; [|done]. rewrite H2. set_solver.
      * intros a b c. rewrite elem_of_cons, H2. split.
        -- intros [[= -> -> ->]|[Hn [g' Hg]]]; [split; [done|]; exists g; left|]. split; [set_solver|]. exists g'. by right.
        -- intros [Hn [g' Hg]]. destruct (decide ((a, b, c) = (s, p, o))) as [E|E]; [by left|]. right.
           split; [set_solver|]. exists g'. apply elem_of_cons in Hg as [[= -> -> -> ->]|Hg]; [done|done].
Qed.

Lemma triple_of_ids s p o t : triple_of (dictionary st) s p o = Some t <->
  id_of (dictionary st) (subject t) = Some s /\ id_of (dictionary st) (predicate t) = Some p /\ id_of (dictionary st) (object t) = Some o.
Proof using Hr.
  destruct (ri_dict _ _ Hr) as [Hi _ _]. unfold triple_of. rewrite !Hi. split.
  - destruct (term_of _ s); [|done]. cbn [mbind option_bind]. destruct (term_of _ p); [|done]. cbn [mbind option_bind].
    destruct (term_of _ o); [|done]. by intros [= <-].
  - intros (-> & -> & ->). by destruct t.
Qed.

Lemma match_triples_spec s p o : NoDup (match_triples iter st s p o) /\
  forall t, t ∈ match_triples iter st s p o <-> triple_matches s p o t /\ exists q, q ∈ Q /\ q_triple q = t.
Proof using Hiter Hr.
  assert (forall t, (exists q, q ∈ match_pattern iter st s p o None /\ q_triple q = t) <->
    triple_matches s p o t /\ exists q, q ∈ Q /\ q_triple q = t) as Hpat.
  { intros t. split.
    - intros (q & (Hq & Hm & _)%match_pattern_elem & <-). eauto.
    - intros (Hm & q & Hq & <-). exists q. split; [|done]. by apply match_pattern_elem. }
  unfold match_triples, match_pattern in *. cbn [resolve_pos] in Hpat.
  destruct (resolve_pos st s) as [s'|], (resolve_pos st p) as [p'|], (resolve_pos st o) as [o'|];
    try (split; [constructor|]; intros t; rewrite <- Hpat, elem_of_nil; split; [done|]; by intros (q & ?%elem_of_nil & _)).
  destruct (distinct_triples_spec (match_ids iter st s' p' o' None) ∅) as [H1 H2]. split.
  - apply NoDup_omap_inj; [|done]. intros [[a b] c] [[a' b'] c'] t _ _ (E1 & E2 & E3)%triple_of_ids (F1 & F2 & F3)%triple_of_ids. congruence.
  - intros t. rewrite <- Hpat, list_elem_of_omap. split.
    + intros ([[a b] c] & Hin & Ht). apply H2 in Hin as (_ & g & Hg). pose proof Hg as [Hl _]%match_ids_elem.
      apply (ri_map _ _ Hr) in Hl as (q & Hq & E). exists q. split.
      * apply list_elem_of_omap. exists (a, b, c, g). split; [done|]. by apply (materialise_ids _ _ _ (ri_dict _ _ Hr)).
      * apply quad_ids_inv in E as (E1 & E2 & E3 & _). assert (triple_of (dictionary st) a b c = Some (q_triple q)) as E; [|congruence].
        by apply triple_of_ids.
    + intros (q & Hq & <-). apply list_elem_of_omap in Hq as ([[[a b] c] g] & Hin & Hm). exists (a, b, c). split.
      * apply H2. split; [set_solver|]. by exists g.
      * apply (materialise_ids _ _ _ (ri_dict _ _ Hr)), quad_ids_inv in Hm as (E1 & E2 & E3 & _). by apply triple_of_ids.
Qed.
End Matching.

(** C9: Under every behaviour of the page store and the log, the RDF store
    answers as a set of quads: an insertion says whether the quad was new, a
    deletion whether it was there, an insertion that fails adds nothing, and
    after any history pattern matching returns exactly the matching quads, and
    each matching triple once, whatever order the hash map iterates in.  (A
    deletion that fails has removed the quad from the answers.) *)
Theorem rdf_answers {S} `{PS : PageStore S} `{CS : Checksums} {W} `{WL : WalLog W} iter now ops (e : Engine S W) rs y :
  (forall m, iter m ≡ₚ map_to_list m) -> Z.of_nat (length ops) < 2 ^ 60 ->
  run_rdf_ops iter now ops (e, rdf_new) = Some (rs, y) ->
  exists Q, rdf_effects ops rs ∅ Q /\
    (forall s p o g, NoDup (match_pattern iter y.2 s p o g) /\ forall q, q ∈ match_pattern iter y.2 s p o g <->
       q ∈ Q /\ triple_matches s p o (q_triple q) /\ graph_matches g (q_graph q)) /\
    (forall s p o, NoDup (match_triples iter y.2 s p o) /\ forall t, t ∈ match_triples iter y.2 s p o <->
       triple_matches s p o t /\ exists q, q ∈ Q /\ q_triple q = t).
Proof.
  intros Hit Hn E. destruct (run_rdf_ops_effect iter now ops ∅ (e, rdf_new) rs y E rdf_new_inv) as (Q & He & Hr).
  { unfold ids_left. simpl. lia. }
  exists Q. split; [done|]. split.
  - intros s p o g. split; [by eapply match_pattern_nodup|]. intros q. by apply match_pattern_elem.
  - intros s p o. by apply match_triples_spec.
Qed.
