(* ===== verification/RdfRebuild.v ===== *)
(** * The RDF store survives a restart

    On a healthy page store every history of insertions in the default graph
    succeeds, and scanning the pages afterwards rebuilds the dictionary and the
    map of quads. *)

From stdpp Require Import prelude list gmap strings.
From Stdlib Require Import ZArith Lia.
From S2P Require Import Prelude Bytes Checksum Io LockTable WalRecord WalLog TxManager Key SlottedPage HeapPage BTree BTreeNode BTreeSpec.
From S2P Require Import BTreeInsert BTreeMap GraphRecord GraphHeap GraphHeapSpec GraphEngine GraphEngineSpec GraphHistory.
From S2P Require Import Text RdfTerm RdfStore RdfSpec.

#[local] Open Scope heap_scope.

(** Terms whose record is not shorter than the smallest the heap lemmas cover
    and not longer than a page takes. *)
Definition term_sized (t : Term) : Prop :=
  term_ok t /\ (MIN_RECORD - 9 <= length (term_encode t) <= MAX_INLINE_RECORD_LEN - 9)%nat.

#[global] Instance term_sized_dec t : Decision (term_sized t).
Proof. destruct t; unfold term_sized, term_ok, short_text, is_text; apply _. Defined.

Definition term_bytes (i : Z) (t : Term) : list Z := term_record_encode (mkTermRecord i t).
Definition quad_bytes (ids : QuadIds) : list Z :=
  let '(s, p, o, g) := ids in triple_record_encode (mkTripleRecord s p o g).

(** ** Records of the dictionary and of the quads *)

Lemma put_str_ok b : bytes_ok b -> bytes_ok (put_str b).
Proof. intros Hb. apply bytes_ok_app. split; [apply to_be_ok|done]. Qed.

Lemma term_encode_ok t : term_ok t -> bytes_ok (term_encode t).
Proof.
  assert (forall x, 0 <= x < 256 -> uint 8 x) as Hx by (intros; unfold uint; lia).
  destruct t as [s|s|l]; cbn [term_ok term_encode].
  - intros Hs. constructor; [done|by apply utf8_bytes_ok].
  - intros Hs. constructor; [done|by apply utf8_bytes_ok].
  - intros (H1 & [H2 _] & [H3 _] & _). constructor; [done|]. rewrite !bytes_ok_app. split_and!; try apply put_str_ok; by apply utf8_bytes_ok.
Qed.

Lemma term_bytes_ok i t : term_sized t ->
  bytes_ok (term_bytes i t) /\ (MIN_RECORD <= length (term_bytes i t) <= MAX_INLINE_RECORD_LEN)%nat.
Proof.
  intros [Ht Hl]. unfold term_bytes, term_record_encode. cbn [tr_id tr_term]. split.
  - constructor; [done|]. apply bytes_ok_app. split; [apply to_be_ok|by apply term_encode_ok].
  - cbn [length]. rewrite length_app, length_to_be. unfold MIN_RECORD, MAX_INLINE_RECORD_LEN in *. lia.
Qed.

Lemma quad_bytes_ok ids : bytes_ok (quad_bytes ids) /\ (MIN_RECORD <= length (quad_bytes ids) <= MAX_INLINE_RECORD_LEN)%nat.
Proof.
  destruct ids as [[[s p] o] g]. unfold quad_bytes, triple_record_encode. cbn [tp_s tp_p tp_o tp_g]. split.
  - constructor; [done|]. rewrite !bytes_ok_app. split_and!; apply to_be_ok.
  - cbn [length]. rewrite !length_app, !length_to_be. unfold MIN_RECORD, MAX_INLINE_RECORD_LEN. lia.
Qed.

(** The pages [D] hold one record per dictionary entry at least, the record of
    every quad at its slot, and nothing else. *)
Record stored {S} `{HL : PageStoreLaws S} (D : gset Z) (s : S) (d : TermDictionary) (M : gmap QuadIds SlotRef) : Prop := {
  sd_term t i : id_of d t = Some i -> exists sl, hrec D s sl = Some (term_bytes i t);
  sd_quad ids sl : M !! ids = Some sl -> hrec D s sl = Some (quad_bytes ids);
  sd_only sl bs : hrec D s sl = Some bs ->
    (exists t i, id_of d t = Some i /\ bs = term_bytes i t) \/ (exists ids, M !! ids = Some sl /\ bs = quad_bytes ids)
}.

Lemma stored_same {S S'} `{HL : PageStoreLaws S} `{HL' : PageStoreLaws S'} D (s : S) (s' : S') d M :
  (forall sl, hrec D s' sl = hrec D s sl) -> stored D s d M -> stored D s' d M.
Proof.
  intros Hs [K1 K2 K3]. split.
  - intros t i Hi. destruct (K1 t i Hi) as [sl E]. exists sl. by rewrite Hs.
  - intros ids sl Hm. rewrite Hs. by apply K2.
  - intros sl bs. rewrite Hs. apply K3.
Qed.

Section Prepare.
Context {S : Type} `{HL : PageStoreLaws S} `{CS : Checksums}.
Implicit Types (x y : Overlay S * RdfTripleStore) (D : gset Z).

Lemma stored_term n D D' (s s' : S) d d' M r t i : stored D s d M -> inserted n D D' s s' r (term_bytes i t) ->
  interned d t i true d' -> stored D' s' d' M.
Proof.
  intros [H1 H2 H3] Hins [I1 I2 [I3 _] I4 I5]. destruct Hins as [_ _ _ _ _ Hf Hh Ho _].
  assert (forall sl bs, hrec D s sl = Some bs -> hrec D' s' sl = Some bs) as Hk.
  { intros sl bs E. rewrite Ho; [done|]. intros ->. congruence. }
  split.
  - intros u j Hj. destruct (decide (u = t)) as [->|Hne]; [exists r; congruence|]. rewrite I5 in Hj by done.
    destruct (H1 u j Hj) as [sl E]. eauto.
  - intros ids sl Hm. eauto.
  - intros sl bs E. destruct (decide (sl = r)) as [->|Hne]; [left; exists t, i; split; [done|congruence]|].
    rewrite Ho in E by done. destruct (H3 sl bs E) as [(u & j & Hj & ->)|Hq]; [|by right]. left. exists u, j. split; [|done].
    rewrite I5; [done|]. intros ->. congruence.
Qed.

Lemma stored_quad n D D' (s s' : S) d M r ids : stored D s d M -> inserted n D D' s s' r (quad_bytes ids) ->
  M !! ids = None -> stored D' s' d (<[ids := r]> M).
Proof.
  intros [H1 H2 H3] Hins Hn. destruct Hins as [_ _ _ _ _ Hf Hh Ho _].
  assert (forall sl bs, hrec D s sl = Some bs -> hrec D' s' sl = Some bs) as Hk.
  { intros sl bs E. rewrite Ho; [done|]. intros ->. congruence. }
  split.
  - intros u j Hj. destruct (H1 u j Hj) as [sl E]. eauto.
  - intros i sl [[<- <-]|[_ Hm]]%lookup_insert_Some; [done|eauto].
  - intros sl bs E. destruct (decide (sl = r)) as [->|Hne].
    + right. exists ids. rewrite lookup_insert_eq. split; [done|congruence].
    + rewrite Ho in E by done. destruct (H3 sl bs E) as [Hq|(i & Hi & ->)]; [by left|]. right. exists i.
      rewrite lookup_insert_ne; [done|]. intros <-. congruence.
Qed.
End Prepare.

Section Insert.
Context {S : Type} `{HL : PageStoreLaws S} `{CS : Checksums}.
Implicit Types (x y : Overlay S * RdfTripleStore) (D : gset Z).

(** The pending layer and the store agree, with room for [n] more records. *)
Record prep_ok (n : nat) D x : Prop := {
  po_good : good n D x.1;
  po_pages p : p ∈ D <-> p ∈ rdf_pages x.2;
  po_dict : dict_ok (dictionary x.2);
  po_terms t i : id_of (dictionary x.2) t = Some i -> term_sized t;
  po_stored : stored D x.1 (dictionary x.2) (triples x.2);
  po_next : d_next_id (dictionary x.2) + Z.of_nat n < 2 ^ 63
}.

Lemma persist_record_spec n D x bs : good (Datatypes.S n) D x.1 -> (forall p, p ∈ D <-> p ∈ rdf_pages x.2) ->
  bytes_ok bs -> (MIN_RECORD <= length bs <= MAX_INLINE_RECORD_LEN)%nat ->
  exists r o l D', persist_into_pending bs x = Some (Ok r, (o, set_rdf_pages x.2 l)) /\ inserted n D D' x.1 o r bs /\
    forall p, p ∈ D' <-> p ∈ l.
Proof.
  intros [Hc Hh] Hp Hb Hl. destruct (prepare_into_pending_spec n D x.1 (rdf_pages x.2) bs PtSlottedData Hc Hh) as
    (r & o & l & D' & E & Hins & H1 & H2 & H3); [by intros p ?%Hp|done|done|].
  exists r, o, l, D'. unfold persist_into_pending. rewrite E. split_and!; [done|done|]. intros p. split; [|apply H1].
  intros [H%Hp|H]%H3; [by apply H2|done].
Qed.

Lemma intern_known t i x : id_of (dictionary x.2) t = Some i -> intern_pending t x = Some (Ok i, x).
Proof.
  unfold id_of, intern_pending, hbind, intern_term, intern. intros ->. cbn. unfold set_dictionary. by destruct x as [o []].
Qed.

Lemma intern_pending_ok n D x t : prep_ok (Datatypes.S n) D x -> term_sized t ->
  exists i y D', intern_pending t x = Some (Ok i, y) /\ prep_ok n D' y /\ id_of (dictionary y.2) t = Some i /\
    grown 1 x.2 y.2 /\ index y.2 = index x.2.
Proof.
  intros [P1 P2 P3 P4 P5 P6] Ht.
  destruct (intern_spec _ t P3) as (i & fresh & d' & Ei & Hin); [lia|]. pose proof Hin as [I1 I2 I3 I4 I5].
  destruct fresh.
  - destruct (term_bytes_ok i t Ht) as [Hb Hl].
    destruct (persist_record_spec n D (x.1, set_dictionary x.2 d') (term_bytes i t) P1 P2 Hb Hl) as (r & o & l & D' & E & Hins & Hp).
    exists i, (o, set_rdf_pages (set_dictionary x.2 d') l), D'.
    assert (intern_pending t x = Some (Ok i, (o, set_rdf_pages (set_dictionary x.2 d') l))) as Ep.
    { unfold intern_pending, hbind, intern_term. rewrite Ei. cbn [fst snd]. unfold term_bytes in E. by rewrite E. }
    assert (d_next_id (dictionary x.2) < 2 ^ 64 - 1) as Hn by lia.
    split_and!; [done| |done|exact (proj1 (intern_pending_grown _ _ _ _ Ep P3 Hn))|done]. split; cbn [fst snd dictionary set_rdf_pages set_dictionary rdf_pages triples].
    + split; [exact (ins_calm _ _ _ _ _ _ _ Hins)|exact (ins_heap _ _ _ _ _ _ _ Hins)].
    + done.
    + done.
    + intros u j Hj. destruct (decide (u = t)) as [->|Hne]; [done|]. rewrite I5 in Hj by done. by eapply P4.
    + by eapply stored_term.
    + rewrite I4. lia.
  - subst d'. exists i, x, D. split_and!; [by apply intern_known| |done|by split; [|auto|lia|]|done].
    destruct P1 as [Hc Hh]. split; try done; [split; [by apply ps_calm_S|done]|lia].
Qed.

(** A new quad of the default graph. *)
Lemma prepare_fresh n D x Q t : prep_ok (4 + n) D x -> rdf_inv Q x.2 -> quad_of t ∉ Q ->
  term_sized (subject t) -> term_sized (predicate t) -> term_sized (object t) ->
  exists ids slot y D', prepare_quad (quad_of t) x = Some (Ok (Some (ids, slot)), y) /\
    prep_ok n D' (y.1, set_triples y.2 (<[ids := slot]> (triples y.2))) /\ good n D' y.1 /\ quad_ids (dictionary y.2) (quad_of t) = Some ids /\
    grown 4 x.2 y.2 /\ index y.2 = index x.2 /\ slot_ok slot /\ ids = (ids.1.1.1, ids.1.1.2, ids.1.2, 0).
Proof.
  intros P Hr Hq Hs Hp Ho.
  destruct (intern_pending_ok _ D x (subject t) P Hs) as (i1 & x1 & D1 & E1 & P1 & H1 & G1 & X1).
  destruct (intern_pending_ok _ D1 x1 (predicate t) P1 Hp) as (i2 & x2 & D2 & E2 & P2 & H2 & G2 & X2).
  destruct (intern_pending_ok _ D2 x2 (object t) P2 Ho) as (i3 & x3 & D3 & E3 & P3 & H3 & G3 & X3).
  pose proof (grown_trans _ _ _ _ _ (grown_trans _ _ _ _ _ G1 G2) G3) as G.
  assert (quad_ids (dictionary x3.2) (quad_of t) = Some (i1, i2, i3, 0)) as Eq.
  { apply quad_ids_intro; [apply (gr_keep _ _ _ G3), (gr_keep _ _ _ G2), H1|apply (gr_keep _ _ _ G3), H2|exact H3|done]. }
  assert (triples x3.2 !! (i1, i2, i3, 0) = None) as Hfree.
  { apply eq_None_not_Some. intros Hl. by apply (live_quad _ _ _ _ (grown_inv _ _ _ _ G Hr) Eq) in Hl. }
  destruct (quad_bytes_ok (i1, i2, i3, 0)) as [Hb Hl]. destruct P3 as [Q1 Q2 Q3 Q4 Q5 Q6].
  destruct (persist_record_spec n D3 x3 (quad_bytes (i1, i2, i3, 0)) Q1 Q2 Hb Hl) as (r & o & l & D' & E4 & Hins & Hpg).
  exists (i1, i2, i3, 0), r, (o, set_rdf_pages x3.2 l), D'. split_and!.
  - assert (is_stored (i1, i2, i3, 0) x3 = Some (Ok false, x3)) as E5.
    { unfold is_stored. rewrite bool_decide_eq_false_2; [done|]. intros [sl Hsl]. pose proof (eq_trans (eq_sym Hfree) Hsl). done. }
    unfold prepare_quad, hbind. cbn [quad_of q_triple q_graph]. rewrite E1, E2, E3. unfold hret at 1. rewrite E5.
    cbn [quad_bytes] in E4. by rewrite E4.
  - split; cbn [fst snd set_triples set_rdf_pages dictionary rdf_pages triples]; try done.
    + split; [exact (ins_calm _ _ _ _ _ _ _ Hins)|exact (ins_heap _ _ _ _ _ _ _ Hins)].
    + by eapply stored_quad.
    + lia.
  - split; [exact (ins_calm _ _ _ _ _ _ _ Hins)|exact (ins_heap _ _ _ _ _ _ _ Hins)].
  - done.
  - destruct G as [G4 G5 G6 G7]. split; simpl; try done. lia.
  - simpl. congruence.
  - exact (ins_range _ _ _ _ _ _ _ Hins).
  - done.
Qed.
End Insert.

(** ** The permutation trees *)

Lemma widths_40 : widths_ok 40 SLOT_BYTES.
Proof. split; unfold SLOT_BYTES; lia. Qed.

Definition index3 (n : nat) (x : RdfIndex) : Prop :=
  exists m1 m2 m3, index_is 40 n (spo x) m1 /\ index_is 40 n (pos x) m2 /\ index_is 40 n (osp x) m3.

Lemma rdf_keys_ok t : key_ok 40 (spo_key t) /\ key_ok 40 (pos_key t) /\ key_ok 40 (osp_key t).
Proof.
  unfold spo_key, pos_key, osp_key, rdf_spo_key, rdf_pos_key, rdf_osp_key, push_u128_be, push_u64_be, empty, key_ok. cbn [app].
  split_and!; rewrite ?length_app, ?length_to_be, ?bytes_ok_app; try done; split_and!; apply to_be_ok.
Qed.

Lemma rix_insert_ok n t slot x : index3 (S n) x -> slot_ok slot ->
  exists x', rix_insert t slot None x = Some (Ok true, x') /\ index3 n x'.
Proof.
  intros (m1 & m2 & m3 & H1 & H2 & H3) Hs. destruct (rdf_keys_ok t) as (K1 & K2 & K3).
  pose proof (encode_slot_val slot Hs) as Hv.
  destruct (GraphEngineSpec.index_insert 40 widths_40 n _ m1 _ _ H1 K1 Hv) as (t1 & E1 & I1).
  destruct (GraphEngineSpec.index_insert 40 widths_40 n _ m2 _ _ H2 K2 Hv) as (t2 & E2 & I2).
  destruct (GraphEngineSpec.index_insert 40 widths_40 n _ m3 _ _ H3 K3 Hv) as (t3 & E3 & I3).
  exists (mkRdfIndex t1 t2 t3). unfold rix_insert, encode_value. rewrite app_nil_r. change (to_be 4 (raw slot)) with (encode_slot_ref slot).
  cbv zeta. rewrite E1. cbn [then_tree pos osp spo]. rewrite E2. cbn [then_tree pos osp spo]. rewrite E3. split; [done|]. eexists _, _, _. split_and!; [exact I1|exact I2|exact I3].
Qed.

Lemma index3_le n n' x : (n' <= n)%nat -> index3 n x -> index3 n' x.
Proof.
  intros Hn (m1 & m2 & m3 & H1 & H2 & H3). exists m1, m2, m3.
  split_and!; (eapply index_is_le; [exact widths_40|exact Hn|done]).
Qed.

(** The number of insertions the theorem covers: one more could fill a branch
    of a 40-byte index beyond the size [window_free] excludes. *)
Definition MAX_QUADS : nat := 154.

Lemma index3_new n : (n <= MAX_QUADS)%nat -> index3 n rix_new.
Proof.
  intros Hn. assert (index_is 40 n tree_new ∅) as Ht; [|by exists ∅, ∅, ∅].
  exists []. split_and!; [apply tree_new_inv, widths_40|done| |].
  - right. unfold branch_size, MAX_QUADS in *. simpl. nia.
  - unfold MAX_QUADS in *. cbn [next_page_id tree_new]. lia.
Qed.

(** ** Insertions on a healthy store *)

Section Engine.
Context {S : Type} `{HL : PageStoreLaws S} `{CS : Checksums} {W : Type} `{WL : WalLog W}.
Implicit Types (x y : Engine S W * RdfTripleStore) (D : gset Z).

Definition triple_sized (t : Triple) : Prop := term_sized (subject t) /\ term_sized (predicate t) /\ term_sized (object t).

#[global] Instance triple_sized_dec t : Decision (triple_sized t).
Proof. unfold triple_sized. apply _. Defined.

(** The store holds the quads [Q], all of the default graph, and the pages hold
    the store; room for [n] more insertions. *)
Record rdf_rep (n : nat) (Q : gset Quad) x : Prop := {
  rr_inv : rdf_inv Q x.2;
  rr_default q : q ∈ Q -> q_graph q = None;
  rr_good : exists D, good (4 * n) D (page_manager x.1) /\ (forall p, p ∈ D <-> p ∈ rdf_pages x.2) /\
    stored D (page_manager x.1) (dictionary x.2) (triples x.2);
  rr_terms t i : id_of (dictionary x.2) t = Some i -> term_sized t;
  rr_next : d_next_id (dictionary x.2) + Z.of_nat (4 * n) < 2 ^ 63;
  rr_idle : tm_idle (txn_manager x.1);
  rr_wal : wal_steady (wal_writer x.1);
  rr_index : index3 n (index x.2);
  rr_size : (size (triples x.2) + n <= MAX_QUADS)%nat
}.

Lemma rdf_rep_S n Q x : rdf_rep (Datatypes.S n) Q x -> rdf_rep n Q x.
Proof.
  intros [R1 R2 (D & [Hc Hh] & Hp & Hs) R4 R5 R6 R7 R8 R9]. split; try done; [|lia|by apply (index3_le (Datatypes.S n)); [lia|]|lia].
  exists D. split_and!; [|done|done]. split; [|done]. replace (4 * Datatypes.S n)%nat with (4 + 4 * n)%nat in Hc by lia.
  by do 4 apply ps_calm_S.
Qed.

Lemma overlay_empty n D (s : S) : good n D s -> good n D (mkOverlay ∅ s) /\ forall sl, hrec D (mkOverlay ∅ s) sl = hrec D s sl.
Proof.
  intros [Hc Hh]. assert (forall p, ps_image (mkOverlay ∅ s) p = ps_image s p) as Hi.
  { intros p. simpl. unfold overlay_image. simpl. by rewrite lookup_empty. }
  split.
  - split; [split; [done|]; intros p b Hb; simpl in Hb; by rewrite lookup_empty in Hb|]. intros p Hp. rewrite Hi. by apply Hh.
  - intros sl. unfold hrec. by rewrite Hi.
Qed.

Lemma add_known now t Q x n : rdf_rep n Q x -> quad_of t ∈ Q -> add_triple now t x = Some (Ok false, x).
Proof.
  intros [R1 _ _ _ _ _ _ _ _] Hq. destruct (ri_known _ _ R1 _ Hq) as [[[[s p] o] g] E].
  pose proof E as (E1 & E2 & E3 & [= <-])%quad_ids_inv. cbn [quad_of q_triple] in *.
  pose proof (proj2 (live_quad _ _ _ _ R1 E) Hq) as Hl.
  set (z := (mkOverlay ∅ (page_manager x.1), x.2)).
  assert (is_stored (s, p, o, 0) z = Some (Ok true, z)) as E5 by (unfold is_stored; by rewrite bool_decide_eq_true_2).
  assert (prepare_quad (quad_of t) z = Some (Ok None, z)) as E6.
  { unfold prepare_quad, hbind. cbn [quad_of q_triple q_graph].
    rewrite (intern_known _ s z), (intern_known _ p z), (intern_known _ o z) by done. unfold hret at 1. by rewrite E5. }
  unfold add_triple, add_quad, hbind, prepare_on. fold z. rewrite E6. cbn. unfold hret. by destruct x as [[] ?].
Qed.

Lemma map_size_insert_le (ids : QuadIds) (slot : SlotRef) (m : gmap QuadIds SlotRef) : (size (<[ids := slot]> m) <= Datatypes.S (size m))%nat.
Proof. rewrite map_size_insert. destruct (m !! ids); simpl; lia. Qed.

Lemma add_new now t Q x n : rdf_rep (Datatypes.S n) Q x -> quad_of t ∉ Q -> triple_sized t ->
  exists y, add_triple now t x = Some (Ok true, y) /\ rdf_rep n ({[quad_of t]} ∪ Q) y.
Proof.
  intros [R1 R2 (D & Hg & Hp & Hs) R4 R5 R6 R7 R8 R9] Hq (Ts & Tp & To).
  destruct (overlay_empty _ _ _ Hg) as [Hgo Hro].
  assert (prep_ok (4 + 4 * n) D (mkOverlay ∅ (page_manager x.1), x.2)) as P.
  { replace (4 + 4 * n)%nat with (4 * Datatypes.S n)%nat by lia. split; cbn [fst snd]; try done; [apply R1|by eapply stored_same]. }
  destruct (prepare_fresh _ D _ Q t P R1 Hq Ts Tp To) as (ids & slot & [o st] & D' & E1 & P1 & Hg1 & Eq & G & Ex & Hsl & Eids).
  cbn [fst snd] in *. destruct P1 as [Q1 Q2 Q3 Q4 Q5 Q6]. cbn [fst snd set_triples dictionary rdf_pages triples] in *.
  set (e1 := set_pages x.1 (GraphHeap.base o)).
  destruct (begun_ready (txn_manager x.1) R6) as (tx & m1 & Eb & Hrdy).
  set (e2 := set_journal e1 m1 (wal_writer e1)).
  destruct (commit_pages_spec (4 * n) D' e2 now tx (pending o)) as (s' & l & m & w & E3 & Hg3 & Hr3 & Hi3 & Hw3 & _); [by destruct o|done|done|].
  rewrite <- Ex in R8. destruct (rix_insert_ok n (rdf_triple ids) slot (index st) R8 Hsl) as (ix & E4 & Hix).
  assert (graph_id ids = None) as Egr by (by rewrite Eids).
  eexists (_, set_triples (set_rdf_index st ix) (<[ids := slot]> (triples st))). split.
  - assert (prepare_on (quad_of t) x = Some (Ok (Some (ids, slot), pending o), (e1, st))) as S1
      by (unfold prepare_on; by rewrite E1).
    assert (on_engine begin_transaction (e1, st) = Some (Ok tx, (e2, st))) as S2.
    { unfold on_engine, begin_transaction. cbn [fst snd]. change (txn_manager e1) with (txn_manager x.1). by rewrite Eb. }
    assert (on_engine (commit_pages now tx (pending o)) (e2, st) = Some (Ok tt, (set_pages (set_journal (set_wal e2 l w) m w) s', st))) as S3
      by (unfold on_engine; cbn [fst snd]; by rewrite E3).
    unfold add_triple, add_quad, hbind. rewrite S1. cbn [fst snd]. rewrite S2, S3.
    unfold commit_prepared, RdfStore.index_insert. cbn [snd fst]. rewrite Egr, E4. done.
  - assert (forall sl, hrec D' s' sl = hrec D' o sl) as Hro' by (intros sl; rewrite Hr3; by destruct o).
    split; cbn [fst snd set_triples set_rdf_index dictionary rdf_pages triples index page_manager set_pages txn_manager set_journal wal_writer].
    + apply (insert_inv Q (set_rdf_index st ix) (quad_of t) ids slot); [|done]. eapply inv_same; [| |exact (grown_inv _ _ _ _ G R1)]; done.
    + intros q [->%elem_of_singleton|Hin]%elem_of_union; [done|by apply R2].
    + exists D'. split_and!; [exact Hg3|exact Q2|exact (stored_same D' o s' _ _ Hro' Q5)].
    + done.
    + pose proof (gr_next _ _ _ G). simpl in *. lia.
    + done.
    + done.
    + done.
    + rewrite (gr_triples _ _ _ G). cbn [snd]. pose proof (map_size_insert_le ids slot (triples x.2)). lia.
Qed.
End Engine.

(** ** Reading the pages back *)

(** The dictionary entries among some records. *)
Definition term_entry (r : nat * list Z) : option (Z * Term) :=
  if is_term_record r.2 then (fun t => (tr_id t, tr_term t)) <$> term_record_decode r.2 else None.

Lemma replay_terms_spec l : forall d f,
  (foldl replay_term (d, f) l).1 = reinsert_all (omap term_entry l) d /\
  ((foldl replay_term (d, f) l).2 = true <-> f = true \/ exists r, r ∈ l /\ (is_Some (term_entry r) \/ is_term_record r.2 = false /\ is_triple_record r.2 = true)).
Proof.
  induction l as [|r l IH]; intros d f; simpl.
  - split; [done|]. split; [by left|]. intros [?|(r & []%elem_of_nil & _)]. done.
  - unfold replay_term at 2 4. unfold term_entry at 1. cbn [fst snd]. destruct (is_term_record r.2) eqn:Et.
    + destruct (term_record_decode r.2) as [t|] eqn:Ed; cbn [fmap option_fmap option_map].
      * destruct (IH (reinsert d (tr_id t) (tr_term t)) true) as [-> ->]. split; [done|]. split; [|by left]. intros _. right. exists r.
        split; [left|]. left. unfold term_entry. rewrite Et, Ed. by eexists.
      * destruct (IH d f) as [-> ->]. split; [done|]. setoid_rewrite elem_of_cons. split; [naive_solver|].
        intros [?|(r0 & [->|Hin] & H0)]; [by left| |right; eauto]. destruct H0 as [[e He]|[He _]]; [|congruence].
        unfold term_entry in He. by rewrite Et, Ed in He.
    + destruct (is_triple_record r.2) eqn:Eq.
      * destruct (IH d true) as [-> ->]. split; [done|]. split; [|by left]. intros _. right. exists r. split; [left|]. by right.
      * destruct (IH d f) as [-> ->]. split; [done|]. setoid_rewrite elem_of_cons. split; [naive_solver|].
        intros [?|(r0 & [->|Hin] & H0)]; [by left| |right; eauto]. destruct H0 as [[e He]|[_ He]]; [|congruence].
        unfold term_entry in He. by rewrite Et in He.
Qed.

Section Rebuild.
Context {S : Type} `{HL : PageStoreLaws S} `{CS : Checksums}.
Context (n : nat) (D : gset Z).
Implicit Types (s : S).

Definition page_recs s (p : Z) : list (nat * list Z) := match ps_image s p with Some b => records_of b | None => [] end.

Lemma records_of_elem b i bs : (i, bs) ∈ records_of b <-> (i < slot_count b)%nat /\ read b i = Some bs.
Proof.
  unfold records_of. rewrite list_elem_of_omap. split.
  - intros (j & Hj%elem_of_seq & Hr). apply fmap_Some in Hr as (x & Hx & [= -> ->]). split; [lia|done].
  - intros [Hi Hr]. exists i. rewrite elem_of_seq, Hr. split; [lia|done].
Qed.

Lemma page_recs_elem s p i bs : good n D s -> p ∈ D ->
  (i, bs) ∈ page_recs s p <-> (i < 256)%nat /\ hrec D s (slot_new p (Z.of_nat i)) = Some bs.
Proof.
  intros [Hc Hh] Hp. destruct (Hh p Hp) as (Hr & b & lens & Hb & Hpk & Hmin). unfold page_recs. rewrite Hb, records_of_elem.
  pose proof (packed_count_bound b lens MIN_RECORD Hpk Hmin) as Hcount.
  assert (length lens < 256)%nat as Hl by (unfold MIN_RECORD in Hcount; page_lia).
  rewrite (pk_count _ _ Hpk). split.
  - intros [Hi Hrd]. split; [lia|]. destruct (slot_new_parts p (Z.of_nat i)) as (P1 & P2 & P3 & _); [lia|unfold uint; lia|].
    unfold hrec. rewrite decide_True by (by rewrite P1). rewrite P1, Hb. cbn [mbind option_bind]. by rewrite P2, Nat2Z.id.
  - intros [Hi Hrd]. destruct (slot_new_parts p (Z.of_nat i)) as (P1 & P2 & P3 & _); [lia|unfold uint; lia|].
    apply hrec_inv in Hrd as (_ & _ & b' & Hb' & Hrd). rewrite P1 in Hb'. rewrite P2, Nat2Z.id in Hrd.
    assert (b' = b) as -> by congruence. split; [|done]. apply (packed_read_length _ _ Hpk) in Hrd. by apply lookup_lt_Some in Hrd.
Qed.

Lemma read_page s p : good n D s -> p ∈ D -> exists b s', ps_read p s = Some (Ok b, s') /\ page_recs s p = records_of b /\
  good n D s' /\ quiet s s'.
Proof.
  intros [Hc Hh] Hp. destruct (Hh p Hp) as (Hr & b & lens & Hb & _). destruct (ps_read_ok n s p b Hc Hb) as (s' & E & Hc' & Hq).
  exists b, s'. unfold page_recs. rewrite Hb. split_and!; [done|done|by eapply quiet_good|done].
Qed.

Lemma page_recs_quiet s s' p : quiet s s' -> page_recs s' p = page_recs s p.
Proof. intros [Hq _]. unfold page_recs. by rewrite Hq. Qed.

(** Records the first pass counts a page for. *)
Definition rdf_record (r : nat * list Z) : Prop := is_Some (term_entry r) \/ is_term_record r.2 = false /\ is_triple_record r.2 = true.

Lemma rebuild_terms_spec allocated : forall d s, good n D s -> (forall p, p ∈ allocated -> p < 3 \/ p ∈ D) ->
  exists es l s', rebuild_terms allocated d s = Some (reinsert_all es d, l, s') /\ good n D s' /\ quiet s s' /\
    (forall e, e ∈ es <-> exists p r, p ∈ allocated /\ p ∈ D /\ r ∈ page_recs s p /\ term_entry r = Some e) /\
    (forall p, p ∈ l <-> p ∈ allocated /\ p ∈ D /\ exists r, r ∈ page_recs s p /\ rdf_record r).
Proof.
  induction allocated as [|p ps IH]; intros d s Hg Hall; simpl.
  - exists [], [], s. split_and!; try done; intros x; rewrite elem_of_nil; (split; [done|]).
    + by intros (p & r & []%elem_of_nil & _).
    + by intros ([] & _).
  - destruct (Z.ltb_spec p 3) as [Hlt|Hge].
    + destruct (IH d s Hg) as (es & l & s' & E & Hg' & Hq & He & Hl); [intros q Hq; apply Hall; by right|].
      exists es, l, s'. rewrite E. assert (p ∉ D) as Hn. { intros Hp. destruct (proj2 Hg p Hp) as [? _]. lia. }
      split_and!; try done; intros y; rewrite ?He, ?Hl; setoid_rewrite elem_of_cons; naive_solver.
    + destruct (Hall p ltac:(left)) as [?|Hp]; [lia|]. destruct (read_page s p Hg Hp) as (b & s1 & E1 & Er & Hg1 & Hq1). rewrite E1.
      destruct (replay_terms_spec (records_of b) d false) as [Hd Hf]. destruct (foldl replay_term (d, false) (records_of b)) as [d1 f] eqn:Ef.
      cbn [fst snd] in Hd, Hf. subst d1.
      destruct (IH (reinsert_all (omap term_entry (records_of b)) d) s1 Hg1) as (es & l & s' & E & Hg' & Hq & He & Hl); [intros q Hq; apply Hall; by right|].
      setoid_rewrite (page_recs_quiet s s1) in He; [|done]. setoid_rewrite (page_recs_quiet s s1) in Hl; [|done].
      exists (omap term_entry (records_of b) ++ es), (if f then p :: l else l), s'. rewrite E. cbn [mbind option_bind].
      split_and!; [by unfold reinsert_all; rewrite foldl_app|done|destruct Hq1, Hq; split; intros q; etrans; eauto| |].
      * intros e. rewrite elem_of_app, He, list_elem_of_omap, <- Er. split.
        -- intros [(r & Hr & Hre)|(q & r & Hq' & H')]; [exists p, r; split; [left|done]|exists q, r; split; [by right|done]].
        -- intros (q & r & [->|Hq']%elem_of_cons & HqD & Hr & Hre); [left; eauto|right; eauto 6].
      * intros q. rewrite elem_of_cons. transitivity ((f = true /\ q = p) \/ q ∈ l); [destruct f; [rewrite elem_of_cons; naive_solver|naive_solver]|].
        rewrite Hf, Hl, <- Er. unfold rdf_record. split.
        -- intros [[[?|(r & Hr)] ->]|(H1 & H2 & H3)]; [done|split_and!; [by left|done|eauto]|split_and!; [by right|done|done]].
        -- intros ([->|Hq'] & HqD & r & Hr); [left; split; [right; eauto|done]|right; split_and!; [done|done|eauto]].
Qed.

(** ** The second pass *)

(** Ids as the store hands them out, in the default graph. *)
Definition ids_ok (ids : QuadIds) : Prop :=
  let '(s, p, o, g) := ids in is_u64 s /\ is_u64 p /\ is_u64 o /\ g = 0.

Lemma quad_bytes_decode ids : ids_ok ids -> triple_record_decode (quad_bytes ids) =
  Some (let '(s, p, o, g) := ids in mkTripleRecord s p o g).
Proof.
  destruct ids as [[[s p] o] g]. intros (H1 & H2 & H3 & ->). apply triple_record_roundtrip. done.
Qed.

Lemma quad_bytes_kind ids : is_triple_record (quad_bytes ids) = true /\ is_term_record (quad_bytes ids) = false.
Proof. by destruct ids as [[[s p] o] g]. Qed.
Lemma term_bytes_kind i t : is_triple_record (term_bytes i t) = false /\ is_term_record (term_bytes i t) = true.
Proof. done. Qed.

Context (M : gmap QuadIds SlotRef) (N : nat).
Context (HM : forall ids sl, M !! ids = Some sl -> ids_ok ids) (HN : (size M <= N)%nat).

(** A partly rebuilt store. *)
Record partial (d : TermDictionary) (st : RdfTripleStore) : Prop := {
  pa_dict : dictionary st = d;
  pa_sub : triples st ⊆ M;
  pa_index : index3 (N - size (triples st)) (index st)
}.

Lemma replay_record d p i ids st : 0 <= p <= MAX_PAGE_ID -> (i < 256)%nat -> partial d st ->
  M !! ids = Some (slot_new p (Z.of_nat i)) ->
  exists st', replay_triple p st (i, quad_bytes ids) = Some st' /\ partial d st' /\
    triples st' = <[ids := slot_new p (Z.of_nat i)]> (triples st).
Proof using HM HN.
  intros Hp Hi [P1 P2 P3] Hm. pose proof (HM _ _ Hm) as Hok. unfold replay_triple. cbn [fst snd].
  destruct (quad_bytes_kind ids) as [-> _]. cbn [negb]. rewrite (quad_bytes_decode ids Hok).
  assert (wrap 32 p = p) as -> by (apply wrap_id; unfold uint, MAX_PAGE_ID in *; lia).
  assert (wrap 8 (Z.of_nat i) = Z.of_nat i) as -> by (apply wrap_id; unfold uint; lia).
  assert (exists a b c, ids = (a, b, c, 0)) as (a & b & c & ->).
  { destruct ids as [[[a b] c] g]. destruct Hok as (_ & _ & _ & ->). by exists a, b, c. }
  cbn [tp_s tp_p tp_o tp_g]. set (sl := slot_new p (Z.of_nat i)) in *. set (ids := (a, b, c, 0) : QuadIds).
  assert (<[ids := sl]> (triples st) ⊆ M) as Hsub by (by apply insert_subseteq_l).
  destruct (triples st !! ids) as [sl0|] eqn:E.
  - rewrite bool_decide_eq_false_2 by (intros Hx; pose proof (eq_trans (eq_sym E) Hx); done). eexists. split; [done|]. split; [|done]. split; cbn [dictionary triples index set_triples]; try done.
    rewrite insert_id; [done|]. pose proof (lookup_weaken _ _ _ _ E P2) as E'.
    exact (eq_trans E (eq_trans (eq_sym E') Hm)).
  - rewrite bool_decide_eq_true_2 by exact E. pose proof (map_size_insert_None ids sl (triples st) E) as Hsz.
    pose proof (map_subseteq_size _ _ Hsub) as Hle. rewrite Hsz in Hle.
    destruct (rix_insert_ok (N - Datatypes.S (size (triples st))) (rdf_triple ids) sl (index st)) as (ix & Ex & Hix).
    { replace (Datatypes.S (N - Datatypes.S (size (triples st)))) with (N - size (triples st))%nat by lia. done. }
    { apply (slot_new_parts p (Z.of_nat i)); [lia|unfold uint; lia]. }
    unfold RdfStore.index_insert. change (graph_id ids) with (@None Z). cbn [set_triples index]. rewrite Ex. cbn [mbind option_bind].
    eexists. split; [done|]. split; [|done]. split; cbn [set_rdf_index set_triples dictionary triples index]; [done|done|].
    match goal with |- index3 (N - ?z) _ => change z with (size (<[ids := sl]> (triples st))) end. by rewrite Hsz.
Qed.

(** The quads recorded among some records of page [p]. *)
Definition found (p : Z) (recs : list (nat * list Z)) (ids : QuadIds) (sl : SlotRef) : Prop :=
  M !! ids = Some sl /\ exists i, (i, quad_bytes ids) ∈ recs /\ sl = slot_new p (Z.of_nat i).

Lemma replay_page d p recs : forall st, 0 <= p <= MAX_PAGE_ID -> partial d st ->
  (forall i bs, (i, bs) ∈ recs -> (i < 256)%nat /\ ((exists t j, bs = term_bytes j t) \/
     exists ids, M !! ids = Some (slot_new p (Z.of_nat i)) /\ bs = quad_bytes ids)) ->
  exists st', replay_triples p recs st = Some st' /\ partial d st' /\
    (forall ids sl, triples st' !! ids = Some sl <-> triples st !! ids = Some sl \/ found p recs ids sl).
Proof using HM HN.
  induction recs as [|[i bs] recs IH]; intros st Hp Hst Hrecs; cbn [replay_triples].
  - exists st. split_and!; try done. intros ids sl. split; [by left|]. intros [?|(_ & i & []%elem_of_nil & _)]. done.
  - destruct (Hrecs i bs ltac:(left)) as [Hi [(t & j & ->)|(ids & Hm & ->)]].
    + unfold replay_triple at 1. cbn [snd]. destruct (term_bytes_kind j t) as [-> _]. cbn [negb mbind option_bind].
      destruct (IH st Hp Hst) as (st' & E & Hp' & Hf); [intros; apply Hrecs; by right|]. exists st'. split_and!; try done.
      intros ids sl. rewrite Hf. unfold found. setoid_rewrite elem_of_cons. split; [naive_solver|].
      intros [?|(Hm & k & [[= -> Eb]|Hk] & ->)]; [by left| |right; eauto].
      pose proof (proj1 (quad_bytes_kind ids)) as K. rewrite Eb in K. done.
    + destruct (replay_record d p i ids st Hp Hi Hst Hm) as (st1 & E1 & Hst1 & Et). rewrite E1. cbn [mbind option_bind].
      destruct (IH st1 Hp Hst1) as (st' & E & Hp' & Hf); [intros; apply Hrecs; by right|]. exists st'. split_and!; try done.
      intros ids' sl. rewrite Hf, Et. unfold found. setoid_rewrite elem_of_cons. rewrite lookup_insert_Some. split.
      * intros [[[<- <-]|[Hne ?]]|?]; [right; split; [done|]; exists i; split; [by left|done]|by left|naive_solver].
      * intros [Hin|(Hm' & k & [[= -> Eb]|Hk] & ->)]; [| |right; eauto].
        -- left. destruct (decide (ids = ids')) as [<-|Hne]; [left|by right]. split; [done|].
           pose proof (lookup_weaken _ _ _ _ Hin (pa_sub _ _ Hst)). congruence.
        -- left. assert (ids' = ids) as ->; [|by left]. pose proof (quad_bytes_decode _ (HM _ _ Hm)) as K1.
           pose proof (quad_bytes_decode _ (HM _ _ Hm')) as K2. rewrite Eb in K2. rewrite K1 in K2.
           destruct ids as [[[? ?] ?] ?], ids' as [[[? ?] ?] ?]. by injection K2 as -> -> -> ->.
Qed.

Lemma rebuild_triples_spec d dfull pages : forall st s, good n D s -> stored D s dfull M -> (forall p, p ∈ pages -> p ∈ D) -> partial d st ->
  exists st' s', rebuild_triples pages st s = Some (st', s') /\ good n D s' /\ quiet s s' /\ partial d st' /\
    (forall ids sl, triples st' !! ids = Some sl <->
       triples st !! ids = Some sl \/ exists p, p ∈ pages /\ found p (page_recs s p) ids sl).
Proof using HM HN.
  induction pages as [|p ps IH]; intros st s Hg Hs Hin Hst; cbn [rebuild_triples].
  - exists st, s. split_and!; try done. intros ids sl. split; [by left|]. intros [?|(p & []%elem_of_nil & _)]. done.
  - assert (p ∈ D) as Hp by (apply Hin; left). destruct (read_page s p Hg Hp) as (b & s1 & E1 & Er & Hg1 & Hq1). rewrite E1.
    destruct (proj2 Hg p Hp) as [Hpr _].
    destruct (replay_page d p (records_of b) st) as (st1 & E2 & Hst1 & Hf); [lia|done| |].
    { intros i bs. rewrite <- Er, page_recs_elem by done. intros [Hi Hh]. split; [done|].
      destruct (sd_only _ _ _ _ Hs _ _ Hh) as [(t & j & _ & ->)|(ids & Hm & ->)]; [left; eauto|right; eauto]. }
    rewrite E2. cbn [mbind option_bind].
    destruct (IH st1 s1 Hg1) as (st' & s' & E & Hg' & Hq & Hp' & Hf').
    { eapply stored_same; [|exact Hs]. intros sl. by apply quiet_hrec. }
    { intros q Hq. apply Hin. by right. }
    { done. }
    exists st', s'. split_and!; [done|done|destruct Hq1, Hq; split; intros q; etrans; eauto|done|].
    intros ids sl. rewrite Hf', Hf, <- Er. setoid_rewrite (page_recs_quiet s s1); [|done]. setoid_rewrite elem_of_cons. naive_solver.
Qed.
End Rebuild.

(** ** Histories *)

Section Histories.
Context {S : Type} `{HL : PageStoreLaws S} `{CS : Checksums} {W : Type} `{WL : WalLog W}.
Context (iter : gmap QuadIds SlotRef -> list (QuadIds * SlotRef)).

Definition insertions (ts : list Triple) : list rdf_op := (fun t => AddQuad (quad_of t)) <$> ts.

Lemma engine_new_rdf k (s : S) (w : W) lsn : ps_calm (4 * k) s -> wal_steady w -> (k <= MAX_QUADS)%nat ->
  rdf_rep k ∅ (engine_new s w lsn, rdf_new).
Proof.
  intros Hs Hw Hk. split; cbn [fst snd engine_new page_manager txn_manager wal_writer]; try done.
  - apply rdf_new_inv.
  - exists ∅. split_and!; [split; [done|intros p; set_solver]|intros p; simpl; set_solver|].
    assert (forall sl, hrec ∅ s sl = None) as Hn. { intros sl. unfold hrec. by rewrite decide_False by set_solver. }
    split; simpl.
    + intros t i. unfold id_of. simpl. by rewrite lookup_empty.
    + intros ids sl. by rewrite lookup_empty.
    + intros sl bs. by rewrite Hn.
  - unfold MAX_QUADS in Hk. cbn [dictionary rdf_new dict_new d_next_id]. lia.
  - apply tm_new_idle.
  - by apply index3_new.
Qed.

Lemma insertions_spec now ts : forall Q (x : Engine S W * RdfTripleStore), rdf_rep (length ts) Q x -> Forall triple_sized ts ->
  exists rs y, run_rdf_ops iter now (insertions ts) x = Some (rs, y) /\
    rdf_rep 0 (list_to_set (quad_of <$> ts) ∪ Q) y /\ Forall (fun r => exists b, r = Ok b) rs /\
    rdf_effects (insertions ts) rs Q (list_to_set (quad_of <$> ts) ∪ Q).
Proof.
  induction ts as [|t ts IH]; intros Q x Hr Hts; cbn [insertions fmap list_fmap run_rdf_ops].
  - exists [], x. replace (list_to_set _ ∪ Q) with Q by (simpl; set_solver). split_and!; done.
  - apply Forall_cons in Hts as [Ht Hts]. cbn [run_rdf_op].
    assert (exists b y, add_quad now (quad_of t) x = Some (Ok b, y) /\ rdf_rep (length ts) ({[quad_of t]} ∪ Q) y /\
      rdf_effect (AddQuad (quad_of t)) (Ok b) Q ({[quad_of t]} ∪ Q)) as (b & x1 & E1 & Hr1 & He).
    { destruct (decide (quad_of t ∈ Q)) as [Hin|Hn].
      - exists false, x. replace ({[quad_of t]} ∪ Q) with Q by set_solver.
        split_and!; [by eapply add_known|by apply rdf_rep_S|done].
      - destruct (add_new now t Q x (length ts) Hr Hn Ht) as (y & E & Hr'). by exists true, y. }
    rewrite E1. cbn [mbind option_bind]. destruct (IH _ _ Hr1 Hts) as (rs & y & E & Hr' & Hok & Hes).
    unfold insertions in E, Hes. rewrite E. cbn [mbind option_bind]. exists (Ok b :: rs), y.
    assert (list_to_set (quad_of <$> ts) ∪ ({[quad_of t]} ∪ Q) = list_to_set (quad_of <$> t :: ts) ∪ Q) as Eset by (simpl; set_solver).
    rewrite Eset in *. split_and!; [done|done|constructor; [by eexists|done]|]. by exists ({[quad_of t]} ∪ Q).
Qed.

(** The ids of the quads, as the second pass needs them. *)
Lemma rep_ids_ok k Q (x : Engine S W * RdfTripleStore) ids sl : rdf_rep k Q x -> triples x.2 !! ids = Some sl -> ids_ok ids.
Proof.
  intros [R1 R2 _ _ R5 _ _ _ _] Hm. destruct (proj1 (ri_map _ _ R1 ids)) as (q & Hq & E); [eauto|].
  destruct ids as [[[a b] c] g]. apply quad_ids_inv in E as (E1 & E2 & E3 & E4). rewrite (R2 q Hq) in E4. injection E4 as <-.
  pose proof (dk_range _ (ri_dict _ _ R1)) as Hrg. pose proof (Hrg _ _ E1). pose proof (Hrg _ _ E2). pose proof (Hrg _ _ E3).
  unfold ids_ok, uint. split_and!; try done; lia.
Qed.

Lemma rep_rebuild k Q (x : Engine S W * RdfTripleStore) allocated : rdf_rep k Q x -> (size (triples x.2) <= MAX_QUADS)%nat ->
  (forall p, p ∈ rdf_pages x.2 -> p ∈ allocated) -> (forall p, p ∈ allocated -> p < 3 \/ p ∈ rdf_pages x.2) ->
  exists st s, rebuild allocated rdf_new (page_manager x.1) = Some (st, s) /\
    term_to_id (dictionary st) = term_to_id (dictionary x.2) /\ id_to_term (dictionary st) = id_to_term (dictionary x.2) /\
    triples st = triples x.2 /\ forall t i, id_of (dictionary st) t = Some i -> i < d_next_id (dictionary st).
Proof.
  intros Hr Hsz Hsub Hall. pose proof Hr as [R1 R2 (D & Hg & Hp & Hs) R4 R5 _ _ _ _].
  pose proof (fun ids sl => rep_ids_ok k Q x ids sl Hr) as Hids. pose proof (ri_dict _ _ R1) as Hd.
  assert (forall p i bs, p ∈ D -> (i, bs) ∈ page_recs (page_manager x.1) p -> (exists t j, id_of (dictionary x.2) t = Some j /\ bs = term_bytes j t) \/
    (exists ids, triples x.2 !! ids = Some (slot_new p (Z.of_nat i)) /\ bs = quad_bytes ids)) as Hrec.
  { intros p i bs HpD Hin. apply (page_recs_elem (4 * k) D) in Hin as [Hi Hh]; [|done|done]. by apply (sd_only _ _ _ _ Hs). }
  assert (forall sl bs, hrec D (page_manager x.1) sl = Some bs -> exists p i, p ∈ D /\ (i, bs) ∈ page_recs (page_manager x.1) p /\ sl = slot_new p (Z.of_nat i)) as Hloc.
  { intros sl bs Hh. pose proof (hrec_inv _ _ _ _ Hh) as (H32 & HD & _). destruct (slot_of_parts sl H32) as (E & Hpr & H8). unfold uint in H8.
    exists (slot_page_id sl), (Z.to_nat (slot_index sl)). rewrite Z2Nat.id by lia. split_and!; [done| |done].
    apply (page_recs_elem (4 * k) D); [done|done|]. rewrite Z2Nat.id by lia. rewrite E. split; [lia|done]. }
  assert (forall t i, id_of (dictionary x.2) t = Some i -> term_entry (0%nat, term_bytes i t) = Some (i, t)) as Hent.
  { intros t i Hi. unfold term_entry. cbn [snd]. rewrite (proj2 (term_bytes_kind i t)). unfold term_bytes.
    rewrite term_record_roundtrip; [done|]. split; [|by eapply R4]. pose proof (dk_range _ Hd t i Hi). unfold uint. cbn [tr_id]. lia. }
  destruct (rebuild_terms_spec (4 * k) D allocated dict_new (page_manager x.1) Hg) as (es & l & s1 & E1 & Hg1 & Hq1 & He & Hl).
  { intros p [?|H]%Hall; [by left|right; by apply Hp]. }
  assert (forall i t, (i, t) ∈ es <-> id_of (dictionary x.2) t = Some i) as Hes.
  { intros i t. rewrite He. split.
    - intros (p & [j bs] & _ & HpD & Hin & Het). destruct (Hrec p j bs HpD Hin) as [(u & m & Hu & ->)|(ids & _ & ->)].
      + pose proof (Hent u m Hu) as Hu0. unfold term_entry in Hu0, Het. cbn [snd] in *. congruence.
      + unfold term_entry in Het. cbn [snd] in Het. by rewrite (proj2 (quad_bytes_kind ids)) in Het.
    - intros Hi. destruct (sd_term _ _ _ _ Hs t i Hi) as [sl Hsl]. destruct (Hloc _ _ Hsl) as (p & j & HpD & Hin & _).
      exists p, (j, term_bytes i t). split_and!; [by apply Hsub, Hp|done|done|exact (Hent t i Hi)]. }
  destruct (reinsert_all_restores (dictionary x.2) es Hd) as [Em1 Em2]; [lia|done|].
  destruct (rebuild_triples_spec (4 * k) D (triples x.2) MAX_QUADS) with (d := reinsert_all es dict_new) (dfull := dictionary x.2)
    (pages := l) (st := set_dictionary rdf_new (reinsert_all es dict_new)) (s := s1) as (st & s2 & E2 & _ & _ & Hpa & Hf).
  { intros ids sl. apply Hids. } { done. } { done. }
  { eapply stored_same; [|exact Hs]. intros sl. by apply quiet_hrec. }
  { intros p H%Hl. apply H. }
  { split; simpl; [done|apply map_empty_subseteq|by apply index3_new]. }
  exists (set_rdf_pages st l), s2. unfold rebuild. change (dictionary rdf_new) with dict_new. rewrite E1. cbn [mbind option_bind]. rewrite E2. cbn [mbind option_bind set_rdf_pages dictionary triples].
  rewrite (pa_dict _ _ _ _ Hpa). split_and!; [done|done|done| |].
  - apply map_eq. intros ids. apply option_eq. intros sl. rewrite Hf. simpl. rewrite lookup_empty. split.
    + intros [?|(p & _ & Hm & _)]; [done|done].
    + intros Hm. right. destruct (Hloc _ _ (sd_quad _ _ _ _ Hs _ _ Hm)) as (p & j & HpD & Hin & ->). exists p. split.
      * apply Hl. split_and!; [by apply Hsub, Hp|done|]. exists (j, quad_bytes ids). split; [done|]. right. cbn [snd].
        destruct (quad_bytes_kind ids) as [K1 K2]. done.
      * split; [done|]. exists j. split; [|done]. rewrite (page_recs_quiet _ _ _ Hq1). done.
  - intros t i Hi. destruct (reinsert_all_spec (dictionary x.2) es Hd) as [_ _ (_ & _ & Hn)]; [lia| |].
    + apply Forall_forall. intros [j u] Hin. by apply Hes.
    + apply (Hn i t), Hes. unfold id_of in *. by rewrite Em1 in Hi.
Qed.
End Histories.

(** The answers depend on the maps only. *)
Lemma match_pattern_same iter st st' : term_to_id (dictionary st) = term_to_id (dictionary st') ->
  id_to_term (dictionary st) = id_to_term (dictionary st') -> triples st = triples st' ->
  forall s p o g, match_pattern iter st s p o g = match_pattern iter st' s p o g.
Proof.
  intros E1 E2 E3 s p o g.
  assert (forall t, resolve_pos st t = resolve_pos st' t) as Er by (intros [t|]; simpl; unfold id_of; by rewrite ?E1).
  assert (forall q, materialise (dictionary st) q = materialise (dictionary st') q) as Em.
  { intros [[[a b] c] d]. unfold materialise, triple_of, term_of. by rewrite E2. }
  unfold match_pattern, match_ids. rewrite !Er, E3.
  destruct (resolve_pos st' s), (resolve_pos st' p), (resolve_pos st' o), (resolve_pos st' g); try done.
  apply list_omap_ext, Forall2_same_length_lookup_2; [done|]. intros i q q' Hq Hq'. rewrite Hq in Hq'. injection Hq' as <-. apply Em.
Qed.


(** ** The store in use *)

Module RdfDemo.
#[local] Existing Instance additive_checksums.
#[local] Existing Instance GraphDemo.mem_store.
#[local] Existing Instance GraphDemo.mem_laws.
#[local] Existing Instance GraphDemo.mem_log.

Definition iri (s : string) : Term := Iri (text s).
Definition alice : Term := iri "http://example.org/people/alice".
Definition bob : Term := iri "http://example.org/people/bob".
Definition knows : Term := iri "http://xmlns.com/foaf/0.1/knows".
Definition name : Term := iri "http://xmlns.com/foaf/0.1/name".
Definition a_knows_b : Triple := mkTriple alice knows bob.
Definition a_named : Triple := mkTriple alice name (Literal (lit_string (text "Alice"))).
Definition b_knows_a : Triple := mkTriple bob knows alice.

Definition store0 : Engine GraphDemo.MemStore GraphDemo.MemLog * RdfTripleStore :=
  (engine_new GraphDemo.mem0 (GraphDemo.mkLog []) 0, rdf_new).
Definition run (ops : list rdf_op) := run_rdf_ops map_to_list (fun _ => 0) ops store0.

Definition session : list rdf_op :=
  [AddQuad (quad_of a_knows_b); AddQuad (mkQuad a_knows_b (Some bob)); AddQuad (quad_of a_knows_b);
   AddQuad (quad_of a_named); DeleteTriple a_knows_b; DeleteTriple a_knows_b; AddQuad (quad_of b_knows_a)].

Example session_answers : (fun r => r.1) <$> run session =
  Some [Ok true; Ok true; Ok false; Ok true; Ok true; Ok false; Ok true].
Proof. vm_compute. reflexivity. Qed.

Lemma rdf_answers_witness : exists rs y Q, run session = Some (rs, y) /\ rdf_effects session rs ∅ Q /\
  (forall s p o, NoDup (match_triples map_to_list y.2 s p o) /\ forall t, t ∈ match_triples map_to_list y.2 s p o <->
     triple_matches s p o t /\ exists q, q ∈ Q /\ q_triple q = t).
Proof.
  pose proof session_answers as Ha. destruct (run session) as [[rs y]|] eqn:E; [|discriminate Ha]. exists rs, y.
  destruct (rdf_answers map_to_list (fun _ => 0) session store0.1 rs y) as (Q & H1 & _ & H3).
  - intros m. reflexivity.
  - vm_compute. reflexivity.
  - exact E.
  - exists Q. split; [reflexivity|]. split; [exact H1|exact H3].
Defined.

Definition facts : list Triple := [a_knows_b; a_named; a_knows_b; b_knows_a].


(** A restart of that store, evaluated. *)
Example facts_after_restart :
  (y ← run (insertions facts); z ← rebuild [0; 1; 2; 3] rdf_new (page_manager y.2.1);
   Some (rdf_pages z.1, term_count z.1, match_triples map_to_list z.1 (Some alice) None None)) =
  Some ([3], 5%nat, [a_knows_b; a_named]).
Proof. vm_compute. reflexivity. Qed.

(** A log whose flush fails after [fl_fail] others. *)
Record FlakyLog := mkFlaky { fl_log : GraphDemo.MemLog; fl_fail : option nat }.

#[local] Program Instance flaky_log : WalLog FlakyLog := {|
  wal_append r w := let '(x, l) := wal_append r (fl_log w) in (x, mkFlaky l (fl_fail w));
  wal_flush w := match fl_fail w with
                 | Some O => (Err EIO, mkFlaky (fl_log w) None)
                 | Some (Datatypes.S n) => (Ok tt, mkFlaky (fl_log w) (Some n))
                 | None => (Ok tt, w)
                 end;
  wal_ok _ := True;
  wal_pending w r := r ∈ GraphDemo.ml_records (fl_log w);
  wal_durable w r := r ∈ GraphDemo.ml_records (fl_log w) |}.
Next Obligation.
  intros w r res w' _ _ [= <- <-]. split_and!; [done|intros x Hx; simpl; apply elem_of_app; by left|].
  exists (set_lsn r (Z.of_nat (length (GraphDemo.ml_records (fl_log w))))). split; [|done].
  simpl. apply elem_of_app; right; by apply list_elem_of_singleton.
Qed.
Next Obligation. intros [l [[|n]|]] res w' _ E; cbn in E; injection E as <- <-; done. Qed.

(** The terms of an insertion enter the dictionary before the commit, so that
    after a commit that failed their records are written by nobody: the second
    attempt is answered [true] and matched, and a restart loses the triple. *)
Example failed_commit_loses_terms :
  (y ← run_rdf_ops map_to_list (fun _ => 0) [AddQuad (quad_of a_named); AddQuad (quad_of a_knows_b); AddQuad (quad_of a_knows_b)]
         (engine_new GraphDemo.mem0 (mkFlaky (GraphDemo.mkLog []) (Some 1%nat)) 0, rdf_new);
   z ← rebuild [0; 1; 2; 3; 4] rdf_new (page_manager y.2.1);
   Some (y.1, match_triples map_to_list y.2.2 None None None, match_triples map_to_list z.1 None None None)) =
  Some ([Ok true; Err SeIoError; Ok true], [a_named; a_knows_b], [a_named]).
Proof. vm_compute. reflexivity. Qed.

(** Records are told apart by their length alone when the graph's indexes are
    rebuilt: a term record of 32 bytes (an IRI of 22 characters) is taken for
    a node. *)
Example term_becomes_a_node :
  let t := iri "http://example.org/abc" in
  (y ← run [AddQuad (quad_of (mkTriple t knows bob))]; z ← rebuild_indexes [3] y.2.1;
   Some (node_pages y.2.1, z.1, node_pages z.2)) = Some ([], Ok tt, [3]).
Proof. vm_compute. reflexivity. Qed.

(** And a node record whose id starts with the byte [0xD1] can be taken for a
    term. *)
Example node_becomes_a_term : exists n t,
  is_term_record (node_encode n) = true /\ term_record_decode (node_encode n) = Some t.
Proof. exists (mkNode 209 256 (mkSlotRef 0) (mkSlotRef 0) (mkSlotRef 0) 0 0 0). eexists. vm_compute. split; reflexivity. Qed.
End RdfDemo.
